(* ===== verification/_CoqProject ===== *)
-Q . S2P
Prelude.v
Probing.v
Dlp.v
Structured.v
Hashset.v
Hashtab.v
Climap.v
VmStack.v
VmCore.v
VmExec.v
VmFacts.v
VmInv.v
VmSafe.v
JitRun.v
RtChecks.v
RtVerify.v
Bitset.v
BcRead.v
BcLoad.v
ApiTables.v
Samples.v
BcLoadFacts.v
BcLoadSafe.v
BcLoadProps.v
BcPrepare.v
BcPlaces.v
BcPrepFacts.v
BcContext.v
BcPrepProps.v
StrSearch.v
BcApi.v
BcApiFacts.v
BcApiProps.v
PackLibs.v
PackFacts.v
PackRound.v
Filter.v
CalOff.v
QSort.v
QSortFacts.v
Bm.v
BmFacts.v
BmOffset.v
BmOffProps.v
MatcherRun.v
MatcherFacts.v
MatcherProps.v
Ac.v
AcMatch.v
AcScan.v
AcWords.v
AcBfs.v
AcChain.v
AcBuild.v
AcTrans.v
AcAdd.v
AcSearch.v
AcProps.v
LSig.v
LSigFacts.v
LSigProps.v
LSigTotal.v
LSigEval.v
FilterAc.v
FilterAcFacts.v
AddSig.v
AddSigFacts.v
AddSigCut.v
AddSigProps.v
ParseAdd.v
Database.v
LoadDb.v
LoadDbProps.v
ScanFile.v
ScanFileProps.v
Mpool.v
MpoolFacts.v
MpoolInv.v
MpoolOps.v
MpoolProps.v
