(* ===== verification/Prelude.v ===== *)
(** * Verification of the MyDLP scanning host

    The program is a fork of ClamAV: a library (src/libclamav) that scans files,
    extended with detectors for structured personal data.  This development
    models the parts below, with what they are built on.

    - Data-loss prevention: credit card numbers, social security numbers,
      Turkish identification numbers, configured expressions and IBANs are
      searched in the chunks of a file and counted against thresholds (dlp.c,
      dlp_regex.c, dlp_iban.c, [cli_scan_structured] of scanners.c).
    - Bytecode: signatures may be programs.  They are loaded from text files
      (bytecode.c), prepared for the interpreter or for the JIT compiler, and
      run by the interpreter (bytecode_vm.c) or as compiled code
      (c++/bytecode2llvm.cpp) into which bounds checks were inserted
      (c++/ClamBCRTChecks.cpp).
    - Matching: plain signatures are searched in the windows of a file by a
      prefilter (filtering.c) and a Boyer-Moore matcher (matcher-bm.c), at any
      position or at offsets computed from a description (matcher.c); signatures
      with wildcards, alternatives or several parts by an Aho-Corasick matcher
      (matcher-ac.c).  The texts of signatures are read and given to one of the
      two by readdb.c and matcher-ac.c.
    - Unpacking: packed executables are decompressed before they are scanned
      (packlibs.c).
    - Containers and algorithms used by these: hash sets, hash tables and maps
      (hashtab.c), bit sets (others.c), sorting (qsort.c), byte search (str.c),
      and the memory pools the database lives in (mpool.c).

    ** Files

    - [Prelude]: the option and result monads, C integers, allocation, lemmas
      and the hint database [clam].  [Probing]: the arithmetic of triangular
      probing.
    - [Dlp]: dlp.c.  One definition per C function; the scanners over
      [scan_loop].  Theorems C1 and C2.
    - [Structured]: dlp_regex.c, dlp_iban.c, [cli_scan_structured].  C3.
    - [Hashset], [Hashtab], [Climap]: [struct cli_hashset], [struct
      cli_hashtable], [struct cli_map] of hashtab.c.  C20 and C21.
    - [Bitset]: [bitset_t] of others.c, a finite set of numbers.
    - [VmStack]: the stack allocator of the interpreter; regions are disjoint.
    - [VmCore]: memory as numbered blocks, pointers of the interpreter, integer
      instructions.  [VmExec]: the state of [cli_vm_execute], one definition per
      group of instructions, [step] and [run].  [VmFacts]: pointers, operands
      and arithmetic, C22 to C24.  [VmInv]: the invariant of the machine.
      [VmSafe]: whole runs, C25 and C26.
    - [JitRun]: the run-time library of compiled code, the watchdog thread as an
      interleaving of two threads, the life of the JIT engine.  C27 to C30.
    - [RtChecks], [RtVerify]: the pass [PtrVerifier] over the LLVM values it
      looks at.  C31.
    - [BcRead]: the readers of a line, in a state monad with Hoare triples.  C32
      and C33.  [BcLoad]: the parsers of the lines and [cli_bytecode_load].
      [ApiTables]: the tables of bytecode_api_decl.c.  [Samples]: programs of
      the test suite.  [BcLoadFacts], [BcLoadSafe], [BcLoadProps]: what the
      loader guarantees, C34 and C35.
    - [BcPrepare]: [cli_bytecode_prepare_interpreter] and
      [cli_bytecode_prepare]. [BcPlaces]: which place each operand gets.
      [BcPrepFacts], [BcPrepProps]: layout, the way from the file to the result,
      the choice of the engine, C36 and C37.
    - [BcContext]: the parameters of a call and [cli_bytecode_run], used by C37.
    - [StrSearch]: [cli_memstr] of str.c and [cli_memmem].  [search_first].
      [BcApi]: the functions that programs call (bytecode_api.c): file access,
      buffer pipes, hash sets and maps.  [BcApiFacts], [BcApiProps]: C38 to C40.
    - [Filter]: the shift-or prefilter of filtering.c; it misses no static
      pattern. [FilterAc], [FilterAcFacts]: how patterns with wildcards enter
      it, C15.  [CalOff]: [cli_caloff] of matcher.c.  [Bm]: matcher-bm.c, with
      chains as lists. [BmFacts]: a scan visits every position at which a
      pattern can match, and what adding a pattern does.  [BmOffset],
      [BmOffProps]: scanning by offsets, C12.  [MatcherRun]: [matcher_run] and
      the loop of [cli_fmap_scandesc] over the windows of a file.
      [MatcherFacts], [MatcherProps]: C11.
    - [Mpool]: mpool.c, with the bytes of its areas, in which the header of a
      fragment stands in front of what the caller writes.  [MpoolFacts],
      [MpoolInv], [MpoolOps]: the invariant and each operation.  [MpoolProps]:
      C19.
    - [Ac], [AcMatch], [AcScan]: matcher-ac.c; nodes and patterns are tables,
      pointers are indices.  [AcWords] to [AcAdd]: the trie, its traversals,
      links and transitions.  [AcSearch], [AcProps]: scanning, C6 and C7.
    - [AddSig]: [cli_ac_addsig], with the functions of str.c and mpool.c that
      read hexadecimal texts and fields.  [AddSigFacts]: the syntax of texts as
      data, their printing, what they mean, C13.  [AddSigCut]: the static part a
      pattern is found by.  [AddSigProps]: C14.  [ParseAdd]: [cli_parse_add] of
      readdb.c on one matcher with both algorithms.  [Database]: lines of the
      database and a run over a buffer, C5.
    - [LoadDb]: the files of readdb.c with signatures and with logical
      signatures, from the lines [cli_dbgets] returns: [cli_initroots],
      [cli_loadndb], [cli_loadldb], [lsigattribs], [load_oneldb].
      [LoadDbProps]: [ndb_file_is_searched], and examples of logical signatures
      from their text to what is reported.
    - [ScanFile]: [cl_engine_compile] over the matchers, [cli_ac_caloff],
      [cli_scanbuff] and [cli_fmap_scandesc], on the engine that [LoadDb] fills.
      [ScanFileProps]: from the lines of a file of signatures to the report on a
      file, C4, and a run of one matcher, C10.
    - [LSig]: [cli_ac_chklsig], which evaluates the text of a logical
      expression, and [cli_lsig_eval] of matcher.c.  [LSigFacts], [LSigProps]:
      grammar, meaning and C8.  [LSigTotal]: it ends on any text.  [LSigEval]:
      C9.
    - [QSort], [QSortFacts]: [cli_qsort].  C18.
    - [PackLibs]: [cli_unfsg].  [PackFacts], [PackRound]: it is safe on every
      input, and inverts the encoding it is made for, C16 and C17.

    ** How the code is modelled

    Buffers are lists of byte values; every access goes through [bget] or
    [bset], and an access that the C program must not make gives [None] or
    [Undef], never an error code.  Error codes are values.  Integers are in Z,
    with the wrap-around of their width written out ([uint], [sint]).
    Allocations take a boolean that tells whether the C library has memory, so
    that the theorems cover failures too; [cli_malloc] and its kin refuse 0 and
    more than 182 MiB, as in others_common.c.  The machine is little-endian with
    64-bit pointers.

    The mutable state of a component is a record; functions that mutate it
    return the new record.  The threads of the watchdog are step relations on a
    shared state.

    ** What the theorems show

    - Detection: the validators accept exactly the numbers described without
      reference to the code (Luhn sums, issuer tables, issued areas), card
      numbers for the lengths of up to 16 that the header documents; the
      scanners find a number exactly if there is one, and count a largest set of
      positions that are at least 16 bytes apart; the driver reports the name of
      the first detector, in the order of the code, that has reached its
      threshold.
    - Containers refine finite sets and maps (hash tables as long as nothing is
      inserted after a deletion), and the memory pools a heap of blocks that
      keep their contents, under failing allocations.
    - Interpreter: pointer and operand checks are exact; instructions compute
      what LLVM defines; the frame discipline is an invariant of all reachable
      states; scalar programs never run into undefined behaviour and return;
      every run ends at the timeout.
    - JIT: the run-time library agrees with the interpreter; the watchdog
      reports a timeout exactly if there was one and no wake-up is lost;
      preparation marks all programs or none, even if the compilation at its end
      fails; accesses in functions that pass the bounds-check pass stay in their
      object when the inserted comparisons hold.
    - Loader: numbers and data are read back from their encoding; readers stay
      in the line; parsers end; a loaded program is well formed.
    - From the file to the result: the frames of a prepared program are laid out
      without overlap, its instructions refer to the places of their operands,
      and a program of plain instructions that is loaded and prepared runs
      safely and returns.
    - Matching: the prefilter rejects no text that contains a pattern without
      alternatives which it accepted; the matcher of bytes reports a virus
      exactly if a signature occurs, in a buffer and in a file that is read in
      windows; in offset mode, for offsets without a shift, exactly if one
      occurs at the offset its description resolves to.  The Aho-Corasick
      automaton recognises the keys of any set of patterns, and for patterns of
      characters, nibbles and ignored bytes its scan is an exact search.  Texts
      of signatures are read as they are meant; and for lines of bytes, nibbles
      and ignored bytes (no alternatives or jumps) the whole way, from
      [cli_parse_add] over both matchers and the prefilter to the run over a
      buffer, reports a virus exactly if a line stands there.  The same holds
      from the file on that [cli_loadndb] reads into a new engine to the report
      of [cli_fmap_scandesc] on a file of less than 2 GiB, for every type but PE
      files, whose matcher works by offsets: the windows miss no line that
      stands across two of them.  Logical expressions, in which a number of
      different signatures is asked for of blocks without comparisons only, have
      the meaning of the manual, and the first signature that fits is reported.
      Sorting gives a sorted permutation of arrays of less than 2^31 bytes.
    - Unpacking: on any input the decompressor ends and stays inside its
      buffers, and it returns the text of every encoding.
    - API: searches find the first occurrence, if it does not cross the end of a
      block that is read nor end at the limit; a pipe is a queue; a buffer that
      is filled from the file is a window on it without gaps.

    Lemmas that begin with the name of a defect ([reinsert_after_delete_hangs],
    [sdiv_operands_swapped], [recursive_type_diverges], ...) show inputs on
    which the code does not do what it means to.

    ** Fuel

    Loops that are not structural take fuel.  Scanners get one round per byte of
    the buffer ([scan_fuel]), which is enough as the index grows in each;
    probing gets one round per slot, and C20 and C21 show that the search ends
    by then.  The parsers of the loader compute their fuel from the length of
    the line (each round consumes a byte) and C35 shows that it suffices; only
    the two recursions over types take fuel as an argument, because the C code
    itself does not end on recursive types.  The interpreter takes the number of
    rounds as an argument; C26 and C37 show how many are enough.  The searches
    get one round per byte of the haystack or of the file, enough by
    [search_first] and C38; the decompressor eight per byte of its input, as
    each round consumes a bit (C16); the loop over windows one per 65536 bytes
    of the file, as windows overlap by less than half (C11, C4); the recursion
    of [cli_qsort] one more than the length of the array (C18).  The loops of
    the prefilter for wildcards get one round per value of a character or per
    position; the reading of blocks one per character of the text (C13); the
    loops of the Aho-Corasick matcher get one round per node or pattern, enough
    by C6 and C7.  The recursion of the bounds-check pass over the values of a
    function takes fuel as an argument as well: it is bounded by the number of
    values.

    ** Parameters

    PCRE, MD5, the answers of the system to requests for memory and for pages of
    a file, the callback for progress, the match of icons, the clock, the thread
    scheduler, LLVM (scalar evolution, dominators, code generation), the parsers
    of executable headers and, for the interpreter, the functions of the
    bytecode API that it calls are parameters; what is assumed of them is a
    named hypothesis ([api_ok], [expires_at], ...) that the witnesses satisfy.
    The theorem on the windows of [MatcherRun] holds for any answers of the
    second matcher it calls.

    ** Not modelled

    The scanners for file formats, the formats of databases other than the two
    of [LoadDb], the lists of signatures to ignore and of unwanted categories,
    the archives of databases, the daemon and the command line tools (file,
    network and thread I/O around third-party formats), the other unpackers
    ([unmew] of packlibs.c works in place on one buffer), the paging of file
    maps (mmap), LLVM itself and [LLVMCodegen], which only calls LLVM, the
    helper that keeps MD5 sums in a temporary file, and the API functions that
    use floating point, decompression, JavaScript or temporary files.  The list
    of components with reasons is in the manifest. *)
From stdpp Require Import base numbers list list_numbers gmap.
From Stdlib Require Import ZArith Lia Bool.

#[global] Open Scope Z_scope.

Declare Scope clam_scope.
Delimit Scope clam_scope with clam.

(** * The option monad of the fallible C code: [None] is an access the C
    program must never make (undefined behaviour), never a C-level error
    code, which is an ordinary value. *)
Notation "'let*' x ':=' m 'in' k" := (match m with Some x => k | None => None end)
  (at level 10, x pattern, m at level 100, k at level 200) : clam_scope.
Notation "'assert*' b 'in' k" := (if b then k else None)
  (at level 10, b at level 100, k at level 200) : clam_scope.

(** Loops that need not terminate are run with fuel: [Ok] is a result, [Undef]
    undefined behaviour, [NoFuel] the fuel ran out. *)
Inductive res (A : Type) := Ok (a : A) | Undef | NoFuel.
Arguments Ok {A} a.
Arguments Undef {A}.
Arguments NoFuel {A}.

Definition of_opt {A} (o : option A) : res A := match o with Some a => Ok a | None => Undef end.

Notation "'let!' x ':=' m 'in' k" :=
  (match m with Ok x => k | Undef => Undef | NoFuel => NoFuel end)
  (at level 10, x pattern, m at level 100, k at level 200) : clam_scope.
#[global] Open Scope clam_scope.

(** * Machine integers *)

(** [uint w v] is the C conversion of [v] to an unsigned [w]-bit type,
    [sint w v] the (two's complement) conversion to a signed one. *)
Definition uint (w v : Z) : Z := v `mod` 2 ^ w.
Definition sint (w v : Z) : Z :=
  let x := v `mod` 2 ^ w in if x <? 2 ^ (w - 1) then x else x - 2 ^ w.

(** [bget b i] is the read [b[i]] of an array: defined inside it only. *)
Definition bget {A} (b : list A) (i : Z) : option A :=
  if i <? 0 then None else b !! Z.to_nat i.

(** [bset b i v] is the write [b[i] = v]: defined inside the array only. *)
Definition bset {A} (b : list A) (i : Z) (v : A) : option (list A) :=
  if (0 <=? i) && (i <? Z.of_nat (length b)) then Some (<[Z.to_nat i := v]> b) else None.

(** The error codes used here, with their values in the enumeration
    [cl_error_t] of clamav.h; all of them but success are positive. *)
Module Errors.
Definition CL_SUCCESS : Z := 0.
Definition CL_CLEAN : Z := 0.
Definition CL_VIRUS : Z := 1.
Definition CL_ENULLARG : Z := 2.
Definition CL_EARG : Z := 3.
Definition CL_EMALFDB : Z := 4.
Definition CL_EMEM : Z := 21.
Definition CL_ETIMEOUT : Z := 22.
Definition CL_BREAK : Z := 23.
Definition CL_EBYTECODE : Z := 28.
End Errors.

(** The allocators of others_common.c: whether a call gives memory, where [ok]
    says whether the C library's allocator would.  [cli_calloc] tests the size
    of one element only. *)
Module Alloc.
Definition CLI_MAX_ALLOCATION : Z := 184549376.
Definition cli_malloc (ok : bool) (size : Z) : bool :=
  if (size =? 0) || (CLI_MAX_ALLOCATION <? size) then false else ok.
Definition cli_calloc (ok : bool) (nmemb size : Z) : bool :=
  if (size =? 0) || (CLI_MAX_ALLOCATION <? size) then false else ok.
Definition cli_realloc (ok : bool) (size : Z) : bool :=
  if (size =? 0) || (CLI_MAX_ALLOCATION <? size) then false else ok.
End Alloc.

(** * Automation *)

Create HintDb clam.

(** Case analysis on the innermost boolean tests and matches of the goal. *)
Ltac split_match :=
  match goal with
  | |- context [match ?x with _ => _ end] =>
      lazymatch x with context [match _ with _ => _ end] => fail | _ => destruct x eqn:? end
  end.

(** The same in the hypothesis [H]. *)
Ltac split_match_in H :=
  match type of H with
  | context [match ?x with _ => _ end] =>
      lazymatch x with context [match _ with _ => _ end] => fail | _ => destruct x eqn:? end
  end.

(** Positivity of a power of two, the side condition of most word lemmas. *)
Ltac pow2_pos := first [lia | apply Z.pow_pos_nonneg; lia].

(** * Generic lemmas *)

Lemma pow2_gt0 (w : Z) : 0 <= w -> 0 < 2 ^ w.
Proof. intros; apply Z.pow_pos_nonneg; lia. Qed.

Lemma pow2_half (w : Z) : 0 < w -> 2 ^ w = 2 * 2 ^ (w - 1).
Proof.
  intros. rewrite <- Z.pow_succ_r by lia. f_equal; lia.
Qed.

Lemma uint_range (w v : Z) : 0 <= w -> 0 <= uint w v < 2 ^ w.
Proof. intros; unfold uint; apply Z.mod_pos_bound, pow2_gt0; done. Qed.

Lemma uint_small (w v : Z) : 0 <= v < 2 ^ w -> uint w v = v.
Proof. intros; unfold uint; apply Z.mod_small; done. Qed.

Lemma uint_uint (w v : Z) : 0 <= w -> uint w (uint w v) = uint w v.
Proof. intros; apply uint_small, uint_range; done. Qed.

Lemma sint_range (w v : Z) : 0 < w -> - 2 ^ (w - 1) <= sint w v < 2 ^ (w - 1).
Proof.
  intros. unfold sint. pose proof (Z.mod_pos_bound v (2 ^ w) (pow2_gt0 w ltac:(lia))).
  pose proof (pow2_half w ltac:(lia)).
  cbv zeta; destruct (Z.ltb_spec (v `mod` 2 ^ w) (2 ^ (w - 1))); lia.
Qed.

Lemma sint_small (w v : Z) : 0 < w -> - 2 ^ (w - 1) <= v < 2 ^ (w - 1) -> sint w v = v.
Proof.
  intros Hw Hv. unfold sint. pose proof (pow2_half w Hw) as Hp.
  destruct (decide (0 <= v)).
  - rewrite Z.mod_small by lia. destruct (Z.ltb_spec v (2 ^ (w - 1))); lia.
  - replace (v `mod` 2 ^ w) with (v + 2 ^ w).
    + destruct (Z.ltb_spec (v + 2 ^ w) (2 ^ (w - 1))); lia.
    + symmetry. rewrite <- (Z.mod_add v 1) by lia. rewrite Z.mul_1_l, Z.mod_small; lia.
Qed.

(** Signed and unsigned readings of one bit pattern are congruent. *)
Lemma uint_sint (w v : Z) : 0 < w -> uint w (sint w v) = uint w v.
Proof.
  intros. unfold uint, sint. cbv zeta.
  destruct (_ <? _).
  - apply Z.mod_mod; pose proof (pow2_gt0 w); lia.
  - rewrite Zminus_mod, Z_mod_same_full, Z.sub_0_r, !Z.mod_mod; pose proof (pow2_gt0 w); lia.
Qed.

Lemma sint_uint (w v : Z) : 0 < w -> sint w (uint w v) = sint w v.
Proof.
  intros. unfold sint, uint. rewrite Z.mod_mod; [done|]. pose proof (pow2_gt0 w); lia.
Qed.

Lemma sint_eq_iff (w a b : Z) : 0 < w -> sint w a = sint w b <-> uint w a = uint w b.
Proof.
  intros. split; intros E.
  - rewrite <- (uint_sint w a), <- (uint_sint w b) by done. congruence.
  - rewrite <- (sint_uint w a), <- (sint_uint w b) by done. congruence.
Qed.

Lemma bget_Some {A} (b : list A) i x :
  bget b i = Some x -> 0 <= i < Z.of_nat (length b).
Proof.
  unfold bget. destruct (Z.ltb_spec i 0); [done|].
  intros Hl%lookup_lt_Some. lia.
Qed.

Lemma bget_is_Some {A} (b : list A) i :
  0 <= i < Z.of_nat (length b) -> is_Some (bget b i).
Proof.
  unfold bget. intros. destruct (Z.ltb_spec i 0); [lia|].
  apply lookup_lt_is_Some. lia.
Qed.

Lemma bget_lookup {A} (b : list A) (i : Z) :
  0 <= i -> bget b i = b !! Z.to_nat i.
Proof. unfold bget. intros. destruct (Z.ltb_spec i 0); [lia|done]. Qed.

Lemma bget_drop {A} (b : list A) (i j : Z) :
  0 <= i -> 0 <= j -> bget (drop (Z.to_nat i) b) j = bget b (i + j).
Proof.
  intros. rewrite !bget_lookup by lia. rewrite lookup_drop. f_equal. lia.
Qed.

Lemma drop_bget {A} (p : list A) i c : 0 <= i -> bget p i = Some c ->
  drop (Z.to_nat i) p = c :: drop (Z.to_nat (i + 1)) p.
Proof. intros Hi Hc. rewrite bget_lookup in Hc by lia. rewrite (drop_S _ _ _ Hc). do 2 f_equal. lia. Qed.

Lemma bset_Some {A} (b b' : list A) i v :
  bset b i v = Some b' -> 0 <= i < Z.of_nat (length b) /\ b' = <[Z.to_nat i := v]> b.
Proof.
  unfold bset. destruct (_ && _) eqn:E; intros [= <-]. split; [lia|done].
Qed.

Lemma bset_is_Some {A} (b : list A) i v :
  0 <= i < Z.of_nat (length b) -> bset b i v = Some (<[Z.to_nat i := v]> b).
Proof. unfold bset. intros. by replace ((0 <=? i) && (i <? _)) with true by lia. Qed.

Lemma bget_insert_eq {A} (b : list A) i v :
  0 <= i < Z.of_nat (length b) -> bget (<[Z.to_nat i := v]> b) i = Some v.
Proof. intros. rewrite bget_lookup by lia. apply list_lookup_insert_eq. lia. Qed.

Lemma bget_insert_ne {A} (b : list A) i j v :
  0 <= i -> 0 <= j -> i <> j -> bget (<[Z.to_nat i := v]> b) j = bget b j.
Proof. intros. rewrite !bget_lookup by lia. apply list_lookup_insert_ne. lia. Qed.

(** The first position where a boolean test holds. *)
Lemma least_nat (f : nat -> bool) n : f n = true ->
  exists m, (m <= n)%nat /\ f m = true /\ forall k, (k < m)%nat -> f k = false.
Proof.
  induction n as [n IH] using lt_wf_ind. intros Hn.
  destruct (existsb f (List.seq 0 n)) eqn:E.
  - apply existsb_exists in E as (m & Hm%List.in_seq & Hf).
    destruct (IH m) as (m' & ? & ? & ?); [lia|done|]. exists m'. split; [lia|done].
  - exists n. split; [lia|]. split; [done|]. intros k Hk.
    destruct (f k) eqn:Ek; [|done].
    assert (existsb f (List.seq 0 n) = true); [|congruence].
    apply existsb_exists. exists k. rewrite List.in_seq. split; [lia|done].
Qed.

(** Testing one bit by masking. *)
Lemma land_shiftl1_testbit w b : 0 <= b -> (Z.land w (Z.shiftl 1 b) =? 0) = negb (Z.testbit w b).
Proof.
  intros Hb. destruct (Z.testbit w b) eqn:E.
  - apply Z.eqb_neq. intros H. apply (f_equal (fun x => Z.testbit x b)) in H.
    rewrite Z.land_spec, E, Z.shiftl_spec, Z.sub_diag, Z.testbit_0_l in H by done. done.
  - apply Z.eqb_eq, Z.bits_inj'. intros i Hi. rewrite Z.land_spec, Z.bits_0.
    destruct (decide (i = b)) as [->|]; [by rewrite E|].
    rewrite Z.shiftl_spec by done. apply andb_false_iff. right.
    destruct (decide (i < b)); [apply Z.testbit_neg_r; lia|].
    change 1 with (2 ^ 0). apply Z.pow2_bits_false. lia.
Qed.

Lemma land_mask k x : 0 <= k -> Z.land x (2 ^ k - 1) = x `mod` 2 ^ k.
Proof. intros. rewrite <- Z.land_ones by done. by rewrite Z.ones_equiv. Qed.

#[export] Hint Resolve pow2_gt0 uint_range sint_range : clam.
#[export] Hint Resolve bget_is_Some : clam.
