(* ===== verification/Probing.v ===== *)
(** Triangular probing in tables whose size is a power of two: the arithmetic
    behind the open-addressing tables of libclamav/hashtab.c ("quadratic
    probing, with c1 = c2 = 1/2, guaranteed to walk the entire table for table
    sizes power of 2"). *)
From stdpp Require Import base numbers list list_numbers.
From Stdlib Require Import ZArith Lia Bool Znumtheory.
From S2P Require Import Prelude.
Local Open Scope Z_scope.

(** The slot visited after [t] collisions by a search that starts at [h] in a
    table of [n] slots: the successive increments are 1, 2, 3, ... *)
Definition probe (n h t : Z) : Z := (h + t * (t + 1) / 2) `mod` n.

Lemma triangle_step t : 0 <= t -> (t + 1) * (t + 1 + 1) / 2 = t * (t + 1) / 2 + (t + 1).
Proof.
  intros. replace ((t + 1) * (t + 1 + 1)) with (t * (t + 1) + (t + 1) * 2) by ring.
  by rewrite Z.div_add by lia.
Qed.

Lemma triangle_double t : 2 * (t * (t + 1) / 2) = t * (t + 1).
Proof.
  assert ((t * (t + 1)) `mod` 2 = 0) as H.
  { rewrite Zmult_mod, (Zplus_mod t 1). pose proof (Z.mod_pos_bound t 2 ltac:(lia)).
    assert (t `mod` 2 = 0 \/ t `mod` 2 = 1) as [->| ->] by lia; reflexivity. }
  pose proof (Z.div_mod (t * (t + 1)) 2 ltac:(lia)). lia.
Qed.

Lemma probe_range n h t : 0 < n -> 0 <= probe n h t < n.
Proof. intros. apply Z.mod_pos_bound. done. Qed.

Lemma probe_0 n h : 0 <= h < n -> probe n h 0 = h.
Proof. intros. unfold probe. change (0 * (0 + 1) / 2) with 0. rewrite Z.add_0_r. by apply Z.mod_small. Qed.

Lemma probe_step n h t : 0 < n -> 0 <= t -> probe n h (t + 1) = (probe n h t + (t + 1)) `mod` n.
Proof.
  intros. unfold probe. rewrite triangle_step by done.
  rewrite Zplus_mod_idemp_l. f_equal. lia.
Qed.

(** A power of two divides a product of an odd and another factor only if it
    divides the other one. *)
Lemma pow2_divide_odd k a b : 0 <= k -> Z.odd a = true -> (2 ^ k | a * b) -> (2 ^ k | b).
Proof.
  intros Hk Ho. revert b. pattern k. apply natlike_ind; [|clear k Hk; intros k Hk IH b Hd|done].
  { intros b _. exists b. rewrite Z.pow_0_r. lia. }
  rewrite Z.pow_succ_r in * by done. destruct Hd as [m Hm].
  assert (Z.even b = true) as He.
  { assert (Z.even (a * b) = true) as E by (rewrite Hm, !Z.even_mul; cbn; by rewrite orb_true_r).
    rewrite Z.even_mul, <- (Z.negb_odd a), Ho in E. done. }
  apply Z.even_spec in He as [b' ->].
  destruct (IH b') as [q ->]; [exists m; nia|]. exists q. ring.
Qed.

(** Two different searches of fewer than [2^k] steps never meet. *)
Lemma probe_inj k h i j :
  0 <= k -> 0 <= i < 2 ^ k -> 0 <= j < 2 ^ k ->
  probe (2 ^ k) h i = probe (2 ^ k) h j -> i = j.
Proof.
  intros Hk. revert i j.
  enough (forall i j, 0 <= i < j -> j < 2 ^ k -> probe (2 ^ k) h i <> probe (2 ^ k) h j) as Hlt.
  { intros i j Hi Hj E. destruct (Ztrichotomy i j) as [H|[H|H]]; [|done|].
    - exfalso. apply (Hlt i j); lia || done.
    - exfalso. apply (Hlt j i); lia || done. }
  intros i j Hij Hj E. pose proof (pow2_gt0 k Hk).
  assert (2 ^ (k + 1) | (j - i) * (j + i + 1)) as Hd.
  { unfold probe in E.
    assert ((2 ^ k | (j * (j + 1) / 2) - (i * (i + 1) / 2))) as [m Hm].
    { apply Z.mod_divide; [lia|].
      replace (j * (j + 1) / 2 - i * (i + 1) / 2)
        with ((h + j * (j + 1) / 2) - (h + i * (i + 1) / 2)) by lia.
      rewrite Zminus_mod, <- E, Z.sub_diag. by apply Zmod_0_l. }
    exists m. rewrite Z.pow_add_r, Z.pow_1_r by lia.
    pose proof (triangle_double i). pose proof (triangle_double j). nia. }
  destruct (Z.odd (j - i)) eqn:Ho.
  - apply pow2_divide_odd in Hd; [|lia|done].
    apply Z.divide_pos_le in Hd; [|lia]. rewrite Z.pow_add_r, Z.pow_1_r in Hd by lia. lia.
  - rewrite Z.mul_comm in Hd. apply pow2_divide_odd in Hd; [|lia|].
    + apply Z.divide_pos_le in Hd; [|lia]. rewrite Z.pow_add_r, Z.pow_1_r in Hd by lia. lia.
    + replace (j + i + 1) with ((j - i) + (2 * i + 1)) by lia.
      rewrite Z.odd_add, Ho. rewrite Z.odd_add, Z.odd_mul. done.
Qed.

(** Hence [2^k] steps visit every slot. *)
Lemma probe_surj k h s : 0 <= k -> 0 <= s < 2 ^ k ->
  exists t, 0 <= t < 2 ^ k /\ probe (2 ^ k) h t = s.
Proof.
  intros Hk Hs. pose proof (pow2_gt0 k Hk).
  set (n := Z.to_nat (2 ^ k)).
  set (visited := map (fun t => Z.to_nat (probe (2 ^ k) h (Z.of_nat t))) (List.seq 0 n)).
  assert (List.NoDup visited) as Hnd.
  { unfold visited. apply Finite.Injective_map_NoDup_in; [|apply List.seq_NoDup].
    intros x y Hx%List.in_seq Hy%List.in_seq E.
    pose proof (probe_range (2 ^ k) h (Z.of_nat x)). pose proof (probe_range (2 ^ k) h (Z.of_nat y)).
    apply Nat2Z.inj, (probe_inj k h); lia. }
  assert (List.incl visited (List.seq 0 n)) as Hin.
  { intros x (t & <- & _)%List.in_map_iff. apply List.in_seq.
    pose proof (probe_range (2 ^ k) h (Z.of_nat t)). lia. }
  assert (In (Z.to_nat s) visited) as (t & Et & Ht%List.in_seq)%List.in_map_iff.
  { eapply List.NoDup_length_incl; [exact Hnd| |exact Hin|apply List.in_seq; lia].
    unfold visited. rewrite length_map. done. }
  exists (Z.of_nat t). split; [lia|]. pose proof (probe_range (2 ^ k) h (Z.of_nat t)). lia.
Qed.

(** The first slot of a search where a test holds, if it holds anywhere. *)
Lemma probe_first k h (stop : Z -> bool) s : 0 <= k -> 0 <= s < 2 ^ k -> stop s = true ->
  exists t, 0 <= t < 2 ^ k /\ stop (probe (2 ^ k) h t) = true /\
    forall j, 0 <= j < t -> stop (probe (2 ^ k) h j) = false.
Proof.
  intros Hk Hs Hst. destruct (probe_surj k h s Hk Hs) as (t & Ht & Et).
  destruct (least_nat (fun n => stop (probe (2 ^ k) h (Z.of_nat n))) (Z.to_nat t))
    as (m & Hm & Hst' & Hbl).
  { cbn. rewrite Z2Nat.id by lia. by rewrite Et. }
  exists (Z.of_nat m). split; [lia|]. split; [done|]. intros j Hj.
  specialize (Hbl (Z.to_nat j) ltac:(lia)). cbn in Hbl. by rewrite Z2Nat.id in Hbl by lia.
Qed.

(** A probing loop [F fuel slot tries] that leaves with [R] at the slots where
    [stop] holds and goes on to the next slot elsewhere leaves at the first of
    them. *)
Lemma probe_loop_run {A} (F : nat -> Z -> Z -> A) (R : Z -> A) (stop : Z -> bool) n h m :
  (forall f t, 0 <= t < n -> stop (probe n h t) = true ->
     F (S f) (probe n h t) (t + 1) = R (probe n h t)) ->
  (forall f t, 0 <= t -> t + 1 < n -> stop (probe n h t) = false ->
     F (S f) (probe n h t) (t + 1) = F f (probe n h (t + 1)) (t + 1 + 1)) ->
  0 <= m < n -> stop (probe n h m) = true -> (forall j, 0 <= j < m -> stop (probe n h j) = false) ->
  forall fuel, m < Z.of_nat fuel -> F fuel (probe n h 0) 1 = R (probe n h m).
Proof.
  intros Hstop Hgo Hm Hst Hbl.
  enough (forall d t fuel, 0 <= t -> t + Z.of_nat d = m -> Z.of_nat d < Z.of_nat fuel ->
            F fuel (probe n h t) (t + 1) = R (probe n h m)) as H.
  { intros fuel Hf. apply (H (Z.to_nat m) 0); lia. }
  induction d as [|d IH]; intros t [|f] Ht E Hf; try lia.
  - replace t with m in * by lia. by apply Hstop.
  - rewrite Hgo; [|lia|lia|apply Hbl; lia]. apply IH; lia.
Qed.
