(* ===== verification/Dlp.v ===== *)
(** Structured-data detection (data-loss prevention): the validators and
    scanners of libclamav/dlp.c.

    A byte buffer [const unsigned char *buffer, int length] is a list of
    byte values and an explicit length, [None] for the NULL pointer.  Every
    read goes through [bget], so that a result [Some _] means that the C code
    never left the buffer. *)
From stdpp Require Import base numbers list list_numbers.
From Stdlib Require Import ZArith Lia Bool.
From S2P Require Import Prelude.
Local Open Scope Z_scope.

(** * Character classes and the C library *)
Module Ctype.

Definition isdigit (c : Z) : bool := (48 <=? c) && (c <=? 57).
Definition isspace (c : Z) : bool := (c =? 32) || ((9 <=? c) && (c <=? 13)).

(** The NUL-terminated string held by an array. *)
Fixpoint cstr (a : list Z) : list Z :=
  match a with
  | [] => []
  | c :: a' => if c =? 0 then [] else c :: cstr a'
  end.

(** [strncpy(dst, src, n)] fills exactly [n] bytes, with NULs after the
    terminator of [src]; the source is read up to that terminator only. *)
Fixpoint strncpy (n : nat) (src : list Z) : option (list Z) :=
  match n with
  | O => Some []
  | S n' =>
      match src with
      | [] => None
      | c :: src' =>
          if c =? 0 then Some (repeat 0 n)
          else let* r := strncpy n' src' in Some (c :: r)
      end
  end.

(** The conversion [%<width>d] of sscanf: white space is skipped, then an
    optional sign and digits, at most [width] characters in all. *)
Fixpoint skip_space (s : list Z) : list Z :=
  match s with
  | c :: s' => if isspace c then skip_space s' else s
  | [] => []
  end.

Fixpoint scan_digits (width : nat) (s : list Z) (acc : Z) : Z * nat * list Z :=
  match width, s with
  | S w, c :: s' =>
      if isdigit c
      then let '(v, n, r) := scan_digits w s' (acc * 10 + (c - 48)) in (v, S n, r)
      else (acc, O, s)
  | _, _ => (acc, O, s)
  end.

Definition scan_d (width : nat) (s : list Z) : option (Z * list Z) :=
  let s := skip_space s in
  let '(neg, width, s) :=
    match width, s with
    | S w, c :: s' =>
        if c =? 45 then (true, w, s') else if c =? 43 then (false, w, s') else (false, width, s)
    | _, _ => (false, width, s)
    end in
  let '(v, n, r) := scan_digits width s 0 in
  match n with
  | O => None
  | S _ => Some (if neg then - v else v, r)
  end.

(** [strncmp(s, p, n) == 0] for a literal [p] of [n] non-NUL characters. *)
Fixpoint prefixb (p s : list Z) : bool :=
  match p, s with
  | [], _ => true
  | x :: p', y :: s' => (x =? y) && prefixb p' s'
  | _ :: _, [] => false
  end.

(** A literal character of a scanf format. *)
Definition scan_lit (c : Z) (s : list Z) : option (list Z) :=
  match s with
  | x :: s' => if x =? c then Some s' else None
  | [] => None
  end.

(** [cli_isnumber] (str.c): [while( *str++) if(!strchr("0123456789", *str)) return 0;]
    tests the character *after* the one the loop condition looked at;
    [strchr] also finds the terminator. *)
Fixpoint cli_isnumber (s : list Z) : Z :=
  match s with
  | [] => 1
  | _ :: s' =>
      match s' with
      | [] => 1
      | c :: _ => if isdigit c then cli_isnumber s' else 0
      end
  end.

End Ctype.
Import Ctype.

(** Detection modes ([DETECT_MODE_DETECT], [DETECT_MODE_COUNT]). *)
Inductive detmode := DETECT | COUNT.

(** * Credit card numbers *)
Module CreditCard.

(** First loop: collect up to [n] characters' worth of digits, skipping blanks
    and hyphens, from index [i]; [cc_digits] is the array [char cc_digits[20]]
    filled so far. *)
Fixpoint cc_collect (n : nat) (buffer : list Z) (i : Z) (cc_digits : list Z)
    : option (Z * list Z) :=
  match n with
  | O => Some (i, cc_digits)
  | S n' =>
      let* c := bget buffer i in
      if isdigit c then
        assert* (Z.of_nat (length cc_digits) <? 20) in
        cc_collect n' buffer (i + 1) (cc_digits ++ [c])
      else if (c =? 32) || (c =? 45) then cc_collect n' buffer (i + 1) cc_digits
      else Some (i, cc_digits)
  end.

(** Second loop: the Luhn sum, from the last digit to the first. *)
Fixpoint cc_sum (rdigits : list Z) (mult : bool) (sum : Z) : Z :=
  match rdigits with
  | [] => sum
  | c :: r =>
      let val := c - 48 in
      let val := if mult then (if 9 <? val * 2 then val * 2 - 9 else val * 2) else val in
      cc_sum r (negb mult) (sum + val)
  end.

(** The issuer tests at the end of the function, on [digits] digits. *)
Definition cc_issuer (cc : list Z) : option Z :=
  let digits := Z.of_nat (length cc) in
  let* d0 := bget cc 0 in
  let* d1 := bget cc 1 in
  if digits =? 13 then Some (if d0 =? 52 then 1 else 0)
  else if digits =? 14 then
    if (d0 =? 51) && ((d1 =? 54) || (d1 =? 56)) then Some 1
    else if (d0 =? 51) && (d1 =? 48) then
      let* d2 := bget cc 2 in
      Some (if (0 <=? d2 - 48) && (d2 - 48 <=? 5) then 1 else 0)
    else Some 0
  else if digits =? 15 then
    if (d0 =? 51) && ((d1 =? 52) || (d1 =? 55)) then Some 1
    else if prefixb [50; 49; 51; 49] cc || prefixb [49; 56; 48; 48] cc
    then Some 1 else Some 0
  else if digits =? 16 then
    if d0 =? 51 then Some 1
    else if d0 =? 52 then Some 1
    else if d0 =? 53 then Some (if (1 <=? d1 - 48) && (d1 - 48 <=? 5) then 1 else 0)
    else if prefixb [54; 48; 49; 49] cc then Some 1
    else Some 0
  else Some 0.

Definition dlp_is_valid_cc (buffer : option (list Z)) (len : Z) : option Z :=
  match buffer with
  | None => Some 0
  | Some buffer =>
      if len <? 13 then Some 0 else
      let* b0 := bget buffer 0 in
      if negb (isdigit b0) || (54 <? b0) then Some 0 else
      let len := if 19 <? len then 19 else len in
      let* (i, cc) := cc_collect (Z.to_nat len) buffer 0 [] in
      let digits := Z.of_nat (length cc) in
      assert* (digits <? 20) in
      let* trailing := (if i <? len then let* c := bget buffer i in Some (isdigit c)
                        else Some false) in
      if (digits <? 13) || trailing then Some 0 else
      if negb (Z.rem (cc_sum (rev cc) false 0) 10 =? 0) then Some 0 else
      cc_issuer cc
  end.

End CreditCard.

(** * Social security numbers *)
Module Ssn.

(** [SSN_FORMAT_HYPHENS] and [SSN_FORMAT_STRIPPED] of dlp.h. *)
Inductive ssn_format := HYPHENS | STRIPPED.

Definition MAX_AREA : Z := 772.

(** [sscanf(numbuf, "%3d-%2d-%4d", ...) == 3] and
    [sscanf(numbuf, "%3d%2d%4d", ...) == 3]. *)
Definition sscanf_hyphens (s : list Z) : option (Z * Z * Z) :=
  let* (area, s) := scan_d 3 s in
  let* s := scan_lit 45 s in
  let* (group, s) := scan_d 2 s in
  let* s := scan_lit 45 s in
  let* (serial, _) := scan_d 4 s in
  Some (area, group, serial).

Definition sscanf_stripped (s : list Z) : option (Z * Z * Z) :=
  let* (area, s) := scan_d 3 s in
  let* (group, s) := scan_d 2 s in
  let* (serial, _) := scan_d 4 s in
  Some (area, group, serial).

(** The numeric validation at the end of [dlp_is_valid_ssn]. *)
Definition ssn_numbers_ok (area group serial : Z) : Z :=
  let retval :=
    if (MAX_AREA <? area) || (area =? 666) || (area <=? 0) || (group <=? 0) || (99 <? group)
       || (serial <=? 0) || (9999 <? serial) then 0 else 1 in
  if (area =? 987) && (group =? 65) && (4320 <=? serial) && (serial <=? 4329) then 0
  else retval.

Definition dlp_is_valid_ssn (buffer : option (list Z)) (len : Z) (format : ssn_format)
    : option Z :=
  match buffer with
  | None => Some 0
  | Some buffer =>
      let minlength := match format with HYPHENS => 11 | STRIPPED => 9 end in
      if len <? minlength then Some 0 else
      let* followed := (if minlength <? len
                        then let* c := bget buffer minlength in Some (isdigit c)
                        else Some false) in
      if followed then Some 0 else
      let* copied := strncpy (Z.to_nat minlength) buffer in
      let numbuf := copied ++ [0] in
      match format with
      | HYPHENS =>
          let* n3 := bget numbuf 3 in
          let* n6 := bget numbuf 6 in
          if negb (n3 =? 45) || negb (n6 =? 45) then Some 0 else
          match sscanf_hyphens (cstr numbuf) with
          | None => Some 0
          | Some (area, group, serial) => Some (ssn_numbers_ok area group serial)
          end
      | STRIPPED =>
          if cli_isnumber (cstr numbuf) =? 0 then Some 0 else
          match sscanf_stripped (cstr numbuf) with
          | None => Some 0
          | Some (area, group, serial) => Some (ssn_numbers_ok area group serial)
          end
      end
  end.

End Ssn.

(** * Turkish identification numbers *)
Module TrId.

(** The loop that fills [int tr_id_digits[11]]: the digit values of the
    first [n] characters, or an early [return 0] (the inner [None]). *)
Fixpoint tr_collect (n : nat) (buffer : list Z) (i : Z) : option (option (list Z)) :=
  match n with
  | O => Some (Some [])
  | S n' =>
      let* c := bget buffer i in
      if isdigit c then
        let* r := tr_collect n' buffer (i + 1) in
        Some (match r with Some ds => Some ((c - 48) :: ds) | None => None end)
      else Some None
  end.

Definition dlp_is_valid_tr_id (buffer : option (list Z)) (len : Z) : option Z :=
  match buffer with
  | None => Some 0
  | Some buffer =>
      if len <? 11 then Some 0 else
      let* b0 := bget buffer 0 in
      if negb (isdigit b0) || (b0 =? 48) then Some 0 else
      let len := if 11 <? len then 11 else len in
      let* r := tr_collect (Z.to_nat len) buffer 0 in
      match r with
      | None => Some 0
      | Some d =>
          match d with
          | [d0; d1; d2; d3; d4; d5; d6; d7; d8; d9; d10] =>
              let sum1 := Z.rem (((d0 + d2 + d4 + d6 + d8) * 7) - (d1 + d3 + d5 + d7)) 10 in
              let sum2 := Z.rem (d0 + d1 + d2 + d3 + d4 + d5 + d6 + d7 + d8 + d9) 10 in
              Some (if (sum1 =? d9) && (sum2 =? d10) then 1 else 0)
          | _ => Some 0
          end
      end
  end.

End TrId.

(** * The scanning loops *)
Module Scan.
Import CreditCard Ssn TrId.

(** The loop shared by [contains_cc], [contains_ssn] and [contains_tr_id]:
    [valid] is the validator called at a digit that does not continue a run of
    digits, [hop] the extra advance after a match in count mode.  [fuel] bounds
    the iterations; [None] is an access outside the buffer (or no fuel left). *)
Fixpoint scan_loop (valid : option (list Z) -> Z -> option Z) (hop : Z) (mode : detmode)
    (fuel : nat) (buffer : list Z) (len idx count : Z) : option Z :=
  match fuel with
  | O => None
  | S fuel =>
      if idx <? len then
        let* c := bget buffer idx in
        let* hit :=
          (if isdigit c then
             let* start := (if idx =? 0 then Some true
                            else let* p := bget buffer (idx - 1) in Some (negb (isdigit p))) in
             if start then
               let* v := valid (Some (drop (Z.to_nat idx) buffer)) (len - idx) in
               Some (v =? 1)
             else Some false
           else Some false) in
        if (hit : bool) then
          match mode with
          | DETECT => Some 1
          | COUNT => scan_loop valid hop mode fuel buffer len (idx + hop + 1) (count + 1)
          end
        else scan_loop valid hop mode fuel buffer len (idx + 1) count
      else Some count
  end.

(** One iteration per byte and the exit test: [length + 1] rounds suffice. *)
Definition scan_fuel (len : Z) : nat := S (Z.to_nat len).

Definition contains_cc (buffer : option (list Z)) (len : Z) (mode : detmode) : option Z :=
  match buffer with
  | None => Some 0
  | Some b =>
      if len <? 13 then Some 0
      else scan_loop dlp_is_valid_cc (if 15 <? len then 15 else len - 1) mode
             (scan_fuel len) b len 0 0
  end.

Definition dlp_get_cc_count buffer len := contains_cc buffer len COUNT.
Definition dlp_has_cc buffer len := contains_cc buffer len DETECT.

Definition contains_ssn (buffer : option (list Z)) (len : Z) (format : ssn_format)
    (mode : detmode) : option Z :=
  match buffer with
  | None => Some 0
  | Some b =>
      if len <? 9 then Some 0
      else scan_loop (fun b l => dlp_is_valid_ssn b l format)
             (match format with HYPHENS => 11 | STRIPPED => 9 end) mode
             (scan_fuel len) b len 0 0
  end.

Definition dlp_get_stripped_ssn_count buffer len := contains_ssn buffer len STRIPPED COUNT.
Definition dlp_get_normal_ssn_count buffer len := contains_ssn buffer len HYPHENS COUNT.
Definition dlp_get_ssn_count (buffer : option (list Z)) (len : Z) : option Z :=
  let* a := dlp_get_stripped_ssn_count buffer len in
  let* b := dlp_get_normal_ssn_count buffer len in
  Some (a + b).
Definition dlp_has_ssn (buffer : option (list Z)) (len : Z) : option Z :=
  let* a := contains_ssn buffer len HYPHENS DETECT in
  let* b := contains_ssn buffer len STRIPPED DETECT in
  Some (Z.lor a b).
Definition dlp_has_stripped_ssn buffer len := contains_ssn buffer len STRIPPED DETECT.
Definition dlp_has_normal_ssn buffer len := contains_ssn buffer len HYPHENS DETECT.

Definition contains_tr_id (buffer : option (list Z)) (len : Z) (mode : detmode) : option Z :=
  match buffer with
  | None => Some 0
  | Some b =>
      if len <? 11 then Some 0
      else scan_loop dlp_is_valid_tr_id (if 11 <? len then 11 else len - 1) mode
             (scan_fuel len) b len 0 0
  end.

Definition dlp_has_tr_id buffer len := contains_tr_id buffer len DETECT.
Definition dlp_get_tr_id_count buffer len := contains_tr_id buffer len COUNT.

End Scan.

(** * Reference definitions *)
Module DlpSpec.
Import CreditCard Ssn TrId.

Section Hits.
Variable valid : option (list Z) -> Z -> option Z.
Variables (buffer : list Z) (len : Z).

(** A match of the validator at position [i], where a run of digits begins. *)
Definition hit (i : Z) : bool :=
  match bget buffer i with
  | Some c =>
      isdigit c
      && ((i =? 0) || match bget buffer (i - 1) with Some p => negb (isdigit p) | None => false end)
      && match valid (Some (drop (Z.to_nat i) buffer)) (len - i) with
         | Some v => v =? 1 | None => false end
  | None => false
  end.

(** A selection of hits, in increasing order from [from] on, any two of them
    more than [hop] bytes apart. *)
Inductive selection (hop : Z) : Z -> list Z -> Prop :=
| sel_nil from : selection hop from []
| sel_cons from i l :
    from <= i < len -> hit i = true -> selection hop (i + hop + 1) l ->
    selection hop from (i :: l).

Definition some_hit : Prop := exists i, 0 <= i < len /\ hit i = true.
End Hits.

(** The characters that may occur inside a card number. *)
Definition cc_char (c : Z) : bool := isdigit c || (c =? 32) || (c =? 45).

Fixpoint takewhile (p : Z -> bool) (l : list Z) : list Z :=
  match l with [] => [] | x :: l' => if p x then x :: takewhile p l' else [] end.

(** The digits of the longest card-like prefix within the first 19 bytes. *)
Definition cc_text (b : list Z) (len : Z) : list Z :=
  List.filter isdigit (takewhile cc_char (take (Z.to_nat (Z.min len 19)) b)).

(** Luhn's checksum, on digit values from the last to the first: every second
    digit is doubled and the decimal digits of the result are added up. *)
Definition digit_sum (x : Z) : Z := x `div` 10 + x `mod` 10.
Fixpoint luhn_rev (ds : list Z) : Z :=
  match ds with
  | d :: e :: r => d + digit_sum (2 * e) + luhn_rev r
  | [d] => d
  | [] => 0
  end.
Definition luhn_valid (cc : list Z) : bool :=
  luhn_rev (rev (map (fun c => c - 48) cc)) `mod` 10 =? 0.

(** The issuers: number of digits and leading digits. *)
Definition issuer_table : list (nat * list Z) :=
  [ (13%nat, [52]);
    (14%nat, [51; 54]); (14%nat, [51; 56]);
    (14%nat, [51; 48; 48]); (14%nat, [51; 48; 49]); (14%nat, [51; 48; 50]);
    (14%nat, [51; 48; 51]); (14%nat, [51; 48; 52]); (14%nat, [51; 48; 53]);
    (15%nat, [51; 52]); (15%nat, [51; 55]); (15%nat, [50; 49; 51; 49]); (15%nat, [49; 56; 48; 48]);
    (16%nat, [51]); (16%nat, [52]);
    (16%nat, [53; 49]); (16%nat, [53; 50]); (16%nat, [53; 51]); (16%nat, [53; 52]); (16%nat, [53; 53]);
    (16%nat, [54; 48; 49; 49]) ].
Definition issuer_ok (cc : list Z) : bool :=
  existsb (fun '(n, p) => Nat.eqb (length cc) n && prefixb p cc) issuer_table.

(** The published rule for Turkish identification numbers, with the
    mathematical (non-negative) remainder. *)
Definition trid_t (d : list Z) : Z :=
  match d with
  | [d0; d1; d2; d3; d4; d5; d6; d7; d8; _; _] => (d0 + d2 + d4 + d6 + d8) * 7 - (d1 + d3 + d5 + d7)
  | _ => 0
  end.
Definition trid_official (d : list Z) : bool :=
  match d with
  | [d0; d1; d2; d3; d4; d5; d6; d7; d8; d9; d10] =>
      negb (d0 =? 0) && (trid_t d `mod` 10 =? d9)
      && ((d0 + d1 + d2 + d3 + d4 + d5 + d6 + d7 + d8 + d9) `mod` 10 =? d10)
  | _ => false
  end.

Definition digit (d : Z) : Prop := 0 <= d <= 9.
Definition chars (ds : list Z) : list Z := map (fun d => d + 48) ds.

End DlpSpec.
Import DlpSpec.

(** * Proofs about the scanning loop *)
Module ScanFacts.
Import Scan.

Section Loop.
Variable valid : option (list Z) -> Z -> option Z.
Hypothesis valid_total :
  forall b l, l <= Z.of_nat (length b) -> is_Some (valid (Some b) l).
Variables (buffer : list Z) (len hop : Z).
Hypothesis Hlen : len <= Z.of_nat (length buffer).
Hypothesis Hhop : 0 <= hop.

Abbreviation hit := (DlpSpec.hit valid buffer len).
Abbreviation selection := (DlpSpec.selection valid buffer len hop).

Lemma valid_suffix i : 0 <= i < len -> is_Some (valid (Some (drop (Z.to_nat i) buffer)) (len - i)).
Proof. intros. apply valid_total. rewrite length_drop. lia. Qed.

(** One iteration of the loop, with the tests folded into [hit]. *)
Lemma scan_loop_step mode fuel idx count :
  0 <= idx < len ->
  scan_loop valid hop mode (S fuel) buffer len idx count =
  if hit idx then
    match mode with
    | DETECT => Some 1
    | COUNT => scan_loop valid hop mode fuel buffer len (idx + hop + 1) (count + 1)
    end
  else scan_loop valid hop mode fuel buffer len (idx + 1) count.
Proof.
  intros Hi. cbn [scan_loop]. destruct (Z.ltb_spec idx len); [|lia].
  unfold DlpSpec.hit.
  destruct (bget_is_Some buffer idx) as [c ->]; [lia|].
  destruct (isdigit c); [|done]. cbn [andb].
  destruct (valid_suffix idx Hi) as [v ->].
  destruct (Z.eqb_spec idx 0) as [->|]; cbn [orb andb]; [done|].
  destruct (bget_is_Some buffer (idx - 1)) as [p ->]; [lia|].
  by destruct (isdigit p).
Qed.

Lemma scan_loop_exit mode fuel idx count :
  len <= idx -> scan_loop valid hop mode (S fuel) buffer len idx count = Some count.
Proof. intros. cbn. destruct (Z.ltb_spec idx len); [lia|done]. Qed.

Lemma selection_weaken from from' l : from' <= from -> selection from l -> selection from' l.
Proof. intros ? H. inversion H; subst; constructor; auto; lia. Qed.

Lemma selection_past from l : len <= from -> selection from l -> l = [].
Proof. intros ? H. inversion H; subst; [done|lia]. Qed.

Lemma selection_skip from l : hit from = false -> selection from l -> selection (from + 1) l.
Proof.
  intros Hn H. inversion H; subst; [constructor|].
  constructor; auto. assert (i <> from) by congruence. lia.
Qed.

(** In count mode the loop returns the size of a largest selection. *)
Lemma scan_count_loop fuel : forall idx count,
  0 <= idx -> (Z.to_nat (len - idx) < fuel)%nat ->
  exists m : nat,
    scan_loop valid hop COUNT fuel buffer len idx count = Some (count + Z.of_nat m)
    /\ (exists l, selection idx l /\ length l = m)
    /\ (forall l, selection idx l -> (length l <= m)%nat).
Proof using Hhop Hlen valid_total.
  induction fuel as [|fuel IH]; intros idx count Hi Hf; [lia|].
  destruct (decide (len <= idx)) as [Hge|Hlt].
  { exists 0%nat. rewrite scan_loop_exit by done. split; [f_equal; lia|]. split.
    - exists []. split; [constructor|done].
    - intros l Hl. by rewrite (selection_past _ _ Hge Hl). }
  rewrite scan_loop_step by lia. destruct (hit idx) eqn:Hh.
  - destruct (IH (idx + hop + 1) (count + 1)) as (m & -> & (l & Hl & El) & Hmax); [lia|lia|].
    exists (S m). split; [f_equal; lia|]. split.
    + exists (idx :: l). split; [constructor; auto; lia|cbn; lia].
    + intros l' Hl'. inversion Hl' as [|? i l'' ? ? Hs]; subst; cbn; [lia|].
      apply le_n_S, Hmax. eapply selection_weaken; [|exact Hs]. lia.
  - destruct (IH (idx + 1) count) as (m & -> & (l & Hl & El) & Hmax); [lia|lia|].
    exists m. split; [done|]. split.
    + exists l. split; [|done]. eapply selection_weaken; [|exact Hl]. lia.
    + intros l' Hl'. by apply Hmax, selection_skip.
Qed.

(** In detect mode it returns 1 exactly when there is a hit. *)
Lemma scan_detect_loop fuel : forall idx,
  0 <= idx -> (Z.to_nat (len - idx) < fuel)%nat ->
  (scan_loop valid hop DETECT fuel buffer len idx 0 = Some 1 /\
     exists i, idx <= i < len /\ hit i = true)
  \/ (scan_loop valid hop DETECT fuel buffer len idx 0 = Some 0 /\
     forall i, idx <= i < len -> hit i = false).
Proof using Hhop Hlen valid_total.
  induction fuel as [|fuel IH]; intros idx Hi Hf; [lia|].
  destruct (decide (len <= idx)) as [Hge|Hlt].
  { right. rewrite scan_loop_exit by done. split; [done|lia]. }
  rewrite scan_loop_step by lia. destruct (hit idx) eqn:Hh.
  { left. split; [done|]. exists idx. split; [lia|done]. }
  destruct (IH (idx + 1)) as [[-> (i & ? & ?)]|[-> Hno]]; [lia|lia| |].
  - left. split; [done|]. exists i. split; [lia|done].
  - right. split; [done|]. intros i ?. destruct (decide (i = idx)) as [->|]; [done|].
    apply Hno; lia.
Qed.

Lemma scan_detect_correct :
  scan_loop valid hop DETECT (scan_fuel len) buffer len 0 0
    = Some 1 <-> some_hit valid buffer len.
Proof using Hhop Hlen valid_total.
  unfold some_hit, scan_fuel.
  destruct (scan_detect_loop (S (Z.to_nat len)) 0) as [[-> H]|[-> H]]; [lia|lia| |].
  - done.
  - split; [done|]. intros (i & Hi & Ht). rewrite H in Ht by done. done.
Qed.

Lemma scan_detect_01 :
  exists r, scan_loop valid hop DETECT (scan_fuel len) buffer len 0 0 = Some r /\ (r = 0 \/ r = 1).
Proof using Hhop Hlen valid_total.
  unfold scan_fuel.
  destruct (scan_detect_loop (S (Z.to_nat len)) 0) as [[-> _]|[-> _]]; [lia|lia|eauto|eauto].
Qed.

Lemma scan_count_correct :
  exists m : nat,
    scan_loop valid hop COUNT (scan_fuel len) buffer len 0 0 = Some (Z.of_nat m)
    /\ (exists l, selection 0 l /\ length l = m)
    /\ (forall l, selection 0 l -> (length l <= m)%nat).
Proof using Hhop Hlen valid_total.
  destruct (scan_count_loop (scan_fuel len) 0 0) as (m & E & H); [lia|unfold scan_fuel; lia|].
  exists m. rewrite E. split; [f_equal; lia|done].
Qed.


Lemma selection_bound from l :
  selection from l -> 0 <= from -> Z.of_nat (length l) * (hop + 1) <= Z.max 0 (len - from) + hop.
Proof using Hhop.
  clear Hlen valid_total. induction 1 as [|from i l Hi Hh Hs IH]; intros; [cbn; lia|].
  cbn [length]. specialize (IH ltac:(lia)). rewrite Nat2Z.inj_succ.
  set (n := Z.of_nat (length l)) in *. assert (0 <= n) by lia.
  destruct (decide (0 <= len - (i + hop + 1))); [nia|].
  assert (n = 0) as -> by nia. lia.
Qed.

End Loop.
End ScanFacts.

(** * Proofs about the credit-card validator *)
Module CcFacts.
Import CreditCard Scan.

Lemma isdigit_spec c : isdigit c = true <-> 48 <= c <= 57.
Proof. unfold isdigit. lia. Qed.

(** The collecting loop computes the digits of the card-like prefix, and stops
    in front of a character that cannot belong to a card number. *)
Lemma cc_collect_spec n : forall b i cc,
  0 <= i -> i + Z.of_nat n <= Z.of_nat (length b) -> (length cc + n < 20)%nat ->
  let seg := takewhile cc_char (take n (drop (Z.to_nat i) b)) in
  cc_collect n b i cc = Some (i + Z.of_nat (length seg), cc ++ List.filter isdigit seg)
  /\ (length seg < n ->
       exists c, bget b (i + Z.of_nat (length seg)) = Some c /\ isdigit c = false)%nat.
Proof.
  induction n as [|n IH]; intros b i cc Hi Hb Hcc seg; subst seg; cbn [cc_collect].
  { cbn. rewrite app_nil_r, Z.add_0_r. split; [done|lia]. }
  destruct (bget_is_Some b i) as [c Hc]; [lia|]. rewrite Hc.
  rewrite bget_lookup in Hc by lia.
  rewrite (drop_S _ _ _ Hc). cbn [take takewhile].
  replace (S (Z.to_nat i)) with (Z.to_nat (i + 1)) by lia.
  assert (cc_char c = isdigit c || ((c =? 32) || (c =? 45))) as ->
    by (unfold cc_char; by rewrite orb_assoc).
  destruct (isdigit c) eqn:Hd; cbn [orb].
  - replace (Z.of_nat (length cc) <? 20) with true by lia.
    destruct (IH b (i + 1) (cc ++ [c])) as [-> Hs]; [lia|lia|rewrite length_app; cbn; lia|].
    cbn [length List.filter]. rewrite Hd, <- app_assoc. cbn [app]. split.
    + do 2 f_equal. lia.
    + intros Hl. destruct Hs as (c' & Hg & ?); [lia|]. exists c'. rewrite <- Hg. split; [|done].
      f_equal. lia.
  - destruct ((c =? 32) || (c =? 45)) eqn:Hsp.
    + destruct (IH b (i + 1) cc) as [-> Hs]; [lia|lia|lia|].
      cbn [length List.filter]. rewrite Hd. split; [do 2 f_equal; lia|].
      intros Hl. destruct Hs as (c' & Hg & ?); [lia|]. exists c'. rewrite <- Hg. split; [|done].
      f_equal. lia.
    + cbn. rewrite app_nil_r, Z.add_0_r. split; [done|]. intros _. exists c.
      rewrite bget_lookup by lia. done.
Qed.

Lemma filter_length_le {A} (p : A -> bool) l : (length (List.filter p l) <= length l)%nat.
Proof. induction l; cbn; [lia|]. destruct (p a); cbn; lia. Qed.

Lemma takewhile_length_le p l : (length (takewhile p l) <= length l)%nat.
Proof. induction l; cbn; [lia|]. destruct (p a); cbn; lia. Qed.

Lemma cc_text_length b len : (length (cc_text b len) <= 19)%nat.
Proof.
  unfold cc_text. pose proof (filter_length_le isdigit
    (takewhile cc_char (take (Z.to_nat (Z.min len 19)) b))).
  pose proof (takewhile_length_le cc_char (take (Z.to_nat (Z.min len 19)) b)).
  rewrite length_take in *. lia.
Qed.

(** The digit-sum of a doubled digit is what the C code computes by
    subtracting nine. *)
Lemma double_digit v : 0 <= v <= 9 ->
  (if 9 <? v * 2 then v * 2 - 9 else v * 2) = digit_sum (2 * v).
Proof.
  intros. unfold digit_sum.
  assert (v = 0 \/ v = 1 \/ v = 2 \/ v = 3 \/ v = 4 \/ v = 5 \/ v = 6 \/ v = 7 \/ v = 8 \/ v = 9)
    as Hv by lia.
  repeat (destruct Hv as [->|Hv]; [reflexivity|]). by subst.
Qed.

Definition digits_only (cc : list Z) : Prop := Forall (fun c => isdigit c = true) cc.

Lemma cc_text_digits b len : digits_only (cc_text b len).
Proof. unfold digits_only, cc_text. apply List.Forall_forall. intros x. rewrite List.filter_In. tauto. Qed.

Lemma cc_sum_luhn cc : digits_only cc ->
  forall sum, cc_sum cc false sum = sum + luhn_rev (map (fun c => c - 48) cc).
Proof.
  intros H. remember (length cc) as n eqn:Hn. revert cc H Hn.
  induction n as [n IH] using lt_wf_ind. intros [|c [|e r]] H Hn sum; cbn.
  - lia.
  - lia.
  - inversion H as [|? ? Hc H']; subst. inversion H' as [|? ? He Hr]; subst.
    apply isdigit_spec in Hc, He.
    rewrite (IH (length r)) by (cbn; auto; lia).
    rewrite double_digit by lia. lia.
Qed.

Lemma luhn_rev_nonneg cc : digits_only cc -> 0 <= luhn_rev (map (fun c => c - 48) cc).
Proof.
  intros H. remember (length cc) as n eqn:Hn. revert cc H Hn.
  induction n as [n IH] using lt_wf_ind. intros [|c [|e r]] H Hn; cbn -[Z.mul]; [lia| |].
  - inversion H as [|? ? Hc]; subst. apply isdigit_spec in Hc. lia.
  - inversion H as [|? ? Hc H']; subst. inversion H' as [|? ? He Hr]; subst.
    apply isdigit_spec in Hc, He.
    pose proof (IH (length r) ltac:(cbn; lia) r Hr eq_refl).
    unfold digit_sum. pose proof (Z.mod_pos_bound (2 * (e - 48)) 10).
    pose proof (Z.div_pos (2 * (e - 48)) 10). lia.
Qed.

(** The C checksum test is Luhn's. *)
Lemma luhn_test cc : digits_only cc ->
  (Z.rem (cc_sum (rev cc) false 0) 10 =? 0) = luhn_valid cc.
Proof.
  intros H. assert (digits_only (rev cc)) as Hr by (by apply Forall_rev).
  rewrite cc_sum_luhn, Z.add_0_l by done. unfold luhn_valid. rewrite <- map_rev.
  rewrite Z.rem_mod_nonneg; [done|by apply luhn_rev_nonneg|lia].
Qed.

(** Evaluate the tests between numerals of the goal. *)
Ltac eval_eqb :=
  repeat match goal with
  | |- context [Z.of_nat ?a =? ?b] =>
      let r := eval vm_compute in (Z.of_nat a =? b) in change (Z.of_nat a =? b) with r
  | |- context [Nat.eqb ?a ?b] =>
      let r := eval vm_compute in (Nat.eqb a b) in change (Nat.eqb a b) with r
  end; cbn [andb orb].

(** The issuer tests are the issuer table. *)
Lemma cc_issuer_table cc : digits_only cc -> (13 <= length cc)%nat ->
  cc_issuer cc = Some (if issuer_ok cc then 1 else 0).
Proof.
  intros Hd Hl. destruct cc as [|c0 [|c1 [|c2 [|c3 r]]]]; cbn in Hl; try lia.
  unfold digits_only in Hd. rewrite !Forall_cons in Hd. destruct Hd as (H0 & H1 & H2 & H3 & _).
  apply isdigit_spec in H0, H1, H2, H3.
  unfold issuer_ok, cc_issuer, issuer_table. cbn [existsb prefixb].
  set (cc := c0 :: c1 :: c2 :: c3 :: r).
  change (bget cc 0) with (Some c0). change (bget cc 1) with (Some c1).
  change (bget cc 2) with (Some c2). cbv beta iota zeta.
  set (n := length cc) in *. assert (13 <= n)%nat by (subst n cc; cbn; lia). clearbody n.
  assert (n = 13 \/ n = 14 \/ n = 15 \/ n = 16 \/ 16 < n)%nat as Hn by lia.
  destruct Hn as [->|[->|[->|[->|Hn]]]]; subst cc; cbn [prefixb].
  2: replace ((0 <=? c2 - 48) && (c2 - 48 <=? 5))
       with ((48 =? c2) || (49 =? c2) || (50 =? c2) || (51 =? c2) || (52 =? c2) || (53 =? c2)) by lia.
  2: rewrite !(Z.eqb_sym c0), !(Z.eqb_sym c1); eval_eqb;
     destruct (51 =? c0), (Z.eqb_spec 54 c1), (Z.eqb_spec 56 c1), (Z.eqb_spec 48 c1); cbn [andb orb];
     rewrite ?andb_true_r, ?orb_false_r, ?orb_assoc; first [done|lia].
  1-3: eval_eqb; clear Hl H; repeat split_match; first [done|f_equal; lia|lia].
  replace (Z.of_nat n =? 13) with false by lia. replace (Z.of_nat n =? 14) with false by lia.
  replace (Z.of_nat n =? 15) with false by lia. replace (Z.of_nat n =? 16) with false by lia.
  repeat match goal with |- context [Nat.eqb n ?k] => replace (Nat.eqb n k) with false by (symmetry; apply Nat.eqb_neq; lia) end.
  by cbn [andb orb].
Qed.

(** What [dlp_is_valid_cc] decides. *)
Definition cc_accepts (b : list Z) (len : Z) : bool :=
  (13 <=? len)
  && match bget b 0 with Some c => isdigit c && (c <=? 54) | None => false end
  && (13 <=? Z.of_nat (length (cc_text b len)))
  && luhn_valid (cc_text b len) && issuer_ok (cc_text b len).

Lemma dlp_is_valid_cc_eq b len : len <= Z.of_nat (length b) ->
  dlp_is_valid_cc (Some b) len = Some (if cc_accepts b len then 1 else 0).
Proof.
  intros Hb. unfold dlp_is_valid_cc, cc_accepts.
  destruct (Z.ltb_spec len 13); [by replace (13 <=? len) with false by lia|].
  replace (13 <=? len) with true by lia. cbn [andb].
  destruct (bget_is_Some b 0) as [c0 ->]; [lia|].
  destruct (negb (isdigit c0) || (54 <? c0)) eqn:E0.
  { by replace (isdigit c0 && (c0 <=? 54)) with false by (destruct (isdigit c0); cbn in *; lia). }
  replace (isdigit c0 && (c0 <=? 54)) with true by (destruct (isdigit c0); cbn in *; lia).
  cbn [andb].
  set (n := if 19 <? len then 19 else len).
  assert (n = Z.min len 19) as Hn by (subst n; destruct (Z.ltb_spec 19 len); lia).
  destruct (cc_collect_spec (Z.to_nat n) b 0 []) as [-> Hstop]; [lia|lia|cbn; lia|].
  change (drop (Z.to_nat 0) b) with b in *. rewrite Z.add_0_l in *. cbn [app].
  set (seg := takewhile cc_char (take (Z.to_nat n) b)) in *.
  assert (cc_text b len = List.filter isdigit seg) as Ht by (unfold cc_text, seg; by rewrite Hn).
  rewrite <- Ht. clearbody n seg. pose proof (cc_text_length b len).
  replace (Z.of_nat (length (cc_text b len)) <? 20) with true by lia.
  assert ((if Z.of_nat (length seg) <? n
           then let* c := bget b (Z.of_nat (length seg)) in Some (isdigit c)
           else Some false) = Some false) as ->.
  { destruct (Z.ltb_spec (Z.of_nat (length seg)) n); [|done].
    destruct Hstop as (c & -> & Hc); [lia|]. by rewrite Hc. }
  rewrite orb_false_r.
  destruct (Z.ltb_spec (Z.of_nat (length (cc_text b len))) 13).
  { by replace (13 <=? Z.of_nat (length (cc_text b len))) with false by lia. }
  replace (13 <=? Z.of_nat (length (cc_text b len))) with true by lia. cbn [andb].
  rewrite luhn_test by apply cc_text_digits.
  destruct (luhn_valid _); cbn [negb andb]; [|done].
  apply cc_issuer_table; [apply cc_text_digits|lia].
Qed.

(** Doubling with digit sum is injective modulo ten on digits. *)
Lemma digit_sum_inj a b : 0 <= a <= 9 -> 0 <= b <= 9 ->
  (digit_sum (2 * a)) `mod` 10 = (digit_sum (2 * b)) `mod` 10 -> a = b.
Proof.
  intros Ha Hb. rewrite <- (double_digit a Ha), <- (double_digit b Hb).
  destruct (Z.ltb_spec 9 (a * 2)), (Z.ltb_spec 9 (b * 2)); intros E;
    rewrite ?Z.mod_small in E by lia; lia.
Qed.

Lemma add_mod_cancel c x y : (c + x) `mod` 10 = (c + y) `mod` 10 -> x `mod` 10 = y `mod` 10.
Proof. intros. Z.div_mod_to_equations. lia. Qed.

(** Luhn's sum determines each digit from the others. *)
Lemma luhn_rev_inj a b y : 0 <= a <= 9 -> 0 <= b <= 9 -> forall x,
  luhn_rev (x ++ a :: y) `mod` 10 = luhn_rev (x ++ b :: y) `mod` 10 -> a = b.
Proof.
  intros Ha Hb x. remember (length x) as n eqn:Hn. revert x Hn.
  induction n as [n IH] using lt_wf_ind. intros [|d [|e x]] Hn; cbn [app luhn_rev].
  - intros E. assert (a `mod` 10 = b `mod` 10) as E'.
    { destruct y as [|e y]; [done|]. apply (add_mod_cancel (digit_sum (2 * e) + luhn_rev y)).
      cbn [luhn_rev] in E. rewrite !(Z.add_comm (_ + luhn_rev y)), !Z.add_assoc. done. }
    by rewrite !Z.mod_small in E' by lia.
  - intros E. apply digit_sum_inj; [done..|].
    apply (add_mod_cancel (d + luhn_rev y)).
    rewrite !(Z.add_comm (d + luhn_rev y)), !(Z.add_comm d), !Z.add_assoc.
    rewrite !(Z.add_comm d) in E. rewrite <- !Z.add_assoc, !(Z.add_comm (luhn_rev y)), !Z.add_assoc.
    exact E.
  - intros E%add_mod_cancel. apply (IH (length x)) in E; [done|cbn in Hn; lia|done].
Qed.

Lemma takewhile_all p l : Forall (fun c => p c = true) l -> takewhile p l = l.
Proof. induction 1; cbn; [done|]. by rewrite H, IHForall. Qed.

Lemma filter_all (p : Z -> bool) l : Forall (fun c => p c = true) l -> List.filter p l = l.
Proof. induction 1; cbn; [done|]. by rewrite H, IHForall. Qed.

Lemma cc_text_pure b : digits_only b -> (length b <= 19)%nat ->
  cc_text b (Z.of_nat (length b)) = b.
Proof.
  intros Hd Hl. unfold cc_text. rewrite take_ge by lia.
  rewrite takewhile_all; [by apply filter_all|].
  eapply Forall_impl; [exact Hd|]. cbn. intros c Hc. unfold cc_char. by rewrite Hc.
Qed.

Lemma luhn_valid_inj l r a b : isdigit a = true -> isdigit b = true ->
  luhn_valid (l ++ a :: r) = true -> luhn_valid (l ++ b :: r) = true -> a = b.
Proof.
  intros Ha%isdigit_spec Hb%isdigit_spec. unfold luhn_valid.
  rewrite !Z.eqb_eq, !map_app, !rev_app_distr. cbn [map rev]. rewrite <- !app_assoc. cbn [app].
  intros E1 E2. enough (a - 48 = b - 48) by lia.
  eapply luhn_rev_inj; [| |by rewrite E1, E2]; lia.
Qed.

Lemma dlp_is_valid_cc_total b l : l <= Z.of_nat (length b) -> is_Some (dlp_is_valid_cc (Some b) l).
Proof. intros. rewrite dlp_is_valid_cc_eq by done. eauto. Qed.

End CcFacts.

(** * Properties of the credit-card detector *)
Module CcProps.
Import CreditCard Scan CcFacts.

(** C1. On any buffer of at least [len] bytes [dlp_is_valid_cc] reads no byte
    outside the buffer, overruns neither [cc_digits] nor any other array, and
    returns 0 or 1.  For the lengths its header describes (up to 16) it returns 1
    exactly when the text at the start of the buffer is a card number: its first
    character is a digit at most 6, its 13 or more digits (blanks and hyphens
    skipped) pass Luhn's test and match the table of issuers. *)
Theorem dlp_is_valid_cc_spec b len :
  len <= Z.of_nat (length b) ->
  (exists r, dlp_is_valid_cc (Some b) len = Some r /\ (r = 0 \/ r = 1)) /\
  (len <= 16 -> dlp_is_valid_cc (Some b) len = Some (if cc_accepts b len then 1 else 0)).
Proof.
  intros Hl. rewrite dlp_is_valid_cc_eq by done. split; [|done].
  eexists. split; [done|]. destruct (cc_accepts b len); auto.
Qed.

Definition visa : list Z := chars [4;1;1;1;1;1;1;1;1;1;1;1;1;1;1;1].

Lemma dlp_is_valid_cc_spec_witness :
  dlp_is_valid_cc (Some visa) 16 = Some 1.
Proof. rewrite (proj2 (dlp_is_valid_cc_spec visa 16 ltac:(vm_compute; discriminate))); [reflexivity|vm_compute; discriminate]. Defined.

(** Beyond 16 bytes the function does not do what its header says: it does not
    truncate the text to 16 bytes but to 19, so that a number written with hyphens
    is found that does not stand in the first 16 bytes, and one of 16 digits is not
    found when another digit follows. *)
Definition hyphened : list Z := chars [4;1;1;1] ++ [45] ++ chars [1;1;1;1] ++ [45] ++ chars [1;1;1;1] ++ [45] ++ chars [1;1;1;1].
Lemma length_not_truncated :
  dlp_is_valid_cc (Some hyphened) 19 = Some 1 /\ dlp_is_valid_cc (Some hyphened) 16 = Some 0 /\
  dlp_is_valid_cc (Some (visa ++ chars [1])) 17 = Some 0 /\ dlp_is_valid_cc (Some (visa ++ chars [1])) 16 = Some 1.
Proof. repeat split; reflexivity. Qed.

(** Luhn's test inside [dlp_is_valid_cc] catches every single-digit error:
    a card number of up to 19 digits that the function accepts is rejected
    after any one of its digits has been replaced by another digit. *)
Theorem cc_single_digit_error l r a b :
  digits_only (l ++ a :: r) -> isdigit b = true -> a <> b ->
  (length (l ++ a :: r) <= 19)%nat ->
  dlp_is_valid_cc (Some (l ++ a :: r)) (Z.of_nat (length (l ++ a :: r))) = Some 1 ->
  dlp_is_valid_cc (Some (l ++ b :: r)) (Z.of_nat (length (l ++ b :: r))) = Some 0.
Proof.
  intros Hd Hb Hab Hl. rewrite !dlp_is_valid_cc_eq by done. intros Hacc.
  assert (length (l ++ b :: r) = length (l ++ a :: r)) as El by (by rewrite !length_app).
  assert (digits_only (l ++ b :: r)) as Hd'.
  { unfold digits_only in *. rewrite !Forall_app, !Forall_cons in *. naive_solver. }
  unfold cc_accepts in *. rewrite !cc_text_pure in * by (done || lia).
  destruct (luhn_valid (l ++ b :: r)) eqn:Lb; [|by rewrite !andb_false_r].
  destruct (luhn_valid (l ++ a :: r)) eqn:La; [|by rewrite !andb_false_r in Hacc].
  unfold digits_only in Hd. rewrite Forall_app, Forall_cons in Hd.
  exfalso. apply Hab. eapply luhn_valid_inj; eauto. naive_solver.
Qed.

Lemma cc_single_digit_error_witness :
  dlp_is_valid_cc (Some (chars [4;1;1;1;1;1;7;1;1;1;1;1;1;1;1;1])) 16 = Some 0.
Proof.
  apply (cc_single_digit_error (chars [4;1;1;1;1;1]) (chars [1;1;1;1;1;1;1;1;1]) 49 55).
  - repeat constructor.
  - reflexivity.
  - discriminate.
  - vm_compute. lia.
  - vm_compute. reflexivity.
Defined.

(** [dlp_has_cc] returns 1 exactly when some position of the buffer
    starts a run of digits at which [dlp_is_valid_cc] accepts, and 0
    otherwise; the loop terminates and stays inside the buffer. *)
Theorem dlp_has_cc_correct b len :
  13 <= len <= Z.of_nat (length b) ->
  (exists r, dlp_has_cc (Some b) len = Some r /\ (r = 0 \/ r = 1)) /\
  (dlp_has_cc (Some b) len = Some 1 <-> some_hit dlp_is_valid_cc b len).
Proof.
  intros Hlen. unfold dlp_has_cc, contains_cc.
  destruct (Z.ltb_spec len 13); [lia|]. split.
  - apply ScanFacts.scan_detect_01; [apply dlp_is_valid_cc_total|lia|destruct (15 <? len) eqn:?; lia].
  - apply ScanFacts.scan_detect_correct; [apply dlp_is_valid_cc_total|lia|destruct (15 <? len) eqn:?; lia].
Qed.

Lemma dlp_has_cc_correct_witness :
  (exists r, dlp_has_cc (Some (97 :: visa)) 17 = Some r /\ (r = 0 \/ r = 1)) /\
  (dlp_has_cc (Some (97 :: visa)) 17 = Some 1 <-> some_hit dlp_is_valid_cc (97 :: visa) 17).
Proof. apply (dlp_has_cc_correct (97 :: visa) 17). vm_compute. split; discriminate. Defined.

(** The positions of a buffer at which a card number starts. *)
Definition card_positions (b : list Z) (len : Z) : list Z :=
  List.filter (DlpSpec.hit dlp_is_valid_cc b len) (seqZ 0 len).



(** Those of that buffer are apart, so that both are counted. *)
Example two_cards_apart : card_positions (visa ++ [44] ++ visa) 33 = [0; 17] /\
  selection dlp_is_valid_cc (visa ++ [44] ++ visa) 33 15 0 (card_positions (visa ++ [44] ++ visa) 33).
Proof.
  assert (card_positions (visa ++ [44] ++ visa) 33 = [0; 17]) as E by (vm_compute; reflexivity).
  split; [exact E|]. rewrite E. repeat (constructor; [lia|vm_compute; reflexivity|]). constructor.
Qed.

(** After a number the scan goes on 16 bytes behind its start: of two numbers of 13
    digits with a comma between them only the first is counted. *)
Definition short_visa : list Z := chars [4;2;2;2;2;2;2;2;2;2;2;2;2].
Lemma close_numbers_counted_once :
  dlp_get_cc_count (Some (short_visa ++ [44] ++ short_visa)) 27 = Some 1 /\
  card_positions (short_visa ++ [44] ++ short_visa) 27 = [0; 14].
Proof. split; vm_compute; reflexivity. Qed.

End CcProps.

(** * Proofs about the SSN validator *)
Module SsnFacts.
Import Ssn Scan CcFacts.

(** The number written by a list of decimal digits. *)
Definition value (ds : list Z) : Z := fold_left (fun acc d => acc * 10 + d) ds 0.

Lemma isdigit_char d : digit d -> isdigit (d + 48) = true.
Proof. unfold digit. rewrite isdigit_spec. lia. Qed.

Lemma scan_digits_chars ds : Forall digit ds -> forall rest acc,
  scan_digits (length ds) (chars ds ++ rest) acc
  = (fold_left (fun acc d => acc * 10 + d) ds acc, length ds, rest).
Proof.
  induction 1 as [|d ds Hd _ IH]; intros rest acc; cbn [length chars map app scan_digits fold_left].
  - by destruct rest.
  - rewrite isdigit_char by done. fold (chars ds). rewrite Z.add_simpl_r, IH. done.
Qed.

(** A [%nd] conversion reads [n] digits exactly, when they are there. *)
Lemma scan_d_chars n ds rest : Forall digit ds -> length ds = S n ->
  scan_d (S n) (chars ds ++ rest) = Some (value ds, rest).
Proof.
  intros H Hn. destruct ds as [|d ds]; [done|]. rewrite <- Hn.
  pose proof (scan_digits_chars _ H rest 0) as E.
  assert (digit d) as Hd by (by inversion H). unfold digit in Hd.
  unfold scan_d. cbn [chars map app skip_space length] in *.
  replace (isspace (d + 48)) with false by (unfold isspace; lia).
  replace (d + 48 =? 45) with false by lia. replace (d + 48 =? 43) with false by lia.
  rewrite E. done.
Qed.

Lemma strncpy_Some n : forall b, (n <= length b)%nat ->
  exists r, strncpy n b = Some r /\ length r = n.
Proof.
  induction n as [|n IH]; intros b Hn; cbn [strncpy]; [eauto|].
  destruct b as [|c b]; cbn in Hn; [lia|].
  destruct (c =? 0); [exists (repeat 0 (S n)); by rewrite List.repeat_length|].
  destruct (IH b) as (r & -> & Hr); [lia|]. exists (c :: r). cbn. auto.
Qed.

Lemma strncpy_chars l rest : Forall (fun c => c <> 0) l -> strncpy (length l) (l ++ rest) = Some l.
Proof.
  induction 1 as [|c l Hc _ IH]; [done|]. cbn [length strncpy app].
  replace (c =? 0) with false by lia. by rewrite IH.
Qed.

Lemma cstr_chars l rest : Forall (fun c => c <> 0) l -> cstr (l ++ 0 :: rest) = l.
Proof.
  induction 1 as [|c l Hc _ IH]; [done|]. cbn [cstr app].
  replace (c =? 0) with false by lia. by rewrite IH.
Qed.

Lemma cli_isnumber_digits l : digits_only l -> cli_isnumber l = 1.
Proof.
  induction 1 as [|c l Hc Hl IH]; [done|]. cbn [cli_isnumber].
  destruct l as [|e l]; [done|]. inversion Hl as [|? ? He]; subst. by rewrite He.
Qed.

Lemma chars_digits ds : Forall digit ds -> digits_only (chars ds).
Proof. induction 1; cbn; constructor; auto using isdigit_char. Qed.

Lemma digits_nonzero l : digits_only l -> Forall (fun c => c <> 0) l.
Proof. intros H. eapply Forall_impl; [exact H|]. cbn. intros c Hc%isdigit_spec. lia. Qed.

Lemma length_chars ds : length (chars ds) = length ds.
Proof. apply length_map. Qed.

Lemma chars_app a b : chars (a ++ b) = chars a ++ chars b.
Proof. apply map_app. Qed.

(** The numbers the validation accepts; the test for the advertising block
    987-65-432x never fires, 987 being above [MAX_AREA]. *)
Definition ssn_issued (area group serial : Z) : bool :=
  (1 <=? area) && (area <=? 772) && negb (area =? 666) && (1 <=? group) && (group <=? 99)
  && (1 <=? serial) && (serial <=? 9999).

Lemma ssn_numbers_ok_eq a g s : ssn_numbers_ok a g s = if ssn_issued a g s then 1 else 0.
Proof. unfold ssn_numbers_ok, ssn_issued, MAX_AREA. repeat split_match; lia. Qed.

Lemma dlp_is_valid_ssn_total fmt b l :
  l <= Z.of_nat (length b) -> is_Some (dlp_is_valid_ssn (Some b) l fmt).
Proof.
  intros Hl. unfold dlp_is_valid_ssn. set (n := match fmt with HYPHENS => 11 | STRIPPED => 9 end).
  assert (n = 11 \/ n = 9) by (subst n; destruct fmt; lia).
  destruct (Z.ltb_spec l n); [eauto|].
  assert (exists f, (if n <? l then let* c := bget b n in Some (isdigit c) else Some false) = Some f)
    as [f ->].
  { destruct (Z.ltb_spec n l); [|eauto]. destruct (bget_is_Some b n) as [c ->]; [lia|eauto]. }
  destruct f; [eauto|].
  destruct (strncpy_Some (Z.to_nat n) b) as (r & -> & Hr); [lia|].
  destruct fmt; subst n.
  - destruct (bget_is_Some (r ++ [0]) 3) as [c3 ->]; [rewrite length_app; cbn; lia|].
    destruct (bget_is_Some (r ++ [0]) 6) as [c6 ->]; [rewrite length_app; cbn; lia|].
    repeat split_match; eauto.
  - repeat split_match; eauto.
Qed.

(** Whether a digit follows the number. *)
Definition followed (rest : list Z) (n len : Z) : bool :=
  (n <? len) && match rest with c :: _ => isdigit c | [] => false end.

Lemma followed_read (l rest : list Z) n len :
  Z.of_nat (length l) = n -> len <= Z.of_nat (length (l ++ rest)) ->
  (if n <? len then let* c := bget (l ++ rest) n in Some (isdigit c) else Some false)
  = Some (followed rest n len).
Proof.
  intros Hn Hlen. unfold followed. destruct (Z.ltb_spec n len); [|done].
  rewrite length_app in Hlen. rewrite bget_lookup by lia. rewrite lookup_app_r by lia.
  replace (Z.to_nat n - length l)%nat with 0%nat by lia. destruct rest; [cbn in Hlen; lia|done].
Qed.

End SsnFacts.

(** * Properties of the SSN detector *)
Module SsnProps.
Import Ssn Scan CcFacts SsnFacts.

(** On text written as nine digits aaaggssss the validator for stripped
    numbers accepts exactly the numbers in circulation (area 1 to 772 except
    666, group 1 to 99, serial 1 to 9999) that no further digit follows. *)
Theorem ssn_stripped_correct area group serial rest len :
  Forall digit area -> Forall digit group -> Forall digit serial ->
  length area = 3%nat -> length group = 2%nat -> length serial = 4%nat ->
  9 <= len <= 9 + Z.of_nat (length rest) ->
  dlp_is_valid_ssn (Some (chars (area ++ group ++ serial) ++ rest)) len STRIPPED
  = Some (if negb (followed rest 9 len) && ssn_issued (value area) (value group) (value serial)
          then 1 else 0).
Proof.
  intros Ha Hg Hs La Lg Ls Hlen. unfold dlp_is_valid_ssn.
  set (ds := area ++ group ++ serial). assert (length ds = 9%nat) as Lds.
  { subst ds. rewrite !length_app. lia. }
  assert (Forall digit ds) as Hds by (subst ds; rewrite !Forall_app; auto).
  destruct (Z.ltb_spec len 9); [lia|].
  rewrite followed_read by (rewrite ?length_app, ?length_chars; lia).
  destruct (followed rest 9 len); cbn [negb andb]; [done|].
  pose proof (digits_nonzero _ (chars_digits ds Hds)) as Hnz.
  assert (strncpy (Z.to_nat 9) (chars ds ++ rest) = Some (chars ds)) as ->.
  { rewrite <- (strncpy_chars (chars ds) rest Hnz). by rewrite length_chars, Lds. }
  rewrite cstr_chars by done. rewrite cli_isnumber_digits by (by apply chars_digits).
  change (1 =? 0) with false. cbv iota.
  unfold sscanf_stripped. subst ds. rewrite !chars_app.
  rewrite scan_d_chars by done.
  rewrite scan_d_chars by done.
  rewrite <- (app_nil_r (chars serial)), scan_d_chars by done.
  by rewrite ssn_numbers_ok_eq.
Qed.

Lemma ssn_stripped_correct_witness :
  dlp_is_valid_ssn (Some (chars ([1;2;3] ++ [4;5] ++ [6;7;8;9]) ++ [46])) 10 STRIPPED = Some 1.
Proof.
  rewrite (ssn_stripped_correct [1;2;3] [4;5] [6;7;8;9] [46] 10);
    [reflexivity|repeat constructor; vm_compute; discriminate..|reflexivity|reflexivity|reflexivity|].
  cbn. lia.
Defined.

(** On text written aaa-gg-ssss the validator for hyphenated numbers accepts
    exactly the numbers in circulation that no further digit follows. *)
Theorem ssn_hyphens_correct area group serial rest len :
  Forall digit area -> Forall digit group -> Forall digit serial ->
  length area = 3%nat -> length group = 2%nat -> length serial = 4%nat ->
  11 <= len <= 11 + Z.of_nat (length rest) ->
  dlp_is_valid_ssn
    (Some ((chars area ++ 45 :: chars group ++ 45 :: chars serial) ++ rest)) len HYPHENS
  = Some (if negb (followed rest 11 len) && ssn_issued (value area) (value group) (value serial)
          then 1 else 0).
Proof.
  intros Ha Hg Hs La Lg Ls Hlen. unfold dlp_is_valid_ssn.
  set (text := chars area ++ 45 :: chars group ++ 45 :: chars serial).
  assert (length text = 11%nat) as Lt.
  { subst text. rewrite !length_app. cbn [length]. rewrite length_app. cbn [length].
    rewrite !length_chars. lia. }
  assert (Forall (fun c => c <> 0) text) as Hnz.
  { subst text. rewrite Forall_app, Forall_cons, Forall_app, Forall_cons.
    repeat split; try lia; apply digits_nonzero, chars_digits; done. }
  destruct (Z.ltb_spec len 11); [lia|].
  rewrite followed_read by (rewrite ?length_app; lia).
  destruct (followed rest 11 len); cbn [negb andb]; [done|].
  assert (strncpy (Z.to_nat 11) (text ++ rest) = Some text) as ->.
  { rewrite <- (strncpy_chars text rest Hnz). by rewrite Lt. }
  rewrite cstr_chars by done.
  assert (bget (text ++ [0]) 3 = Some 45 /\ bget (text ++ [0]) 6 = Some 45) as [-> ->].
  { subst text. destruct area as [|? [|? [|? []]]]; try done. destruct group as [|? [|? []]]; done. }
  cbn [Z.eqb negb orb Pos.eqb]. unfold sscanf_hyphens. subst text.
  rewrite scan_d_chars by done. cbn [scan_lit Z.eqb Pos.eqb].
  rewrite scan_d_chars by done. cbn [scan_lit Z.eqb Pos.eqb].
  rewrite <- (app_nil_r (chars serial)), scan_d_chars by done.
  by rewrite ssn_numbers_ok_eq.
Qed.

Lemma ssn_hyphens_correct_witness :
  dlp_is_valid_ssn
    (Some ((chars [1;2;3] ++ 45 :: chars [4;5] ++ 45 :: chars [6;7;8;9]) ++ [46])) 12 HYPHENS = Some 1.
Proof.
  rewrite (ssn_hyphens_correct [1;2;3] [4;5] [6;7;8;9] [46] 12);
    [reflexivity|repeat constructor; vm_compute; discriminate..|reflexivity|reflexivity|reflexivity|].
  cbn. lia.
Defined.

(** On text written as nine digits aaaggssss and on text written aaa-gg-ssss the
    validator for the format accepts exactly the numbers in circulation (area 1 to
    772 except 666, group 1 to 99, serial 1 to 9999) that no further digit
    follows. *)
Theorem ssn_formats_correct area group serial rest len :
  Forall digit area -> Forall digit group -> Forall digit serial ->
  length area = 3%nat -> length group = 2%nat -> length serial = 4%nat ->
  let issued := ssn_issued (value area) (value group) (value serial) in
  (9 <= len <= 9 + Z.of_nat (length rest) ->
   dlp_is_valid_ssn (Some (chars (area ++ group ++ serial) ++ rest)) len STRIPPED
   = Some (if negb (followed rest 9 len) && issued then 1 else 0)) /\
  (11 <= len <= 11 + Z.of_nat (length rest) ->
   dlp_is_valid_ssn
     (Some ((chars area ++ 45 :: chars group ++ 45 :: chars serial) ++ rest)) len HYPHENS
   = Some (if negb (followed rest 11 len) && issued then 1 else 0)).
Proof.
  intros Ha Hg Hs La Lg Ls issued.
  split; intros Hlen; [by apply ssn_stripped_correct|by apply ssn_hyphens_correct].
Qed.

Lemma ssn_formats_correct_witness :
  dlp_is_valid_ssn (Some (chars ([1;2;3] ++ [4;5] ++ [6;7;8;9]) ++ [46])) 10 STRIPPED = Some 1.
Proof.
  rewrite (proj1 (ssn_formats_correct [1;2;3] [4;5] [6;7;8;9] [46] 10
    ltac:(repeat constructor; vm_compute; discriminate) ltac:(repeat constructor; vm_compute; discriminate)
    ltac:(repeat constructor; vm_compute; discriminate) eq_refl eq_refl eq_refl) ltac:(cbn; lia)).
  reflexivity.
Defined.

(** [dlp_has_ssn] returns 1 exactly when the buffer holds a number in one of
    the two formats at the start of a run of digits, and 0 otherwise. *)
Theorem dlp_has_ssn_correct b len :
  9 <= len <= Z.of_nat (length b) ->
  exists r, dlp_has_ssn (Some b) len = Some r /\ (r = 0 \/ r = 1)
    /\ (r = 1 <-> some_hit (fun b l => dlp_is_valid_ssn b l HYPHENS) b len
                 \/ some_hit (fun b l => dlp_is_valid_ssn b l STRIPPED) b len).
Proof.
  intros Hlen. unfold dlp_has_ssn, contains_ssn. destruct (Z.ltb_spec len 9); [lia|].
  assert (forall fmt hop, 0 <= hop -> exists r,
    scan_loop (fun b l => dlp_is_valid_ssn b l fmt) hop DETECT (scan_fuel len) b len 0 0 = Some r
    /\ (r = 0 \/ r = 1) /\ (r = 1 <-> some_hit (fun b l => dlp_is_valid_ssn b l fmt) b len)) as Hs.
  { intros fmt hop Hh.
    destruct (ScanFacts.scan_detect_01 (fun b l => dlp_is_valid_ssn b l fmt)
                (dlp_is_valid_ssn_total fmt) b len hop) as (r & E & Hr); [lia|done|].
    pose proof (ScanFacts.scan_detect_correct (fun b l => dlp_is_valid_ssn b l fmt)
                  (dlp_is_valid_ssn_total fmt) b len hop ltac:(lia) Hh) as Hc.
    rewrite E in Hc. exists r. split; [done|]. split; [done|]. rewrite <- Hc.
    split; [by intros ->|by intros [= ->]]. }
  destruct (Hs HYPHENS 11) as (r1 & -> & H1 & E1); [lia|].
  destruct (Hs STRIPPED 9) as (r2 & -> & H2 & E2); [lia|].
  exists (Z.lor r1 r2). split; [done|]. rewrite <- E1, <- E2.
  clear Hs E1 E2. destruct H1 as [->| ->], H2 as [->| ->]; cbn; intuition lia.
Qed.

Lemma dlp_has_ssn_correct_witness :
  exists r, dlp_has_ssn (Some (chars [1;2;3;4;5;6;7;8;9])) 9 = Some r /\ (r = 0 \/ r = 1)
    /\ (r = 1 <-> some_hit (fun b l => dlp_is_valid_ssn b l HYPHENS) (chars [1;2;3;4;5;6;7;8;9]) 9
                 \/ some_hit (fun b l => dlp_is_valid_ssn b l STRIPPED) (chars [1;2;3;4;5;6;7;8;9]) 9).
Proof. apply (dlp_has_ssn_correct (chars [1;2;3;4;5;6;7;8;9]) 9). cbn. lia. Defined.

(** The hyphenated format is not enforced on the last field: sscanf stops at
    the first character that is not a digit and still reports three
    conversions, so 123-45-6abc counts as a social security number. *)
Lemma ssn_accepts_short_serial :
  dlp_is_valid_ssn (Some (chars [1;2;3] ++ 45 :: chars [4;5] ++ [45; 54; 97; 98; 99])) 11 HYPHENS
  = Some 1.
Proof. reflexivity. Qed.

(** [cli_isnumber] never looks at the first character of the string. *)
Lemma cli_isnumber_ignores_first c s :
  cli_isnumber (c :: s) = cli_isnumber (48 :: s).
Proof. by destruct s. Qed.

End SsnProps.

(** * The Turkish identification number *)
Module TrIdProps.
Import TrId Scan CcFacts SsnFacts.

Lemma tr_collect_Some n : forall b i, 0 <= i -> i + Z.of_nat n <= Z.of_nat (length b) ->
  is_Some (tr_collect n b i).
Proof.
  induction n as [|n IH]; intros b i Hi Hb; cbn; [eauto|].
  destruct (bget_is_Some b i) as [c ->]; [lia|]. destruct (isdigit c); [|eauto].
  destruct (IH b (i + 1)) as [r ->]; [lia|lia|]. eauto.
Qed.

Lemma tr_collect_chars ds : Forall digit ds -> forall pre rest,
  tr_collect (length ds) (pre ++ chars ds ++ rest) (Z.of_nat (length pre)) = Some (Some ds).
Proof.
  induction 1 as [|d ds Hd _ IH]; intros pre rest; [done|]. cbn [length tr_collect].
  rewrite bget_lookup by lia. rewrite lookup_app_r by lia.
  replace (Z.to_nat (Z.of_nat (length pre)) - length pre)%nat with 0%nat by lia.
  cbn [chars map app lookup list_lookup]. rewrite isdigit_char by done.
  specialize (IH (pre ++ [d + 48]) rest). rewrite <- app_assoc, length_app in IH. cbn [app length] in IH.
  replace (Z.of_nat (length pre + 1)) with (Z.of_nat (length pre) + 1) in IH by lia.
  fold (chars ds). rewrite IH. by rewrite Z.add_simpl_r.
Qed.

Lemma dlp_is_valid_tr_id_total b l :
  l <= Z.of_nat (length b) -> is_Some (dlp_is_valid_tr_id (Some b) l).
Proof.
  intros Hl. unfold dlp_is_valid_tr_id. destruct (Z.ltb_spec l 11); [eauto|].
  destruct (bget_is_Some b 0) as [c ->]; [lia|]. destruct (_ || _); [eauto|].
  destruct (tr_collect_Some (Z.to_nat (if 11 <? l then 11 else l)) b 0) as [r ->];
    [lia|destruct (Z.ltb_spec 11 l); lia|].
  repeat split_match; eauto.
Qed.

(** On eleven digits [dlp_is_valid_tr_id] accepts the identification numbers
    that satisfy the published checksum rule, except those whose weighted sum
    is negative and no multiple of ten: C's remainder is then negative and can
    not equal the check digit. *)
Theorem tr_id_correct ds rest len :
  Forall digit ds -> length ds = 11%nat -> 11 <= len <= 11 + Z.of_nat (length rest) ->
  dlp_is_valid_tr_id (Some (chars ds ++ rest)) len
  = Some (if trid_official ds && ((0 <=? trid_t ds) || (trid_t ds `mod` 10 =? 0)) then 1 else 0).
Proof.
  intros Hd Hl Hlen. unfold dlp_is_valid_tr_id.
  destruct (Z.ltb_spec len 11); [lia|].
  replace (if 11 <? len then 11 else len) with 11 by (destruct (Z.ltb_spec 11 len); lia).
  pose proof (tr_collect_chars ds Hd [] rest) as Hc. rewrite Hl in Hc. cbn [app length] in Hc.
  change (Z.of_nat 0) with 0 in Hc. change (Z.to_nat 11) with 11%nat. rewrite Hc.
  destruct ds as [|d0 [|d1 [|d2 [|d3 [|d4 [|d5 [|d6 [|d7 [|d8 [|d9 [|d10 [|? ?]]]]]]]]]]]]; try done.
  rewrite !Forall_cons in Hd. unfold digit in Hd.
  change (bget (chars (d0 :: _) ++ rest) 0) with (Some (d0 + 48)).
  cbv beta iota zeta. rewrite isdigit_char by (unfold digit; tauto). cbn [negb orb].
  unfold trid_official, trid_t.
  set (t := (d0 + d2 + d4 + d6 + d8) * 7 - (d1 + d3 + d5 + d7)).
  rewrite (Z.rem_mod_nonneg (d0 + d1 + d2 + d3 + d4 + d5 + d6 + d7 + d8 + d9)) by lia.
  set (sum2 := (d0 + d1 + d2 + d3 + d4 + d5 + d6 + d7 + d8 + d9) `mod` 10). clearbody sum2.
  destruct (Z.eqb_spec d0 0) as [->|Hd0]; cbn [negb andb]; [done|].
  replace (d0 + 48 =? 48) with false by lia.
  destruct (Z.leb_spec 0 t); cbn [orb].
  - rewrite Z.rem_mod_nonneg, andb_true_r by lia. done.
  - pose proof (Z.rem_bound_pos_neg t 10 ltac:(lia) ltac:(lia)).
    pose proof (Z.mod_pos_bound t 10 ltac:(lia)).
    pose proof (Z.quot_rem t 10 ltac:(lia)). pose proof (Z.div_mod t 10 ltac:(lia)).
    assert ((Z.rem t 10 =? d9) = (t `mod` 10 =? d9) && (t `mod` 10 =? 0)) as -> by lia.
    by destruct (t `mod` 10 =? d9), (t `mod` 10 =? 0), (sum2 =? d10).
Qed.

Lemma tr_id_correct_witness :
  dlp_is_valid_tr_id (Some (chars [1;0;0;0;0;0;0;0;1;4;6] ++ [])) 11 = Some 1.
Proof.
  rewrite (tr_id_correct [1;0;0;0;0;0;0;0;1;4;6] [] 11);
    [reflexivity|repeat constructor; vm_compute; discriminate|reflexivity|cbn; lia].
Defined.

(** [dlp_has_tr_id] returns 1 exactly when some position that starts a run of
    digits is accepted by [dlp_is_valid_tr_id], and [dlp_get_tr_id_count] counts
    a largest set of such positions lying at least twelve bytes apart. *)
Theorem tr_id_scan_correct b len :
  12 <= len <= Z.of_nat (length b) ->
  (dlp_has_tr_id (Some b) len = Some 1 <-> some_hit dlp_is_valid_tr_id b len) /\
  exists m : nat,
    dlp_get_tr_id_count (Some b) len = Some (Z.of_nat m)
    /\ (exists l, selection dlp_is_valid_tr_id b len 11 0 l /\ length l = m)
    /\ (forall l, selection dlp_is_valid_tr_id b len 11 0 l -> (length l <= m)%nat).
Proof.
  intros Hlen. unfold dlp_has_tr_id, dlp_get_tr_id_count, contains_tr_id.
  destruct (Z.ltb_spec len 11); [lia|]. destruct (Z.ltb_spec 11 len); [|lia]. split.
  - apply ScanFacts.scan_detect_correct; [apply dlp_is_valid_tr_id_total|lia|lia].
  - apply ScanFacts.scan_count_correct; [apply dlp_is_valid_tr_id_total|lia|lia].
Qed.

Lemma tr_id_scan_correct_witness :
  (dlp_has_tr_id (Some (chars [1;0;0;0;0;0;0;0;1;4;6] ++ [32])) 12 = Some 1 <->
     some_hit dlp_is_valid_tr_id (chars [1;0;0;0;0;0;0;0;1;4;6] ++ [32]) 12) /\
  exists m : nat,
    dlp_get_tr_id_count (Some (chars [1;0;0;0;0;0;0;0;1;4;6] ++ [32])) 12 = Some (Z.of_nat m)
    /\ (exists l, selection dlp_is_valid_tr_id (chars [1;0;0;0;0;0;0;0;1;4;6] ++ [32]) 12 11 0 l
                  /\ length l = m)
    /\ (forall l, selection dlp_is_valid_tr_id (chars [1;0;0;0;0;0;0;0;1;4;6] ++ [32]) 12 11 0 l ->
                  (length l <= m)%nat).
Proof. apply (tr_id_scan_correct (chars [1;0;0;0;0;0;0;0;1;4;6] ++ [32]) 12). cbn. lia. Defined.

(** A number that satisfies the published rule and that the code rejects. *)
Lemma tr_id_rejects_official :
  trid_official [1;9;0;9;0;9;0;9;0;1;8] = true /\
  dlp_is_valid_tr_id (Some (chars [1;9;0;9;0;9;0;9;0;1;8])) 11 = Some 0.
Proof. by vm_compute. Qed.

End TrIdProps.
