(* ===== verification/Structured.v ===== *)
(** Regular-expression and IBAN detectors (libclamav/dlp_regex.c,
    libclamav/dlp_iban.c) and the driver [cli_scan_structured]
    (libclamav/scanners.c) that adds up the counts of all detectors over the
    chunks of a file.

    The PCRE library is a parameter: [pcre_compile] gives the compiled pattern
    (or NULL) and the error offset, [pcre_exec] its return code on a buffer. *)
From stdpp Require Import base numbers list list_numbers.
From Stdlib Require Import ZArith Lia Bool.
From S2P Require Import Prelude Dlp.
Import Errors.
Local Open Scope Z_scope.

Module Structured.
Import Dlp.Ssn Dlp.Scan.

Definition CL_SCAN_STRUCTURED_SSN_NORMAL : Z := 0x10000.
Definition CL_SCAN_STRUCTURED_SSN_STRIPPED : Z := 0x20000.

Section WithPcre.
Variable re : Type.
Variable pcre_compile : list Z -> option re * Z.
Variable pcre_exec : option re -> list Z -> Z -> Z.

(** * Configured regular expressions *)

Record regex_st := { rid : Z; dlp_re : option re }.

(** The globals [regexes] (NULL or an array) and [regex_count] of dlp_regex.h. *)
Record regex_state := { regexes : option (list regex_st); regex_count : Z; found_regex_id : Z }.

(** The compile loop of [cl_dlp_regex_init]: a pattern is kept when the error
    offset is zero. *)
Fixpoint regex_compile_all (ids : list Z) (regex_list : list (list Z)) : list regex_st :=
  match ids, regex_list with
  | i :: ids', r :: rs =>
      let '(temp_re, erroffset) := pcre_compile r in
      if erroffset =? 0
      then {| rid := i; dlp_re := temp_re |} :: regex_compile_all ids' rs
      else regex_compile_all ids' rs
  | _, _ => []
  end.

Definition cl_dlp_regex_init (ids : list Z) (regex_list : list (list Z)) (st : regex_state)
    : regex_state :=
  match regex_list with
  | [] => {| regexes := None; regex_count := 0; found_regex_id := found_regex_id st |}
  | _ =>
      let kept := regex_compile_all ids regex_list in
      {| regexes := Some kept; regex_count := Z.of_nat (length kept);
         found_regex_id := found_regex_id st |}
  end.

(** The loop of [contains_regex]: the count and the last pattern that matched. *)
Fixpoint regex_loop (rs : list regex_st) (buffer : list Z) (len : Z) (mode : detmode)
    (count found : Z) : Z * Z :=
  match rs with
  | [] => (count, found)
  | r :: rs' =>
      if 0 <=? pcre_exec (dlp_re r) buffer len then
        match mode with
        | DETECT => (1, rid r)
        | COUNT => regex_loop rs' buffer len mode (count + 1) (rid r)
        end
      else regex_loop rs' buffer len mode count found
  end.

Definition contains_regex (st : regex_state) (buffer : option (list Z)) (len : Z) (mode : detmode)
    : Z * regex_state :=
  match buffer, regexes st with
  | Some b, Some rs =>
      let '(count, found) := regex_loop rs b len mode 0 (found_regex_id st) in
      (count, {| regexes := regexes st; regex_count := regex_count st; found_regex_id := found |})
  | _, _ => (0, st)
  end.

Definition dlp_get_regex_count st buffer len := contains_regex st buffer len COUNT.
Definition dlp_has_regex st buffer len := contains_regex st buffer len DETECT.

(** * IBANs *)

Record iban_st := { country : list Z; iban_re : option re }.
Record iban_state := { ibans : list iban_st; found_country : list Z }.

(** [cl_dlp_iban_init] stops at the first pattern that does not compile; the
    boolean is false for the return value -1. *)
Fixpoint iban_init_loop (codes : list (list Z)) (patterns : list (list Z)) (acc : list iban_st)
    : list iban_st * bool :=
  match codes, patterns with
  | c :: cs, p :: ps =>
      let '(temp_re, erroffset) := pcre_compile p in
      if erroffset =? 0
      then iban_init_loop cs ps (acc ++ [{| country := c; iban_re := temp_re |}])
      else (acc, false)
  | _, _ => (acc, true)
  end.

Fixpoint iban_loop (ibs : list iban_st) (buffer : list Z) (len : Z) (mode : detmode)
    (count : Z) (found : list Z) : Z * list Z :=
  match ibs with
  | [] => (count, found)
  | i :: ibs' =>
      if 0 <=? pcre_exec (iban_re i) buffer len then
        match mode with
        | DETECT => (1, country i)
        | COUNT => iban_loop ibs' buffer len mode (count + 1) (country i)
        end
      else iban_loop ibs' buffer len mode count found
  end.

Definition contains_iban (st : iban_state) (buffer : option (list Z)) (len : Z) (mode : detmode)
    : Z * iban_state :=
  match buffer with
  | Some b =>
      let '(count, found) := iban_loop (ibans st) b len mode 0 (found_country st) in
      (count, {| ibans := ibans st; found_country := found |})
  | None => (0, st)
  end.

Definition dlp_get_iban_count st buffer len := contains_iban st buffer len COUNT.
Definition dlp_has_iban st buffer len := contains_iban st buffer len DETECT.

(** * The driver *)

(** The thresholds of [struct cl_engine] (uint32_t; zero disables a detector)
    and the scan options of the context. *)
Record engine := {
  min_cc_count : Z; min_ssn_count : Z; min_regex_count : Z; min_trid_count : Z; min_iban_count : Z;
  options : Z }.

Inductive virname :=
| CreditCardNumber | SSN | Regex (id : Z) | TRid | IBAN (code : list Z).

(** The local counters ([unsigned int]) and the detectors' global state. *)
Record scan_state := {
  cc_count : Z; ssn_count : Z; rgx_count : Z; trid_count : Z; iban_count : Z;
  rgx_st : regex_state; iban_gst : iban_state }.

Definition ccfunc (e : engine) (b : option (list Z)) (len : Z) : option Z :=
  if min_cc_count e =? 1 then dlp_has_cc b len else dlp_get_cc_count b len.

Definition tridfunc (e : engine) (b : option (list Z)) (len : Z) : option Z :=
  if min_trid_count e =? 1 then dlp_has_tr_id b len else dlp_get_tr_id_count b len.

Definition regexfunc (e : engine) (st : regex_state) (b : option (list Z)) (len : Z)
    : Z * regex_state :=
  if min_regex_count e =? 1 then dlp_has_regex st b len else dlp_get_regex_count st b len.

Definition ibanfunc (e : engine) (st : iban_state) (b : option (list Z)) (len : Z)
    : Z * iban_state :=
  if min_iban_count e =? 1 then dlp_has_iban st b len else dlp_get_iban_count st b len.

(** [ssnfunc]: NULL (here [None]) when neither option bit is set. *)
Definition ssnfunc (e : engine) : option (option (list Z) -> Z -> option Z) :=
  let bits := Z.lor (Z.land (options e) CL_SCAN_STRUCTURED_SSN_NORMAL)
                    (Z.land (options e) CL_SCAN_STRUCTURED_SSN_STRIPPED) in
  if bits =? Z.lor CL_SCAN_STRUCTURED_SSN_NORMAL CL_SCAN_STRUCTURED_SSN_STRIPPED then
    Some (if min_ssn_count e =? 1 then dlp_has_ssn else dlp_get_ssn_count)
  else if bits =? CL_SCAN_STRUCTURED_SSN_NORMAL then
    Some (if min_ssn_count e =? 1 then dlp_has_normal_ssn else dlp_get_normal_ssn_count)
  else if bits =? CL_SCAN_STRUCTURED_SSN_STRIPPED then
    Some (if min_ssn_count e =? 1 then dlp_has_stripped_ssn else dlp_get_stripped_ssn_count)
  else None.

(** One round of the [while] loop on a chunk; the boolean is [done]. *)
Definition structured_chunk (e : engine) (buf : list Z) (s : scan_state)
    : option (scan_state * bool) :=
  let result := Z.of_nat (length buf) in
  let b := Some buf in
  let* cc := (if min_cc_count e =? 0 then Some 0 else ccfunc e b result) in
  let cc' := uint 32 (cc_count s + cc) in
  let* ssn := (if min_ssn_count e =? 0 then Some 0
               else match ssnfunc e with Some f => f b result | None => Some 0 end) in
  let ssn' := uint 32 (ssn_count s + ssn) in
  let '(rx, rst) := (if min_regex_count e =? 0 then (0, rgx_st s) else regexfunc e (rgx_st s) b result) in
  let rx' := uint 32 (rgx_count s + rx) in
  let* tr := (if min_trid_count e =? 0 then Some 0 else tridfunc e b result) in
  let tr' := uint 32 (trid_count s + tr) in
  let '(ib, ist) := (if min_iban_count e =? 0 then (0, iban_gst s) else ibanfunc e (iban_gst s) b result) in
  let ib' := uint 32 (iban_count s + ib) in
  Some ({| cc_count := cc'; ssn_count := ssn'; rgx_count := rx'; trid_count := tr';
           iban_count := ib'; rgx_st := rst; iban_gst := ist |},
        (negb (min_cc_count e =? 0) && (min_cc_count e <=? cc'))
        || (negb (min_ssn_count e =? 0) && match ssnfunc e with Some _ => min_ssn_count e <=? ssn' | None => false end)
        || (negb (min_regex_count e =? 0) && (min_regex_count e <=? rx'))
        || (negb (min_trid_count e =? 0) && (min_trid_count e <=? tr'))
        || (negb (min_iban_count e =? 0) && (min_iban_count e <=? ib'))).

(** The loop: [chunks] are the buffers that the successive calls of
    [cli_readn(desc, buf, 8191)] fill before one returns zero or fails. *)
Fixpoint structured_loop (e : engine) (chunks : list (list Z)) (s : scan_state)
    : option scan_state :=
  match chunks with
  | [] => Some s
  | buf :: rest =>
      let* (s', fin) := structured_chunk e buf s in
      if (fin : bool) then Some s' else structured_loop e rest s'
  end.

(** The verdict after the loop. *)
Definition structured_report (e : engine) (s : scan_state) : Z * option virname :=
  let over m c := negb (m =? 0) && negb (c =? 0) && (m <=? c) in
  if over (min_cc_count e) (cc_count s) then (CL_VIRUS, Some CreditCardNumber)
  else if over (min_ssn_count e) (ssn_count s) then (CL_VIRUS, Some SSN)
  else if over (min_regex_count e) (rgx_count s) then
    (CL_VIRUS, Some (Regex (found_regex_id (rgx_st s))))
  else if over (min_trid_count e) (trid_count s) then (CL_VIRUS, Some TRid)
  else if over (min_iban_count e) (iban_count s) then
    (CL_VIRUS, Some (IBAN (found_country (iban_gst s))))
  else (CL_CLEAN, None).

Definition scan_init (rs : regex_state) (ist : iban_state) : scan_state :=
  {| cc_count := 0; ssn_count := 0; rgx_count := 0; trid_count := 0; iban_count := 0;
     rgx_st := rs; iban_gst := ist |}.

Definition cli_scan_structured (e : engine) (rs : regex_state) (ist : iban_state)
    (chunks : list (list Z)) : option (Z * option virname) :=
  let* s := structured_loop e chunks (scan_init rs ist) in
  Some (structured_report e s).

End WithPcre.
End Structured.

(** * Totals of the detectors, and the verdict *)
Module StructuredFacts.
Import Dlp.Ssn Dlp.Scan Structured.

(** The five detectors. *)
Inductive detector := D_CC | D_SSN | D_RX | D_TR | D_IB.

Definition all_detectors : list detector := [D_CC; D_SSN; D_RX; D_TR; D_IB].

Definition minimum (e : engine) (d : detector) : Z :=
  match d with
  | D_CC => min_cc_count e | D_SSN => min_ssn_count e | D_RX => min_regex_count e
  | D_TR => min_trid_count e | D_IB => min_iban_count e
  end.

Definition counter {re} (s : scan_state re) (d : detector) : Z :=
  match d with
  | D_CC => cc_count _ s | D_SSN => ssn_count _ s | D_RX => rgx_count _ s
  | D_TR => trid_count _ s | D_IB => iban_count _ s
  end.

Section Facts.
Context {re : Type} (pcre_exec : option re -> list Z -> Z -> Z).
Variables (e : engine) (rs0 : regex_state re) (ib0 : iban_state re).

Abbreviation reached d v := (negb (minimum e d =? 0) && (minimum e d <=? v)).

(** What the detector [d] counts on one chunk. *)
Definition found_in (d : detector) (buf : list Z) : Z :=
  let len := Z.of_nat (length buf) in
  if minimum e d =? 0 then 0 else
  match d with
  | D_CC => default 0 (ccfunc e (Some buf) len)
  | D_SSN => match ssnfunc e with Some f => default 0 (f (Some buf) len) | None => 0 end
  | D_RX => fst (regexfunc re pcre_exec e rs0 (Some buf) len)
  | D_TR => default 0 (tridfunc e (Some buf) len)
  | D_IB => fst (ibanfunc re pcre_exec e ib0 (Some buf) len)
  end.

Fixpoint total (d : detector) (chunks : list (list Z)) : Z :=
  match chunks with [] => 0 | b :: r => found_in d b + total d r end.

(** The configured expressions that match a chunk, and the one whose name is kept:
    the first when the search stops there, otherwise the last; without a match the
    name of an earlier chunk stays. *)
Definition matching {A} (f : A -> option re) (l : list A) (buf : list Z) : list A :=
  List.filter (fun x => 0 <=? pcre_exec (f x) buf (Z.of_nat (length buf))) l.
Definition named {A B} (first : bool) (g : A -> B) (l : list A) (old : B) : B :=
  match (if first then head l else last l) with Some x => g x | None => old end.

Definition regex_named (old : Z) (buf : list Z) : Z :=
  if min_regex_count e =? 0 then old
  else named (min_regex_count e =? 1) (rid re) (matching (dlp_re re) (default [] (regexes re rs0)) buf) old.
Definition iban_named (old : list Z) (buf : list Z) : list Z :=
  if min_iban_count e =? 0 then old
  else named (min_iban_count e =? 1) (country re) (matching (iban_re re) (ibans re ib0) buf) old.

(** The name reported for a detector after some chunks. *)
Definition name_of (d : detector) (chunks : list (list Z)) : virname :=
  match d with
  | D_CC => CreditCardNumber | D_SSN => SSN | D_TR => TRid
  | D_RX => Regex (foldl regex_named (found_regex_id re rs0) chunks)
  | D_IB => IBAN (foldl iban_named (found_country re ib0) chunks)
  end.

(** Some detector that is enabled has reached its minimum. *)
Definition reached_at (chunks : list (list Z)) (d : detector) : bool := reached d (total d chunks).

(** The chunks that are read: up to the first one after which a detector has reached
    its minimum, or all. *)
Definition read_chunks (pre chunks : list (list Z)) : Prop := exists post, chunks = pre ++ post /\
  (forall q b, (q ++ [b]) `prefix_of` pre -> existsb (reached_at q) all_detectors = false) /\
  (post <> [] -> existsb (reached_at pre) all_detectors = true).

(** ** Every detector is total and counts at least zero *)

Lemma scan_mode_nonneg valid hop b len mode :
  (forall b l, l <= Z.of_nat (length b) -> is_Some (valid (Some b) l)) ->
  len <= Z.of_nat (length b) -> 0 <= hop ->
  exists r, scan_loop valid hop mode (scan_fuel len) b len 0 0 = Some r /\ 0 <= r.
Proof.
  intros Hv Hl Hh. destruct mode.
  - destruct (ScanFacts.scan_detect_01 valid Hv b len hop Hl Hh) as (r & -> & H). exists r. split; [done|lia].
  - destruct (ScanFacts.scan_count_correct valid Hv b len hop Hl Hh) as (m & -> & _).
    exists (Z.of_nat m). split; [done|lia].
Qed.

Lemma contains_cc_nonneg b mode :
  exists r, contains_cc (Some b) (Z.of_nat (length b)) mode = Some r /\ 0 <= r.
Proof.
  unfold contains_cc. destruct (Z.ltb_spec (Z.of_nat (length b)) 13); [exists 0; split; [done|lia]|].
  apply scan_mode_nonneg; [apply CcFacts.dlp_is_valid_cc_total|lia|destruct (_ <? _) eqn:?; lia].
Qed.

Lemma contains_ssn_nonneg b fmt mode :
  exists r, contains_ssn (Some b) (Z.of_nat (length b)) fmt mode = Some r /\ 0 <= r.
Proof.
  unfold contains_ssn. destruct (Z.ltb_spec (Z.of_nat (length b)) 9); [exists 0; split; [done|lia]|].
  apply scan_mode_nonneg; [apply SsnFacts.dlp_is_valid_ssn_total|lia|destruct fmt; lia].
Qed.

Lemma contains_tr_id_nonneg b mode :
  exists r, contains_tr_id (Some b) (Z.of_nat (length b)) mode = Some r /\ 0 <= r.
Proof.
  unfold contains_tr_id. destruct (Z.ltb_spec (Z.of_nat (length b)) 11); [exists 0; split; [done|lia]|].
  apply scan_mode_nonneg; [apply TrIdProps.dlp_is_valid_tr_id_total|lia|destruct (_ <? _) eqn:?; lia].
Qed.

Lemma ccfunc_nonneg b : exists r, ccfunc e (Some b) (Z.of_nat (length b)) = Some r /\ 0 <= r.
Proof. unfold ccfunc. destruct (_ =? _); apply contains_cc_nonneg. Qed.

Lemma tridfunc_nonneg b : exists r, tridfunc e (Some b) (Z.of_nat (length b)) = Some r /\ 0 <= r.
Proof. unfold tridfunc. destruct (_ =? _); apply contains_tr_id_nonneg. Qed.

Lemma ssn_both_nonneg b :
  (exists r, dlp_has_ssn (Some b) (Z.of_nat (length b)) = Some r /\ 0 <= r) /\
  (exists r, dlp_get_ssn_count (Some b) (Z.of_nat (length b)) = Some r /\ 0 <= r).
Proof.
  unfold dlp_has_ssn, dlp_get_ssn_count, dlp_get_stripped_ssn_count, dlp_get_normal_ssn_count.
  destruct (contains_ssn_nonneg b HYPHENS DETECT) as (h & -> & ?).
  destruct (contains_ssn_nonneg b STRIPPED DETECT) as (t & -> & ?).
  destruct (contains_ssn_nonneg b STRIPPED COUNT) as (u & -> & ?).
  destruct (contains_ssn_nonneg b HYPHENS COUNT) as (v & -> & ?).
  split; eexists; (split; [done|]); [apply Z.lor_nonneg|]; lia.
Qed.

Lemma ssnfunc_nonneg f b : ssnfunc e = Some f ->
  exists r, f (Some b) (Z.of_nat (length b)) = Some r /\ 0 <= r.
Proof.
  unfold ssnfunc. intros H. repeat split_match_in H; try discriminate; injection H as <-;
    first [apply ssn_both_nonneg | apply contains_ssn_nonneg].
Qed.

Lemma regex_loop_fst rs b len mode : forall c f f',
  fst (regex_loop re pcre_exec rs b len mode c f) = fst (regex_loop re pcre_exec rs b len mode c f').
Proof.
  induction rs as [|r rs IH]; intros c f f'; cbn; [done|].
  destruct (_ <=? _); [|apply IH]. destruct mode; [done|]. apply IH.
Qed.

Lemma regex_loop_nonneg rs b len mode : forall c f, 0 <= c ->
  0 <= fst (regex_loop re pcre_exec rs b len mode c f).
Proof.
  induction rs as [|r rs IH]; intros c f Hc; cbn; [done|].
  destruct (_ <=? _); [|by apply IH]. destruct mode; [done|]. apply IH. lia.
Qed.

Lemma iban_loop_fst rs b len mode : forall c f f',
  fst (iban_loop re pcre_exec rs b len mode c f) = fst (iban_loop re pcre_exec rs b len mode c f').
Proof.
  induction rs as [|r rs IH]; intros c f f'; cbn; [done|].
  destruct (_ <=? _); [|apply IH]. destruct mode; [done|]. apply IH.
Qed.

Lemma iban_loop_nonneg rs b len mode : forall c f, 0 <= c ->
  0 <= fst (iban_loop re pcre_exec rs b len mode c f).
Proof.
  induction rs as [|r rs IH]; intros c f Hc; cbn; [done|].
  destruct (_ <=? _); [|by apply IH]. destruct mode; [done|]. apply IH. lia.
Qed.

Lemma contains_regex_facts st b len mode :
  regexes _ st = regexes _ rs0 ->
  fst (contains_regex re pcre_exec st (Some b) len mode)
  = fst (contains_regex re pcre_exec rs0 (Some b) len mode)
  /\ regexes _ (snd (contains_regex re pcre_exec st (Some b) len mode)) = regexes _ rs0
  /\ 0 <= fst (contains_regex re pcre_exec st (Some b) len mode).
Proof.
  intros E. unfold contains_regex. rewrite E. destruct (regexes re rs0) as [rs|]; [|cbn; repeat split; done || lia].
  pose proof (regex_loop_fst rs b len mode 0 (found_regex_id re st) (found_regex_id re rs0)) as H.
  pose proof (regex_loop_nonneg rs b len mode 0 (found_regex_id re st)) as Hn.
  destruct (regex_loop _ _ rs b len mode 0 (found_regex_id re st)),
    (regex_loop _ _ rs b len mode 0 (found_regex_id re rs0)).
  cbn in *. repeat split; done || lia.
Qed.

Lemma contains_iban_facts st b len mode :
  ibans _ st = ibans _ ib0 ->
  fst (contains_iban re pcre_exec st (Some b) len mode)
  = fst (contains_iban re pcre_exec ib0 (Some b) len mode)
  /\ ibans _ (snd (contains_iban re pcre_exec st (Some b) len mode)) = ibans _ ib0
  /\ 0 <= fst (contains_iban re pcre_exec st (Some b) len mode).
Proof.
  intros E. unfold contains_iban. rewrite E.
  pose proof (iban_loop_fst (ibans _ ib0) b len mode 0 (found_country re st) (found_country re ib0)) as H.
  pose proof (iban_loop_nonneg (ibans _ ib0) b len mode 0 (found_country re st)) as Hn.
  destruct (iban_loop _ _ (ibans _ ib0) b len mode 0 (found_country re st)),
    (iban_loop _ _ (ibans _ ib0) b len mode 0 (found_country re ib0)).
  cbn in *. repeat split; done || lia.
Qed.

(** The name that is kept. *)
Lemma regex_loop_snd rs b mode : forall c f,
  snd (regex_loop re pcre_exec rs b (Z.of_nat (length b)) mode c f)
  = named (match mode with DETECT => true | COUNT => false end) (rid re) (matching (dlp_re re) rs b) f.
Proof.
  induction rs as [|r rs IH]; intros c f; [by destruct mode|]. cbn [regex_loop]. unfold matching. cbn [List.filter].
  destruct (_ <=? _); [|exact (IH _ _)]. destruct mode; [done|]. rewrite IH. unfold named, matching.
  rewrite last_cons. by destruct (last _).
Qed.

Lemma iban_loop_snd rs b mode : forall c f,
  snd (iban_loop re pcre_exec rs b (Z.of_nat (length b)) mode c f)
  = named (match mode with DETECT => true | COUNT => false end) (country re) (matching (iban_re re) rs b) f.
Proof.
  induction rs as [|r rs IH]; intros c f; [by destruct mode|]. cbn [iban_loop]. unfold matching. cbn [List.filter].
  destruct (_ <=? _); [|exact (IH _ _)]. destruct mode; [done|]. rewrite IH. unfold named, matching.
  rewrite last_cons. by destruct (last _).
Qed.

(** ** One chunk *)

Lemma found_in_nonneg d buf : 0 <= found_in d buf.
Proof.
  unfold found_in. destruct (minimum e d =? 0); [done|]. destruct d.
  - by destruct (ccfunc_nonneg buf) as (r & -> & ?).
  - destruct (ssnfunc e) as [f|] eqn:Ef; [|done]. by destruct (ssnfunc_nonneg f buf Ef) as (r & -> & ?).
  - unfold regexfunc, dlp_has_regex, dlp_get_regex_count.
    destruct (_ =? _); by apply contains_regex_facts.
  - by destruct (tridfunc_nonneg buf) as (r & -> & ?).
  - unfold ibanfunc, dlp_has_iban, dlp_get_iban_count.
    destruct (_ =? _); by apply contains_iban_facts.
Qed.

Lemma total_nonneg d chunks : 0 <= total d chunks.
Proof. induction chunks; cbn; [lia|]. pose proof (found_in_nonneg d a). lia. Qed.

Lemma regexfunc_facts st buf : regexes _ st = regexes _ rs0 ->
  exists st', (regexes _ st' = regexes _ rs0 /\
      found_regex_id re st' = named (min_regex_count e =? 1) (rid re) (matching (dlp_re re) (default [] (regexes re rs0)) buf) (found_regex_id re st)) /\
    regexfunc re pcre_exec e st (Some buf) (Z.of_nat (length buf))
    = (fst (regexfunc re pcre_exec e rs0 (Some buf) (Z.of_nat (length buf))), st').
Proof.
  intros E. unfold regexfunc, dlp_has_regex, dlp_get_regex_count.
  destruct (_ =? _); match goal with |- context [contains_regex _ _ st _ _ ?m] =>
    destruct (contains_regex_facts st buf (Z.of_nat (length buf)) m E) as (<- & H & _);
    assert (found_regex_id re (snd (contains_regex re pcre_exec st (Some buf) (Z.of_nat (length buf)) m)) =
      named (match m with DETECT => true | COUNT => false end) (rid re) (matching (dlp_re re) (default [] (regexes re rs0)) buf) (found_regex_id re st)) as Hn
      by (unfold contains_regex; rewrite E; destruct (regexes re rs0) as [rs|]; [|done];
          pose proof (regex_loop_snd rs buf m 0 (found_regex_id re st)) as Hs; cbn [default from_option id];
          rewrite <- Hs; by destruct (regex_loop _ _ _ _ _ _ _ _));
    destruct (contains_regex re pcre_exec st (Some buf) (Z.of_nat (length buf)) m) as [c st'];
    exists st'; split; [split; [exact H|exact Hn]|done] end.
Qed.

Lemma ibanfunc_facts st buf : ibans _ st = ibans _ ib0 ->
  exists st', (ibans _ st' = ibans _ ib0 /\
      found_country re st' = named (min_iban_count e =? 1) (country re) (matching (iban_re re) (ibans re ib0) buf) (found_country re st)) /\
    ibanfunc re pcre_exec e st (Some buf) (Z.of_nat (length buf))
    = (fst (ibanfunc re pcre_exec e ib0 (Some buf) (Z.of_nat (length buf))), st').
Proof.
  intros E. unfold ibanfunc, dlp_has_iban, dlp_get_iban_count.
  destruct (_ =? _); match goal with |- context [contains_iban _ _ st _ _ ?m] =>
    destruct (contains_iban_facts st buf (Z.of_nat (length buf)) m E) as (<- & H & _);
    assert (found_country re (snd (contains_iban re pcre_exec st (Some buf) (Z.of_nat (length buf)) m)) =
      named (match m with DETECT => true | COUNT => false end) (country re) (matching (iban_re re) (ibans re ib0) buf) (found_country re st)) as Hn
      by (unfold contains_iban; rewrite E;
          pose proof (iban_loop_snd (ibans re ib0) buf m 0 (found_country re st)) as Hs;
          rewrite <- Hs; by destruct (iban_loop _ _ _ _ _ _ _ _));
    destruct (contains_iban re pcre_exec st (Some buf) (Z.of_nat (length buf)) m) as [c st'];
    exists st'; split; [split; [exact H|exact Hn]|done] end.
Qed.

Definition same_tables (s : scan_state re) : Prop :=
  regexes _ (rgx_st _ s) = regexes _ rs0 /\ ibans _ (iban_gst _ s) = ibans _ ib0.

(** A round adds the chunk's count to each counter and stops when an enabled
    detector has reached its minimum. *)
Lemma structured_chunk_spec buf s :
  same_tables s -> (ssnfunc e = None -> ssn_count _ s = 0) -> 0 <= min_ssn_count e ->
  exists s', structured_chunk re pcre_exec e buf s
             = Some (s', existsb (fun d => reached d (counter s' d)) all_detectors)
    /\ same_tables s'
    /\ (ssnfunc e = None -> ssn_count _ s' = 0)
    /\ (forall d, counter s' d = uint 32 (counter s d + found_in d buf))
    /\ found_regex_id _ (rgx_st _ s') = regex_named (found_regex_id _ (rgx_st _ s)) buf
    /\ found_country _ (iban_gst _ s') = iban_named (found_country _ (iban_gst _ s)) buf.
Proof.
  intros [Hr Hi] Hs Hmin. unfold structured_chunk.
  destruct (ccfunc_nonneg buf) as (cc & Ecc & _).
  destruct (tridfunc_nonneg buf) as (tr & Etr & _).
  destruct (regexfunc_facts (rgx_st _ s) buf Hr) as (rst & [Hrst Hrn] & Erx).
  destruct (ibanfunc_facts (iban_gst _ s) buf Hi) as (ist & [Hist Hin] & Eib).
  assert (exists ssn, (if min_ssn_count e =? 0 then Some 0 else
            match ssnfunc e with Some f => f (Some buf) (Z.of_nat (length buf)) | None => Some 0 end)
          = Some ssn /\ found_in D_SSN buf = ssn) as (ssn & -> & Ess).
  { unfold found_in. cbn [minimum]. destruct (min_ssn_count e =? 0); [eauto|].
    destruct (ssnfunc e) as [f|] eqn:Ef; [|eauto].
    destruct (ssnfunc_nonneg f buf Ef) as (r & -> & _). eauto. }
  rewrite Ecc, Etr, Erx, Eib.
  assert (forall (b : bool) (x : Z), (if b then Some 0 else Some x) = Some (if b then 0 else x)) as Hif
    by (by intros []).
  assert (forall (b : bool) (x y : Z) (u v : regex_state re),
    (if b then (x, u) else (y, v)) = (if b then x else y, if b then u else v)) as Hp by (by intros []).
  assert (forall (b : bool) (x y : Z) (u v : iban_state re),
    (if b then (x, u) else (y, v)) = (if b then x else y, if b then u else v)) as Hq by (by intros []).
  rewrite !Hif, Hp, Hq. eexists. split; [f_equal; f_equal|split; [|split; [|split; [|split]]]].
  - cbn [existsb all_detectors counter minimum cc_count ssn_count rgx_count trid_count iban_count].
    rewrite orb_false_r, !orb_assoc. do 3 f_equal. f_equal.
    destruct (ssnfunc e) as [f|] eqn:Ef; [done|].
    specialize (Hs eq_refl). rewrite Hs, <- Ess. unfold found_in. rewrite Ef. cbn [minimum].
    destruct (Z.eqb_spec (min_ssn_count e) 0); [done|]. cbn [negb andb].
    change (uint 32 (0 + 0)) with 0. lia.
  - split; cbn [rgx_st iban_gst]; by destruct (_ =? 0).
  - cbn [ssn_count]. intros Ef. rewrite (Hs Ef), <- Ess. unfold found_in. rewrite Ef.
    by destruct (_ =? 0).
  - intros []; cbn [counter cc_count ssn_count rgx_count trid_count iban_count];
      rewrite <- ?Ess; unfold found_in; cbn [minimum]; rewrite ?Ecc, ?Etr; done.
  - cbn [rgx_st]. unfold regex_named. destruct (min_regex_count e =? 0); [done|exact Hrn].
  - cbn [iban_gst]. unfold iban_named. destruct (min_iban_count e =? 0); [done|exact Hin].
Qed.

(** ** The whole file *)

Lemma total_app d l1 l2 : total d (l1 ++ l2) = total d l1 + total d l2.
Proof. induction l1 as [|b l1 IH]; cbn; [done|]. rewrite IH. lia. Qed.

(** The state behind some chunks. *)
Record counted_so_far (pre : list (list Z)) (s : scan_state re) : Prop := {
  bh_tables : same_tables s;
  bh_ssn : ssnfunc e = None -> ssn_count _ s = 0;
  bh_counter : forall d, counter s d = total d pre;
  bh_regex : found_regex_id _ (rgx_st _ s) = foldl regex_named (found_regex_id re rs0) pre;
  bh_iban : found_country _ (iban_gst _ s) = foldl iban_named (found_country re ib0) pre }.

Lemma counted_chunk pre buf s : counted_so_far pre s -> 0 <= min_ssn_count e -> (forall d, total d (pre ++ [buf]) < 2 ^ 32) ->
  exists s', structured_chunk re pcre_exec e buf s = Some (s', existsb (reached_at (pre ++ [buf])) all_detectors) /\
    counted_so_far (pre ++ [buf]) s'.
Proof.
  intros [Ht Hs Hc Hr Hi] Hm Hb. destruct (structured_chunk_spec buf s Ht Hs Hm) as (s' & -> & Ht' & Hs' & Hc' & Hr' & Hi').
  assert (forall d, counter s' d = total d (pre ++ [buf])) as Hc2.
  { intros d. specialize (Hb d). rewrite Hc', Hc. rewrite total_app in *. cbn [total] in *. pose proof (found_in_nonneg d buf). pose proof (total_nonneg d pre).
    rewrite uint_small; lia. }
  exists s'. split; [|split; try done; rewrite foldl_app; cbn; congruence].
  cbn [existsb all_detectors]. unfold reached_at. by rewrite !Hc2.
Qed.

(** The loop stops behind the chunks it has to read. *)
Lemma structured_loop_spec chunks : forall pre s, counted_so_far pre s -> 0 <= min_ssn_count e ->
  (forall d, total d (pre ++ chunks) < 2 ^ 32) ->
  (forall q b, (q ++ [b]) `prefix_of` pre -> existsb (reached_at q) all_detectors = false) ->
  existsb (reached_at pre) all_detectors = false ->
  exists pre' s', structured_loop re pcre_exec e chunks s = Some s' /\ counted_so_far pre' s' /\ read_chunks pre' (pre ++ chunks).
Proof.
  induction chunks as [|buf rest IH]; intros pre s Hs Hm Hb Hq Hr; cbn [structured_loop].
  { exists pre, s. split; [done|]. split; [done|]. by exists []. }
  destruct (counted_chunk pre buf s Hs Hm) as (s1 & -> & Hs1).
  { intros d. specialize (Hb d). rewrite cons_middle, app_assoc, total_app in Hb. pose proof (total_nonneg d rest). lia. }
  assert (forall q b, (q ++ [b]) `prefix_of` (pre ++ [buf]) -> existsb (reached_at q) all_detectors = false) as Hq1.
  { intros q b [r E]. destruct r as [|x r _] using rev_ind.
    - rewrite app_nil_r in E. by apply app_inj_tail in E as [<- _].
    - rewrite app_assoc in E. apply app_inj_tail in E as [E _]. apply (Hq q b). by exists r. }
  destruct (existsb (reached_at (pre ++ [buf])) all_detectors) eqn:Ef.
  - exists (pre ++ [buf]), s1. split; [done|]. split; [done|]. exists rest. by rewrite <- app_assoc.
  - destruct (IH (pre ++ [buf]) s1 Hs1 Hm) as (pre' & s' & -> & Hs' & Hread); [intros d; rewrite <- app_assoc; exact (Hb d)|exact Hq1|exact Ef|].
    exists pre', s'. split; [done|]. split; [done|]. by rewrite <- app_assoc in Hread.
Qed.

Lemma existsb_forall_false (f : detector -> bool) : (forall d, f d = false) -> existsb f all_detectors = false.
Proof. intros H. cbn. by rewrite !H. Qed.

Lemma over_reached m c : 0 <= m -> 0 <= c ->
  (negb (m =? 0) && negb (c =? 0) && (m <=? c)) = (negb (m =? 0) && (m <=? c)).
Proof. intros. destruct (Z.eqb_spec m 0), (Z.eqb_spec c 0); cbn; lia. Qed.

(** The name reported for a detector. *)
Definition report_name (s : scan_state re) (d : detector) : virname :=
  match d with
  | D_CC => CreditCardNumber | D_SSN => SSN | D_RX => Regex (found_regex_id _ (rgx_st _ s))
  | D_TR => TRid | D_IB => IBAN (found_country _ (iban_gst _ s))
  end.

(** The verdict names the first detector, in the order of the tests, that has
    reached its minimum. *)
Lemma structured_report_find (s : scan_state re) :
  (forall d, 0 <= minimum e d) -> (forall d, 0 <= counter s d) ->
  structured_report re e s =
  match List.find (fun d => reached d (counter s d)) all_detectors with
  | Some d => (CL_VIRUS, Some (report_name s d))
  | None => (CL_CLEAN, None)
  end.
Proof.
  intros Hm Hc. unfold structured_report, all_detectors. cbn [List.find].
  rewrite <- !(over_reached (minimum e _)) by auto.
  cbn [minimum counter]. by repeat case_match.
Qed.

End Facts.

(** C3. [cli_scan_structured] never reads outside a chunk, reads chunks until some
    detector that is enabled has found its configured minimum in those read so far,
    and then reports [CL_VIRUS] with the name of the first detector that has, in the
    order credit cards, social security numbers, expressions, Turkish numbers, IBANs;
    for the expressions and IBANs the name says which one matched.  When all chunks
    were read and no detector has reached its minimum the report is [CL_CLEAN] (as
    long as no counter overflows 32 bits). *)
Theorem cli_scan_structured_correct {re} (pcre_exec : option re -> list Z -> Z -> Z)
    (e : engine) rs ib chunks :
  (forall d, 0 <= minimum e d) ->
  (forall d, total pcre_exec e rs ib d chunks < 2 ^ 32) ->
  exists pre, read_chunks pcre_exec e rs ib pre chunks /\
    cli_scan_structured re pcre_exec e rs ib chunks =
    Some match List.find (reached_at pcre_exec e rs ib pre) [D_CC; D_SSN; D_RX; D_TR; D_IB] with
         | Some d => (CL_VIRUS, Some (name_of pcre_exec e rs ib d pre))
         | None => (CL_CLEAN, None)
         end.
Proof.
  intros Hm Ht. unfold cli_scan_structured.
  destruct (structured_loop_spec pcre_exec e rs ib chunks [] (scan_init re rs ib)) as (pre & s & -> & Hs & Hread).
  - split; try done. by intros [].
  - apply (Hm D_SSN).
  - exact Ht.
  - intros q b [r E]. by destruct q.
  - apply existsb_forall_false. intros d. unfold reached_at. cbn [total]. specialize (Hm d). lia.
  - exists pre. split; [exact Hread|]. f_equal. rewrite structured_report_find; [|done|].
    + assert (forall d, (negb (minimum e d =? 0) && (minimum e d <=? counter s d)) = reached_at pcre_exec e rs ib pre d) as Hr
        by (intros d; unfold reached_at; by rewrite (bh_counter _ _ _ _ _ _ Hs)).
      cbn [List.find all_detectors]. rewrite !Hr.
      repeat (case_match; [by unfold report_name, name_of; rewrite ?(bh_regex _ _ _ _ _ _ Hs), ?(bh_iban _ _ _ _ _ _ Hs)|]). done.
    + intros d. rewrite (bh_counter _ _ _ _ _ _ Hs). apply total_nonneg.
Qed.

(** A file with one card number in its second chunk. *)
Definition demo_engine : engine :=
  {| min_cc_count := 1; min_ssn_count := 3; min_regex_count := 0; min_trid_count := 0;
     min_iban_count := 0; options := 0 |}.
Definition demo_file : list (list Z) := [DlpSpec.chars [1; 2; 3]; CcProps.visa].
Definition no_regex : regex_state unit := {| regexes := None; regex_count := 0; found_regex_id := 0 |}.
Definition no_iban : iban_state unit := {| ibans := []; found_country := [] |}.

Lemma cli_scan_structured_correct_witness :
  exists pre, read_chunks (fun _ _ _ => -1) demo_engine no_regex no_iban pre demo_file /\
    cli_scan_structured unit (fun _ _ _ => -1) demo_engine no_regex no_iban demo_file =
    Some match List.find (reached_at (fun _ _ _ => -1) demo_engine no_regex no_iban pre) [D_CC; D_SSN; D_RX; D_TR; D_IB] with
         | Some d => (CL_VIRUS, Some (name_of (fun _ _ _ => -1) demo_engine no_regex no_iban d pre))
         | None => (CL_CLEAN, None)
         end.
Proof.
  apply (cli_scan_structured_correct (fun _ _ _ => -1) demo_engine no_regex no_iban demo_file).
  - intros []; cbn; lia.
  - intros []; vm_compute; reflexivity.
Defined.

(** Two expressions: number 7 matches texts that begin with 1, number 9 those that begin
    with 2.  With a minimum of 2 the second chunk decides, and the report names the
    expression that matched last. *)
Definition demo_regex : regex_state Z := {| regexes := Some [{| rid := 7; dlp_re := Some 49 |}; {| rid := 9; dlp_re := Some 50 |}]; regex_count := 2; found_regex_id := 0 |}.
Definition demo_exec (r : option Z) (b : list Z) (len : Z) : Z := if bool_decide (head b = r) then 0 else -1.
Example names_last_match :
  cli_scan_structured Z demo_exec {| min_cc_count := 0; min_ssn_count := 0; min_regex_count := 2; min_trid_count := 0; min_iban_count := 1; options := 0 |}
    demo_regex {| ibans := [{| country := [84; 82]; iban_re := Some 50 |}]; found_country := [] |}
    [DlpSpec.chars [1]; DlpSpec.chars [2]; DlpSpec.chars [1]] = Some (CL_VIRUS, Some (Regex 9)).
Proof. reflexivity. Qed.

End StructuredFacts.
