(* ===== verification/Hashset.v ===== *)
(** Sets of 32-bit keys: [struct cli_hashset] of libclamav/hashtab.c, an
    open-addressing table with a bitmap of used slots and triangular probing. *)
From stdpp Require Import base numbers list list_numbers gmap.
From Stdlib Require Import ZArith Lia Bool.
From S2P Require Import Prelude Probing.
Import Errors Alloc.
Local Open Scope Z_scope.

Module HashFn.

(** [nearest_power]: [unsigned long] has 64 bits. *)
Fixpoint nearest_power_loop (fuel : nat) (n num : Z) : Z :=
  match fuel with
  | O => n
  | S f =>
      if n <? num then
        let n := uint 64 (Z.shiftl n 1) in
        if n =? 0 then num else nearest_power_loop f n num
      else n
  end.

(** 58 doublings take 64 beyond the largest 64-bit value. *)
Definition nearest_power (num : Z) : Z := nearest_power_loop 64 64 num.

Definition hash32shift (key : Z) : Z :=
  let key := uint 32 (uint 32 (Z.lnot key) + uint 32 (Z.shiftl key 15)) in
  let key := Z.lxor key (Z.shiftr key 12) in
  let key := uint 32 (key + uint 32 (Z.shiftl key 2)) in
  let key := Z.lxor key (Z.shiftr key 4) in
  let key := uint 32 (uint 32 (key + uint 32 (Z.shiftl key 3)) + uint 32 (Z.shiftl key 11)) in
  let key := Z.lxor key (Z.shiftr key 16) in
  key.

End HashFn.
Import HashFn.

Module HashSet.

Record hashset := {
  keys : list Z; bitmap : list Z; capacity : Z; mask : Z; count : Z; limit : Z }.

Definition BITMAP_CONTAINS (bmap : list Z) (val : Z) : option bool :=
  let* w := bget bmap (Z.shiftr val 5) in
  Some (negb (Z.land w (Z.shiftl 1 (Z.land val 0x1f)) =? 0)).

Definition BITMAP_INSERT (bmap : list Z) (val : Z) : option (list Z) :=
  let* w := bget bmap (Z.shiftr val 5) in
  bset bmap (Z.shiftr val 5) (Z.lor w (Z.shiftl 1 (Z.land val 0x1f))).

Definition BITMAP_REMOVE (bmap : list Z) (val : Z) : option (list Z) :=
  let* w := bget bmap (Z.shiftr val 5) in
  bset bmap (Z.shiftr val 5) (Z.land w (uint 32 (Z.lnot (Z.shiftl 1 (Z.land val 0x1f))))).

(** [cli_hashset_init]: the two booleans say whether the C library has memory
    for the keys and for the bitmap; [junk] is what the fresh key array happens to
    hold.  A NULL array is the empty list: every access to it is undefined. *)
Definition cli_hashset_init (alloc_keys alloc_bitmap : bool) (junk : list Z)
    (initial_capacity load_factor : Z) : Z * hashset :=
  let load_factor := if (load_factor <? 50) || (99 <? load_factor) then 80 else load_factor in
  let initial_capacity := nearest_power initial_capacity in
  let n := Z.to_nat initial_capacity in
  let hs ks bm := {| keys := ks; bitmap := bm;
    capacity := uint 32 initial_capacity; mask := uint 32 (initial_capacity - 1);
    count := 0; limit := uint 32 (uint 64 (initial_capacity * load_factor) / 100) |} in
  if negb (cli_malloc alloc_keys (uint 64 (initial_capacity * 4))) then (CL_EMEM, hs [] [])
  else if negb (cli_calloc alloc_bitmap (Z.shiftr initial_capacity 5) 4) then (CL_EMEM, hs [] [])
  else (0, hs (resize n 0 junk) (replicate (Z.to_nat (Z.shiftr initial_capacity 5)) 0)).

Fixpoint search_loop (fuel : nat) (hs : hashset) (key idx tries : Z) : res Z :=
  match fuel with
  | O => NoFuel
  | S f =>
      let! used := of_opt (BITMAP_CONTAINS (bitmap hs) idx) in
      if (used : bool) then
        let! k := of_opt (bget (keys hs) idx) in
        if k =? key then Ok idx
        else search_loop f hs key (Z.land (idx + tries) (mask hs)) (tries + 1)
      else Ok idx
  end.

(** [cli_hashset_search]; [capacity] rounds visit every slot (see [probe_surj]),
    a search that needs more never ends. *)
Definition cli_hashset_search (hs : hashset) (key : Z) : res Z :=
  search_loop (Z.to_nat (capacity hs)) hs key (Z.land (hash32shift key) (mask hs)) 1.

Definition cli_hashset_addkey_internal (hs : hashset) (key : Z) : res hashset :=
  let! idx := cli_hashset_search hs key in
  let! used := of_opt (BITMAP_CONTAINS (bitmap hs) idx) in
  if (used : bool) then Ok hs else
  let! bm := of_opt (BITMAP_INSERT (bitmap hs) idx) in
  let! ks := of_opt (bset (keys hs) idx key) in
  Ok {| keys := ks; bitmap := bm; capacity := capacity hs; mask := mask hs;
        count := uint 32 (count hs + 1); limit := limit hs |}.

(** The copying loop of [cli_hashset_grow]: slots [i], [i+1], ..., [n] of them. *)
Fixpoint grow_loop (n : nat) (i : Z) (hs new_hs : hashset) : res hashset :=
  match n with
  | O => Ok new_hs
  | S n' =>
      let! used := of_opt (BITMAP_CONTAINS (bitmap hs) i) in
      if (used : bool) then
        let! k := of_opt (bget (keys hs) i) in
        let! new_hs := cli_hashset_addkey_internal new_hs k in
        grow_loop n' (i + 1) hs new_hs
      else grow_loop n' (i + 1) hs new_hs
  end.

(** [cli_hashset_grow]: the return code and the replaced set.  The error test
    is [rc < 0]. *)
Definition cli_hashset_grow (alloc_keys alloc_bitmap : bool) (junk : list Z) (hs : hashset)
    : res (Z * hashset) :=
  if capacity hs =? 0 then Undef else
  let '(rc, new_hs) := cli_hashset_init alloc_keys alloc_bitmap junk
      (uint 32 (Z.shiftl (capacity hs) 1))
      (uint 8 (uint 32 (limit hs * 100) / capacity hs)) in
  if rc <? 0 then Ok (rc, hs) else
  let! new_hs := grow_loop (Z.to_nat (capacity hs)) 0 hs new_hs in
  Ok (0, new_hs).

Definition cli_hashset_addkey (alloc_keys alloc_bitmap : bool) (junk : list Z) (hs : hashset)
    (key : Z) : res (Z * hashset) :=
  if limit hs <? uint 32 (count hs + 1) then
    let! (rc, hs) := cli_hashset_grow alloc_keys alloc_bitmap junk hs in
    if negb (rc =? 0) then Ok (rc, hs) else
    let! hs := cli_hashset_addkey_internal hs key in Ok (0, hs)
  else let! hs := cli_hashset_addkey_internal hs key in Ok (0, hs).

Definition cli_hashset_removekey (hs : hashset) (key : Z) : res (Z * hashset) :=
  let! idx := cli_hashset_search hs key in
  let! used := of_opt (BITMAP_CONTAINS (bitmap hs) idx) in
  if (used : bool) then
    let! bm := of_opt (BITMAP_REMOVE (bitmap hs) idx) in
    let! ks := of_opt (bset (keys hs) idx 0) in
    Ok (0, {| keys := ks; bitmap := bm; capacity := capacity hs; mask := mask hs;
              count := uint 32 (count hs - 1); limit := limit hs |})
  else Ok (-1, hs).

Definition cli_hashset_contains (hs : hashset) (key : Z) : res bool :=
  let! idx := cli_hashset_search hs key in
  of_opt (BITMAP_CONTAINS (bitmap hs) idx).

(** [cli_hashset_toarray]: the loop [for(i=0,j=0; i < capacity && j < count; i++)]. *)
Fixpoint toarray_loop (n : nat) (i : Z) (hs : hashset) (arr : list Z) : res (list Z) :=
  match n with
  | O => Ok arr
  | S n' =>
      if Z.of_nat (length arr) <? count hs then
        let! used := of_opt (BITMAP_CONTAINS (bitmap hs) i) in
        if (used : bool) then
          let! k := of_opt (bget (keys hs) i) in toarray_loop n' (i + 1) hs (arr ++ [k])
        else toarray_loop n' (i + 1) hs arr
      else Ok arr
  end.

(** The returned count, or error code, and the array. *)
Definition cli_hashset_toarray (alloc : bool) (hs : hashset) : res (Z * option (list Z)) :=
  if negb (cli_malloc alloc (uint 64 (count hs * 4))) then Ok (CL_EMEM, None) else
  let! arr := toarray_loop (Z.to_nat (capacity hs)) 0 hs [] in
  Ok (Z.of_nat (length arr), Some arr).

(** [cli_hashset_init_noalloc] and the lookup that tolerates it. *)
Definition cli_hashset_init_noalloc : hashset :=
  {| keys := []; bitmap := []; capacity := 0; mask := 0; count := 0; limit := 0 |}.

Definition cli_hashset_contains_maybe_noalloc (hs : hashset) (key : Z) : res bool :=
  match keys hs with
  | [] => Ok false
  | _ => cli_hashset_contains hs key
  end.

Definition cli_hashset_destroy (hs : hashset) : hashset :=
  {| keys := []; bitmap := []; capacity := 0; mask := mask hs; count := count hs; limit := limit hs |}.

End HashSet.

(** * Proofs *)
Module HashSetFacts.
Import HashSet.

(** ** The bitmap *)

Definition usedb (bm : list Z) (i : Z) : bool :=
  match BITMAP_CONTAINS bm i with Some b => b | None => false end.

Lemma word_index i : 0 <= i -> Z.shiftr i 5 = i / 32 /\ Z.land i 0x1f = i `mod` 32.
Proof.
  intros. split; [by rewrite Z.shiftr_div_pow2 by lia|].
  change 0x1f with (2 ^ 5 - 1). by rewrite land_mask by lia.
Qed.

Lemma BITMAP_CONTAINS_eq bm i :
  0 <= i < 32 * Z.of_nat (length bm) -> BITMAP_CONTAINS bm i = Some (usedb bm i).
Proof.
  intros Hi. unfold usedb, BITMAP_CONTAINS. destruct (word_index i) as [-> ->]; [lia|].
  destruct (bget_is_Some bm (i / 32)) as [w ->]; [|done].
  split; [apply Z.div_pos; lia|apply Z.div_lt_upper_bound; lia].
Qed.

Lemma usedb_testbit bm i w : 0 <= i -> bget bm (i / 32) = Some w ->
  usedb bm i = Z.testbit w (i `mod` 32).
Proof.
  intros Hi Hw. unfold usedb, BITMAP_CONTAINS. destruct (word_index i) as [-> ->]; [done|].
  pose proof (Z.mod_pos_bound i 32 ltac:(lia)).
  rewrite Hw, land_shiftl1_testbit by lia. apply negb_involutive.
Qed.

Lemma div_mod_32_eq i j : i / 32 = j / 32 -> i `mod` 32 = j `mod` 32 -> i = j.
Proof. intros. rewrite (Z.div_mod i 32), (Z.div_mod j 32) by lia. congruence. Qed.

(** A bitmap update writes one word and so changes one bit. *)
Lemma usedb_update bm bm' i f :
  0 <= i < 32 * Z.of_nat (length bm) ->
  (let* w := bget bm (Z.shiftr i 5) in bset bm (Z.shiftr i 5) (f w)) = Some bm' ->
  (forall w j, 0 <= j -> j <> i `mod` 32 -> j < 32 -> Z.testbit (f w) j = Z.testbit w j) ->
  length bm' = length bm /\
  (forall w, bget bm (i / 32) = Some w -> usedb bm' i = Z.testbit (f w) (i `mod` 32)) /\
  forall j, 0 <= j < 32 * Z.of_nat (length bm) -> j <> i -> usedb bm' j = usedb bm j.
Proof.
  intros Hi. destruct (word_index i) as [-> _]; [lia|].
  assert (forall x, 0 <= x < 32 * Z.of_nat (length bm) -> 0 <= x / 32 < Z.of_nat (length bm)) as Hd.
  { intros x Hx. split; [apply Z.div_pos; lia|apply Z.div_lt_upper_bound; lia]. }
  destruct (bget bm (i / 32)) as [w|] eqn:Ew; [|done]. intros [Hr ->]%bset_Some Hf.
  split; [apply length_insert|]. split.
  - intros ? [= <-]. apply usedb_testbit; [lia|]. apply bget_insert_eq. auto.
  - intros j Hj Hne. pose proof (Hd j Hj). destruct (decide (j / 32 = i / 32)) as [E|E].
    + rewrite (usedb_testbit _ j (f w)); [|lia|rewrite E; apply bget_insert_eq; auto].
      rewrite (usedb_testbit bm j w) by (lia || congruence).
      pose proof (Z.mod_pos_bound j 32 ltac:(lia)).
      apply Hf; [lia| |lia]. intros E'. apply Hne, div_mod_32_eq; congruence.
    + destruct (bget_is_Some bm (j / 32)) as [w' Hw']; [auto|].
      rewrite (usedb_testbit _ j w'); [|lia|rewrite bget_insert_ne by lia; done].
      by rewrite (usedb_testbit bm j w') by (lia || done).
Qed.

Lemma BITMAP_INSERT_spec bm i :
  0 <= i < 32 * Z.of_nat (length bm) ->
  exists bm', BITMAP_INSERT bm i = Some bm' /\ length bm' = length bm /\
    forall j, 0 <= j < 32 * Z.of_nat (length bm) -> usedb bm' j = (j =? i) || usedb bm j.
Proof.
  intros Hi. pose proof (Z.mod_pos_bound i 32 ltac:(lia)).
  assert (0 <= i / 32 < Z.of_nat (length bm)) as Hd
    by (split; [apply Z.div_pos; lia|apply Z.div_lt_upper_bound; lia]).
  destruct (bget_is_Some bm (i / 32) Hd) as [w Hw].
  destruct (BITMAP_INSERT bm i) as [bm'|] eqn:E; revert E; unfold BITMAP_INSERT;
    destruct (word_index i) as [Hs Hl]; try lia; rewrite Hl.
  2: { rewrite Hs, Hw, bset_is_Some by done. done. }
  intros E. exists bm'. split; [done|].
  apply (usedb_update bm bm' i (fun w => Z.lor w (Z.shiftl 1 (i `mod` 32)))) in E as (Hlen & He & Hne);
    [|done|].
  - split; [done|]. intros j Hj. destruct (Z.eqb_spec j i) as [->|]; cbn [orb]; [|by apply Hne].
    rewrite (He w Hw), Z.lor_spec, Z.shiftl_spec, Z.sub_diag by lia. apply orb_true_r.
  - intros w' j Hj Hjne _. rewrite Z.lor_spec, Z.shiftl_spec by lia.
    destruct (decide (j < i `mod` 32)); [rewrite (Z.testbit_neg_r 1) by lia; apply orb_false_r|].
    change 1 with (2 ^ 0). rewrite Z.pow2_bits_false by lia. apply orb_false_r.
Qed.

(** ** Counting used slots *)

Definition used_count (bm : list Z) (n : nat) : nat :=
  length (List.filter (fun i => usedb bm (Z.of_nat i)) (List.seq 0 n)).

Lemma used_count_S bm n :
  used_count bm (S n) = (used_count bm n + if usedb bm (Z.of_nat n) then 1 else 0)%nat.
Proof.
  unfold used_count. rewrite List.seq_S, List.filter_app, length_app. cbn.
  by destruct (usedb bm (Z.of_nat n)).
Qed.

Lemma used_count_le bm n : (used_count bm n <= n)%nat.
Proof. induction n; [done|]. rewrite used_count_S. destruct (usedb _ _); lia. Qed.

Lemma used_count_ext bm bm' n :
  (forall j, 0 <= j < Z.of_nat n -> usedb bm' j = usedb bm j) -> used_count bm' n = used_count bm n.
Proof.
  induction n as [|n IH]; intros H; [done|]. rewrite !used_count_S, IH, H; [done|lia|].
  intros; apply H; lia.
Qed.

Lemma used_count_insert bm bm' n i :
  0 <= i < Z.of_nat n -> usedb bm i = false ->
  (forall j, 0 <= j < Z.of_nat n -> usedb bm' j = (j =? i) || usedb bm j) ->
  used_count bm' n = S (used_count bm n).
Proof.
  induction n as [|n IH]; intros Hi Hu H; [lia|]. rewrite !used_count_S.
  destruct (decide (i = Z.of_nat n)) as [->|Hne].
  - rewrite H, Z.eqb_refl, Hu by lia. cbn [orb].
    rewrite (used_count_ext bm bm' n); [lia|]. intros j Hj. rewrite H by lia.
    by replace (j =? Z.of_nat n) with false by lia.
  - rewrite IH; [|lia|done|intros; apply H; lia]. rewrite H by lia.
    by replace (Z.of_nat n =? i) with false by lia.
Qed.

Lemma used_count_free bm n : (used_count bm n < n)%nat ->
  exists i, 0 <= i < Z.of_nat n /\ usedb bm i = false.
Proof.
  induction n as [|n IH]; intros H; [lia|]. rewrite used_count_S in H.
  destruct (usedb bm (Z.of_nat n)) eqn:E.
  - destruct IH as (i & ? & ?); [lia|]. exists i. split; [lia|done].
  - exists (Z.of_nat n). split; [lia|done].
Qed.

(** ** The table invariant *)

Definition holds (hs : hashset) (i key : Z) : Prop :=
  0 <= i < capacity hs /\ usedb (bitmap hs) i = true /\ bget (keys hs) i = Some key.

Definition member (hs : hashset) (key : Z) : Prop := exists i, holds hs i key.

(** The slot of the [t]-th round of a search for [key]. *)
Definition slot (hs : hashset) (key t : Z) : Z :=
  probe (capacity hs) (Z.land (hash32shift key) (mask hs)) t.
#[global] Strategy expand [slot].
#[global] Strategy opaque [hash32shift probe].

(** Where a search for [key] stops. *)
Definition stopb (hs : hashset) (key i : Z) : bool :=
  negb (usedb (bitmap hs) i) || bool_decide (bget (keys hs) i = Some key).

Record shape (hs : hashset) (k : Z) : Prop := {
  shape_k : 6 <= k <= 25;
  shape_cap : capacity hs = 2 ^ k;
  shape_mask : mask hs = 2 ^ k - 1;
  shape_keys : Z.of_nat (length (keys hs)) = 2 ^ k;
  shape_bitmap : 32 * Z.of_nat (length (bitmap hs)) = 2 ^ k }.

(** Every stored key is reached by its own search: no earlier round stops. *)
Definition reachable (hs : hashset) : Prop := forall i key, holds hs i key ->
  exists t, 0 <= t < capacity hs /\ slot hs key t = i /\
    forall j, 0 <= j < t -> stopb hs key (slot hs key j) = false.

Record wf (hs : hashset) (k : Z) : Prop := {
  wf_shape : shape hs k;
  wf_count : count hs = Z.of_nat (used_count (bitmap hs) (Z.to_nat (capacity hs)));
  wf_reach : reachable hs }.

Section Search.
Context (hs : hashset) (k : Z) (Hs : shape hs k).

Lemma cap_pos : 0 < capacity hs.
Proof. rewrite (shape_cap _ _ Hs). pose proof (shape_k _ _ Hs). apply pow2_gt0. lia. Qed.

Lemma set_slot_range key t : 0 <= slot hs key t < capacity hs.
Proof. apply probe_range, cap_pos. Qed.

Lemma set_slot_0 key : slot hs key 0 = Z.land (hash32shift key) (mask hs).
Proof.
  unfold slot. apply probe_0. pose proof (shape_k _ _ Hs).
  rewrite (shape_mask _ _ Hs), (shape_cap _ _ Hs), land_mask by lia.
  apply Z.mod_pos_bound, pow2_gt0. lia.
Qed.

Lemma used_eq i : 0 <= i < capacity hs -> BITMAP_CONTAINS (bitmap hs) i = Some (usedb (bitmap hs) i).
Proof. intros. apply BITMAP_CONTAINS_eq. destruct Hs. lia. Qed.

Lemma key_eq i : 0 <= i < capacity hs -> exists x, bget (keys hs) i = Some x.
Proof. intros. apply bget_is_Some. destruct Hs. lia. Qed.

(** One round of the search. *)
Lemma search_round f key i tries : 0 <= i < capacity hs ->
  search_loop (S f) hs key i tries =
  if stopb hs key i then Ok i
  else search_loop f hs key (Z.land (i + tries) (mask hs)) (tries + 1).
Proof.
  intros Hi. cbn [search_loop]. rewrite used_eq by done. cbn [of_opt].
  destruct (key_eq i Hi) as [x Hx]. unfold stopb. rewrite Hx. cbn [of_opt].
  destruct (usedb _ _); [|done]. cbn [negb orb].
  destruct (Z.eqb_spec x key) as [->|]; [by rewrite bool_decide_true|].
  rewrite bool_decide_false by congruence. done.
Qed.

(** From any first slot the search runs to the first slot where it stops. *)
Lemma search_loop_probe key h t fuel : 0 <= t < capacity hs ->
  stopb hs key (probe (capacity hs) h t) = true ->
  (forall j, 0 <= j < t -> stopb hs key (probe (capacity hs) h j) = false) ->
  t < Z.of_nat fuel ->
  search_loop fuel hs key (probe (capacity hs) h 0) 1 = Ok (probe (capacity hs) h t).
Proof.
  intros Ht Hst Hbl Hf. pose proof cap_pos as Hpos.
  refine (probe_loop_run (fun f => search_loop f hs key) (@Ok Z) (stopb hs key) (capacity hs) h t
            _ _ Ht Hst Hbl fuel Hf).
  - intros f j Hj E. rewrite search_round, E by (by apply probe_range). reflexivity.
  - intros f j Hj _ E. rewrite search_round, E, probe_step by (done || by apply probe_range).
    pose proof (shape_k _ _ Hs). rewrite (shape_mask _ _ Hs), land_mask, (shape_cap _ _ Hs) by lia.
    reflexivity.
Qed.

Definition first_stop (key t : Z) : Prop :=
  0 <= t < capacity hs /\ stopb hs key (slot hs key t) = true /\
  forall j, 0 <= j < t -> stopb hs key (slot hs key j) = false.

Lemma search_first_stop key t : first_stop key t ->
  cli_hashset_search hs key = Ok (slot hs key t).
Proof.
  intros (Ht & Hst & Hbl). unfold cli_hashset_search. rewrite <- set_slot_0.
  assert (t < Z.of_nat (Z.to_nat (capacity hs))) as Hf by lia.
  exact (search_loop_probe key (Z.land (hash32shift key) (mask hs)) t _ Ht Hst Hbl Hf).
Qed.

(** Triangular probing visits every slot, so any stopping slot is met. *)
Lemma first_stop_exists key i : 0 <= i < capacity hs -> stopb hs key i = true ->
  exists t, first_stop key t.
Proof.
  intros Hi Hst. pose proof (shape_k _ _ Hs). unfold first_stop, slot.
  rewrite (shape_cap _ _ Hs) in *. apply (probe_first k _ (stopb hs key) i); lia || done.
Qed.
End Search.

Lemma slot_ext hs hs' key t :
  capacity hs' = capacity hs -> mask hs' = mask hs -> slot hs' key t = slot hs key t.
Proof. intros Hc Hm. unfold slot. by rewrite Hc, Hm. Qed.

(** From here on slots are known by these lemmas only. *)
#[global] Opaque slot.

(** ** Lookup and insertion *)

Lemma stopb_true hs key i : stopb hs key i = true <->
  usedb (bitmap hs) i = false \/ bget (keys hs) i = Some key.
Proof.
  unfold stopb. destruct (usedb _ _); cbn [negb orb]; [|naive_solver].
  rewrite bool_decide_eq_true. naive_solver.
Qed.

Lemma stopb_false hs key i : stopb hs key i = false <->
  usedb (bitmap hs) i = true /\ bget (keys hs) i <> Some key.
Proof.
  unfold stopb. destruct (usedb _ _); cbn [negb orb]; [|naive_solver].
  rewrite bool_decide_eq_false. naive_solver.
Qed.

Section Table.
Context (hs : hashset) (k : Z) (Hw : wf hs k).
Let Hs : shape hs k := wf_shape _ _ Hw.
#[local] Hint Resolve Hs : core.

Lemma set_holds_stop i key : holds hs i key -> stopb hs key i = true.
Proof. intros (_ & _ & H). apply stopb_true. by right. Qed.

(** Where the first stop is decides membership. *)
Lemma first_stop_member key t : first_stop hs key t ->
  usedb (bitmap hs) (slot hs key t) = true <-> member hs key.
Proof.
  intros (Ht & Hst & Hbl). split.
  - intros Hu. exists (slot hs key t). split; [by apply (set_slot_range hs k)|]. split; [done|].
    apply stopb_true in Hst as [|]; [congruence|done].
  - intros (i & Hh). destruct (wf_reach _ _ Hw i key Hh) as (t' & Ht' & Hi & Hbl').
    destruct (Ztrichotomy t t') as [Hlt|[->|Hgt]].
    + rewrite Hbl' in Hst by lia. done.
    + rewrite Hi. apply Hh.
    + specialize (Hbl t' ltac:(lia)). rewrite Hi, (set_holds_stop i) in Hbl by done. done.
Qed.

(** A key sits in one slot only. *)
Lemma set_holds_inj i j key : holds hs i key -> holds hs j key -> i = j.
Proof.
  intros Hi Hj. destruct (wf_reach _ _ Hw i key Hi) as (t & Ht & <- & Hbl).
  destruct (wf_reach _ _ Hw j key Hj) as (t' & Ht' & <- & Hbl').
  destruct (Ztrichotomy t t') as [Hlt|[->|Hgt]]; [|done|].
  - specialize (Hbl' t ltac:(lia)). rewrite (set_holds_stop _ key Hi) in Hbl'. discriminate.
  - specialize (Hbl t' ltac:(lia)). rewrite (set_holds_stop _ key Hj) in Hbl. discriminate.
Qed.

Lemma first_stop_total key : count hs < capacity hs \/ member hs key ->
  exists t, first_stop hs key t.
Proof.
  pose proof (cap_pos hs k ltac:(auto)). intros [Hc|(i & Hh)].
  - rewrite (wf_count _ _ Hw) in Hc.
    destruct (used_count_free (bitmap hs) (Z.to_nat (capacity hs))) as (i & Hi & Hu); [lia|].
    apply (first_stop_exists hs k ltac:(auto) key i); [lia|]. apply stopb_true. by left.
  - apply (first_stop_exists hs k ltac:(auto) key i); [apply Hh|by apply set_holds_stop].
Qed.

Lemma contains_spec key : count hs < capacity hs \/ member hs key ->
  exists b, cli_hashset_contains hs key = Ok b /\ (b = true <-> member hs key).
Proof.
  intros [t Hf]%first_stop_total. unfold cli_hashset_contains.
  rewrite (search_first_stop hs k ltac:(auto) key t Hf).
  rewrite (used_eq hs k) by (auto; by apply (set_slot_range hs k)).
  eexists. split; [done|]. by apply first_stop_member.
Qed.

End Table.

(** The state after storing [key] in the free slot [i]. *)
Record inserted (hs hs' : hashset) (i key : Z) : Prop := {
  ins_keys : keys hs' = <[Z.to_nat i := key]> (keys hs);
  ins_used : forall j, 0 <= j < capacity hs -> usedb (bitmap hs') j = (j =? i) || usedb (bitmap hs) j;
  ins_len : length (bitmap hs') = length (bitmap hs);
  ins_cap : capacity hs' = capacity hs; ins_mask : mask hs' = mask hs;
  ins_count : count hs' = uint 32 (count hs + 1); ins_limit : limit hs' = limit hs }.

Section Insert.
Context (hs hs' : hashset) (k i key : Z) (Hw : wf hs k) (Hi : 0 <= i < capacity hs).
Context (Hfree : usedb (bitmap hs) i = false) (Hin : inserted hs hs' i key).

Lemma inserted_shape : shape hs' k.
Proof.
  destruct (wf_shape _ _ Hw), Hin. split; [done|congruence|congruence| |lia].
  by rewrite ins_keys0, length_insert.
Qed.

Lemma inserted_slot x t : slot hs' x t = slot hs x t.
Proof. by apply slot_ext; destruct Hin. Qed.

Lemma inserted_key j : 0 <= j < capacity hs ->
  bget (keys hs') j = if j =? i then Some key else bget (keys hs) j.
Proof.
  intros Hj. rewrite (ins_keys _ _ _ _ Hin). pose proof (wf_shape _ _ Hw) as Hs.
  pose proof (shape_keys _ _ Hs). pose proof (shape_cap _ _ Hs).
  destruct (Z.eqb_spec j i) as [->|]; [apply bget_insert_eq; lia|apply bget_insert_ne; lia].
Qed.

Lemma inserted_holds j x : holds hs' j x <-> (j = i /\ x = key) \/ holds hs j x.
Proof.
  unfold holds. rewrite (ins_cap _ _ _ _ Hin). split.
  - intros (Hj & Hu & Hk). rewrite inserted_key in Hk by done.
    rewrite (ins_used _ _ _ _ Hin) in Hu by done.
    destruct (Z.eqb_spec j i) as [->|]; [left; by simplify_eq|right; done].
  - intros [[-> ->]|(Hj & Hu & Hk)].
    + split; [done|]. rewrite inserted_key, (ins_used _ _ _ _ Hin), Z.eqb_refl by done. done.
    + split; [done|]. rewrite inserted_key, (ins_used _ _ _ _ Hin), Hu, orb_true_r by done.
      split; [done|]. destruct (Z.eqb_spec j i) as [->|]; [congruence|done].
Qed.

Lemma inserted_member x : member hs' x <-> x = key \/ member hs x.
Proof.
  unfold member. setoid_rewrite inserted_holds. split.
  - intros (j & [[_ ->]|]); eauto.
  - intros [->|(j & ?)]; eauto.
Qed.

Lemma inserted_stopb x j : 0 <= j < capacity hs -> stopb hs x j = false -> stopb hs' x j = false.
Proof.
  intros Hj [Hu Hk]%stopb_false. apply stopb_false.
  rewrite (ins_used _ _ _ _ Hin), Hu, orb_true_r, inserted_key by done. split; [done|].
  destruct (Z.eqb_spec j i) as [->|]; [congruence|done].
Qed.

Lemma inserted_count : count hs < capacity hs ->
  count hs' = count hs + 1 /\
  count hs' = Z.of_nat (used_count (bitmap hs') (Z.to_nat (capacity hs'))).
Proof.
  intros Hc. rewrite (ins_count _ _ _ _ Hin), (ins_cap _ _ _ _ Hin).
  pose proof (wf_shape _ _ Hw) as Hs. pose proof (shape_k _ _ Hs). pose proof (shape_cap _ _ Hs) as Ec.
  assert (2 ^ k <= 2 ^ 31) by (apply Z.pow_le_mono_r; lia).
  pose proof (wf_count _ _ Hw) as Hcount.
  rewrite uint_small by (change (2 ^ 32) with (2 * 2 ^ 31); lia). split; [done|].
  rewrite (used_count_insert (bitmap hs) (bitmap hs') _ i); [lia|lia|done|].
  intros j Hj. apply (ins_used _ _ _ _ Hin). lia.
Qed.

Lemma inserted_wf t : first_stop hs key t -> i = slot hs key t -> count hs < capacity hs -> wf hs' k.
Proof.
  intros (Ht & Hst & Hbl) Et Hc. split; [apply inserted_shape|by apply inserted_count|].
  pose proof (wf_shape _ _ Hw) as Hs.
  intros j x [[-> ->]|Hh]%inserted_holds.
  - exists t. rewrite (ins_cap _ _ _ _ Hin). split; [done|]. rewrite inserted_slot. split; [done|].
    intros j Hj. rewrite inserted_slot. apply inserted_stopb; [by apply (set_slot_range hs k)|auto].
  - destruct (wf_reach _ _ Hw j x Hh) as (t' & Ht' & E & Hbl'). exists t'.
    rewrite (ins_cap _ _ _ _ Hin), inserted_slot. split; [done|]. split; [done|].
    intros j' Hj'. rewrite inserted_slot. apply inserted_stopb; [by apply (set_slot_range hs k)|auto].
Qed.
End Insert.

(** Insertion of any key into a table with a free slot. *)
Lemma addkey_internal_spec hs k key : wf hs k -> count hs < capacity hs ->
  exists hs', cli_hashset_addkey_internal hs key = Ok hs' /\ wf hs' k /\
    capacity hs' = capacity hs /\ limit hs' = limit hs /\
    (forall x, member hs' x <-> x = key \/ member hs x) /\
    (member hs key -> count hs' = count hs) /\ (~ member hs key -> count hs' = count hs + 1) /\
    count hs <= count hs' <= count hs + 1.
Proof.
  intros Hw Hc. pose proof (wf_shape _ _ Hw) as Hs.
  destruct (first_stop_total hs k Hw key) as [t Hf]; [by left|].
  pose proof (set_slot_range hs k Hs key t) as Hr. pose proof (first_stop_member hs k Hw key t Hf) as Hm.
  unfold cli_hashset_addkey_internal.
  rewrite (search_first_stop hs k Hs key t Hf), (used_eq hs k Hs) by done. cbn [of_opt].
  destruct (usedb (bitmap hs) (slot hs key t)) eqn:Hu.
  - exists hs. do 4 (split; [done|]). split; [intros x; naive_solver|].
    split; [done|]. split; [intros []; by apply Hm|lia].
  - destruct (BITMAP_INSERT_spec (bitmap hs) (slot hs key t)) as (bm & -> & Hl & Hb);
      [destruct Hs; lia|]. cbn [of_opt].
    rewrite bset_is_Some by (destruct Hs; lia). cbn [of_opt]. eexists. split; [done|].
    match goal with |- wf ?h _ /\ _ => assert (inserted hs h (slot hs key t) key) as Hin end.
    { split; cbn; try done. intros j Hj. apply Hb. destruct Hs; lia. }
    split; [by eapply inserted_wf|]. do 2 (split; [done|]).
    split; [by eapply inserted_member|].
    destruct (inserted_count _ _ _ _ _ Hw Hr Hu Hin Hc) as [Hn _]. rewrite Hn.
    split; [intros ?%Hm; done|]. split; [done|lia].
Qed.

(** ** Fresh tables *)

Lemma nearest_power_loop_spec k num : forall m j, 6 <= j -> j <= k -> k <= 62 ->
  k = j + Z.of_nat m -> 2 ^ (k - 1) < num \/ m = 0%nat -> num <= 2 ^ k -> forall f, (m < f)%nat ->
  nearest_power_loop f (2 ^ j) num = 2 ^ k.
Proof.
  induction m as [|m IH]; intros j Hj Hjk Hk E Hlo Hhi f Hf; (destruct f as [|f]; [lia|]);
    cbn [nearest_power_loop].
  - replace j with k in * by lia. destruct (Z.ltb_spec (2 ^ k) num); [lia|done].
  - destruct Hlo as [Hlo|]; [|lia].
    assert (2 ^ j <= 2 ^ (k - 1)) by (apply Z.pow_le_mono_r; lia).
    destruct (Z.ltb_spec (2 ^ j) num); [|lia].
    rewrite Z.shiftl_mul_pow2, Z.mul_comm, <- Z.pow_add_r, (Z.add_comm 1 j) by lia.
    assert (0 < 2 ^ (j + 1)) by (apply pow2_gt0; lia).
    assert (2 ^ (j + 1) <= 2 ^ 62) by (apply Z.pow_le_mono_r; lia).
    rewrite uint_small by (change (2 ^ 64) with (4 * 2 ^ 62); lia).
    destruct (Z.eqb_spec (2 ^ (j + 1)) 0); [lia|]. apply IH; lia.
Qed.

Lemma pow2_above K num : 6 <= K -> num <= 2 ^ K -> exists k, 6 <= k <= K /\ num <= 2 ^ k /\
  (2 ^ (k - 1) < num \/ k = 6).
Proof.
  intros HK Hn. destruct (decide (num <= 64)); [exists 6; split; [lia|]; split; [done|by right]|].
  exists (Z.log2_up num). pose proof (Z.log2_up_spec num ltac:(lia)) as [Hlo Hhi].
  assert (6 < Z.log2_up num) by (apply Z.log2_up_lt_pow2; lia).
  assert (Z.log2_up num <= K) by (apply Z.log2_up_le_pow2; lia).
  split; [lia|]. split; [done|]. left. by replace (Z.log2_up num - 1) with (Z.pred (Z.log2_up num)) by lia.
Qed.

(** The capacity of a table made for [num] keys is the least power of two that
    is at least [num] and at least 64. *)
Lemma nearest_power_spec K num : 6 <= K <= 62 -> num <= 2 ^ K -> exists k, 6 <= k <= K /\
  nearest_power num = 2 ^ k /\ num <= 2 ^ k /\ (2 ^ (k - 1) < num \/ k = 6).
Proof.
  intros HK (k & Hk & Hhi & Hlo)%pow2_above; [|lia]. exists k. split; [done|]. split; [|done].
  unfold nearest_power. change 64 with (2 ^ 6).
  apply (nearest_power_loop_spec k num (Z.to_nat (k - 6))); lia.
Qed.

Lemma nearest_power_exact k : 6 <= k <= 62 -> nearest_power (2 ^ k) = 2 ^ k.
Proof.
  intros. unfold nearest_power. change 64 with (2 ^ 6).
  assert (2 ^ (k - 1) < 2 ^ k) by (apply Z.pow_lt_mono_r; lia).
  apply (nearest_power_loop_spec k _ (Z.to_nat (k - 6))); lia.
Qed.

Lemma usedb_zero n i : usedb (replicate n 0) i = false.
Proof.
  unfold usedb, BITMAP_CONTAINS, bget. destruct (_ <? 0); [done|].
  destruct (replicate n 0 !! _) eqn:E; [|done]. apply lookup_replicate in E as [-> _]. done.
Qed.

Lemma used_count_zero n m : used_count (replicate n 0) m = 0%nat.
Proof. induction m as [|m IH]; [done|]. by rewrite used_count_S, IH, usedb_zero. Qed.

(** The table is usable: it satisfies the invariant, and its limit leaves a
    free slot. *)
Definition good (hs : hashset) (k : Z) : Prop :=
  wf hs k /\ count hs <= limit hs /\ 50 * capacity hs <= 100 * limit hs + 99 /\ limit hs < capacity hs.

Lemma set_init_spec junk num lf : num <= 2 ^ 25 -> exists k hs,
  cli_hashset_init true true junk num lf = (0, hs) /\ good hs k /\ 6 <= k <= 25 /\
  nearest_power num = 2 ^ k /\ capacity hs = 2 ^ k /\ count hs = 0 /\ forall x, ~ member hs x.
Proof.
  intros (k & Hk & E & _)%(nearest_power_spec 25); [|lia]. exists k.
  unfold cli_hashset_init, cli_malloc, cli_calloc. rewrite E.
  set (lf' := if (lf <? 50) || (99 <? lf) then 80 else lf).
  assert (50 <= lf' <= 99) as Hlf
    by (unfold lf'; destruct (Z.ltb_spec lf 50), (Z.ltb_spec 99 lf); cbn [orb]; lia).
  assert (64 <= 2 ^ k <= 2 ^ 25)
    by (split; [change 64 with (2 ^ 6)|]; apply Z.pow_le_mono_r; lia).
  change (2 ^ 25) with 33554432 in *.
  rewrite (uint_small 64 (2 ^ k * lf')), (uint_small 64 (2 ^ k * 4))
    by (change (2 ^ 64) with 18446744073709551616; nia).
  rewrite !(uint_small 32) by (change (2 ^ 32) with 4294967296;
    first [lia | split; [apply Z.div_pos; nia|apply Z.div_lt_upper_bound; nia]]).
  destruct (Z.eqb_spec (2 ^ k * 4) 0), (Z.ltb_spec CLI_MAX_ALLOCATION (2 ^ k * 4));
    unfold CLI_MAX_ALLOCATION in *; try lia. cbn [orb negb Z.eqb Z.ltb Z.compare Pos.compare Pos.compare_cont].
  eexists. split; [reflexivity|].
  assert (32 * Z.shiftr (2 ^ k) 5 = 2 ^ k) as H32.
  { rewrite Z.shiftr_div_pow2, <- Z.pow_sub_r by lia. change 32 with (2 ^ 5).
    rewrite <- Z.pow_add_r by lia. f_equal. lia. }
  split; [|repeat (split; [done|])].
  - split; [split|].
    + split; cbn; [lia|done|done|rewrite length_resize; lia|rewrite length_replicate; lia].
    + cbn. by rewrite used_count_zero.
    + intros i key (_ & Hu & _). cbn in Hu. by rewrite usedb_zero in Hu.
    + cbn. pose proof (Z.div_mod (2 ^ k * lf') 100 ltac:(lia)).
      pose proof (Z.mod_pos_bound (2 ^ k * lf') 100 ltac:(lia)).
      split; [apply Z.div_pos; nia|]. split; [nia|]. apply Z.div_lt_upper_bound; nia.
  - intros x (i & _ & Hu & _). cbn in Hu. by rewrite usedb_zero in Hu.
Qed.

(** ** Growing *)

(** The keys held below slot [i]. *)
Definition held_below (hs : hashset) (i x : Z) : Prop := exists j, j < i /\ holds hs j x.

Lemma held_below_S hs i x : held_below hs (i + 1) x <-> held_below hs i x \/ holds hs i x.
Proof.
  split.
  - intros (j & Hj & Hh). destruct (decide (j = i)) as [->|]; [by right|]. left. exists j. split; [lia|done].
  - intros [(j & Hj & Hh)|Hh]; [exists j|exists i]; (split; [lia|done]).
Qed.

Lemma held_below_all hs x : held_below hs (capacity hs) x <-> member hs x.
Proof.
  split; [intros (j & _ & H); by exists j|]. intros (j & H). exists j. split; [apply H|done].
Qed.

Lemma used_step hs i : 0 <= i -> used_count (bitmap hs) (Z.to_nat (i + 1)) =
  (used_count (bitmap hs) (Z.to_nat i) + if usedb (bitmap hs) i then 1 else 0)%nat.
Proof.
  intros. replace (Z.to_nat (i + 1)) with (S (Z.to_nat i)) by lia.
  rewrite used_count_S, Z2Nat.id by lia. done.
Qed.

Lemma used_count_bound hs i : 0 <= i -> Z.of_nat (used_count (bitmap hs) (Z.to_nat i)) <= i.
Proof. intros. pose proof (used_count_le (bitmap hs) (Z.to_nat i)). lia. Qed.

Section Grow.
Context (hs : hashset) (k : Z) (Hw : wf hs k).

Lemma set_grow_loop_spec n : forall i nw k', 0 <= i -> i + Z.of_nat n = capacity hs ->
  wf nw k' -> capacity hs < capacity nw ->
  count nw = Z.of_nat (used_count (bitmap hs) (Z.to_nat i)) ->
  (forall x, member nw x <-> held_below hs i x) ->
  exists nw', grow_loop n i hs nw = Ok nw' /\ wf nw' k' /\ capacity nw' = capacity nw /\
    limit nw' = limit nw /\ count nw' = count hs /\ forall x, member nw' x <-> member hs x.
Proof.
  induction n as [|n IH]; intros i nw k' Hi E Hnw Hcap Hc Hm.
  - exists nw. split; [done|]. split; [done|]. split; [done|]. split; [done|].
    replace i with (capacity hs) in * by lia. split; [by rewrite (wf_count _ _ Hw)|].
    intros x. by rewrite Hm, held_below_all.
  - cbn [grow_loop]. pose proof (wf_shape _ _ Hw) as Hs.
    rewrite (used_eq hs k Hs) by lia. cbn [of_opt]. pose proof (used_step hs i Hi) as Hstep.
    destruct (usedb (bitmap hs) i) eqn:Hu.
    + destruct (key_eq hs k Hs i) as [x Hx]; [lia|]. rewrite Hx. cbn [of_opt].
      assert (holds hs i x) as Hh by (split; [lia|done]).
      pose proof (used_count_bound hs i Hi).
      destruct (addkey_internal_spec nw k' x Hnw) as (nw' & -> & Hw' & Hcap' & Hl' & Hm' & _ & Hc' & _); [lia|].
      rewrite <- Hcap', <- Hl'. apply IH; [lia|lia|done|lia| |].
      * rewrite Hc', Hc, Hstep; [lia|]. rewrite Hm. intros (j & Hj & Hh').
        pose proof (set_holds_inj hs k Hw i j x Hh Hh'). lia.
      * intros y. rewrite Hm', Hm, held_below_S. split; [intros [->|]; auto|].
        intros [|(_ & _ & Hy)]; [auto|left; congruence].
    + apply IH; [lia|lia|done|done|rewrite Hstep; lia|].
      intros y. rewrite Hm, held_below_S. split; [auto|]. intros [|(_ & Hf & _)]; [done|congruence].
Qed.

Lemma set_grow_spec junk : k <= 24 -> exists hs', cli_hashset_grow true true junk hs = Ok (0, hs') /\
  wf hs' (k + 1) /\ capacity hs <= limit hs' < capacity hs' /\ count hs' = count hs /\
  50 * capacity hs' <= 100 * limit hs' + 99 /\ forall x, member hs' x <-> member hs x.
Proof.
  intros Hk. pose proof (wf_shape _ _ Hw) as Hs. pose proof (cap_pos hs k Hs) as Hpos.
  pose proof (shape_cap _ _ Hs) as Ec. pose proof (shape_k _ _ Hs).
  assert (2 ^ (k + 1) = 2 * 2 ^ k) as E2 by (rewrite Z.pow_add_r by lia; lia).
  assert (2 ^ (k + 1) <= 2 ^ 25) by (apply Z.pow_le_mono_r; lia).
  unfold cli_hashset_grow. destruct (Z.eqb_spec (capacity hs) 0); [lia|].
  rewrite Z.shiftl_mul_pow2, Ec, Z.pow_1_r, Z.mul_comm, <- E2 by lia.
  rewrite (uint_small 32 (2 ^ (k + 1))) by (change (2 ^ 32) with (128 * 2 ^ 25); lia).
  match goal with |- context [cli_hashset_init _ _ _ _ ?l] =>
    destruct (set_init_spec junk (2 ^ (k + 1)) l) as (k' & nw & -> & [Hnw Hgood] & Hk' & E & Hcap & Hc & Hm);
    [done|] end.
  rewrite nearest_power_exact in E by lia. apply Z.pow_inj_r in E; [|lia..]. subst k'.
  cbn [Z.ltb Z.compare].
  destruct (set_grow_loop_spec (Z.to_nat (2 ^ k)) 0 nw (k + 1)) as (nw' & -> & Hw' & Hcap' & Hl & Hc' & Hm');
    [lia|lia|done|lia|done| |].
  - intros x. split; [intros []%Hm|]. intros (j & Hj & (Hr & _)). lia.
  - exists nw'. split; [done|]. split; [done|]. rewrite Hl, Hcap', Hcap.
    destruct Hgood as (Hg1 & Hg2 & Hg3). rewrite Hcap in Hg2, Hg3. split; [lia|]. split; [done|].
    split; [lia|done].
Qed.
End Grow.

(** Adding a key to a usable table of fewer than [2^24] keys succeeds. *)
Lemma set_addkey_spec hs k key junk : good hs k -> count hs < 2 ^ 24 ->
  exists hs' k', cli_hashset_addkey true true junk hs key = Ok (0, hs') /\ good hs' k' /\
    (forall x, member hs' x <-> x = key \/ member hs x) /\
    (member hs key -> count hs' = count hs) /\ (~ member hs key -> count hs' = count hs + 1).
Proof.
  intros (Hw & Hcl & Hlo & Hlim) Hc. unfold cli_hashset_addkey.
  pose proof (wf_shape _ _ Hw) as Hs. pose proof (cap_pos hs k Hs). pose proof (wf_count _ _ Hw).
  rewrite uint_small by (change (2 ^ 32) with (256 * 2 ^ 24); lia).
  destruct (Z.ltb_spec (limit hs) (count hs + 1)) as [Hover|Hroom].
  - assert (k <= 24) as Hk.
    { pose proof (shape_k _ _ Hs). pose proof (shape_cap _ _ Hs) as Ec.
      assert (k - 1 < 24); [|lia]. apply (Z.pow_lt_mono_r_iff 2); [lia|lia|].
      pose proof (pow2_half k ltac:(lia)). lia. }
    destruct (set_grow_spec hs k Hw junk Hk) as (hs1 & -> & Hw1 & Hl1 & Hc1 & Hlo1 & Hm1). cbn [Z.eqb negb].
    destruct (addkey_internal_spec hs1 (k + 1) key Hw1) as (hs' & -> & Hw' & Ecap & El & Hm & Hin & Hout & Hle);
      [lia|].
    exists hs', (k + 1). split; [done|]. split; [split; [done|]; lia|].
    setoid_rewrite Hm. setoid_rewrite Hm1. rewrite <- Hc1. setoid_rewrite Hm1 in Hin.
    setoid_rewrite Hm1 in Hout. done.
  - destruct (addkey_internal_spec hs k key Hw) as (hs' & -> & Hw' & Ecap & El & Hm & Hin & Hout & Hle); [lia|].
    exists hs', k. split; [done|]. split; [|done]. split; [done|]. rewrite Ecap, El. lia.
Qed.

(** ** Listing *)

Lemma used_count_mono bm n m : (n <= m)%nat -> (used_count bm n <= used_count bm m)%nat.
Proof. induction 1; [done|]. rewrite used_count_S. lia. Qed.

Lemma used_count_tail bm n m : (n <= m)%nat -> (used_count bm m <= used_count bm n)%nat ->
  forall i, Z.of_nat n <= i < Z.of_nat m -> usedb bm i = false.
Proof.
  intros Hnm Hc i Hi. destruct (usedb bm i) eqn:E; [|done].
  pose proof (used_count_S bm (Z.to_nat i)) as HS. rewrite Z2Nat.id, E in HS by lia.
  pose proof (used_count_mono bm n (Z.to_nat i) ltac:(lia)).
  pose proof (used_count_mono bm (S (Z.to_nat i)) m ltac:(lia)). lia.
Qed.

Lemma toarray_loop_spec hs k n : wf hs k -> forall i arr, 0 <= i -> i + Z.of_nat n = capacity hs ->
  length arr = used_count (bitmap hs) (Z.to_nat i) -> NoDup arr ->
  (forall x, x ∈ arr <-> held_below hs i x) ->
  exists arr', toarray_loop n i hs arr = Ok arr' /\ NoDup arr' /\ forall x, x ∈ arr' <-> member hs x.
Proof.
  intros Hw. pose proof (wf_shape _ _ Hw) as Hs.
  induction n as [|n IH]; intros i arr Hi E Hlen Hnd Hin; cbn [toarray_loop].
  { exists arr. split; [done|]. split; [done|]. intros x. rewrite Hin.
    replace i with (capacity hs) by lia. apply held_below_all. }
  pose proof (used_step hs i Hi) as Hstep.
  destruct (Z.ltb_spec (Z.of_nat (length arr)) (count hs)) as [Hlt|Hge].
  - rewrite (used_eq hs k Hs) by lia. cbn [of_opt]. destruct (usedb (bitmap hs) i) eqn:Hu.
    + destruct (key_eq hs k Hs i) as [x Hx]; [lia|]. rewrite Hx. cbn [of_opt].
      assert (holds hs i x) as Hh by (split; [lia|done]).
      apply IH; [lia|lia|rewrite length_app; cbn; lia| |].
      * apply NoDup_app. split; [done|]. split; [|apply NoDup_singleton].
        intros y (j & Hj & Hy)%Hin ->%list_elem_of_singleton.
        pose proof (set_holds_inj hs k Hw i j x Hh Hy). lia.
      * intros y. rewrite elem_of_app, list_elem_of_singleton, Hin, held_below_S.
        split; [intros [H| ->]; auto|]. intros [|(_ & _ & Hy)]; [auto|right; congruence].
    + apply IH; [lia|lia|lia|done|]. intros y. rewrite Hin, held_below_S.
      split; [auto|]. intros [|(_ & Hf & _)]; [done|congruence].
  - exists arr. split; [done|]. split; [done|]. intros x. rewrite Hin, <- held_below_all.
    rewrite (wf_count _ _ Hw) in Hge.
    split; intros (j & Hj & Hh); exists j; (split; [|done]); [lia|].
    destruct (decide (j < i)); [done|]. destruct Hh as (Hr & Hu & _).
    rewrite (used_count_tail _ (Z.to_nat i) (Z.to_nat (capacity hs))) in Hu by lia. done.
Qed.

(** ** The set a table stands for *)

Definition represents (hs : hashset) (s : gset Z) : Prop :=
  (exists k, good hs k) /\ count hs = Z.of_nat (size s) /\ forall x, x ∈ s <-> member hs x.

(** Adding the keys of a list one after the other. *)
Fixpoint add_all (junk : list Z) (hs : hashset) (l : list Z) : res (Z * hashset) :=
  match l with
  | [] => Ok (0, hs)
  | key :: l' =>
      let! (rc, hs) := cli_hashset_addkey true true junk hs key in
      if negb (rc =? 0) then Ok (rc, hs) else add_all junk hs l'
  end.

Lemma represents_addkey junk hs s key : represents hs s -> Z.of_nat (size s) < 2 ^ 24 ->
  exists hs', cli_hashset_addkey true true junk hs key = Ok (0, hs') /\ represents hs' ({[key]} ∪ s).
Proof.
  intros ([k Hg] & Hc & Hm) Hsz.
  destruct (set_addkey_spec hs k key junk Hg) as (hs' & k' & -> & Hg' & Hm' & Hin & Hout); [lia|].
  exists hs'. split; [done|]. split; [by exists k'|]. split.
  - destruct (decide (key ∈ s)) as [Hk|Hk].
    + rewrite Hin by (by apply Hm). by replace ({[key]} ∪ s) with s by set_solver.
    + rewrite Hout by (by rewrite <- Hm). rewrite size_union by set_solver.
      rewrite size_singleton. lia.
  - intros x. rewrite Hm', elem_of_union, elem_of_singleton, Hm. done.
Qed.

Lemma represents_contains hs s key : represents hs s ->
  cli_hashset_contains hs key = Ok (bool_decide (key ∈ s)).
Proof.
  intros ([k (Hw & ? & ? & ?)] & _ & Hm).
  destruct (contains_spec hs k Hw key) as (b & -> & Hb); [left; lia|]. f_equal.
  apply eq_bool_prop_intro. rewrite bool_decide_spec, Hm. rewrite <- Hb. destruct b; cbn; naive_solver.
Qed.

Lemma represents_toarray hs s : represents hs s -> s <> ∅ ->
  exists arr, cli_hashset_toarray true hs = Ok (Z.of_nat (size s), Some arr) /\ arr ≡ₚ elements s.
Proof.
  intros ([k (Hw & ? & ? & ?)] & Hc & Hm) Hne. pose proof (wf_shape _ _ Hw) as Hs.
  pose proof (cap_pos hs k Hs). pose proof (shape_k _ _ Hs). pose proof (shape_cap _ _ Hs).
  assert (2 ^ k <= 2 ^ 25) by (apply Z.pow_le_mono_r; lia). change (2 ^ 25) with 33554432 in *.
  assert (size s <> 0%nat)
    by (intros E; apply Hne, leibniz_equiv, size_empty_inv; done).
  unfold cli_hashset_toarray, cli_malloc.
  rewrite uint_small by (change (2 ^ 64) with 18446744073709551616; lia).
  destruct (Z.eqb_spec (count hs * 4) 0), (Z.ltb_spec CLI_MAX_ALLOCATION (count hs * 4));
    unfold CLI_MAX_ALLOCATION in *; try lia. cbn [orb negb].
  destruct (toarray_loop_spec hs k (Z.to_nat (capacity hs)) Hw 0 []) as (arr & -> & Hnd & Hin);
    [lia|lia|done|constructor| |].
  - intros x. split; [intros []%not_elem_of_nil|]. intros (j & Hj & (Hr & _)). lia.
  - exists arr. assert (arr ≡ₚ elements s) as Hp.
    { apply NoDup_Permutation; [done|apply NoDup_elements|].
      intros x. by rewrite Hin, elem_of_elements, Hm. }
    split; [|done]. do 3 f_equal. by apply Permutation_length.
Qed.

Lemma represents_add_all junk l : forall hs s, represents hs s ->
  Z.of_nat (size s) + Z.of_nat (length l) < 2 ^ 24 ->
  exists hs', add_all junk hs l = Ok (0, hs') /\ represents hs' (list_to_set l ∪ s).
Proof.
  induction l as [|key l IH]; intros hs s Hr Hsz.
  - exists hs. split; [done|]. by rewrite list_to_set_nil, union_empty_l_L.
  - cbn [length] in Hsz. cbn [add_all].
    destruct (represents_addkey junk hs s key Hr) as (hs1 & -> & Hr1); [lia|]. cbn [Z.eqb negb].
    destruct (IH hs1 _ Hr1) as (hs' & -> & Hr').
    { pose proof (size_union_alt {[key]} s). rewrite size_singleton in *.
      pose proof (subseteq_size (s ∖ {[key]}) s ltac:(set_solver)). lia. }
    exists hs'. split; [done|]. rewrite list_to_set_cons.
    by replace ({[key]} ∪ list_to_set l ∪ s) with (list_to_set l ∪ ({[key]} ∪ s)) by set_solver.
Qed.

Lemma set_represents_init junk num lf : num <= 2 ^ 25 -> exists hs,
  cli_hashset_init true true junk num lf = (0, hs) /\ represents hs ∅.
Proof.
  intros (k & hs & E & Hg & _ & _ & _ & Hc & Hm)%(set_init_spec junk num lf).
  exists hs. split; [done|]. split; [by exists k|]. split; [done|].
  intros x. split; [set_solver|]. intros []%Hm.
Qed.

End HashSetFacts.

Module HashSetProps.
Import HashSet HashSetFacts.

(** C20. The hash set implements a finite set.  Whatever the initial capacity
    (up to 2^25), load factor and contents of the fresh memory, when the
    allocations succeed adding fewer than 2^24 keys always succeeds: every
    search ends within one pass over the table, every growth keeps the keys,
    and afterwards [count] is the number of distinct keys, a lookup answers
    exactly whether the key was added, and (if there is one) the array of
    [cli_hashset_toarray] lists every added key once. *)
Theorem hashset_implements_set junk initial_capacity load_factor l :
  initial_capacity <= 2 ^ 25 -> Z.of_nat (length l) < 2 ^ 24 ->
  exists hs0 hs,
    cli_hashset_init true true junk initial_capacity load_factor = (0, hs0) /\
    add_all junk hs0 l = Ok (0, hs) /\
    count hs = Z.of_nat (size (list_to_set l : gset Z)) /\
    (forall key, cli_hashset_contains hs key = Ok (bool_decide (key ∈ l))) /\
    (l <> [] -> exists arr, cli_hashset_toarray true hs = Ok (count hs, Some arr) /\
       arr ≡ₚ elements (list_to_set l : gset Z)).
Proof.
  intros Hcap Hl. destruct (set_represents_init junk initial_capacity load_factor Hcap) as (hs0 & E0 & Hr0).
  destruct (represents_add_all junk l hs0 ∅ Hr0) as (hs & E & Hr); [rewrite size_empty; lia|].
  rewrite union_empty_r_L in Hr. exists hs0, hs. split; [done|]. split; [done|]. split; [apply Hr|].
  split.
  2: { intros Hne. destruct Hr as (Hg & Hc & Hm). rewrite Hc. apply represents_toarray; [done|].
       destruct l as [|x l]; [done|]. rewrite list_to_set_cons. set_solver. }
  intros key. rewrite (represents_contains hs _ key Hr). f_equal. apply bool_decide_ext.
  apply elem_of_list_to_set.
Qed.

Lemma hashset_implements_set_witness :
  exists hs0 hs, cli_hashset_init true true [] 5 80 = (0, hs0) /\ add_all [] hs0 [7; 9; 7] = Ok (0, hs) /\
    count hs = 2 /\ cli_hashset_contains hs 9 = Ok true /\ cli_hashset_contains hs 8 = Ok false.
Proof.
  destruct (hashset_implements_set [] 5 80 [7; 9; 7]) as (hs0 & hs & E0 & E & Hc & Hin & _);
    [vm_compute; congruence|reflexivity|].
  exists hs0, hs. split; [done|]. split; [done|]. split; [rewrite Hc; reflexivity|].
  rewrite !Hin. split; reflexivity.
Defined.

(** [cli_hashset_removekey] clears the slot of the key and so cuts the probing
    chain of every key stored behind it: keys 10 and 13 share their first slot,
    and after removing 10 the key 13 is still in the table but no longer found. *)
Lemma removekey_loses_key :
  (let (_, hs0) := cli_hashset_init true true [] 64 80 in
   let! (_, hs) := add_all [] hs0 [10; 13] in
   let! before := cli_hashset_contains hs 13 in
   let! (rc, hs') := cli_hashset_removekey hs 10 in
   let! after := cli_hashset_contains hs' 13 in
   Ok (rc, before, after, count hs')) = Ok (0, true, false, 1).
Proof. vm_compute. reflexivity. Qed.

(** [cli_hashset_grow] tests [rc < 0], but the code for a failed allocation is
    positive: it goes on to fill a table that has no memory. *)
Lemma grow_ignores_emem :
  (let (_, hs0) := cli_hashset_init true true [] 64 80 in
   let! (_, hs) := add_all [] hs0 [10] in cli_hashset_grow false true [] hs) = Undef.
Proof. vm_compute. reflexivity. Qed.

(** [cli_malloc] refuses to allocate zero bytes, so listing an empty set fails,
    and the error code returned is positive: a caller that takes it for the
    number of keys reads 21 of them through a NULL pointer. *)
Lemma toarray_of_empty_set :
  (let (_, hs) := cli_hashset_init true true [] 64 80 in cli_hashset_toarray true hs)
  = Ok (21, None).
Proof. vm_compute. reflexivity. Qed.

End HashSetProps.
