(* ===== verification/Hashtab.v ===== *)
(** Hash tables with string keys, [struct cli_hashtable], and the maps built on
    them, [struct cli_map]: the other half of libclamav/hashtab.c. *)
From stdpp Require Import base numbers list list_numbers gmap.
From Stdlib Require Import ZArith Lia Bool.
From S2P Require Import Prelude Probing Dlp Hashset.
Import Errors Alloc Dlp.Ctype HashFn.
Local Open Scope Z_scope.

Module HashTab.

(** The key pointer of an element: NULL, the address of [DELETED_KEY], a string
    of its own (the bytes of the block), or the address of a freed block. *)
Inductive keyptr := KNull | KDeleted | KStr (block : list Z) | KFreed.

Record element := { ekey : keyptr; data : Z; elen : Z }.

(** A table: a NULL [htable] is the empty list. *)
Record hashtable := { htable : list element; capacity : Z; used : Z; maxfill : Z }.

Definition empty_element : element := {| ekey := KNull; data := 0; elen := 0 |}.

(** [cli_hashtab_init]: [mem] says whether the C library has memory; the struct
    is unchanged when it has not. *)
Definition cli_hashtab_init (mem : bool) (s : hashtable) (cap : Z) : Z * hashtable :=
  let cap := nearest_power cap in
  if negb (cli_calloc mem cap 24) then (CL_EMEM, s)
  else (0, {| htable := replicate (Z.to_nat cap) empty_element; capacity := cap; used := 0;
              maxfill := uint 64 (8 * cap) / 10 |}).

(** One round of the mixing in [hash]. *)
Definition hash_mix (Hash c : Z) : Z := hash32shift (uint 32 (Hash + c)).

(** The loop of [hash] over the [len] bytes at [k], with the mixing function as
    an argument. *)
Fixpoint hash_loop (mix : Z -> Z -> Z) (len : nat) (k : list Z) (Hash : Z) : option Z :=
  match len with
  | O => Some Hash
  | S n =>
      match k with
      | [] => None
      | c :: k' => hash_loop mix n k' (mix Hash c)
      end
  end.

Definition hash (k : list Z) (len SIZE : Z) : option Z :=
  let* Hash := hash_loop hash_mix (Z.to_nat len) k 1 in Some (Z.land Hash (uint 64 (SIZE - 1))).

(** [strncmp(a, b, n) == 0]; a read beyond either block is undefined. *)
Fixpoint strncmp_eq (n : nat) (a b : list Z) : option bool :=
  match n with
  | O => Some true
  | S n' =>
      match a, b with
      | x :: a', y :: b' =>
          if negb (x =? y) then Some false else if x =? 0 then Some true else strncmp_eq n' a' b'
      | _, _ => None
      end
  end.

(** The test [len == element->len && strncmp(key, element->key, len) == 0] on an
    element whose key is neither NULL nor [DELETED_KEY]. *)
Definition key_matches (key : list Z) (len : Z) (e : element) : option bool :=
  if negb (len =? elen e) then Some false else
  match ekey e with
  | KStr block => strncmp_eq (Z.to_nat len) key block
  | _ => None
  end.

(** The loop of [cli_hashtab_find]: the index of the element, [None] for NULL. *)
Fixpoint find_loop (fuel : nat) (s : hashtable) (key : list Z) (len idx tries : Z)
    : res (option Z) :=
  match fuel with
  | O => NoFuel
  | S f =>
      let! e := of_opt (bget (htable s) idx) in
      let next :=
        let idx := Z.land (uint 64 (idx + tries)) (capacity s - 1) in
        let tries := tries + 1 in
        if tries <=? capacity s then find_loop f s key len idx tries else Ok None in
      match ekey e with
      | KNull => Ok None
      | KDeleted => next
      | _ =>
          let! eq := of_opt (key_matches key len e) in
          if (eq : bool) then Ok (Some idx) else next
      end
  end.

(** [tries] grows with every round, so [capacity] rounds end the loop. *)
Definition cli_hashtab_find (s : hashtable) (key : list Z) (len : Z) : res (option Z) :=
  let! idx := of_opt (hash key len (capacity s)) in
  find_loop (S (Z.to_nat (capacity s))) s key len idx 1.

(** The inner loop of [cli_hashtab_grow]: a free slot of the new table. *)
Fixpoint rehash_loop (fuel : nat) (htab : list element) (new_capacity idx tries : Z)
    : res (option Z) :=
  match fuel with
  | O => NoFuel
  | S f =>
      let! e := of_opt (bget htab idx) in
      match ekey e with
      | KNull => Ok (Some idx)
      | _ =>
          if tries <=? new_capacity
          then rehash_loop f htab new_capacity (uint 64 (idx + tries) `mod` new_capacity) (tries + 1)
          else Ok None
      end
  end.

(** The outer loop, over the elements of the old table; [None]: the
    "impossible" error. *)
Fixpoint grow_loop (old : list element) (htab : list element) (new_capacity used : Z)
    : res (option (list element * Z)) :=
  match old with
  | [] => Ok (Some (htab, used))
  | e :: old' =>
      match ekey e with
      | KNull | KDeleted => grow_loop old' htab new_capacity used
      | KFreed => Undef
      | KStr block =>
          let! idx := of_opt (hash block (elen e) new_capacity) in
          let! slot := rehash_loop (S (Z.to_nat new_capacity)) htab new_capacity idx 1 in
          match slot with
          | None => Ok None
          | Some idx =>
              let! htab := of_opt (bset htab idx e) in
              grow_loop old' htab new_capacity (used + 1)
          end
      end
  end.

Definition cli_hashtab_grow (mem : bool) (s : hashtable) : res (Z * hashtable) :=
  let new_capacity := nearest_power (uint 64 (capacity s + 1)) in
  let ok := cli_calloc mem new_capacity 24 in
  if (new_capacity =? capacity s) || negb ok then Ok (CL_EMEM, s) else
  let! r := grow_loop (htable s) (replicate (Z.to_nat new_capacity) empty_element) new_capacity 0 in
  match r with
  | None => Ok (CL_EMEM, s)
  | Some (htab, used') =>
      Ok (CL_SUCCESS, {| htable := htab; capacity := new_capacity; used := used';
                         maxfill := uint 64 (new_capacity * 8) / 10 |})
  end.

(** The insertion branch: [strncpy(thekey, key, len+1); thekey[len]='\0';]
    reads [key] up to a NUL or for [len+1] bytes. *)
Definition insert_at (memkey : bool) (s : hashtable) (key : list Z) (len dat idx : Z)
    : res (option Z * hashtable) :=
  if negb (cli_malloc memkey (len + 1)) then Ok (None, s) else
  let! thekey := of_opt (strncpy (Z.to_nat (len + 1)) key) in
  let! thekey := of_opt (bset thekey len 0) in
  let! htab := of_opt (bset (htable s) idx {| ekey := KStr thekey; data := dat; elen := len |}) in
  Ok (Some idx, {| htable := htab; capacity := capacity s; used := used s + 1; maxfill := maxfill s |}).

(** The inner loop of [cli_hashtab_insert]; [inr] when no slot was found.  A
    [DELETED_KEY] slot is remembered, but neither [idx] nor [tries] moves. *)
Fixpoint insert_loop (fuel : nat) (memkey : bool) (s : hashtable) (key : list Z)
    (len dat idx tries : Z) (deleted : option Z) : res ((option Z * hashtable) + unit) :=
  match fuel with
  | O => NoFuel
  | S f =>
      let! e := of_opt (bget (htable s) idx) in
      match ekey e with
      | KNull =>
          let! r := insert_at memkey s key len dat (match deleted with Some d => d | None => idx end) in
          Ok (inl r)
      | KDeleted =>
          if tries <=? capacity s
          then insert_loop f memkey s key len dat idx tries (Some idx) else Ok (inr tt)
      | _ =>
          let! eq := of_opt (key_matches key len e) in
          if (eq : bool) then
            let! htab := of_opt (bset (htable s) idx {| ekey := ekey e; data := dat; elen := elen e |}) in
            Ok (inl (Some idx, {| htable := htab; capacity := capacity s; used := used s;
                                  maxfill := maxfill s |}))
          else
            let idx := uint 64 (idx + tries) `mod` capacity s in
            let tries := tries + 1 in
            if tries <=? capacity s
            then insert_loop f memkey s key len dat idx tries deleted else Ok (inr tt)
      end
  end.

(** The outer loop: [do ... while (cli_hashtab_grow(s) >= 0)].  A second round
    starts without a [deleted_element]: the inner loop never leaves a
    [DELETED_KEY] slot. *)
Fixpoint insert_rounds (fuel : nat) (mem memkey : bool) (s : hashtable) (key : list Z)
    (len dat : Z) : res (option Z * hashtable) :=
  match fuel with
  | O => NoFuel
  | S f =>
      let! idx := of_opt (hash key len (capacity s)) in
      let! r := insert_loop (S (Z.to_nat (capacity s))) memkey s key len dat idx 1 None in
      match r with
      | inl r => Ok r
      | inr _ =>
          let! (rc, s) := cli_hashtab_grow mem s in
          if 0 <=? rc then insert_rounds f mem memkey s key len dat else Ok (None, s)
      end
  end.

Definition cli_hashtab_insert (fuel : nat) (mem memkey : bool) (s : hashtable) (key : list Z)
    (len dat : Z) : res (option Z * hashtable) :=
  let! s := (if maxfill s <? used s
             then let! (_, s) := cli_hashtab_grow mem s in Ok s else Ok s) in
  insert_rounds fuel mem memkey s key len dat.

Definition cli_hashtab_delete (s : hashtable) (key : list Z) (len : Z) : res hashtable :=
  let! r := cli_hashtab_find s key len in
  match r with
  | None => Ok s
  | Some idx =>
      let! e := of_opt (bget (htable s) idx) in
      let! htab := of_opt (bset (htable s) idx {| ekey := KDeleted; data := data e; elen := elen e |}) in
      Ok {| htable := htab; capacity := capacity s; used := used s; maxfill := maxfill s |}
  end.

(** [cli_hashtab_clear]: every key is freed, then [memset(s->htable, 0,
    s->capacity)] clears that many bytes; an element has 24 of them, the key
    pointer first, then the data. *)
Definition free_key (e : element) : option element :=
  match ekey e with
  | KStr _ => Some {| ekey := KFreed; data := data e; elen := elen e |}
  | KFreed => None
  | _ => Some e
  end.

Fixpoint memset_elements (bytes : Z) (l : list element) : option (list element) :=
  match l with
  | [] => if bytes <=? 0 then Some [] else None
  | e :: l' =>
      if bytes <=? 0 then Some l
      else if 24 <=? bytes then let* r := memset_elements (bytes - 24) l' in Some (empty_element :: r)
      else if bytes =? 16 then Some ({| ekey := KNull; data := 0; elen := elen e |} :: l')
      else if bytes =? 8 then Some ({| ekey := KNull; data := data e; elen := elen e |} :: l')
      else None
  end.

Definition cli_hashtab_clear (s : hashtable) : option hashtable :=
  let* l := mapM free_key (htable s) in
  let* l := memset_elements (if decide (htable s = []) then 0 else capacity s) l in
  Some {| htable := l; capacity := capacity s; used := 0; maxfill := maxfill s |}.

Definition cli_hashtab_free (s : hashtable) : option hashtable :=
  let* s := cli_hashtab_clear s in
  Some {| htable := []; capacity := 0; used := used s; maxfill := maxfill s |}.

End HashTab.

(** * Proofs *)
Module HashTabFacts.
Import HashTab.

(** ** Keys *)

(** A C string without its terminator. *)
Definition valid_str (x : list Z) : Prop := Forall (fun c => 0 < c < 256) x.

(** A buffer that holds the string [x] with its terminator. *)
Definition cbuf (key x : list Z) : Prop := valid_str x /\ exists rest, key = x ++ 0 :: rest.

Definition strhash (x : list Z) : Z := fold_left hash_mix x 1.
#[global] Strategy opaque [strhash].

Lemma hash_loop_app mix x rest : forall H,
  hash_loop mix (length x) (x ++ rest) H = Some (fold_left mix x H).
Proof. induction x as [|c x IH]; intros H; [reflexivity|]. apply IH. Qed.

Lemma hash_spec x rest k : 0 <= k <= 60 ->
  hash (x ++ rest) (Z.of_nat (length x)) (2 ^ k) = Some (strhash x `mod` 2 ^ k).
Proof.
  intros Hk. unfold hash. rewrite Nat2Z.id, hash_loop_app.
  pose proof (pow2_gt0 k ltac:(lia)). assert (2 ^ k <= 2 ^ 60) by (apply Z.pow_le_mono_r; lia).
  rewrite uint_small by (change (2 ^ 64) with (16 * 2 ^ 60); lia).
  by rewrite land_mask by lia.
Qed.

Lemma valid_cons c x : valid_str (c :: x) <-> 0 < c < 256 /\ valid_str x.
Proof. unfold valid_str. by rewrite Forall_cons. Qed.

Lemma cstr_app x rest : valid_str x -> cstr (x ++ 0 :: rest) = x.
Proof.
  induction x as [|c x IH]; [done|]. intros [Hc Hx]%valid_cons. cbn.
  destruct (Z.eqb_spec c 0); [lia|]. by rewrite IH.
Qed.

Lemma strncmp_spec x y r1 r2 : valid_str x -> valid_str y -> length x = length y ->
  strncmp_eq (length x) (x ++ 0 :: r1) (y ++ r2) = Some (bool_decide (x = y)).
Proof.
  revert y. induction x as [|a x IH]; intros [|b y] Hx Hy E; try done.
  apply valid_cons in Hx as [Ha Hx], Hy as [Hb Hy]. cbn.
  destruct (Z.eqb_spec a b) as [->|Hne]; cbn [negb].
  - destruct (Z.eqb_spec b 0); [lia|]. rewrite IH by (done || by injection E). f_equal.
    apply bool_decide_ext. naive_solver.
  - f_equal. symmetry. apply bool_decide_false. congruence.
Qed.

Lemma strncpy_spec x rest : valid_str x -> strncpy (S (length x)) (x ++ 0 :: rest) = Some (x ++ [0]).
Proof.
  induction x as [|c x IH]; [done|]. intros [Hc Hx]%valid_cons.
  cbn [app length strncpy]. destruct (Z.eqb_spec c 0); [lia|]. cbn [strncpy] in IH. by rewrite IH.
Qed.

(** ** Elements *)

(** The string an element holds. *)
Definition estr (e : element) : option (list Z) :=
  match ekey e with KStr b => Some (cstr b) | _ => None end.

Definition wf_element (e : element) : Prop :=
  match ekey e with
  | KNull | KDeleted => True
  | KStr b => exists x, valid_str x /\ b = x ++ [0] /\ elen e = Z.of_nat (length x)
  | KFreed => False
  end.

Definition nullb (e : element) : bool := match ekey e with KNull => true | _ => false end.
Definition deletedb (e : element) : bool := match ekey e with KDeleted => true | _ => false end.

Lemma key_matches_spec key x e : cbuf key x -> wf_element e -> nullb e = false -> deletedb e = false ->
  key_matches key (Z.of_nat (length x)) e = Some (bool_decide (estr e = Some x)).
Proof.
  intros [Hx [rest ->]] Hw Hn Hd. unfold key_matches, estr, wf_element, nullb, deletedb in *.
  destruct (ekey e) as [| |b|]; try done. destruct Hw as (y & Hy & -> & ->).
  rewrite cstr_app by done. destruct (Z.eqb_spec (Z.of_nat (length x)) (Z.of_nat (length y))) as [E|E]; cbn [negb].
  - rewrite Nat2Z.id, strncmp_spec by (done || lia). f_equal. apply bool_decide_ext. naive_solver.
  - f_equal. symmetry. apply bool_decide_false. intros [= ->]. done.
Qed.

Lemma nullb_estr e x : estr e = Some x -> nullb e = false /\ deletedb e = false.
Proof. unfold estr, nullb, deletedb. by destruct (ekey e). Qed.

(** ** Counting occupied slots *)

Fixpoint nonnull (l : list element) : nat :=
  match l with
  | [] => O
  | e :: l' => ((if nullb e then 0 else 1) + nonnull l')%nat
  end.

Lemma nonnull_insert l i e e' : l !! i = Some e ->
  (nonnull (<[i := e']> l) + (if nullb e then 0 else 1) =
   nonnull l + (if nullb e' then 0 else 1))%nat.
Proof.
  revert i. induction l as [|a l IH]; intros [|i]; try done; cbn.
  - intros [= ->]. destruct (nullb e), (nullb e'); lia.
  - intros H. rewrite <- !Nat.add_assoc. f_equal. apply (IH i H).
Qed.

Lemma nonnull_free l : (nonnull l < length l)%nat -> exists i e, l !! i = Some e /\ nullb e = true.
Proof.
  induction l as [|a l IH]; cbn; [lia|]. destruct (nullb a) eqn:E; intros H.
  - exists 0%nat, a. done.
  - destruct IH as (i & e & Hi & He); [lia|]. exists (S i), e. done.
Qed.

Lemma nonnull_replicate n : nonnull (replicate n empty_element) = 0%nat.
Proof. by induction n. Qed.

(** ** The table invariant *)

Definition home (k : Z) (x : list Z) : Z := strhash x `mod` 2 ^ k.
Definition slot (k : Z) (x : list Z) (t : Z) : Z := probe (2 ^ k) (home k x) t.
#[global] Strategy expand [slot].

(** Slot [i] holds the string [x] with data [d]. *)
Definition holds (l : list element) (i : Z) (x : list Z) (d : Z) : Prop :=
  exists e, bget l i = Some e /\ estr e = Some x /\ data e = d.

Definition busy (l : list element) (x : list Z) (i : Z) : Prop :=
  exists e, bget l i = Some e /\ nullb e = false /\ estr e <> Some x.

Definition reachable (l : list element) (k : Z) : Prop := forall i x d, holds l i x d ->
  exists t, 0 <= t < 2 ^ k /\ slot k x t = i /\ forall j, 0 <= j < t -> busy l x (slot k x j).

Record table (l : list element) (k : Z) : Prop := {
  tab_k : 6 <= k <= 60;
  tab_len : Z.of_nat (length l) = 2 ^ k;
  tab_elements : Forall wf_element l;
  tab_reach : reachable l k }.

Definition stopb (l : list element) (x : list Z) (i : Z) : bool :=
  match bget l i with
  | Some e => nullb e || bool_decide (estr e = Some x)
  | None => false
  end.

Section Table.
Context (l : list element) (k : Z) (Ht : table l k).

Lemma tab_pos : 0 < 2 ^ k.
Proof. apply pow2_gt0. pose proof (tab_k _ _ Ht). lia. Qed.

Lemma slot_range x t : 0 <= slot k x t < 2 ^ k.
Proof. apply probe_range, tab_pos. Qed.

Lemma slot_0 x : slot k x 0 = home k x.
Proof. apply probe_0. apply Z.mod_pos_bound, tab_pos. Qed.

Lemma tab_get i : 0 <= i < 2 ^ k -> exists e, bget l i = Some e /\ wf_element e.
Proof.
  intros Hi. destruct (bget_is_Some l i) as [e He]; [pose proof (tab_len _ _ Ht); lia|].
  exists e. split; [done|]. pose proof (tab_elements _ _ Ht) as Hf. rewrite Forall_lookup in Hf.
  rewrite bget_lookup in He by lia. eauto.
Qed.

Lemma holds_range i x d : holds l i x d -> 0 <= i < 2 ^ k.
Proof. intros (e & He%bget_Some & _). pose proof (tab_len _ _ Ht). lia. Qed.

Lemma holds_stop i x d : holds l i x d -> stopb l x i = true.
Proof. intros (e & He & Hx & _). unfold stopb. rewrite He, Hx, bool_decide_true by done. apply orb_true_r. Qed.

Lemma stopb_false_busy x i : 0 <= i < 2 ^ k -> stopb l x i = false <-> busy l x i.
Proof.
  intros Hi. destruct (tab_get i Hi) as (e & He & _). unfold stopb, busy. rewrite He.
  rewrite orb_false_iff, bool_decide_eq_false. split; [intros []; by exists e|].
  intros (e' & [= <-] & ? & ?). done.
Qed.

(** A string is in one slot only. *)
Lemma holds_inj i j x d d' : holds l i x d -> holds l j x d' -> i = j /\ d = d'.
Proof.
  intros Hi Hj. destruct (tab_reach _ _ Ht i x d Hi) as (t & ? & <- & Hbl).
  destruct (tab_reach _ _ Ht j x d' Hj) as (t' & ? & <- & Hbl').
  assert (t = t') as ->.
  { destruct (Ztrichotomy t t') as [Hlt|[->|Hgt]]; [|done|].
    - specialize (Hbl' t ltac:(lia)). apply stopb_false_busy in Hbl'; [|apply slot_range].
      rewrite (holds_stop _ x d Hi) in Hbl'. discriminate.
    - specialize (Hbl t' ltac:(lia)). apply stopb_false_busy in Hbl; [|apply slot_range].
      rewrite (holds_stop _ x d' Hj) in Hbl. discriminate. }
  split; [done|]. destruct Hi as (e & He & _ & <-), Hj as (e' & He' & _ & <-). congruence.
Qed.

(** The first slot where a search for [x] stops, when the table has a free slot. *)
Lemma first_stop x : (nonnull l < length l)%nat -> exists t, 0 <= t < 2 ^ k /\
  stopb l x (slot k x t) = true /\ forall j, 0 <= j < t -> stopb l x (slot k x j) = false.
Proof.
  intros (i & e & Hi & He)%nonnull_free. pose proof (tab_k _ _ Ht). pose proof (tab_len _ _ Ht).
  pose proof (lookup_lt_Some _ _ _ Hi).
  destruct (probe_first k (home k x) (stopb l x) (Z.of_nat i)) as (t & ? & ? & ?); [lia|lia| |by exists t].
  unfold stopb. rewrite bget_lookup, Nat2Z.id, Hi, He by lia. done.
Qed.

(** What the first stop says about [x]. *)
Lemma first_stop_found x t e : 0 <= t < 2 ^ k ->
  (forall j, 0 <= j < t -> stopb l x (slot k x j) = false) ->
  bget l (slot k x t) = Some e -> nullb e = true -> forall i d, ~ holds l i x d.
Proof.
  intros Hr Hbl He Hn i d Hh. destruct (tab_reach _ _ Ht i x d Hh) as (t' & Ht' & Hi & Hbl').
  destruct (Ztrichotomy t t') as [Hlt|[->|Hgt]].
  - destruct (Hbl' t ltac:(lia)) as (e' & He' & Hn' & _). congruence.
  - destruct Hh as (e' & He' & Hx & _). rewrite Hi in He. simplify_eq.
    apply nullb_estr in Hx as [? _]. congruence.
  - specialize (Hbl t' ltac:(lia)). rewrite Hi, (holds_stop i x d Hh) in Hbl. discriminate.
Qed.

(** ** Storing an element for a string that is not in the table *)
Context (x : list Z) (t : Z) (e : element).
Hypothesis Hx : estr e = Some x.
Hypothesis Hfree : exists e0, bget l (slot k x t) = Some e0 /\ nullb e0 = true.
Let l' := <[Z.to_nat (slot k x t) := e]> l.

Lemma place_get i : 0 <= i < 2 ^ k -> bget l' i = if i =? slot k x t then Some e else bget l i.
Proof.
  intros Hi. pose proof (slot_range x t). pose proof (tab_len _ _ Ht). unfold l'.
  destruct (Z.eqb_spec i (slot k x t)) as [->|]; [apply bget_insert_eq; lia|apply bget_insert_ne; lia].
Qed.

Lemma place_holds i y d : holds l' i y d <->
  (i = slot k x t /\ y = x /\ d = data e) \/ holds l i y d.
Proof.
  destruct Hfree as (e0 & He0 & Hn0). split.
  - intros (e' & He' & Hy & Hd). pose proof (bget_Some _ _ _ He') as Hr. unfold l' in Hr.
    rewrite length_insert, (tab_len _ _ Ht) in Hr. rewrite place_get in He' by done.
    destruct (Z.eqb_spec i (slot k x t)) as [->|]; [left; simplify_eq; done|].
    right. by exists e'.
  - intros [(-> & -> & ->)|Hh].
    + exists e. rewrite place_get, Z.eqb_refl by apply slot_range. done.
    + pose proof (holds_range i y d Hh). destruct Hh as (e' & He' & Hy & Hd). exists e'.
      rewrite place_get by done. destruct (Z.eqb_spec i (slot k x t)) as [->|]; [|done].
      simplify_eq. apply nullb_estr in Hy as [? _]. congruence.
Qed.

Lemma place_busy y i : 0 <= i < 2 ^ k -> busy l y i -> busy l' y i.
Proof.
  intros Hi (e' & He' & Hn & Hy). exists e'. rewrite place_get by done.
  destruct (Z.eqb_spec i (slot k x t)) as [->|]; [|done].
  destruct Hfree as (e0 & He0 & Hn0). congruence.
Qed.

Lemma place_nonnull : nonnull l' = S (nonnull l).
Proof.
  destruct Hfree as (e0 & He0 & Hn0). pose proof (slot_range x t).
  rewrite bget_lookup in He0 by lia. pose proof (nonnull_insert l _ e0 e He0) as H'.
  apply nullb_estr in Hx as [Hn _]. rewrite Hn0, Hn in H'. unfold l'. lia.
Qed.
Hypothesis Hwe : wf_element e.
Hypothesis Hslot : 0 <= t < 2 ^ k.
Hypothesis Hpath : forall j, 0 <= j < t -> busy l x (slot k x j).

Lemma place_table : table l' k.
Proof.
  split; [apply (tab_k _ _ Ht)|unfold l'; rewrite length_insert; apply (tab_len _ _ Ht)| |].
  - apply Forall_insert; [apply (tab_elements _ _ Ht)|done].
  - intros i y d [(-> & -> & ->)|Hh]%place_holds.
    + exists t. split; [done|]. split; [done|]. intros j Hj. apply place_busy; [apply slot_range|auto].
    + destruct (tab_reach _ _ Ht i y d Hh) as (t' & ? & ? & Hbl). exists t'.
      split; [done|]. split; [done|]. intros j Hj. apply place_busy; [apply slot_range|auto].
Qed.
End Table.

(** ** The three probing loops *)

Lemma next_slot k h t : 6 <= k <= 60 -> 0 <= t -> t + 1 < 2 ^ k ->
  uint 64 (probe (2 ^ k) h t + (t + 1)) = probe (2 ^ k) h t + (t + 1) /\
  (probe (2 ^ k) h t + (t + 1)) `mod` 2 ^ k = probe (2 ^ k) h (t + 1) /\
  (t + 1 + 1 <=? 2 ^ k) = true.
Proof.
  intros Hk Ht Hlt. pose proof (pow2_gt0 k ltac:(lia)).
  assert (2 ^ k <= 2 ^ 60) by (apply Z.pow_le_mono_r; lia).
  pose proof (probe_range (2 ^ k) h t ltac:(done)).
  split; [apply uint_small; change (2 ^ 64) with (16 * 2 ^ 60); lia|].
  split; [symmetry; by apply probe_step|lia].
Qed.

Section Find.
Context (s : hashtable) (k : Z) (Ht : table (htable s) k) (Hc : capacity s = 2 ^ k).
Context (key x : list Z) (Hkey : cbuf key x).
Let len := Z.of_nat (length x).

Lemma find_round f i tries e : bget (htable s) i = Some e -> wf_element e ->
  find_loop (S f) s key len i tries =
  if stopb (htable s) x i then Ok (if nullb e then None else Some i)
  else if tries + 1 <=? capacity s
       then find_loop f s key len (Z.land (uint 64 (i + tries)) (capacity s - 1)) (tries + 1)
       else Ok None.
Proof.
  intros He Hw. cbn [find_loop]. unfold stopb. rewrite He. cbn [of_opt].
  destruct (deletedb e) eqn:Hd.
  { unfold deletedb, nullb, estr in *. by destruct (ekey e). }
  destruct (nullb e) eqn:Hn; [unfold nullb in Hn; by destruct (ekey e)|].
  unfold len. rewrite (key_matches_spec key x e) by done. unfold nullb, deletedb in *. cbn [orb of_opt].
  destruct (ekey e); try done; by destruct (bool_decide _).
Qed.

Lemma hash_home : hash key len (capacity s) = Some (home k x).
Proof.
  pose proof (tab_k _ _ Ht). destruct Hkey as [_ [rest ->]]. rewrite Hc. apply hash_spec. lia.
Qed.

Lemma find_spec : (nonnull (htable s) < length (htable s))%nat ->
  exists r, cli_hashtab_find s key len = Ok r /\
    match r with
    | Some i => exists d, holds (htable s) i x d
    | None => forall i d, ~ holds (htable s) i x d
    end.
Proof.
  intros Hfree. pose proof (tab_k _ _ Ht) as Hk. pose proof (tab_pos _ _ Ht) as Hpos.
  destruct (first_stop _ k Ht x Hfree) as (t & Hr & Hst & Hbl).
  destruct (tab_get _ k Ht (slot k x t)) as (e & He & Hw); [by apply (slot_range _ k Ht)|].
  exists (if nullb e then None else Some (slot k x t)). split.
  - unfold cli_hashtab_find. rewrite hash_home. cbn [of_opt]. rewrite <- (slot_0 _ k Ht x).
    set (R := fun i => @Ok (option Z) (match bget (htable s) i with
      Some e => if nullb e then None else Some i | None => None end)).
    transitivity (R (slot k x t)); [|unfold R; by rewrite He].
    refine (probe_loop_run (fun f => find_loop f s key len) R (stopb (htable s) x)
              (2 ^ k) (home k x) t _ _ Hr Hst Hbl _ _); [| |lia].
    + intros f j Hj E. pose proof (probe_range (2 ^ k) (home k x) j Hpos) as Hrj.
      destruct (tab_get _ k Ht _ Hrj) as (e' & He' & Hw').
      rewrite (find_round f _ _ e') by done. unfold R. by rewrite E, He'.
    + intros f j Hj Hlt E. pose proof (probe_range (2 ^ k) (home k x) j Hpos) as Hrj.
      destruct (tab_get _ k Ht _ Hrj) as (e' & He' & Hw').
      rewrite (find_round f _ _ e') by done. rewrite E, Hc.
      destruct (next_slot k (home k x) j Hk Hj Hlt) as (-> & En & ->).
      rewrite land_mask, En by lia. reflexivity.
  - destruct (nullb e) eqn:Hn; [by apply (first_stop_found _ k Ht x t e)|].
    exists (data e), e. split; [done|]. split; [|done]. unfold stopb in Hst. rewrite He, Hn in Hst.
    by apply bool_decide_eq_true in Hst.
Qed.

(** The search of [cli_hashtab_insert] in a table without deleted slots. *)
Hypothesis Hnd : Forall (fun e => deletedb e = false) (htable s).
Context (memkey : bool) (dat : Z).

(** What it does at the slot where it stops. *)
Definition insert_stop (i : Z) : res ((option Z * hashtable) + unit) :=
  match bget (htable s) i with
  | Some e =>
      if nullb e then let! r := insert_at memkey s key len dat i in Ok (inl r)
      else let! htab := of_opt (bset (htable s) i {| ekey := ekey e; data := dat; elen := elen e |}) in
           Ok (inl (Some i, {| htable := htab; capacity := capacity s; used := used s;
                               maxfill := maxfill s |}))
  | None => Undef
  end.

Lemma insert_round f i tries e : bget (htable s) i = Some e -> wf_element e -> deletedb e = false ->
  insert_loop (S f) memkey s key len dat i tries None =
  if stopb (htable s) x i then insert_stop i
  else if tries + 1 <=? capacity s
       then insert_loop f memkey s key len dat (uint 64 (i + tries) `mod` capacity s) (tries + 1) None
       else Ok (inr tt).
Proof.
  intros He Hw Hd. cbn [insert_loop]. unfold stopb, insert_stop. rewrite He. cbn [of_opt].
  destruct (nullb e) eqn:Hn; [unfold nullb in Hn; by destruct (ekey e)|].
  unfold len. rewrite (key_matches_spec key x e) by done. unfold nullb, deletedb in *. cbn [orb of_opt].
  destruct (ekey e); try done; by destruct (bool_decide _).
Qed.

Lemma insert_loop_spec : (nonnull (htable s) < length (htable s))%nat ->
  exists t, 0 <= t < 2 ^ k /\ stopb (htable s) x (slot k x t) = true /\
    (forall j, 0 <= j < t -> stopb (htable s) x (slot k x j) = false) /\
    insert_loop (S (Z.to_nat (capacity s))) memkey s key len dat (home k x) 1 None
      = insert_stop (slot k x t).
Proof.
  intros Hfree. pose proof (tab_k _ _ Ht) as Hk. pose proof (tab_pos _ _ Ht) as Hpos.
  destruct (first_stop _ k Ht x Hfree) as (t & Hr & Hst & Hbl). exists t.
  split; [done|]. split; [done|]. split; [done|].
  assert (forall j e, bget (htable s) j = Some e -> deletedb e = false) as Hnd'.
  { intros j e Hj. pose proof (bget_Some _ _ _ Hj). rewrite bget_lookup in Hj by lia.
    rewrite Forall_lookup in Hnd. eauto. }
  rewrite <- (slot_0 _ k Ht x).
  refine (probe_loop_run (fun f i tries => insert_loop f memkey s key len dat i tries None) insert_stop
            (stopb (htable s) x) (2 ^ k) (home k x) t _ _ Hr Hst Hbl _ _); [| |lia].
  + intros f j Hj E. pose proof (probe_range (2 ^ k) (home k x) j Hpos) as Hrj.
    destruct (tab_get _ k Ht _ Hrj) as (e' & He' & Hw').
    rewrite (insert_round f _ _ e') by eauto. by rewrite E.
  + intros f j Hj Hlt E. pose proof (probe_range (2 ^ k) (home k x) j Hpos) as Hrj.
    destruct (tab_get _ k Ht _ Hrj) as (e' & He' & Hw').
    rewrite (insert_round f _ _ e') by eauto. rewrite E, Hc.
    destruct (next_slot k (home k x) j Hk Hj Hlt) as (-> & En & ->).
    rewrite En. reflexivity.
Qed.
End Find.

(** ** Changing an element in place *)
Section Replace.
Context (l : list element) (k : Z) (Ht : table l k) (i : Z) (e e' : element).
Context (He : bget l i = Some e).
Let l' := <[Z.to_nat i := e']> l.

Lemma replace_get j : 0 <= j -> bget l' j = if j =? i then Some e' else bget l j.
Proof.
  intros Hj. pose proof (bget_Some _ _ _ He). unfold l'.
  destruct (Z.eqb_spec j i) as [->|]; [apply bget_insert_eq; lia|apply bget_insert_ne; lia].
Qed.

Lemma replace_holds j y d : holds l' j y d <->
  (j = i /\ estr e' = Some y /\ d = data e') \/ (j <> i /\ holds l j y d).
Proof.
  pose proof (bget_Some _ _ _ He). split.
  - intros (e0 & He0 & Hy & Hd). pose proof (bget_Some _ _ _ He0). rewrite replace_get in He0 by lia.
    destruct (Z.eqb_spec j i) as [->|]; [left; by simplify_eq|right]. split; [done|]. by exists e0.
  - intros [(-> & Hy & ->)|[Hne (e0 & He0 & Hy & Hd)]].
    + exists e'. rewrite replace_get, Z.eqb_refl by lia. done.
    + pose proof (bget_Some _ _ _ He0). exists e0. rewrite replace_get by lia.
      destruct (Z.eqb_spec j i); done.
Qed.

Context (Hn : nullb e = false) (Hn' : nullb e' = false).
Context (Hw' : wf_element e') (Hkeep : estr e' = estr e \/ estr e' = None).

Lemma replace_table : table l' k.
Proof.
  pose proof (bget_Some _ _ _ He) as Hi.
  split; [apply (tab_k _ _ Ht)|unfold l'; rewrite length_insert; apply (tab_len _ _ Ht)| |].
  { apply Forall_insert; [apply (tab_elements _ _ Ht)|done]. }
  intros j y d Hh. assert (exists d', holds l j y d') as [d' Hh'].
  { apply replace_holds in Hh as [(-> & Hy & ->)|[_ ?]]; [|by exists d].
    exists (data e), e. destruct Hkeep; [|congruence]. split; [done|]. split; [congruence|done]. }
  destruct (tab_reach _ _ Ht j y d' Hh') as (t & ? & ? & Hbl). exists t.
  split; [done|]. split; [done|]. intros j' Hj'. destruct (Hbl j' Hj') as (e0 & He0 & Hn0 & Hy0).
  pose proof (slot_range _ k Ht y j'). unfold busy. rewrite replace_get by lia.
  destruct (Z.eqb_spec (slot k y j') i) as [E|]; [|by exists e0].
  exists e'. split; [done|]. split; [done|]. rewrite E in He0. destruct Hkeep; congruence.
Qed.

Lemma replace_nonnull : nonnull l' = nonnull l.
Proof.
  pose proof (bget_Some _ _ _ He). rewrite bget_lookup in He by lia.
  pose proof (nonnull_insert l _ e e' He) as H'. rewrite Hn, Hn' in H'. unfold l'. lia.
Qed.
End Replace.

(** ** The map a table stands for *)

Definition content (l : list element) (m : gmap (list Z) Z) : Prop :=
  forall x d, m !! x = Some d <-> exists i, holds l i x d.

Record good (s : hashtable) (k : Z) : Prop := {
  good_table : table (htable s) k;
  good_cap : capacity s = 2 ^ k;
  good_used : used s = Z.of_nat (nonnull (htable s));
  good_maxfill : maxfill s = 8 * 2 ^ k / 10;
  good_room : used s <= maxfill s + 1 }.

Lemma maxfill_bounds k : 6 <= k -> 8 * 2 ^ k / 10 + 1 < 2 ^ k.
Proof.
  intros. assert (64 <= 2 ^ k) by (change 64 with (2 ^ 6); apply Z.pow_le_mono_r; lia).
  pose proof (Z.div_mod (8 * 2 ^ k) 10 ltac:(lia)).
  pose proof (Z.mod_pos_bound (8 * 2 ^ k) 10 ltac:(lia)). lia.
Qed.

Lemma good_free s k : good s k -> (nonnull (htable s) < length (htable s))%nat.
Proof.
  intros []. pose proof (tab_len _ _ good_table0). pose proof (tab_k _ _ good_table0).
  pose proof (maxfill_bounds k). lia.
Qed.

(** Looking up *)
Lemma content_find s k m key x : good s k -> content (htable s) m -> cbuf key x ->
  exists r, cli_hashtab_find s key (Z.of_nat (length x)) = Ok r /\
    match r with
    | Some i => exists e, bget (htable s) i = Some e /\ estr e = Some x /\ m !! x = Some (data e)
    | None => m !! x = None
    end.
Proof.
  intros Hg Hm Hkey.
  destruct (find_spec s k (good_table _ _ Hg) (good_cap _ _ Hg) key x Hkey) as (r & -> & Hr);
    [by eapply good_free|].
  exists r. split; [done|]. destruct r as [i|].
  - destruct Hr as (d & e & He & Hx & <-). exists e. split; [done|]. split; [done|].
    apply Hm. exists i, e. done.
  - destruct (m !! x) as [d|] eqn:E; [|done]. apply Hm in E as (i & Hi). by apply Hr in Hi.
Qed.

(** Removing *)
Lemma content_delete s k m key x : good s k -> content (htable s) m -> cbuf key x ->
  exists s', cli_hashtab_delete s key (Z.of_nat (length x)) = Ok s' /\ good s' k /\
    content (htable s') (delete x m).
Proof.
  intros Hg Hm Hkey. pose proof (good_table _ _ Hg) as Ht. unfold cli_hashtab_delete.
  destruct (content_find s k m key x Hg Hm Hkey) as (r & -> & Hr). destruct r as [i|].
  - destruct Hr as (e & He & Hx & Hd). rewrite He. cbn [of_opt].
    pose proof (bget_Some _ _ _ He). rewrite bset_is_Some by done. cbn [of_opt].
    eexists. split; [done|].
    set (e' := {| ekey := KDeleted; data := data e; elen := elen e |}).
    destruct (nullb_estr _ _ Hx) as [Hn _].
    pose proof (replace_holds (htable s) i e e' He) as Hh. split.
    + destruct Hg. split; cbn; try done; [by apply (replace_table _ k Ht i e); auto|].
      by rewrite (replace_nonnull _ i e e').
    + intros y d. cbn [htable]. setoid_rewrite Hh. rewrite lookup_delete_Some, (Hm y d). split.
      * intros (Hne & j & Hj). exists j. right. split; [|done]. intros ->. apply Hne.
        destruct Hj as (e0 & He0 & Hy & _). congruence.
      * intros (j & [(_ & Hy & _)|[Hne Hj]]); [by unfold estr in Hy; cbn in Hy|]. split; [|by exists j]. intros <-.
        apply Hne. apply (holds_inj _ k Ht j i x d (data e) Hj). by exists e.
  - exists s. split; [done|]. split; [done|]. by rewrite delete_id.
Qed.

(** ** Inserting *)

Definition no_deleted (l : list element) : Prop := Forall (fun e => deletedb e = false) l.

Definition fresh_element (x : list Z) (d : Z) : element :=
  {| ekey := KStr (x ++ [0]); data := d; elen := Z.of_nat (length x) |}.

Lemma fresh_element_ok x d : valid_str x ->
  estr (fresh_element x d) = Some x /\ wf_element (fresh_element x d) /\
  deletedb (fresh_element x d) = false.
Proof.
  intros Hx. unfold estr, wf_element, deletedb. cbn. rewrite cstr_app by done.
  split; [done|]. split; [by exists x|done].
Qed.

Lemma insert_at_spec s key x dat i : cbuf key x -> Z.of_nat (length x) < CLI_MAX_ALLOCATION ->
  0 <= i < Z.of_nat (length (htable s)) ->
  insert_at true s key (Z.of_nat (length x)) dat i =
  Ok (Some i, {| htable := <[Z.to_nat i := fresh_element x dat]> (htable s); capacity := capacity s;
                 used := used s + 1; maxfill := maxfill s |}).
Proof.
  intros [Hx [rest ->]] Hlen Hi. unfold insert_at, cli_malloc.
  destruct (Z.eqb_spec (Z.of_nat (length x) + 1) 0),
    (Z.ltb_spec CLI_MAX_ALLOCATION (Z.of_nat (length x) + 1)); try lia. cbn [orb negb].
  replace (Z.to_nat (Z.of_nat (length x) + 1)) with (S (length x)) by lia.
  rewrite strncpy_spec by done. cbn [of_opt].
  rewrite bset_is_Some by (rewrite length_app; cbn; lia). cbn [of_opt].
  rewrite bset_is_Some by done. cbn [of_opt]. do 4 f_equal. unfold fresh_element. do 2 f_equal.
  rewrite Nat2Z.id. rewrite insert_app_r_alt, Nat.sub_diag by lia. done.
Qed.

Lemma content_place l k m x t d : table l k -> content l m -> valid_str x ->
  0 <= t < 2 ^ k -> (exists e0, bget l (slot k x t) = Some e0 /\ nullb e0 = true) ->
  (forall i d, ~ holds l i x d) ->
  content (<[Z.to_nat (slot k x t) := fresh_element x d]> l) (<[x := d]> m).
Proof.
  intros Ht Hm Hx Hr Hfree Habs y d'. destruct (fresh_element_ok x d Hx) as (Hex & _ & _).
  setoid_rewrite (place_holds l k Ht x t (fresh_element x d) Hex Hfree). rewrite lookup_insert_Some.
  split.
  - intros [(-> & ->)|[_ (i & Hi)%Hm]]; [by eexists; left|]. exists i. by right.
  - intros (i & [(-> & -> & ->)|Hi]); [by left|]. right. split; [|apply Hm; by exists i].
    intros <-. by apply Habs in Hi.
Qed.

(** Insertion into a table that need not grow first. *)
Lemma insert_rounds_spec s k m key x dat : good s k -> used s <= maxfill s ->
  no_deleted (htable s) -> content (htable s) m -> cbuf key x ->
  Z.of_nat (length x) < CLI_MAX_ALLOCATION -> forall f mem,
  exists s' i, insert_rounds (S f) mem true s key (Z.of_nat (length x)) dat = Ok (Some i, s') /\
    good s' k /\ no_deleted (htable s') /\ content (htable s') (<[x := dat]> m) /\
    holds (htable s') i x dat /\ used s' <= used s + 1.
Proof.
  intros Hg Hroom Hnd Hm Hkey Hlen f mem. pose proof (good_table _ _ Hg) as Ht.
  pose proof (proj1 Hkey) as Hx. destruct (fresh_element_ok x dat Hx) as (Hex & Hew & Hed).
  cbn [insert_rounds]. rewrite (hash_home s k Ht (good_cap _ _ Hg) key x Hkey). cbn [of_opt].
  destruct (insert_loop_spec s k Ht (good_cap _ _ Hg) key x Hkey Hnd true dat) as (t & Hr & Hst & Hbl & ->);
    [by eapply good_free|].
  pose proof (slot_range _ k Ht x t) as Hi. destruct (tab_get _ k Ht _ Hi) as (e & He & Hwe).
  pose proof (bget_Some _ _ _ He) as Hlt. unfold insert_stop. rewrite He.
  destruct (nullb e) eqn:Hn.
  - rewrite insert_at_spec by done. do 2 eexists. split; [done|].
    assert (forall j, 0 <= j < t -> busy (htable s) x (slot k x j)) as Hpath.
    { intros j Hj. apply (stopb_false_busy _ k Ht); [by apply (slot_range _ k Ht)|auto]. }
    assert (exists e0, bget (htable s) (slot k x t) = Some e0 /\ nullb e0 = true) as Hfree by eauto.
    split; [|split; [by apply Forall_insert|split; [|split; [|by cbn]]]].
    + destruct Hg. split; cbn; try done; [by apply place_table| |lia].
      rewrite (place_nonnull _ k Ht x t) by done. lia.
    + cbn. apply (content_place _ k); try done. by apply (first_stop_found _ k Ht x t e).
    + cbn. apply (place_holds _ k Ht); [done|done|]. by left.
  - unfold stopb in Hst. rewrite He, Hn in Hst. apply bool_decide_eq_true in Hst.
    rewrite bset_is_Some by done. cbn [of_opt]. do 2 eexists. split; [done|].
    set (e' := {| ekey := ekey e; data := dat; elen := elen e |}).
    assert (estr e' = estr e) as Hse by done.
    pose proof (replace_holds (htable s) (slot k x t) e e' He) as Hh.
    split; [|split; [|split; [|split; [|cbn; lia]]]].
    + destruct Hg. split; cbn; try done; [by apply (replace_table _ k Ht _ e); auto|].
      by rewrite (replace_nonnull _ (slot k x t) e e').
    + apply Forall_insert; [done|]. by destruct (nullb_estr _ _ Hst).
    + intros y d. cbn [htable]. setoid_rewrite Hh. rewrite lookup_insert_Some, (Hm y d), Hse, Hst. split.
      * intros [(-> & ->)|[Hne (j & Hj)]]; [eexists; by left|]. exists j. right. split; [|done].
        intros ->. destruct Hj as (e0 & He0 & Hy & _). congruence.
      * intros (j & [(-> & [= ->] & ->)|[Hne Hj]]); [by left|]. right. split; [|by exists j].
        intros <-. apply Hne. apply (holds_inj _ k Ht j (slot k x t) x d (data e) Hj). by exists e.
    + apply Hh. left. split; [done|]. split; [congruence|done].
Qed.

(** ** Growing *)

Definition freeb (l : list element) (i : Z) : bool :=
  match bget l i with Some e => nullb e | None => false end.

(** The rehashing loop finds the first free slot of the chain. *)
Lemma rehash_spec l k x : table l k -> (nonnull l < length l)%nat -> exists t, 0 <= t < 2 ^ k /\
  freeb l (slot k x t) = true /\ (forall j, 0 <= j < t -> freeb l (slot k x j) = false) /\
  rehash_loop (S (Z.to_nat (2 ^ k))) l (2 ^ k) (home k x) 1 = Ok (Some (slot k x t)).
Proof.
  intros Ht (i & e & Hi & He)%nonnull_free. pose proof (tab_k _ _ Ht) as Hk.
  pose proof (tab_pos _ _ Ht) as Hpos. pose proof (tab_len _ _ Ht).
  pose proof (lookup_lt_Some _ _ _ Hi).
  destruct (probe_first k (home k x) (freeb l) (Z.of_nat i)) as (t & Hr & Hst & Hbl); [lia|lia| |].
  { unfold freeb. rewrite bget_lookup, Nat2Z.id, Hi by lia. done. }
  exists t. split; [done|]. split; [done|]. split; [done|]. rewrite <- (slot_0 _ k Ht x).
  refine (probe_loop_run (fun f => rehash_loop f l (2 ^ k)) (fun i => Ok (Some i)) (freeb l)
            (2 ^ k) (home k x) t _ _ Hr Hst Hbl _ _); [| |lia].
  - intros f j Hj E. unfold freeb in E. cbn [rehash_loop].
    destruct (bget l _) as [e'|]; [|done]. cbn [of_opt]. unfold nullb in E. by destruct (ekey e').
  - intros f j Hj Hlt E. pose proof (probe_range (2 ^ k) (home k x) j Hpos) as Hrj.
    destruct (tab_get _ k Ht _ Hrj) as (e' & He' & _). unfold freeb in E. rewrite He' in E.
    cbn [rehash_loop]. rewrite He'. cbn [of_opt].
    destruct (next_slot k (home k x) j Hk Hj Hlt) as (-> & En & _). rewrite En.
    replace (j + 1 <=? 2 ^ k) with true by lia. unfold nullb in E. by destruct (ekey e').
Qed.

Definition live (l : list element) (x : list Z) (d : Z) : Prop :=
  exists e, e ∈ l /\ estr e = Some x /\ data e = d.

Definition held (l : list element) (x : list Z) (d : Z) : Prop := exists i, holds l i x d.

Lemma grow_loop_spec k old : forall l u, Forall wf_element old -> NoDup (omap estr old) ->
  table l k -> no_deleted l -> Z.of_nat (nonnull l + length old) < 2 ^ k -> u = Z.of_nat (nonnull l) ->
  (forall x d, live old x d -> forall d', ~ held l x d') ->
  exists l', grow_loop old l (2 ^ k) u = Ok (Some (l', Z.of_nat (nonnull l'))) /\ table l' k /\
    no_deleted l' /\ (nonnull l' <= nonnull l + nonnull old)%nat /\
    forall x d, held l' x d <-> held l x d \/ live old x d.
Proof.
  induction old as [|e old IH]; intros l u Hwo Hnd Ht Hdel Hsz -> Hdisj; cbn [grow_loop].
  { exists l. split; [done|]. split; [done|]. split; [done|]. split; [lia|]. intros x d.
    split; [auto|]. intros [|(e & []%not_elem_of_nil & _)]; done. }
  apply Forall_cons in Hwo as [Hwe Hwo]. cbn [length nonnull] in Hsz |- *.
  assert (forall x d, live (e :: old) x d <-> (estr e = Some x /\ data e = d) \/ live old x d) as Hlive.
  { intros x d. unfold live. setoid_rewrite elem_of_cons. naive_solver. }
  destruct (estr e) as [x|] eqn:Hx.
  - assert (ekey e = KStr (x ++ [0]) /\ elen e = Z.of_nat (length x)) as [-> ->].
    { unfold estr, wf_element in *. destruct (ekey e); try done. destruct Hwe as (y & Hy & -> & ->).
      rewrite cstr_app in Hx by done. by simplify_eq. }
    destruct (nullb_estr _ _ Hx) as [Hn Hd]. rewrite Hn.
    pose proof (tab_k _ _ Ht). rewrite hash_spec by lia. cbn [of_opt]. fold (home k x).
    pose proof (tab_len _ _ Ht) as Hlen.
    destruct (rehash_spec l k x Ht) as (t & Hr & Hf & Hbl & ->); [lia|]. unfold freeb in *.
    pose proof (slot_range _ k Ht x t) as Hi. destruct (tab_get _ k Ht _ Hi) as (e0 & He0 & _).
    rewrite He0 in Hf. rewrite bset_is_Some by lia. cbn [of_opt].
    assert (forall d, ~ held l x d) as Habs by (intros d; eapply Hdisj, Hlive; by left).
    assert (forall j, 0 <= j < t -> busy l x (slot k x j)) as Hpath.
    { intros j Hj. specialize (Hbl j Hj).
      destruct (tab_get _ k Ht (slot k x j)) as (e1 & He1 & _); [by apply (slot_range _ k Ht)|].
      rewrite He1 in Hbl. exists e1. split; [done|]. split; [done|]. intros E.
      apply (Habs (data e1)). exists (slot k x j), e1. done. }
    assert (exists e0, bget l (slot k x t) = Some e0 /\ nullb e0 = true) as Hfree by eauto.
    pose proof (place_holds l k Ht x t e Hx Hfree) as Hh.
    pose proof (place_nonnull l k Ht x t e Hx Hfree) as Hnn.
    cbn [omap list_omap] in Hnd. rewrite Hx in Hnd. apply NoDup_cons in Hnd as [Hnx Hnd].
    edestruct IH as (l' & -> & Ht' & Hdel' & Hc' & Hh'); [done|done|by apply place_table| | | | |].
    { by apply Forall_insert. } { rewrite Hnn. lia. } { rewrite Hnn. lia. }
    { intros y d Hl d' (i & [(-> & -> & ->)|Hy]%Hh).
      - apply Hnx. destruct Hl as (e1 & He1 & Hx1 & _). apply list_elem_of_omap. eauto.
      - eapply Hdisj; [apply Hlive; by right|]. by exists i. }
    exists l'. split; [done|]. split; [done|]. split; [done|]. split; [lia|].
    intros y d. rewrite Hh', Hlive. unfold held. setoid_rewrite Hh. naive_solver.
  - assert (grow_loop (e :: old) l (2 ^ k) (Z.of_nat (nonnull l)) =
            grow_loop old l (2 ^ k) (Z.of_nat (nonnull l))) as Eg.
    { cbn [grow_loop]. unfold estr, wf_element in *. by destruct (ekey e). }
    cbn [grow_loop] in Eg. rewrite Eg. cbn [omap list_omap] in Hnd. rewrite Hx in Hnd.
    destruct (IH l (Z.of_nat (nonnull l))) as (l' & -> & Ht' & Hdel' & Hc' & Hh'); try done; [lia| |].
    { intros y d Hl. apply (Hdisj y d), Hlive. by right. }
    exists l'. split; [done|]. split; [done|]. split; [done|]. split; [destruct (nullb e); lia|].
    intros y d. rewrite Hh', Hlive. naive_solver.
Qed.

Lemma omap_NoDup l : (forall i j e e' x, l !! i = Some e -> l !! j = Some e' ->
  estr e = Some x -> estr e' = Some x -> i = j) -> NoDup (omap estr l).
Proof.
  induction l as [|a l IH]; intros H; [constructor|]. cbn.
  assert (NoDup (omap estr l)).
  { apply IH. intros i j e e' x Hi Hj ? ?. enough (S i = S j) by lia. by eapply H. }
  destruct (estr a) as [x|] eqn:E; [|done]. constructor; [|done].
  intros (e & (j & Hj)%list_elem_of_lookup & Hx)%list_elem_of_omap.
  enough (0 = S j)%nat by lia. by eapply (H 0%nat (S j) a e x).
Qed.

Lemma table_NoDup l k : table l k -> NoDup (omap estr l).
Proof.
  intros Ht. apply omap_NoDup. intros i j e e' x Hi Hj Hx Hx'.
  enough (Z.of_nat i = Z.of_nat j) by lia.
  eapply (holds_inj l k Ht _ _ x (data e) (data e')); eexists; rewrite bget_lookup, Nat2Z.id by lia; eauto.
Qed.

Lemma held_live l x d : held l x d <-> live l x d.
Proof.
  split.
  - intros (i & e & He & Hx & Hd). pose proof (bget_Some _ _ _ He). rewrite bget_lookup in He by lia.
    exists e. split; [by eapply list_elem_of_lookup_2|done].
  - intros (e & (i & Hi)%list_elem_of_lookup & Hx & Hd). exists (Z.of_nat i), e.
    rewrite bget_lookup, Nat2Z.id by lia. done.
Qed.

Lemma empty_table k : 6 <= k <= 60 ->
  table (replicate (Z.to_nat (2 ^ k)) empty_element) k /\
  forall x d, ~ held (replicate (Z.to_nat (2 ^ k)) empty_element) x d.
Proof.
  intros Hk. pose proof (pow2_gt0 k ltac:(lia)).
  assert (forall x d, ~ held (replicate (Z.to_nat (2 ^ k)) empty_element) x d) as Hempty.
  { intros x d (e & He & Hx & _)%held_live. apply elem_of_replicate in He as [-> _]. done. }
  split; [|done]. split; [done|rewrite length_replicate; lia| |].
  - apply Forall_forall. intros e [-> _]%elem_of_replicate. done.
  - intros i x d Hh. destruct (Hempty x d). by exists i.
Qed.

Lemma no_deleted_empty n : no_deleted (replicate n empty_element).
Proof. apply Forall_forall. intros e [-> _]%elem_of_replicate. done. Qed.

(** A successful growth doubles the table and keeps its contents; the
    "impossible" error never happens. *)
Lemma grow_spec s k m : good s k -> k <= 59 -> content (htable s) m ->
  exists s', cli_hashtab_grow true s = Ok (CL_SUCCESS, s') /\ good s' (k + 1) /\
    no_deleted (htable s') /\ content (htable s') m /\ used s' <= maxfill s' /\ used s' <= used s.
Proof.
  intros Hg Hk Hm. pose proof (good_table _ _ Hg) as Ht. pose proof (tab_k _ _ Ht).
  pose proof (pow2_gt0 k ltac:(lia)).
  assert (2 ^ (k + 1) = 2 * 2 ^ k) as E2 by (rewrite Z.pow_add_r by lia; lia).
  assert (2 ^ (k + 1) <= 2 ^ 60) by (apply Z.pow_le_mono_r; lia).
  assert (nearest_power (uint 64 (2 ^ k + 1)) = 2 ^ (k + 1)) as En.
  { rewrite uint_small by (change (2 ^ 64) with (16 * 2 ^ 60); lia).
    unfold nearest_power. change 64 with (2 ^ 6).
    apply (HashSetFacts.nearest_power_loop_spec (k + 1) _ (Z.to_nat (k - 5)));
      rewrite ?Z.add_simpl_r; lia. }
  unfold cli_hashtab_grow. rewrite (good_cap _ _ Hg), En. cbn [cli_calloc].
  replace (2 ^ (k + 1) =? 2 ^ k) with false by lia. cbn [orb negb].
  destruct (empty_table (k + 1)) as [Hte Hne]; [lia|].
  destruct (grow_loop_spec (k + 1) (htable s) (replicate (Z.to_nat (2 ^ (k + 1))) empty_element) 0)
    as (l' & -> & Ht' & Hnd' & Hc' & Hh').
  - apply (tab_elements _ _ Ht).
  - by apply (table_NoDup _ k).
  - done.
  - apply no_deleted_empty.
  - rewrite nonnull_replicate. pose proof (tab_len _ _ Ht). lia.
  - by rewrite nonnull_replicate.
  - intros x d _ d'. apply Hne.
  - eexists. split; [done|]. rewrite nonnull_replicate in Hc'.
    pose proof (good_used _ _ Hg). pose proof (good_room _ _ Hg). pose proof (good_maxfill _ _ Hg).
    pose proof (maxfill_bounds k ltac:(lia)).
    assert (uint 64 (2 ^ (k + 1) * 8) = 8 * 2 ^ (k + 1)) as Eu
      by (rewrite Z.mul_comm; apply uint_small; change (2 ^ 64) with (16 * 2 ^ 60); lia).
    assert (8 * 2 ^ (k + 1) / 10 >= 2 ^ k).
    { rewrite E2. apply Z.le_ge, Z.div_le_lower_bound; lia. }
    cbn [htable used maxfill capacity]. rewrite Eu.
    split; [split; cbn; try done; lia|]. split; [done|]. split; [|lia].
    intros x d. rewrite (Hm x d). change (held (htable s) x d <-> held l' x d).
    rewrite Hh', held_live. split; [auto|]. intros [Hx|]; [by apply Hne in Hx|done].
Qed.

(** Insertion in general: one round always suffices. *)
Lemma content_insert s k m key x dat f : good s k -> k <= 59 ->
  no_deleted (htable s) -> content (htable s) m -> cbuf key x ->
  Z.of_nat (length x) < CLI_MAX_ALLOCATION ->
  exists s' k' i, cli_hashtab_insert (S f) true true s key (Z.of_nat (length x)) dat = Ok (Some i, s') /\
    good s' k' /\ k <= k' <= k + 1 /\ (maxfill s < used s \/ k' = k) /\
    no_deleted (htable s') /\ content (htable s') (<[x := dat]> m) /\
    holds (htable s') i x dat /\ used s' <= used s + 1.
Proof.
  intros Hg Hk Hnd Hm Hkey Hlen. unfold cli_hashtab_insert.
  destruct (Z.ltb_spec (maxfill s) (used s)) as [Hover|Hroom].
  - destruct (grow_spec s k m Hg Hk Hm) as (s1 & -> & Hg1 & Hnd1 & Hm1 & Hr1 & Hu1).
    destruct (insert_rounds_spec s1 (k + 1) m key x dat Hg1 Hr1 Hnd1 Hm1 Hkey Hlen f true)
      as (s' & i & -> & ? & ? & ? & ? & ?).
    exists s', (k + 1), i. split; [done|]. split; [done|]. split; [lia|].
    repeat (split; [by auto|]). lia.
  - destruct (insert_rounds_spec s k m key x dat Hg Hroom Hnd Hm Hkey Hlen f true)
      as (s' & i & -> & ? & ? & ? & ? & ?).
    exists s', k, i. split; [done|]. split; [done|]. split; [lia|]. auto.
Qed.

(** A fresh table. *)
Lemma init_spec K s0 cap : 6 <= K <= 58 -> cap <= 2 ^ K -> exists s k,
  cli_hashtab_init true s0 cap = (0, s) /\ good s k /\ 6 <= k <= K /\ no_deleted (htable s) /\ content (htable s) ∅ /\ used s = 0.
Proof.
  intros HK (k & Hk & E & _)%(HashSetFacts.nearest_power_spec K); [|lia].
  assert (0 < 2 ^ k <= 2 ^ 58) by (split; [apply pow2_gt0|apply Z.pow_le_mono_r]; lia).
  unfold cli_hashtab_init. rewrite E. cbn. rewrite uint_small by (change (2 ^ 64) with (64 * 2 ^ 58); lia).
  eexists _, k. split; [done|]. destruct (empty_table k) as [Ht Hne]; [lia|].
  split; [|split; [done|split; [apply no_deleted_empty|split; [|done]]]].
  - split; cbn; try done; [by rewrite nonnull_replicate|]. pose proof (Z.div_pos (8 * 2 ^ k) 10). lia.
  - intros x d. rewrite lookup_empty. split; [done|]. intros Hh. by destruct (Hne x d).
Qed.

(** A search for a key the map does not have leaves the table as it is when it deletes. *)
Lemma content_delete_absent s k m key x : good s k -> content (htable s) m -> cbuf key x -> m !! x = None ->
  cli_hashtab_delete s key (Z.of_nat (length x)) = Ok s.
Proof.
  intros Hg Hm Hkey Hx. unfold cli_hashtab_delete. destruct (content_find s k m key x Hg Hm Hkey) as (r & -> & Hr).
  destruct r as [i|]; [|done]. destruct Hr as (e & _ & _ & E). congruence.
Qed.

(** A table of fewer than 2^50 entries that is about to grow is small. *)
Lemma growth_bound s k k' : good s k -> k <= k' <= k + 1 -> k <= 58 -> (maxfill s < used s \/ k' = k) -> used s < 2 ^ 50 -> k' <= 58.
Proof.
  intros Hg Hk1 Hk [Hover| ->] Hu; [|done]. rewrite (good_maxfill _ _ Hg) in Hover.
  assert (k < 51); [|lia]. pose proof (tab_k _ _ (good_table _ _ Hg)). apply (Z.pow_lt_mono_r_iff 2); [lia|lia|].
  pose proof (Z.div_mod (8 * 2 ^ k) 10 ltac:(lia)).
  pose proof (Z.mod_pos_bound (8 * 2 ^ k) 10 ltac:(lia)).
  change (2 ^ 51) with (2 * 2 ^ 50). change (2 ^ 50) with 1125899906842624 in *. lia.
Qed.

(** ** Histories *)

(** The operations, on a buffer that holds the string [x], its terminator and
    [rest]. *)
Inductive op :=
  | OInsert (x rest : list Z) (dat : Z)
  | ODelete (x rest : list Z)
  | OFind (x rest : list Z).

(** What an operation answers: the string and the data of the element it returns,
    [None] for NULL (a deletion returns nothing). *)
Definition answer (s : hashtable) (r : option Z) : res (option (list Z * Z)) :=
  match r with
  | None => Ok None
  | Some i => let! e := of_opt (bget (htable s) i) in let! x := of_opt (estr e) in Ok (Some (x, data e))
  end.

Definition run_op (s : hashtable) (o : op) : res (hashtable * option (list Z * Z)) :=
  match o with
  | OInsert x rest d =>
      let! (r, s) := cli_hashtab_insert 1 true true s (x ++ 0 :: rest) (Z.of_nat (length x)) d in
      let! a := answer s r in Ok (s, a)
  | ODelete x rest => let! s := cli_hashtab_delete s (x ++ 0 :: rest) (Z.of_nat (length x)) in Ok (s, None)
  | OFind x rest =>
      let! r := cli_hashtab_find s (x ++ 0 :: rest) (Z.of_nat (length x)) in
      let! a := answer s r in Ok (s, a)
  end.

Fixpoint run_ops (s : hashtable) (l : list op) : res (hashtable * list (option (list Z * Z))) :=
  match l with
  | [] => Ok (s, [])
  | o :: l => let! (s, a) := run_op s o in let! (s, t) := run_ops s l in Ok (s, a :: t)
  end.

(** The same operations on a map from strings to data. *)
Definition map_op (m : gmap (list Z) Z) (o : op) : gmap (list Z) Z * option (list Z * Z) :=
  match o with
  | OInsert x _ d => (<[x := d]> m, Some (x, d))
  | ODelete x _ => (delete x m, None)
  | OFind x _ => (m, (fun d => (x, d)) <$> m !! x)
  end.

Fixpoint map_ops (m : gmap (list Z) Z) (l : list op) : list (option (list Z * Z)) :=
  match l with
  | [] => []
  | o :: l => let (m', a) := map_op m o in a :: map_ops m' l
  end.

Definition string_of (o : op) : list Z := match o with OInsert x _ _ | ODelete x _ | OFind x _ => x end.
Definition inserts (o : op) : bool := match o with OInsert _ _ _ => true | _ => false end.

Definition op_ok (o : op) : Prop :=
  valid_str (string_of o) /\ (inserts o = true -> Z.of_nat (length (string_of o)) < CLI_MAX_ALLOCATION).

(** After the deletion of a string that is in the map nothing is inserted. *)
Fixpoint legal (m : gmap (list Z) Z) (l : list op) : Prop :=
  match l with
  | [] => True
  | o :: l =>
      op_ok o /\ legal (map_op m o).1 l /\
      match o with ODelete x _ => is_Some (m !! x) -> Forall (fun o => inserts o = false) l | _ => True end
  end.

Lemma cbuf_app x rest : valid_str x -> cbuf (x ++ 0 :: rest) x.
Proof. split; [done|by exists rest]. Qed.

Lemma holds_answer s i x d : holds (htable s) i x d -> answer s (Some i) = Ok (Some (x, d)).
Proof. intros (e & He & Hx & <-). unfold answer. rewrite He. cbn [of_opt]. by rewrite Hx. Qed.

Lemma find_answer s k m x rest : good s k -> content (htable s) m -> valid_str x ->
  run_op s (OFind x rest) = Ok (s, (map_op m (OFind x rest)).2).
Proof.
  intros Hg Hm Hx. cbn [run_op map_op snd].
  destruct (content_find s k m _ x Hg Hm (cbuf_app x rest Hx)) as (r & -> & Hr). destruct r as [i|].
  - destruct Hr as (e & He & Hs & ->). by rewrite (holds_answer s i x (data e)) by (by exists e).
  - by rewrite Hr.
Qed.

(** Deletions and searches, whatever was deleted before. *)
Lemma run_read_ops l : forall s k m, good s k -> content (htable s) m -> legal m l ->
  Forall (fun o => inserts o = false) l -> exists s', run_ops s l = Ok (s', map_ops m l).
Proof.
  induction l as [|o l IH]; intros s k m Hg Hm; [by eexists|]. intros ([Hx _] & Hl & _) [Ho HF]%Forall_cons.
  cbn [run_ops map_ops]. destruct o as [x rest d|x rest|x rest]; [done|..]; cbn [string_of] in Hx.
  - cbn [run_op map_op fst] in *. destruct (content_delete s k m _ x Hg Hm (cbuf_app x rest Hx)) as (s1 & -> & Hg1 & Hm1).
    destruct (IH s1 k _ Hg1 Hm1 Hl HF) as (s' & ->). by exists s'.
  - rewrite (find_answer s k m) by done. destruct (IH s k m Hg Hm Hl HF) as (s' & E). cbn [map_op snd] in *. rewrite E. by exists s'.
Qed.

Lemma run_ops_spec l : forall s k m, good s k -> no_deleted (htable s) -> content (htable s) m -> legal m l ->
  used s + Z.of_nat (length l) < 2 ^ 50 -> k <= 58 -> exists s', run_ops s l = Ok (s', map_ops m l).
Proof.
  induction l as [|o l IH]; intros s k m Hg Hnd Hm; [by eexists|]. intros ([Hx Hlen] & Hl & Hdel) Hsz Hk.
  cbn [length] in Hsz. cbn [run_ops map_ops]. destruct o as [x rest d|x rest|x rest]; cbn [string_of] in Hx.
  - cbn [run_op map_op fst inserts string_of] in *.
    destruct (content_insert s k m (x ++ 0 :: rest) x d 0 Hg) as (s1 & k1 & i & -> & Hg1 & Hk1 & Hgrow & Hnd1 & Hm1 & Hh & Hu);
      [lia|done|done|by apply cbuf_app|by apply Hlen|].
    rewrite (holds_answer s1 i x d Hh). destruct (IH s1 k1 _ Hg1 Hnd1 Hm1 Hl) as (s' & ->); [lia|eapply (growth_bound s k); eauto; lia|].
    by exists s'.
  - cbn [run_op map_op fst] in *. destruct (m !! x) as [d|] eqn:E.
    + destruct (content_delete s k m _ x Hg Hm (cbuf_app x rest Hx)) as (s1 & -> & Hg1 & Hm1).
      destruct (run_read_ops l s1 k _ Hg1 Hm1 Hl) as (s' & ->); [by apply Hdel; eauto|]. by exists s'.
    + rewrite (content_delete_absent s k m) by (done || by apply cbuf_app). rewrite delete_id in Hl |- * by done.
      destruct (IH s k m Hg Hnd Hm Hl) as (s' & ->); [lia|done|]. by exists s'.
  - rewrite (find_answer s k m) by done. destruct (IH s k m Hg Hnd Hm Hl) as (s' & E); [lia|done|].
    cbn [map_op snd] in *. rewrite E. by exists s'.
Qed.

End HashTabFacts.

Module HashTabProps.
Import HashTab HashTabFacts.

(** C21. The hash table implements a map from C strings to integers, as long as
    nothing is inserted after a deletion that removed an entry.  In a fresh table
    of any size up to 2^58, every sequence of fewer than 2^50 such insertions,
    deletions and searches runs to its end when there is memory (each search ends
    within one pass, growing keeps every entry, rehashing never fails), and every
    operation answers what the map answers: an insertion returns an element with
    the string and its data, a search the element with the string and the data
    last inserted for it, or NULL exactly if there is none. *)
Theorem hashtab_implements_map s0 cap l :
  cap <= 2 ^ 58 -> legal ∅ l -> Z.of_nat (length l) < 2 ^ 50 ->
  exists s1 s, cli_hashtab_init true s0 cap = (0, s1) /\ run_ops s1 l = Ok (s, map_ops ∅ l).
Proof.
  intros Hcap Hl Hn.
  destruct (init_spec 58 s0 cap ltac:(lia) Hcap) as (s1 & k & E & Hg & Hk & Hnd & Hm & Hu).
  destruct (run_ops_spec l s1 k ∅ Hg Hnd Hm Hl) as (s & E2); [lia|lia|]. by exists s1, s.
Qed.

Definition no_table : hashtable := {| htable := []; capacity := 0; used := 0; maxfill := 0 |}.

(** Updates, searches and deletions of keys that are absent alternate; the last
    deletion removes an entry. *)
Definition sample_history : list op :=
  [OInsert [97] [] 5; ODelete [98] []; OInsert [98; 99] [1] 6; OFind [97] [7]; OInsert [97] [] 7; OFind [98] [];
   ODelete [98; 99] []; OFind [98; 99] []; OFind [97] [0; 1]].

Lemma hashtab_implements_map_witness :
  exists s1 s, cli_hashtab_init true no_table 10 = (0, s1) /\
    run_ops s1 sample_history =
      Ok (s, [Some ([97], 5); None; Some ([98; 99], 6); Some ([97], 5); Some ([97], 7); None; None; None; Some ([97], 7)]).
Proof.
  apply (hashtab_implements_map no_table 10 sample_history).
  - vm_compute; congruence.
  - assert (forall x, bool_decide (Forall (fun c => 0 < c < 256) x) = true -> valid_str x) as Hv by (intros x; apply bool_decide_eq_true).
    repeat split; try (apply Hv; reflexivity); intros; try reflexivity; try discriminate; repeat constructor.
    all: destruct H as [d Hd]; discriminate Hd.
  - reflexivity.
Defined.

(** The search of [cli_hashtab_insert] never leaves a deleted slot: it moves on
    neither [idx] nor [tries]. *)
Lemma insert_stuck_on_deleted s e memkey key len dat idx tries :
  bget (htable s) idx = Some e -> ekey e = KDeleted -> tries <= capacity s ->
  forall fuel deleted, insert_loop fuel memkey s key len dat idx tries deleted = NoFuel.
Proof.
  intros He Hd Ht fuel. induction fuel as [|f IH]; intros deleted; [done|].
  cbn [insert_loop]. rewrite He. cbn [of_opt]. rewrite Hd.
  destruct (Z.leb_spec tries (capacity s)); [|lia]. apply IH.
Qed.

(** So inserting a key again after deleting it never returns. *)
Lemma reinsert_after_delete_hangs :
  (let (_, s1) := cli_hashtab_init true no_table 10 in
   let! (s2, _) := run_ops s1 [OInsert [97] [] 5; ODelete [97] []] in
   cli_hashtab_insert 1 true true s2 [97; 0] 1 5) = NoFuel.
Proof. vm_compute. reflexivity. Qed.

(** [cli_hashtab_clear] frees every key but zeroes only [capacity] bytes of the
    table: here the key stored in it is freed, its slot still points to it, and
    the next search for it reads freed memory. *)
Lemma clear_leaves_freed_keys :
  (let (_, s1) := cli_hashtab_init true no_table 10 in
   let! (s2, _) := run_ops s1 [OInsert [97] [] 5] in
   let! s3 := of_opt (cli_hashtab_clear s2) in cli_hashtab_find s3 [97; 0] 1) = Undef.
Proof. vm_compute. reflexivity. Qed.

(** Keys are compared as C strings: two binary keys of equal length that differ
    after a zero byte are the same key once in the same slot chain. *)
Lemma binary_keys_compare_equal :
  key_matches [0; 2; 0] 2 {| ekey := KStr [0; 0; 0]; data := 1; elen := 2 |} = Some true.
Proof. reflexivity. Qed.

End HashTabProps.
