(* ===== verification/Climap.v ===== *)
(** Maps with values, [struct cli_map] of libclamav/hashtab.c: a hash table from
    keys of one size to indices, and an array of values.  Bytecode programs use
    them through the API calls map_new, map_addkey, map_setvalue, ... *)
From stdpp Require Import base numbers list list_numbers gmap.
From Stdlib Require Import ZArith Lia Bool.
From S2P Require Import Prelude Probing Dlp Hashset Hashtab.
Import Errors Alloc.
Local Open Scope Z_scope.

Module CliMap.
Import HashTab.

(** [struct cli_map_value]: a NULL value is [None]. *)
Record map_value := { value : option (list Z); vsize : Z }.

(** [struct cli_map]; of the union [u], [sized_values] is used when [valuesize]
    is not zero and [unsized_values] otherwise. *)
Record cli_map := {
  htab : hashtable; sized_values : list Z; unsized_values : list map_value;
  nvalues : Z; keysize : Z; valuesize : Z; last_insert : Z; last_find : Z }.

Definition zero_table : hashtable := {| htable := []; capacity := 0; used := 0; maxfill := 0 |}.

Definition zero_map : cli_map :=
  {| htab := zero_table; sized_values := []; unsized_values := []; nvalues := 0; keysize := 0;
     valuesize := 0; last_insert := 0; last_find := 0 |}.

(** [cli_map_init]; the result of [cli_hashtab_init] is ignored. *)
Definition cli_map_init (mem : bool) (m : cli_map) (ksize vsize capacity : Z) : Z * cli_map :=
  if (ksize <=? 0) || (vsize <? 0) || (capacity <=? 0) then (- CL_EARG, m) else
  let (_, h) := cli_hashtab_init mem zero_table 16 in
  (0, {| htab := h; sized_values := []; unsized_values := []; nvalues := 0; keysize := ksize;
         valuesize := vsize; last_insert := -1; last_find := -1 |}).

Definition with_last_insert (m : cli_map) (i : Z) : cli_map :=
  {| htab := htab m; sized_values := sized_values m; unsized_values := unsized_values m;
     nvalues := nvalues m; keysize := keysize m; valuesize := valuesize m; last_insert := i;
     last_find := last_find m |}.

Definition with_last_find (m : cli_map) (i : Z) : cli_map :=
  {| htab := htab m; sized_values := sized_values m; unsized_values := unsized_values m;
     nvalues := nvalues m; keysize := keysize m; valuesize := valuesize m;
     last_insert := last_insert m; last_find := i |}.

Definition with_values (m : cli_map) (sv : list Z) (uv : list map_value) : cli_map :=
  {| htab := htab m; sized_values := sv; unsized_values := uv;
     nvalues := nvalues m; keysize := keysize m; valuesize := valuesize m;
     last_insert := last_insert m; last_find := last_find m |}.

Definition empty_value : map_value := {| value := None; vsize := 0 |}.

(** [realloc] to [size] bytes, where the new bytes are whatever they are. *)
Definition realloc_bytes (l : list Z) (size : Z) (junk : list Z) : list Z :=
  take (Z.to_nat size) (l ++ resize (Z.to_nat size) 0 junk).

(** [memset(p + off, 0, n)] and [memcpy(p + off, src, n)] inside one block. *)
Definition write_at (l : list Z) (off : Z) (src : list Z) : option (list Z) :=
  assert* (0 <=? off) && (off + Z.of_nat (length src) <=? Z.of_nat (length l)) in
  Some (take (Z.to_nat off) l ++ src ++ drop (Z.to_nat off + length src) l).

(** The part of [cli_map_addkey] that makes room for one more value. *)
Definition grow_values (mem : bool) (junk : list Z) (m : cli_map) (n : Z) : option (option cli_map) :=
  if negb (valuesize m =? 0) then
    if negb (cli_realloc mem (uint 32 (n * valuesize m))) then Some None else
    let v := realloc_bytes (sized_values m) (uint 32 (n * valuesize m)) junk in
    let* v := write_at v (uint 32 ((n - 1) * valuesize m)) (replicate (Z.to_nat (valuesize m)) 0) in
    Some (Some (with_values m v (unsized_values m)))
  else
    if negb (cli_realloc mem (uint 64 (n * 16))) then Some None else
    let v := take (Z.to_nat n) (resize (Z.to_nat n) empty_value (unsized_values m)) in
    let* v := bset v (n - 1) empty_value in
    Some (Some (with_values m (sized_values m) v)).

Definition cli_map_addkey (mem : bool) (junk : list Z) (m : cli_map) (key : list Z) (ksize : Z)
    : res (Z * cli_map) :=
  if negb (keysize m =? ksize) then Ok (- CL_EARG, m) else
  let! el := cli_hashtab_find (htab m) key ksize in
  match el with
  | Some i =>
      let! e := of_opt (bget (htable (htab m)) i) in
      Ok (0, with_last_insert m (sint 32 (data e)))
  | None =>
      let n := uint 32 (nvalues m + 1) in
      let! g := of_opt (grow_values mem junk m n) in
      match g with
      | None => Ok (- CL_EMEM, m)
      | Some m =>
          let! (el, h) := cli_hashtab_insert 1 mem mem (htab m) key ksize (uint 32 (n - 1)) in
          let m := {| htab := h; sized_values := sized_values m; unsized_values := unsized_values m;
                      nvalues := n; keysize := keysize m; valuesize := valuesize m;
                      last_insert := last_insert m; last_find := last_find m |} in
          match el with
          | None => Ok (- CL_EMEM, m)
          | Some _ => Ok (1, with_last_insert m (sint 32 (n - 1)))
          end
      end
  end.

Definition cli_map_removekey (m : cli_map) (key : list Z) (ksize : Z) : res (Z * cli_map) :=
  if negb (keysize m =? ksize) then Ok (- CL_EARG, m) else
  let! el := cli_hashtab_find (htab m) key ksize in
  match el with
  | None => Ok (0, m)
  | Some i =>
      let! e := of_opt (bget (htable (htab m)) i) in
      if (nvalues m <=? data e) || (data e <? 0) then Ok (- CL_EARG, m) else
      let! m := (if valuesize m =? 0 then
                   let! v := of_opt (bset (unsized_values m) (data e) empty_value) in
                   Ok (with_values m (sized_values m) v)
                 else
                   let! v := of_opt (write_at (sized_values m) (data e * valuesize m)
                                       (replicate (Z.to_nat (valuesize m)) 0)) in
                   Ok (with_values m v (unsized_values m))) in
      let! h := cli_hashtab_delete (htab m) key ksize in
      Ok (1, {| htab := h; sized_values := sized_values m; unsized_values := unsized_values m;
                nvalues := nvalues m; keysize := keysize m; valuesize := valuesize m;
                last_insert := last_insert m; last_find := last_find m |})
  end.

(** [cli_map_setvalue]: [value] is the memory readable at the pointer.  The
    comparison [last_insert >= nvalues] is unsigned, the product of two [int]s
    must not overflow. *)
Definition cli_map_setvalue (mem : bool) (m : cli_map) (val : list Z) (size : Z)
    : option (Z * cli_map) :=
  if (negb (valuesize m =? 0) && negb (valuesize m =? size))
     || (nvalues m <=? uint 32 (last_insert m)) || (last_insert m <? 0)
  then Some (- CL_EARG, m)
  else if negb (valuesize m =? 0) then
    assert* size <=? Z.of_nat (length val) in
    assert* last_insert m * valuesize m <? 2 ^ 31 in
    let* v := write_at (sized_values m) (last_insert m * valuesize m) (take (Z.to_nat size) val) in
    Some (0, with_values m v (unsized_values m))
  else
    if negb (cli_malloc mem (uint 64 size)) then
      let* old := bget (unsized_values m) (last_insert m) in
      let* v := bset (unsized_values m) (last_insert m) {| value := None; vsize := vsize old |} in
      Some (- CL_EMEM, with_values m (sized_values m) v)
    else
      assert* size <=? Z.of_nat (length val) in
      let* v := bset (unsized_values m) (last_insert m)
                  {| value := Some (take (Z.to_nat size) val); vsize := size |} in
      Some (0, with_values m (sized_values m) v).

Definition cli_map_find (m : cli_map) (key : list Z) (ksize : Z) : res (Z * cli_map) :=
  if negb (keysize m =? ksize) then Ok (- CL_EARG, m) else
  let! el := cli_hashtab_find (htab m) key ksize in
  match el with
  | None => Ok (0, m)
  | Some i =>
      let! e := of_opt (bget (htable (htab m)) i) in
      Ok (1, with_last_find m (sint 32 (data e)))
  end.

Definition cli_map_getvalue_size (m : cli_map) : option Z :=
  if negb (valuesize m =? 0) then Some (valuesize m)
  else if (last_find m <? 0) || (nvalues m <=? uint 32 (last_find m)) then Some (- CL_EARG)
  else let* v := bget (unsized_values m) (last_find m) in Some (vsize v).

(** [cli_map_getvalue]: the pointer into the value array, here the offset in the
    sized values or the block of the unsized one; [None] inside for NULL. *)
Inductive value_ptr := SizedAt (off : Z) | Block (v : option (list Z)).

Definition cli_map_getvalue (m : cli_map) : option (option value_ptr) :=
  if (last_find m <? 0) || (nvalues m <=? uint 32 (last_find m)) then Some None
  else if negb (valuesize m =? 0) then
    assert* last_find m * valuesize m <? 2 ^ 31 in Some (Some (SizedAt (last_find m * valuesize m)))
  else let* v := bget (unsized_values m) (last_find m) in Some (Some (Block (value v))).

Definition cli_map_delete (m : cli_map) : option cli_map :=
  let* _ := cli_hashtab_free (htab m) in Some zero_map.

End CliMap.

(** * Proofs *)
Module CliMapFacts.
Import HashTab HashTabFacts CliMap.

(** ** Blocks of equal size in a byte array *)

Definition chunk (v : nat) (l : list Z) (i : nat) : list Z := take v (drop (i * v) l).

Lemma write_at_chunk v l j src : length src = v -> (S j * v <= length l)%nat ->
  exists l', write_at l (Z.of_nat (j * v)) src = Some l' /\ length l' = length l /\
    chunk v l' j = src /\ forall i, i <> j -> chunk v l' i = chunk v l i.
Proof.
  intros Hs Hj. unfold write_at.
  destruct (Z.leb_spec 0 (Z.of_nat (j * v))),
    (Z.leb_spec (Z.of_nat (j * v) + Z.of_nat (length src)) (Z.of_nat (length l))); try lia. cbn [andb].
  rewrite Nat2Z.id, Hs. eexists. split; [reflexivity|].
  assert (length (take (j * v) l) = (j * v)%nat) as Hl1 by (rewrite length_take; lia).
  split; [rewrite !length_app, Hl1, Hs, length_drop; lia|]. split.
  - unfold chunk. rewrite drop_app_length' by done. by apply take_app_length'.
  - intros i Hne. unfold chunk. apply list_eq. intros n.
    destruct (decide (n < v)%nat) as [Hn|]; [|by rewrite !lookup_take_ge by lia].
    rewrite !lookup_take_lt by lia. rewrite !lookup_drop.
    destruct (decide (i < j)%nat).
    + rewrite lookup_app_l by (rewrite Hl1; nia). rewrite lookup_take_lt by nia. done.
    + assert (S j * v <= i * v)%nat by (apply Nat.mul_le_mono_r; lia).
      rewrite lookup_app_r by lia. rewrite lookup_app_r by lia. rewrite lookup_drop. f_equal. lia.
Qed.

Lemma chunk_app v l l' i : (S i * v <= length l)%nat -> chunk v (l ++ l') i = chunk v l i.
Proof.
  intros Hi. unfold chunk. rewrite drop_app_le by lia. rewrite take_app_le; [done|].
  rewrite length_drop. lia.
Qed.

(** ** The invariant *)

(** What is stored at index [i]: NULL or bytes. *)
Definition value_at (m : cli_map) (i : Z) : option (list Z) :=
  if valuesize m =? 0
  then match bget (unsized_values m) i with Some v => value v | None => None end
  else Some (chunk (Z.to_nat (valuesize m)) (sized_values m) (Z.to_nat i)).

(** The value of a key that was added but not set. *)
Definition initial_value (m : cli_map) : option (list Z) :=
  if valuesize m =? 0 then None else Some (replicate (Z.to_nat (valuesize m)) 0).

Record storage (m : cli_map) : Prop := {
  st_vs : 0 <= valuesize m < 2 ^ 31;
  st_n : 0 <= nvalues m;
  st_sized : valuesize m <> 0 -> Z.of_nat (length (sized_values m)) = nvalues m * valuesize m;
  st_unsized : valuesize m = 0 -> Z.of_nat (length (unsized_values m)) = nvalues m;
  st_bound : nvalues m * (if valuesize m =? 0 then 16 else valuesize m) <= CLI_MAX_ALLOCATION }.

Record map_ok (m : cli_map) (k : Z) (H : gmap (list Z) Z) : Prop := {
  mk_table : good (htab m) k;
  mk_nodel : no_deleted (htable (htab m));
  mk_content : content (htable (htab m)) H;
  mk_range : forall x i, H !! x = Some i -> 0 <= i < nvalues m;
  mk_inj : forall x y i, H !! x = Some i -> H !! y = Some i -> x = y;
  mk_k : k <= 40;
  mk_used : used (htab m) <= nvalues m;
  mk_storage : storage m }.

(** The map from keys to values. *)
Definition represents (m : cli_map) (M : gmap (list Z) (option (list Z))) : Prop :=
  exists k H, map_ok m k H /\ M = value_at m <$> H.

Lemma nvalues_bound m : storage m -> nvalues m <= CLI_MAX_ALLOCATION.
Proof.
  intros [? ? _ _ Hb]. destruct (Z.eqb_spec (valuesize m) 0); nia.
Qed.

(** Room for one more value. *)
Definition room (m : cli_map) : Prop :=
  (nvalues m + 1) * (if valuesize m =? 0 then 16 else valuesize m) <= CLI_MAX_ALLOCATION.

Lemma grow_values_spec junk m : storage m -> room m ->
  exists m', grow_values true junk m (nvalues m + 1) = Some (Some m') /\
    htab m' = htab m /\ nvalues m' = nvalues m /\ keysize m' = keysize m /\
    valuesize m' = valuesize m /\ last_insert m' = last_insert m /\ last_find m' = last_find m /\
    (valuesize m <> 0 -> Z.of_nat (length (sized_values m')) = (nvalues m + 1) * valuesize m) /\
    (valuesize m = 0 -> Z.of_nat (length (unsized_values m')) = nvalues m + 1) /\
    value_at m' (nvalues m) = initial_value m /\
    forall i, 0 <= i < nvalues m -> value_at m' i = value_at m i.
Proof.
  intros Hst Hroom. destruct Hst as [Hvs Hn Hsz Hus _]. unfold grow_values, room, initial_value, cli_realloc in *.
  unfold CLI_MAX_ALLOCATION in *.
  destruct (Z.eqb_spec (valuesize m) 0) as [E0|E0]; cbn [negb].
  - rewrite uint_small by (change (2 ^ 64) with 18446744073709551616; lia).
    destruct (Z.eqb_spec ((nvalues m + 1) * 16) 0), (Z.ltb_spec 184549376 ((nvalues m + 1) * 16)); try lia.
    cbn [orb negb]. specialize (Hus E0).
    rewrite take_ge by (rewrite length_resize; lia).
    rewrite bset_is_Some by (rewrite length_resize; lia).
    eexists. split; [done|]. do 6 (split; [done|]). split; [done|]. split.
    { intros _. cbn. rewrite length_insert, length_resize. lia. }
    replace (nvalues m + 1 - 1) with (nvalues m) by lia. unfold value_at. cbn. rewrite E0. cbn. split.
    + rewrite bget_insert_eq by (rewrite length_resize; lia). done.
    + intros i Hi. rewrite bget_insert_ne by lia. rewrite !bget_lookup by lia.
      rewrite lookup_resize by lia. done.
  - assert (0 < valuesize m) by lia. specialize (Hsz E0).
    rewrite !uint_small by (change (2 ^ 32) with 4294967296; nia).
    destruct (Z.eqb_spec ((nvalues m + 1) * valuesize m) 0),
      (Z.ltb_spec 184549376 ((nvalues m + 1) * valuesize m)); try nia. cbn [orb negb].
    set (v := realloc_bytes _ _ _).
    assert (v = sized_values m ++ take (Z.to_nat (valuesize m))
                  (resize (Z.to_nat ((nvalues m + 1) * valuesize m)) 0 junk)) as Ev.
    { unfold v, realloc_bytes. rewrite take_app_ge by nia. f_equal. f_equal. nia. }
    assert (length v = Z.to_nat ((nvalues m + 1) * valuesize m)) as Hlv.
    { rewrite Ev, length_app, length_take, length_resize. nia. }
    replace ((nvalues m + 1 - 1) * valuesize m)
      with (Z.of_nat (Z.to_nat (nvalues m) * Z.to_nat (valuesize m))) by nia.
    destruct (write_at_chunk (Z.to_nat (valuesize m)) v (Z.to_nat (nvalues m))
                (replicate (Z.to_nat (valuesize m)) 0)) as (v' & -> & Hl' & Heq & Hne);
      [apply length_replicate|nia|].
    eexists. split; [done|]. do 6 (split; [done|]). split; [intros _; cbn; rewrite Hl', Hlv; nia|].
    split; [done|]. unfold value_at. cbn. rewrite (proj2 (Z.eqb_neq _ _) E0). split.
    + by rewrite Heq.
    + intros i Hi. f_equal. rewrite Hne by lia. rewrite Ev. apply chunk_app. nia.
Qed.

(** ** The operations *)

(** The key [x] is current: it was just added and is at [last_insert]. *)
Definition current (m : cli_map) (H : gmap (list Z) Z) (x : list Z) : Prop :=
  H !! x = Some (last_insert m).

Lemma map_lookup m k H key x : map_ok m k H -> cbuf key x -> keysize m = Z.of_nat (length x) ->
  exists r, cli_hashtab_find (htab m) key (keysize m) = Ok r /\
    match r with
    | Some j => exists e, bget (htable (htab m)) j = Some e /\ H !! x = Some (data e)
    | None => H !! x = None
    end.
Proof.
  intros Hm Hkey ->. destruct (content_find (htab m) k H key x) as (r & -> & Hr);
    [apply Hm|apply Hm|done|]. exists r. split; [done|].
  destruct r; [|done]. destruct Hr as (e & He & _ & Hd). by exists e.
Qed.

Lemma index_int m k H x i : map_ok m k H -> H !! x = Some i -> sint 32 i = i /\ uint 32 i = i.
Proof.
  intros Hm Hi. pose proof (mk_range _ _ _ Hm x i Hi).
  pose proof (nvalues_bound m (mk_storage _ _ _ Hm)). unfold CLI_MAX_ALLOCATION in *.
  split; [apply sint_small|apply uint_small];
    try change (2 ^ (32 - 1)) with 2147483648; try change (2 ^ 32) with 4294967296; lia.
Qed.

Lemma map_ok_last_insert m k H i : map_ok m k H -> map_ok (with_last_insert m i) k H.
Proof. intros [? ? ? ? ? ? ? []]. split; try done. Qed.

Lemma map_addkey_spec junk m k H key x : map_ok m k H -> room m -> cbuf key x ->
  keysize m = Z.of_nat (length x) -> keysize m < CLI_MAX_ALLOCATION ->
  exists m' k' H', cli_map_addkey true junk m key (keysize m) =
      Ok (match H !! x with Some _ => 0 | None => 1 end, m') /\
    map_ok m' k' H' /\ current m' H' x /\ keysize m' = keysize m /\ valuesize m' = valuesize m /\
    value_at m' <$> H' =
      match H !! x with
      | Some _ => value_at m <$> H
      | None => <[x := initial_value m]> (value_at m <$> H)
      end.
Proof.
  intros Hm Hroom Hkey Hks Hlen. unfold cli_map_addkey. rewrite Z.eqb_refl. cbn [negb].
  pose proof (mk_storage _ _ _ Hm) as Hst. pose proof (nvalues_bound m Hst).
  pose proof (st_n _ Hst). unfold CLI_MAX_ALLOCATION in *.
  destruct (map_lookup m k H key x Hm Hkey Hks) as (r & -> & Hr). destruct r as [j|].
  - destruct Hr as (e & -> & Hd). rewrite Hd. cbn [of_opt].
    exists (with_last_insert m (sint 32 (data e))), k, H.
    destruct (index_int m k H x _ Hm Hd) as [E _]. rewrite E.
    split; [done|]. split; [by apply map_ok_last_insert|]. done.
  - rewrite Hr. rewrite (uint_small 32 (nvalues m + 1)) by (change (2 ^ 32) with 4294967296; lia).
    destruct (grow_values_spec junk m Hst Hroom)
      as (m1 & -> & Eh & En & Ek & Ev & Eli & Elf & Hsz & Hus & Hnew & Hold). cbn [of_opt].
    replace (nvalues m + 1 - 1) with (nvalues m) by lia. rewrite Eh, Hks.
    rewrite (uint_small 32 (nvalues m)) by (change (2 ^ 32) with 4294967296; lia).
    destruct (content_insert (htab m) k H key x (nvalues m) 0)
      as (h & k' & j & -> & Hg' & Hk' & Hgrow & Hnd' & Hc' & _ & Hu');
      [apply Hm|pose proof (mk_k _ _ _ Hm); lia|apply Hm|apply Hm|done|unfold CLI_MAX_ALLOCATION; lia|].
    eexists _, k', (<[x := nvalues m]> H). split; [reflexivity|].
    rewrite sint_small by (try change (2 ^ (32 - 1)) with 2147483648; lia).
    split; [|split; [apply lookup_insert_eq|split; [cbn; lia|split; [done|]]]].
    + split; cbn; try done.
      * intros y i [[<- <-]|[_ Hy]]%lookup_insert_Some; [lia|].
        pose proof (mk_range _ _ _ Hm y i Hy). lia.
      * intros y z i [[<- <-]|[Hny Hy]]%lookup_insert_Some [[<- Hi]|[Hnz Hz]]%lookup_insert_Some; try done.
        -- pose proof (mk_range _ _ _ Hm z _ Hz). lia.
        -- pose proof (mk_range _ _ _ Hm y _ Hy). lia.
        -- by apply (mk_inj _ _ _ Hm y z i).
      * destruct Hgrow as [Hover|Ekk]; [|pose proof (mk_k _ _ _ Hm); lia].
        rewrite (good_maxfill _ _ (mk_table _ _ _ Hm)) in Hover. pose proof (mk_used _ _ _ Hm).
        assert (k < 30); [|lia]. apply (Z.pow_lt_mono_r_iff 2); [lia|lia|].
        pose proof (Z.div_mod (8 * 2 ^ k) 10 ltac:(lia)).
        pose proof (Z.mod_pos_bound (8 * 2 ^ k) 10 ltac:(lia)).
        change (2 ^ 30) with 1073741824. lia.
      * pose proof (mk_used _ _ _ Hm). lia.
      * split; cbn; rewrite ?Ev; try done; [apply Hst|lia].
    + rewrite fmap_insert. f_equal; [by rewrite <- Hnew; unfold value_at; cbn|].
      apply map_fmap_ext. intros y i Hy. pose proof (mk_range _ _ _ Hm y i Hy).
      rewrite <- Hold by done. done.
Qed.

(** A value of a size the map accepts. *)
Definition size_ok (m : cli_map) (val : list Z) (size : Z) : Prop :=
  0 < size <= Z.of_nat (length val) /\
  if valuesize m =? 0 then size <= CLI_MAX_ALLOCATION else size = valuesize m.

(** Storing at one index changes the value of one key. *)
Lemma fmap_update (m m' : cli_map) (H : gmap (list Z) Z) (x : list Z) (i : Z) (v : option (list Z)) :
  (forall x y i, H !! x = Some i -> H !! y = Some i -> x = y) -> H !! x = Some i ->
  value_at m' i = v ->
  (forall y j, H !! y = Some j -> j <> i -> value_at m' j = value_at m j) ->
  value_at m' <$> H = <[x := v]> (value_at m <$> H).
Proof.
  intros Hinj Hx Hv Hne. apply map_eq. intros y. rewrite lookup_fmap.
  destruct (decide (x = y)) as [->|Hxy].
  - rewrite lookup_insert_eq, Hx. cbn. by rewrite Hv.
  - rewrite lookup_insert_ne, lookup_fmap by done. destruct (H !! y) as [j|] eqn:Hy; [|done].
    cbn. f_equal. apply (Hne y j Hy). intros ->. by apply Hxy, (Hinj x y i).
Qed.

Lemma setvalue_spec m k H x val size : map_ok m k H -> current m H x -> size_ok m val size ->
  exists m', cli_map_setvalue true m val size = Some (0, m') /\ map_ok m' k H /\
    keysize m' = keysize m /\ valuesize m' = valuesize m /\
    value_at m' <$> H = <[x := Some (take (Z.to_nat size) val)]> (value_at m <$> H).
Proof.
  intros Hm Hx [Hsz Hvs]. unfold current in Hx. pose proof (mk_storage _ _ _ Hm) as Hst.
  pose proof (mk_range _ _ _ Hm x _ Hx) as Hr. destruct (index_int m k H x _ Hm Hx) as [_ Eu].
  pose proof (st_bound _ Hst) as Hbound. unfold CLI_MAX_ALLOCATION in Hbound.
  unfold cli_map_setvalue. rewrite Eu.
  replace (nvalues m <=? last_insert m) with false by lia.
  replace (last_insert m <? 0) with false by lia. rewrite !orb_false_r.
  destruct (Z.eqb_spec (valuesize m) 0) as [E0|E0]; cbn [negb andb].
  - unfold cli_malloc. rewrite uint_small
      by (change (2 ^ 64) with 18446744073709551616; unfold CLI_MAX_ALLOCATION in *; lia).
    destruct (Z.eqb_spec size 0), (Z.ltb_spec CLI_MAX_ALLOCATION size); try lia. cbn [orb negb].
    replace (size <=? Z.of_nat (length val)) with true by lia.
    pose proof (st_unsized _ Hst E0). rewrite bset_is_Some by lia.
    eexists. split; [done|]. split; [|split; [done|split; [done|]]].
    + destruct Hm. split; cbn; try done. destruct Hst. split; cbn; try done.
      intros. by rewrite length_insert.
    + apply (fmap_update _ _ _ _ (last_insert m)); [apply Hm|done| |].
      * unfold value_at. cbn. rewrite E0. cbn. by rewrite bget_insert_eq by lia.
      * intros y j Hy Hne. pose proof (mk_range _ _ _ Hm y j Hy). unfold value_at. cbn. rewrite E0. cbn.
        by rewrite bget_insert_ne by lia.
  - rewrite <- Hvs, Z.eqb_refl. cbn [negb]. rewrite Hvs in *. pose proof (st_sized _ Hst E0).
    replace (valuesize m <=? Z.of_nat (length val)) with true by lia.
    replace (last_insert m * valuesize m <? 2 ^ 31) with true by (change (2 ^ 31) with 2147483648; nia).
    replace (last_insert m * valuesize m)
      with (Z.of_nat (Z.to_nat (last_insert m) * Z.to_nat (valuesize m))) by nia.
    destruct (write_at_chunk (Z.to_nat (valuesize m)) (sized_values m) (Z.to_nat (last_insert m))
                (take (Z.to_nat (valuesize m)) val)) as (v' & -> & Hl' & Heq & Hne);
      [rewrite length_take; lia|nia|].
    eexists. split; [done|]. split; [|split; [done|split; [done|]]].
    + destruct Hm. split; cbn; try done. destruct Hst. split; cbn; try done. intros. lia.
    + apply (fmap_update _ _ _ _ (last_insert m)); [apply Hm|done| |]; unfold value_at; cbn;
        rewrite (proj2 (Z.eqb_neq _ _) E0); [by rewrite Heq|].
      intros y j Hy Hjne. pose proof (mk_range _ _ _ Hm y j Hy). f_equal. apply Hne. lia.
Qed.

(** What a program reads through the pointer it gets. *)
Definition read_value (m : cli_map) (p : value_ptr) : option (list Z) :=
  match p with
  | SizedAt off => Some (take (Z.to_nat (valuesize m)) (drop (Z.to_nat off) (sized_values m)))
  | Block v => v
  end.

Lemma getvalue_at m i : storage m -> 0 <= i < nvalues m ->
  exists p, cli_map_getvalue (with_last_find m i) = Some (Some p) /\
    read_value (with_last_find m i) p = value_at m i.
Proof.
  intros Hst Hi. pose proof (st_bound _ Hst) as Hbound. pose proof (nvalues_bound m Hst).
  unfold CLI_MAX_ALLOCATION in *. pose proof (st_vs _ Hst).
  unfold cli_map_getvalue, value_at. cbn [with_last_find last_find nvalues valuesize unsized_values].
  rewrite uint_small by (change (2 ^ 32) with 4294967296; lia).
  replace (i <? 0) with false by lia. replace (nvalues m <=? i) with false by lia. cbn [orb].
  destruct (Z.eqb_spec (valuesize m) 0) as [E0|E0]; cbn [negb].
  - destruct (bget_is_Some (unsized_values m) i) as [v ->];
      [pose proof (st_unsized _ Hst E0); lia|]. by exists (Block (value v)).
  - replace (i * valuesize m <? 2 ^ 31) with true by (change (2 ^ 31) with 2147483648; nia).
    eexists. split; [done|]. unfold read_value, chunk. cbn. do 3 f_equal. nia.
Qed.

Lemma getvalue_spec m k H key x : map_ok m k H -> cbuf key x -> keysize m = Z.of_nat (length x) ->
  match H !! x with
  | Some i =>
      exists m' p, cli_map_find m key (keysize m) = Ok (1, m') /\
        cli_map_getvalue m' = Some (Some p) /\ read_value m' p = value_at m i
  | None => cli_map_find m key (keysize m) = Ok (0, m)
  end.
Proof.
  intros Hm Hkey Hks. unfold cli_map_find. rewrite Z.eqb_refl. cbn [negb].
  destruct (map_lookup m k H key x Hm Hkey Hks) as (r & -> & Hr). destruct r as [j|]; [|by rewrite Hr].
  destruct Hr as (e & -> & Hd). rewrite Hd. cbn [of_opt].
  destruct (index_int m k H x _ Hm Hd) as [E Eu]. rewrite E.
  destruct (getvalue_at m (data e)) as (p & Ep & Hp); [apply Hm|by apply (mk_range _ _ _ Hm x)|].
  by exists (with_last_find m (data e)), p.
Qed.

End CliMapFacts.

Module CliMapProps.
Import HashTab HashTabFacts CliMap CliMapFacts.

Lemma map_represents_init m0 ksize vsize capacity : 0 < ksize -> 0 <= vsize < 2 ^ 31 -> 0 < capacity ->
  exists m, cli_map_init true m0 ksize vsize capacity = (0, m) /\ represents m ∅ /\
    keysize m = ksize /\ valuesize m = vsize /\ nvalues m = 0.
Proof.
  intros Hk Hv Hc. unfold cli_map_init.
  replace ((ksize <=? 0) || (vsize <? 0) || (capacity <=? 0)) with false by lia.
  destruct (init_spec 6 zero_table 16) as (h & k & -> & Hg & Hkk & Hnd & Hct & Hu); [lia|lia|].
  eexists. split; [done|]. split; [|done]. exists k, ∅. split; [|by rewrite fmap_empty].
  split; cbn; try done; lia.
Qed.

(** A map behaves as a finite map from keys to values.  When [m] stands for
    [M], [cli_map_addkey] followed by [cli_map_setvalue] never fails while there
    is room, returns 1 exactly for a new key, and gives a map that stands for
    [M] with the value stored under the key; in it [cli_map_find] returns 1
    exactly for the keys of the map, and the pointer of [cli_map_getvalue] then
    reads the stored value.  Keys are strings of the map's key size, values have
    the map's value size or any size if that is zero. *)
Theorem cli_map_put_get junk m M key x val size :
  represents m M -> room m -> cbuf key x -> keysize m = Z.of_nat (length x) ->
  keysize m < CLI_MAX_ALLOCATION -> size_ok m val size ->
  exists m1 m2 rc, cli_map_addkey true junk m key (keysize m) = Ok (rc, m1) /\
    (rc = 0 <-> is_Some (M !! x)) /\ (rc = 1 <-> M !! x = None) /\
    cli_map_setvalue true m1 val size = Some (0, m2) /\
    represents m2 (<[x := Some (take (Z.to_nat size) val)]> M) /\
    forall key' y, cbuf key' y -> keysize m = Z.of_nat (length y) ->
      match (<[x := Some (take (Z.to_nat size) val)]> M) !! y with
      | Some v => exists m3 p, cli_map_find m2 key' (keysize m) = Ok (1, m3) /\
                    cli_map_getvalue m3 = Some (Some p) /\ read_value m3 p = v
      | None => cli_map_find m2 key' (keysize m) = Ok (0, m2)
      end.
Proof.
  intros (k & H & Hm & ->) Hroom Hkey Hks Hlen Hsz.
  destruct (map_addkey_spec junk m k H key x Hm Hroom Hkey Hks Hlen)
    as (m1 & k1 & H1 & E1 & Hm1 & Hcur & Ek1 & Ev1 & HM1).
  destruct (setvalue_spec m1 k1 H1 x val size Hm1 Hcur) as (m2 & E2 & Hm2 & Ek2 & Ev2 & HM2).
  { unfold size_ok in *. by rewrite Ev1. }
  assert (value_at m2 <$> H1 = <[x := Some (take (Z.to_nat size) val)]> (value_at m <$> H)) as HM.
  { rewrite HM2, HM1. destruct (H !! x); [done|]. apply insert_insert_eq. }
  exists m1, m2, (match H !! x with Some _ => 0 | None => 1 end). split; [done|].
  rewrite lookup_fmap.
  split; [destruct (H !! x); cbn; split; try done; by intros []|].
  split; [by destruct (H !! x)|]. split; [done|]. rewrite <- HM.
  split; [by exists k1, H1|]. intros key' y Hkey' Hy. rewrite lookup_fmap.
  pose proof (getvalue_spec m2 k1 H1 key' y Hm2 Hkey') as Hget.
  rewrite Ek2, Ek1 in Hget. specialize (Hget Hy). by destruct (H1 !! y).
Qed.

Lemma cli_map_put_get_witness :
  exists m m1 m2 m3 p, cli_map_init true zero_map 2 3 1 = (0, m) /\
    cli_map_addkey true [] m [97; 98; 0] 2 = Ok (1, m1) /\
    cli_map_setvalue true m1 [7; 8; 9] 3 = Some (0, m2) /\
    cli_map_find m2 [97; 98; 0] 2 = Ok (1, m3) /\ cli_map_getvalue m3 = Some (Some p) /\
    read_value m3 p = Some [7; 8; 9].
Proof.
  destruct (map_represents_init zero_map 2 3 1) as (m & E & Hr & Ek & Ev & En);
    [reflexivity|split; [discriminate|reflexivity]|reflexivity|].
  assert (cbuf [97; 98; 0] [97; 98]) as Hc.
  { split; [repeat constructor; vm_compute; congruence|by exists []]. }
  destruct (cli_map_put_get [] m ∅ [97; 98; 0] [97; 98] [7; 8; 9] 3 Hr)
    as (m1 & m2 & rc & E1 & _ & Hrc & E2 & _ & Hget);
    [unfold room; rewrite Ev, En; discriminate|exact Hc|rewrite Ek; reflexivity
    |rewrite Ek; reflexivity|unfold size_ok; rewrite Ev; split; [split; [reflexivity|discriminate]|reflexivity]|].
  specialize (Hget _ _ Hc). rewrite Ek in Hget, E1. specialize (Hget eq_refl).
  rewrite lookup_insert_eq in Hget. destruct Hget as (m3 & p & E3 & E4 & E5).
  exists m, m1, m2, m3, p. rewrite (proj2 Hrc eq_refl) in E1.
  split; [exact E|]. split; [exact E1|]. split; [exact E2|]. split; [exact E3|]. split; [exact E4|exact E5].
Defined.

End CliMapProps.
