(* ===== verification/VmStack.v ===== *)
(** The stack of the bytecode interpreter: the chunked allocator
    [cli_stack_alloc] / [cli_stack_free] of libclamav/bytecode_vm.c.

    A stack is a list of chunks of 64 KiB.  Each allocation ends with a 16-bit
    trailer that saves the size (in words of 8 bytes) of the allocation before
    it; the size of the last one is in [last_size]. *)
From stdpp Require Import base numbers list list_numbers.
From Stdlib Require Import ZArith Lia Bool.
From S2P Require Import Prelude.
Import Alloc.
Local Open Scope Z_scope.

Module Stack.

Definition STACK_CHUNKSIZE : Z := 65536.

(** [struct stack_chunk]: an identity for its address, [used], and the bytes of
    [u.data] as a function. *)
Record chunk := { cid : Z; used : Z; cdata : Z -> Z }.

(** [struct stack]: the chunks, newest first, and [last_size]; [fresh] is the
    identity of the next chunk. *)
Record stack := { chunks : list chunk; last_size : Z; fresh : Z }.

Definition empty_stack : stack := {| chunks := []; last_size := 0; fresh := 1 |}.

(** 16-bit accesses inside the data of a chunk. *)
Definition put16 (c : chunk) (off v : Z) : option chunk :=
  assert* (0 <=? off) && (off + 2 <=? STACK_CHUNKSIZE) in
  Some {| cid := cid c; used := used c;
          cdata := fun i => if i =? off then uint 8 v
                            else if i =? off + 1 then uint 8 (v / 256) else cdata c i |}.

Definition get16 (c : chunk) (off : Z) : option Z :=
  assert* (0 <=? off) && (off + 2 <=? STACK_CHUNKSIZE) in
  Some (uint 8 (cdata c off) + 256 * uint 8 (cdata c (off + 1))).

Definition set_used (c : chunk) (u : Z) : chunk := {| cid := cid c; used := u; cdata := cdata c |}.

(** [bytes = (bytes + sizeof(uint16_t) + sizeof(align_t)) & ~(sizeof(align_t)-1)],
    stored in an [unsigned]. *)
Definition round_bytes (bytes : Z) : Z := uint 32 ((bytes + 2 + 8) / 8 * 8).

(** [cli_stack_alloc]: the address (chunk, offset), or NULL, and the stack;
    [mem] says whether the C library has memory for a chunk, [junk] what a
    fresh chunk holds. *)
Definition cli_stack_alloc (mem : bool) (junk : Z -> Z) (st : stack) (bytes : Z)
    : option (option (Z * Z) * stack) :=
  let bytes := round_bytes bytes in
  let last_size_off := uint 16 (bytes - 2) in
  let in_new_chunk :=
    if STACK_CHUNKSIZE <=? bytes then Some (None, st)
    else if negb (cli_malloc mem 65552) then Some (None, st)
    else
      let* c := put16 {| cid := fresh st; used := bytes; cdata := junk |} last_size_off (last_size st) in
      Some (Some (fresh st, 0),
            {| chunks := c :: chunks st; last_size := uint 16 (bytes / 8); fresh := fresh st + 1 |}) in
  match chunks st with
  | c :: rest =>
      if uint 32 (used c + bytes) <=? STACK_CHUNKSIZE then
        let* c' := put16 c (uint 32 (used c + last_size_off)) (last_size st) in
        Some (Some (cid c, used c),
              {| chunks := set_used c' (uint 32 (used c + bytes)) :: rest;
                 last_size := uint 16 (bytes / 8); fresh := fresh st |})
      else in_new_chunk
  | [] => in_new_chunk
  end.

(** [cli_stack_free]; the boolean is false when the call only warns. *)
Definition cli_stack_free (st : stack) (data : Z * Z) : option (bool * stack) :=
  match chunks st with
  | [] => Some (false, st)
  | c :: rest =>
      if negb ((fst data =? cid c) && (used c =? snd data + last_size st * 8)) then Some (false, st) else
      let* saved := get16 c (used c - 2) in
      if used c <? last_size st * 8 then Some (false, st) else
      let used' := uint 32 (used c - last_size st * 8) in
      Some (true, {| chunks := if used' =? 0 then rest else set_used c used' :: rest;
                     last_size := saved; fresh := fresh st |})
  end.

Definition cli_stack_destroy (st : stack) : stack :=
  {| chunks := []; last_size := last_size st; fresh := fresh st |}.

End Stack.

(** * Proofs *)
Module StackFacts.
Import Stack.

(** A live allocation: chunk, offset and size in bytes. *)
Record region := { r_chunk : Z; r_off : Z; r_size : Z }.

Lemma put_get16 c off v c' : 0 <= v < 2 ^ 16 -> put16 c off v = Some c' -> get16 c' off = Some v.
Proof.
  unfold put16, get16. intros Hv. destruct (_ && _); [|done]. intros [= <-]. cbn.
  rewrite Z.eqb_refl. replace (off + 1 =? off) with false by lia. rewrite Z.eqb_refl.
  rewrite !uint_uint by lia. f_equal. unfold uint. change (2 ^ 8) with 256.
  rewrite (Z.mod_small (v / 256)) by (split; [apply Z.div_pos|apply Z.div_lt_upper_bound]; lia).
  pose proof (Z.div_mod v 256). lia.
Qed.

Lemma get16_other c off v c' j : put16 c off v = Some c' -> j + 2 <= off \/ off + 2 <= j ->
  get16 c' j = get16 c j.
Proof.
  unfold put16, get16. destruct (_ && _); [|done]. intros [= <-] Hj. cbn.
  replace (j =? off) with false by lia. replace (j =? off + 1) with false by lia.
  replace (j + 1 =? off) with false by lia. by replace (j + 1 =? off + 1) with false by lia.
Qed.

Lemma get16_used c u j : get16 (set_used c u) j = get16 c j.
Proof. done. Qed.

(** The regions of one chunk, newest first: they tile [0, used), each trailer
    holds the size of the allocation made before. *)
Fixpoint tiles (c : chunk) (top : Z) (sizes : list Z) (below : Z) : Prop :=
  match sizes with
  | [] => top = 0
  | n :: sizes' =>
      0 < n <= 8191 /\ 8 * n <= top <= STACK_CHUNKSIZE /\
      get16 c (top - 2) = Some (hd below sizes') /\ tiles c (top - 8 * n) sizes' below
  end.

Lemma tiles_ext c c' sizes below : forall top, (forall j, j + 2 <= top -> get16 c' j = get16 c j) ->
  tiles c top sizes below -> tiles c' top sizes below.
Proof.
  induction sizes as [|n sizes IH]; intros top Hj; cbn [tiles]; [done|].
  intros (Hn & Ht & Hg & Hrest). split; [done|]. split; [done|]. split; [rewrite Hj by lia; done|].
  apply IH; [|done]. intros j Hjt. apply Hj. lia.
Qed.

Fixpoint wf_chunks (cs : list chunk) (ss : list (list Z)) : Prop :=
  match cs, ss with
  | [], [] => True
  | c :: cs', s :: ss' =>
      s <> [] /\ tiles c (used c) s (hd 0 (concat ss')) /\
      (forall c', c' ∈ cs' -> cid c' < cid c) /\ wf_chunks cs' ss'
  | _, _ => False
  end.

(** [ss] lists the sizes in words of the live allocations of each chunk. *)
Definition wf (st : stack) (ss : list (list Z)) : Prop :=
  wf_chunks (chunks st) ss /\ last_size st = hd 0 (concat ss) /\
  forall c, c ∈ chunks st -> cid c < fresh st.

Fixpoint tile_regions (c : chunk) (top : Z) (sizes : list Z) : list region :=
  match sizes with
  | [] => []
  | n :: sizes' =>
      {| r_chunk := cid c; r_off := top - 8 * n; r_size := 8 * n |}
      :: tile_regions c (top - 8 * n) sizes'
  end.

Fixpoint regions (cs : list chunk) (ss : list (list Z)) : list region :=
  match cs, ss with
  | c :: cs', s :: ss' => tile_regions c (used c) s ++ regions cs' ss'
  | _, _ => []
  end.

Definition disjoint_regions (r r' : region) : Prop :=
  r_chunk r <> r_chunk r' \/ r_off r + r_size r <= r_off r' \/ r_off r' + r_size r' <= r_off r.

(** Two stacks that differ in dead bytes only. *)
Definition chunk_equiv (c c' : chunk) : Prop :=
  cid c' = cid c /\ used c' = used c /\ forall j, j + 2 <= used c -> get16 c' j = get16 c j.

Definition stack_equiv (st st' : stack) : Prop :=
  Forall2 chunk_equiv (chunks st) (chunks st') /\ last_size st' = last_size st.

Lemma chunk_equiv_refl c : chunk_equiv c c.
Proof. done. Qed.

Lemma tile_regions_below c sizes below : forall top r, tiles c top sizes below ->
  r ∈ tile_regions c top sizes -> r_chunk r = cid c /\ 0 <= r_off r /\ r_off r + r_size r <= top.
Proof.
  induction sizes as [|n sizes IH]; intros top r; cbn [tiles tile_regions].
  - by intros _ []%not_elem_of_nil.
  - intros (Hn & Ht & _ & Hrest) [->|Hr]%elem_of_cons; cbn; [lia|].
    destruct (IH _ _ Hrest Hr) as (? & ? & ?). lia.
Qed.

Lemma regions_chunk cs ss r : wf_chunks cs ss -> r ∈ regions cs ss -> exists c, c ∈ cs /\ r_chunk r = cid c.
Proof.
  revert ss. induction cs as [|c cs IH]; intros [|s ss]; cbn; try (by intros _ []%not_elem_of_nil).
  intros (_ & Ht & _ & Hw) [Hr|Hr]%elem_of_app.
  - exists c. split; [left|]. by destruct (tile_regions_below _ _ _ _ _ Ht Hr).
  - destruct (IH ss Hw Hr) as (c' & Hc' & ?). exists c'. split; [by right|done].
Qed.

Lemma wf_last_size st ss : wf st ss -> 0 <= last_size st < 2 ^ 16.
Proof.
  intros (Hw & -> & _). destruct (chunks st) as [|c cs], ss as [|s ss]; cbn in Hw; try done.
  destruct Hw as (Hne & Ht & _). destruct s as [|n s]; [done|]. cbn in *.
  change (2 ^ 16) with 65536. lia.
Qed.

(** The size in words of an allocation of [bytes]. *)
Definition words (bytes : Z) : Z := (bytes + 10) / 8.

Lemma round_bytes_words bytes : 0 <= bytes <= 2 ^ 31 ->
  round_bytes bytes = 8 * words bytes /\ 0 < words bytes /\ words bytes < 300000000.
Proof.
  intros Hb. unfold round_bytes, words. change (2 ^ 31) with 2147483648 in Hb.
  pose proof (Z.div_mod (bytes + 10) 8 ltac:(lia)). pose proof (Z.mod_pos_bound (bytes + 10) 8 ltac:(lia)).
  replace (bytes + 2 + 8) with (bytes + 10) by lia. rewrite uint_small; [lia|].
  change (2 ^ 32) with 4294967296. lia.
Qed.

Lemma put16_some c off v : 0 <= off -> off + 2 <= STACK_CHUNKSIZE -> exists c', put16 c off v = Some c' /\
  cid c' = cid c /\ used c' = used c.
Proof.
  intros. unfold put16. replace ((0 <=? off) && (off + 2 <=? STACK_CHUNKSIZE)) with true by lia. eauto.
Qed.

(** What an allocation does: a new block on top of the newest chunk, or on a
    new chunk. *)
Inductive pushed (st : stack) (ss : list (list Z)) (n : Z) : stack -> list (list Z) -> region -> Prop :=
| push_same c cs s ss' c' : chunks st = c :: cs -> ss = s :: ss' -> cid c' = cid c ->
    used c' = used c + 8 * n ->
    (forall j, j + 2 <= used c -> get16 c' j = get16 c j) ->
    pushed st ss n {| chunks := c' :: cs; last_size := n; fresh := fresh st |} ((n :: s) :: ss')
      {| r_chunk := cid c; r_off := used c; r_size := 8 * n |}
| push_new c' : cid c' = fresh st -> used c' = 8 * n ->
    pushed st ss n {| chunks := c' :: chunks st; last_size := n; fresh := fresh st + 1 |} ([n] :: ss)
      {| r_chunk := fresh st; r_off := 0; r_size := 8 * n |}.

Lemma alloc_spec mem junk st ss bytes : wf st ss -> 0 <= bytes <= 2 ^ 31 ->
  cli_stack_alloc mem junk st bytes = Some (None, st) /\ (mem = true -> 8191 < words bytes) \/
  exists st' ss' r, cli_stack_alloc mem junk st bytes = Some (Some (r_chunk r, r_off r), st') /\
    pushed st ss (words bytes) st' ss' r /\ wf st' ss' /\ 0 <= r_off r /\
    r_off r + r_size r <= STACK_CHUNKSIZE.
Proof.
  intros Hwf Hb. destruct (round_bytes_words bytes Hb) as (Er & Hn & Hn'). set (n := words bytes) in *.
  pose proof (wf_last_size st ss Hwf) as Hls. destruct Hwf as (Hw & Hl & Hf).
  assert (n <= 8191 -> uint 16 (8 * n / 8) = n /\ uint 16 (8 * n - 2) = 8 * n - 2) as Hsmall.
  { intros. rewrite Z.mul_comm, Z.div_mul by lia. split; apply uint_small; change (2 ^ 16) with 65536; lia. }
  assert (forall k : option (option (Z * Z) * stack), k =
    (if STACK_CHUNKSIZE <=? 8 * n then Some (None, st)
     else if negb (cli_malloc mem 65552) then Some (None, st)
     else let* c := put16 {| cid := fresh st; used := 8 * n; cdata := junk |} (uint 16 (8 * n - 2)) (last_size st) in
       Some (Some (fresh st, 0), {| chunks := c :: chunks st; last_size := uint 16 (8 * n / 8); fresh := fresh st + 1 |})) ->
    k = Some (None, st) /\ (mem = true -> 8191 < n) \/
    exists st' ss' r, k = Some (Some (r_chunk r, r_off r), st') /\ pushed st ss n st' ss' r /\
      wf st' ss' /\ 0 <= r_off r /\ r_off r + r_size r <= STACK_CHUNKSIZE) as Hnew.
  { intros k ->. unfold STACK_CHUNKSIZE in *. destruct (Z.leb_spec 65536 (8 * n)); [left; split; [done|lia]|].
    destruct mem; [|left; split; [done|discriminate]]. right. destruct (Hsmall ltac:(lia)) as [-> ->].
    destruct (put16_some {| cid := fresh st; used := 8 * n; cdata := junk |} (8 * n - 2) (last_size st))
      as (c' & Hp & Hc & Hu); [lia|unfold STACK_CHUNKSIZE; lia|].
    change (negb (cli_malloc true 65552)) with false. cbn iota. rewrite Hp. cbn in Hc, Hu.
    eexists _, _, _. split; [|split; [by apply (push_new st ss n c')|]]; [done|].
    split; [|cbn; lia]. split; [|split; [done|]].
    - cbn. split; [done|]. rewrite Hu. unfold STACK_CHUNKSIZE. split; [|split; [|done]].
      + split; [lia|]. split; [lia|]. rewrite (put_get16 _ _ _ _ Hls Hp), <- Hl. split; [done|lia].
      + intros c0 H0%Hf. lia.
    - intros c0 [->|H0%Hf]%elem_of_cons; cbn; lia. }
  unfold cli_stack_alloc. rewrite Er. destruct (chunks st) as [|c cs] eqn:Ec; [by apply Hnew|].
  destruct ss as [|s ss]; [done|]. destruct Hw as (Hne & Ht & Hcs & Hw).
  assert (0 < used c <= 65536) as Hu.
  { destruct s as [|m s]; [done|]. cbn in Ht. unfold STACK_CHUNKSIZE in Ht. lia. }
  rewrite (uint_small 32 (used c + 8 * n)) by (change (2 ^ 32) with 4294967296; lia).
  destruct (Z.leb_spec (used c + 8 * n) STACK_CHUNKSIZE) as [Hfit|]; [|by apply Hnew].
  unfold STACK_CHUNKSIZE in *. right. destruct (Hsmall ltac:(lia)) as [-> ->].
  rewrite uint_small by (change (2 ^ 32) with 4294967296; lia).
  destruct (put16_some c (used c + (8 * n - 2)) (last_size st)) as (c' & Hp & Hc & Hu');
    [lia|unfold STACK_CHUNKSIZE; lia|]. rewrite Hp.
  assert (forall j, j + 2 <= used c -> get16 c' j = get16 c j) as Hsame
    by (intros; apply (get16_other _ _ _ _ _ Hp); lia).
  eexists _, _, _. split; [|split; [by eapply (push_same st _ n c cs s ss (set_used c' (used c + 8 * n)))|]]; [done|].
  split; [|cbn; lia]. split; [|split; [done|]].
  - cbn [wf_chunks chunks]. split; [done|]. cbn [tiles used set_used]. split; [|split; [|done]].
    + unfold STACK_CHUNKSIZE. split; [lia|]. split; [lia|].
      replace (used c + 8 * n - 2) with (used c + (8 * n - 2)) by lia.
      rewrite get16_used, (put_get16 _ _ _ _ Hls Hp), Hl.
      replace (used c + 8 * n - 8 * n) with (used c) by lia.
      split; [by destruct s|]. by apply (tiles_ext c).
    + intros c0 H0%Hcs. cbn. lia.
  - intros c0 [->|H0]%elem_of_cons; cbn; [rewrite Hc|]; apply Hf; [left|by right].
Qed.

Lemma Forall2_refl_chunks cs : Forall2 chunk_equiv cs cs.
Proof. induction cs; constructor; auto using chunk_equiv_refl. Qed.

(** Freeing the newest block undoes the allocation. *)
Lemma free_spec st ss n st' ss' r : wf st ss -> pushed st ss n st' ss' r -> wf st' ss' ->
  exists st'', cli_stack_free st' (r_chunk r, r_off r) = Some (true, st'') /\
    wf st'' ss /\ stack_equiv st st''.
Proof.
  intros (Hw & Hl & Hf) Hp (Hw' & _ & Hf'). destruct Hp as [c cs s ss0 c' Ec -> Hc Hu Hsame|c' Hc Hu];
    cbn in Hw'; destruct Hw' as (_ & (Hn & Ht & Hg & Ht') & Hcs & Hw'); unfold cli_stack_free; cbn;
    rewrite Hc, Z.eqb_refl; unfold STACK_CHUNKSIZE in *; replace (n * 8) with (8 * n) by lia.
  - rewrite Ec in Hw, Hf. destruct Hw as (Hne & Htc & Hcs0 & Hw). rewrite Hu, Z.eqb_refl in *. cbn [andb negb].
    rewrite Hg. destruct (Z.ltb_spec (used c + 8 * n) (8 * n)); [destruct s; [done|cbn in Htc; lia]|].
    replace (used c + 8 * n - 8 * n) with (used c) in * by lia.
    assert (0 < used c) by (destruct s; [done|cbn in Htc; lia]).
    rewrite uint_small by (change (2 ^ 32) with 4294967296; lia).
    destruct (Z.eqb_spec (used c) 0); [lia|]. eexists. split; [done|].
    assert (hd (hd 0 (concat ss0)) s = last_size st) as El by (rewrite Hl; by destruct s).
    split; [split; [|split; [cbn; by destruct s|]]|split; [rewrite Ec|done]].
    + cbn. split; [done|]. split; [by apply (tiles_ext c)|]. split; [rewrite Hc; done|done].
    + intros c0 [->|Hc0]%elem_of_cons; cbn; [rewrite Hc|]; apply Hf; [left|by right].
    + constructor; [done|apply Forall2_refl_chunks].
  - rewrite Hu, Z.eqb_refl in *. cbn [andb negb]. rewrite Hg. rewrite Z.ltb_irrefl, Z.sub_diag. cbn.
    eexists. split; [done|]. split; [split; [done|split; [done|]]|split; [apply Forall2_refl_chunks|done]].
    cbn. intros c0 H0%Hf. lia.
Qed.

Lemma tile_regions_cid c c' sizes : cid c' = cid c -> forall top,
  tile_regions c' top sizes = tile_regions c top sizes.
Proof. intros Hc. induction sizes as [|n s IH]; intros top; cbn; [done|]. by rewrite IH, Hc. Qed.

(** The live blocks after an allocation and after the matching free. *)
Lemma pushed_regions st ss n st' ss' r : pushed st ss n st' ss' r ->
  regions (chunks st') ss' = r :: regions (chunks st) ss.
Proof.
  intros [c cs s ss0 c' Ec -> Hc Hu Hsame|c' Hc Hu]; cbn.
  - rewrite Ec, Hc, Hu. cbn. replace (used c + 8 * n - 8 * n) with (used c) by lia. do 2 f_equal.
    by apply tile_regions_cid.
  - rewrite Hc, Hu. replace (8 * n - 8 * n) with 0 by lia. done.
Qed.

(** Freeing the newest live block of any well-formed stack. *)
Lemma free_top st ss r rs : wf st ss -> regions (chunks st) ss = r :: rs ->
  exists st' ss', cli_stack_free st (r_chunk r, r_off r) = Some (true, st') /\ wf st' ss' /\
    regions (chunks st') ss' = rs.
Proof.
  intros (Hw & Hl & Hf) Hr. destruct (chunks st) as [|c cs] eqn:Ec, ss as [|s ss]; try done.
  destruct Hw as (Hne & Ht & Hcs & Hw). destruct s as [|n s]; [done|].
  cbn in Hr. injection Hr as <- <-. cbn in Hl, Ht. destruct Ht as (Hn & Htop & Hg & Ht).
  unfold STACK_CHUNKSIZE in *. unfold cli_stack_free. rewrite Ec. cbn. rewrite Z.eqb_refl, Hl.
  replace (used c =? used c - 8 * n + n * 8) with true by lia. cbn [andb negb]. rewrite Hg.
  destruct (Z.ltb_spec (used c) (n * 8)); [lia|]. replace (n * 8) with (8 * n) by lia.
  rewrite uint_small by (change (2 ^ 32) with 4294967296; lia).
  assert (forall c0, c0 ∈ cs -> cid c0 < fresh st) as Hf' by (intros; apply Hf; by right).
  destruct s as [|n' s].
  - cbn in Ht. rewrite Ht. cbn. exists {| chunks := cs; last_size := hd 0 (concat ss); fresh := fresh st |}, ss.
    cbn in Hg. split; [done|]. split; [split; [done|split; [done|exact Hf']]|done].
  - pose proof Ht as (Hn' & Htop' & _). destruct (Z.eqb_spec (used c - 8 * n) 0); [lia|].
    eexists _, ((n' :: s) :: ss). split; [done|].
    split; [|cbn [chunks regions]; by rewrite (tile_regions_cid c)].
    split; [cbn [chunks wf_chunks]; split; [done|split; [by apply (tiles_ext c)|done]]|].
    split; [done|]. intros c0 [->|Hc0]%elem_of_cons; cbn; apply Hf; [left|by right].
Qed.

Lemma pushed_disjoint st ss n st' ss' r r' : wf st ss -> pushed st ss n st' ss' r ->
  r' ∈ regions (chunks st) ss -> disjoint_regions r r'.
Proof.
  intros (Hw & _ & Hf) Hp Hr'. destruct Hp as [c cs s ss0 c' Ec -> Hc Hu Hsame|c' Hc Hu].
  - rewrite Ec in Hw, Hr'. cbn in Hr'. destruct Hw as (_ & Ht & Hcs & Hw).
    apply elem_of_app in Hr' as [Hr'|Hr']; unfold disjoint_regions; cbn.
    + destruct (tile_regions_below _ _ _ _ _ Ht Hr') as (? & ? & ?). right. right. done.
    + destruct (regions_chunk _ _ _ Hw Hr') as (c0 & H0%Hcs & ->). left. lia.
  - destruct (regions_chunk _ _ _ Hw Hr') as (c0 & H0%Hf & E). left. cbn. lia.
Qed.

End StackFacts.

Module StackProps.
Import Stack StackFacts.

(** The interpreter's stack is a stack.  On a well-formed stack, when there
    is memory, [cli_stack_alloc] of up to 2^31 bytes either returns NULL, for
    more than 8191 words, or a block of the rounded size that lies inside one
    chunk, is big enough and overlaps no live block; and [cli_stack_free] of
    that block then succeeds and gives back the stack as it was. *)
Theorem stack_alloc_free junk st ss bytes :
  wf st ss -> 0 <= bytes <= 2 ^ 31 ->
  cli_stack_alloc true junk st bytes = Some (None, st) /\ 8191 < words bytes \/
  exists st' ss' r,
    cli_stack_alloc true junk st bytes = Some (Some (r_chunk r, r_off r), st') /\ wf st' ss' /\
    bytes + 2 <= r_size r /\ 0 <= r_off r /\ r_off r + r_size r <= STACK_CHUNKSIZE /\
    (forall r', r' ∈ regions (chunks st) ss -> disjoint_regions r r') /\
    exists st'', cli_stack_free st' (r_chunk r, r_off r) = Some (true, st'') /\
      wf st'' ss /\ stack_equiv st st''.
Proof.
  intros Hw Hb. destruct (alloc_spec true junk st ss bytes Hw Hb) as [[E Hn]|(st' & ss' & r & E & Hp & Hw' & Hr)];
    [left; auto|].
  right. exists st', ss', r. split; [done|]. split; [done|]. split.
  { assert (r_size r = 8 * words bytes) as -> by (by destruct Hp). unfold words.
    pose proof (Z.div_mod (bytes + 10) 8 ltac:(lia)). pose proof (Z.mod_pos_bound (bytes + 10) 8 ltac:(lia)). lia. }
  split; [apply Hr|]. split; [apply Hr|]. split; [intros r'; by eapply pushed_disjoint|].
  by eapply free_spec.
Qed.

Lemma stack_alloc_free_witness :
  wf empty_stack [] /\
  exists st' r, cli_stack_alloc true (fun _ => 0) empty_stack 100 = Some (Some (r_chunk r, r_off r), st') /\
    102 <= r_size r /\
    exists st'', cli_stack_free st' (r_chunk r, r_off r) = Some (true, st'') /\ stack_equiv empty_stack st''.
Proof.
  assert (wf empty_stack []) as Hw.
  { split; [exact I|]. split; [reflexivity|]. intros c H. inversion H. }
  split; [exact Hw|].
  destruct (stack_alloc_free (fun _ => 0) empty_stack [] 100 Hw) as [[E _]|H].
  - split; vm_compute; congruence.
  - discriminate E.
  - destruct H as (st' & ss' & r & E & _ & Hsz & _ & _ & _ & st'' & E'' & _ & Heq).
    exists st', r. split; [exact E|]. split; [exact Hsz|]. exists st''. split; [exact E''|exact Heq].
Defined.

(** [used + bytes] is computed in 32 bits: a request close to 2^32 wraps around,
    seems to fit, and its trailer is written behind the end of the chunk. *)
Lemma alloc_wraps :
  (let* (_, st) := cli_stack_alloc true (fun _ => 0) empty_stack 8 in
   cli_stack_alloc true (fun _ => 0) st (2 ^ 32 - 16)) = None.
Proof. vm_compute. reflexivity. Qed.

End StackProps.
