(* ===== verification/VmCore.v ===== *)
(** The bytecode interpreter of libclamav/bytecode_vm.c: memory, pointers,
    instructions.

    Memory is a set of blocks (a stack frame's values, the globals of a
    program, objects of the API); an access outside a block, or to a block that
    is gone, is undefined.  The host is little-endian with 64-bit pointers. *)
From stdpp Require Import base numbers list list_numbers gmap.
From Stdlib Require Import ZArith Lia Bool.
From S2P Require Import Prelude VmStack.
Import Errors Alloc.
Local Open Scope Z_scope.

(** * Results of an instruction *)

(** [RFail]: the function returns the code at once (the CHECK_ macros); [RStop]:
    [stop] is set to the code and the switch is left with [break]; [RHalt]: the
    same with [continue]; [RUndef]: undefined behaviour. *)
Inductive R (A : Type) := RVal (a : A) | RFail (code : Z) | RStop (code : Z) | RHalt (code : Z) | RUndef.
Arguments RVal {A} a.
Arguments RFail {A} code.
Arguments RStop {A} code.
Arguments RHalt {A} code.
Arguments RUndef {A}.

Notation "'let?' x ':=' m 'in' k" :=
  (match m with
   | RVal x => k
   | RFail c => RFail c | RStop c => RStop c | RHalt c => RHalt c | RUndef => RUndef
   end)
  (at level 10, x pattern, m at level 100, k at level 200) : clam_scope.

Definition r_of_opt {A} (o : option A) : R A := match o with Some a => RVal a | None => RUndef end.

(** [CHECK_GT(a, b)] and [CHECK_EQ(a, b)]. *)
Definition CHECK_GT (a b : Z) : R unit := if a <=? b then RFail CL_EBYTECODE else RVal tt.
Definition CHECK_EQ (a b : Z) : R unit := if negb (a =? b) then RFail CL_EBYTECODE else RVal tt.

(** * Memory *)
Module VmMem.

Record block := { bsize : Z; bdata : Z -> Z }.
Abbreviation memory := (gmap Z block).
Definition addr : Type := Z * Z.

Definition load8 (m : memory) (b o : Z) : option Z :=
  let* blk := m !! b in
  assert* (0 <=? o) && (o <? bsize blk) in Some (uint 8 (bdata blk o)).

Definition store8 (m : memory) (b o v : Z) : option memory :=
  let* blk := m !! b in
  assert* (0 <=? o) && (o <? bsize blk) in
  Some (<[b := {| bsize := bsize blk; bdata := fun i => if i =? o then uint 8 v else bdata blk i |}]> m).

(** [n]-byte little-endian accesses. *)
Fixpoint load (n : nat) (m : memory) (b o : Z) : option Z :=
  match n with
  | O => Some 0
  | S n' => let* x := load8 m b o in let* r := load n' m b (o + 1) in Some (x + 256 * r)
  end.

Fixpoint store (n : nat) (m : memory) (b o v : Z) : option memory :=
  match n with
  | O => Some m
  | S n' => let* m := store8 m b o v in store n' m b (o + 1) (v / 256)
  end.

Definition in_block (m : memory) (b o n : Z) : bool :=
  match m !! b with
  | Some blk => (0 <=? o) && (o + n <=? bsize blk)
  | None => false
  end.

Fixpoint load_list (n : nat) (m : memory) (b o : Z) : option (list Z) :=
  match n with
  | O => Some []
  | S n' => let* x := load8 m b o in let* r := load_list n' m b (o + 1) in Some (x :: r)
  end.

Fixpoint store_list (m : memory) (b o : Z) (l : list Z) : option memory :=
  match l with
  | [] => Some m
  | x :: l' => let* m := store8 m b o x in store_list m b (o + 1) l'
  end.

(** [memcpy] of overlapping objects is undefined, [memmove] is not. *)
Definition memmove (m : memory) (d s : addr) (n : Z) : option memory :=
  assert* in_block m (fst d) (snd d) n && in_block m (fst s) (snd s) n in
  let* l := load_list (Z.to_nat n) m (fst s) (snd s) in store_list m (fst d) (snd d) l.

Definition memcpy (m : memory) (d s : addr) (n : Z) : option memory :=
  assert* negb ((fst d =? fst s) && (snd d <? snd s + n) && (snd s <? snd d + n)) in memmove m d s n.

Definition memset (m : memory) (d : addr) (v n : Z) : option memory :=
  assert* in_block m (fst d) (snd d) n in
  store_list m (fst d) (snd d) (replicate (Z.to_nat n) (uint 8 v)).

(** The sign is what C guarantees; the value is the difference of the bytes. *)
Fixpoint compare_lists (a b : list Z) : Z :=
  match a, b with
  | x :: a', y :: b' => if x =? y then compare_lists a' b' else x - y
  | _, _ => 0
  end.

Definition memcmp (m : memory) (a b : addr) (n : Z) : option Z :=
  assert* in_block m (fst a) (snd a) n && in_block m (fst b) (snd b) n in
  let* l := load_list (Z.to_nat n) m (fst a) (snd a) in
  let* l' := load_list (Z.to_nat n) m (fst b) (snd b) in
  Some (compare_lists l l').

End VmMem.
Import VmMem.

(** * Virtual pointers *)
Module VmPtr.

(** [struct ptr_info]: a NULL base is [None]. *)
Record ptr_info := { base : option addr; isize : Z }.

(** [struct ptr_infos]; an entry of [glob_infos] that was allocated but never
    written is [None]. *)
Record ptr_infos := { stack_infos : list ptr_info; glob_infos : list (option ptr_info) }.

Definition nstacks (i : ptr_infos) : Z := Z.of_nat (length (stack_infos i)).
Definition nglobs (i : ptr_infos) : Z := Z.of_nat (length (glob_infos i)).

(** Pointers are 64-bit values: an object number above a 32-bit offset. *)
Definition ptr_compose (id offset : Z) : Z :=
  Z.lor (uint 64 (Z.shiftl (sint 32 id) 32)) (uint 32 offset).

Definition ptrid (ptr : Z) : Z := sint 32 (Z.shiftr ptr 32).
Definition ptroff (ptr : Z) : Z := uint 32 ptr.

Definition ptr_diff32 (ptr1 ptr2 : Z) : Z :=
  if negb (ptrid ptr1 =? ptrid ptr2) then 0x40000000
  else sint 32 (ptroff ptr1 - ptroff ptr2).

Definition ptr_register_stack (mem : bool) (infos : ptr_infos) (values : addr) (off size : Z)
    : Z * ptr_infos :=
  let n := nstacks infos + 1 in
  if negb (cli_realloc mem (16 * n)) then (0, infos) else
  (ptr_compose (- n) 0,
   {| stack_infos := stack_infos infos ++ [{| base := Some (fst values, snd values + off); isize := size |}];
      glob_infos := glob_infos infos |}).

Definition ptr_register_glob_fixedid (mem : bool) (infos : ptr_infos) (values : option addr) (size n : Z)
    : option (Z * ptr_infos) :=
  if (nglobs infos <? n) && negb (cli_realloc mem (16 * n)) then Some (0, infos) else
  let globs := if nglobs infos <? n then resize (Z.to_nat n) None (glob_infos infos) else glob_infos infos in
  let size := match values with None => 0 | Some _ => size end in
  let* globs := bset globs (n - 1) (Some {| base := values; isize := size |}) in
  Some (ptr_compose n 0, {| stack_infos := stack_infos infos; glob_infos := globs |}).

Definition ptr_register_glob (mem : bool) (infos : ptr_infos) (values : option addr) (size : Z)
    : option (Z * ptr_infos) :=
  match values with
  | None => Some (0, infos)
  | Some _ => ptr_register_glob_fixedid mem infos values size (nglobs infos + 1)
  end.

(** [ptr_torealptr]: the address, [Some None] for NULL.  The negation of the
    smallest object number wraps around. *)
Definition ptr_torealptr (infos : ptr_infos) (ptr read_size : Z) : option (option addr) :=
  let id := ptrid ptr in
  if id =? 0 then Some None else
  let* info := (if id <? 0 then
                  let i := uint 32 (- id - 1) in
                  if nstacks infos <=? i then Some None
                  else let* x := bget (stack_infos infos) i in Some (Some x)
                else
                  let i := id - 1 in
                  if nglobs infos <=? i then Some None
                  else let* x := bget (glob_infos infos) i in let* y := x in Some (Some y)) in
  match info with
  | None => Some None
  | Some info =>
      if (ptroff ptr <? isize info) && (read_size <=? isize info)
         && (uint 32 (ptroff ptr + read_size) <=? isize info)
      then match base info with
           | Some (b, o) => Some (Some (b, o + ptroff ptr))
           | None => None
           end
      else Some None
  end.

End VmPtr.
Import VmPtr.

(** * Arithmetic *)
Module VmArith.

(** The type class of an instruction ([interp_op % 5]): 0 for i1, then 8, 16, 32
    and 64 bits; [cwidth] is the width of the C type used for it. *)
Definition cwidth (ty : Z) : Z :=
  if ty =? 0 then 8 else if ty =? 1 then 8 else if ty =? 2 then 16 else if ty =? 3 then 32 else 64.

(** Operands narrower than [int] are promoted to it: [iwidth] is the width in
    which C computes. *)
Definition iwidth (ty : Z) : Z := Z.max 32 (cwidth ty).

Inductive opcode :=
| OP_BC_ADD | OP_BC_SUB | OP_BC_MUL | OP_BC_UDIV | OP_BC_SDIV | OP_BC_UREM | OP_BC_SREM
| OP_BC_SHL | OP_BC_LSHR | OP_BC_ASHR | OP_BC_AND | OP_BC_OR | OP_BC_XOR
| OP_BC_TRUNC | OP_BC_SEXT | OP_BC_ZEXT
| OP_BC_BRANCH | OP_BC_JMP | OP_BC_RET | OP_BC_RET_VOID
| OP_BC_ICMP_EQ | OP_BC_ICMP_NE | OP_BC_ICMP_UGT | OP_BC_ICMP_UGE | OP_BC_ICMP_ULT | OP_BC_ICMP_ULE
| OP_BC_ICMP_SGT | OP_BC_ICMP_SGE | OP_BC_ICMP_SLE | OP_BC_ICMP_SLT
| OP_BC_SELECT | OP_BC_CALL_DIRECT | OP_BC_CALL_API | OP_BC_COPY
| OP_BC_GEP1 | OP_BC_GEPZ | OP_BC_GEPN | OP_BC_STORE | OP_BC_LOAD
| OP_BC_MEMSET | OP_BC_MEMCPY | OP_BC_MEMMOVE | OP_BC_MEMCMP
| OP_BC_ISBIGENDIAN | OP_BC_ABORT | OP_BC_BSWAP16 | OP_BC_BSWAP32 | OP_BC_BSWAP64
| OP_BC_PTRDIFF32 | OP_BC_PTRTOINT64 | OP_BC_INVALID.

Definition check_sdivops (op0 op1 : Z) : bool :=
  (op1 =? 0) || ((op0 =? -1) && (op1 =? - 2 ^ 63)).

(** [CHECK_OP(cond, msg)]. *)
Definition CHECK_OP (cond : bool) : R unit := if cond then RStop CL_EBYTECODE else RVal tt.

(** A signed [int] (or wider) result must be representable, for narrow operands
    too. *)
Definition int_ok (ty v : Z) : bool :=
  (- 2 ^ (iwidth ty - 1) <=? v) && (v <? 2 ^ (iwidth ty - 1)).

(** The binary operations on operands read as unsigned values. *)
Definition binop (op : opcode) (ty itype op0 op1 : Z) : R Z :=
  let w := cwidth ty in
  let sop0 := sint w op0 in
  let sop1 := sint w op1 in
  let narrow := w <? 32 in
  match op with
  | OP_BC_ADD => RVal (uint w (op0 + op1))
  | OP_BC_SUB => RVal (uint w (op0 - op1))
  | OP_BC_MUL => if narrow && negb (int_ok ty (op0 * op1)) then RUndef else RVal (uint w (op0 * op1))
  | OP_BC_UDIV => let? _ := CHECK_OP (op1 =? 0) in RVal (uint w (op0 / op1))
  | OP_BC_UREM => let? _ := CHECK_OP (op1 =? 0) in RVal (uint w (op0 `mod` op1))
  | OP_BC_SDIV =>
      let? _ := CHECK_OP (check_sdivops sop0 sop1) in
      if negb (int_ok ty (Z.quot sop0 sop1)) then RUndef else RVal (uint w (Z.quot sop0 sop1))
  | OP_BC_SREM =>
      let? _ := CHECK_OP (check_sdivops sop0 sop1) in
      if negb (int_ok ty (Z.quot sop0 sop1)) then RUndef else RVal (uint w (Z.rem sop0 sop1))
  | OP_BC_SHL =>
      let? _ := CHECK_OP (itype <? op1) in
      if (iwidth ty <=? op1) || (narrow && negb (int_ok ty (Z.shiftl op0 op1))) then RUndef
      else RVal (uint w (Z.shiftl op0 op1))
  | OP_BC_LSHR =>
      let? _ := CHECK_OP (itype <? op1) in
      if iwidth ty <=? op1 then RUndef else RVal (uint w (Z.shiftr op0 op1))
  | OP_BC_ASHR =>
      let? _ := CHECK_OP (itype <? op1) in
      if iwidth ty <=? op1 then RUndef else RVal (uint w (Z.shiftr sop0 op1))
  | OP_BC_AND => RVal (Z.land op0 op1)
  | OP_BC_OR => RVal (Z.lor op0 op1)
  | OP_BC_XOR => RVal (Z.lxor op0 op1)
  | _ => RUndef
  end.

Definition icmp (op : opcode) (ty op0 op1 : Z) : option bool :=
  let sop0 := sint (cwidth ty) op0 in
  let sop1 := sint (cwidth ty) op1 in
  match op with
  | OP_BC_ICMP_EQ => Some (op0 =? op1)
  | OP_BC_ICMP_NE => Some (negb (op0 =? op1))
  | OP_BC_ICMP_UGT => Some (op1 <? op0)
  | OP_BC_ICMP_UGE => Some (op1 <=? op0)
  | OP_BC_ICMP_ULT => Some (op0 <? op1)
  | OP_BC_ICMP_ULE => Some (op0 <=? op1)
  | OP_BC_ICMP_SGT => Some (sop1 <? sop0)
  | OP_BC_ICMP_SGE => Some (sop1 <=? sop0)
  | OP_BC_ICMP_SLE => Some (sop0 <=? sop1)
  | OP_BC_ICMP_SLT => Some (sop0 <? sop1)
  | _ => None
  end.

(** [SIGNEXT(a, from)] on the 64-bit value [a]. *)
Definition SIGNEXT (a from : Z) : R Z :=
  if (from <=? 0) || (64 <? from) then RUndef
  else RVal (Z.shiftr (sint 64 (Z.shiftl a (64 - from))) (64 - from)).

Definition cbswap16 (v : Z) : Z :=
  Z.lor (Z.shiftl (Z.land v 0xff) 8) (Z.land (Z.shiftr v 8) 0xff).
Definition cbswap32 (v : Z) : Z :=
  Z.lor (Z.lor (Z.lor (Z.shiftl (Z.land v 0x000000ff) 24) (Z.shiftl (Z.land v 0x0000ff00) 8))
          (Z.shiftr (Z.land v 0x00ff0000) 8)) (Z.shiftr (Z.land v 0xff000000) 24).
Definition cbswap64 (v : Z) : Z :=
  Z.lor (Z.lor (Z.lor (Z.lor (Z.lor (Z.lor (Z.lor
    (Z.shiftl (Z.land v 0x00000000000000ff) 56) (Z.shiftl (Z.land v 0x000000000000ff00) 40))
    (Z.shiftl (Z.land v 0x0000000000ff0000) 24)) (Z.shiftl (Z.land v 0x00000000ff000000) 8))
    (Z.shiftr (Z.land v 0x000000ff00000000) 8)) (Z.shiftr (Z.land v 0x0000ff0000000000) 24))
    (Z.shiftr (Z.land v 0x00ff000000000000) 40)) (Z.shiftr (Z.land v 0xff00000000000000) 56).

End VmArith.
Import VmArith.
