(* ===== verification/VmExec.v ===== *)
(** The bytecode interpreter of libclamav/bytecode_vm.c: the state machine
    [cli_vm_execute]. *)
From stdpp Require Import base numbers list list_numbers gmap.
From Stdlib Require Import ZArith Lia Bool.
From S2P Require Import Prelude VmStack VmCore.
Import Errors Alloc VmMem VmPtr VmArith.
Local Open Scope Z_scope.

Module VmExec.

(** The union [u] of [struct cli_bc_inst]. *)
Inductive operands :=
| Unary (op : Z)
| Binop (op0 op1 : Z)
| Three (a b c : Z)
| Cast (mask source size : Z)
| CallOps (ops opsizes : list Z) (numOps funcid : Z)
| Branch (condition br_true br_false : Z)
| Jump (bb : Z)
| NoOps.

(** [struct cli_bc_inst]; [opc] and [ty] are [interp_op / 5] and [interp_op % 5]. *)
Record inst := { opc : opcode; ty : Z; itype : Z; dest : Z; u : operands }.

(** [struct cli_bc_func]; the basic blocks are lists of instructions. *)
Record func := { numArgs : Z; numBytes : Z; constants : list Z; BB : list (list inst) }.

Definition numBB (f : func) : Z := Z.of_nat (length (BB f)).
Definition numConstants (f : func) : Z := Z.of_nat (length (constants f)).

(** [struct cli_bc]: the functions and the block of the global bytes. *)
Record bytecode := { funcs : list func; globalBytes : Z; numGlobalBytes : Z }.

(** [struct stack_entry]: what a call saves, the block of the values of the
    called function and the address of the entry on the stack. *)
Record stack_entry := {
  e_func : func; e_ret : Z; e_bb : option Z; e_bb_inst : Z; e_values : Z; e_addr : Z * Z }.

(** The local variables of [cli_vm_execute], the memory, and [api], the state of
    the context that the API calls work on. *)
Record vm (A : Type) := {
  mem : memory; nextb : Z; stk : Stack.stack; entries : list stack_entry; fn : func; values : Z;
  bb : option Z; bb_inst : Z; infos : ptr_infos; stackid : Z; depth : Z; pc : Z; api : A }.
Arguments mem {A} _. Arguments nextb {A} _. Arguments stk {A} _. Arguments entries {A} _.
Arguments fn {A} _. Arguments values {A} _. Arguments bb {A} _. Arguments bb_inst {A} _.
Arguments infos {A} _. Arguments stackid {A} _. Arguments depth {A} _. Arguments pc {A} _.
Arguments api {A} _.

(** How an instruction ends: [break] (the next instruction of the block follows),
    [continue], or, for the return of the outermost function, [stop = CL_BREAK;
    continue]. *)
Inductive ctl := Break | Continue | Finish.

(** Arguments and results of API calls. *)
Inductive apiarg := AInt (v : Z) | APtr (a : addr).
Inductive apires := RInt (v : Z) | RPtr (p : option addr).

Section Exec.
Context {A : Type}.
Variable bc : bytecode.
(** [ctx->values]. *)
Variable ctx_values : Z.
(** Whether the C library has memory, and what fresh memory holds. *)
Variable ok : bool.
Variable junk : Z -> Z.
(** The API: the kind of each call, and what a call does to the memory (with the
    number of the next block) and to the context. *)
Variable apicalls : list Z.
Variable apicall : Z -> list apiarg -> memory * Z * A -> option (apires * (memory * Z * A)).
(** Whether the clock shows the timeout when [pc] instructions were run. *)
Variable expired : Z -> bool.

Abbreviation vm := (VmExec.vm A).

Definition with_mem (s : vm) (m : memory) : vm :=
  {| mem := m; nextb := nextb s; stk := stk s; entries := entries s; fn := fn s; values := values s;
     bb := bb s; bb_inst := bb_inst s; infos := infos s; stackid := stackid s; depth := depth s;
     pc := pc s; api := api s |}.

Definition with_infos (s : vm) (i : ptr_infos) : vm :=
  {| mem := mem s; nextb := nextb s; stk := stk s; entries := entries s; fn := fn s; values := values s;
     bb := bb s; bb_inst := bb_inst s; infos := i; stackid := stackid s; depth := depth s;
     pc := pc s; api := api s |}.

(** ** Operands *)

(** [READNfrom(maxBytes, from, x, n, p)]; the sum is a 32-bit one. *)
Definition READNfrom (s : vm) (maxBytes from n p : Z) : R Z :=
  let? _ := CHECK_GT maxBytes (uint 32 (p + n / 8 - 1)) in
  let? _ := CHECK_EQ (Z.land p (n / 8 - 1)) 0 in
  r_of_opt (load (Z.to_nat (n / 8)) (mem s) from p).

Definition READN (s : vm) (n p : Z) : R Z :=
  if negb (Z.land p 0x80000000 =? 0) then
    let pg := Z.land p 0x7fffffff in
    if pg =? 0 then RVal 0 else READNfrom s (numGlobalBytes bc) (globalBytes bc) n pg
  else READNfrom s (numBytes (fn s)) (values s) n p.

(** The operand of a type class: [READ1] masks one bit. *)
Definition READty (s : vm) (ty p : Z) : R Z :=
  let? x := READN s (cwidth ty) p in
  RVal (if ty =? 0 then Z.land x 1 else x).

Definition WRITEN (s : vm) (n p x : Z) : R vm :=
  let? _ := CHECK_GT (numBytes (fn s)) (uint 32 (p + n / 8 - 1)) in
  let? _ := CHECK_EQ (Z.land p (n / 8 - 1)) 0 in
  let? m := r_of_opt (store (Z.to_nat (n / 8)) (mem s) (values s) p x) in
  RVal (with_mem s m).

(** [READP(x, p, asize)] and [READPOP(x, p, asize)]: real addresses. *)
Definition READP (s : vm) (p asize : Z) : R addr :=
  let? iptr := READN s 64 p in
  let? x := r_of_opt (ptr_torealptr (infos s) iptr (uint 32 asize)) in
  match x with
  | None => RStop CL_EBYTECODE
  | Some a => RVal a
  end.

Definition READPOP (s : vm) (p asize : Z) : R addr :=
  if negb (Z.land p 0x40000000 =? 0) then
    let ptr := Z.land p 0xbfffffff in
    let? _ := CHECK_GT (numBytes (fn s)) ptr in RVal (values s, ptr)
  else READP s p asize.

(** [READOLD8], ...: an operand of the calling function. *)
Definition READOLD (s : vm) (n p : Z) : R Z := READNfrom s (numBytes (fn s)) (values s) n p.

(** ** Control *)

Definition jump (s : vm) (bbid : Z) : R (vm * ctl) :=
  if numBB (fn s) <=? bbid then RHalt CL_EBYTECODE else
  RVal ({| mem := mem s; nextb := nextb s; stk := stk s; entries := entries s; fn := fn s;
           values := values s; bb := Some bbid; bb_inst := 0; infos := infos s;
           stackid := stackid s; depth := depth s; pc := pc s; api := api s |}, Continue).

(** [allocate_stack]: room for the entry and the values on the stack, then the
    constants are copied to the end of the values.  [None] inside: NULL. *)
Definition allocate_stack (s : vm) (func2 : func) (ret : Z) : option (option vm) :=
  let* (a, st) := Stack.cli_stack_alloc ok junk (stk s) (uint 32 (48 + numBytes func2)) in
  match a with
  | None => Some None
  | Some a =>
      let b := nextb s in
      let m := <[b := {| bsize := numBytes func2; bdata := junk |}]> (mem s) in
      let off := numBytes func2 - numConstants func2 * 8 in
      let fix copy (m : memory) (o : Z) (l : list Z) : option memory :=
        match l with
        | [] => Some m
        | c :: l' => let* m := store 8 m b o c in copy m (o + 8) l'
        end in
      let* m := copy m off (constants func2) in
      Some (Some {| mem := m; nextb := b + 1; stk := st;
                    entries := {| e_func := fn s; e_ret := ret; e_bb := bb s; e_bb_inst := bb_inst s;
                                  e_values := b; e_addr := a |} :: entries s;
                    fn := fn s; values := values s; bb := bb s; bb_inst := bb_inst s;
                    infos := infos s; stackid := stackid s; depth := depth s; pc := pc s; api := api s |})
  end.

(** The loop that copies the arguments, from the caller [s] into block [b] of
    the called function. *)
Fixpoint copy_args (s : vm) (func2 : func) (b : Z) (n : nat) (i j : Z) (ops opsizes : list Z)
    (m : memory) : R memory :=
  match n with
  | O => RVal m
  | S n' =>
      let? size := r_of_opt (bget opsizes i) in
      let? op := r_of_opt (bget ops i) in
      if (size =? 1) || (size =? 2) || (size =? 4) || (size =? 8) then
        let? v := READOLD s (8 * size) op in
        let j := (j + (size - 1)) / size * size in
        let? _ := CHECK_GT (numBytes func2) j in
        let? m := r_of_opt (store (Z.to_nat size) m b j v) in
        copy_args s func2 b n' (i + 1) (j + size) ops opsizes m
      else copy_args s func2 b n' (i + 1) j ops opsizes m
  end.

Definition call_direct (s : vm) (ops opsizes : list Z) (numOps funcid ret : Z) : R (vm * ctl) :=
  match bget (funcs bc) funcid with
  | None => RFail CL_EBYTECODE
  | Some func2 =>
      let? _ := CHECK_EQ (numArgs func2) numOps in
      let? s1 := r_of_opt (allocate_stack s func2 ret) in
      match s1 with
      | None => RStop CL_EMEM
      | Some s1 =>
          if 10000 <? depth s then RStop CL_EBYTECODE else
          let b := nextb s in
          let? m := copy_args s func2 b (Z.to_nat (numArgs func2)) 0 0 ops opsizes (mem s1) in
          let '(p, infos') := ptr_register_stack ok (infos s1) (b, 0) 0 (numBytes func2) in
          if numBB func2 <=? 0 then RFail CL_EBYTECODE else
          jump {| mem := m; nextb := nextb s1; stk := stk s1; entries := entries s1; fn := func2;
                  values := b; bb := bb s1; bb_inst := bb_inst s1; infos := infos';
                  stackid := ptrid p; depth := uint 32 (depth s1 + 1); pc := pc s1; api := api s1 |} 0
      end
  end.

(** [pop_stack] and the rest of [DEFINE_OP_BC_RET_N]; the values of the returning
    function are gone with its stack entry. *)
Definition op_ret (s : vm) (ty op : Z) : R (vm * ctl) :=
  let? tmp := READty s ty op in
  let? _ := CHECK_GT (depth s) 0 in
  match entries s with
  | [] => RUndef
  | e :: rest =>
      let? (_, st) := r_of_opt (Stack.cli_stack_free (stk s) (e_addr e)) in
      let s1 := {| mem := delete (e_values e) (mem s); nextb := nextb s; stk := st; entries := rest;
                   fn := e_func e; values := match rest with e' :: _ => e_values e' | [] => ctx_values end;
                   bb := e_bb e; bb_inst := e_bb_inst e; infos := infos s; stackid := stackid s;
                   depth := depth s - 1; pc := pc s; api := api s |} in
      let? _ := CHECK_GT (numBytes (fn s1)) (e_ret e) in
      let? s2 := WRITEN s1 (cwidth ty) (e_ret e) tmp in
      match bb s2 with
      | None => RVal (s2, Finish)
      | Some _ => RVal (s2, Break)
      end
  end.

(** ** API calls *)

Definition call_api_fn (s : vm) (id : Z) (args : list apiarg) : R (apires * vm) :=
  let? (r, (m, n, a)) := r_of_opt (apicall id args (mem s, nextb s, api s)) in
  RVal (r, {| mem := m; nextb := n; stk := stk s; entries := entries s; fn := fn s; values := values s;
              bb := bb s; bb_inst := bb_inst s; infos := infos s; stackid := stackid s;
              depth := depth s; pc := pc s; api := a |}).

(** The calls that return an integer, stored at [dest], or a pointer to an
    object of [size] bytes, which is registered first. *)
Definition api_int (s : vm) (id : Z) (args : list apiarg) (dest : Z) : R (vm * ctl) :=
  let? (r, s) := call_api_fn s id args in
  match r with
  | RInt v => let? s := WRITEN s 32 dest (uint 32 v) in RVal (s, Break)
  | RPtr _ => RUndef
  end.

Definition api_ptr (s : vm) (id : Z) (args : list apiarg) (size dest : Z) : R (vm * ctl) :=
  let? (r, s) := call_api_fn s id args in
  match r with
  | RPtr p =>
      let? (res64, infos') := r_of_opt (ptr_register_glob ok (infos s) p (uint 32 size)) in
      let? s := WRITEN (with_infos s infos') 64 dest res64 in RVal (s, Break)
  | RInt _ => RUndef
  end.

Definition call_api (s : vm) (ops : list Z) (funcid dest : Z) : R (vm * ctl) :=
  match bget apicalls funcid with
  | None => RFail CL_EBYTECODE
  | Some kind =>
      let op i := r_of_opt (bget ops i) in
      let read32 i := (let? p := op i in READN s 32 p) in
      if kind =? 0 then
        let? a := read32 0 in let? b := read32 1 in api_int s funcid [AInt a; AInt b] dest
      else if kind =? 1 then
        let? arg2 := read32 1 in let? p := op 0 in let? arg1 := READPOP s p arg2 in
        api_int s funcid [APtr arg1; AInt arg2] dest
      else if kind =? 2 then
        let? a := read32 0 in api_int s funcid [AInt a] dest
      else if kind =? 3 then
        let? a := read32 0 in api_ptr s funcid [AInt a] a dest
      else if kind =? 4 then
        let? arg2 := read32 1 in let? p := op 0 in let? arg1 := READP s p arg2 in
        let? arg3 := read32 2 in let? arg4 := read32 3 in let? arg5 := read32 4 in
        api_int s funcid [APtr arg1; AInt arg2; AInt arg3; AInt arg4; AInt arg5] dest
      else if kind =? 5 then api_int s funcid [] dest
      else if kind =? 6 then
        let? arg1 := read32 0 in let? arg2 := read32 1 in
        api_ptr s funcid [AInt arg1; AInt arg2] arg2 dest
      else if kind =? 7 then
        let? a := read32 0 in let? b := read32 1 in let? c := read32 2 in
        api_int s funcid [AInt a; AInt b; AInt c] dest
      else if kind =? 8 then
        let? arg2 := read32 1 in let? p := op 0 in let? arg1 := READP s p arg2 in
        let? arg4 := read32 3 in let? q := op 0 in let? arg3 := READP s q arg4 in
        api_int s funcid [APtr arg1; AInt arg2; APtr arg3; AInt arg4] dest
      else if kind =? 9 then
        let? arg2 := read32 1 in let? p := op 0 in let? arg1 := READP s p arg2 in
        let? arg3 := read32 2 in
        api_int s funcid [APtr arg1; AInt arg2; AInt arg3] dest
      else RStop CL_EBYTECODE
  end.

(** ** The other instructions *)

(** [DEFINE_BINOP] and [DEFINE_ICMPOP]. *)
Definition exec_binop (s : vm) (i : inst) (op0 op1 : Z) : R (vm * ctl) :=
  let? x := READty s (ty i) op0 in
  let? y := READty s (ty i) op1 in
  let? r := binop (opc i) (ty i) (itype i) x y in
  let? s := WRITEN s (cwidth (ty i)) (dest i) r in RVal (s, Break).

Definition exec_icmp (s : vm) (i : inst) (op0 op1 : Z) : R (vm * ctl) :=
  let? x := READty s (ty i) op0 in
  let? y := READty s (ty i) op1 in
  let? r := r_of_opt (icmp (opc i) (ty i) x y) in
  let? s := WRITEN s 8 (dest i) (if (r : bool) then 1 else 0) in RVal (s, Break).

(** The operand of a cast, by the switch [CHOOSE] on its size. *)
Definition cast_operand (s : vm) (size source : Z) : R Z :=
  if (0 <=? size) && (size <=? 4) then READty s size source else RFail CL_EBYTECODE.

(** [DEFINE_SCASTOP(OP_BC_SEXT, ...)]: the operand is first converted to the
    signed type of the result. *)
Definition exec_sext (s : vm) (i : inst) (mask source size : Z) : R (vm * ctl) :=
  let w := cwidth (ty i) in
  let? x := cast_operand s size source in
  let? r := (if size =? 0 then RVal (if sint w x =? 0 then 0 else 2 ^ 64 - 1)
             else SIGNEXT (sint w x) mask) in
  let? s := WRITEN s w (dest i) (uint w r) in RVal (s, Break).

Definition exec_zext_trunc (s : vm) (i : inst) (source size : Z) : R (vm * ctl) :=
  let w := cwidth (ty i) in
  let? x := cast_operand s size source in
  let? s := WRITEN s w (dest i) (uint w x) in RVal (s, Break).

Definition exec_select (s : vm) (i : inst) (a b c : Z) : R (vm * ctl) :=
  let? t0 := READty s 0 a in
  let? t1 := READty s (ty i) b in
  let? t2 := READty s (ty i) c in
  let? s := WRITEN s (cwidth (ty i)) (dest i) (if negb (t0 =? 0) then t1 else t2) in RVal (s, Break).

Definition exec_load (s : vm) (i : inst) (op : Z) : R (vm * ctl) :=
  let n := cwidth (ty i) / 8 in
  let? p := READPOP s op n in
  let? x := r_of_opt (load (Z.to_nat n) (mem s) (fst p) (snd p)) in
  let? s := WRITEN s (8 * n) (dest i) x in RVal (s, Break).

Definition exec_store (s : vm) (i : inst) (op0 op1 : Z) : R (vm * ctl) :=
  let n := cwidth (ty i) / 8 in
  let? p := READP s op1 n in
  let? v := READty s (ty i) op0 in
  let? m := r_of_opt (store (Z.to_nat n) (mem s) (fst p) (snd p) v) in RVal (with_mem s m, Break).

(** [memcpy], [memmove], [memset] and [memcmp] take a [size_t]: a negative length
    is a huge one. *)
Definition exec_mem (s : vm) (i : inst) (a b c : Z) : R (vm * ctl) :=
  let? n := READN s 32 c in
  let len := uint 64 (sint 32 n) in
  let? arg1 := READPOP s a n in
  match opc i with
  | OP_BC_MEMSET =>
      let? v := READN s 32 b in
      let? m := r_of_opt (memset (mem s) arg1 v len) in
      let? s := WRITEN (with_mem s m) 64 (dest i) 0 in RVal (s, Break)
  | _ =>
      let? arg2 := READPOP s b n in
      match opc i with
      | OP_BC_MEMCMP =>
          let? r := r_of_opt (memcmp (mem s) arg1 arg2 len) in
          let? s := WRITEN s 32 (dest i) (uint 32 r) in RVal (s, Break)
      | OP_BC_MEMCPY =>
          let? m := r_of_opt (memcpy (mem s) arg1 arg2 len) in
          let? s := WRITEN (with_mem s m) 64 (dest i) 0 in RVal (s, Break)
      | _ =>
          let? m := r_of_opt (memmove (mem s) arg1 arg2 len) in
          let? s := WRITEN (with_mem s m) 64 (dest i) 0 in RVal (s, Break)
      end
  end.

(** [OP_BC_GEPZ] and [OP_BC_GEP1] for a stack object ([ty] 0) or a pointer. *)
Definition exec_gepz (s : vm) (i : inst) (b c : Z) : R (vm * ctl) :=
  let? off := READN s 32 c in
  let? p := (if ty i =? 0 then RVal (ptr_compose (stackid s) (uint 32 (b + off)))
             else let? p := READN s 64 b in RVal (uint 64 (p + sint 32 off))) in
  let? s := WRITEN s 64 (dest i) p in RVal (s, Break).

Definition exec_gep1 (s : vm) (i : inst) (a b c : Z) : R (vm * ctl) :=
  let? off := READN s 32 c in
  let? p := (if ty i =? 0 then RVal (ptr_compose (stackid s) (uint 32 (b + off * a)))
             else let? p := READN s 64 b in RVal (uint 64 (p + uint 32 (off * a)))) in
  let? s := WRITEN s 64 (dest i) p in RVal (s, Break).

(** A pointer operand of [OP_BC_PTRDIFF32] and [OP_BC_PTRTOINT64]. *)
Definition ptr_operand (s : vm) (p : Z) : R Z :=
  if negb (Z.land p 0x40000000 =? 0) then RVal (ptr_compose (stackid s) (Z.land p 0xbfffffff))
  else READN s 64 p.

Definition exec_bswap (s : vm) (i : inst) (n : Z) (swap : Z -> Z) (op : Z) : R (vm * ctl) :=
  let? x := READN s n op in
  let? s := WRITEN s n (dest i) (uint n (swap x)) in RVal (s, Break).

(** The switch of [cli_vm_execute]. *)
Definition exec_inst (s : vm) (i : inst) : R (vm * ctl) :=
  match opc i, u i with
  | (OP_BC_ADD | OP_BC_SUB | OP_BC_MUL | OP_BC_UDIV | OP_BC_SDIV | OP_BC_UREM | OP_BC_SREM
     | OP_BC_SHL | OP_BC_LSHR | OP_BC_ASHR | OP_BC_AND | OP_BC_OR | OP_BC_XOR), Binop a b =>
      exec_binop s i a b
  | (OP_BC_ICMP_EQ | OP_BC_ICMP_NE | OP_BC_ICMP_UGT | OP_BC_ICMP_UGE | OP_BC_ICMP_ULT | OP_BC_ICMP_ULE
     | OP_BC_ICMP_SGT | OP_BC_ICMP_SGE | OP_BC_ICMP_SLE | OP_BC_ICMP_SLT), Binop a b =>
      exec_icmp s i a b
  | OP_BC_SEXT, Cast mask source size => exec_sext s i mask source size
  | (OP_BC_ZEXT | OP_BC_TRUNC), Cast _ source size => exec_zext_trunc s i source size
  | OP_BC_BRANCH, Branch c t f =>
      let? v := r_of_opt (load8 (mem s) (values s) c) in
      jump s (if negb (Z.land v 1 =? 0) then t else f)
  | OP_BC_JMP, Jump b => jump s b
  | OP_BC_RET, Unary op => op_ret s (ty i) op
  | OP_BC_SELECT, Three a b c => exec_select s i a b c
  | OP_BC_CALL_API, CallOps ops _ _ funcid => call_api s ops funcid (dest i)
  | OP_BC_CALL_DIRECT, CallOps ops opsizes numOps funcid =>
      call_direct s ops opsizes numOps funcid (dest i)
  | OP_BC_COPY, Binop a b =>
      let? x := READty s (ty i) a in
      let? s := WRITEN s (cwidth (ty i)) b x in RVal (s, Break)
  | OP_BC_LOAD, Unary op => exec_load s i op
  | OP_BC_STORE, Binop a b => exec_store s i a b
  | OP_BC_ISBIGENDIAN, _ => let? s := WRITEN s 8 (dest i) 0 in RVal (s, Break)
  | OP_BC_GEPZ, Three _ b c => exec_gepz s i b c
  | OP_BC_GEP1, Three a b c => exec_gep1 s i a b c
  | (OP_BC_MEMCMP | OP_BC_MEMCPY | OP_BC_MEMMOVE | OP_BC_MEMSET), Three a b c => exec_mem s i a b c
  | OP_BC_BSWAP16, Unary op => exec_bswap s i 16 cbswap16 op
  | OP_BC_BSWAP32, Unary op => exec_bswap s i 32 cbswap32 op
  | OP_BC_BSWAP64, Unary op => exec_bswap s i 64 cbswap64 op
  | OP_BC_PTRDIFF32, Binop a b =>
      let? p := ptr_operand s a in
      let? q := ptr_operand s b in
      let? s := WRITEN s 32 (dest i) (uint 32 (ptr_diff32 p q)) in RVal (s, Break)
  | OP_BC_PTRTOINT64, Unary op =>
      let? p := ptr_operand s op in
      let? s := WRITEN s 64 (dest i) p in RVal (s, Break)
  | (OP_BC_RET_VOID | OP_BC_ABORT | OP_BC_GEPN | OP_BC_INVALID), _ => RHalt CL_EARG
  | _, _ => RUndef
  end.

(** ** The loop *)

(** The instruction [inst] points to: [start] before the first block. *)
Definition fetch (s : vm) (start : inst) : option inst :=
  match bb s with
  | None => Some start
  | Some b => let* insts := bget (BB (fn s)) b in bget insts (bb_inst s)
  end.

(** [bb_inst++; inst++; if (bb) CHECK_GT(bb->numInsts, bb_inst)]: false when the
    check fails. *)
Definition advance (s : vm) : vm :=
  {| mem := mem s; nextb := nextb s; stk := stk s; entries := entries s; fn := fn s; values := values s;
     bb := bb s; bb_inst := bb_inst s + 1; infos := infos s; stackid := stackid s;
     depth := depth s; pc := pc s; api := api s |}.

Definition block_ok (s : vm) : bool :=
  match bb s with
  | None => true
  | Some b =>
      match bget (BB (fn s)) b with
      | Some insts => bb_inst s <? Z.of_nat (length insts)
      | None => false
      end
  end.

Definition tick (s : vm) : vm :=
  {| mem := mem s; nextb := nextb s; stk := stk s; entries := entries s; fn := fn s; values := values s;
     bb := bb s; bb_inst := bb_inst s; infos := infos s; stackid := stackid s;
     depth := depth s; pc := uint 32 (pc s + 1); api := api s |}.

(** The code returned when the loop ends with [stop]. *)
Definition exit_code (stop : Z) : Z := if stop =? CL_BREAK then CL_SUCCESS else stop.

(** One round of the loop: the next state, or the result. *)
Inductive round := Next (s : vm) | Done (code : Z) (s : vm) | Wrong.

Definition step (start : inst) (s : vm) : round :=
  let s := tick s in
  if (pc s `mod` 5000 =? 0) && expired (pc s) then Done CL_ETIMEOUT s else
  match fetch s start with
  | None => Wrong
  | Some i =>
      match exec_inst s i with
      | RVal (s', Continue) => Next s'
      | RVal (s', Finish) => Done (exit_code CL_BREAK) s'
      | RVal (s', Break) =>
          let s' := advance s' in
          if block_ok s' then Next s' else Done CL_EBYTECODE s'
      | RFail code => Done code s
      | RHalt code => Done (exit_code code) s
      | RStop code =>
          let s' := advance s in
          Done (if block_ok s' then exit_code code else CL_EBYTECODE) s'
      | RUndef => Wrong
      end
  end.

(** [cli_vm_execute] after the setup; the fuel bounds the number of rounds. *)
Fixpoint run (fuel : nat) (start : inst) (s : vm) : res (Z * vm) :=
  match fuel with
  | O => NoFuel
  | S f =>
      match step start s with
      | Next s' => run f start s'
      | Done code s' => Ok (code, s')
      | Wrong => Undef
      end
  end.

(** ** Setup *)

(** The globals of the context: object number, address and size of each, in the
    order of [cli_globals]; then the globals of the program as object
    [bcglobalid].  A failed registration is ignored. *)
Fixpoint register_globals (globals : list (Z * option addr * Z)) (i : ptr_infos) : option ptr_infos :=
  match globals with
  | [] => Some i
  | (id, p, size) :: rest =>
      let* (_, i) := ptr_register_glob_fixedid ok i p size id in register_globals rest i
  end.

(** The state before the first round of [cli_vm_execute], where [f] is the
    function made up by [cli_bytecode_run]. *)
Definition vm_init (globals : list (Z * option addr * Z)) (bcglobalid : Z) (f : func)
    (m : memory) (nextb : Z) (a : A) : option vm :=
  let* i := register_globals globals {| stack_infos := []; glob_infos := [] |} in
  let* (_, i) := ptr_register_glob_fixedid ok i
      (if numGlobalBytes bc =? 0 then None else Some (globalBytes bc, 0)) (numGlobalBytes bc) bcglobalid in
  Some {| mem := m; nextb := nextb; stk := Stack.empty_stack; entries := []; fn := f;
          values := ctx_values; bb := None; bb_inst := 0; infos := i; stackid := 0; depth := 0;
          pc := 0; api := a |}.

(** The interpreter branch of [cli_bytecode_run]: a function of [bytes] bytes of
    values whose only instruction calls function [funcid] with the parameters of
    the context, and whose result is stored at offset 0. *)
Definition run_func (bytes : Z) : func :=
  {| numArgs := 0; numBytes := bytes; constants := []; BB := [] |}.

Definition run_inst (numParams funcid : Z) (operands opsizes : list Z) : inst :=
  {| opc := OP_BC_CALL_DIRECT; ty := 0; itype := 0; dest := 0;
     u := CallOps operands opsizes numParams funcid |}.

Definition cli_bytecode_run_interp (fuel : nat) (globals : list (Z * option addr * Z)) (bcglobalid : Z)
    (bytes numParams funcid : Z) (operands opsizes : list Z) (m : memory) (nextb : Z) (a : A)
    : res (Z * vm) :=
  let! m := of_opt (store 8 m ctx_values (bytes - 8) 0) in
  let! s := of_opt (vm_init globals bcglobalid (run_func bytes) m nextb a) in
  run fuel (run_inst numParams funcid operands opsizes) s.

Definition cli_bytecode_context_getresult_int (s : vm) : option Z := load 4 (mem s) ctx_values 0.

End Exec.
End VmExec.
