(* ===== verification/VmFacts.v ===== *)
(** Properties of the bytecode interpreter. *)
From stdpp Require Import base numbers list list_numbers gmap.
From Stdlib Require Import ZArith Lia Bool.
From S2P Require Import Prelude VmStack VmCore VmExec.
Import Errors Alloc VmMem VmPtr VmArith VmExec.
Local Open Scope Z_scope.

(** * Memory *)
Module VmMemFacts.

Lemma load8_in m b o blk : m !! b = Some blk -> 0 <= o < bsize blk ->
  load8 m b o = Some (uint 8 (bdata blk o)).
Proof.
  intros Hb Ho. unfold load8. rewrite Hb. by replace ((0 <=? o) && (o <? bsize blk)) with true by lia.
Qed.

Lemma load_in n m b blk : m !! b = Some blk -> forall o, 0 <= o -> o + Z.of_nat n <= bsize blk ->
  exists v, load n m b o = Some v /\ 0 <= v < 2 ^ (8 * Z.of_nat n).
Proof.
  intros Hb. induction n as [|n IH]; intros o Ho Hn; [by exists 0|]. cbn [load].
  rewrite (load8_in m b o blk) by lia || done. destruct (IH (o + 1)) as (v & -> & Hv); [lia|lia|].
  pose proof (uint_range 8 (bdata blk o) ltac:(lia)) as Hu. change (2 ^ 8) with 256 in Hu.
  eexists. split; [done|].
  replace (8 * Z.of_nat (S n)) with (8 + 8 * Z.of_nat n) by lia.
  rewrite Z.pow_add_r by lia. change (2 ^ 8) with 256. nia.
Qed.

(** Two memories with the same blocks of the same sizes. *)
Definition same_shape (m m' : memory) : Prop :=
  forall b, bsize <$> m' !! b = bsize <$> m !! b.

Lemma same_shape_refl m : same_shape m m.
Proof. done. Qed.

Lemma same_shape_trans m m' m'' : same_shape m m' -> same_shape m' m'' -> same_shape m m''.
Proof. intros H H' b. by rewrite H', H. Qed.

Lemma same_shape_get m m' b blk : same_shape m m' -> m !! b = Some blk ->
  exists blk', m' !! b = Some blk' /\ bsize blk' = bsize blk.
Proof.
  intros H Hb. specialize (H b). rewrite Hb in H. destruct (m' !! b) as [blk'|]; [|done].
  exists blk'. split; [done|]. by injection H.
Qed.

Lemma store8_in m b o v blk : m !! b = Some blk -> 0 <= o < bsize blk ->
  exists m', store8 m b o v = Some m' /\ same_shape m m'.
Proof.
  intros Hb Ho. unfold store8. rewrite Hb. replace ((0 <=? o) && (o <? bsize blk)) with true by lia.
  eexists. split; [done|]. intros b'. destruct (decide (b = b')) as [<-|Hne].
  - by rewrite lookup_insert_eq, Hb.
  - by rewrite lookup_insert_ne.
Qed.

Lemma store_in n : forall m b blk o v, m !! b = Some blk -> 0 <= o -> o + Z.of_nat n <= bsize blk ->
  exists m', store n m b o v = Some m' /\ same_shape m m'.
Proof.
  induction n as [|n IH]; intros m b blk o v Hb Ho Hn; [by exists m|]. cbn [store].
  destruct (store8_in m b o v blk) as (m1 & -> & H1); [done|lia|].
  destruct (same_shape_get _ _ _ _ H1 Hb) as (blk1 & Hb1 & E1).
  destruct (IH m1 b blk1 (o + 1) (v / 256)) as (m' & -> & H'); [done|lia|lia|].
  exists m'. split; [done|]. by eapply same_shape_trans.
Qed.

Lemma store8_shape m b o v m' : store8 m b o v = Some m' -> same_shape m m'.
Proof.
  unfold store8. destruct (m !! b) as [blk|] eqn:Hb; [|done]. destruct (_ && _); [|done].
  intros [= <-] b'. destruct (decide (b = b')) as [<-|Hne].
  - by rewrite lookup_insert_eq, Hb.
  - by rewrite lookup_insert_ne.
Qed.

Lemma store_shape n : forall m b o v m', store n m b o v = Some m' -> same_shape m m'.
Proof.
  induction n as [|n IH]; intros m b o v m'; cbn [store]; [by intros [= <-]|].
  destruct (store8 m b o v) as [m1|] eqn:E; [|done]. intros H.
  eapply same_shape_trans; [by eapply store8_shape|by eapply IH].
Qed.

Lemma store_list_shape l : forall m b o m', store_list m b o l = Some m' -> same_shape m m'.
Proof.
  induction l as [|x l IH]; intros m b o m'; cbn [store_list]; [by intros [= <-]|].
  destruct (store8 m b o x) as [m1|] eqn:E; [|done]. intros H.
  eapply same_shape_trans; [by eapply store8_shape|by eapply IH].
Qed.

(** What is stored is what is loaded. *)
Lemma load_store_same n : forall m b o v m' k, store n m b o v = Some m' -> k < o ->
  load8 m' b k = load8 m b k.
Proof.
  induction n as [|n IH]; intros m b o v m' k; cbn [store]; [by intros [= <-]|].
  unfold store8. destruct (m !! b) as [blk|] eqn:Hb; [|done]. destruct (_ && _); [|done]. intros H Hk.
  rewrite (IH _ _ _ _ _ k H) by lia. unfold load8. rewrite lookup_insert_eq, Hb. cbn.
  by replace (k =? o) with false by lia.
Qed.

Lemma load_store n : forall m b o v m', store n m b o v = Some m' ->
  load n m' b o = Some (uint (8 * Z.of_nat n) v).
Proof.
  induction n as [|n IH]; intros m b o v m' H.
  { cbn. unfold uint. by rewrite Z.mod_1_r. }
  cbn [store] in H. destruct (store8 m b o v) as [m1|] eqn:E; [|done]. cbn [load].
  rewrite (load_store_same n _ _ _ _ _ o H) by lia. rewrite (IH _ _ _ _ _ H).
  unfold store8 in E. destruct (m !! b) as [blk|] eqn:Hb; [|done].
  destruct ((0 <=? o) && (o <? bsize blk)) eqn:Ho; [|done]. injection E as <-.
  unfold load8. rewrite lookup_insert_eq. cbn. rewrite Ho, Z.eqb_refl. f_equal.
  rewrite uint_uint by lia. unfold uint. replace (8 * Z.of_nat (S n)) with (8 + 8 * Z.of_nat n) by lia.
  rewrite Z.pow_add_r by lia. change (2 ^ 8) with 256.
  rewrite (Z.rem_mul_r v 256 (2 ^ (8 * Z.of_nat n))) by (try apply Z.pow_pos_nonneg; lia). done.
Qed.

End VmMemFacts.

(** * Virtual pointers *)
Module VmPtrFacts.

(** The registered object with number [id]. *)
Definition object (infos : ptr_infos) (id : Z) : option ptr_info :=
  if id <? 0 then bget (stack_infos infos) (- id - 1)
  else if id =? 0 then None
  else match bget (glob_infos infos) (id - 1) with Some (Some i) => Some i | _ => None end.

Lemma ptr_compose_eq id off : ptr_compose id off = 2 ^ 32 * uint 32 (sint 32 id) + uint 32 off.
Proof.
  unfold ptr_compose. rewrite Z.shiftl_mul_pow2 by lia.
  pose proof (uint_range 32 off ltac:(lia)) as Ho. pose proof (uint_range 32 (sint 32 id) ltac:(lia)) as Hi.
  assert (uint 64 (sint 32 id * 2 ^ 32) = Z.shiftl (uint 32 (sint 32 id)) 32) as ->.
  { rewrite Z.shiftl_mul_pow2 by lia. unfold uint. change (2 ^ 64) with (2 ^ 32 * 2 ^ 32).
    rewrite Z.mul_mod_distr_r by lia. done. }
  assert (Z.land (Z.shiftl (uint 32 (sint 32 id)) 32) (uint 32 off) = 0) as Hd.
  { apply Z.bits_inj'. intros n Hn. rewrite Z.land_spec, Z.bits_0.
    destruct (decide (n < 32)); [by rewrite Z.shiftl_spec_low by lia|].
    rewrite andb_comm. replace (Z.testbit (uint 32 off) n) with false; [done|].
    symmetry. unfold uint. by rewrite Z.mod_pow2_bits_high by lia. }
  rewrite <- Z.lxor_lor, <- Z.add_nocarry_lxor by done. rewrite Z.shiftl_mul_pow2 by lia. lia.
Qed.

(** Composing and taking apart. *)
Lemma ptrid_compose id off : ptrid (ptr_compose id off) = sint 32 id.
Proof.
  rewrite ptr_compose_eq. unfold ptrid. pose proof (uint_range 32 off ltac:(lia)).
  rewrite Z.shiftr_div_pow2, Z.mul_comm, Z.div_add_l, (Z.div_small (uint 32 off)), Z.add_0_r by lia.
  rewrite sint_uint by lia. apply sint_small; [lia|]. apply sint_range. lia.
Qed.

Lemma ptroff_compose id off : ptroff (ptr_compose id off) = uint 32 off.
Proof.
  rewrite ptr_compose_eq. unfold ptroff. unfold uint at 1.
  rewrite Z.add_comm, Z.mul_comm, Z.mod_add by lia. apply uint_uint. lia.
Qed.

Lemma ptrid_range p : - 2 ^ 31 <= ptrid p < 2 ^ 31.
Proof. apply (sint_range 32). lia. Qed.

(** The lookup of the object in [ptr_torealptr]. *)
Lemma object_lookup infos p info : ptrid p <> 0 -> nstacks infos < 2 ^ 31 ->
  (if ptrid p <? 0 then
     let i := uint 32 (- ptrid p - 1) in
     if nstacks infos <=? i then Some None
     else let* x := bget (stack_infos infos) i in Some (Some x)
   else
     let i := ptrid p - 1 in
     if nglobs infos <=? i then Some None
     else let* x := bget (glob_infos infos) i in let* y := x in Some (Some y)) = Some (Some info) <->
  object infos (ptrid p) = Some info.
Proof.
  intros Hid Hns. pose proof (ptrid_range p). unfold object, nstacks, nglobs in *.
  destruct (Z.ltb_spec (ptrid p) 0).
  - rewrite uint_small by (change (2 ^ 32) with 4294967296; change (2 ^ 31) with 2147483648 in *; lia).
    cbv zeta. destruct (Z.leb_spec (Z.of_nat (length (stack_infos infos))) (- ptrid p - 1)).
    + split; [done|]. intros Hx%bget_Some. lia.
    + destruct (bget _ _); split; congruence.
  - destruct (Z.eqb_spec (ptrid p) 0); [done|]. cbv zeta.
    destruct (Z.leb_spec (Z.of_nat (length (glob_infos infos))) (ptrid p - 1)).
    + split; [done|]. destruct (bget _ _) eqn:E; [|done]. apply bget_Some in E. lia.
    + destruct (bget _ _) as [[x|]|]; split; congruence.
Qed.

Definition sizes_ok (infos : ptr_infos) : Prop :=
  nstacks infos < 2 ^ 31 /\ forall id info, object infos id = Some info -> isize info <= 2 ^ 31.

(** C22. A virtual pointer is resolved to a real address exactly when it names a
    registered object with a base and the access of [read_size] bytes starts and
    ends inside that object; the address is then the object's base plus the
    offset.  Objects have at most 2^31 bytes, so that the 32-bit sum in the test
    cannot wrap around. *)
Theorem ptr_torealptr_exact infos p read_size b o :
  sizes_ok infos -> 0 <= read_size < 2 ^ 32 ->
  ptr_torealptr infos p read_size = Some (Some (b, o)) <->
  exists info o0, object infos (ptrid p) = Some info /\ base info = Some (b, o0) /\
    o = o0 + ptroff p /\ ptroff p < isize info /\ ptroff p + read_size <= isize info.
Proof.
  intros [Hns Hsz] Hrs. unfold ptr_torealptr. pose proof (uint_range 32 p ltac:(lia)) as Hoff.
  fold (ptroff p) in Hoff. change (2 ^ 31) with 2147483648 in *. change (2 ^ 32) with 4294967296 in *.
  destruct (Z.eqb_spec (ptrid p) 0) as [E0|E0].
  { split; [done|]. intros (info & o0 & Ho & _). unfold object in Ho. by rewrite E0 in Ho. }
  pose proof (object_lookup infos p) as Hlk.
  destruct (if ptrid p <? 0 then _ else _) as [[info|]|] eqn:E; cbn iota.
  - pose proof (proj1 (Hlk info E0 ltac:(lia)) eq_refl) as Ho. pose proof (Hsz _ _ Ho).
    assert (uint 32 (ptroff p + read_size) = ptroff p + read_size \/
            ptroff p + read_size >= 4294967296) as Hsum.
    { destruct (decide (ptroff p + read_size < 4294967296)); [left; apply uint_small; lia|right; lia]. }
    destruct ((ptroff p <? isize info) && (read_size <=? isize info)
              && (uint 32 (ptroff p + read_size) <=? isize info)) eqn:Et.
    + destruct (base info) as [[b' o']|] eqn:Eb.
      * split; [intros [= <- <-]; exists info, o'; split; [done|]; split; [done|]; lia|].
        intros (info' & o0 & Ho' & Eb' & -> & _). congruence.
      * split; [done|]. intros (info' & o0 & Ho' & Eb' & _). congruence.
    + split; [done|]. intros (info' & o0 & Ho' & Eb' & -> & Hlt & Hle).
      assert (info' = info) as -> by congruence. exfalso. lia.
  - split; [done|]. intros (info & o0 & Ho & _). apply Hlk in Ho; [|done|lia]. congruence.
  - split; [done|]. intros (info & o0 & Ho & _). apply Hlk in Ho; [|done|lia]. congruence.
Qed.

Lemma ptr_torealptr_exact_witness :
  exists infos, sizes_ok infos /\
    ptr_torealptr infos (ptr_compose (-1) 4) 4 = Some (Some (7, 104)) /\
    exists info, object infos (-1) = Some info /\ 4 + 4 <= isize info.
Proof.
  exists {| stack_infos := [{| base := Some (7, 100); isize := 8 |}]; glob_infos := [] |}.
  assert (sizes_ok {| stack_infos := [{| base := Some (7, 100); isize := 8 |}]; glob_infos := [] |}) as Hs.
  { split; [reflexivity|]. intros id info H. unfold object in H. cbn [stack_infos glob_infos] in H.
    destruct (id <? 0); [|destruct (id =? 0); [done|]; unfold bget in H; destruct (_ <? 0); done].
    pose proof (bget_Some _ _ _ H) as Hr. cbn in Hr. replace (- id - 1) with 0 in H by lia.
    injection H as <-. vm_compute. congruence. }
  split; [exact Hs|]. split; [reflexivity|].
  destruct (proj1 (ptr_torealptr_exact _ (ptr_compose (-1) 4) 4 7 104 Hs ltac:(split; [discriminate|reflexivity])) eq_refl)
    as (info & o0 & Ho & _ & _ & _ & Hle).
  exists info. split; [exact Ho|exact Hle].
Defined.

(** With a larger object the sum wraps around and an access beyond its end is
    let through. *)
Lemma ptr_torealptr_wraps :
  ptr_torealptr {| stack_infos := []; glob_infos := [Some {| base := Some (1, 0); isize := 2 ^ 32 - 1 |}] |}
    (ptr_compose 1 (2 ^ 32 - 16)) 32 = Some (Some (1, 2 ^ 32 - 16)).
Proof. vm_compute. reflexivity. Qed.

End VmPtrFacts.

(** * Operands *)
Module VmOperandFacts.
Import VmMemFacts.

Definition width (n : Z) : Prop := n = 8 \/ n = 16 \/ n = 32 \/ n = 64.

Lemma width_bytes n : width n -> exists k, 0 <= k <= 3 /\ n / 8 = 2 ^ k /\ n = 8 * 2 ^ k.
Proof. intros [->|[->|[->| ->]]]; [exists 0|exists 1|exists 2|exists 3]; done. Qed.

Lemma cwidth_width ty : width (cwidth ty).
Proof. unfold cwidth, width. repeat case_match; auto. Qed.

Section Operands.
Context {A : Type} (bc : bytecode).
Abbreviation vm := (VmExec.vm A).

(** The values of the running function are a block of [numBytes] bytes. *)
Definition frame_ok (s : vm) : Prop :=
  0 <= numBytes (fn s) < 2 ^ 32 /\
  exists blk, mem s !! values s = Some blk /\ bsize blk = numBytes (fn s).

Definition globals_ok (s : vm) : Prop :=
  0 <= numGlobalBytes bc < 2 ^ 31 /\
  (0 < numGlobalBytes bc ->
   exists blk, mem s !! globalBytes bc = Some blk /\ bsize blk = numGlobalBytes bc).

(** An [n]-bit access at [p] in an area of [max] bytes. *)
Definition fits (n p max : Z) : Prop := p `mod` (n / 8) = 0 /\ p + n / 8 <= max.

(** The two checks of the READ and WRITE macros let through exactly the aligned
    accesses that fit: a sum that wraps around is never aligned. *)
Lemma checks_exact n p max : width n -> 0 <= p < 2 ^ 32 -> 0 <= max < 2 ^ 32 ->
  fits n p max /\ CHECK_GT max (uint 32 (p + n / 8 - 1)) = RVal tt /\
    CHECK_EQ (Z.land p (n / 8 - 1)) 0 = RVal tt \/
  ~ fits n p max /\
    forall B (k : R B), (let? _ := CHECK_GT max (uint 32 (p + n / 8 - 1)) in
      let? _ := CHECK_EQ (Z.land p (n / 8 - 1)) 0 in k) = RFail CL_EBYTECODE.
Proof.
  intros (k & Hk & E8 & _)%width_bytes Hp Hmax. unfold fits, CHECK_GT, CHECK_EQ. rewrite E8.
  rewrite land_mask by lia. pose proof (pow2_gt0 k ltac:(lia)) as Hpos.
  assert (2 ^ k <= 2 ^ 3) by (apply Z.pow_le_mono_r; lia).
  destruct (Z.eqb_spec (p `mod` 2 ^ k) 0) as [Ea|Ea]; cbn [negb].
  - assert (p + 2 ^ k <= 2 ^ 32) as Hle.
    { apply Z.mod_divide in Ea as [q ->]; [|lia].
      replace (2 ^ 32) with (2 ^ (32 - k) * 2 ^ k) in * by (rewrite <- Z.pow_add_r by lia; f_equal; lia).
      assert (q < 2 ^ (32 - k)) by nia. nia. }
    rewrite uint_small by lia.
    destruct (Z.leb_spec max (p + 2 ^ k - 1)); [right; split; [lia|done]|left; split; [lia|done]].
  - right. split; [tauto|]. intros B k'. by destruct (_ <=? _).
Qed.

Lemma READNfrom_spec (s : vm) max from n p : width n -> 0 <= p < 2 ^ 32 -> 0 <= max < 2 ^ 32 ->
  (0 < max -> exists blk, mem s !! from = Some blk /\ bsize blk = max) ->
  (exists v, READNfrom s max from n p = RVal v /\ 0 <= v < 2 ^ n /\ fits n p max /\
     load (Z.to_nat (n / 8)) (mem s) from p = Some v) \/
  READNfrom s max from n p = RFail CL_EBYTECODE /\ ~ fits n p max.
Proof.
  intros Hn Hp Hmax Hblk. unfold READNfrom.
  destruct (checks_exact n p max Hn Hp Hmax) as [(Hf & -> & ->)|[Hf Hk]]; [left|right; split; [apply Hk|done]].
  destruct (width_bytes n Hn) as (k & Hk & E8 & E). pose proof (pow2_gt0 k ltac:(lia)).
  destruct Hf as [Ha Hb]. destruct Hblk as (blk & Hm & Hs); [lia|].
  destruct (load_in (Z.to_nat (n / 8)) (mem s) from blk Hm p) as (v & Hv & Hr); [lia|lia|].
  exists v. rewrite Hv. split; [done|]. split; [|done]. rewrite E8, Z2Nat.id, <- E in Hr by lia. done.
Qed.

(** The area and offset an operand refers to; operand 2^31 stands for zero. *)
Definition operand_ok (s : vm) (n p : Z) : Prop :=
  if p <? 2 ^ 31 then fits n p (numBytes (fn s))
  else p = 2 ^ 31 \/ fits n (p - 2 ^ 31) (numGlobalBytes bc).

Lemma operand_bits p : 0 <= p < 2 ^ 32 ->
  (Z.land p 0x80000000 =? 0) = (p <? 2 ^ 31) /\
  (2 ^ 31 <= p -> Z.land p 0x7fffffff = p - 2 ^ 31).
Proof.
  intros Hp. change 0x80000000 with (Z.shiftl 1 31). rewrite land_shiftl1_testbit by lia.
  change 0x7fffffff with (2 ^ 31 - 1). rewrite land_mask by lia.
  change (2 ^ 31) with 2147483648. change (2 ^ 32) with 4294967296 in Hp.
  split.
  - rewrite Z.testbit_odd, Z.shiftr_div_pow2 by lia. change (2 ^ 31) with 2147483648.
    destruct (Z.ltb_spec p 2147483648); [by rewrite Z.div_small by lia|].
    replace (p / 2147483648) with 1; [done|]. apply Z.div_unique with (p - 2147483648); lia.
  - intros. symmetry. apply Z.mod_unique with 1; lia.
Qed.

Lemma READN_spec (s : vm) n p : frame_ok s -> globals_ok s -> width n -> 0 <= p < 2 ^ 32 ->
  (exists v, READN bc s n p = RVal v /\ 0 <= v < 2 ^ n /\ operand_ok s n p) \/
  READN bc s n p = RFail CL_EBYTECODE /\ ~ operand_ok s n p.
Proof.
  intros [Hnb (blk & Hm & Hs)] [Hg Hgb] Hn Hp. unfold READN, operand_ok.
  destruct (operand_bits p Hp) as [-> Hlow]. destruct (Z.ltb_spec p (2 ^ 31)); cbn [negb].
  - destruct (READNfrom_spec s (numBytes (fn s)) (values s) n p Hn Hp Hnb) as [(v & -> & ? & ? & _)|]; eauto 6.
  - rewrite Hlow by done. destruct (Z.eqb_spec (p - 2 ^ 31) 0) as [E|E].
    + left. exists 0. split; [done|]. destruct (width_bytes n Hn) as (k & ? & _ & ->).
      split; [split; [done|apply pow2_gt0; pose proof (pow2_gt0 k); lia]|left; lia].
    + destruct (READNfrom_spec s (numGlobalBytes bc) (globalBytes bc) n (p - 2 ^ 31) Hn) as [(v & -> & ? & ? & _)|[-> Hf]];
        [lia|change (2 ^ 32) with (2 * 2 ^ 31); lia|done|eauto 7|].
      right. split; [done|]. intros [->|]; [lia|done].
Qed.

Lemma WRITEN_spec (s : vm) n p x : frame_ok s -> width n -> 0 <= p < 2 ^ 32 ->
  (exists m, WRITEN s n p x = RVal (with_mem s m) /\ same_shape (mem s) m /\ fits n p (numBytes (fn s)) /\
     store (Z.to_nat (n / 8)) (mem s) (values s) p x = Some m) \/
  WRITEN s n p x = RFail CL_EBYTECODE /\ ~ fits n p (numBytes (fn s)).
Proof.
  intros [Hnb (blk & Hm & Hs)] Hn Hp. unfold WRITEN.
  destruct (checks_exact n p _ Hn Hp Hnb) as [(Hf & -> & ->)|[Hf Hk]]; [left|right; split; [apply Hk|done]].
  destruct (width_bytes n Hn) as (k & Hk & E8 & E). pose proof (pow2_gt0 k ltac:(lia)).
  destruct (store_in (Z.to_nat (n / 8)) (mem s) (values s) blk p x) as (m & -> & Hsh);
    [done|lia|destruct Hf; lia|]. by exists m.
Qed.

Lemma frame_ok_shape (s : vm) m : frame_ok s -> same_shape (mem s) m -> frame_ok (with_mem s m).
Proof.
  intros [Hnb (blk & Hm & Hs)] Hsh. split; [done|]. cbn.
  destruct (same_shape_get _ _ _ _ Hsh Hm) as (blk' & ? & ?). exists blk'. split; [done|congruence].
Qed.

Lemma globals_ok_shape (s : vm) m : globals_ok s -> same_shape (mem s) m -> globals_ok (with_mem s m).
Proof.
  intros [Hnb Hg] Hsh. split; [done|]. intros Hpos. destruct (Hg Hpos) as (blk & Hm & Hs). cbn.
  destruct (same_shape_get _ _ _ _ Hsh Hm) as (blk' & ? & ?). exists blk'. split; [done|congruence].
Qed.

(** C23. Operands are accessed safely, whatever the operand and the program.
    When the running function's values are a block of its declared size, a read
    of 8, 16, 32 or 64 bits never leaves its area: it yields a value of that
    width exactly if the access is aligned and fits the values (or, for operands
    from 2^31 on, the globals) and fails with CL_EBYTECODE otherwise; the same
    holds for writes, which keep the block and are read back unchanged. *)
Theorem operand_access_safe (s : vm) n p x :
  frame_ok s -> globals_ok s -> width n -> 0 <= p < 2 ^ 32 ->
  ((exists v, READN bc s n p = RVal v /\ 0 <= v < 2 ^ n /\ operand_ok s n p) \/
   READN bc s n p = RFail CL_EBYTECODE /\ ~ operand_ok s n p) /\
  ((exists s', WRITEN s n p x = RVal s' /\ fits n p (numBytes (fn s)) /\ frame_ok s' /\ globals_ok s' /\
      (p < 2 ^ 31 -> READN bc s' n p = RVal (uint n x))) \/
   WRITEN s n p x = RFail CL_EBYTECODE /\ ~ fits n p (numBytes (fn s))).
Proof.
  intros Hf Hg Hn Hp. split; [by apply READN_spec|].
  destruct (WRITEN_spec s n p x Hf Hn Hp) as [(m & E & Hsh & Hfit & Hst)|]; [left|by right].
  exists (with_mem s m). split; [done|]. split; [done|].
  pose proof (frame_ok_shape s m Hf Hsh) as Hf'. split; [done|]. split; [by apply globals_ok_shape|].
  intros Hlow. unfold READN. destruct (operand_bits p Hp) as [-> _].
  replace (p <? 2 ^ 31) with true by lia. cbn [negb].
  destruct Hf' as [Hnb (blk & Hm & Hs)].
  change (READNfrom (with_mem s m) (numBytes (fn s)) (values s) n p = RVal (uint n x)).
  destruct (READNfrom_spec (with_mem s m) (numBytes (fn s)) (values s) n p Hn Hp Hnb) as [(v & -> & _ & _ & Hl)|[_ []]];
    [eauto| |done].
  f_equal. cbn in Hl. apply load_store in Hst. rewrite Hst in Hl. injection Hl as <-.
  destruct (width_bytes n Hn) as (k & ? & E8 & En). pose proof (pow2_gt0 k ltac:(lia)).
  rewrite E8, Z2Nat.id, <- En by lia. done.
Qed.
End Operands.

(** A state with eight bytes of values and no globals. *)
Definition demo_func : func := {| numArgs := 0; numBytes := 8; constants := []; BB := [] |}.
Definition demo_bc : bytecode := {| funcs := [demo_func]; globalBytes := 0; numGlobalBytes := 0 |}.
Definition demo_state : VmExec.vm unit :=
  {| mem := {[1 := {| bsize := 8; bdata := fun _ => 0 |}]}; nextb := 2; stk := Stack.empty_stack;
     entries := []; fn := demo_func; values := 1; bb := None; bb_inst := 0;
     infos := {| stack_infos := []; glob_infos := [] |}; stackid := 0; depth := 0; pc := 0; api := tt |}.

Lemma demo_frame_ok : frame_ok demo_state /\ globals_ok demo_bc demo_state.
Proof.
  split; [split; [split; [discriminate|reflexivity]|]|split; [split; [discriminate|reflexivity]|]].
  - exists {| bsize := 8; bdata := fun _ => 0 |}. split; reflexivity.
  - intros H. discriminate H.
Qed.

Lemma operand_access_safe_witness :
  exists s', WRITEN demo_state 32 4 0x12345678 = RVal s' /\ READN demo_bc s' 32 4 = RVal 0x12345678.
Proof.
  destruct demo_frame_ok as [Hf Hg].
  destruct (operand_access_safe demo_bc demo_state 32 4 0x12345678 Hf Hg)
    as [_ [(s' & E & _ & _ & _ & Hr)|[_ Hn]]].
  - right. right. left. reflexivity.
  - split; [discriminate|reflexivity].
  - exists s'. split; [exact E|]. rewrite Hr by reflexivity. reflexivity.
  - exfalso. apply Hn. split; [reflexivity|discriminate].
Defined.

End VmOperandFacts.

(** * Arithmetic *)
Module VmArithFacts.

(** What the instructions mean on [w]-bit values, as in LLVM: [None] where the
    result is undefined. *)
Definition llvm_binop (op : opcode) (w a b : Z) : option Z :=
  let sa := sint w a in
  let sb := sint w b in
  match op with
  | OP_BC_ADD => Some (uint w (a + b))
  | OP_BC_SUB => Some (uint w (a - b))
  | OP_BC_MUL => Some (uint w (a * b))
  | OP_BC_UDIV => if b =? 0 then None else Some (a / b)
  | OP_BC_UREM => if b =? 0 then None else Some (a `mod` b)
  | OP_BC_SDIV =>
      if (sb =? 0) || ((sa =? - 2 ^ (w - 1)) && (sb =? -1)) then None else Some (uint w (Z.quot sa sb))
  | OP_BC_SREM =>
      if (sb =? 0) || ((sa =? - 2 ^ (w - 1)) && (sb =? -1)) then None else Some (uint w (Z.rem sa sb))
  | OP_BC_SHL => if w <=? b then None else Some (uint w (a * 2 ^ b))
  | OP_BC_LSHR => if w <=? b then None else Some (a / 2 ^ b)
  | OP_BC_ASHR => if w <=? b then None else Some (uint w (sa / 2 ^ b))
  | OP_BC_AND => Some (Z.land a b)
  | OP_BC_OR => Some (Z.lor a b)
  | OP_BC_XOR => Some (Z.lxor a b)
  | _ => None
  end.

Definition is_binop (op : opcode) : Prop :=
  match op with
  | OP_BC_ADD | OP_BC_SUB | OP_BC_MUL | OP_BC_UDIV | OP_BC_SDIV | OP_BC_UREM | OP_BC_SREM
  | OP_BC_SHL | OP_BC_LSHR | OP_BC_ASHR | OP_BC_AND | OP_BC_OR | OP_BC_XOR => True
  | _ => False
  end.

(** The inputs where the interpreter departs from it: the signed divisions that
    [check_sdivops] mistakes, a shift by exactly the width, and narrow operands
    whose promoted product or shift does not fit in [int]. *)
Definition corner (op : opcode) (w a b : Z) : Prop :=
  match op with
  | OP_BC_SDIV | OP_BC_SREM =>
      sint w a = - 2 ^ (w - 1) /\ sint w b = -1 \/ sint w a = -1 /\ sint w b = - 2 ^ 63
  | OP_BC_SHL => b = w \/ w < 32 /\ 2 ^ 31 <= a * 2 ^ b
  | OP_BC_LSHR | OP_BC_ASHR => b = w
  | OP_BC_MUL => w < 32 /\ 2 ^ 31 <= a * b
  | _ => False
  end.

Lemma quot_range m a b : - m <= a < m -> b <> 0 -> ~ (a = - m /\ b = -1) ->
  - m <= Z.quot a b < m.
Proof.
  intros Ha Hb Hc. destruct (decide (b = 1)) as [->|]; [by rewrite Z.quot_1_r|].
  destruct (decide (b = -1)) as [->|].
  { change (-1) with (- (1)). rewrite Z.quot_opp_r, Z.quot_1_r by lia. lia. }
  pose proof (Z.quot_abs a b Hb) as E. rewrite Z.quot_div_nonneg in E by lia.
  assert (Z.abs a / Z.abs b <= Z.abs a / 2) by (apply Z.div_le_compat_l; lia).
  assert (Z.abs a / 2 < m) by (apply Z.div_lt_upper_bound; lia). lia.
Qed.

Lemma class_width ty : 1 <= ty <= 4 -> exists w, cwidth ty = w /\
  (w = 8 \/ w = 16 \/ w = 32 \/ w = 64) /\ iwidth ty = Z.max 32 w.
Proof.
  intros H. exists (cwidth ty). split; [done|]. split; [|done].
  assert (ty = 1 \/ ty = 2 \/ ty = 3 \/ ty = 4) as [->|[->|[->| ->]]] by lia; cbn; auto.
Qed.

Lemma int_ok_true ty v : - 2 ^ (iwidth ty - 1) <= v < 2 ^ (iwidth ty - 1) -> int_ok ty v = true.
Proof. unfold int_ok. lia. Qed.

Lemma pow_half_le w ty : (w = 8 \/ w = 16 \/ w = 32 \/ w = 64) -> iwidth ty = Z.max 32 w ->
  2 ^ (w - 1) <= 2 ^ (iwidth ty - 1).
Proof. intros Hw ->. apply Z.pow_le_mono_r; lia. Qed.

Lemma sdiv_case ty w a b (f : Z -> Z -> Z) : cwidth ty = w -> iwidth ty = Z.max 32 w ->
  (w = 8 \/ w = 16 \/ w = 32 \/ w = 64) ->
  ~ (sint w a = - 2 ^ (w - 1) /\ sint w b = -1 \/ sint w a = -1 /\ sint w b = - 2 ^ 63) ->
  (let? _ := CHECK_OP (check_sdivops (sint w a) (sint w b)) in
   if negb (int_ok ty (Z.quot (sint w a) (sint w b))) then RUndef else RVal (uint w (f (sint w a) (sint w b)))) =
  match (if (sint w b =? 0) || ((sint w a =? - 2 ^ (w - 1)) && (sint w b =? -1)) then None
         else Some (uint w (f (sint w a) (sint w b)))) with
  | Some r => RVal r | None => RStop CL_EBYTECODE end.
Proof.
  intros Ew Ei Hw Hc. pose proof (sint_range w a ltac:(lia)) as Ha. unfold check_sdivops, CHECK_OP.
  destruct (Z.eqb_spec (sint w b) 0) as [|Hb]; [done|]. cbn [orb].
  replace ((sint w a =? -1) && (sint w b =? - 2 ^ 63)) with false by lia.
  replace ((sint w a =? - 2 ^ (w - 1)) && (sint w b =? -1)) with false by lia.
  pose proof (quot_range (2 ^ (w - 1)) _ _ Ha Hb ltac:(tauto)) as Hq.
  pose proof (pow_half_le w ty Hw Ei). rewrite int_ok_true by lia. done.
Qed.

(** C24. Arithmetic.  On operands of 8, 16, 32 or 64 bits every binary
    instruction yields the result LLVM defines for it, and stops the program
    with CL_EBYTECODE where LLVM leaves the result undefined (division by zero,
    a shift by more than the width), apart from the corner cases above. *)
Theorem binop_correct op ty a b :
  1 <= ty <= 4 -> is_binop op -> 0 <= a < 2 ^ cwidth ty -> 0 <= b < 2 ^ cwidth ty ->
  ~ corner op (cwidth ty) a b ->
  binop op ty (cwidth ty) a b =
  match llvm_binop op (cwidth ty) a b with Some r => RVal r | None => RStop CL_EBYTECODE end.
Proof.
  intros Hty Hop. destruct (class_width ty Hty) as (w & Ew & Hw & Ei).
  assert (0 < 2 ^ w) as Hpos by (apply pow2_gt0; lia).
  unfold binop, llvm_binop. rewrite Ew. intros Ha Hb Hc.
  assert (forall x, 0 <= x <= a -> uint w x = x) as Hsmall by (intros; apply uint_small; lia).
  destruct op; try done; cbn [corner] in Hc.
  - destruct (Z.ltb_spec w 32); [|done]. cbn [andb]. rewrite int_ok_true; [done|].
    rewrite Ei. replace (Z.max 32 w - 1) with 31 by lia. nia.
  - unfold CHECK_OP. destruct (Z.eqb_spec b 0); [done|].
    rewrite Hsmall; [done|]. split; [apply Z.div_pos; lia|apply Z.div_le_upper_bound; nia].
  - by apply sdiv_case.
  - unfold CHECK_OP. destruct (Z.eqb_spec b 0); [done|].
    rewrite Hsmall; [done|]. split; [apply Z.mod_pos_bound; lia|apply Z.mod_le; lia].
  - by apply sdiv_case.
  - unfold CHECK_OP. destruct (Z.ltb_spec w b), (Z.leb_spec w b); try (exfalso; tauto || lia); [done|].
    rewrite Z.shiftl_mul_pow2 by lia. destruct (Z.leb_spec (iwidth ty) b); [lia|]. cbn [orb].
    destruct (Z.ltb_spec w 32); [|done]. cbn [andb]. rewrite int_ok_true; [done|].
    rewrite Ei. replace (Z.max 32 w - 1) with 31 by lia. pose proof (pow2_gt0 b). nia.
  - unfold CHECK_OP. destruct (Z.ltb_spec w b), (Z.leb_spec w b); try lia; [done|].
    rewrite Z.shiftr_div_pow2 by lia. destruct (Z.leb_spec (iwidth ty) b); [lia|].
    pose proof (pow2_gt0 b). rewrite Hsmall; [done|].
    split; [apply Z.div_pos; lia|apply Z.div_le_upper_bound; nia].
  - unfold CHECK_OP. destruct (Z.ltb_spec w b), (Z.leb_spec w b); try lia; [done|].
    rewrite Z.shiftr_div_pow2 by lia. by destruct (Z.leb_spec (iwidth ty) b); [lia|].
Qed.

Lemma binop_correct_witness :
  binop OP_BC_SDIV 3 32 (uint 32 (-7)) 2 = RVal (uint 32 (-3)) /\
  binop OP_BC_UDIV 3 32 7 0 = RStop CL_EBYTECODE.
Proof.
  split.
  - refine (eq_trans (binop_correct OP_BC_SDIV 3 (uint 32 (-7)) 2 _ _ _ _ _) eq_refl);
      vm_compute; intuition congruence.
  - refine (eq_trans (binop_correct OP_BC_UDIV 3 7 0 _ _ _ _ _) eq_refl);
      vm_compute; intuition congruence.
Defined.

(** The corner cases are real.  [check_sdivops] tests its operands the wrong way
    round: dividing the smallest number by -1 goes through to the machine, and
    -1 divided by the smallest number, which is 0, is refused. *)
Lemma sdiv_operands_swapped :
  binop OP_BC_SDIV 4 64 (2 ^ 63) (2 ^ 64 - 1) = RUndef /\
  binop OP_BC_SDIV 4 64 (2 ^ 64 - 1) (2 ^ 63) = RStop CL_EBYTECODE /\
  llvm_binop OP_BC_SDIV 64 (2 ^ 64 - 1) (2 ^ 63) = Some 0.
Proof. vm_compute. done. Qed.

(** The guard of the shifts lets a shift by the full width through. *)
Lemma shift_by_width_unguarded : binop OP_BC_SHL 3 32 1 32 = RUndef.
Proof. vm_compute. done. Qed.

End VmArithFacts.
