(* ===== verification/VmInv.v ===== *)
(** The invariant of the bytecode interpreter: frames, stack and memory. *)
From stdpp Require Import base numbers list list_numbers gmap.
From Stdlib Require Import ZArith Lia Bool.
From S2P Require Import Prelude VmStack VmCore VmExec VmFacts.
Import Errors Alloc VmMem VmPtr VmArith VmExec VmMemFacts VmOperandFacts.
Local Open Scope Z_scope.

Module VmInv.

(** A block of a given size. *)
Definition has_block (m : memory) (b n : Z) : Prop :=
  exists blk, m !! b = Some blk /\ bsize blk = n.

Lemma has_block_shape m m' b n : same_shape m m' -> has_block m b n -> has_block m' b n.
Proof.
  intros Hsh (blk & Hb & Hn). destruct (same_shape_get _ _ _ _ Hsh Hb) as (blk' & ? & ?).
  exists blk'. split; [done|congruence].
Qed.

(** Memory that grew: old blocks kept, new ones numbered upwards. *)
Definition extends (m : memory) (n : Z) (m' : memory) (n' : Z) : Prop :=
  n <= n' /\ (forall b k, b < n -> has_block m b k -> has_block m' b k) /\
  (forall b, is_Some (m' !! b) -> b < n').

(** Case analysis on the binds of an instruction that returned a state. *)
Ltac r_cases :=
  repeat match goal with
  | |- (match ?m with _ => _ end) = RVal _ -> _ =>
      lazymatch m with
      | WRITEN _ _ _ _ => let E := fresh "Ew" in destruct m eqn:E; try (intros; discriminate)
      | r_of_opt ?o => destruct o eqn:?; cbn [r_of_opt]; try (intros; discriminate)
      | _ => destruct m eqn:?; try (intros; discriminate)
      end
  end.

Section Inv.
Context {A : Type}.
Context (bc : bytecode) (ctx_values : Z) (ok : bool) (junk : Z -> Z) (apicalls : list Z).
Context (apicall : Z -> list apiarg -> memory * Z * A -> option (apires * (memory * Z * A))).
Context (expired : Z -> bool).
Abbreviation vm := (VmExec.vm A).

(** Functions as the loader prepares them: the size of the values is a multiple
    of 8, leaves room for the constants and for the stack entry. *)
Definition func_ok (f : func) : Prop :=
  0 <= numBytes f < 2 ^ 31 - 48 /\ numBytes f `mod` 8 = 0 /\ 8 * numConstants f <= numBytes f.

Definition bc_ok : Prop :=
  Forall func_ok (funcs bc) /\ 0 <= numGlobalBytes bc < 2 ^ 31.

(** The API keeps the blocks it is given. *)
Definition api_ok : Prop := forall id args m n a r m' n' a',
  apicall id args (m, n, a) = Some (r, (m', n', a')) ->
  (forall b, is_Some (m !! b) -> b < n) -> extends m n m' n'.

(** The block of the values of the function below the entries [es]. *)
Definition caller_values (es : list stack_entry) : Z :=
  match es with e :: _ => e_values e | [] => ctx_values end.

(** The entries of the call stack: each function's values are a block of its
    declared size, newer blocks have larger numbers. *)
Fixpoint chain (m : memory) (es : list stack_entry) (f : func) : Prop :=
  0 <= numBytes f < 2 ^ 32 /\ has_block m (caller_values es) (numBytes f) /\
  match es with
  | [] => True
  | e :: rest =>
      caller_values rest < e_values e /\ globalBytes bc < e_values e /\ chain m rest (e_func e)
  end.

Definition raddr (r : StackFacts.region) : Z * Z := (StackFacts.r_chunk r, StackFacts.r_off r).

Record inv (s : vm) : Prop := {
  inv_chain : chain (mem s) (entries s) (fn s);
  inv_values : values s = caller_values (entries s);
  inv_globals : 0 < numGlobalBytes bc -> has_block (mem s) (globalBytes bc) (numGlobalBytes bc);
  inv_next : forall b, is_Some (mem s !! b) -> b < nextb s;
  inv_global_next : globalBytes bc < nextb s;
  inv_depth : depth s = Z.of_nat (length (entries s)) /\ depth s <= 10001;
  inv_stack : exists ss, StackFacts.wf (stk s) ss /\
    map e_addr (entries s) = map raddr (StackFacts.regions (Stack.chunks (stk s)) ss) }.

Lemma chain_shape m m' es f : same_shape m m' -> chain m es f -> chain m' es f.
Proof.
  intros Hsh. revert f. induction es as [|e es IH]; intros f; cbn.
  - intros (? & ? & _). split; [done|]. split; [by eapply has_block_shape|done].
  - intros (? & ? & ? & ? & ?). split; [done|]. split; [by eapply has_block_shape|]. auto.
Qed.

Lemma same_shape_is_Some m m' b : same_shape m m' -> is_Some (m' !! b) <-> is_Some (m !! b).
Proof.
  intros H. specialize (H b). destruct (m' !! b), (m !! b); try done; split; intros []; eauto; done.
Qed.

(** Changing memory inside the blocks keeps the invariant. *)
Lemma inv_with_mem s m : same_shape (mem s) m -> inv s -> inv (with_mem s m).
Proof.
  intros Hsh []. split; cbn; try done; [by eapply chain_shape| |].
  - intros Hg. eapply has_block_shape; [done|]. auto.
  - intros b Hb. apply inv_next0. by apply (same_shape_is_Some _ _ _ Hsh).
Qed.

Lemma inv_frame_ok s : inv s -> frame_ok s.
Proof.
  intros H. pose proof (inv_chain _ H) as Hc. unfold frame_ok. rewrite (inv_values _ H).
  destruct (entries s); cbn in Hc; by destruct Hc as (? & ? & _).
Qed.

Lemma inv_globals_ok s : bc_ok -> inv s -> globals_ok bc s.
Proof. intros [_ Hg] H. split; [done|]. apply (inv_globals _ H). Qed.

(** A write of an operand. *)
Lemma WRITEN_inv (s : vm) n p x s' : WRITEN s n p x = RVal s' -> exists m, s' = with_mem s m /\ same_shape (mem s) m.
Proof.
  unfold WRITEN. destruct (CHECK_GT _ _); [|done..]. destruct (CHECK_EQ _ _); [|done..].
  destruct (store _ _ _ _ _) as [m|] eqn:E; [|done]. cbn. intros [= <-].
  exists m. split; [done|]. by eapply store_shape.
Qed.

Lemma inv_write (s : vm) n p x s' : WRITEN s n p x = RVal s' -> inv s -> inv s'.
Proof. intros (m & -> & Hsh)%WRITEN_inv H. by apply inv_with_mem. Qed.

Lemma inv_jump (s : vm) b s' c : jump s b = RVal (s', c) -> inv s -> inv s'.
Proof. unfold jump. destruct (_ <=? _); [done|]. intros [= <- <-] []. by split. Qed.

(** ** Calls and returns *)

Lemma copy_constants_shape b l : forall m o m',
  (fix copy (m : memory) (o : Z) (l : list Z) : option memory :=
     match l with
     | [] => Some m
     | c :: l' => let* m := store 8 m b o c in copy m (o + 8) l'
     end) m o l = Some m' -> same_shape m m'.
Proof.
  induction l as [|c l IH]; intros m o m'; [by intros [= <-]|].
  destruct (store 8 m b o c) as [m1|] eqn:E; [|done]. intros H.
  eapply same_shape_trans; [by eapply store_shape|by eapply IH].
Qed.

Lemma copy_args_shape (s : vm) func2 b n : forall i j ops opsizes m m',
  copy_args s func2 b n i j ops opsizes m = RVal m' -> same_shape m m'.
Proof.
  induction n as [|n IH]; intros i j ops opsizes m m'; cbn [copy_args]; [by intros [= <-]|].
  destruct (bget opsizes i) as [size|]; [|done]. destruct (bget ops i) as [op|]; [|done]. cbn [r_of_opt].
  destruct (_ || _); [|by apply IH]. destruct (READOLD _ _ _); [|done..].
  destruct (CHECK_GT _ _); [|done..]. destruct (store _ _ _ _ _) as [m1|] eqn:E; [|done]. cbn [r_of_opt].
  intros H. eapply same_shape_trans; [by eapply store_shape|by eapply IH].
Qed.

(** Blocks below a fresh number are untouched by the allocation of the new one. *)
Lemma chain_fresh m es f b blk : caller_values es < b -> chain m es f -> chain (<[b := blk]> m) es f.
Proof.
  revert f. induction es as [|e es IH]; intros f Hb; cbn.
  - intros (? & (blk' & ? & ?) & _). split; [done|]. split; [|done]. exists blk'. cbn in Hb.
    by rewrite lookup_insert_ne by lia.
  - cbn in Hb. intros (? & (blk' & ? & ?) & ? & ? & ?). split; [done|]. split.
    + exists blk'. by rewrite lookup_insert_ne by lia.
    + split; [done|]. split; [done|]. apply IH; [lia|done].
Qed.

Lemma caller_values_next s : inv s -> caller_values (entries s) < nextb s.
Proof.
  intros H. apply (inv_next _ H). pose proof (inv_chain _ H) as Hc.
  destruct (entries s); cbn in Hc; destruct Hc as (_ & (blk & Hb & _) & _); eauto.
Qed.

Lemma inv_allocate s func2 ret s1 : inv s -> func_ok func2 -> depth s <= 10000 ->
  allocate_stack ok junk s func2 ret = Some (Some s1) ->
  let b := nextb s in
  chain (mem s1) (entries s1) func2 /\ caller_values (entries s1) = b /\ nextb s1 = b + 1 /\
  (0 < numGlobalBytes bc -> has_block (mem s1) (globalBytes bc) (numGlobalBytes bc)) /\
  (forall b', is_Some (mem s1 !! b') -> b' < b + 1) /\
  length (entries s1) = S (length (entries s)) /\ depth s1 = depth s /\
  exists ss, StackFacts.wf (stk s1) ss /\
  map e_addr (entries s1) = map raddr (StackFacts.regions (Stack.chunks (stk s1)) ss).
Proof.
  intros H Hf Hd. pose proof (caller_values_next s H) as Hcv. unfold allocate_stack.
  destruct Hf as (Hnb & _). destruct (inv_stack _ H) as (ss & Hwf & Haddr).
  rewrite uint_small by (change (2 ^ 31) with 2147483648 in *; change (2 ^ 32) with 4294967296; lia).
  destruct (StackFacts.alloc_spec ok junk (stk s) ss (48 + numBytes func2) Hwf)
    as [[-> _]|(st' & ss' & r & -> & Hp & Hwf' & _)]; [lia|done|].
  match goal with |- context [?f (<[_ := _]> (mem s)) _ (constants func2)] =>
    destruct (f (<[nextb s := {| bsize := numBytes func2; bdata := junk |}]> (mem s))
                (numBytes func2 - numConstants func2 * 8) (constants func2)) as [m|] eqn:E; [|done] end.
  intros [= <-]. cbn. apply copy_constants_shape in E.
  assert (is_Some (mem s !! nextb s) -> False) as Hnew by (intros Hs%(inv_next _ H); lia).
  split; [|split; [done|split; [done|split; [|split; [|split; [done|split; [done|]]]]]]].
  - cbn. split; [change (2 ^ 32) with 4294967296; change (2 ^ 31) with 2147483648 in *; lia|].
    split; [|split; [done|split; [apply (inv_global_next _ H)|]]].
    + eapply has_block_shape; [done|]. exists {| bsize := numBytes func2; bdata := junk |}.
      by rewrite lookup_insert_eq.
    + eapply chain_shape; [done|]. apply chain_fresh; [done|]. apply (inv_chain _ H).
  - intros Hg. eapply has_block_shape; [done|]. destruct (inv_globals _ H Hg) as (blk & Hb & Hs).
    pose proof (inv_global_next _ H). exists blk. by rewrite lookup_insert_ne by lia.
  - intros b' Hb'%(same_shape_is_Some _ _ _ E). destruct (decide (b' = nextb s)) as [->|Hne]; [lia|].
    rewrite lookup_insert_ne in Hb' by done. pose proof (inv_next _ H b' Hb'). lia.
  - exists ss'. split; [done|]. rewrite (StackFacts.pushed_regions _ _ _ _ _ _ Hp), Haddr. done.
Qed.

Lemma inv_call s ops opsizes numOps funcid ret s' c : bc_ok -> inv s ->
  call_direct bc ok junk s ops opsizes numOps funcid ret = RVal (s', c) -> inv s'.
Proof.
  intros [Hfs _] H. unfold call_direct.
  destruct (bget (funcs bc) funcid) as [func2|] eqn:Ef; [|done].
  assert (func_ok func2) as Hf.
  { pose proof (bget_Some _ _ _ Ef). rewrite bget_lookup in Ef by lia.
    rewrite Forall_lookup in Hfs. eauto. }
  destruct (CHECK_EQ _ _); [|done..]. destruct (allocate_stack _ _ _ _ _) as [[s1|]|] eqn:Ea; [|done..].
  cbn [r_of_opt]. destruct (Z.ltb_spec 10000 (depth s)); [done|].
  destruct (inv_allocate s func2 ret s1 H Hf ltac:(lia) Ea) as (Hc & Hcv & Hn & Hg & Hb & Hl & Hd & ss & Hw & Ha).
  destruct (copy_args _ _ _ _ _ _ _ _ _) as [m| | | |] eqn:Ec; [|done..].
  apply copy_args_shape in Ec. destruct (ptr_register_stack _ _ _ _ _) as [p infos'].
  destruct (_ <=? 0); [done|]. intros Hj. eapply inv_jump; [done|]. pose proof (inv_depth _ H) as [Hdep _].
  assert (uint 32 (depth s1 + 1) = depth s + 1) as Eu.
  { rewrite Hd. apply uint_small. change (2 ^ 32) with 4294967296. lia. }
  split; cbn; try done.
  - by eapply chain_shape.
  - intros Hg'. eapply has_block_shape; [done|]. auto.
  - intros b' Hb'%(same_shape_is_Some _ _ _ Ec). rewrite Hn. auto.
  - pose proof (inv_global_next _ H). lia.
  - rewrite Eu, Hl. lia.
  - by exists ss.
Qed.

(** Removing the newest block. *)
Lemma chain_delete m es f b : caller_values es < b -> chain m es f -> chain (delete b m) es f.
Proof.
  revert f. induction es as [|e es IH]; intros f Hb; cbn.
  - intros (? & (blk' & ? & ?) & _). split; [done|]. split; [|done]. exists blk'. cbn in Hb.
    by rewrite lookup_delete_ne by lia.
  - cbn in Hb. intros (? & (blk' & ? & ?) & ? & ? & ?). split; [done|]. split.
    + exists blk'. by rewrite lookup_delete_ne by lia.
    + split; [done|]. split; [done|]. apply IH; [lia|done].
Qed.

Lemma inv_ret s ty op s' c : inv s -> op_ret bc ctx_values s ty op = RVal (s', c) -> inv s'.
Proof.
  intros H. unfold op_ret. destruct (READty _ _ _ _); [|done..].
  unfold CHECK_GT at 1. destruct (Z.leb_spec (depth s) 0); [done|].
  pose proof (inv_chain _ H) as Hc. pose proof (inv_values _ H) as Hv.
  pose proof (inv_depth _ H) as Hd. destruct (inv_stack _ H) as (ss & Hwf & Haddr).
  destruct (entries s) as [|e rest]; [done|]. cbn in Hc, Hv, Hd, Haddr.
  destruct (StackFacts.regions (Stack.chunks (stk s)) ss) as [|r rs] eqn:Er; [done|].
  injection Haddr as Ea Haddr. destruct (StackFacts.free_top _ _ _ _ Hwf Er) as (st' & ss' & Ef & Hwf' & Er').
  rewrite Ea. unfold raddr at 1. rewrite Ef. cbn [r_of_opt].
  destruct Hc as (_ & _ & Hlt & Hgl & Hc).
  match goal with |- context [CHECK_GT (numBytes (fn ?x)) _] => set (s1 := x) end.
  assert (inv s1) as H1.
  { split; cbn; try done.
    - by apply chain_delete.
    - intros Hg. destruct (inv_globals _ H Hg) as (blk & Hb & Hs). exists blk.
      by rewrite lookup_delete_ne by lia.
    - intros b Hb. apply (inv_next _ H). destruct Hb as [x Hx]. apply lookup_delete_Some in Hx as [_ Hx]. eauto.
    - apply (inv_global_next _ H).
    - lia.
    - exists ss'. split; [done|]. by rewrite Er'. }
  destruct (CHECK_GT _ _); [|done..]. destruct (WRITEN _ _ _ _) as [s2| | | |] eqn:Ew; [|done..].
  pose proof (inv_write _ _ _ _ _ Ew H1). by destruct (bb s2); intros [= <- <-].
Qed.

(** ** The other instructions *)

(** Case analysis on the steps of an instruction that succeeds. *)
Lemma inv_api_call s id args r s' : api_ok -> inv s ->
  call_api_fn apicall s id args = RVal (r, s') -> inv s'.
Proof.
  intros Hapi H. unfold call_api_fn.
  destruct (apicall id args (mem s, nextb s, api s)) as [[r0 [[m n] a]]|] eqn:E; [|done]. cbn.
  intros [= -> <-]. destruct (Hapi _ _ _ _ _ _ _ _ _ E (inv_next _ H)) as (Hn & Hold & Hnew).
  pose proof (caller_values_next s H) as Hcv.
  assert (forall es f, caller_values es < nextb s -> chain (mem s) es f -> chain m es f) as Hch.
  { induction es as [|e es IH]; intros f Hlt; cbn.
    - intros (? & Hb & _). split; [done|]. split; [by apply Hold|done].
    - cbn in Hlt. intros (? & Hb & ? & ? & ?). split; [done|]. split; [by apply Hold|].
      split; [done|]. split; [done|]. apply IH; [lia|done]. }
  destruct H. split; cbn; try done; [by apply Hch| |lia].
  intros Hg. apply Hold; auto.
Qed.

Lemma inv_with_infos s i : inv s -> inv (with_infos s i).
Proof. intros []. by split. Qed.

Lemma inv_api_int s id args d s' c : api_ok -> inv s ->
  api_int apicall s id args d = RVal (s', c) -> inv s'.
Proof.
  intros Hapi H. unfold api_int. destruct (call_api_fn apicall s id args) as [[r s1]| | | |] eqn:E; [|done..].
  pose proof (inv_api_call _ _ _ _ _ Hapi H E) as H1. r_cases. intros [= <- <-]. by eapply inv_write.
Qed.

Lemma inv_api_ptr s id args size d s' c : api_ok -> inv s ->
  api_ptr ok apicall s id args size d = RVal (s', c) -> inv s'.
Proof.
  intros Hapi H. unfold api_ptr. destruct (call_api_fn apicall s id args) as [[r s1]| | | |] eqn:E; [|done..].
  pose proof (inv_api_call _ _ _ _ _ Hapi H E) as H1. r_cases. intros [= <- <-].
  eapply inv_write; [done|]. by apply inv_with_infos.
Qed.

Lemma inv_call_api s ops funcid d s' c : api_ok -> inv s ->
  call_api bc ok apicalls apicall s ops funcid d = RVal (s', c) -> inv s'.
Proof.
  intros Hapi H. unfold call_api. destruct (bget apicalls funcid) as [kind|]; [|done]. cbv zeta.
  repeat match goal with
  | |- (if ?b then _ else _) = _ -> _ => destruct b
  end; r_cases; solve [eauto using inv_api_int, inv_api_ptr | discriminate].
Qed.

Lemma memmove_shape m d s n m' : memmove m d s n = Some m' -> same_shape m m'.
Proof.
  unfold memmove. destruct (_ && _); [|done]. destruct (load_list _ _ _ _); [|done]. apply store_list_shape.
Qed.

Lemma memcpy_shape m d s n m' : memcpy m d s n = Some m' -> same_shape m m'.
Proof. unfold memcpy. destruct (negb _); [|done]. apply memmove_shape. Qed.

Lemma memset_shape m d v n m' : memset m d v n = Some m' -> same_shape m m'.
Proof. unfold memset. destruct (in_block _ _ _ _); [|done]. apply store_list_shape. Qed.

Lemma inv_exec_mem s i a b c s' ct : inv s -> exec_mem bc s i a b c = RVal (s', ct) -> inv s'.
Proof.
  intros H. unfold exec_mem. destruct (opc i); r_cases; intros [= <- <-];
    (eapply inv_write; [eassumption|]); try (by apply inv_with_mem; eauto using memmove_shape, memcpy_shape, memset_shape);
    done.
Qed.

(** Every instruction keeps the invariant. *)
Lemma inv_exec s i s' c : bc_ok -> api_ok -> inv s ->
  exec_inst bc ctx_values ok junk apicalls apicall s i = RVal (s', c) -> inv s'.
Proof.
  intros Hbc Hapi H. unfold exec_inst.
  destruct (opc i) eqn:Eo, (u i) eqn:Eu; try (intros; discriminate);
    try (by apply inv_ret); try (by apply inv_call); try (by apply inv_call_api); try (by apply inv_exec_mem);
    unfold exec_binop, exec_icmp, exec_sext, exec_zext_trunc, exec_select, exec_load, exec_store,
      exec_gepz, exec_gep1, exec_bswap; r_cases;
    first [by apply inv_jump; [..|exact H] | intros Hj; by eapply inv_jump
          | intros [= <- <-]; first [by eapply inv_write | by apply inv_with_mem; [by eapply store_shape|]]].
Qed.

(** ** Runs *)

Abbreviation step := (VmExec.step bc ctx_values ok junk apicalls apicall expired).
Abbreviation run := (VmExec.run bc ctx_values ok junk apicalls apicall expired).

(** The states the interpreter reaches from [s0]. *)
Inductive reachable (start : inst) (s0 : vm) : vm -> Prop :=
| reach_start : reachable start s0 s0
| reach_step s s' : reachable start s0 s -> step start s = Next s' -> reachable start s0 s'.

Lemma inv_tick s : inv s -> inv (tick s).
Proof. intros []. by split. Qed.

Lemma inv_advance s : inv s -> inv (advance s).
Proof. intros []. by split. Qed.

Lemma inv_step start s : bc_ok -> api_ok -> inv s ->
  match step start s with Next s' => inv s' | Done _ s' => inv s' | Wrong => True end.
Proof.
  intros Hbc Hapi H%inv_tick. unfold VmExec.step. destruct (_ && _); [done|].
  destruct (fetch _ _) as [i|]; [|done].
  destruct (exec_inst _ _ _ _ _ _ _ _) as [[s' []]| | | |] eqn:E; try done.
  - apply inv_exec in E; [|done..]. apply inv_advance in E. by destruct (block_ok _).
  - by apply inv_exec in E.
  - by apply inv_exec in E.
  - by apply inv_advance.
Qed.

Lemma inv_reachable start s0 s : bc_ok -> api_ok -> inv s0 -> reachable start s0 s -> inv s.
Proof.
  intros Hbc Hapi H0. induction 1 as [|s s' _ IH E]; [done|].
  pose proof (inv_step start s Hbc Hapi IH) as H. by rewrite E in H.
Qed.

(** The state [cli_bytecode_run] starts with. *)
Lemma inv_init globals bcglobalid bytes m n a s0 : bc_ok -> 8 <= bytes < 2 ^ 32 ->
  has_block m ctx_values bytes ->
  (0 < numGlobalBytes bc -> has_block m (globalBytes bc) (numGlobalBytes bc)) ->
  (forall b, is_Some (m !! b) -> b < n) -> globalBytes bc < n ->
  vm_init bc ctx_values ok globals bcglobalid (run_func bytes) m n a = Some s0 -> inv s0.
Proof.
  intros Hbc Hb Hv Hg Hn Hgn. unfold vm_init.
  destruct (register_globals _ _ _) as [i|]; [|done].
  destruct (ptr_register_glob_fixedid _ _ _ _ _) as [[p i']|]; [|done]. intros [= <-].
  split; cbn; try done; [split; [lia|done]|].
  exists []. split; [|done]. split; [done|]. split; [done|]. cbn. intros c []%not_elem_of_nil.
Qed.

(** ** Instructions that never leave defined behaviour *)

Definition op32 (p : Z) : Prop := 0 <= p < 2 ^ 32.

(** Instructions that neither use pointers nor the partial arithmetic, with the
    operands the loader provides. *)
Definition scalar (f : func) (i : inst) : Prop :=
  op32 (dest i) /\ 0 <= ty i <= 4 /\
  match opc i, u i with
  | (OP_BC_ADD | OP_BC_SUB | OP_BC_UDIV | OP_BC_UREM | OP_BC_AND | OP_BC_OR | OP_BC_XOR), Binop a b =>
      op32 a /\ op32 b
  | OP_BC_MUL, Binop a b => op32 a /\ op32 b /\ ty i <> 2
  | (OP_BC_ICMP_EQ | OP_BC_ICMP_NE | OP_BC_ICMP_UGT | OP_BC_ICMP_UGE | OP_BC_ICMP_ULT | OP_BC_ICMP_ULE
     | OP_BC_ICMP_SGT | OP_BC_ICMP_SGE | OP_BC_ICMP_SLE | OP_BC_ICMP_SLT), Binop a b => op32 a /\ op32 b
  | OP_BC_COPY, Binop a b => op32 a /\ op32 b
  | OP_BC_SEXT, Cast mask source _ => 1 <= mask <= 64 /\ op32 source
  | (OP_BC_ZEXT | OP_BC_TRUNC), Cast _ source _ => op32 source
  | OP_BC_JMP, Jump b => 0 <= b
  | OP_BC_BRANCH, Branch c t e => 0 <= c < numBytes f /\ 0 <= t /\ 0 <= e
  | OP_BC_RET, Unary a => op32 a
  | OP_BC_SELECT, Three a b c => op32 a /\ op32 b /\ op32 c
  | (OP_BC_GEPZ | OP_BC_GEP1), Three _ b c => op32 b /\ op32 c
  | (OP_BC_BSWAP16 | OP_BC_BSWAP32 | OP_BC_BSWAP64 | OP_BC_PTRTOINT64), Unary a => op32 a
  | OP_BC_PTRDIFF32, Binop a b => op32 a /\ op32 b
  | (OP_BC_ISBIGENDIAN | OP_BC_RET_VOID | OP_BC_ABORT | OP_BC_GEPN | OP_BC_INVALID), _ => True
  | OP_BC_CALL_DIRECT, CallOps ops opsizes numOps _ =>
      Forall op32 ops /\ numOps <= Z.of_nat (length ops) /\ numOps <= Z.of_nat (length opsizes)
  | _, _ => False
  end.

Definition defined {B} (r : R B) : Prop := r <> RUndef.

Lemma defined_bind {B C} (r : R B) (k : B -> R C) : defined r -> (forall b, r = RVal b -> defined (k b)) ->
  defined (let? b := r in k b).
Proof. unfold defined. destruct r; intros Hr Hk; try done. by apply Hk. Qed.

Section Defined.
Context (s : vm) (H : inv s) (Hbc : bc_ok).

Lemma READN_defined n p : width n -> op32 p -> defined (READN bc s n p).
Proof.
  intros Hn Hp. destruct (READN_spec bc s n p) as [(v & -> & _)|[-> _]]; try done.
  - by apply inv_frame_ok. - by apply inv_globals_ok.
Qed.

Lemma READty_defined t p : op32 p -> defined (READty bc s t p).
Proof. intros Hp. apply defined_bind; [apply READN_defined; [apply cwidth_width|done]|done]. Qed.

Lemma READty_range t p v : READty bc s t p = RVal v -> op32 p -> 0 <= v < 2 ^ cwidth t.
Proof.
  intros Hv Hp. revert Hv. unfold READty.
  destruct (READN_spec bc s (cwidth t) p) as [(x & -> & Hx & _)|[-> _]]; try done;
    [by apply inv_frame_ok|by apply inv_globals_ok|apply cwidth_width|].
  intros [= <-]. destruct (Z.eqb_spec t 0) as [->|]; [|done]. change (2 ^ cwidth 0) with 256.
  change 1 with (2 ^ 1 - 1). rewrite land_mask by lia. pose proof (Z.mod_pos_bound x (2 ^ 1)). lia.
Qed.

Lemma ptr_operand_defined p : op32 p -> defined (ptr_operand bc s p).
Proof.
  intros Hp. unfold ptr_operand. destruct (negb _); [done|]. apply READN_defined; [|done]. unfold width. auto.
Qed.

Lemma cast_operand_defined size p : op32 p -> defined (cast_operand bc s size p).
Proof. intros Hp. unfold cast_operand. destruct (_ && _); [by apply READty_defined|done]. Qed.
End Defined.

Lemma WRITEN_defined (s : vm) n p x : frame_ok s -> width n -> op32 p -> defined (WRITEN s n p x).
Proof. intros Hf Hn Hp. by destruct (WRITEN_spec s n p x Hf Hn Hp) as [(m & -> & _)|[-> _]]. Qed.

Lemma SIGNEXT_defined a from : 1 <= from <= 64 -> defined (SIGNEXT a from).
Proof. intros. unfold SIGNEXT. by replace ((from <=? 0) || (64 <? from)) with false by lia. Qed.

Lemma binop_defined op t it a b : 0 <= t <= 4 -> 0 <= a < 2 ^ cwidth t -> 0 <= b < 2 ^ cwidth t ->
  match op with
  | OP_BC_ADD | OP_BC_SUB | OP_BC_UDIV | OP_BC_UREM | OP_BC_AND | OP_BC_OR | OP_BC_XOR => True
  | OP_BC_MUL => t <> 2
  | _ => False
  end -> defined (binop op t it a b).
Proof.
  intros Ht Ha Hb Hop. unfold defined, binop, CHECK_OP.
  destruct op; try done; try (destruct (_ =? 0); done).
  destruct (Z.ltb_spec (cwidth t) 32); [|done]. cbn [andb]. rewrite VmArithFacts.int_ok_true; [done|].
  assert (t = 0 \/ t = 1 \/ t = 3 \/ t = 4) as [->|[->|[->| ->]]] by lia; try done.
  - change (2 ^ cwidth 0) with 256 in *. change (iwidth 0 - 1) with 31. change (2 ^ 31) with 2147483648. nia.
  - change (2 ^ cwidth 1) with 256 in *. change (iwidth 1 - 1) with 31. change (2 ^ 31) with 2147483648. nia.
Qed.

Lemma aligned_fits j size n : size = 1 \/ size = 2 \/ size = 4 \/ size = 8 -> n `mod` 8 = 0 ->
  0 <= j -> (j + (size - 1)) / size * size < n ->
  0 <= (j + (size - 1)) / size * size /\ (j + (size - 1)) / size * size + size <= n.
Proof.
  intros Hs Hn Hj Hlt. apply Z.mod_divide in Hn as [q ->]; [|lia].
  assert (0 <= (j + (size - 1)) / size) by (apply Z.div_pos; lia).
  destruct Hs as [->|[->|[->| ->]]]; lia.
Qed.

Lemma copy_args_defined (s : vm) func2 b n ops opsizes : inv s -> numBytes func2 `mod` 8 = 0 ->
  Forall op32 ops -> forall i j m, 0 <= i -> 0 <= j ->
  i + Z.of_nat n <= Z.of_nat (length ops) -> i + Z.of_nat n <= Z.of_nat (length opsizes) ->
  has_block m b (numBytes func2) ->
  defined (copy_args s func2 b n i j ops opsizes m).
Proof.
  intros H H8 Hops. induction n as [|n IH]; intros i j m Hi Hj Hlo Hls Hb; [done|]. cbn [copy_args].
  destruct (bget_is_Some opsizes i) as [size ->]; [lia|]. cbn [r_of_opt].
  destruct (bget_is_Some ops i) as [op Eop]; [lia|]. rewrite Eop. cbn [r_of_opt].
  assert (op32 op) as Hop.
  { rewrite bget_lookup in Eop by lia. rewrite Forall_lookup in Hops. eauto. }
  destruct ((size =? 1) || (size =? 2) || (size =? 4) || (size =? 8)) eqn:Es; [|apply IH; try done; lia].
  assert (size = 1 \/ size = 2 \/ size = 4 \/ size = 8) as Hs by lia.
  assert (width (8 * size)) as Hw by (unfold width; destruct Hs as [->|[->|[->| ->]]]; auto).
  pose proof (inv_frame_ok s H) as [Hnb (blk0 & Hm0 & Hsz0)].
  apply defined_bind.
  { unfold READOLD.
    destruct (READNfrom_spec s (numBytes (fn s)) (values s) (8 * size) op) as [(v & -> & _)|[-> _]]; eauto; done. }
  intros v _. unfold CHECK_GT. destruct (Z.leb_spec (numBytes func2) ((j + (size - 1)) / size * size)); [done|].
  destruct (aligned_fits j size (numBytes func2) Hs H8 Hj) as [Hj0 Hj1]; [done|].
  destruct Hb as (blk & Hm & Hsz).
  destruct (store_in (Z.to_nat size) m b blk ((j + (size - 1)) / size * size) v Hm) as (m' & -> & Hsh); [lia|lia|].
  cbn [r_of_opt]. apply IH; try done; [lia|lia|lia|lia|].
  eapply has_block_shape; [done|]. by exists blk.
Qed.

Lemma copy_constants_defined b n l : forall m o, 0 <= o -> has_block m b n ->
  o + 8 * Z.of_nat (length l) <= n ->
  (fix copy (m : memory) (o : Z) (l : list Z) : option memory :=
     match l with
     | [] => Some m
     | c :: l' => let* m := store 8 m b o c in copy m (o + 8) l'
     end) m o l <> None.
Proof.
  induction l as [|c l IH]; intros m o Ho Hb Hl; [done|]. cbn [length] in Hl.
  destruct Hb as (blk & Hm & Hsz). destruct (store_in 8 m b blk o c Hm) as (m' & -> & Hsh); [lia|cbn; lia|].
  apply IH; [lia| |lia]. eapply has_block_shape; [done|]. by exists blk.
Qed.

Lemma call_defined s ops opsizes numOps funcid ret : bc_ok -> inv s -> Forall op32 ops ->
  numOps <= Z.of_nat (length ops) -> numOps <= Z.of_nat (length opsizes) ->
  defined (call_direct bc ok junk s ops opsizes numOps funcid ret).
Proof.
  intros [Hfs Hgs] H Hops Hlo Hls. unfold call_direct.
  destruct (bget (funcs bc) funcid) as [func2|] eqn:Ef; [|done].
  assert (func_ok func2) as Hf.
  { pose proof (bget_Some _ _ _ Ef). rewrite bget_lookup in Ef by lia. rewrite Forall_lookup in Hfs. eauto. }
  unfold CHECK_EQ. destruct (Z.eqb_spec (numArgs func2) numOps) as [En|]; [|done]. cbn [negb].
  destruct (allocate_stack ok junk s func2 ret) as [[s1|]|] eqn:Ea; cbn [r_of_opt]; [|done|].
  - destruct (Z.ltb_spec 10000 (depth s)); [done|].
    destruct (inv_allocate s func2 ret s1 H Hf ltac:(lia) Ea) as (Hc & Hcv & _).
    apply defined_bind.
    + apply copy_args_defined; try done; [apply Hf|lia|lia|].
      rewrite <- Hcv. destruct (entries s1); cbn in Hc; by destruct Hc as (_ & ? & _).
    + intros m _. destruct (ptr_register_stack _ _ _ _ _). destruct (_ <=? 0); [done|].
      unfold jump. by destruct (_ <=? _).
  - exfalso. revert Ea. unfold allocate_stack. destruct (inv_stack _ H) as (ss & Hwf & _).
    destruct Hf as (Hnb & _ & Hcon).
    rewrite uint_small by (change (2 ^ 31) with 2147483648 in *; change (2 ^ 32) with 4294967296; lia).
    destruct (StackFacts.alloc_spec ok junk (stk s) ss (48 + numBytes func2) Hwf)
      as [[-> _]|(st' & ss' & r & -> & _)]; [lia|done|].
    match goal with |- context [match ?x with Some _ => _ | None => _ end] => destruct x eqn:E; [done|] end.
    intros _. revert E. apply (copy_constants_defined _ (numBytes func2)); [unfold numConstants in *; lia| |].
    + exists {| bsize := numBytes func2; bdata := junk |}. by rewrite lookup_insert_eq.
    + unfold numConstants. lia.
Qed.

Lemma ret_defined s t op : bc_ok -> inv s -> op32 op -> Forall (fun e => op32 (e_ret e)) (entries s) ->
  defined (op_ret bc ctx_values s t op).
Proof.
  intros Hbc H Hop Hrets. unfold op_ret. apply defined_bind; [by apply READty_defined|]. intros v Hv.
  unfold CHECK_GT at 1. destruct (Z.leb_spec (depth s) 0); [done|].
  pose proof (inv_depth _ H) as [Hd _]. destruct (entries s) as [|e rest] eqn:Ee; [cbn in Hd; lia|].
  destruct (inv_stack _ H) as (ss & Hwf & Haddr). rewrite Ee in Haddr.
  destruct (StackFacts.regions (Stack.chunks (stk s)) ss) as [|r rs] eqn:Er; [done|].
  injection Haddr as Ea _. destruct (StackFacts.free_top _ _ _ _ Hwf Er) as (st' & ss' & Ef & _).
  rewrite Ea. unfold raddr at 1. rewrite Ef. cbn [r_of_opt].
  match goal with |- context [CHECK_GT (numBytes (fn ?x)) _] => set (s1 := x) end.
  destruct (CHECK_GT _ _) as [|c| | |] eqn:Ec; try done; [|unfold CHECK_GT in Ec; by destruct (_ <=? _)].
  apply Forall_cons in Hrets as [Hret _]. apply defined_bind; [|intros s2 _; by destruct (bb s2)].
  apply WRITEN_defined; [|apply cwidth_width|done].
  pose proof (inv_chain _ H) as Hc. rewrite Ee in Hc. cbn in Hc. destruct Hc as (_ & _ & Hlt & _ & Hc).
  apply (chain_delete _ _ _ (e_values e)) in Hc; [|done]. unfold frame_ok, s1. cbn.
  destruct rest; cbn in Hc; by destruct Hc as (? & ? & _).
Qed.

Lemma branch_defined (s : vm) c : frame_ok s -> 0 <= c < numBytes (fn s) ->
  defined (r_of_opt (load8 (mem s) (values s) c)).
Proof.
  intros (_ & blk & Hb & Hn) Hc. unfold load8. rewrite Hb. cbn.
  by replace ((0 <=? c) && (c <? bsize blk)) with true by lia.
Qed.

Lemma exec_scalar_defined s i : bc_ok -> inv s -> Forall (fun e => op32 (e_ret e)) (entries s) ->
  scalar (fn s) i -> defined (exec_inst bc ctx_values ok junk apicalls apicall s i).
Proof.
  intros Hbc H Hrets (Hd & Hty & Hi). pose proof (inv_frame_ok s H) as Hf. unfold exec_inst.
  assert (forall n x, width n -> defined (let? s' := WRITEN s n (dest i) x in RVal (s', Break))) as Hw.
  { intros n x Hn. apply defined_bind; [by apply WRITEN_defined|done]. }
  assert (width 8 /\ width 16 /\ width 32 /\ width 64) as (W8 & W16 & W32 & W64) by (unfold width; auto 10).
  destruct (opc i) eqn:Eo, (u i) eqn:Eu; try done;
    unfold exec_binop, exec_icmp, exec_sext, exec_zext_trunc, exec_select, exec_gepz, exec_gep1, exec_bswap;
    rewrite ?Eo;
    repeat match goal with Hx : _ /\ _ |- _ => destruct Hx end;
    try (by apply call_defined); try (by apply ret_defined);
    repeat (apply defined_bind;
            [first [ by apply READty_defined | by apply READN_defined | by apply ptr_operand_defined
                   | by apply cast_operand_defined
                   | apply binop_defined; [lia|eapply READty_range; eassumption..|done]
                   | apply SIGNEXT_defined; lia | apply branch_defined; [done|lia]
                   | destruct (_ =? _); [done|first [apply SIGNEXT_defined; lia|
                       apply defined_bind; [by apply READN_defined|done]]]
                   | done
                   | apply WRITEN_defined; [done|apply cwidth_width|done] ]|intros]);
    try (by apply Hw); try (by apply Hw, cwidth_width); try done;
    try (unfold jump; by destruct (_ <=? _)).
Qed.

End Inv.
End VmInv.
