(* ===== verification/VmSafe.v ===== *)
(** Whole runs of the bytecode interpreter: safety and termination. *)
From stdpp Require Import base numbers list list_numbers gmap.
From Stdlib Require Import ZArith Lia Bool.
From S2P Require Import Prelude VmStack VmCore VmExec VmFacts VmInv.
Import Errors Alloc VmMem VmPtr VmArith VmExec VmMemFacts VmOperandFacts VmInv.
Local Open Scope Z_scope.

Module VmSafe.

Section Safe.
Context {A : Type}.
Context (bc : bytecode) (ctx_values : Z) (ok : bool) (junk : Z -> Z) (apicalls : list Z).
Context (apicall : Z -> list apiarg -> memory * Z * A -> option (apires * (memory * Z * A))).
Context (expired : Z -> bool).
Abbreviation vm := (VmExec.vm A).
Abbreviation exec := (exec_inst bc ctx_values ok junk apicalls apicall).
Abbreviation vm_step := (step bc ctx_values ok junk apicalls apicall expired).

(** ** Control flow *)

(** Every block of the function is non-empty and made of scalar instructions. *)
Definition scalar_func (f : func) : Prop :=
  Forall (fun insts => insts <> [] /\ Forall (scalar f) insts) (BB f).

Definition scalar_program : Prop := Forall scalar_func (funcs bc).

(** A place in the code: before the first block, or an instruction of a block. *)
Definition place_ok (f : func) (b : option Z) (k : Z) : Prop :=
  scalar_func f /\
  match b with
  | None => True
  | Some b => exists insts, bget (BB f) b = Some insts /\ 0 <= k < Z.of_nat (length insts)
  end.

Definition entries_ok (s : vm) : Prop :=
  Forall (fun e => op32 (e_ret e) /\ place_ok (e_func e) (e_bb e) (e_bb_inst e)) (entries s).

Record code_ok (s : vm) : Prop := {
  code_here : place_ok (fn s) (bb s) (bb_inst s);
  code_entries : entries_ok s }.

Lemma code_with_mem s m : code_ok s -> code_ok (with_mem s m).
Proof. intros []. by split. Qed.

Lemma code_write (s : vm) n p x s' : WRITEN s n p x = RVal s' -> code_ok s -> code_ok s'.
Proof. intros (m & -> & _)%WRITEN_inv. apply code_with_mem. Qed.

Lemma code_jump (s : vm) b s' c : 0 <= b -> jump s b = RVal (s', c) ->
  scalar_func (fn s) -> entries_ok s -> code_ok s'.
Proof.
  intros Hb. unfold jump, numBB. destruct (Z.leb_spec (Z.of_nat (length (BB (fn s)))) b); [done|].
  intros [= <- <-] Hf He. split; cbn; [|done]. split; [done|].
  destruct (bget_is_Some (BB (fn s)) b) as [insts Hi]; [lia|]. exists insts. split; [done|].
  unfold scalar_func in Hf. rewrite Forall_forall in Hf.
  assert (insts <> []) as Hne.
  { eapply Hf, list_elem_of_lookup_2. by rewrite bget_lookup in Hi. }
  destruct insts; [done|]. cbn. lia.
Qed.

Lemma code_call s ops opsizes numOps funcid ret s' c : scalar_program -> op32 ret -> code_ok s ->
  call_direct bc ok junk s ops opsizes numOps funcid ret = RVal (s', c) -> code_ok s'.
Proof.
  intros Hp Hret [Hh He]. unfold call_direct. destruct (bget (funcs bc) funcid) as [f2|] eqn:Ef; [|done].
  destruct (CHECK_EQ _ _); [|done..].
  destruct (allocate_stack _ _ _ _ _) as [[s1|]|] eqn:Ea; [|done..]. cbn [r_of_opt].
  destruct (_ <? _); [done|]. destruct (copy_args _ _ _ _ _ _ _ _ _); [|done..].
  destruct (ptr_register_stack _ _ _ _ _). destruct (_ <=? 0); [done|].
  revert Ea. unfold allocate_stack. destruct (Stack.cli_stack_alloc _ _ _ _) as [[[a'|] st]|]; [|done..].
  match goal with |- context [match ?x with Some _ => _ | None => _ end] => destruct x; [|done] end.
  intros [= <-]. intros Hj. eapply code_jump in Hj; [done|lia|cbn..].
  - unfold bget in Ef. destruct (funcid <? 0); [done|].
    by eapply Forall_lookup_1 in Ef.
  - by constructor.
Qed.

Lemma code_ret s ty op s' c : op_ret bc ctx_values s ty op = RVal (s', c) -> code_ok s -> code_ok s'.
Proof.
  unfold op_ret. destruct (READty _ _ _ _); [|done..]. destruct (CHECK_GT _ _); [|done..].
  intros E [_ He]. unfold entries_ok in He. destruct (entries s) as [|e rest]; [done|]. apply Forall_cons in He as [[_ Hpl] He].
  destruct (Stack.cli_stack_free _ _) as [[? st]|]; [|done]. cbn [r_of_opt] in E.
  match type of E with context [CHECK_GT (numBytes (fn ?x)) _] => set (s1 := x) in E end.
  destruct (CHECK_GT _ _); [|done..]. destruct (WRITEN _ _ _ _) as [s2| | | |] eqn:Ew; [|done..].
  apply (code_write s1) in Ew; [|by split]. by destruct (bb s2); injection E as <- <-.
Qed.

(** ** Instructions *)

Lemma code_exec s i s' c : scalar_program -> scalar (fn s) i -> code_ok s ->
  exec s i = RVal (s', c) -> code_ok s'.
Proof.
  intros Hp (Hd & _ & Hi) Hc. pose proof Hc as [[Hf _] He]. unfold exec_inst.
  destruct (opc i) eqn:Eo, (u i) eqn:Eu; try done;
    unfold exec_binop, exec_icmp, exec_sext, exec_zext_trunc, exec_select, exec_gepz, exec_gep1, exec_bswap;
    rewrite ?Eo; try (intros E; by eapply code_ret); try (intros E; by eapply code_call);
    r_cases;
    try (intros [= <- <-]; by eapply code_write);
    try (intros E'; by eapply code_jump).
  intros E'. eapply code_jump in E'; try done. destruct (negb _); lia.
Qed.

(** ** The instruction counter *)

Lemma pc_write (s s' : vm) n p x : WRITEN s n p x = RVal s' -> pc s' = pc s.
Proof. by intros (m & -> & _)%WRITEN_inv. Qed.

Lemma pc_jump (s s' : vm) b c : jump s b = RVal (s', c) -> pc s' = pc s.
Proof. unfold jump. destruct (_ <=? _); [done|]. by intros [= <- <-]. Qed.

Lemma pc_call (s s' : vm) ops opsizes numOps funcid ret c :
  call_direct bc ok junk s ops opsizes numOps funcid ret = RVal (s', c) -> pc s' = pc s.
Proof.
  unfold call_direct. destruct (bget (funcs bc) funcid) as [f2|] eqn:Ef; [|done].
  destruct (CHECK_EQ _ _); [|done..].
  destruct (allocate_stack _ _ _ _ _) as [[s1|]|] eqn:Ea; [|done..]. cbn [r_of_opt].
  destruct (_ <? _); [done|]. destruct (copy_args _ _ _ _ _ _ _ _ _); [|done..].
  destruct (ptr_register_stack _ _ _ _ _). destruct (_ <=? 0); [done|].
  intros ->%pc_jump. cbn. revert Ea. unfold allocate_stack.
  destruct (Stack.cli_stack_alloc _ _ _ _) as [[[a'|] st]|]; [|done..].
  match goal with |- context [match ?x with Some _ => _ | None => _ end] => destruct x; [|done] end.
  by intros [= <-].
Qed.

Lemma pc_ret (s s' : vm) ty op c : op_ret bc ctx_values s ty op = RVal (s', c) -> pc s' = pc s.
Proof.
  unfold op_ret. destruct (READty _ _ _ _); [|done..]. destruct (CHECK_GT _ _); [|done..].
  destruct (entries s) as [|e rest]; [done|].
  destruct (Stack.cli_stack_free _ _) as [[? st]|]; [|done]. cbn [r_of_opt].
  destruct (CHECK_GT _ _); [|done..]. destruct (WRITEN _ _ _ _) as [s2| | | |] eqn:Ew; [|done..].
  apply pc_write in Ew. cbn in Ew. by destruct (bb s2); intros [= <- <-].
Qed.

Lemma pc_api_call (s s' : vm) id args r : call_api_fn apicall s id args = RVal (r, s') -> pc s' = pc s.
Proof.
  unfold call_api_fn. destruct (apicall id args (mem s, nextb s, api s)) as [[r0 [[m n] a]]|]; [|done].
  by intros [= -> <-].
Qed.

Lemma pc_api_int (s s' : vm) id args d c : api_int apicall s id args d = RVal (s', c) -> pc s' = pc s.
Proof.
  unfold api_int. destruct (call_api_fn apicall s id args) as [[r s1]| | | |] eqn:E; [|done..].
  apply pc_api_call in E. r_cases. intros [= <- <-]. rewrite <- E. eauto using pc_write.
Qed.

Lemma pc_api_ptr (s s' : vm) id args size d c :
  api_ptr ok apicall s id args size d = RVal (s', c) -> pc s' = pc s.
Proof.
  unfold api_ptr. destruct (call_api_fn apicall s id args) as [[r s1]| | | |] eqn:E; [|done..].
  apply pc_api_call in E. r_cases. intros [= <- <-]. rewrite <- E. match goal with Hw : WRITEN _ _ _ _ = _ |- _ => by apply pc_write in Hw end.
Qed.

Lemma pc_call_api (s s' : vm) ops funcid d c :
  call_api bc ok apicalls apicall s ops funcid d = RVal (s', c) -> pc s' = pc s.
Proof.
  unfold call_api. destruct (bget apicalls funcid) as [kind|]; [|done]. cbv zeta.
  repeat match goal with
  | |- (if ?b then _ else _) = _ -> _ => destruct b
  end; r_cases; solve [eauto using pc_api_int, pc_api_ptr | discriminate].
Qed.

Lemma pc_exec_mem (s s' : vm) i a b c ct : exec_mem bc s i a b c = RVal (s', ct) -> pc s' = pc s.
Proof.
  unfold exec_mem. destruct (opc i); r_cases; intros [= <- <-];
    match goal with Hw : WRITEN _ _ _ _ = _ |- _ => by apply pc_write in Hw end.
Qed.

Lemma pc_exec (s s' : vm) i c : exec s i = RVal (s', c) -> pc s' = pc s.
Proof.
  unfold exec_inst.
  destruct (opc i) eqn:Eo, (u i) eqn:Eu; try (intros; discriminate);
    try (by apply pc_ret); try (by apply pc_call); try (by apply pc_call_api); try (by apply pc_exec_mem);
    unfold exec_binop, exec_icmp, exec_sext, exec_zext_trunc, exec_select, exec_load, exec_store,
      exec_gepz, exec_gep1, exec_bswap; r_cases;
    first [intros Hj; by eapply pc_jump | intros [= <- <-]; first [by eapply pc_write | done]].
Qed.

Lemma pc_step start (s s' : vm) : vm_step start s = Next s' -> pc s' = uint 32 (pc s + 1).
Proof.
  unfold step. destruct (_ && _); [done|]. destruct (fetch _ _) as [i|]; [|done].
  destruct (exec _ i) as [[s1 []]| | | |] eqn:E; try done.
  - apply pc_exec in E. destruct (block_ok _); [|done]. intros [= <-]. exact E.
  - apply pc_exec in E. intros [= <-]. exact E.
Qed.

(** ** Runs *)

Lemma fetch_scalar start s : (forall f, scalar f start) -> code_ok s ->
  exists i, fetch s start = Some i /\ scalar (fn s) i.
Proof.
  intros Hst [[Hf Hb] _]. unfold fetch. destruct (bb s) as [b|]; [|eauto].
  destruct Hb as (insts & Hi & Hk). rewrite Hi. destruct (bget_is_Some insts (bb_inst s) Hk) as [i E].
  exists i. split; [done|]. unfold scalar_func in Hf. rewrite Forall_forall in Hf.
  assert (Forall (scalar (fn s)) insts) as Hall.
  { eapply Hf, list_elem_of_lookup_2. pose proof (bget_Some _ _ _ Hi). rewrite bget_lookup in Hi by lia. exact Hi. }
  rewrite Forall_forall in Hall. apply Hall. rewrite bget_lookup in E by lia. by eapply list_elem_of_lookup_2.
Qed.

Lemma code_tick s : code_ok s -> code_ok (tick s).
Proof. intros []. by split. Qed.

Lemma code_advance s : code_ok s -> block_ok (advance s) = true -> code_ok (advance s).
Proof.
  intros [[Hf Hb] He] Hok. split; [|done]. split; [done|]. cbn. unfold block_ok in Hok. cbn in Hok.
  destruct (bb s) as [b|]; [|done]. destruct Hb as (insts & Hi & Hk). rewrite Hi in Hok.
  exists insts. split; [done|]. lia.
Qed.

Definition api_sound : Prop := api_ok apicall.

(** One round keeps the invariants and is never undefined. *)
Lemma step_safe start s : bc_ok bc -> api_sound -> scalar_program -> (forall f, scalar f start) ->
  inv bc ctx_values s -> code_ok s ->
  match vm_step start s with
  | Next s' => inv bc ctx_values s' /\ code_ok s'
  | Done _ _ => True
  | Wrong => False
  end.
Proof.
  intros Hbc Hapi Hp Hst Hinv Hc.
  pose proof (inv_step bc ctx_values ok junk apicalls apicall expired start s Hbc Hapi Hinv) as Hstep.
  revert Hstep. unfold VmExec.step. destruct (_ && _); [done|].
  destruct (fetch_scalar start (tick s) Hst (code_tick _ Hc)) as (i & -> & Hi).
  assert (Forall (fun e => op32 (e_ret e)) (entries (tick s))) as Hrets.
  { eapply Forall_impl; [apply (code_entries _ Hc)|]. by intros e [? _]. }
  pose proof (exec_scalar_defined bc ctx_values ok junk apicalls apicall (tick s) i Hbc
                (inv_tick _ _ _ Hinv) Hrets Hi) as Hdef.
  destruct (exec (tick s) i) as [[s' []]| | | |] eqn:E; try done.
  - apply code_exec in E; [|done|done|by apply code_tick].
    destruct (block_ok (advance s')) eqn:Eb; [|done]. intros ?. split; [done|]. by apply code_advance.
  - apply code_exec in E; [|done|done|by apply code_tick]. by intros ?.
Qed.

Lemma run_safe fuel start : bc_ok bc -> api_sound -> scalar_program -> (forall f, scalar f start) ->
  forall s, inv bc ctx_values s -> code_ok s ->
  run bc ctx_values ok junk apicalls apicall expired fuel start s <> Undef.
Proof.
  intros Hbc Hapi Hp Hst. induction fuel as [|fuel IH]; intros s Hi Hc; [done|].
  pose proof (step_safe start s Hbc Hapi Hp Hst Hi Hc) as H. cbn [run].
  destruct (vm_step start s) as [s'|code s'|]; [|done|done]. destruct H. by apply IH.
Qed.

(** The clock is looked at every 5000 instructions: with enough fuel for the
    first such count at which it has expired, the loop ends. *)
Lemma run_timeout start k : 0 < k -> 5000 * k < 2 ^ 32 -> expired (5000 * k) = true ->
  forall fuel s, 0 <= pc s < 5000 * k -> 5000 * k - pc s <= Z.of_nat fuel ->
  run bc ctx_values ok junk apicalls apicall expired fuel start s <> NoFuel.
Proof.
  intros Hk Hlt Hexp. induction fuel as [|fuel IH]; intros s Hpc Hf; [lia|]. cbn [run].
  destruct (vm_step start s) as [s'|code s'|] eqn:E; [|done|done].
  assert (pc s + 1 <> 5000 * k) as Hne.
  { intros Hk'. revert E. unfold step. cbn [tick pc]. rewrite uint_small by (split; [lia|rewrite Hk'; lia]).
    rewrite Hk', Hexp, (Z.mul_comm 5000), Z.mod_mul by lia. done. }
  apply pc_step in E. rewrite uint_small in E by lia. apply IH; lia.
Qed.

End Safe.
End VmSafe.

(** * Programs started by [cli_bytecode_run] *)
Module VmProps.
Import VmSafe.

(** What [cli_bytecode_run] finds: a block of values for the context, the block
    of the globals, and numbers of the context's globals that start at 1. *)
Record start_ok (bc : bytecode) (ctx_values bytes : Z) (globals : list (Z * option addr * Z))
    (bcglobalid : Z) (m : memory) (n : Z) : Prop := {
  start_bytes : 8 <= bytes < 2 ^ 32;
  start_values : has_block m ctx_values bytes;
  start_globals : 0 < numGlobalBytes bc -> has_block m (globalBytes bc) (numGlobalBytes bc);
  start_next : forall b, is_Some (m !! b) -> b < n;
  start_global_next : globalBytes bc < n;
  start_ids : Forall (fun g => 1 <= fst (fst g)) globals /\ 1 <= bcglobalid }.

Lemma register_fixedid_defined ok i p size n : 1 <= n -> is_Some (ptr_register_glob_fixedid ok i p size n).
Proof.
  intros Hn. unfold ptr_register_glob_fixedid. destruct (_ && _); [eauto|].
  unfold bset. match goal with |- context [length ?l] => set (globs := l) end.
  assert (n <= Z.of_nat (length globs)).
  { subst globs. unfold nglobs. destruct (Z.ltb_spec (Z.of_nat (length (glob_infos i))) n); [rewrite length_resize|]; lia. }
  replace ((0 <=? n - 1) && (n - 1 <? Z.of_nat (length globs))) with true by lia. eauto.
Qed.

Lemma register_globals_defined ok globals : Forall (fun g => 1 <= fst (fst g)) globals -> forall i,
  is_Some (register_globals ok globals i).
Proof.
  induction 1 as [|[[id p] size] rest Hid _ IH]; intros i; cbn [register_globals]; [eauto|].
  destruct (register_fixedid_defined ok i p size id Hid) as [[? i'] ->]. apply IH.
Qed.

(** The clock shows the timeout when 5000 k instructions were run, before the
    32-bit instruction counter wraps. *)
Definition expires_at (expired : Z -> bool) (k : Z) : Prop :=
  0 < k /\ 5000 * k < 2 ^ 32 /\ expired (5000 * k) = true.

Section Start.
Context {A : Type}.
Context (bc : bytecode) (ctx_values : Z) (ok : bool) (junk : Z -> Z) (apicalls : list Z).
Context (apicall : Z -> list apiarg -> memory * Z * A -> option (apires * (memory * Z * A))).
Context (expired : Z -> bool).

(** The state the loop starts with satisfies both invariants. *)
Lemma start_state bytes globals bcglobalid m n (a : A) : bc_ok bc ->
  start_ok bc ctx_values bytes globals bcglobalid m n ->
  exists m0 s0, store 8 m ctx_values (bytes - 8) 0 = Some m0 /\
    vm_init bc ctx_values ok globals bcglobalid (run_func bytes) m0 n a = Some s0 /\
    inv bc ctx_values s0 /\ code_ok s0 /\ pc s0 = 0.
Proof.
  intros Hbc [Hb (blk & Hv & Hsz) Hg Hn Hgn [Hids Hid]].
  destruct (store_in 8 m ctx_values blk (bytes - 8) 0 Hv) as (m0 & Em & Hsh); [lia|lia|].
  assert (is_Some (vm_init bc ctx_values ok globals bcglobalid (run_func bytes) m0 n a)) as [s0 Es].
  { unfold vm_init. destruct (register_globals_defined ok globals Hids {| stack_infos := []; glob_infos := [] |})
      as [i ->].
    match goal with |- context [ptr_register_glob_fixedid _ _ ?p _ _] =>
      destruct (register_fixedid_defined ok i p (numGlobalBytes bc) bcglobalid Hid) as [[? i'] ->] end. eauto. }
  exists m0, s0. split; [done|]. split; [done|]. split.
  - eapply inv_init; [exact Hbc|exact Hb|..|exact Es]; [by eapply has_block_shape; [|exists blk]| | |done].
    + intros Hpos. eapply has_block_shape; [done|]. auto.
    + intros b Hi. apply Hn. by apply (same_shape_is_Some _ _ _ Hsh).
  - revert Es. unfold vm_init. destruct (register_globals _ _ _); [|done].
    destruct (ptr_register_glob_fixedid _ _ _ _ _) as [[? ?]|]; [|done]. intros [= <-].
    split; [|done]. split; [split; [constructor|done]|]. unfold entries_ok. cbn. constructor.
Qed.

Lemma run_inst_scalar numParams funcid operands opsizes : Forall op32 operands ->
  numParams <= Z.of_nat (length operands) -> numParams <= Z.of_nat (length opsizes) ->
  forall f, scalar f (run_inst numParams funcid operands opsizes).
Proof. intros. unfold scalar, run_inst, op32. cbn. change (2 ^ 32) with 4294967296. repeat split; (done || lia). Qed.

End Start.

(** C25. The frame discipline.  In every state that a program started by
    [cli_bytecode_run] reaches, the values of the running function are one block
    of memory of exactly the declared size, the same holds for every caller on
    the stack, the number of frames is the counted depth and at most 10001, and
    the entries are the regions allocated on the interpreter's stack, whatever
    the API calls do to memory of their own. *)
Theorem vm_invariant {A} bc ctx_values ok junk apicalls
    (apicall : Z -> list apiarg -> memory * Z * A -> option (apires * (memory * Z * A)))
    expired bytes globals bcglobalid m n a start s0 s :
  bc_ok bc -> api_ok apicall -> start_ok bc ctx_values bytes globals bcglobalid m n ->
  vm_init bc ctx_values ok globals bcglobalid (run_func bytes) m n a = Some s0 ->
  reachable bc ctx_values ok junk apicalls apicall expired start s0 s ->
  inv bc ctx_values s /\
  (exists blk, mem s !! values s = Some blk /\ bsize blk = numBytes (fn s)) /\
  depth s = Z.of_nat (length (entries s)) /\ depth s <= 10001.
Proof.
  intros Hbc Hapi [? ? ? ? ? _] Hinit Hr.
  assert (inv bc ctx_values s) as Hi.
  { eapply inv_reachable; [exact Hbc|exact Hapi| |exact Hr]. by eapply inv_init. }
  split; [done|]. split; [apply (inv_frame_ok _ _ _ Hi)|]. pose proof (inv_depth _ _ _ Hi). lia.
Qed.

(** The run of a scalar program, with the invariants at its start. *)
Lemma scalar_program_runs {A} bc ctx_values ok junk apicalls
    (apicall : Z -> list apiarg -> memory * Z * A -> option (apires * (memory * Z * A)))
    expired bytes globals bcglobalid m n a numParams funcid operands opsizes k fuel :
  bc_ok bc -> api_ok apicall -> scalar_program bc ->
  start_ok bc ctx_values bytes globals bcglobalid m n ->
  Forall op32 operands -> numParams <= Z.of_nat (length operands) -> numParams <= Z.of_nat (length opsizes) ->
  expires_at expired k -> 5000 * k <= Z.of_nat fuel ->
  exists code s, cli_bytecode_run_interp bc ctx_values ok junk apicalls apicall expired fuel globals
    bcglobalid bytes numParams funcid operands opsizes m n a = Ok (code, s).
Proof.
  intros Hbc Hapi Hp Hs Hop Hn1 Hn2 (Hk & Hlt & Hexp) Hfuel.
  destruct (start_state bc ctx_values ok bytes globals bcglobalid m n a Hbc Hs)
    as (m0 & s0 & E1 & E2 & Hi & Hc & Hpc).
  unfold cli_bytecode_run_interp. rewrite E1. cbn [of_opt]. rewrite E2. cbn [of_opt].
  set (start := run_inst numParams funcid operands opsizes).
  pose proof (run_safe bc ctx_values ok junk apicalls apicall expired fuel start Hbc Hapi Hp
                (run_inst_scalar _ _ _ _ Hop Hn1 Hn2) s0 Hi Hc) as Hsafe.
  pose proof (run_timeout bc ctx_values ok junk apicalls apicall expired start k Hk Hlt Hexp fuel s0) as Hend.
  rewrite Hpc in Hend. specialize (Hend ltac:(lia) ltac:(lia)).
  destruct (run _ _ _ _ _ _ _ fuel start s0) as [[code s]| |]; [by eauto|done|done].
Qed.

(** Scalar programs are safe and terminate.  For a program of arithmetic,
    comparison, cast, selection, copying, jump, call and return instructions, in
    which no multiplication is of 16 bits, a run started by [cli_bytecode_run]
    never has undefined behaviour, and with a clock that shows the timeout when
    5000 k instructions were run it returns a code after at most 5000 k rounds. *)
Theorem scalar_program_returns {A} bc ctx_values ok junk apicalls
    (apicall : Z -> list apiarg -> memory * Z * A -> option (apires * (memory * Z * A)))
    expired bytes globals bcglobalid m n a numParams funcid operands opsizes k fuel :
  bc_ok bc -> api_ok apicall -> scalar_program bc ->
  start_ok bc ctx_values bytes globals bcglobalid m n ->
  Forall op32 operands -> numParams <= Z.of_nat (length operands) -> numParams <= Z.of_nat (length opsizes) ->
  expires_at expired k -> 5000 * k <= Z.of_nat fuel ->
  exists code s, cli_bytecode_run_interp bc ctx_values ok junk apicalls apicall expired fuel globals
    bcglobalid bytes numParams funcid operands opsizes m n a = Ok (code, s).
Proof. apply scalar_program_runs. Qed.

(** C26. The timeout.  Whatever the program does, the interpreter does not run
    past the first multiple of 5000 instructions at which the clock shows the
    timeout (here before the 32-bit instruction counter wraps). *)
Theorem run_ends_by_timeout {A} bc ctx_values ok junk apicalls
    (apicall : Z -> list apiarg -> memory * Z * A -> option (apires * (memory * Z * A)))
    expired bytes globals bcglobalid m n a numParams funcid operands opsizes k fuel :
  expires_at expired k -> 5000 * k <= Z.of_nat fuel ->
  cli_bytecode_run_interp bc ctx_values ok junk apicalls apicall expired fuel globals
    bcglobalid bytes numParams funcid operands opsizes m n a <> NoFuel.
Proof.
  intros (Hk & Hlt & Hexp) Hfuel. unfold cli_bytecode_run_interp.
  destruct (store 8 m ctx_values (bytes - 8) 0) as [m0|]; [|done]. cbn [of_opt].
  destruct (vm_init _ _ _ _ _ _ _ _ _) as [s0|] eqn:E; [|done]. cbn [of_opt].
  eapply (run_timeout _ _ _ _ _ _ _ _ k); try done; revert E; unfold vm_init;
    (destruct (register_globals _ _ _); [|done]);
    (destruct (ptr_register_glob_fixedid _ _ _ _ _) as [[? ?]|]; [|done]); intros [= <-]; cbn; lia.
Qed.

(** ** A program *)

(** A function without arguments that jumps to itself for ever. *)
Definition loop_func : func :=
  {| numArgs := 0; numBytes := 8; constants := [];
     BB := [[{| opc := OP_BC_JMP; ty := 0; itype := 0; dest := 0; u := Jump 0 |}]] |}.
Definition loop_bc : bytecode := {| funcs := [loop_func]; globalBytes := 0; numGlobalBytes := 0 |}.
Definition loop_mem : memory := {[1 := {| bsize := 16; bdata := fun _ => 0 |}]}.
Definition no_api (id : Z) (args : list apiarg) (c : memory * Z * unit) : option (apires * (memory * Z * unit)) :=
  None.

Lemma loop_ok : bc_ok loop_bc /\ api_ok no_api /\ scalar_program loop_bc /\
  start_ok loop_bc 1 16 [(1, None, 0)] 7 loop_mem 2.
Proof.
  split; [|split; [done|split]].
  - split; [|split; [discriminate|reflexivity]]. constructor; [|done].
    split; [|split]; [|reflexivity|discriminate]. split; [discriminate|reflexivity].
  - do 2 (constructor; [|constructor]). split; [done|]. repeat constructor; cbn; (done || lia).
  - split; cbn; try lia.
    + by exists {| bsize := 16; bdata := fun _ => 0 |}.
    + intros b. unfold loop_mem. destruct (decide (b = 1)) as [->|Hne]; [lia|].
      rewrite lookup_singleton_ne by done. by intros [].
    + split; [|lia]. repeat constructor; cbn; lia.
Qed.

Lemma loop_first_step :
  exists s0 s : vm unit, vm_init loop_bc 1 true [(1, None, 0)] 7 (run_func 16) loop_mem 2 tt = Some s0 /\
    step loop_bc 1 true (fun _ => 0) [] no_api (fun _ => false) (run_inst 0 0 [] []) s0 = Next s /\
    length (entries s) = 1%nat.
Proof. eexists _, _. split; [reflexivity|]. split; reflexivity. Qed.

Lemma vm_invariant_witness :
  exists s0 s : vm unit, vm_init loop_bc 1 true [(1, None, 0)] 7 (run_func 16) loop_mem 2 tt = Some s0 /\
    length (entries s) = 1%nat /\ inv loop_bc 1 s.
Proof.
  destruct loop_ok as (Hbc & Hapi & _ & Hs). destruct loop_first_step as (s0 & s & E0 & E & Hl).
  exists s0, s. split; [exact E0|]. split; [exact Hl|].
  apply (vm_invariant loop_bc 1 true (fun _ => 0) [] no_api (fun _ => false) 16 [(1, None, 0)] 7 loop_mem 2 tt
           (run_inst 0 0 [] []) s0 s Hbc Hapi Hs E0).
  exact (reach_step _ _ _ _ _ _ _ _ _ _ _ (reach_start _ _ _ _ _ _ _ _ _) E).
Defined.

Lemma scalar_program_returns_witness :
  exists code s, cli_bytecode_run_interp loop_bc 1 true (fun _ => 0) [] no_api (fun p => p =? 5000) 5000
    [(1, None, 0)] 7 16 0 0 [] [] loop_mem 2 tt = Ok (code, s).
Proof.
  destruct loop_ok as (Hbc & Hapi & Hp & Hs).
  apply (scalar_program_returns loop_bc 1 true (fun _ => 0) [] no_api (fun p => p =? 5000) 16 [(1, None, 0)] 7
           loop_mem 2 tt 0 0 [] [] 1 5000 Hbc Hapi Hp Hs);
    [constructor|discriminate|discriminate|split; [|split]; reflexivity|].
  rewrite <- (Z2Nat.id 5000) by discriminate. discriminate.
Defined.

Lemma run_ends_by_timeout_witness :
  cli_bytecode_run_interp loop_bc 1 true (fun _ => 0) [] no_api (fun p => p =? 5000) 5000
    [(1, None, 0)] 7 16 0 0 [] [] loop_mem 2 tt <> NoFuel.
Proof.
  apply (run_ends_by_timeout loop_bc 1 true (fun _ => 0) [] no_api (fun p => p =? 5000) 16 [(1, None, 0)] 7
           loop_mem 2 tt 0 0 [] [] 1 5000); [split; [|split]; reflexivity|].
  rewrite <- (Z2Nat.id 5000) by discriminate. discriminate.
Defined.

End VmProps.

(** * What the checks let through *)
Module VmDefects.
Import VmProps.

(** A frame of 24 bytes: a pointer to offset 8 of object 2 at offset 0, and the
    number -1 at offset 8. *)
Definition frame_bytes (i : Z) : Z := nth (Z.to_nat i) [8; 0; 0; 0; 2; 0; 0; 0; 255; 255; 255; 255] 0.

Definition frame_func : func := {| numArgs := 0; numBytes := 24; constants := []; BB := [] |}.
Definition frame_state : vm unit :=
  {| mem := {[1 := {| bsize := 24; bdata := frame_bytes |}]}; nextb := 2; stk := Stack.empty_stack;
     entries := []; fn := frame_func; values := 1; bb := None; bb_inst := 0;
     infos := {| stack_infos := []; glob_infos := [] |}; stackid := 0; depth := 0; pc := 0; api := tt |}.

Definition frame_exec (i : inst) : R (vm unit * ctl) :=
  exec_inst loop_bc 1 true (fun _ => 0) [] no_api frame_state i.

Definition result64 (r : R (vm unit * ctl)) : option Z :=
  match r with RVal (s, _) => load 8 (mem s) (values s) 16 | _ => None end.

(** [OP_BC_GEP1] multiplies the index and the element size as unsigned numbers:
    element -1 of 4-byte elements, taken from offset 8 of object 2, is offset 4
    of object 3, while [OP_BC_GEPZ] adds the index -1 as a signed number. *)
Lemma gep1_negative_index :
  result64 (frame_exec {| opc := OP_BC_GEP1; ty := 1; itype := 0; dest := 16; u := Three 4 0 8 |})
    = Some (ptr_compose 3 4) /\
  result64 (frame_exec {| opc := OP_BC_GEPZ; ty := 1; itype := 0; dest := 16; u := Three 4 0 8 |})
    = Some (ptr_compose 2 7).
Proof. vm_compute. done. Qed.

(** [READPOP] compares the first byte of a local object with the size of the
    frame, not the last one: a load of 8 bytes at offset 20 leaves the frame. *)
Lemma readpop_ignores_size :
  READPOP loop_bc frame_state (0x40000000 + 20) 8 = RVal (1, 20) /\
  frame_exec {| opc := OP_BC_LOAD; ty := 4; itype := 64; dest := 16; u := Unary (0x40000000 + 20) |} = RUndef.
Proof. vm_compute. done. Qed.

(** The condition of a branch is read without any check. *)
Lemma branch_condition_unchecked :
  frame_exec {| opc := OP_BC_BRANCH; ty := 0; itype := 0; dest := 0; u := Branch 24 0 0 |} = RUndef.
Proof. vm_compute. done. Qed.

(** Registering the context's globals under their fixed numbers, in the order
    6, 2, 1, 5, 4 and then 7 for the program's own, leaves slot 3 as [realloc]
    returned it: a pointer to object 3 reads it uninitialised. *)
Lemma slot_three_uninitialised :
  (let* s := vm_init loop_bc 1 true [(6, Some (1, 0), 1); (2, Some (1, 0), 1); (1, Some (1, 0), 1);
       (5, Some (1, 0), 1); (4, Some (1, 0), 1)] 7 frame_func loop_mem 2 tt in
   ptr_torealptr (infos s) (ptr_compose 3 0) 1) = None.
Proof. vm_compute. done. Qed.

End VmDefects.
