(* ===== verification/JitRun.v ===== *)
(** Running compiled bytecode (bytecode2llvm.cpp): the run-time library, the
    watchdog thread, the guarded call, and the life of the JIT engine. *)
From stdpp Require Import base numbers list strings relations.
From Stdlib Require Import ZArith Lia Bool.
From S2P Require Import Prelude VmCore VmFacts.
Import Errors VmArith.
Local Open Scope Z_scope.

(** * The run-time library *)
Module JitLib.

(** The helpers for 64-bit integers, on the values of their C types; [None] where
    C leaves the result undefined.  Conversions to a signed type wrap. *)
Definition rtlib_sdiv_i64 (a b : Z) : option Z :=
  if (b =? 0) || ((a =? - 2 ^ 63) && (b =? -1)) then None else Some (Z.quot a b).

Definition rtlib_udiv_i64 (a b : Z) : option Z := if b =? 0 then None else Some (a / b).

Definition rtlib_srem_i64 (a b : Z) : option Z :=
  if (b =? 0) || ((a =? - 2 ^ 63) && (b =? -1)) then None else Some (Z.rem a b).

Definition rtlib_urem_i64 (a b : Z) : option Z := if b =? 0 then None else Some (a `mod` b).

Definition rtlib_mul_i64 (a b : Z) : option Z := Some (sint 64 (a * b)).

(** [a << b] shifts the bit pattern of [a]. *)
Definition rtlib_shl_i64 (a b : Z) : option Z :=
  if (b <? 0) || (64 <=? b) then None else Some (sint 64 (Z.shiftl a b)).

Definition rtlib_srl_i64 (a b : Z) : option Z :=
  if (b <? 0) || (64 <=? b) then None else Some (sint 64 (Z.shiftr (uint 64 a) b)).

Definition rtlib_sra_i64 (a b : Z) : option Z :=
  if (b <? 0) || (64 <=? b) then None else Some (Z.shiftr a b).

(** What a name in compiled code resolves to. *)
Inductive callee :=
| Arith (f : Z -> Z -> option Z) | CMemmove | CMemcpy | CMemset | JitException.

(** [noUnknownFunctions]: [None] stands for the fatal error, which leaves the
    function by [longjmp]. *)
Definition noUnknownFunctions (name : string) : option callee :=
  if decide (name = "__divdi3") then Some (Arith rtlib_sdiv_i64)
  else if decide (name = "__udivdi3") then Some (Arith rtlib_udiv_i64)
  else if decide (name = "__moddi3") then Some (Arith rtlib_srem_i64)
  else if decide (name = "__umoddi3") then Some (Arith rtlib_urem_i64)
  else if decide (name = "__muldi3") then Some (Arith rtlib_mul_i64)
  else if decide (name = "__ashrdi3") then Some (Arith rtlib_sra_i64)
  else if decide (name = "__ashldi3") then Some (Arith rtlib_shl_i64)
  else if decide (name = "__lshrdi3") then Some (Arith rtlib_srl_i64)
  else if decide (name = "memmove") then Some CMemmove
  else if decide (name = "memcpy") then Some CMemcpy
  else if decide (name = "memset") then Some CMemset
  else if decide (name = "abort") then Some JitException
  else None.

End JitLib.

(** * The guarded call and the watchdog *)
Module Watchdog.

(** The two threads of [cli_vm_execute_jit].  The watchdog: *)
Inductive wpc :=
| WLock                      (* pthread_mutex_lock *)
| WTest (ret : bool)         (* while (!w->finished && ret != ETIMEDOUT) *)
| WWait                      (* asleep in pthread_cond_timedwait, mutex released *)
| WRelock (ret : bool)       (* woken, [ret]: ETIMEDOUT; takes the mutex again *)
| WUnlock (ret : bool)       (* pthread_mutex_unlock *)
| WFlag (ret : bool)         (* if (ret == ETIMEDOUT) *w->timeout = 1 *)
| WDone.

(** The calling thread: *)
Inductive mpc :=
| MRun                       (* bytecode_execute *)
| MLock (ret : Z) | MFinish (ret : Z) | MSignal (ret : Z) | MUnlock (ret : Z)
| MJoin (ret : Z)            (* pthread_join *)
| MDone (code : Z).          (* returned *)

Inductive owner := Main | Watch.

(** [struct bc_watchdog] with [ctx->timeout], the holder of the mutex, and
    whether the clock has passed [abstime]. *)
Record wstate := {
  w : wpc; mn : mpc; mutex : option owner; finished : bool; timeout : bool; late : bool }.

Definition set_w (s : wstate) (p : wpc) (m : option owner) : wstate :=
  {| w := p; mn := mn s; mutex := m; finished := finished s; timeout := timeout s; late := late s |}.
Definition set_m (s : wstate) (p : mpc) (m : option owner) : wstate :=
  {| w := w s; mn := p; mutex := m; finished := finished s; timeout := timeout s; late := late s |}.

(** [bytecode_watchdog]: one step of the thread. *)
Inductive bytecode_watchdog : wstate -> wstate -> Prop :=
| W_lock s : w s = WLock -> mutex s = None ->
    bytecode_watchdog s (set_w s (WTest false) (Some Watch))
| W_sleep s : w s = WTest false -> finished s = false ->
    bytecode_watchdog s (set_w s WWait None)
| W_leave s ret : w s = WTest ret -> finished s || ret = true ->
    bytecode_watchdog s (set_w s (WUnlock ret) (mutex s))
| W_timed_out s : w s = WWait -> late s = true ->
    bytecode_watchdog s (set_w s (WRelock true) (mutex s))
| W_relock s ret : w s = WRelock ret -> mutex s = None ->
    bytecode_watchdog s (set_w s (WTest ret) (Some Watch))
| W_unlock s ret : w s = WUnlock ret ->
    bytecode_watchdog s (set_w s (WFlag ret) None)
| W_flag s ret : w s = WFlag ret ->
    bytecode_watchdog s {| w := WDone; mn := mn s; mutex := mutex s; finished := finished s;
                           timeout := timeout s || ret; late := late s |}.

(** [bytecode_execute]: compiled code returns its result, 0, or leaves through
    the exception handler; [result] tells which, the flag it may look at is
    [timeout]. *)
Definition bytecode_execute (result : option Z) : Z :=
  match result with Some _ => 0 | None => CL_EBYTECODE end.

(** The calling thread from the call on.  [result timeout] lists what the code
    may do while the flag has that value. *)
Inductive caller (result : bool -> option Z -> Prop) : wstate -> wstate -> Prop :=
| M_run s r : mn s = MRun -> result (timeout s) r ->
    caller result s (set_m s (MLock (bytecode_execute r)) (mutex s))
| M_lock s ret : mn s = MLock ret -> mutex s = None ->
    caller result s (set_m s (MFinish ret) (Some Main))
| M_finish s ret : mn s = MFinish ret ->
    caller result s {| w := w s; mn := MSignal ret; mutex := mutex s; finished := true;
                       timeout := timeout s; late := late s |}
| M_signal s ret : mn s = MSignal ret ->
    caller result s (set_w (set_m s (MUnlock ret) (mutex s))
                      (match w s with WWait => WRelock false | p => p end) (mutex s))
| M_unlock s ret : mn s = MUnlock ret ->
    caller result s (set_m s (MJoin ret) None)
| M_join s ret : mn s = MJoin ret -> w s = WDone ->
    caller result s (set_m s (MDone (if timeout s then CL_ETIMEOUT else ret)) (mutex s)).

(** The clock and spurious wake-ups of [pthread_cond_timedwait]. *)
Inductive environment : wstate -> wstate -> Prop :=
| E_clock s : late s = false ->
    environment s {| w := w s; mn := mn s; mutex := mutex s; finished := finished s;
                     timeout := timeout s; late := true |}
| E_spurious s : w s = WWait -> environment s (set_w s (WRelock false) (mutex s)).

Definition wstep (result : bool -> option Z -> Prop) (s s' : wstate) : Prop :=
  bytecode_watchdog s s' \/ caller result s s' \/ environment s s'.

Inductive wreach (result : bool -> option Z -> Prop) (s0 : wstate) : wstate -> Prop :=
| wr_start : wreach result s0 s0
| wr_step s s' : wreach result s0 s -> wstep result s s' -> wreach result s0 s'.

(** The state when the watchdog thread was created. *)
Definition wstart : wstate :=
  {| w := WLock; mn := MRun; mutex := None; finished := false; timeout := false; late := false |}.

(** [abstime] of [cli_vm_execute_jit]: seconds and nanoseconds, from the time of
    day and the timeout in milliseconds; all three are 32 bits wide or wider. *)
Definition abstime (tv_sec tv_usec bytecode_timeout : Z) : Z * Z :=
  let timeoutus := uint 32 ((bytecode_timeout `mod` 1000) * 1000 + tv_usec) in
  (tv_sec + bytecode_timeout / 1000 + timeoutus / 1000000, 1000 * (timeoutus `mod` 1000000)).

(** The start of [cli_vm_execute_jit]: no code for the function and a thread
    that cannot be created are errors. *)
Definition jit_start (compiled thread_ok : bool) : Z + wstate :=
  if negb compiled then inl CL_EBYTECODE else if negb thread_ok then inl CL_EBYTECODE else inr wstart.

End Watchdog.

(** * Agreement with the interpreter *)
Module JitLibFacts.
Import JitLib.

(** The library call LLVM emits for a 64-bit operation on a machine without
    64-bit registers, with the types of the arguments. *)
Definition libcall (op : opcode) : option (string * (Z -> Z) * (Z -> Z)) :=
  match op with
  | OP_BC_SDIV => Some ("__divdi3", sint 64, sint 64)
  | OP_BC_UDIV => Some ("__udivdi3", uint 64, uint 64)
  | OP_BC_SREM => Some ("__moddi3", sint 64, sint 64)
  | OP_BC_UREM => Some ("__umoddi3", uint 64, uint 64)
  | OP_BC_MUL => Some ("__muldi3", uint 64, uint 64)
  | OP_BC_ASHR => Some ("__ashrdi3", sint 64, sint 32)
  | OP_BC_SHL => Some ("__ashldi3", sint 64, sint 32)
  | OP_BC_LSHR => Some ("__lshrdi3", sint 64, sint 32)
  | _ => None
  end%string.

Lemma uint_shiftl_sint n v b : 0 < n -> 0 <= b -> uint n (Z.shiftl (sint n v) b) = uint n (Z.shiftl v b).
Proof.
  intros Hn Hb. rewrite !Z.shiftl_mul_pow2 by lia. unfold uint.
  rewrite <- Z.mul_mod_idemp_l by lia. rewrite <- (Z.mul_mod_idemp_l v) by lia.
  f_equal. f_equal. apply (uint_sint n v Hn).
Qed.

Lemma sdiv_guard a b : negb (int_ok 4 (Z.quot (sint 64 a) (sint 64 b))) = false ->
  check_sdivops (sint 64 a) (sint 64 b) = false ->
  (sint 64 b =? 0) || ((sint 64 a =? - 2 ^ 63) && (sint 64 b =? -1)) = false.
Proof.
  unfold check_sdivops. intros Hok Hc. apply orb_false_iff in Hc as [-> _]. cbn [orb].
  destruct (Z.eqb_spec (sint 64 a) (- 2 ^ 63)) as [Ea|]; [|done].
  destruct (Z.eqb_spec (sint 64 b) (-1)) as [Eb|]; [|done]. by rewrite Ea, Eb in Hok.
Qed.

(** C27. The library calls.  Where the interpreter computes a 64-bit product,
    quotient, remainder or shift, the function that [noUnknownFunctions] finds
    for the library call of that operation returns the same 64 bits. *)
Theorem rtlib_agrees op name ta tb a b r :
  libcall op = Some (name, ta, tb) -> 0 <= a < 2 ^ 64 -> 0 <= b < 2 ^ 64 ->
  binop op 4 64 a b = RVal r ->
  exists f r', noUnknownFunctions name = Some (Arith f) /\ f (ta a) (tb b) = Some r' /\ uint 64 r' = r.
Proof.
  intros Hl Ha Hb. unfold binop, CHECK_OP. change (cwidth 4) with 64. change (iwidth 4) with 64.
  change (64 <? 32) with false. cbn [andb orb].
  assert (forall x, 0 <= x < 2 ^ 64 -> uint 64 x = x) as Hu by (intros; by apply uint_small).
  assert (forall x, 0 <= x < 64 -> sint 32 x = x) as Hs by (intros; apply sint_small; lia).
  destruct op; try discriminate Hl; injection Hl as <- <- <-.
  - intros [= <-]. eexists _, _. split; [reflexivity|]. split; [reflexivity|].
    rewrite (Hu a Ha), (Hu b Hb). by apply uint_sint.
  - destruct (Z.eqb_spec b 0) as [|Hne]; [done|]. intros [= <-]. eexists _, _. split; [reflexivity|].
    unfold rtlib_udiv_i64. rewrite (Hu a Ha), (Hu b Hb). destruct (Z.eqb_spec b 0); [done|]. by split.
  - destruct (check_sdivops _ _) eqn:Ec; [done|]. destruct (negb _) eqn:Eo; [done|]. intros [= <-].
    eexists _, _. split; [reflexivity|]. unfold rtlib_sdiv_i64. rewrite (sdiv_guard _ _ Eo Ec). by split.
  - destruct (Z.eqb_spec b 0) as [|Hne]; [done|]. intros [= <-]. eexists _, _. split; [reflexivity|].
    unfold rtlib_urem_i64. rewrite (Hu a Ha), (Hu b Hb). destruct (Z.eqb_spec b 0); [done|]. by split.
  - destruct (check_sdivops _ _) eqn:Ec; [done|]. destruct (negb _) eqn:Eo; [done|]. intros [= <-].
    eexists _, _. split; [reflexivity|]. unfold rtlib_srem_i64. rewrite (sdiv_guard _ _ Eo Ec). by split.
  - destruct (64 <? b); [done|]. rewrite orb_false_r. destruct (Z.leb_spec 64 b); [done|]. intros [= <-].
    eexists _, _. split; [reflexivity|]. unfold rtlib_shl_i64. rewrite Hs by lia.
    replace ((b <? 0) || (64 <=? b)) with false by lia. split; [done|].
    rewrite uint_sint by lia. apply uint_shiftl_sint; lia.
  - destruct (64 <? b); [done|]. destruct (Z.leb_spec 64 b); [done|]. intros [= <-].
    eexists _, _. split; [reflexivity|]. unfold rtlib_srl_i64. rewrite Hs by lia.
    replace ((b <? 0) || (64 <=? b)) with false by lia. split; [done|].
    rewrite uint_sint by lia. do 2 f_equal. rewrite uint_sint by lia. by apply Hu.
  - destruct (64 <? b); [done|]. destruct (Z.leb_spec 64 b); [done|]. intros [= <-].
    eexists _, _. split; [reflexivity|]. unfold rtlib_sra_i64. rewrite Hs by lia.
    replace ((b <? 0) || (64 <=? b)) with false by lia. by split.
Qed.

Lemma rtlib_agrees_witness :
  exists f r', noUnknownFunctions "__ashrdi3" = Some (Arith f) /\ f (sint 64 (2 ^ 64 - 8)) (sint 32 1) = Some r' /\
    uint 64 r' = 2 ^ 64 - 4.
Proof.
  apply (rtlib_agrees OP_BC_ASHR "__ashrdi3" (sint 64) (sint 32) (2 ^ 64 - 8) 1 (2 ^ 64 - 4));
    [reflexivity|split; [discriminate|reflexivity]|split; [discriminate|reflexivity]|reflexivity].
Defined.

End JitLibFacts.

(** * The watchdog protocol *)
Module WatchdogFacts.
Import Watchdog.

Definition w_holds (p : wpc) : bool := match p with WTest _ | WUnlock _ => true | _ => false end.
Definition m_holds (p : mpc) : bool := match p with MFinish _ | MSignal _ | MUnlock _ => true | _ => false end.
Definition m_finished (p : mpc) : bool :=
  match p with MSignal _ | MUnlock _ | MJoin _ | MDone _ => true | _ => false end.
Definition m_signalled (p : mpc) : bool := match p with MUnlock _ | MJoin _ | MDone _ => true | _ => false end.
Definition w_late (p : wpc) : bool :=
  match p with WTest r | WRelock r | WUnlock r | WFlag r => r | _ => false end.
Definition m_ret (p : mpc) : option Z :=
  match p with MRun | MDone _ => None | MLock r | MFinish r | MSignal r | MUnlock r | MJoin r => Some r end.

(** The mutex is held where the code says so, nobody sleeps once the signal was
    sent, and a timeout is only reported when it is late. *)
Record winv (s : wstate) : Prop := {
  wi_watch : w_holds (w s) = true <-> mutex s = Some Watch;
  wi_main : m_holds (mn s) = true <-> mutex s = Some Main;
  wi_finished : finished s = m_finished (mn s);
  wi_awake : m_signalled (mn s) = true -> w s <> WWait;
  wi_late : w_late (w s) = true -> late s = true;
  wi_timeout : timeout s = true -> late s = true /\ w s = WDone;
  wi_ret : forall r, m_ret (mn s) = Some r -> r = 0 \/ r = CL_EBYTECODE;
  wi_done : forall code, mn s = MDone code -> w s = WDone /\
    (code = CL_ETIMEOUT <-> timeout s = true) /\ (code = 0 \/ code = CL_EBYTECODE \/ code = CL_ETIMEOUT) }.

Lemma winv_start : winv wstart.
Proof. split; cbn; try done. Qed.

Ltac wtac :=
  repeat match goal with
  | H : winv _ |- _ => destruct H
  end; split; cbn in *;
  repeat match goal with
  | E : w ?s = _ |- _ => rewrite E in *; clear E
  | E : mn ?s = _ |- _ => rewrite E in *; clear E
  | E : mutex ?s = _ |- _ => rewrite E in *; clear E
  | E : finished ?s = _ |- _ => rewrite E in *; clear E
  end; cbn in *.

Lemma winv_watchdog s s' : winv s -> bytecode_watchdog s s' -> winv s'.
Proof.
  intros H Hs. destruct Hs; wtac; try (by intuition congruence).
  all: try match goal with |- forall code, _ -> _ => intros code Hc; destruct (wi_done0 code Hc) as (? & _); congruence end.
  - by destruct (mn s).
  - intros [Ht|Hr]%orb_true_iff; [by destruct (wi_timeout0 Ht)|]. by auto.
Qed.

Lemma bytecode_execute_code r : bytecode_execute r = 0 \/ bytecode_execute r = CL_EBYTECODE.
Proof. destruct r; [by left|by right]. Qed.

Lemma winv_caller result s s' : winv s -> caller result s s' -> winv s'.
Proof.
  intros H Hs. destruct Hs; wtac; try (by intuition congruence).
  - intros r' [= <-]. apply bytecode_execute_code.
  - by destruct (w s).
  - by destruct (w s).
  - by destruct (w s).
  - intros [? E]%wi_timeout0. by rewrite E.
  - intros code [= <-]. split; [done|]. destruct (timeout s); [tauto|].
    destruct (wi_ret0 ret eq_refl) as [->| ->]; (split; [split; discriminate|by auto]).
Qed.

Lemma winv_environment s s' : winv s -> environment s s' -> winv s'.
Proof.
  intros H Hs. destruct Hs; wtac; try (by intuition congruence).
  all: intros code Hc; destruct (wi_done0 code Hc) as (? & _); congruence.
Qed.

Lemma winv_reach result s : wreach result wstart s -> winv s.
Proof.
  induction 1 as [|s s' _ IH [Hs|[Hs|Hs]]];
    [apply winv_start|by eapply winv_watchdog|by eapply winv_caller|by eapply winv_environment].
Qed.

(** C28. The result of a compiled run.  When [cli_vm_execute_jit] returns, the
    watchdog thread has ended (its record lives on the caller's stack) and the
    mutex is free; the code is CL_ETIMEOUT exactly if the watchdog set the flag,
    which it does only after the deadline; otherwise it is that of the compiled
    code, success or the runtime error. *)
Theorem watchdog_result result s code : wreach result wstart s -> mn s = MDone code ->
  w s = WDone /\ mutex s = None /\ (code = CL_ETIMEOUT <-> timeout s = true) /\
  (timeout s = true -> late s = true) /\ (code = 0 \/ code = CL_EBYTECODE \/ code = CL_ETIMEOUT).
Proof.
  intros Hr Hm. destruct (winv_reach _ _ Hr) as [Hw Hmn _ _ _ Ht _ Hd].
  destruct (Hd code Hm) as (Ew & Hc & Hcode). split; [done|]. split.
  - rewrite Ew in Hw. rewrite Hm in Hmn. destruct (mutex s) as [[]|]; cbn in *; intuition congruence.
  - split; [done|]. split; [|done]. intros H. by destruct (Ht H).
Qed.

(** The remaining work once the caller has announced the end. *)
Definition m_work (p : mpc) : nat :=
  match p with
  | MRun => 7 | MLock _ => 6 | MFinish _ => 5 | MSignal _ => 4 | MUnlock _ => 3 | MJoin _ => 2 | MDone _ => 0
  end.
Definition w_work (p : wpc) : nat :=
  match p with
  | WLock => 5 | WWait => 6 | WRelock _ => 5 | WTest _ => 4 | WUnlock _ => 3 | WFlag _ => 2 | WDone => 0
  end.
Definition work (s : wstate) : nat := m_work (mn s) + w_work (w s) + (if late s then 0 else 1).

Lemma work_decreases result s s' : winv s -> finished s = true -> wstep result s s' ->
  finished s' = true /\ (work s' < work s)%nat.
Proof.
  intros Hi Hf Hs. unfold work. pose proof (wi_finished _ Hi) as Hm. rewrite Hf in Hm.
  destruct Hs as [Hs|[Hs|Hs]]; destruct Hs; cbn in *; try congruence;
    repeat match goal with E : w _ = _ |- _ => rewrite E in * | E : mn _ = _ |- _ => rewrite E in * end;
    cbn in *; try discriminate; try (split; [done|]; lia).
  - split; [done|]. destruct (w s); cbn; lia.
  - match goal with E : late _ = false |- _ => rewrite E end. split; [done|]. lia.
Qed.

Lemma not_stuck result s : winv s -> finished s = true -> (forall s', ~ wstep result s s') ->
  exists code, mn s = MDone code.
Proof.
  intros Hi Hf Hstuck. pose proof (wi_finished _ Hi) as Hm. rewrite Hf in Hm.
  destruct (mn s) as [|?|?|ret|ret|ret|code] eqn:Em; try discriminate; [| | |by eauto]; exfalso.
  - eapply Hstuck. right. left. by eapply M_signal.
  - eapply Hstuck. right. left. by eapply M_unlock.
  - pose proof (wi_main _ Hi) as Hmx. pose proof (wi_watch _ Hi) as Hwx. rewrite Em in Hmx. cbn in Hmx.
    assert (w_holds (w s) = false -> mutex s = None) as Hfree.
    { intros E. rewrite E in Hwx. destruct (mutex s) as [[]|]; [| |done]; intuition discriminate. }
    pose proof (wi_awake _ Hi) as Ha. rewrite Em in Ha. specialize (Ha eq_refl).
    destruct (w s) as [|r| |r|r|r|] eqn:Ew; [..|]; try congruence; eapply Hstuck.
    + left. eapply W_lock; auto.
    + left. eapply W_leave; [done|]. by rewrite Hf.
    + left. eapply W_relock; [done|]. auto.
    + left. by eapply W_unlock.
    + left. by eapply W_flag.
    + right. left. by eapply M_join.
Qed.

(** C29. No lost wake-up.  Once the compiled code has ended and the caller has
    announced it, every schedule of the two threads, with the clock and spurious
    wake-ups, takes at most 11 more steps, and one that cannot continue has
    returned from [cli_vm_execute_jit]. *)
Theorem watchdog_terminates result s : wreach result wstart s -> finished s = true ->
  forall n s', nsteps (wstep result) n s s' ->
  (n <= 11)%nat /\ ((forall s'', ~ wstep result s' s'') -> exists code, mn s' = MDone code).
Proof.
  intros Hr Hf.
  assert (work s <= 11)%nat as Hb.
  { pose proof (wi_finished _ (winv_reach _ _ Hr)) as Hm. rewrite Hf in Hm. unfold work.
    destruct (mn s), (w s), (late s); cbn in *; (discriminate || lia). }
  assert (forall n s s', nsteps (wstep result) n s s' -> wreach result wstart s -> finished s = true ->
            (n <= work s)%nat /\ wreach result wstart s' /\ finished s' = true) as Hrun.
  { clear. intros n s s'. induction 1 as [s|n s s1 s2 Hs _ IH]; intros Hr Hf; [split; [lia|done]|].
    destruct (work_decreases _ _ _ (winv_reach _ _ Hr) Hf Hs) as [Hf1 Hlt].
    destruct IH as [Hn IH]; [by eapply wr_step|done|]. split; [lia|done]. }
  intros n s' Hn. destruct (Hrun _ _ _ Hn Hr Hf) as (? & Hr' & Hf'). split; [lia|].
  apply not_stuck; [by eapply winv_reach|done].
Qed.

(** The code may end in any way at any time. *)
Definition any_result (flag : bool) (r : option Z) : Prop := True.

(** A run in which the code returns first: states until the caller has finished. *)
Definition wrun_done (late : bool) : wstate :=
  {| w := WLock; mn := MSignal 0; mutex := Some Main; finished := true; timeout := false; late := late |}.

Lemma wrun_done_reach : wreach any_result wstart (wrun_done false).
Proof.
  eapply wr_step; [eapply wr_step; [eapply wr_step; [apply wr_start|]|]|]; right; left.
  - by eapply (M_run any_result wstart (Some 0)).
  - by eapply M_lock.
  - by eapply M_finish.
Qed.

(** A complete run: the code has returned, the watchdog leaves, the caller joins. *)
Definition wfinal : wstate :=
  {| w := WDone; mn := MDone 0; mutex := None; finished := true; timeout := false; late := false |}.

Lemma wfinal_reach : wreach any_result wstart wfinal.
Proof.
  pose proof wrun_done_reach as H.
  eapply wr_step in H; [|right; left; by eapply M_signal].
  eapply wr_step in H; [|right; left; by eapply M_unlock].
  eapply wr_step in H; [|left; by eapply W_lock].
  eapply wr_step in H; [|left; by eapply W_leave].
  eapply wr_step in H; [|left; by eapply W_unlock].
  eapply wr_step in H; [|left; by eapply W_flag].
  eapply wr_step in H; [|right; left; by eapply M_join].
  exact H.
Qed.

Lemma watchdog_result_witness : mutex wfinal = None /\ (0 = CL_ETIMEOUT <-> timeout wfinal = true).
Proof.
  destruct (watchdog_result any_result wfinal 0 wfinal_reach eq_refl) as (_ & Hm & Hc & _). exact (conj Hm Hc).
Defined.

Lemma wfinal_steps : nsteps (wstep any_result) 7 (wrun_done false) wfinal.
Proof.
  eapply nsteps_l; [right; left; by eapply M_signal|].
  eapply nsteps_l; [right; left; by eapply M_unlock|].
  eapply nsteps_l; [left; by eapply W_lock|].
  eapply nsteps_l; [left; by eapply W_leave|].
  eapply nsteps_l; [left; by eapply W_unlock|].
  eapply nsteps_l; [left; by eapply W_flag|].
  eapply nsteps_l; [right; left; by eapply M_join|]. apply nsteps_O.
Qed.

Lemma watchdog_terminates_witness :
  (7 <= 11)%nat /\ ((forall s'', ~ wstep any_result wfinal s'') -> exists code, mn wfinal = MDone code).
Proof.
  exact (watchdog_terminates any_result (wrun_done false) wrun_done_reach eq_refl 7 wfinal wfinal_steps).
Defined.

(** The deadline is the time of day plus the timeout, in normal form. *)
Lemma abstime_exact tv_sec tv_usec t : 0 <= tv_usec < 1000000 -> 0 <= t ->
  let '(s, ns) := abstime tv_sec tv_usec t in
  0 <= ns < 1000000000 /\ s * 1000000000 + ns = (tv_sec * 1000000 + tv_usec + t * 1000) * 1000.
Proof.
  intros Hu Ht. unfold abstime. pose proof (Z.mod_pos_bound t 1000 ltac:(lia)).
  rewrite uint_small by (change (2 ^ 32) with 4294967296; lia).
  pose proof (Z.div_mod t 1000 ltac:(lia)).
  set (x := t `mod` 1000 * 1000 + tv_usec) in *. pose proof (Z.div_mod x 1000000 ltac:(lia)).
  pose proof (Z.mod_pos_bound x 1000000 ltac:(lia)). lia.
Qed.

End WatchdogFacts.

(** * The JIT engine *)
Module JitEngine.

(** [enum bc_state]. *)
Inductive bc_state := bc_skip | bc_loaded | bc_jit | bc_interp.

#[export] Instance bc_state_eq_dec : EqDecision bc_state.
Proof. solve_decision. Defined.

(** [struct cli_bcengine]: whether the execution engine and the listener exist,
    and the numbers of the programs whose functions were compiled. *)
Record bcengine := { EE : bool; Listener : bool; compiledFunctions : list nat }.

(** [struct cli_all_bc], as far as preparing the programs goes. *)
Record all_bc := { states : list bc_state; engine : option bcengine }.

Inductive archtype := arm | ppc | ppc64 | x86 | x86_64 | other_arch.

Definition BYTECODE_INTERPRETER : Z := 0x1.
Definition BYTECODE_JIT_X86 : Z := 0x2.
Definition BYTECODE_JIT_PPC : Z := 0x4.
Definition BYTECODE_JIT_ARM : Z := 0x8.

Definition has (mask bit : Z) : bool := negb (Z.land mask bit =? 0).

(** [bytecode_init]: the code, and whether LLVM is in multithreaded mode after
    it; [atomics] tells whether LLVM was built with atomic operations. *)
Definition bytecode_init (multithreaded atomics : bool) : Z * bool :=
  if multithreaded then (CL_EARG, true) else (0, atomics).

(** [cli_bytecode_init_jit]: the code and [bcs->engine].  [old_cpu]: an i386 or
    i486; [rwx]: a page of writable and executable memory could be allocated. *)
Definition cli_bytecode_init_jit (arch : archtype) (dconfmask : Z) (old_cpu rwx mem : bool)
    : Z * option bcengine :=
  let enabled :=
    match arch with
    | arm => Some (has dconfmask BYTECODE_JIT_ARM)
    | ppc | ppc64 => Some (has dconfmask BYTECODE_JIT_PPC)
    | x86 | x86_64 => Some (has dconfmask BYTECODE_JIT_X86)
    | other_arch => None
    end in
  match enabled with
  | None => (CL_EBYTECODE, None)
  | Some false => (0, None)
  | Some true =>
      if old_cpu then (0, None)
      else if negb rwx then (0, None)
      else if negb mem then (CL_EMEM, None)
      else (0, Some {| EE := false; Listener := false; compiledFunctions := [] |})
  end.

(** [cli_bytecode_done_jit] frees the engine. *)
Definition cli_bytecode_done_jit (bcs : all_bc) : Z * all_bc :=
  (0, {| states := states bcs; engine := None |}).

(** How [LLVMCodegen::generate] ends for a program: true, false, a fatal LLVM
    error (which longjmps out of [cli_bytecode_prepare_jit]) or an exception. *)
Inductive outcome := GenTrue | GenFalse | GenFatal | GenBadAlloc | GenException.

#[export] Instance outcome_eq_dec : EqDecision outcome.
Proof. solve_decision. Defined.

(** The loop over the programs; the result is the list of the compiled ones, or
    the code that [cli_bytecode_prepare_jit] returns with what was compiled. *)
Fixpoint generate_all (generate : nat -> outcome) (i : nat) (l : list bc_state) (done : list nat)
    : Z * list nat + list nat :=
  match l with
  | [] => inr done
  | bc_skip :: l' => generate_all generate (S i) l' done
  | _ :: l' =>
      match generate i with
      | GenTrue => generate_all generate (S i) l' (done ++ [i])
      | GenFalse | GenFatal | GenException => inl (CL_EBYTECODE, done)
      | GenBadAlloc => inl (CL_EMEM, done)
      end
  end.

(** How the phases of [cli_bytecode_prepare_jit] end: the creation of the engine
    ([GenFalse]: the builder returns NULL), of the listener, the function
    prototypes and the API mappings, the generation of each program, and at last
    the compilation of all functions. *)
Record phases := {
  create : outcome; listen : outcome; setup : outcome; generate : nat -> outcome; compile : outcome
}.

(** The code that is returned when a phase ends with [o]. *)
Definition return_code (o : outcome) : Z :=
  match o with
  | GenTrue => -1
  | GenBadAlloc => CL_EMEM
  | GenFalse | GenFatal | GenException => CL_EBYTECODE
  end.

Definition set_engine (bcs : all_bc) (ee listener : bool) (l : list nat) : all_bc :=
  {| states := states bcs; engine := Some {| EE := ee; Listener := listener; compiledFunctions := l |} |}.

(** [cli_bytecode_prepare_jit]: the states are set before the last phase. *)
Definition cli_bytecode_prepare_jit (p : phases) (bcs : all_bc) : Z * all_bc :=
  match engine bcs with
  | None => (CL_EBYTECODE, bcs)
  | Some e =>
      match create p, listen p, setup p with
      | GenTrue, GenTrue, GenTrue =>
          match generate_all (generate p) 0 (states bcs) (compiledFunctions e) with
          | inl (code, l) => (code, set_engine bcs true true l)
          | inr l =>
              (return_code (compile p), set_engine {| states := map (fun _ => bc_jit) (states bcs); engine := engine bcs |} true true l)
          end
      | GenTrue, GenTrue, o => (return_code o, set_engine bcs true true (compiledFunctions e))
      | GenTrue, o, _ => (return_code o, set_engine bcs true (Listener e) (compiledFunctions e))
      | GenFalse, _, _ => (CL_EBYTECODE, set_engine bcs false (Listener e) (compiledFunctions e))
      | o, _, _ => (return_code o, bcs)
      end
  end.

(** [setGuard] and the choice of the stack guard: [md5] of the salt, one byte of
    which is cleared so that the guard ends a string. *)
Definition name_salt : list Z := [16; 38; 97; 12; 8; 4; 72; 196; 217; 144; 33; 124; 18; 11; 17; 253].
Definition setGuard (md5 : list Z -> list Z) (rnd : nat -> Z) : list Z :=
  md5 (name_salt ++ map rnd (seq 16 32)).
Definition guard_bytes (md5 : list Z -> list Z) (rnd : nat -> Z) (rnd2 : Z) : option (list Z) :=
  let plus := if rnd2 =? 2 then 8 else 0 in
  bset (setGuard md5 rnd) (plus + 8 - 1) 0.

(** [LLVMApiScopedLock]: the lock is taken exactly when LLVM is not in
    multithreaded mode, and released by the destructor under the same test. *)
Definition scoped_acquire (multithreaded : bool) (held : Z) : Z := if multithreaded then held else held + 1.
Definition scoped_release (multithreaded : bool) (held : Z) : Z := if multithreaded then held else held - 1.

End JitEngine.

Module JitEngineFacts.
Import JitEngine.

(** The programs that [generate_all] compiles. *)
Definition to_compile (i : nat) (l : list bc_state) : list nat :=
  omap (fun p : nat * bc_state => if decide (snd p = bc_skip) then None else Some (fst p)) (zip (seq i (length l)) l).

(** How the first phase ends that does not succeed. *)
Fixpoint first_failure (l : list outcome) : outcome :=
  match l with
  | [] => GenTrue
  | GenTrue :: l => first_failure l
  | o :: _ => o
  end.

(** The phases before the last, one for each program that is not to be skipped. *)
Definition generation (p : phases) (bcs : all_bc) : list outcome :=
  create p :: listen p :: setup p :: (generate p <$> to_compile 0 (states bcs)).

Lemma first_failure_app l l' : first_failure (l ++ l') = if decide (first_failure l = GenTrue) then first_failure l' else first_failure l.
Proof. induction l as [|[] l IH]; done. Qed.

Lemma generate_all_failure gen l : forall i done,
  match generate_all gen i l done with
  | inr done' => done' = done ++ to_compile i l /\ first_failure (gen <$> to_compile i l) = GenTrue
  | inl (code, done') => code = return_code (first_failure (gen <$> to_compile i l)) /\ first_failure (gen <$> to_compile i l) <> GenTrue
  end.
Proof.
  induction l as [|st l IH]; intros i done; cbn [generate_all]; [by rewrite app_nil_r|].
  destruct (decide (st = bc_skip)) as [->|Hne]; [exact (IH (S i) done)|].
  assert (to_compile i (st :: l) = i :: to_compile (S i) l) as ->.
  { unfold to_compile. cbn. by destruct (decide (st = bc_skip)). }
  rewrite fmap_cons. cbn [first_failure]. specialize (IH (S i) (done ++ [i])).
  destruct st; try done; (destruct (gen i) eqn:Eg; cbn iota; [|split; [reflexivity|discriminate]..]; destruct (generate_all _ _ _ _) as [[code d]|d]; [done|];
    destruct IH as [-> ?]; by rewrite <- app_assoc).
Qed.

(** [cli_bytecode_prepare_jit] without an engine, and with one. *)
Lemma prepare_jit_spec p bcs : let r := cli_bytecode_prepare_jit p bcs in
  match engine bcs with
  | None => r = (CL_EBYTECODE, bcs)
  | Some e =>
      fst r = return_code (first_failure (generation p bcs ++ [compile p])) /\
      if decide (first_failure (generation p bcs) = GenTrue)
      then snd r = {| states := map (fun _ => bc_jit) (states bcs);
                      engine := Some {| EE := true; Listener := true; compiledFunctions := compiledFunctions e ++ to_compile 0 (states bcs) |} |}
      else states (snd r) = states bcs
  end.
Proof.
  cbn zeta. rewrite first_failure_app. unfold cli_bytecode_prepare_jit, generation. destruct (engine bcs) as [e|]; [|done].
  destruct (create p); try done. destruct (listen p); try done. destruct (setup p); try done. cbn [first_failure].
  pose proof (generate_all_failure (generate p) (states bcs) 0 (compiledFunctions e)) as H.
  destruct (generate_all _ _ _ _) as [[code l]|l]; destruct H as [-> H].
  - destruct (decide _); [done|]. by split.
  - destruct (decide _); [|done]. split; [by destruct (compile p)|done].
Qed.

(** C30. When the programs are marked for the JIT.  [cli_bytecode_prepare_jit]
    returns -1 exactly if there is an engine, the phases before the last (the
    engine, the listener, the function prototypes and the generation of every
    program that is not to be skipped) succeed and all functions can be compiled;
    otherwise it returns CL_EMEM if the first phase that fails runs out of memory,
    and CL_EBYTECODE if not.  Whatever it returns, the marking is all or nothing:
    all programs are marked for the JIT exactly if the phases before the last
    succeed (so also when the compilation at the end fails), and the functions of
    all programs that are not to be skipped are then recorded; else no program
    changes state. *)
Theorem prepare_jit_phases p bcs :
  let '(code, bcs') := cli_bytecode_prepare_jit p bcs in
  let failed := first_failure (generation p bcs ++ [compile p]) in
  (code = -1 <-> is_Some (engine bcs) /\ Forall (eq GenTrue) (generation p bcs) /\ compile p = GenTrue) /\
  (code <> -1 -> code = if decide (is_Some (engine bcs) /\ failed = GenBadAlloc) then CL_EMEM else CL_EBYTECODE) /\
  (is_Some (engine bcs) /\ Forall (eq GenTrue) (generation p bcs) ->
     Forall (eq bc_jit) (states bcs') /\ length (states bcs') = length (states bcs) /\
     exists e e', engine bcs = Some e /\ engine bcs' = Some e' /\
       compiledFunctions e' = compiledFunctions e ++ to_compile 0 (states bcs)) /\
  (~ (is_Some (engine bcs) /\ Forall (eq GenTrue) (generation p bcs)) -> states bcs' = states bcs).
Proof.
  pose proof (prepare_jit_spec p bcs) as H. cbn zeta in H. destruct (cli_bytecode_prepare_jit p bcs) as [code bcs'].
  assert (forall l, first_failure l = GenTrue <-> Forall (eq GenTrue) l) as Hff.
  { clear. induction l as [|o l IH]; [split; constructor|]. rewrite Forall_cons. destruct o; cbn; [tauto|..]; split; try done; by intros []. }
  destruct (engine bcs) as [e|].
  2: { injection H as -> ->. split; [split; [done|by intros [[] _]]|]. split; [intros _; destruct (decide _) as [[[] _]|]; done|].
       split; [by intros [[] _]|done]. }
  cbn [fst snd] in H. destruct H as [-> H]. assert (is_Some (Some e)) as He by eauto. set (g := generation p bcs) in *.
  split; [|split; [|split]].
  - transitivity (first_failure (g ++ [compile p]) = GenTrue).
    { clear. destruct (first_failure (g ++ [compile p])); (split; intros E; [try reflexivity; vm_compute in E|try reflexivity]; discriminate E). }
    rewrite Hff, Forall_app, Forall_singleton. naive_solver.
  - intros Hne. destruct (decide (is_Some (Some e) /\ first_failure (g ++ [compile p]) = GenBadAlloc)) as [[_ E]|Hn]; [by rewrite E|].
    destruct (first_failure (g ++ [compile p])); try done; by destruct Hn.
  - intros [_ Hg]. rewrite decide_True in H by (by apply Hff). subst bcs'. cbn. rewrite length_map.
    split; [by apply Forall_map, Forall_true|]. split; [done|]. by eexists _, _.
  - intros Hn. rewrite decide_False in H; [done|]. intros ?%Hff. tauto.
Qed.

Definition two_programs : all_bc :=
  {| states := [bc_loaded; bc_skip]; engine := Some {| EE := false; Listener := false; compiledFunctions := [] |} |}.
Definition all_true : phases :=
  {| create := GenTrue; listen := GenTrue; setup := GenTrue; generate := fun _ => GenTrue; compile := GenTrue |}.

Lemma prepare_jit_phases_witness :
  Forall (eq bc_jit) (states (snd (cli_bytecode_prepare_jit all_true two_programs))).
Proof. apply (prepare_jit_phases all_true two_programs). split; [by eexists|repeat constructor]. Defined.

(** A program that was to be skipped is marked for the JIT all the same, though
    nothing was compiled for it. *)
Lemma skipped_marked_jit :
  cli_bytecode_prepare_jit all_true two_programs =
  (-1, {| states := [bc_jit; bc_jit]; engine := Some {| EE := true; Listener := true; compiledFunctions := [0%nat] |} |}).
Proof. reflexivity. Qed.

(** The last phase runs after the states were set: it returns an error, and every
    program is marked for the JIT. *)
Lemma failed_compile_marks_jit :
  cli_bytecode_prepare_jit {| create := GenTrue; listen := GenTrue; setup := GenTrue; generate := fun _ => GenTrue; compile := GenFatal |}
    two_programs =
  (CL_EBYTECODE, {| states := [bc_jit; bc_jit]; engine := Some {| EE := true; Listener := true; compiledFunctions := [0%nat] |} |}).
Proof. reflexivity. Qed.

(** The guard always contains a terminating zero, inside its 16 bytes. *)
Lemma guard_terminated md5 rnd rnd2 : length (setGuard md5 rnd) = 16%nat ->
  exists g, guard_bytes md5 rnd rnd2 = Some g /\ length g = 16%nat /\ In 0 g.
Proof.
  intros Hl. unfold guard_bytes, bset. rewrite Hl.
  replace ((0 <=? _) && _) with true by (destruct (rnd2 =? 2); reflexivity).
  eexists. split; [reflexivity|]. rewrite length_insert, Hl. split; [done|].
  apply list_elem_of_In, list_elem_of_lookup. eexists. apply list_lookup_insert_eq.
  rewrite Hl. destruct (rnd2 =? 2); cbn; lia.
Qed.

End JitEngineFacts.
