(* ===== verification/RtChecks.v ===== *)
(** The run-time bounds checks inserted into compiled bytecode
    (ClamBCRTChecks.cpp): where a pointer comes from, how large the object is,
    and the comparisons put in front of an access. *)
From stdpp Require Import base numbers list gmap.
From Stdlib Require Import ZArith Lia Bool.
From S2P Require Import Prelude.
Local Open Scope Z_scope.

(** * Values of the function being checked *)
Module RtIr.

Abbreviation vid := nat.

(** The values that matter to the pass: pointers, with the instructions that
    derive one from another, and the integers that give sizes. *)
Inductive node :=
| Arg (no : nat) (pointee : Z)            (* argument; size of the type pointed to *)
| Alloc (count : vid) (elt : Z)           (* alloca or global: elements and their size *)
| Cast (v : vid)                          (* pointer cast *)
| Gep (v : vid) (zero : bool)             (* getelementptr; whether all indices are 0 *)
| Phi (inc : list vid)
| Select (c t f : vid)
| Load (p : vid) (pointee : Z)            (* a loaded pointer *)
| Call (decl : bool) (last : option vid)  (* a call; whether the callee is external; the last
                                             argument if its type is an integer *)
| Const (w v : Z)                         (* an integer constant of [w] bits *)
| Zext (v : vid)                          (* to 64 bits *)
| Int (w : Z).                            (* any other integer *)

(** A value with the flag whether its type is i8*. *)
Abbreviation graph := (list (node * bool)).

Definition kind (g : graph) (v : vid) : option node := fst <$> (g !! v).
Definition is_p8 (g : graph) (v : vid) : bool := default false (snd <$> (g !! v)).

(** [V->getType()] of an integer, as its width. *)
Definition int_width (g : graph) (v : vid) : Z :=
  match kind g v with Some (Const w _) => w | Some (Int w) => w | _ => 64 end.

(** [Value::stripPointerCasts]: casts and GEPs without offset. *)
Fixpoint stripPointerCasts (n : nat) (g : graph) (v : vid) : vid :=
  match n with
  | O => v
  | S n' =>
      match kind g v with
      | Some (Cast u) => stripPointerCasts n' g u
      | Some (Gep u true) => stripPointerCasts n' g u
      | _ => v
      end
  end.

(** [Value::getUnderlyingObject]: at most six casts and GEPs. *)
Fixpoint getUnderlyingObject (n : nat) (g : graph) (v : vid) : vid :=
  match n with
  | O => v
  | S n' =>
      match kind g v with
      | Some (Cast u) | Some (Gep u _) => getUnderlyingObject n' g u
      | _ => v
      end
  end.

Definition strip (g : graph) (v : vid) : vid := stripPointerCasts (length g) g v.
Definition underlying (g : graph) (v : vid) : vid := getUnderlyingObject 6 g v.

(** [PointerTracking::computeAllocationCountValue]: the number of elements and
    the size of one. *)
Definition computeAllocationCountValue (g : graph) (v : vid) : option (vid * Z) :=
  match kind g (strip g v) with Some (Alloc count elt) => Some (count, elt) | _ => None end.

End RtIr.

(** * Bases and bounds *)
Module PtrVerifier.
Export RtIr.

(** [BaseMap], [BoundsMap] and the instructions added so far. *)
Record pv := { gr : graph; BaseMap : gmap vid vid; BoundsMap : gmap vid (option vid) }.

Definition add_node (s : pv) (n : node) (p8 : bool) : vid * pv :=
  (length (gr s), {| gr := gr s ++ [(n, p8)]; BaseMap := BaseMap s; BoundsMap := BoundsMap s |}).

Definition set_base (s : pv) (p b : vid) : pv :=
  {| gr := gr s; BaseMap := <[p := b]> (BaseMap s); BoundsMap := BoundsMap s |}.

Definition set_bounds (s : pv) (p : vid) (b : option vid) : pv :=
  {| gr := gr s; BaseMap := BaseMap s; BoundsMap := <[p := b]> (BoundsMap s) |}.

(** [newPN->addIncoming]. *)
Definition addIncoming (s : pv) (pn v : vid) : pv :=
  {| gr := alter (fun x => match x with (Phi inc, p8) => (Phi (inc ++ [v]), p8) | _ => x end) pn (gr s);
     BaseMap := BaseMap s; BoundsMap := BoundsMap s |}.

(** The loop over the incoming values of a phi in [getPointerBase]. *)
Fixpoint base_loop (base : vid -> pv -> option (vid * pv)) (newPN : vid) (inc : list vid) (s : pv) : option pv :=
  match inc with
  | [] => Some s
  | Inc :: inc' =>
      match base Inc s with
      | Some (V, s) => base_loop base newPN inc' (addIncoming s newPN V)
      | None => None
      end
  end.

(** [getPointerBase]; the fuel bounds the depth of the recursion. *)
Fixpoint getPointerBase (fuel : nat) (Ptr : vid) (s : pv) : option (vid * pv) :=
  match fuel with
  | O => None
  | S fuel' =>
      match BaseMap s !! Ptr with
      | Some b => Some (b, s)
      | None =>
          let P := strip (gr s) Ptr in
          match BaseMap s !! P with
          | Some b => Some (b, set_base s Ptr b)
          | None =>
              let P2 := underlying (gr s) P in
              if negb (P2 =? P)%nat then
                match getPointerBase fuel' P2 s with
                | Some (V, s) => Some (V, set_base s Ptr V)
                | None => None
                end
              else
                match kind (gr s) Ptr with
                | Some (Phi inc) =>
                    let '(newPN, s) := add_node s (Phi []) true in
                    let s := set_base s Ptr newPN in
                    match base_loop (getPointerBase fuel') newPN inc s with
                    | Some s => Some (newPN, s)
                    | None => None
                    end
                | Some (Select c t f) =>
                    match getPointerBase fuel' t s with
                    | None => None
                    | Some (TrueB, s) =>
                        match getPointerBase fuel' f s with
                        | None => None
                        | Some (FalseB, s) =>
                            let '(NewSI, s) := add_node s (Select c TrueB FalseB) true in
                            Some (NewSI, set_base s Ptr NewSI)
                        end
                    end
                | _ =>
                    if is_p8 (gr s) Ptr then Some (Ptr, set_base s Ptr Ptr)
                    else let '(C, s) := add_node s (Cast Ptr) true in Some (C, set_base s C C)
                end
          end
      end
  end.

(** The bound [V] as a 64-bit value, recorded for [B]. *)
Definition widen (B V : vid) (s : pv) : option (option vid * pv) :=
  if int_width (gr s) V =? 64 then Some (Some V, set_bounds s B (Some V))
  else
    let '(V', s) := match kind (gr s) V with
                    | Some (Const _ v) => add_node s (Const 64 v) false
                    | _ => add_node s (Zext V) false
                    end in
    Some (Some V', set_bounds s B (Some V')).

(** The end of [getPointerBounds]: the bound of a value that is neither a phi nor
    a select of bounded values.  [None] outside: a constant was expected. *)
Definition allocation_bounds (Base : vid) (s : pv) : option (option vid * pv) :=
  match computeAllocationCountValue (gr s) Base with
  | Some (V, size) =>
      if 1 <? size then
        match kind (gr s) V with
        | Some (Const w v) =>
            let '(C, s) := add_node s (Const w ((v * size) `mod` 2 ^ w)) false in widen Base C s
        | _ => None
        end
      else widen Base V s
  | None =>
      let Base := strip (gr s) Base in
      match kind (gr s) Base with
      | Some (Call true (Some V)) => widen Base V s
      | _ => Some (None, set_bounds s Base None)
      end
  end.

(** The loop over the incoming values of a phi in [getPointerBounds]. *)
Fixpoint bounds_loop (bounds : vid -> pv -> option (option vid * pv)) (newPN : vid) (inc : list vid)
    (good : bool) (s : pv) : option (bool * pv) :=
  match inc with
  | [] => Some (good, s)
  | Inc :: inc' =>
      match bounds Inc s with
      | None => None
      | Some (Some B, s) => bounds_loop bounds newPN inc' good (addIncoming s newPN B)
      | Some (None, s) =>
          let '(C, s) := add_node s (Const 64 0) false in
          bounds_loop bounds newPN inc' false (addIncoming s newPN C)
      end
  end.

(** [getPointerBounds].  Inner [None]: the null pointer, no bounds known. *)
Fixpoint getPointerBounds (fuel : nat) (Base : vid) (s : pv) : option (option vid * pv) :=
  match fuel with
  | O => None
  | S fuel' =>
      match BoundsMap s !! Base with
      | Some r => Some (r, s)
      | None =>
          match kind (gr s) Base with
          | Some (Arg O pointee) => let '(C, s) := add_node s (Const 64 pointee) false in Some (Some C, s)
          | Some (Load p pointee) =>
              match kind (gr s) (underlying (gr s) (strip (gr s) p)) with
              | Some (Arg O _) => let '(C, s) := add_node s (Const 64 pointee) false in Some (Some C, s)
              | _ => allocation_bounds Base s
              end
          | Some (Phi inc) =>
              let '(newPN, s) := add_node s (Phi []) false in
              let s := set_bounds s Base (Some newPN) in
              match bounds_loop (getPointerBounds fuel') newPN inc true s with
              | None => None
              | Some (good, s) =>
                  let r := if good then Some newPN else None in Some (r, set_bounds s Base r)
              end
          | Some (Select c t f) =>
              match getPointerBounds fuel' t s with
              | None => None
              | Some (TrueB, s) =>
                  match getPointerBounds fuel' f s with
                  | None => None
                  | Some (FalseB, s) =>
                      match TrueB, FalseB with
                      | Some tb, Some fb =>
                          let '(NewSI, s) := add_node s (Select c tb fb) false in
                          Some (Some NewSI, set_bounds s Base (Some NewSI))
                      | _, _ => allocation_bounds Base s
                      end
                  end
              end
          | _ => allocation_bounds Base s
          end
      end
  end.

End PtrVerifier.

(** * What the values are at run time *)
Module RtSem.
Export PtrVerifier.

(** A pointer is derived from one object along the choices of the phis and
    selects on the way ([path]); the flag tells that no GEP moved it. *)
Fixpoint peval (n : nat) (g : graph) (path : list nat) (v : vid) : option (vid * bool) :=
  match n with
  | O => None
  | S n' =>
      match kind g v, path with
      | Some (Cast u), _ => peval n' g path u
      | Some (Gep u z), _ => let* (o, e) := peval n' g path u in Some (o, e && z)
      | Some (Phi inc), i :: path' => let* u := inc !! i in peval n' g path' u
      | Some (Select _ t f), i :: path' => peval n' g path' (match i with O => t | S _ => f end)
      | Some (Arg _ _ | Alloc _ _ | Load _ _ | Call _ _), [] => Some (v, true)
      | _, _ => None
      end
  end.

(** The value of an integer along the same choices; [rho] gives the integers of
    the program. *)
Fixpoint ieval (n : nat) (g : graph) (rho : vid -> Z) (path : list nat) (v : vid) : option Z :=
  match n with
  | O => None
  | S n' =>
      match kind g v, path with
      | Some (Const _ x), _ => Some x
      | Some (Int _), _ => Some (rho v)
      | Some (Zext u), _ => ieval n' g rho path u
      | Some (Phi inc), i :: path' => let* u := inc !! i in ieval n' g rho path' u
      | Some (Select _ t f), i :: path' => ieval n' g rho path' (match i with O => t | S _ => f end)
      | _, _ => None
      end
  end.

(** Values reached through casts and GEPs. *)
Inductive chain (g : graph) : vid -> vid -> Prop :=
| chain_refl v : chain g v v
| chain_cast v u q : kind g v = Some (Cast u) -> chain g u q -> chain g v q
| chain_gep v u z q : kind g v = Some (Gep u z) -> chain g u q -> chain g v q.

(** A pointer into the context, the hidden first argument. *)
Definition ctx_pointer (g : graph) (p : vid) : Prop := exists v x, chain g p v /\ kind g v = Some (Arg O x).

(** The value of an integer that is not chosen along the way. *)
Definition ival (g : graph) (rho : vid -> Z) (v : vid) : option Z :=
  let direct u := match kind g u with
                  | Some (Const _ x) => Some x
                  | Some (Int _) => Some (rho u)
                  | _ => None
                  end in
  match kind g v with Some (Zext u) => direct u | _ => direct v end.

(** The sizes of the objects: what the allocation, the context or the API
    call promises. *)
Definition size_ok (g : graph) (rho : vid -> Z) (osize : vid -> Z) (o : vid) : Prop :=
  match kind g o with
  | Some (Alloc count elt) => 1 <= elt /\ exists x, ival g rho count = Some x /\ 0 <= x /\ x * elt <= osize o
  | Some (Arg O pointee) => pointee <= osize o
  | Some (Load p pointee) => ctx_pointer g p -> pointee <= osize o
  | Some (Call true (Some V)) => exists x, ival g rho V = Some x /\ x <= osize o
  | _ => True
  end.

End RtSem.

(** * Soundness of bases and bounds *)
Module RtFacts.
Export RtSem.

Lemma chain_trans g u v q : chain g u v -> chain g v q -> chain g u q.
Proof. induction 1; [done|eauto using chain..]. Qed.

Lemma strip_chain g n : forall v, chain g v (stripPointerCasts n g v).
Proof.
  induction n as [|n IH]; intros v; cbn; [constructor|].
  destruct (kind g v) as [[| |u|u []| | | | | | |]|] eqn:E; eauto using chain.
Qed.

Lemma underlying_chain g n : forall v, chain g v (getUnderlyingObject n g v).
Proof.
  induction n as [|n IH]; intros v; cbn; [constructor|].
  destruct (kind g v) as [[| |u|u z| | | | | | |]|] eqn:E; eauto using chain.
Qed.

Lemma peval_chain g u q : chain g u q -> forall n path o e, peval n g path u = Some (o, e) ->
  exists n' e', (n' <= n)%nat /\ peval n' g path q = Some (o, e').
Proof.
  induction 1 as [v|v u q E _ IH|v u z q E _ IH]; intros n path o e Hp; [eauto|..];
    (destruct n as [|n]; [done|]); cbn in Hp; rewrite E in Hp.
  - assert (peval n g path u = Some (o, e)) as Hu by (by destruct path).
    destruct (IH _ _ _ _ Hu) as (n' & e' & ? & ?). exists n', e'. split; [lia|done].
  - assert (exists e1, peval n g path u = Some (o, e1)) as [e1 Hu].
    { destruct (peval n g path u) as [[o' e1]|] eqn:Eu; [|by destruct path]. exists e1.
      destruct path; cbn in Hp; by injection Hp as -> _. }
    destruct (IH _ _ _ _ Hu) as (n' & e' & ? & ?). exists n', e'. split; [lia|done].
Qed.

Lemma peval_eq n g path v : peval (S n) g path v =
  match kind g v, path with
  | Some (Cast u), _ => peval n g path u
  | Some (Gep u z), _ => let* (o, e) := peval n g path u in Some (o, e && z)
  | Some (Phi inc), i :: path' => let* u := inc !! i in peval n g path' u
  | Some (Select _ t f), i :: path' => peval n g path' (match i with O => t | S _ => f end)
  | Some (Arg _ _ | Alloc _ _ | Load _ _ | Call _ _), [] => Some (v, true)
  | _, _ => None
  end.
Proof. reflexivity. Qed.

Lemma peval_S g n : forall path v r, peval n g path v = Some r -> peval (S n) g path v = Some r.
Proof.
  induction n as [|n IH]; intros path v r; [done|]. rewrite (peval_eq (S n)), (peval_eq n).
  destruct (kind g v) as [k|]; [|done].
  destruct k; try done; intros Hp.
  - by apply IH.
  - destruct (peval n g path v0) as [[o e]|] eqn:E; [|done]. by rewrite (IH _ _ _ E).
  - destruct path as [|i path]; [done|]. destruct (inc !! i); [|done]. by apply IH.
  - destruct path as [|i path]; [done|]. by apply IH.
Qed.

Lemma peval_le g n m path v r : (n <= m)%nat -> peval n g path v = Some r -> peval m g path v = Some r.
Proof. induction 1 as [|m _ IH]; [done|]. intros Hp. by apply peval_S, IH. Qed.

(** A copy of the pointer's structure, where [X] relates the parts. *)
Definition mirrored (X : vid -> vid -> Prop) (g : graph) (q b : vid) : Prop :=
  (exists inc incb, kind g q = Some (Phi inc) /\ kind g b = Some (Phi incb) /\ Forall2 X inc incb) \/
  (exists c t f tb fb, kind g q = Some (Select c t f) /\ kind g b = Some (Select c tb fb) /\ X t tb /\ X f fb).

Definition alias (g : graph) (q b : vid) : Prop := b = q \/ kind g b = Some (Cast q).

(** [b] is a base of [u]: it copies, as a pair of [G], or is, what [u] is derived from. *)
Definition is_base (g : graph) (G : vid -> vid -> Prop) (u b : vid) : Prop :=
  exists q, chain g u q /\ (G q b \/ alias g q b).

Lemma base_eval g (G : vid -> vid -> Prop) :
  (forall q b, G q b -> mirrored (is_base g G) g q b) ->
  forall n path u b o e, is_base g G u b -> peval n g path u = Some (o, e) ->
  exists m e', peval m g path b = Some (o, e').
Proof.
  intros HG n. induction (lt_wf n) as [n _ IH]. intros path u b o e (q & Hch & Hq) Hp.
  destruct (peval_chain _ _ _ Hch _ _ _ _ Hp) as (n' & e' & Hle & Hp').
  destruct Hq as [Hq|[->|Hq]]; [|by eauto|].
  - destruct (HG _ _ Hq) as [(inc & incb & Ek & Eb & HX)|(c & t & f & tb & fb & Ek & Eb & Ht & Hf)];
      (destruct n' as [|n']; [done|]); cbn in Hp'; rewrite Ek in Hp';
      (destruct path as [|i path]; [done|]).
    + destruct (inc !! i) as [x|] eqn:Ei; [|done].
      destruct (Forall2_lookup_l _ _ _ _ _ HX Ei) as (xb & Eib & Hx).
      destruct (IH n' ltac:(lia) _ _ _ _ _ Hx Hp') as (m & e1 & Hm). exists (S m), e1. cbn. by rewrite Eb, Eib.
    + destruct i as [|i].
      * destruct (IH n' ltac:(lia) _ _ _ _ _ Ht Hp') as (m & e1 & Hm). exists (S m), e1. cbn. by rewrite Eb.
      * destruct (IH n' ltac:(lia) _ _ _ _ _ Hf Hp') as (m & e1 & Hm). exists (S m), e1. cbn. by rewrite Eb.
  - exists (S n'), e'. cbn. rewrite Hq. by destruct path.
Qed.

(** ** Growing graphs *)

(** Nodes other than phis stay; the pass only adds nodes, and incoming values to
    the phi it is building. *)
Definition is_phi (k : node) : bool := match k with Phi _ => true | _ => false end.
Definition gsub (g g' : graph) : Prop :=
  forall v k, kind g v = Some k -> is_phi k = false -> kind g' v = Some k.
Definition ext (g g' : graph) : Prop := forall v k, kind g v = Some k -> kind g' v = Some k.

Lemma ext_gsub g g' : ext g g' -> gsub g g'.
Proof. intros H v k Hk _. by apply H. Qed.
Lemma ext_refl g : ext g g.
Proof. by intros v k. Qed.
Lemma ext_trans g g' g'' : ext g g' -> ext g' g'' -> ext g g''.
Proof. intros H H' v k Hk. by apply H', H. Qed.

Lemma ext_add g x : ext g (g ++ [x]).
Proof.
  intros v k. unfold kind. destruct (g !! v) as [y|] eqn:E; [|done].
  rewrite lookup_app_l by (by eapply lookup_lt_Some). by rewrite E.
Qed.

Lemma kind_new g x b : kind (g ++ [(x, b)]) (length g) = Some x.
Proof. unfold kind. by rewrite list_lookup_middle. Qed.

Lemma kind_lt g v k : kind g v = Some k -> (v < length g)%nat.
Proof. unfold kind. destruct (g !! v) eqn:E; [|done]. intros _. by eapply lookup_lt_Some. Qed.

Lemma chain_gsub g g' u q : gsub g g' -> chain g u q -> chain g' u q.
Proof. intros Hg. induction 1; eauto using chain. Qed.

Lemma is_base_mono g g' (G G' : vid -> vid -> Prop) u b : gsub g g' -> (forall q b, G q b -> G' q b) ->
  is_base g G u b -> is_base g' G' u b.
Proof.
  intros Hg HG (q & Hch & Hq). exists q. split; [by eapply chain_gsub|].
  destruct Hq as [Hq|[->|Hq]]; [left; auto|right; by left|right; right; by apply Hg].
Qed.

Lemma mirrored_mono (X X' : vid -> vid -> Prop) g g' q b : (forall u v, X u v -> X' u v) ->
  (forall v, v = q \/ v = b -> forall k, kind g v = Some k -> kind g' v = Some k) ->
  mirrored X g q b -> mirrored X' g' q b.
Proof.
  intros HX Hk [(inc & incb & E1 & E2 & HF)|(c & t & f & tb & fb & E1 & E2 & Ht & Hf)]; [left|right].
  - exists inc, incb. split; [auto|]. split; [auto|]. eapply Forall2_impl; [done|]. auto.
  - exists c, t, f, tb, fb. auto 10.
Qed.

Lemma addIncoming_kind s pn v u : u <> pn -> kind (gr (addIncoming s pn v)) u = kind (gr s) u.
Proof. intros Hne. unfold kind. cbn. by rewrite list_lookup_alter_ne by done. Qed.

Lemma addIncoming_phi s pn v inc : kind (gr s) pn = Some (Phi inc) ->
  kind (gr (addIncoming s pn v)) pn = Some (Phi (inc ++ [v])).
Proof.
  unfold kind. cbn. rewrite list_lookup_alter_eq. destruct (gr s !! pn) as [[k p]|]; [|done].
  cbn. by intros [= ->].
Qed.

Lemma addIncoming_gsub s pn v inc : kind (gr s) pn = Some (Phi inc) -> gsub (gr s) (gr (addIncoming s pn v)).
Proof.
  intros Hpn u k Hk Hphi. destruct (decide (u = pn)) as [->|Hne].
  - rewrite Hpn in Hk. injection Hk as <-. done.
  - by rewrite addIncoming_kind.
Qed.

Lemma addIncoming_length s pn v : length (gr (addIncoming s pn v)) = length (gr s).
Proof. cbn. apply length_alter. Qed.

(** The pointer operands of a value, which are values of the function. *)
Definition prefs (k : node) : list vid :=
  match k with
  | Cast u | Gep u _ | Load u _ => [u]
  | Phi inc => inc
  | Select _ t f => [t; f]
  | _ => []
  end.

(** The values that are objects of their own. *)
Definition leaf (k : node) : bool :=
  match k with Arg _ _ | Alloc _ _ | Load _ _ | Call _ _ => true | _ => false end.

(** Operands are values of the function, and objects are among the first [L0]
    values, those of the program. *)
Definition scoped (L0 : nat) (g : graph) : Prop :=
  forall v k, kind g v = Some k ->
    Forall (fun u => (u < length g)%nat) (prefs k) /\ (leaf k = true -> (v < L0)%nat).

Lemma Forall_lt_mono (l : list nat) n m : (n <= m)%nat -> Forall (fun u => (u < n)%nat) l -> Forall (fun u => (u < m)%nat) l.
Proof. intros Hn H. eapply Forall_impl; [exact H|]. cbn. lia. Qed.

Lemma kind_app g x p8 v k : kind (g ++ [(x, p8)]) v = Some k -> kind g v = Some k \/ (v = length g /\ k = x).
Proof.
  unfold kind. intros H. destruct (decide (v < length g)%nat).
  - rewrite lookup_app_l in H by done. by left.
  - right. rewrite lookup_app_r in H by lia. destruct (v - length g)%nat as [|d] eqn:E; [|by destruct d].
    cbn in H. injection H as <-. split; [lia|done].
Qed.

Lemma scoped_add L0 g x p8 : scoped L0 g -> leaf x = false -> Forall (fun u => (u < length g)%nat) (prefs x) ->
  scoped L0 (g ++ [(x, p8)]).
Proof.
  intros Hs Hl Hx v k. rewrite length_app. intros [Hv|[-> ->]]%kind_app.
  - destruct (Hs _ _ Hv). split; [eapply Forall_lt_mono; [|done]; lia|done].
  - split; [eapply Forall_lt_mono; [|done]; lia|congruence].
Qed.

Lemma scoped_incoming L0 s pn V inc : kind (gr s) pn = Some (Phi inc) -> scoped L0 (gr s) ->
  (V < length (gr s))%nat -> scoped L0 (gr (addIncoming s pn V)).
Proof.
  intros Hk Hs HV v k. rewrite addIncoming_length. destruct (decide (v = pn)) as [->|Hne].
  - rewrite (addIncoming_phi _ _ _ _ Hk). intros [= <-]. cbn. split; [|done].
    apply Forall_app. split; [by apply (Hs _ _ Hk)|by constructor].
  - rewrite addIncoming_kind by done. apply Hs.
Qed.

(** ** Copies *)
Section Copies.
(** The values below [N0] are the ones that are copied; [X g G] is the relation
    between a value and what stands for it. *)
Context (L0 N0 : nat) (X : graph -> (vid -> vid -> Prop) -> vid -> vid -> Prop).
Hypothesis X_mono : forall g g' (G G' : vid -> vid -> Prop) u b, gsub g g' -> (forall q b, G q b -> G' q b) ->
  X g G u b -> X g' G' u b.

(** Pairs [G'] that extend [G] by complete copies made of nodes from [lo] on. *)
Definition grown (g : graph) (lo : nat) (G G' : vid -> vid -> Prop) : Prop :=
  (forall q b, G q b -> G' q b) /\
  (forall q b, G' q b -> G q b \/ (q < N0)%nat /\ (lo <= b)%nat /\ mirrored (X g G') g q b).

Lemma grown_refl g lo G : grown g lo G G.
Proof. split; auto. Qed.

Lemma grown_trans g g' lo lo' (G G' G'' : vid -> vid -> Prop) : (lo <= lo')%nat -> gsub g g' ->
  (forall v k, (v < N0)%nat \/ (lo <= v)%nat -> kind g v = Some k -> kind g' v = Some k) ->
  grown g lo G G' -> grown g' lo' G' G'' -> grown g' lo G G''.
Proof.
  intros Hlo Hg Hkeep [H1 H2] [H1' H2']. split; [auto|].
  intros q b [Hq|(Hn & Hb & Hq)]%H2'; [|right; split; [done|]; split; [lia|done]].
  destruct (H2 _ _ Hq) as [|(Hn & Hb & Hm)]; [auto|]. right. split; [done|]. split; [done|].
  eapply mirrored_mono; [..|exact Hm].
  - intros u v. by apply X_mono.
  - intros v Hv k. apply Hkeep. destruct Hv as [->| ->]; auto.
Qed.

Lemma grown_ext g g' lo lo' (G G' G'' : vid -> vid -> Prop) : (lo <= lo')%nat -> ext g g' ->
  grown g lo G G' -> grown g' lo' G' G'' -> grown g' lo G G''.
Proof. intros Hlo He. apply grown_trans; [done|by apply ext_gsub|]. intros v k _. apply He. Qed.

Lemma grown_weaken g lo lo' G G' : (lo <= lo')%nat -> grown g lo' G G' -> grown g lo G G'.
Proof.
  intros Hlo [H1 H2]. split; [done|]. intros q b [|(? & ? & ?)]%H2; [auto|right]. split; [done|]. split; [lia|done].
Qed.

(** The values below [N0] only use one another. *)
Definition closed (g : graph) : Prop :=
  (N0 <= length g)%nat /\ scoped L0 g /\
  forall v k, (v < N0)%nat -> kind g v = Some k -> Forall (fun u => (u < N0)%nat) (prefs k).

Lemma closed_ext g g' : (forall v, (v < N0)%nat -> kind g' v = kind g v) -> (length g <= length g')%nat ->
  scoped L0 g' -> closed g -> closed g'.
Proof. intros Hk Hl Hs (HN & _ & Hc). split; [lia|]. split; [done|]. intros v k Hv. rewrite Hk by done. by apply Hc. Qed.

Lemma closed_chain g u q : closed g -> chain g u q -> (u < N0)%nat -> (q < N0)%nat.
Proof.
  intros (_ & _ & Hc). induction 1 as [|v u q E _ IH|v u z q E _ IH]; intros Hv; [done|..];
    specialize (Hc _ _ Hv E); apply Forall_cons in Hc as [? _]; auto.
Qed.

Lemma ext_below g g' : ext g g' -> closed g -> forall v, (v < N0)%nat -> kind g' v = kind g v.
Proof.
  intros Hext [HN _] v Hv. destruct (lookup_lt_is_Some_2 g v) as [[k p] Ek]; [lia|].
  assert (kind g v = Some k) as Hk by (unfold kind; by rewrite Ek). rewrite Hk. by apply Hext.
Qed.

Lemma closed_add g x p8 : closed g -> leaf x = false -> Forall (fun u => (u < length g)%nat) (prefs x) ->
  closed (g ++ [(x, p8)]).
Proof.
  intros Hc Hl Hx. eapply closed_ext; [| | |exact Hc]; [|rewrite length_app; lia|apply scoped_add; [apply Hc|done|done]].
  apply ext_below; [apply ext_add|done].
Qed.

Lemma closed_incoming s pn V inc : (N0 <= pn)%nat -> kind (gr s) pn = Some (Phi inc) -> (V < length (gr s))%nat ->
  closed (gr s) -> closed (gr (addIncoming s pn V)).
Proof.
  intros Hpn Hk HV Hc. eapply closed_ext; [| | |exact Hc].
  - intros v Hv. apply addIncoming_kind. lia.
  - by rewrite addIncoming_length.
  - eapply scoped_incoming; [done|apply Hc|done].
Qed.
End Copies.

Lemma ext_length g g' : ext g g' -> (length g <= length g')%nat.
Proof.
  intros H. destruct (length g) as [|n] eqn:E; [lia|].
  destruct (lookup_lt_is_Some_2 g n) as [[k p] Ek]; [lia|].
  assert (kind g n = Some k) as Hk by (unfold kind; by rewrite Ek).
  apply H, kind_lt in Hk. lia.
Qed.

(** ** The base of a pointer *)

Section Bases.
(** The values of the program are those below [N0]. *)
Context (N0 : nat).
Abbreviation closed := (closed N0 N0).
Abbreviation grown := (grown N0 is_base).

Definition base_inv (s : pv) (G : vid -> vid -> Prop) : Prop :=
  closed (gr s) /\ forall p b, BaseMap s !! p = Some b -> is_base (gr s) G p b /\ (b < length (gr s))%nat.

(** What a call of [getPointerBase] does to the state. *)
Definition base_post (s : pv) (G : vid -> vid -> Prop) (Ptr b : vid) (s' : pv) : Prop :=
  exists G', grown (gr s') (length (gr s)) G G' /\ ext (gr s) (gr s') /\ base_inv s' G' /\
    (is_base (gr s') G' Ptr b /\ (b < length (gr s'))%nat) /\ BoundsMap s' = BoundsMap s.

Definition base_spec (f : vid -> pv -> option (vid * pv)) : Prop :=
  forall Ptr s b s' G, (Ptr < N0)%nat -> f Ptr s = Some (b, s') -> base_inv s G -> base_post s G Ptr b s'.

Lemma set_base_inv s G Ptr b : base_inv s G -> is_base (gr s) G Ptr b /\ (b < length (gr s))%nat ->
  base_inv (set_base s Ptr b) G.
Proof.
  intros [Hc Hi] Hb. split; [done|]. intros p b'. cbn. destruct (decide (Ptr = p)) as [<-|Hne].
  - rewrite lookup_insert_eq. by intros [= <-].
  - rewrite lookup_insert_ne by done. apply Hi.
Qed.

Lemma base_inv_mono s s' (G G' : vid -> vid -> Prop) : base_inv s G -> closed (gr s') -> gsub (gr s) (gr s') ->
  (length (gr s) <= length (gr s'))%nat ->
  BaseMap s' = BaseMap s -> (forall q b, G q b -> G' q b) -> base_inv s' G'.
Proof.
  intros [_ Hi] Hc Hg Hl Hm HG. split; [done|]. intros p b. rewrite Hm. intros [Hp ?]%Hi.
  split; [by eapply is_base_mono|lia].
Qed.

Lemma base_loop_spec f : base_spec f -> forall inc s pn don donb s' G,
  base_loop f pn inc s = Some s' -> base_inv s G -> (N0 <= pn)%nat -> Forall (fun u => (u < N0)%nat) inc ->
  kind (gr s) pn = Some (Phi donb) -> Forall2 (is_base (gr s) G) don donb ->
  exists G' restb, grown (gr s') (S pn) G G' /\ base_inv s' G' /\ BoundsMap s' = BoundsMap s /\
    (forall v k, v <> pn -> kind (gr s) v = Some k -> kind (gr s') v = Some k) /\
    kind (gr s') pn = Some (Phi (donb ++ restb)) /\ Forall2 (is_base (gr s') G') (don ++ inc) (donb ++ restb).
Proof.
  intros Hf. induction inc as [|u inc IH]; intros s pn don donb s' G; cbn [base_loop].
  - intros [= <-] Hi Hpn _ Hk HF. exists G, []. rewrite !app_nil_r. repeat (split; [done || apply grown_refl|]). done.
  - destruct (f u s) as [[V s1]|] eqn:E; [|done]. intros Hl Hi Hpn Hlt Hk HF.
    apply Forall_cons in Hlt as [Hu Hlt].
    destruct (Hf _ _ _ _ _ Hu E Hi) as (G1 & Hg1 & Hext & Hi1 & [Hb1 HV] & Hm1).
    pose proof (kind_lt _ _ _ Hk) as Hpl. pose proof (Hext _ _ Hk) as Hk1.
    pose proof (addIncoming_gsub s1 pn V _ Hk1) as Hgs.
    destruct (IH (addIncoming s1 pn V) pn (don ++ [u]) (donb ++ [V]) s' G1 Hl)
      as (G2 & restb & Hg2 & Hi2 & Hm2 & Hkeep & Hk2 & HF2); try done.
    + eapply base_inv_mono; [exact Hi1|..]; try done; [|by rewrite addIncoming_length].
      by eapply closed_incoming; [..|apply Hi1].
    + by apply addIncoming_phi.
    + apply Forall2_app; [|constructor; [|done]].
      * eapply Forall2_impl; [exact HF|]. intros x y. apply is_base_mono; [|apply Hg1].
        intros v k Hv Hp. by apply Hgs; [apply Hext|].
      * by eapply is_base_mono; [exact Hgs| |exact Hb1].
    + exists G2, (V :: restb). rewrite <- !app_assoc in *. split; [|split; [done|]; split; [by rewrite Hm2|]; split; [|done]].
      * assert (forall v k, v <> pn -> kind (gr s1) v = Some k -> kind (gr s') v = Some k) as Hkeep1.
        { intros v k Hv Hvk. apply Hkeep; [done|]. by rewrite addIncoming_kind. }
        assert (gsub (gr s1) (gr s')) as Hgs1.
        { intros v k Hv Hp. destruct (decide (v = pn)) as [->|Hne]; [|by apply Hkeep1].
          rewrite Hk1 in Hv. by injection Hv as <-. }
        apply (grown_weaken _ _ _ (S pn)) in Hg1; [|lia].
        eapply grown_trans; [apply is_base_mono|..|exact Hg1|exact Hg2]; [lia|done|]. intros v k Hv. apply Hkeep1. lia.
      * intros v k Hne Hv. apply Hkeep; [done|]. rewrite addIncoming_kind by done. by apply Hext.
Qed.

Lemma base_phi f Ptr inc s s' G newPN : base_spec f -> (Ptr < N0)%nat -> base_inv s G ->
  kind (gr s) Ptr = Some (Phi inc) -> newPN = length (gr s) ->
  base_loop f newPN inc (set_base (snd (add_node s (Phi []) true)) Ptr newPN) = Some s' ->
  base_post s G Ptr newPN s'.
Proof.
  intros Hf HPtr [Hc Hi] Hk -> Hl. set (pn := length (gr s)) in *.
  set (G1 := fun q b => G q b \/ (q = Ptr /\ b = pn)).
  set (s1 := set_base (snd (add_node s (Phi []) true)) Ptr pn) in *.
  assert (ext (gr s) (gr s1)) as He by apply ext_add.
  assert (length (gr s1) = S pn) as Hl1 by (cbn; rewrite length_app; cbn; lia).
  assert (base_inv s1 G1) as Hi1.
  { apply set_base_inv.
    - eapply (base_inv_mono s); [by split|by apply closed_add|by apply ext_gsub|by apply ext_length|done|]. by left.
    - split; [|fold s1; cbn in *; lia]. exists Ptr. split; [constructor|]. left. by right. }
  destruct (base_loop_spec f Hf inc s1 pn [] [] s' G1 Hl Hi1) as (G2 & restb & Hg & Hi2 & Hm & Hkeep & Hk2 & HF).
  - apply Hc.
  - destruct Hc as (_ & _ & Hc). by apply (Hc Ptr (Phi inc)).
  - apply kind_new.
  - constructor.
  - assert (forall v k, kind (gr s) v = Some k -> kind (gr s') v = Some k) as Hkeep0.
    { intros v k Hv. apply Hkeep; [|by apply He]. apply kind_lt in Hv. unfold pn. lia. }
    exists G2. destruct Hg as [Hg1 Hg2]. split; [split|].
    + intros q b Hq. apply Hg1. by left.
    + intros q b [[Hq|[-> ->]]|(? & ? & ?)]%Hg2; [by left| |].
      * right. split; [done|]. split; [unfold pn; lia|]. left. exists inc, restb. auto.
      * right. split; [done|]. split; [unfold pn in *; lia|done].
    + split; [done|]. split; [done|]. split; [|done]. split; [|by apply kind_lt in Hk2].
      exists Ptr. split; [constructor|]. left. apply Hg1. by right.
Qed.

Lemma base_select f Ptr c t t' s s1 s2 tb fb G : base_spec f -> (Ptr < N0)%nat -> base_inv s G ->
  kind (gr s) Ptr = Some (Select c t t') -> f t s = Some (tb, s1) -> f t' s1 = Some (fb, s2) ->
  base_post s G Ptr (length (gr s2)) (set_base (snd (add_node s2 (Select c tb fb) true)) Ptr (length (gr s2))).
Proof.
  intros Hf HPtr Hi Hk E1 E2. pose proof Hi as [Hc _].
  assert ((t < N0)%nat /\ (t' < N0)%nat) as [Ht Ht'].
  { destruct Hc as (_ & _ & Hc). specialize (Hc _ _ HPtr Hk). cbn in Hc. apply Forall_cons in Hc as [? [? _]%Forall_cons]. done. }
  destruct (Hf _ _ _ _ _ Ht E1 Hi) as (G1 & Hg1 & He1 & Hi1 & [Hb1 Hl1] & Hm1).
  destruct (Hf _ _ _ _ _ Ht' E2 Hi1) as (G2 & Hg2 & He2 & Hi2 & [Hb2 Hl2] & Hm2).
  set (n := length (gr s2)) in *. set (s3 := snd (add_node s2 (Select c tb fb) true)).
  assert (ext (gr s2) (gr s3)) as He3 by apply ext_add.
  set (G3 := fun q b => G2 q b \/ (q = Ptr /\ b = n)).
  assert (grown (gr s2) (length (gr s)) G G2) as Hg.
  { eapply grown_ext; [apply is_base_mono| |exact He2|exact Hg1|exact Hg2]. by apply ext_length. }
  pose proof (ext_length _ _ He1) as L1. pose proof (ext_length _ _ He2) as L2.
  assert (is_base (gr s3) G3 Ptr n /\ (n < length (gr s3))%nat) as Hres.
  { split; [|cbn; rewrite length_app; cbn; lia]. exists Ptr. split; [constructor|]. left. by right. }
  exists G3. split; [|split; [|split; [|split; [exact Hres|cbn; by rewrite Hm2, Hm1]]]].
  - apply (grown_ext N0 is_base is_base_mono (gr s2) (gr s3) (length (gr s)) n G G2 G3); [unfold n; lia|done|done|].
    split; [by left|]. intros q b [Hq|[-> ->]]; [by left|]. right. split; [done|]. split; [cbn; lia|].
    right. exists c, t, t', tb, fb. split; [by apply He3, He2, He1|]. split; [apply kind_new|].
    split; (eapply is_base_mono; [| |eassumption]).
    + intros v k Hv _. by apply He3, He2.
    + intros q b Hq. left. by apply Hg2.
    + by apply ext_gsub.
    + by left.
  - eapply ext_trans; [exact He1|]. by eapply ext_trans.
  - apply set_base_inv; [|exact Hres].
    eapply (base_inv_mono s2); [done| |by apply ext_gsub|by apply ext_length|done|by left].
    apply closed_add; [apply Hi2|done|]. repeat constructor; unfold n in *; lia.
Qed.

(** Every result of [getPointerBase] is a base of its argument. *)
Lemma getPointerBase_spec fuel : base_spec (getPointerBase fuel).
Proof.
  induction fuel as [|fuel IH]; intros Ptr s b s' G HPtr; [done|]. cbn [getPointerBase].
  intros E Hi. destruct (BaseMap s !! Ptr) as [b0|] eqn:E0.
  { injection E as -> ->. exists G. split; [apply grown_refl|]. split; [apply ext_refl|]. split; [done|].
    split; [by apply Hi|done]. }
  pose proof (strip_chain (gr s) (length (gr s)) Ptr : chain (gr s) Ptr (strip (gr s) Ptr)) as Hst.
  assert (strip (gr s) Ptr < N0)%nat as HP by (eapply closed_chain; [apply Hi|done|done]).
  destruct (BaseMap s !! strip (gr s) Ptr) as [b1|] eqn:E1.
  { injection E as -> <-. exists G.
    assert (is_base (gr s) G Ptr b /\ (b < length (gr s))%nat) as Hb.
    { destruct Hi as [_ Hi]. destruct (Hi _ _ E1) as [(q & Hq & ?) ?]. split; [|done]. exists q. split; [by eapply chain_trans|done]. }
    split; [apply grown_refl|]. split; [apply ext_refl|]. split; [by apply set_base_inv|done]. }
  pose proof (underlying_chain (gr s) 6 (strip (gr s) Ptr) : chain (gr s) _ (underlying (gr s) _)) as Hun.
  destruct (negb _).
  { destruct (getPointerBase fuel _ s) as [[V s1]|] eqn:E2; [|done]. injection E as -> <-.
    destruct (IH _ _ _ _ G (closed_chain _ _ _ _ _ (proj1 Hi) Hun HP) E2 Hi) as (G1 & Hg & He & Hi1 & Hb & Hm).
    assert (is_base (gr s1) G1 Ptr b /\ (b < length (gr s1))%nat) as Hb'.
    { destruct Hb as [(q & Hq & ?) ?]. split; [|done]. exists q. split; [|done]. eapply chain_trans; [|exact Hq].
      eapply chain_gsub; [by apply ext_gsub|]. by eapply chain_trans. }
    exists G1. split; [done|]. split; [done|]. split; [by apply set_base_inv|done]. }
  assert (forall b, alias (gr s) Ptr b -> is_base (gr s) G Ptr b) as Hal.
  { intros b' Ha. exists Ptr. split; [constructor|by right]. }
  assert ((if is_p8 (gr s) Ptr then Some (Ptr, set_base s Ptr Ptr)
           else let '(C, s) := add_node s (Cast Ptr) true in Some (C, set_base s C C)) = Some (b, s') ->
          base_post s G Ptr b s') as Hleaf.
  { destruct (is_p8 (gr s) Ptr).
    - intros [= <- <-]. exists G. split; [apply grown_refl|]. split; [apply ext_refl|].
      assert (is_base (gr s) G Ptr Ptr /\ (Ptr < length (gr s))%nat).
      { split; [apply Hal; by left|]. destruct Hi as [[? _] _]. lia. }
      split; [by apply set_base_inv|done].
    - cbn. intros [= <- <-]. exists G. split; [apply grown_refl|]. split; [apply ext_add|].
      split; [|split; [|done]].
      + apply (set_base_inv (snd (add_node s (Cast Ptr) true))).
        * eapply (base_inv_mono s); [done| |apply ext_gsub, ext_add|apply ext_length, ext_add|done|done].
          apply closed_add; [apply Hi|done|]. constructor; [|done]. destruct Hi as [[? _] _]. lia.
        * split; [|cbn; rewrite length_app; cbn; lia]. exists (length (gr s)). split; [constructor|]. right. by left.
      + split; [|cbn; rewrite length_app; cbn; lia]. exists Ptr. split; [constructor|]. right. right. apply kind_new. }
  destruct (kind (gr s) Ptr) as [[| | | |inc|c t t'| | | | |]|] eqn:Ek; try (by apply Hleaf).
  - cbn in E. destruct (base_loop _ _ _ _) as [s1|] eqn:El; [|done]. injection E as <- <-. by eapply base_phi.
  - destruct (getPointerBase fuel t s) as [[tb s1]|] eqn:Et; [|done].
    destruct (getPointerBase fuel t' s1) as [[fb s2]|] eqn:Ef; [|done].
    cbn in E. injection E as <- <-. by eapply (base_select _ _ _ _ _ s s1 s2).
Qed.

End Bases.
(** ** The bounds of a base *)

(** Casts and GEPs without offset. *)
Inductive zchain (g : graph) : vid -> vid -> Prop :=
| zchain_refl v : zchain g v v
| zchain_cast v u q : kind g v = Some (Cast u) -> zchain g u q -> zchain g v q
| zchain_gep v u q : kind g v = Some (Gep u true) -> zchain g u q -> zchain g v q.

Lemma strip_zchain g n : forall v, zchain g v (stripPointerCasts n g v).
Proof.
  induction n as [|n IH]; intros v; cbn; [constructor|].
  destruct (kind g v) as [[| |u|u []| | | | | | |]|] eqn:E; eauto using zchain.
Qed.

Lemma zchain_gsub g g' u q : gsub g g' -> zchain g u q -> zchain g' u q.
Proof. intros Hg. induction 1; eauto using zchain. Qed.

Lemma zchain_peval g u q : zchain g u q -> forall n path o e, peval n g path u = Some (o, e) ->
  exists n', (n' <= n)%nat /\ peval n' g path q = Some (o, e).
Proof.
  induction 1 as [v|v u q E _ IH|v u q E _ IH]; intros n path o e Hp; [eauto|..];
    (destruct n as [|n]; [done|]); rewrite peval_eq, E in Hp.
  - destruct (IH n path o e) as (n' & ? & ?); [by destruct path|]. exists n'. split; [lia|done].
  - destruct (peval n g path u) as [[o' e']|] eqn:Eu; [|by destruct path].
    assert (o' = o /\ e' = e) as [-> ->] by (destruct path; injection Hp as <- <-; by rewrite andb_true_r).
    destruct (IH n path o e Eu) as (n' & ? & ?). exists n'. split; [lia|done].
Qed.

Lemma leaf_peval g n path q k o e : kind g q = Some k -> leaf k = true -> peval n g path q = Some (o, e) ->
  path = [] /\ o = q /\ e = true.
Proof.
  intros Hk Hl. destruct n; [done|]. rewrite peval_eq, Hk. destruct k, path; try done; by intros [= <- <-].
Qed.

Section Bounds.
Context (L0 N1 : nat) (rho osize : vid -> Z).

(** [b] is a bound of [u]: the copy of a phi or select, 0, or at most the size of
    the object [u] is the start of. *)
Definition leaf_bound (g : graph) (u b : vid) : Prop :=
  exists o k x, zchain g u o /\ kind g o = Some k /\ leaf k = true /\ ival g rho b = Some x /\ x <= osize o.

Definition is_bound (g : graph) (G : vid -> vid -> Prop) (u b : vid) : Prop :=
  G u b \/ kind g b = Some (Const 64 0) \/ leaf_bound g u b.

Lemma ival_gsub g g' v x : gsub g g' -> ival g rho v = Some x -> ival g' rho v = Some x.
Proof.
  intros Hg. unfold ival. destruct (kind g v) as [k|] eqn:E; [|done].
  destruct k; try done; rewrite (Hg _ _ E eq_refl); rewrite ?E; try done.
  destruct (kind g v0) as [k|] eqn:E0; [|done]. by destruct k; try done; rewrite (Hg _ _ E0 eq_refl).
Qed.

Lemma is_bound_mono g g' (G G' : vid -> vid -> Prop) u b : gsub g g' -> (forall q b, G q b -> G' q b) ->
  is_bound g G u b -> is_bound g' G' u b.
Proof.
  intros Hg HG [H|[H|(o & k & x & Hz & Hk & Hl & Hx & Hle)]]; [left; auto|right; left; by apply Hg|].
  right. right. exists o, k, x. split; [by eapply zchain_gsub|]. split; [apply Hg; [done|by destruct k]|].
  split; [done|]. split; [by eapply ival_gsub|done].
Qed.

Lemma ival_ieval g v x path : ival g rho v = Some x -> exists m, ieval m g rho path v = Some x.
Proof.
  unfold ival. intros H. exists 2%nat. cbn. destruct (kind g v) as [k|] eqn:E; [|done].
  destruct k; try done; try (by destruct path).
  destruct (kind g v0) as [k|] eqn:E0; [|done]. destruct k; try done; by destruct path.
Qed.

(** Where a bound is positive, the pointer is the start of an object of at least
    that size. *)
Lemma bound_eval g (G : vid -> vid -> Prop) :
  (forall q b, G q b -> mirrored (is_bound g G) g q b) ->
  forall n path u b o e, is_bound g G u b -> peval n g path u = Some (o, e) ->
  exists m x, ieval m g rho path b = Some x /\ (0 < x -> e = true /\ x <= osize o).
Proof.
  intros HG n. induction n as [|n IH]; intros path u b o e Hb Hp; [done|].
  destruct Hb as [Hq|[Hz|(q & k & x & Hz & Hk & Hl & Hx & Hle)]].
  - destruct (HG _ _ Hq) as [(inc & incb & Ek & Eb & HX)|(c & t & f & tb & fb & Ek & Eb & Ht & Hf)];
      rewrite peval_eq, Ek in Hp; (destruct path as [|i path]; [done|]).
    + destruct (inc !! i) as [y|] eqn:Ei; [|done].
      destruct (Forall2_lookup_l _ _ _ _ _ HX Ei) as (yb & Eib & Hy).
      destruct (IH _ _ _ _ _ Hy Hp) as (m & x & Hm & ?). exists (S m), x. cbn. by rewrite Eb, Eib.
    + destruct i as [|i].
      * destruct (IH _ _ _ _ _ Ht Hp) as (m & x & Hm & ?). exists (S m), x. cbn. by rewrite Eb.
      * destruct (IH _ _ _ _ _ Hf Hp) as (m & x & Hm & ?). exists (S m), x. cbn. by rewrite Eb.
  - exists 1%nat, 0. cbn. rewrite Hz. by destruct path.
  - destruct (zchain_peval _ _ _ Hz _ _ _ _ Hp) as (n' & _ & Hp').
    destruct (leaf_peval _ _ _ _ _ _ _ Hk Hl Hp') as (-> & -> & ->).
    destruct (ival_ieval _ _ _ [] Hx) as [m Hm]. by exists m, x.
Qed.

Abbreviation closed := (closed L0 N1).
Abbreviation grown := (grown N1 is_bound).

Definition sizes_ok (g : graph) : Prop := forall o, (o < L0)%nat -> size_ok g rho osize o.

Definition bounds_inv (s : pv) (G : vid -> vid -> Prop) : Prop :=
  closed (gr s) /\ sizes_ok (gr s) /\
  forall p b, BoundsMap s !! p = Some (Some b) -> is_bound (gr s) G p b /\ (b < length (gr s))%nat.

Definition bounds_post (s : pv) (G : vid -> vid -> Prop) (u : vid) (r : option vid) (s' : pv) : Prop :=
  exists G', grown (gr s') (length (gr s)) G G' /\ ext (gr s) (gr s') /\ bounds_inv s' G' /\
    (forall b, r = Some b -> is_bound (gr s') G' u b /\ (b < length (gr s'))%nat) /\ BaseMap s' = BaseMap s.

Definition bounds_spec (f : vid -> pv -> option (option vid * pv)) : Prop :=
  forall u s r s' G, (u < N1)%nat -> f u s = Some (r, s') -> bounds_inv s G -> bounds_post s G u r s'.

Hypothesis HL : (L0 <= N1)%nat.

(** The promises about sizes do not depend on the nodes that are added. *)
Lemma chain_below g g' u q : closed g -> (forall v, (v < N1)%nat -> kind g' v = kind g v) -> (u < N1)%nat ->
  chain g' u q -> chain g u q /\ (q < N1)%nat.
Proof.
  intros (_ & _ & Hc) Hk Hu H. revert Hu.
  induction H as [|v u q E _ IH|v u z q E _ IH]; intros Hv; [by split; [constructor|]|..];
    rewrite Hk in E by done; specialize (Hc _ _ Hv E); apply Forall_cons in Hc as [Hu _];
    destruct (IH Hu); split; eauto using chain.
Qed.

Lemma sizes_mono g g' : closed g -> gsub g g' -> (forall v, (v < N1)%nat -> kind g' v = kind g v) ->
  sizes_ok g -> sizes_ok g'.
Proof.
  intros Hcl Hg Hk Hs o Ho. specialize (Hs o Ho). unfold size_ok in *. rewrite Hk by lia.
  destruct (kind g o) as [k|] eqn:E; [|done]. destruct k as [no pt|cnt elt|?|? ?|?|? ? ?|p pt|decl lst|? ?|?|?]; try done.
  - destruct Hs as [? (x & ? & ?)]. split; [done|]. exists x. split; [by eapply ival_gsub|done].
  - intros (v & x & Hc & Hv). apply Hs. exists v, x.
    assert (p < N1)%nat as Hp.
    { destruct Hcl as (_ & _ & Hc'). specialize (Hc' o _ ltac:(lia) E). by apply Forall_cons in Hc' as [? _]. }
    destruct (chain_below _ _ _ _ Hcl Hk Hp Hc) as [? ?]. split; [done|]. by rewrite <- Hk.
  - destruct decl; [|done]. destruct lst as [V|]; [|done]. destruct Hs as (x & ? & ?).
    exists x. split; [by eapply ival_gsub|done].
Qed.

Lemma bounds_inv_mono s s' (G G' : vid -> vid -> Prop) : bounds_inv s G -> closed (gr s') -> gsub (gr s) (gr s') ->
  (forall v, (v < N1)%nat -> kind (gr s') v = kind (gr s) v) -> (length (gr s) <= length (gr s'))%nat ->
  BoundsMap s' = BoundsMap s -> (forall q b, G q b -> G' q b) -> bounds_inv s' G'.
Proof.
  intros (Hc & Hs & Hi) Hc' Hg Hb Hl Hm HG. split; [done|]. split; [by apply (sizes_mono (gr s))|].
  intros p b. rewrite Hm. intros [Hp ?]%Hi. split; [by eapply is_bound_mono|lia].
Qed.

Lemma bounds_inv_add s (G : vid -> vid -> Prop) x p8 : bounds_inv s G -> leaf x = false ->
  Forall (fun u => (u < length (gr s))%nat) (prefs x) -> bounds_inv (snd (add_node s x p8)) G.
Proof.
  intros Hi Hl Hx. eapply (bounds_inv_mono s); [done|apply closed_add; [apply Hi|done|done]|apply ext_gsub, ext_add| | |done|done].
  - eapply ext_below; [apply ext_add|apply Hi].
  - apply ext_length, ext_add.
Qed.

Lemma set_bounds_inv s (G : vid -> vid -> Prop) u r : bounds_inv s G ->
  (forall b, r = Some b -> is_bound (gr s) G u b /\ (b < length (gr s))%nat) -> bounds_inv (set_bounds s u r) G.
Proof.
  intros (Hc & Hs & Hi) Hb. split; [done|]. split; [done|]. intros p b'. cbn.
  destruct (decide (u = p)) as [<-|Hne].
  - rewrite lookup_insert_eq. intros [= ->]. by apply Hb.
  - rewrite lookup_insert_ne by done. apply Hi.
Qed.

Lemma widen_spec s G u B V o k x r s' : bounds_inv s G -> widen B V s = Some (r, s') ->
  zchain (gr s) u o -> zchain (gr s) B o -> kind (gr s) o = Some k -> leaf k = true ->
  ival (gr s) rho V = Some x -> x <= osize o ->
  bounds_post s G u r s'.
Proof.
  intros Hi E Hu HB Hk Hl Hx Hle. unfold widen in E.
  assert (exists g' V', gr s' = g' /\ r = Some V' /\ s' = set_bounds {| gr := g'; BaseMap := BaseMap s; BoundsMap := BoundsMap s |} B (Some V')
    /\ ext (gr s) g' /\ bounds_inv {| gr := g'; BaseMap := BaseMap s; BoundsMap := BoundsMap s |} G /\ ival g' rho V' = Some x /\ (V' < length g')%nat)
    as (g' & V' & Eg & -> & -> & He & Hi' & Hx' & HV').
  { destruct (_ =? 64) eqn:Ew.
    - injection E as <- <-. exists (gr s), V. destruct s as [g bm bb]. cbn in *. repeat (split; [done || apply ext_refl|]).
      unfold ival in Hx. destruct (kind g V) eqn:EV; [|done]. by eapply kind_lt.
    - assert (kind (gr s) V <> None) as HV.
      { unfold ival in Hx. by destruct (kind (gr s) V). }
      destruct (kind (gr s) V) as [kv|] eqn:EV; [|done].
      destruct kv as [| | | | | | | |w v| |w]; try (unfold ival in Hx; rewrite EV in Hx; discriminate);
        try (unfold int_width in Ew; rewrite EV in Ew; discriminate Ew);
        cbn in E; injection E as <- <-; (eexists _, _; split; [reflexivity|];
        split; [reflexivity|]; split; [reflexivity|]; split; [apply ext_add|]; split; [by apply (bounds_inv_add s)|];
        split; [|cbn; rewrite ?length_app; cbn; lia]).
      + unfold ival in *. cbn [gr set_bounds]. rewrite EV in Hx. by rewrite kind_new.
      + unfold ival in *. cbn [gr set_bounds]. rewrite EV in Hx. rewrite kind_new. by rewrite (ext_add _ _ _ _ EV). }
  assert (forall w, zchain (gr s) w o -> is_bound g' G w V' /\ (V' < length g')%nat) as Hres.
  { intros w Hw. split; [|done]. right. right. exists o, k, x.
    split; [eapply zchain_gsub; [by apply ext_gsub|done]|]. split; [by apply He|]. done. }
  exists G. split; [apply grown_refl|]. split; [exact He|]. split.
  - apply set_bounds_inv; [done|]. intros b [= <-]. by apply Hres.
  - split; [|done]. intros b [= <-]. by apply Hres.
Qed.

Lemma zchain_chain g u q : zchain g u q -> chain g u q.
Proof. induction 1; eauto using chain. Qed.

Lemma bounds_post_add s G u r s' x p8 : bounds_post (snd (add_node s x p8)) G u r s' -> bounds_post s G u r s'.
Proof.
  intros (G' & Hg & He & Hi & Hr & Hm). exists G'. split; [|split; [|done]].
  - eapply grown_weaken; [|exact Hg]. cbn. rewrite length_app. lia.
  - eapply ext_trans; [apply ext_add|exact He].
Qed.

Lemma allocation_bounds_spec u s r s' G : (u < N1)%nat -> bounds_inv s G ->
  allocation_bounds u s = Some (r, s') -> bounds_post s G u r s'.
Proof.
  intros Hu Hi. unfold allocation_bounds, computeAllocationCountValue.
  pose proof (strip_zchain (gr s) (length (gr s)) u : zchain (gr s) u (strip (gr s) u)) as Hz.
  set (o := strip (gr s) u) in *.
  assert (o < N1)%nat as Ho by (eapply closed_chain; [apply Hi|by apply zchain_chain|done]).
  assert (Some (None, set_bounds s o None) = Some (r, s') -> bounds_post s G u r s') as Hnone.
  { intros [= <- <-]. exists G. split; [apply grown_refl|]. split; [apply ext_refl|].
    split; [|done]. by apply set_bounds_inv. }
  destruct (kind (gr s) o) as [k|] eqn:Ek; [|exact Hnone].
  destruct (leaf k) eqn:El; [|by destruct k]. pose proof Hi as ((_ & Hsc & _) & Hs & _).
  pose proof (Hs o (proj2 (Hsc _ _ Ek) El)) as Hso. unfold size_ok in Hso. rewrite Ek in Hso. clear El.
  destruct k as [no pt|V size|?|? ?|?|? ? ?|p pt|decl lst|? ?|?|?]; try exact Hnone.
  - destruct Hso as [Hsz (x & Hx & Hx0 & Hle)]. destruct (Z.ltb_spec 1 size).
    + destruct (kind (gr s) V) as [kv|] eqn:EV; [|done]. destruct kv as [| | | | | | | |w v| |]; try done.
      unfold ival in Hx. rewrite EV in Hx. injection Hx as ->. cbn. intros E.
      apply (bounds_post_add _ _ _ _ _ (Const w ((x * size) `mod` 2 ^ w)) false).
      pose proof (ext_add (gr s) (Const w ((x * size) `mod` 2 ^ w), false)) as He.
      eapply (widen_spec _ G u u _ o (Alloc V size) ((x * size) `mod` 2 ^ w)); [|exact E|..].
      * by apply (bounds_inv_add s).
      * eapply zchain_gsub; [by apply ext_gsub|done].
      * eapply zchain_gsub; [by apply ext_gsub|done].
      * by apply He.
      * done.
      * unfold ival. cbn [snd add_node gr]. by rewrite kind_new.
      * destruct (Z.eq_dec (2 ^ w) 0) as [->|]; [rewrite Z.mod_0_r; lia|].
        assert (0 < 2 ^ w) by (pose proof (Z.pow_nonneg 2 w); lia). pose proof (Z.mod_le (x * size) (2 ^ w)). nia.
    + intros E. eapply (widen_spec s G u u V o (Alloc V size) x); try done. nia.
  - destruct decl; [|exact Hnone]. destruct lst as [V|]; [|exact Hnone]. destruct Hso as (x & Hx & Hle).
    intros E. eapply (widen_spec s G u o V o (Call true (Some V)) x); try done. constructor.
Qed.

Lemma bounds_loop_spec f : bounds_spec f -> forall inc s pn don donb good good' s' G,
  bounds_loop f pn inc good s = Some (good', s') -> bounds_inv s G -> (N1 <= pn)%nat ->
  Forall (fun u => (u < N1)%nat) inc ->
  kind (gr s) pn = Some (Phi donb) -> Forall2 (is_bound (gr s) G) don donb ->
  exists G' restb, grown (gr s') (S pn) G G' /\ bounds_inv s' G' /\ BaseMap s' = BaseMap s /\
    (forall v k, v <> pn -> kind (gr s) v = Some k -> kind (gr s') v = Some k) /\
    kind (gr s') pn = Some (Phi (donb ++ restb)) /\ Forall2 (is_bound (gr s') G') (don ++ inc) (donb ++ restb).
Proof.
  intros Hf. induction inc as [|u inc IH]; intros s pn don donb good good' s' G; cbn [bounds_loop].
  - intros [= <- <-] Hi Hpn _ Hk HF. exists G, []. rewrite !app_nil_r. repeat (split; [done || apply grown_refl|]). done.
  - destruct (f u s) as [[r s1]|] eqn:E; [|done]. intros Hl Hi Hpn Hlt Hk HF.
    apply Forall_cons in Hlt as [Hu Hlt].
    destruct (Hf _ _ _ _ _ Hu E Hi) as (G1 & Hg1 & Hext & Hi1 & Hr1 & Hm1).
    assert (exists V s2 good2, bounds_loop f pn inc good2 (addIncoming s2 pn V) = Some (good', s') /\
      ext (gr s1) (gr s2) /\ bounds_inv s2 G1 /\ BaseMap s2 = BaseMap s1 /\
      is_bound (gr s2) G1 u V /\ (V < length (gr s2))%nat) as (V & s2 & good2 & Hl' & He2 & Hi2 & Hm2 & Hb & HV).
    { destruct r as [B|].
      - exists B, s1, good. destruct (Hr1 B eq_refl). by repeat (split; [done || apply ext_refl|]).
      - cbn in Hl. eexists _, (snd (add_node s1 (Const 64 0) false)), false.
        split; [exact Hl|]. split; [apply ext_add|]. split; [by apply bounds_inv_add|]. split; [done|].
        split; [|cbn; rewrite length_app; cbn; lia]. right. left. apply kind_new. }
    clear Hl. pose proof (kind_lt _ _ _ Hk) as Hpl. pose proof (He2 _ _ (Hext _ _ Hk)) as Hk1.
    pose proof (addIncoming_gsub s2 pn V _ Hk1) as Hgs. pose proof (ext_trans _ _ _ Hext He2) as He02.
    assert (grown (gr s2) (S pn) G G1) as Hg12.
    { eapply grown_ext; [apply is_bound_mono|apply Nat.le_refl|exact He2| |apply grown_refl].
      eapply grown_weaken; [|exact Hg1]. lia. }
    destruct (IH (addIncoming s2 pn V) pn (don ++ [u]) (donb ++ [V]) good2 good' s' G1 Hl')
      as (G2 & restb & Hg2 & Hi3 & Hm3 & Hkeep & Hk2 & HF2); try done.
    + eapply bounds_inv_mono; [exact Hi2|..]; try done.
      * eapply closed_incoming; [done|done|done|apply Hi2].
      * intros v Hv. apply addIncoming_kind. lia.
      * by rewrite addIncoming_length.
    + by apply addIncoming_phi.
    + apply Forall2_app; [|constructor; [|done]].
      * eapply Forall2_impl; [exact HF|]. intros x y. apply is_bound_mono; [|apply Hg1].
        intros v k Hv Hp. by apply Hgs; [apply He02|].
      * by eapply is_bound_mono; [exact Hgs| |exact Hb].
    + exists G2, (V :: restb). rewrite <- !app_assoc in *.
      split; [|split; [done|]; split; [by rewrite Hm3; cbn; rewrite Hm2|]; split; [|done]].
      * assert (forall v k, v <> pn -> kind (gr s2) v = Some k -> kind (gr s') v = Some k) as Hkeep1.
        { intros v k Hv Hvk. apply Hkeep; [done|]. by rewrite addIncoming_kind. }
        assert (gsub (gr s2) (gr s')) as Hgs1.
        { intros v k Hv Hp. destruct (decide (v = pn)) as [->|Hne]; [|by apply Hkeep1].
          rewrite Hk1 in Hv. by injection Hv as <-. }
        eapply grown_trans; [apply is_bound_mono|..|exact Hg12|exact Hg2]; [lia|done|].
        intros v k Hv. apply Hkeep1. lia.
      * intros v k Hne Hv. apply Hkeep; [done|]. rewrite addIncoming_kind by done. by apply He02.
Qed.

Lemma bounds_phi f u inc s s' G pn good : bounds_spec f -> (u < N1)%nat -> bounds_inv s G ->
  kind (gr s) u = Some (Phi inc) -> pn = length (gr s) ->
  bounds_loop f pn inc true (set_bounds (snd (add_node s (Phi []) false)) u (Some pn)) = Some (good, s') ->
  let r := if good : bool then Some pn else None in bounds_post s G u r (set_bounds s' u r).
Proof.
  intros Hf Hu Hi Hk -> Hl. set (pn := length (gr s)) in *. pose proof Hi as (Hc & _ & _).
  set (G1 := fun q b => G q b \/ (q = u /\ b = pn)).
  set (s1 := set_bounds (snd (add_node s (Phi []) false)) u (Some pn)) in *.
  assert (ext (gr s) (gr s1)) as He by apply ext_add.
  assert (length (gr s1) = S pn) as Hl1 by (cbn; rewrite length_app; cbn; lia).
  assert (bounds_inv s1 G1) as Hi1.
  { apply set_bounds_inv.
    - eapply (bounds_inv_mono s); [done|by apply closed_add|by apply ext_gsub|by eapply ext_below|by apply ext_length|done|]. by left.
    - intros b [= <-]. split; [|fold s1; cbn in *; lia]. left. by right. }
  destruct (bounds_loop_spec f Hf inc s1 pn [] [] true good s' G1 Hl Hi1) as (G2 & restb & Hg & Hi2 & Hm & Hkeep & Hk2 & HF).
  - apply Hc.
  - destruct Hc as (_ & _ & Hc). by apply (Hc u (Phi inc)).
  - apply kind_new.
  - constructor.
  - assert (forall v k, kind (gr s) v = Some k -> kind (gr s') v = Some k) as Hkeep0.
    { intros v k Hv. apply Hkeep; [|by apply He]. apply kind_lt in Hv. unfold pn. lia. }
    destruct Hg as [Hg1 Hg2].
    assert (forall b, (if good then Some pn else None) = Some b -> is_bound (gr s') G2 u b /\ (b < length (gr s'))%nat) as Hr.
    { intros b. destruct good; [|done]. intros [= <-]. split; [|by apply kind_lt in Hk2]. left. apply Hg1. by right. }
    exists G2. split; [split|].
    + intros q b Hq. apply Hg1. by left.
    + intros q b [[Hq|[-> ->]]|(? & ? & ?)]%Hg2; [by left| |].
      * right. split; [done|]. split; [unfold pn; lia|]. left. exists inc, restb. auto.
      * right. split; [done|]. split; [unfold pn in *; lia|done].
    + split; [done|]. split; [by apply set_bounds_inv|]. by split.
Qed.

Lemma bounds_post_trans s G u v r r' s1 s' : bounds_post s G v r s1 ->
  (forall G1, bounds_inv s1 G1 -> bounds_post s1 G1 u r' s') -> bounds_post s G u r' s'.
Proof.
  intros (G1 & Hg1 & He1 & Hi1 & _ & Hm1) H. destruct (H G1 Hi1) as (G2 & Hg2 & He2 & Hi2 & Hr & Hm2).
  exists G2. split; [|split; [by eapply ext_trans|split; [done|split; [done|congruence]]]].
  eapply grown_ext; [apply is_bound_mono| |exact He2|exact Hg1|exact Hg2]. by apply ext_length.
Qed.

Lemma bounds_select f u c t t' s s1 s2 tb fb G : bounds_spec f -> (u < N1)%nat -> bounds_inv s G ->
  kind (gr s) u = Some (Select c t t') -> f t s = Some (Some tb, s1) -> f t' s1 = Some (Some fb, s2) ->
  bounds_post s G u (Some (length (gr s2)))
    (set_bounds (snd (add_node s2 (Select c tb fb) false)) u (Some (length (gr s2)))).
Proof.
  intros Hf Hu Hi Hk E1 E2. pose proof Hi as [Hc _].
  assert ((t < N1)%nat /\ (t' < N1)%nat) as [Ht Ht'].
  { destruct Hc as (_ & _ & Hc). specialize (Hc _ _ Hu Hk). cbn in Hc. apply Forall_cons in Hc as [? [? _]%Forall_cons]. done. }
  destruct (Hf _ _ _ _ _ Ht E1 Hi) as (G1 & Hg1 & He1 & Hi1 & Hb1 & Hm1).
  destruct (Hf _ _ _ _ _ Ht' E2 Hi1) as (G2 & Hg2 & He2 & Hi2 & Hb2 & Hm2).
  destruct (Hb1 _ eq_refl) as [Hb1' Hl1]. destruct (Hb2 _ eq_refl) as [Hb2' Hl2]. clear Hb1 Hb2.
  set (n := length (gr s2)) in *. set (s3 := snd (add_node s2 (Select c tb fb) false)).
  assert (ext (gr s2) (gr s3)) as He3 by apply ext_add.
  set (G3 := fun q b => G2 q b \/ (q = u /\ b = n)).
  assert (grown (gr s2) (length (gr s)) G G2) as Hg.
  { eapply grown_ext; [apply is_bound_mono| |exact He2|exact Hg1|exact Hg2]. by apply ext_length. }
  pose proof (ext_length _ _ He1) as L1. pose proof (ext_length _ _ He2) as L2.
  assert (is_bound (gr s3) G3 u n /\ (n < length (gr s3))%nat) as Hres.
  { split; [|cbn; rewrite length_app; cbn; lia]. left. by right. }
  exists G3. split; [|split; [|split; [|split; [by intros b [= <-]|cbn; by rewrite Hm2, Hm1]]]].
  - apply (grown_ext N1 is_bound is_bound_mono (gr s2) (gr s3) (length (gr s)) n G G2 G3); [unfold n; lia|done|done|].
    split; [by left|]. intros q b [Hq|[-> ->]]; [by left|]. right. split; [done|]. split; [cbn; lia|].
    right. exists c, t, t', tb, fb. split; [by apply He3, He2, He1|]. split; [apply kind_new|].
    split; (eapply is_bound_mono; [| |eassumption]).
    + intros v k Hv _. by apply He3, He2.
    + intros q b Hq. left. by apply Hg2.
    + by apply ext_gsub.
    + by left.
  - eapply ext_trans; [exact He1|]. by eapply ext_trans.
  - apply set_bounds_inv; [|by intros b [= <-]].
    eapply (bounds_inv_mono s2); [done| |by apply ext_gsub|eapply ext_below; [done|apply Hi2]|by apply ext_length|done|by left].
    apply closed_add; [apply Hi2|done|]. repeat constructor; unfold n in *; lia.
Qed.

(** Every result of [getPointerBounds] is a bound of its argument. *)
Lemma getPointerBounds_spec fuel : bounds_spec (getPointerBounds fuel).
Proof.
  induction fuel as [|fuel IH]; intros u s r s' G Hu; [done|]. cbn [getPointerBounds].
  intros E Hi. destruct (BoundsMap s !! u) as [r0|] eqn:E0.
  { injection E as -> ->. exists G. split; [apply grown_refl|]. split; [apply ext_refl|]. split; [done|].
    split; [|done]. intros b ->. by apply Hi. }
  assert (forall k, kind (gr s) u = Some k -> leaf k = true -> size_ok (gr s) rho osize u) as Hsz.
  { intros k Hk Hl. destruct Hi as ((_ & Hsc & _) & Hs & _). apply Hs. by apply (Hsc _ _ Hk). }
  assert (forall pointee k, kind (gr s) u = Some k -> leaf k = true -> pointee <= osize u ->
    (let '(C, s) := add_node s (Const 64 pointee) false in Some (Some C, s)) = Some (r, s') ->
    bounds_post s G u r s') as Hconst.
  { intros pointee k Hk Hl Hle. cbn. intros [= <- <-].
    exists G. split; [apply grown_refl|]. split; [apply ext_add|].
    split; [by apply (bounds_inv_add s)|]. split; [|done]. intros b [= <-].
    split; [|cbn; rewrite length_app; cbn; lia]. right. right. exists u, k, pointee. split; [constructor|].
    split; [by apply ext_add|]. split; [done|]. split; [|done]. unfold ival. cbn [gr]. by rewrite kind_new. }
  destruct (kind (gr s) u) as [k|] eqn:Ek; [|by eapply allocation_bounds_spec].
  destruct k as [no pt|V size|?|? ?|inc|c t t'|p pt|decl lst|? ?|?|?]; try (by eapply allocation_bounds_spec).
  - specialize (Hsz _ eq_refl eq_refl). unfold size_ok in Hsz. rewrite Ek in Hsz.
    destruct no; [|by eapply allocation_bounds_spec]. by eapply Hconst.
  - cbn in E. destruct (bounds_loop _ _ _ _ _) as [[good s1]|] eqn:El; [|done]. injection E as <- <-.
    by eapply bounds_phi.
  - destruct (getPointerBounds fuel t s) as [[tb s1]|] eqn:Et; [|done].
    destruct (getPointerBounds fuel t' s1) as [[fb s2]|] eqn:Ef; [|done].
    assert (bounds_post s G u r s' \/ (tb <> None /\ fb <> None)) as [|[Htb Hfb]]; [|done|].
    { destruct tb as [tb|], fb as [fb|]; [by right|left..].
      all: assert ((t < N1)%nat /\ (t' < N1)%nat) as [Ht Ht'] by (destruct Hi as [(_ & _ & Hc) _];
        specialize (Hc _ _ Hu Ek); cbn in Hc; apply Forall_cons in Hc as [? [? _]%Forall_cons]; done).
      all: eapply (bounds_post_trans s G u t); [by eapply IH|]; intros G1 Hi1.
      all: eapply (bounds_post_trans s1 G1 u t'); [by eapply IH|]; intros G2 Hi2.
      all: by eapply allocation_bounds_spec. }
    destruct tb as [tb|]; [|done]. destruct fb as [fb|]; [|done].
    cbn in E. injection E as <- <-. by eapply (bounds_select _ _ _ _ _ s s1 s2).
  - destruct (kind (gr s) (underlying (gr s) (strip (gr s) p))) as [k|] eqn:Ep; [|by eapply allocation_bounds_spec].
    destruct k as [[|no] x|?|?|?|?|?|?|?|?|?|?]; try (by eapply allocation_bounds_spec).
    specialize (Hsz _ eq_refl eq_refl). unfold size_ok in Hsz. rewrite Ek in Hsz.
    eapply Hconst; [done|done| |exact E]. apply Hsz. exists (underlying (gr s) (strip (gr s) p)), x. split; [|done].
    eapply chain_trans; [apply strip_chain|apply underlying_chain].
Qed.

End Bounds.
End RtFacts.
