(* ===== verification/RtVerify.v ===== *)
(** Checking the memory accesses of a compiled function (ClamBCRTChecks.cpp):
    [validateAccess], the null pointer checks and [runOnFunction]. *)
From stdpp Require Import base numbers list gmap.
From Stdlib Require Import ZArith Lia Bool.
From S2P Require Import Prelude RtChecks.
Import RtFacts.
Local Open Scope Z_scope.

(** * Scalar evolution *)

(** What the pass uses of LLVM's scalar evolution: symbolic 64-bit values, which
    are unique, so that equal expressions are equal pointers. *)
Class ScalarEvolution (scev : Type) := {
  scev_eq_dec :: EqDecision scev;
  getSCEV : vid -> scev;
  getConstant : Z -> scev;
  getMinusSCEV : scev -> scev -> scev;
  getAddExpr : scev -> scev -> scev;
  getUMaxExpr : scev -> scev -> scev;
  getNoopOrZeroExtend : scev -> scev;
  isCouldNotCompute : scev -> bool;
  isZero : scev -> bool }.

(** Its documented meaning: the value of an expression when the values of the
    function are [val].  An operation on an expression that could not be computed
    cannot be computed. *)
Class ScalarEvolutionLaws (scev : Type) `{ScalarEvolution scev} := {
  sval : (vid -> Z) -> scev -> Z;
  sval_getSCEV val v : sval val (getSCEV v) = uint 64 (val v);
  sval_getConstant val z : sval val (getConstant z) = uint 64 z;
  sval_minus val a b : isCouldNotCompute (getMinusSCEV a b) = false ->
    sval val (getMinusSCEV a b) = uint 64 (sval val a - sval val b);
  sval_add val a b : isCouldNotCompute (getAddExpr a b) = false ->
    sval val (getAddExpr a b) = uint 64 (sval val a + sval val b);
  sval_umax val a b : isCouldNotCompute (getUMaxExpr a b) = false ->
    sval val (getUMaxExpr a b) = Z.max (sval val a) (sval val b);
  sval_zext val a : sval val (getNoopOrZeroExtend a) = sval val a;
  sval_zero val a : isZero a = true -> sval val a = 0;
  computed_getSCEV v : isCouldNotCompute (getSCEV v) = false;
  computed_getConstant z : isCouldNotCompute (getConstant z) = false;
  computed_zext a : isCouldNotCompute (getNoopOrZeroExtend a) = isCouldNotCompute a;
  computed_zero a : isZero a = true -> isCouldNotCompute a = false;
  computed_add a b : isCouldNotCompute a || isCouldNotCompute b = isCouldNotCompute (getAddExpr a b);
  computed_umax a b : isCouldNotCompute a || isCouldNotCompute b = isCouldNotCompute (getUMaxExpr a b) }.

(** * The pass *)
Module RtPass.

Abbreviation bb := nat.

Inductive binary := And | Or | OtherBinary.

(** The uses of a condition or of a returned pointer. *)
Inductive user :=
| UBranch (conditional : bool) (succ0 succ1 : bb)
| UBinary (op : binary) (v : vid)
| UIcmp (eq : bool) (op0 : vid) (op1_null : bool) (v : vid)   (* predicate EQ or not; its result *)
| UOther.

Section Pass.
Context {scev : Type} `{ScalarEvolution scev}.

(** The function as the pass sees it: uses, dominators and blocks, from LLVM. *)
Context (uses : vid -> list user) (dominates : bb -> bb -> bool) (block_of : vid -> bb).

(** [checkCond]: the condition [ICI], or one built from it, decides a branch whose
    successor number [equal] dominates the access. *)
Fixpoint checkCond (fuel : nat) (ICI : vid) (Ibb : bb) (equal : bool) : option bool :=
  match fuel with
  | O => None
  | S fuel' =>
      let fix loop (l : list user) : option bool :=
        match l with
        | [] => Some false
        | UBranch conditional s0 s1 :: l' =>
            if conditional && dominates (if equal then s1 else s0) Ibb then Some true else loop l'
        | UBinary Or v :: l' =>
            match checkCond fuel' v Ibb equal with
            | Some false => loop l'
            | r => r
            end
        | UBinary And v :: l' =>
            match checkCond fuel' v Ibb (negb equal) with
            | Some false => loop l'
            | r => r
            end
        | _ :: l' => loop l'
        end in
      loop (uses ICI)
  end.

(** [checkCondition]: some comparison of [CI] with null is checked. *)
Definition checkCondition (fuel : nat) (g : graph) (CI : vid) (Ibb : bb) : option bool :=
  let fix loop (l : list user) : option bool :=
    match l with
    | [] => Some false
    | UIcmp eq op0 op1_null v :: l' =>
        if (strip g op0 =? CI)%nat && op1_null then
          match checkCond fuel v Ibb eq with
          | Some false => loop l'
          | r => r
          end
        else loop l'
    | _ :: l' => loop l'
    end in
  loop (uses CI).

(** A comparison put in front of an access: [idx < limit] or [idx <= limit], both
    unsigned; the program is aborted if it fails. *)
Record check := { idx : scev; limit : scev; strict : bool }.

(** [insertCheck]: false, or the comparison that is inserted. *)
Definition insertCheck (Idx Limit : scev) (str : bool) : bool * list check :=
  if isCouldNotCompute Idx && isCouldNotCompute Limit then (false, [])
  else if isCouldNotCompute Idx then (false, [])
  else if isCouldNotCompute Limit then (false, [])
  else (true, [{| idx := Idx; limit := Limit; strict := str |}]).

(** The length of an access: a value or a constant. *)
Inductive length_arg := LenVal (v : vid) | LenConst (n : Z).
Definition getLength (l : length_arg) : scev :=
  match l with LenVal v => getSCEV v | LenConst n => getConstant n end.

(** The comparisons of [validateAccess], once the base and the bounds are known. *)
Definition validateBounds (Pointer Base Bounds : vid) (Length : length_arg) : bool * list check :=
  let SLen := getNoopOrZeroExtend (getLength Length) in
  let OffsetP := getNoopOrZeroExtend (getMinusSCEV (getSCEV Pointer) (getSCEV Base)) in
  let Limit := getNoopOrZeroExtend (getSCEV Bounds) in
  if decide (OffsetP = Limit) then (false, []) else
  if decide (SLen = Limit) then (isZero OffsetP, []) else
  let SLen := getAddExpr OffsetP SLen in
  let '(valid, c1) := if decide (getUMaxExpr SLen Limit = Limit) then (true, []) else insertCheck SLen Limit false in
  if decide (getUMaxExpr OffsetP Limit = Limit) then (valid, c1) else
  let '(valid2, c2) := insertCheck OffsetP Limit true in
  (valid && valid2, c1 ++ c2).

(** [validateAccess(Pointer, Length, I)], with [Ibb] the block of [I]: also the base
    and the bounds it compares with, once it has them. *)
Definition validateAccess (fuel : nat) (Pointer : vid) (Length : length_arg) (Ibb : bb) (s : pv)
    : option (bool * list check * option (vid * vid) * pv) :=
  let* (Base, s) := getPointerBase fuel Pointer s in
  let SBase := strip (gr s) Base in
  let* (Bounds, s) := getPointerBounds fuel SBase s in
  match Bounds with
  | None => Some (false, [], None, s)
  | Some Bounds =>
      let* guarded :=
        (match kind (gr s) SBase with
         | Some (Call _ _) =>
             if (Ibb =? block_of SBase)%nat then Some false else checkCondition fuel (gr s) SBase Ibb
         | _ => Some true
         end) in
      if negb guarded then Some (false, [], None, s)
      else let '(valid, checks) := validateBounds Pointer Base Bounds Length in Some (valid, checks, Some (Base, Bounds), s)
  end.

(** ** Functions *)

(** The instructions the pass looks at. *)
Inductive rinst :=
| RLoad (p : vid) (size : Z)
| RStore (p : vid) (size : Z)
| RMemset (dst len : vid)
| RMemTransfer (dst src len : vid)
| RMemcmp (p q len : vid)
| RCallExternal (params : list (bool * vid))   (* pointer or integer, without the context *)
| RCallDefined
| RCallUnknown
| ROther.

(** An access of an instruction. *)
Definition access : Type := vid * length_arg.

(** The accesses of a call of an external function: every pointer must be
    followed by an integer, its size.  The flag: no parameter was refused. *)
Fixpoint call_accesses (params : list (bool * vid)) : bool * list access :=
  match params with
  | [] => (true, [])
  | (false, _) :: rest => call_accesses rest
  | (true, p) :: rest =>
      match rest with
      | (false, n) :: _ => let '(ok, l) := call_accesses rest in (ok, (p, LenVal n) :: l)
      | _ => (false, [])
      end
  end.

Definition accesses (i : rinst) : bool * list access :=
  match i with
  | RLoad p size | RStore p size => (true, [(p, LenConst size)])
  | RMemset dst len => (true, [(dst, LenVal len)])
  | RMemTransfer dst src len => (true, [(dst, LenVal len); (src, LenVal len)])
  | RMemcmp p q len => (true, [(p, LenVal len); (q, LenVal len)])
  | RCallExternal params => call_accesses params
  | _ => (true, [])
  end.

(** The list of instructions to check; memory intrinsics are calls of external
    functions too and are listed twice.  The flag: every call target is known. *)
Definition collect (f : list (rinst * bb)) : bool * list (rinst * bb) :=
  (forallb (fun i => match fst i with RCallUnknown => false | _ => true end) f,
   concat (map (fun i => match fst i with
                         | RLoad _ _ | RStore _ _ | RMemcmp _ _ _ | RCallExternal _ => [i]
                         | RMemset _ _ | RMemTransfer _ _ _ => [i; i]
                         | _ => []
                         end) f)).

(** An access with the comparisons that guard it, and the base and the bounds they
    use. *)
Record guarded := {
  g_pointer : vid; g_length : length_arg; g_checks : list check; g_found : option (vid * vid)
}.

(** [valid &= validateAccess(...)] for the accesses of an instruction in turn. *)
Fixpoint validate_all (fuel : nat) (l : list access) (Ibb : bb) (s : pv) : option (bool * list guarded * pv) :=
  match l with
  | [] => Some (true, [], s)
  | (p, n) :: l' =>
      let* (v, checks, found, s) := validateAccess fuel p n Ibb s in
      let* (v', rest, s) := validate_all fuel l' Ibb s in
      Some (v && v', {| g_pointer := p; g_length := n; g_checks := checks; g_found := found |} :: rest, s)
  end.

(** The worklist, taken from its end. *)
Fixpoint check_insts (fuel : nat) (l : list (rinst * bb)) (s : pv) : option (bool * list guarded * pv) :=
  match l with
  | [] => Some (true, [], s)
  | (i, Ibb) :: l' =>
      let '(ok, acc) := accesses i in
      let* (v, gs, s) := validate_all fuel acc Ibb s in
      let* (v', rest, s) := check_insts fuel l' s in
      Some (ok && v && v', gs ++ rest, s)
  end.

(** What becomes of the function: kept with the checks, or replaced by a call of
    abort. *)
Inductive verdict := Kept (checked : list guarded) | Aborts.

(** [runOnFunction]; [bad]: the function is part of a recursion. *)
Definition runOnFunction (fuel : nat) (bad : bool) (g : graph) (f : list (rinst * bb)) : option verdict :=
  let '(known, insns) := collect f in
  let* (valid, gs, _) := check_insts fuel (rev insns) {| gr := g; BaseMap := ∅; BoundsMap := ∅ |} in
  Some (if known && valid && negb bad then Kept gs else Aborts).

End Pass.
End RtPass.

(** * Soundness *)
Module RtSafety.
Import RtPass.

Section State.
Context (L0 : nat) (rho osize : vid -> Z).

(** The invariant of the pass between two accesses: every recorded base and bound
    is one, and all copies are complete. *)
Definition pv_ok (s : pv) : Prop := exists G GB,
  (base_inv L0 s G /\ forall q b, G q b -> mirrored (is_base (gr s) G) (gr s) q b) /\
  (sizes_ok L0 rho osize (gr s) /\
   (forall p b, BoundsMap s !! p = Some (Some b) -> is_bound rho osize (gr s) GB p b /\ (b < length (gr s))%nat) /\
   forall q b, GB q b -> mirrored (is_bound rho osize (gr s) GB) (gr s) q b).

Lemma closed_here s G : base_inv L0 s G -> closed L0 (length (gr s)) (gr s).
Proof.
  intros [(_ & Hs & _) _]. split; [lia|]. split; [done|]. intros v k _ Hk. by apply (Hs _ _ Hk).
Qed.

Lemma all_mirrored X N g0 g lo (G G' : vid -> vid -> Prop) :
  (forall g g' (G G' : vid -> vid -> Prop) u b, gsub g g' -> (forall q b, G q b -> G' q b) -> X g G u b -> X g' G' u b) ->
  ext g0 g -> grown N X g lo G G' -> (forall q b, G q b -> mirrored (X g0 G) g0 q b) ->
  forall q b, G' q b -> mirrored (X g G') g q b.
Proof.
  intros HX He [H1 H2] HG q b [Hq|(_ & _ & Hq)]%H2; [|done].
  eapply mirrored_mono; [| |by apply HG].
  - intros u v. apply HX; [by apply ext_gsub|done].
  - intros v _ k. apply He.
Qed.

Lemma pv_ok_base fuel Ptr s b s' : pv_ok s -> (Ptr < L0)%nat -> getPointerBase fuel Ptr s = Some (b, s') ->
  pv_ok s' /\ (b < length (gr s'))%nat /\ ext (gr s) (gr s') /\
  exists G, (forall q b, G q b -> mirrored (is_base (gr s') G) (gr s') q b) /\ is_base (gr s') G Ptr b.
Proof.
  intros (G & GB & [Hi HG] & Hs & HB & HGB) HP E.
  destruct (getPointerBase_spec L0 fuel _ _ _ _ G HP E Hi) as (G' & Hg & He & Hi' & [Hb Hl] & Hm).
  pose proof (all_mirrored _ _ _ _ _ _ _ is_base_mono He Hg HG) as HG'.
  split; [|split; [done|]; split; [done|]; by exists G'].
  exists G', GB. split; [done|]. split; [|split].
  - eapply (sizes_mono L0 L0); [done|apply Hi|by apply ext_gsub|by eapply ext_below; [|apply Hi]|done].
  - intros p b0. rewrite Hm. intros [Hp Hl0]%HB. split; [eapply is_bound_mono; [by apply ext_gsub|done|done]|].
    pose proof (ext_length _ _ He). lia.
  - intros q b0 Hq. eapply mirrored_mono; [| |by apply HGB].
    + intros u v. apply is_bound_mono; [by apply ext_gsub|done].
    + intros v _ k. apply He.
Qed.

Lemma pv_ok_bounds fuel u s r s' : pv_ok s -> (u < length (gr s))%nat ->
  getPointerBounds fuel u s = Some (r, s') ->
  pv_ok s' /\ ext (gr s) (gr s') /\ forall b, r = Some b ->
  exists G, (forall q b, G q b -> mirrored (is_bound rho osize (gr s') G) (gr s') q b) /\
    is_bound rho osize (gr s') G u b.
Proof.
  intros (G & GB & [Hi HG] & Hs & HB & HGB) Hu E. pose proof (closed_here _ _ Hi) as Hc.
  assert (L0 <= length (gr s))%nat as HL by apply Hi.
  destruct (getPointerBounds_spec L0 (length (gr s)) rho osize HL fuel u s r s' GB Hu E) as (GB' & Hg & He & Hi' & Hr & Hm).
  { by split. }
  pose proof (all_mirrored _ _ _ _ _ _ _ (is_bound_mono rho osize) He Hg HGB) as HGB'.
  split; [|split; [done|]; intros b ->; exists GB'; split; [done|by apply Hr]].
  exists G, GB'. split; [split|split; [apply Hi'|split; [apply Hi'|done]]].
  - eapply (base_inv_mono _ s); [done| |by apply ext_gsub|by apply ext_length|done|done].
    eapply closed_ext; [by eapply ext_below; [|apply Hi]|by apply ext_length| |apply Hi]. apply Hi'.
  - intros q b0 Hq. eapply mirrored_mono; [| |by apply HG].
    + intros x v. apply is_base_mono; [by apply ext_gsub|done].
    + intros v _ k. apply He.
Qed.

(** The state at the start, for a program whose values refer to one another. *)
Lemma pv_ok_start g : closed L0 L0 g -> sizes_ok L0 rho osize g ->
  pv_ok {| gr := g; BaseMap := ∅; BoundsMap := ∅ |}.
Proof.
  intros Hc Hs. exists (fun _ _ => False), (fun _ _ => False). split; [split; [split; [done|]|done]|].
  - intros p b. cbn [BaseMap BoundsMap]. by rewrite lookup_empty.
  - split; [done|]. split; [|done]. intros p b. cbn [BaseMap BoundsMap]. by rewrite lookup_empty.
Qed.

Lemma peval_ext g g' n : ext g g' -> forall path v r, peval n g path v = Some r -> peval n g' path v = Some r.
Proof.
  intros He. induction n as [|n IH]; intros path v r; [done|]. rewrite !peval_eq.
  destruct (kind g v) as [k|] eqn:E; [|done]. rewrite (He _ _ E). destruct k; try done.
  - apply IH.
  - destruct (peval n g path v0) as [[o e]|] eqn:Eu; [|done]. by rewrite (IH _ _ _ Eu).
  - destruct path as [|i path]; [done|]. destruct (inc !! i); [|done]. apply IH.
  - destruct path as [|i path]; [done|]. apply IH.
Qed.

End State.

Section Access.
Context {scev : Type} `{ScalarEvolutionLaws scev}.
Context (uses : vid -> list user) (dominates : bb -> bb -> bool) (block_of : vid -> bb).
Context (L0 : nat) (rho osize : vid -> Z).

(** A moment of an execution of the function with the added instructions, at which
    an access is made through a pointer that was derived along [path], with the base
    and the bounds [found] for it: the values of the function, as unsigned 64-bit
    numbers.  The phis and selects that were added for the base and the bounds stand
    beside those of the pointer and take the same choices, so the base is where the
    object starts and the bounds are what the choices of [path] make of them.
    Nothing is asked of the other values: the phis and selects of other pointers
    choose as they like. *)
Record moment (g : graph) (path : list nat) (found : option (vid * vid)) (val start : vid -> Z) : Prop := {
  m_range : forall v, 0 <= val v < 2 ^ 64;
  m_base : forall b bd n o, found = Some (b, bd) -> peval n g path b = Some (o, true) -> val b = start o;
  m_bounds : forall b bd n x, found = Some (b, bd) -> ieval n g rho path bd = Some x -> val bd = x }.

(** A comparison that lets the program go on. *)
Definition passes (val : vid -> Z) (c : check) : Prop :=
  if strict c then sval val (idx c) < sval val (limit c) else sval val (idx c) <= sval val (limit c).

Lemma insertCheck_spec val (Idx Limit : scev) str checks : insertCheck Idx Limit str = (true, checks) ->
  Forall (passes val) checks -> isCouldNotCompute Idx = false /\ isCouldNotCompute Limit = false /\
  if str then sval val Idx < sval val Limit else sval val Idx <= sval val Limit.
Proof.
  unfold insertCheck. destruct (isCouldNotCompute Idx), (isCouldNotCompute Limit); try done.
  intros [= <-] [Hc _]%Forall_cons. unfold passes in Hc. cbn in Hc. by destruct str.
Qed.

Lemma umax_is_limit val (a b : scev) : isCouldNotCompute b = false -> getUMaxExpr a b = b ->
  isCouldNotCompute a = false /\ sval val a <= sval val b.
Proof.
  intros Hb E. pose proof (computed_umax a b) as Hc. rewrite E, Hb, orb_false_r in Hc.
  split; [done|]. pose proof (sval_umax val a b) as Hm. rewrite E in Hm. specialize (Hm Hb). lia.
Qed.

(** The comparisons bound the offset and the end of the access. *)
Lemma validateBounds_sound val P B Bd L checks :
  (forall v, 0 <= val v < 2 ^ 64) ->
  validateBounds P B Bd L = (true, checks) -> Forall (passes val) checks ->
  val Bd + sval val (getLength L) < 2 ^ 64 -> 0 <= sval val (getLength L) ->
  uint 64 (val P - val B) + sval val (getLength L) <= val Bd.
Proof.
  intros Hr. unfold validateBounds. set (SL := getNoopOrZeroExtend (getLength L)).
  set (Off := getNoopOrZeroExtend (getMinusSCEV _ _)). set (Lim := getNoopOrZeroExtend (getSCEV Bd)).
  assert (sval val SL = sval val (getLength L)) as HSL by apply sval_zext.
  assert (sval val Lim = val Bd) as HLim.
  { unfold Lim. rewrite sval_zext, sval_getSCEV. by apply uint_small. }
  assert (isCouldNotCompute Lim = false) as HcL by (unfold Lim; by rewrite computed_zext, computed_getSCEV).
  assert (isCouldNotCompute Off = false -> sval val Off = uint 64 (val P - val B)) as HOff.
  { unfold Off. rewrite computed_zext, sval_zext. intros Hc. rewrite sval_minus by done.
    rewrite !sval_getSCEV. by rewrite (uint_small 64 (val P)), (uint_small 64 (val B)) by done. }
  pose proof (Z.mod_pos_bound (val P - val B) (2 ^ 64) ltac:(lia)) as Hoff.
  change ((val P - val B) `mod` 2 ^ 64) with (uint 64 (val P - val B)) in Hoff.
  destruct (decide (Off = Lim)); [done|]. destruct (decide (SL = Lim)) as [Eq|].
  { intros [= Hz _] _ _ _. pose proof (sval_zero val _ Hz) as Hz0. rewrite HOff in Hz0 by (by apply computed_zero).
    rewrite <- HSL, Eq, HLim. lia. }
  intros E Hp Hfit Hlen.
  assert (exists v1 c1 v2 c2, (if decide (getUMaxExpr (getAddExpr Off SL) Lim = Lim) then (true, [])
      else insertCheck (getAddExpr Off SL) Lim false) = (v1, c1) /\
    (if decide (getUMaxExpr Off Lim = Lim) then (true, []) else insertCheck Off Lim true) = (v2, c2) /\
    v1 = true /\ v2 = true /\ checks = c1 ++ c2) as (v1 & c1 & v2 & c2 & E1 & E2 & -> & -> & ->).
  { destruct (if decide (getUMaxExpr (getAddExpr Off SL) Lim = Lim) then _ else _) as [v1 c1].
    destruct (decide (getUMaxExpr Off Lim = Lim)).
    - exists v1, c1, true, []. injection E as -> ->. by rewrite app_nil_r.
    - destruct (insertCheck Off Lim true) as [v2 c2]. exists v1, c1, v2, c2. injection E as Hv <-.
      by apply andb_true_iff in Hv as [-> ->]. }
  apply Forall_app in Hp as [Hp1 Hp2].
  assert (isCouldNotCompute Off = false /\ sval val Off <= val Bd) as [HcO HleO].
  { destruct (decide (getUMaxExpr Off Lim = Lim)) as [Em|].
    - rewrite <- HLim. by apply umax_is_limit.
    - destruct (insertCheck_spec val _ _ _ _ E2 Hp2) as (? & _ & ?). split; [done|]. lia. }
  assert (isCouldNotCompute (getAddExpr Off SL) = false /\ sval val (getAddExpr Off SL) <= val Bd) as [HcA HleA].
  { destruct (decide (getUMaxExpr (getAddExpr Off SL) Lim = Lim)) as [Em|].
    - rewrite <- HLim. by apply umax_is_limit.
    - destruct (insertCheck_spec val _ _ _ _ E1 Hp1) as (? & _ & ?). split; [done|]. lia. }
  rewrite HOff in HleO by done. rewrite sval_add, HOff, HSL in HleA by done.
  rewrite uint_small in HleA by lia. lia.
Qed.

(** An accepted access whose comparisons hold stays inside the object. *)
Lemma validateAccess_sound fuel P L Ibb s checks found s' : pv_ok L0 rho osize s -> (P < L0)%nat ->
  validateAccess uses dominates block_of fuel P L Ibb s = Some (true, checks, found, s') ->
  pv_ok L0 rho osize s' /\ ext (gr s) (gr s') /\
  forall g path val start n o e, ext (gr s') g -> moment g path found val start -> peval n (gr s) path P = Some (o, e) ->
  Forall (passes val) checks ->
  0 < sval val (getLength L) -> 0 <= osize o -> osize o + sval val (getLength L) < 2 ^ 64 ->
  0 <= start o -> start o + osize o < 2 ^ 64 ->
  start o <= val P /\ val P + sval val (getLength L) <= start o + osize o.
Proof.
  intros Hok HP. unfold validateAccess. destruct (getPointerBase fuel P s) as [[b s1]|] eqn:Eb; [|done].
  destruct (pv_ok_base _ _ _ _ _ _ _ _ Hok HP Eb) as (Hok1 & Hlb & He1 & G & HG & Hbase).
  pose proof (strip_zchain (gr s1) (length (gr s1)) b : zchain (gr s1) b (strip (gr s1) b)) as Hz.
  assert (strip (gr s1) b < length (gr s1))%nat as Hsb.
  { destruct Hok1 as (G1 & _ & [Hi1 _] & _). eapply closed_chain; [by eapply closed_here|by apply zchain_chain|done]. }
  destruct (getPointerBounds fuel (strip (gr s1) b) s1) as [[[bd|] s2]|] eqn:Ed; [|done|done].
  destruct (pv_ok_bounds _ _ _ _ _ _ _ _ Hok1 Hsb Ed) as (Hok2 & He2 & Hbd).
  destruct (Hbd bd eq_refl) as (GB & HGB & Hbound).
  match goal with |- context [match ?x with Some _ => _ | None => _ end] => destruct x as [[]|]; [|done|done] end.
  cbn [negb]. destruct (validateBounds P b bd L) as [v c] eqn:Ev. intros [= -> <- <- <-].
  split; [done|]. split; [by eapply ext_trans|].
  intros g path val start n o e Heg Hm Hp Hpass Hlen Hsz Hfit Hst Hfit2.
  pose proof (peval_ext _ _ _ (ext_trans _ _ _ He1 He2) _ _ _ Hp) as Hp2.
  assert (exists m e', peval m (gr s1) path b = Some (o, e')) as (m1 & e1 & Hb1).
  { eapply base_eval; [exact HG|exact Hbase|]. by eapply peval_ext. }
  destruct (zchain_peval _ _ _ Hz _ _ _ _ Hb1) as (m2 & _ & Hsb1).
  apply (peval_ext _ _ _ He2) in Hsb1. apply (peval_ext _ _ _ He2) in Hb1.
  destruct (bound_eval _ _ _ _ HGB _ _ _ _ _ _ Hbound Hsb1) as (m3 & x & Hx & Hpos).
  assert (exists m4, ieval m4 g rho path bd = Some x) as [m4 Hx'].
  { exists m3. clear -Heg Hx. revert path bd Hx. induction m3 as [|n IH]; intros path v; [done|]. cbn.
    destruct (kind (gr s2) v) as [k|] eqn:E; [|done]. rewrite (Heg _ _ E). destruct k; try done.
    - destruct path as [|i path]; [done|]. destruct (inc !! i); [|done]. apply IH.
    - destruct path as [|i path]; [done|]. apply IH.
    - apply IH. }
  pose proof (m_bounds _ _ _ _ _ Hm _ _ _ _ eq_refl Hx') as Hvx.
  assert (val bd + sval val (getLength L) < 2 ^ 64) as Hfit'.
  { rewrite Hvx. destruct (Z.lt_ge_cases 0 x) as [Hx0|]; [destruct (Hpos Hx0); lia|lia]. }
  pose proof (validateBounds_sound val P b bd L c (m_range _ _ _ _ _ Hm) Ev Hpass Hfit' ltac:(lia)) as Hle.
  pose proof (Z.mod_pos_bound (val P - val b) (2 ^ 64) ltac:(lia)) as Hoff.
  change ((val P - val b) `mod` 2 ^ 64) with (uint 64 (val P - val b)) in Hoff.
  destruct (Hpos ltac:(lia)) as [-> Hxo].
  rewrite (m_base _ _ _ _ _ Hm _ _ _ _ eq_refl (peval_ext _ _ _ Heg _ _ _ Hb1)) in *.
  pose proof (m_range _ _ _ _ _ Hm P) as HrP. unfold uint in *.
  assert (val P = start o + (val P - start o) `mod` 2 ^ 64) as EP; [|lia].
  rewrite <- (Z.mod_small (val P) (2 ^ 64)) at 1 by lia.
  rewrite <- (Z.mod_small (start o + _) (2 ^ 64)) by lia.
  rewrite Zplus_mod_idemp_r. f_equal. lia.
Qed.

(** An access is safe: at every moment of an execution at which the comparisons
    in front of it hold, the bytes it touches belong to the object its pointer is
    derived from in the program [g0], along the choices that the pointer took. *)
Definition safe_access (g0 g : graph) (a : guarded) : Prop :=
  forall path val start n o e, moment g path (g_found a) val start -> peval n g0 path (g_pointer a) = Some (o, e) ->
  Forall (passes val) (g_checks a) ->
  let len := sval val (getLength (g_length a)) in
  0 < len -> 0 <= osize o -> osize o + len < 2 ^ 64 -> 0 <= start o -> start o + osize o < 2 ^ 64 ->
  start o <= val (g_pointer a) /\ val (g_pointer a) + len <= start o + osize o.

Lemma validate_all_sound fuel g0 l Ibb : Forall (fun a : access => (fst a < L0)%nat) l -> forall s gs s',
  pv_ok L0 rho osize s -> ext g0 (gr s) ->
  validate_all uses dominates block_of fuel l Ibb s = Some (true, gs, s') ->
  pv_ok L0 rho osize s' /\ ext (gr s) (gr s') /\
  map (fun a => (g_pointer a, g_length a)) gs = l /\ forall g, ext (gr s') g -> Forall (safe_access g0 g) gs.
Proof.
  induction 1 as [|[p n] l Hp _ IH]; intros s gs s' Hok He; cbn [validate_all].
  - intros [= <- <-]. split; [done|]. split; [apply ext_refl|]. split; [done|]. constructor.
  - destruct (validateAccess _ _ _ _ _ _ _ _) as [[[[v c] fd] s1]|] eqn:Ev; [|done].
    destruct (validate_all _ _ _ _ _ _ _) as [[[v' rest] s2]|] eqn:Er; [|done].
    intros [= [-> ->]%andb_true_iff <- <-].
    destruct (validateAccess_sound _ _ _ _ _ _ _ _ Hok Hp Ev) as (Hok1 & He1 & Hsafe).
    destruct (IH _ _ _ Hok1 (ext_trans _ _ _ He He1) Er) as (Hok2 & He2 & Hmap & Hrest).
    split; [done|]. split; [by eapply ext_trans|]. split; [cbn; by rewrite Hmap|].
    intros g Hg. constructor; [|by apply Hrest].
    intros path val start m o e Hm Hpe Hpass. cbn in *. eapply Hsafe; [by eapply ext_trans|done| |done].
    by eapply peval_ext.
Qed.

Lemma check_insts_sound fuel g0 l : Forall (fun i => Forall (fun a : access => (fst a < L0)%nat) (snd (accesses (fst i)))) l ->
  forall s gs s', pv_ok L0 rho osize s -> ext g0 (gr s) ->
  check_insts uses dominates block_of fuel l s = Some (true, gs, s') ->
  pv_ok L0 rho osize s' /\ ext (gr s) (gr s') /\
  map (fun a => (g_pointer a, g_length a)) gs = concat (map (fun i => snd (accesses (fst i))) l) /\
  forall g, ext (gr s') g -> Forall (safe_access g0 g) gs.
Proof.
  induction 1 as [|[i Ibb] l Hp _ IH]; intros s gs s' Hok He; cbn [check_insts].
  - intros [= <- <-]. split; [done|]. split; [apply ext_refl|]. split; [done|]. constructor.
  - cbn in Hp. destruct (accesses i) as [ok acc] eqn:Ea. cbn [snd] in Hp.
    destruct (validate_all _ _ _ _ _ _ _) as [[[v gs1] s1]|] eqn:Ev; [|done].
    destruct (check_insts _ _ _ _ _ _) as [[[v' rest] s2]|] eqn:Er; [|done].
    intros [= [[-> ->]%andb_true_iff ->]%andb_true_iff <- <-].
    destruct (validate_all_sound _ _ _ _ Hp _ _ _ Hok He Ev) as (Hok1 & He1 & Hmap1 & Hsafe1).
    destruct (IH _ _ _ Hok1 (ext_trans _ _ _ He He1) Er) as (Hok2 & He2 & Hmap2 & Hsafe2).
    split; [done|]. split; [by eapply ext_trans|]. split; [cbn; by rewrite map_app, Hmap1, Hmap2, Ea|].
    intros g Hg. apply Forall_app. split; [apply Hsafe1; by eapply ext_trans|by apply Hsafe2].
Qed.

(** Programs whose values refer to one another, with pointers among them. *)
Definition wf_function (g : graph) (f : list (rinst * bb)) : Prop :=
  closed L0 L0 g /\ Forall (fun i => Forall (fun a : access => (fst a < L0)%nat) (snd (accesses (fst i)))) f.

Lemma collect_accesses (f : list (rinst * bb)) i a : i ∈ f -> a ∈ snd (accesses (fst i)) ->
  i ∈ snd (collect f).
Proof.
  intros Hi Ha. cbn. apply list_elem_of_In, in_concat. rewrite list_elem_of_In in Hi.
  eexists. split; [by apply in_map|]. cbn. destruct i as [k b]. cbn in *.
  destruct k; cbn; try (by left); cbn in Ha; by apply not_elem_of_nil in Ha.
Qed.

End Access.

(** C31. The bounds checks are sufficient.  If the pass keeps a function, then
    every load, store, memory intrinsic, memcmp and buffer passed to the API is
    one of the guarded accesses, and whenever the comparisons inserted in front
    of it hold, it stays inside the object its pointer comes from, whatever
    choices the phis and selects on the way to its pointer made, independently of
    those of the other accesses. *)
Theorem rtchecks_sound {scev : Type} `{ScalarEvolutionLaws scev} uses dominates block_of L0 rho osize
    fuel bad g f (gs : list (@guarded scev)) :
  wf_function L0 g f -> sizes_ok L0 rho osize g ->
  runOnFunction uses dominates block_of fuel bad g f = Some (Kept gs) ->
  bad = false /\ exists g', ext g g' /\
  forall i a, i ∈ f -> a ∈ snd (accesses (fst i)) ->
  exists c, c ∈ gs /\ g_pointer c = fst a /\ g_length c = snd a /\ safe_access rho osize g g' c.
Proof.
  intros [Hc Hwf] Hs. unfold runOnFunction. destruct (collect f) as [known insns] eqn:Ec.
  destruct (check_insts _ _ _ _ _ _) as [[[v gs0] s']|] eqn:E; [|done].
  destruct (known && v && negb bad) eqn:Ev; [|done]. intros [= ->].
  apply andb_true_iff in Ev as [[-> ->]%andb_true_iff Hbad]. split; [by destruct bad|].
  assert (insns = snd (collect f)) as Ei by (by rewrite Ec).
  assert (Forall (fun i => Forall (fun a : access => (fst a < L0)%nat) (snd (accesses (fst i)))) (rev insns)) as Hl.
  { apply Forall_rev. rewrite Ei. cbn. apply Forall_concat, Forall_map. eapply Forall_impl; [exact Hwf|].
    intros [k b] Hk. destruct k; cbn [fst]; repeat (apply Forall_cons_2; [exact Hk|]); apply Forall_nil_2. }
  destruct (check_insts_sound uses dominates block_of L0 rho osize fuel g _ Hl _ _ _
              (pv_ok_start L0 rho osize g Hc Hs) (ext_refl g) E) as (_ & He & Hmap & Hsafe).
  exists (gr s'). split; [exact He|]. intros i a Hi Ha.
  assert (a ∈ map (fun c => (g_pointer c, g_length c)) gs) as Ha'.
  { rewrite Hmap. apply list_elem_of_In, in_concat. exists (snd (accesses (fst i))). split; [|by apply list_elem_of_In].
    apply in_map_iff. exists i. split; [done|]. apply in_rev. rewrite rev_involutive, Ei.
    apply list_elem_of_In. by eapply collect_accesses. }
  apply list_elem_of_fmap in Ha' as (c & -> & Hcin). exists c. split; [done|]. split; [done|]. split; [done|].
  specialize (Hsafe (gr s') (ext_refl _)). rewrite Forall_forall in Hsafe. by apply Hsafe.
Qed.

End RtSafety.

(** * An instance, and what the null pointer checks accept *)
Module RtExamples.
Import RtPass RtSafety.

(** Symbolic expressions without any simplification but that of equal operands. *)
Inductive sexp :=
| SCnc | SConst (z : Z) | SVal (v : vid) | SMinus (a b : sexp) | SAdd (a b : sexp) | SMax (a b : sexp).

#[export] Instance sexp_eq_dec : EqDecision sexp.
Proof. solve_decision. Defined.

Definition is_cnc (a : sexp) : bool := match a with SCnc => true | _ => false end.
Definition smart (f : sexp -> sexp -> sexp) (a b : sexp) : sexp := if is_cnc a || is_cnc b then SCnc else f a b.

#[export] Instance sexp_scev : ScalarEvolution sexp := {|
  getSCEV := SVal; getConstant := SConst;
  getMinusSCEV := smart (fun a b => if decide (a = b) then SConst 0 else SMinus a b);
  getAddExpr := smart SAdd; getUMaxExpr := smart SMax; getNoopOrZeroExtend := fun a => a;
  isCouldNotCompute := is_cnc; isZero := fun a => match a with SConst 0 => true | _ => false end |}.

Fixpoint seval (val : vid -> Z) (a : sexp) : Z :=
  match a with
  | SCnc => 0
  | SConst z => uint 64 z
  | SVal v => uint 64 (val v)
  | SMinus a b => uint 64 (seval val a - seval val b)
  | SAdd a b => uint 64 (seval val a + seval val b)
  | SMax a b => Z.max (seval val a) (seval val b)
  end.

#[export] Instance sexp_laws : ScalarEvolutionLaws sexp.
Proof.
  refine {| sval := seval |}; try done; unfold getMinusSCEV, getAddExpr, getUMaxExpr, isCouldNotCompute, isZero,
    sexp_scev, smart; intros.
  - destruct (is_cnc a || is_cnc b); [done|]. destruct (decide (a = b)) as [->|]; [|done].
    cbn. by rewrite Z.sub_diag.
  - by destruct (is_cnc a || is_cnc b).
  - by destruct (is_cnc a || is_cnc b).
  - by destruct a as [|[| |]| | | |].
  - by destruct a.
  - by destruct (is_cnc a || is_cnc b).
  - by destruct (is_cnc a || is_cnc b).
Defined.

(** A load of 4 bytes somewhere inside an array of 10 elements of 4 bytes. *)
Definition ex_graph : graph := [(Alloc 1 4, false); (Const 32 10, false); (Gep 0 false, false)].
Definition ex_function : list (rinst * bb) := [(RLoad 2 4, 0%nat)].
Definition ex_verdict : option (@verdict sexp) :=
  runOnFunction (fun _ => []) (fun _ _ => false) (fun _ => 0%nat) 5 false ex_graph ex_function.

Lemma ex_wf : wf_function 3 ex_graph ex_function /\ sizes_ok 3 (fun _ => 0) (fun _ => 40) ex_graph.
Proof.
  split; [split; [split; [cbn; lia|split]|]|].
  - intros v k Hv. do 3 (destruct v as [|v]; [injection Hv as <-; split; [repeat constructor; lia|cbn; lia]|]). done.
  - intros v k Hlt Hv. do 3 (destruct v as [|v]; [injection Hv as <-; repeat constructor; lia|]). done.
  - repeat constructor; cbn; lia.
  - intros [|[|[|o]]] Ho; [|done|done|lia]. cbn. split; [lia|]. exists 10. by repeat split.
Qed.

Lemma ex_kept : exists gs, ex_verdict = Some (Kept gs).
Proof. eexists. vm_compute. reflexivity. Qed.

Lemma rtchecks_sound_witness :
  exists gs g', ex_verdict = Some (Kept gs) /\
  exists c, c ∈ gs /\ g_pointer c = 2%nat /\ g_length c = LenConst 4 /\
    safe_access (fun _ => 0) (fun _ => 40) ex_graph g' c.
Proof.
  destruct ex_wf as [Hwf Hs]. destruct ex_kept as [gs Hgs]. exists gs.
  destruct (rtchecks_sound (scev := sexp) (fun _ => []) (fun _ _ => false) (fun _ => 0%nat) 3 (fun _ => 0)
    (fun _ => 40) 5 false ex_graph ex_function gs Hwf Hs Hgs) as (_ & g' & _ & Hall).
  exists g'. split; [exact Hgs|].
  apply (Hall (RLoad 2 4, 0%nat) (2%nat, LenConst 4)); apply list_elem_of_singleton; reflexivity.
Defined.

(** Two accesses through selects that choose independently: the first takes its
    second operand, an object of 8 bytes, the other its first, of 4 bytes.  One
    valuation of the function describes the moment of both. *)
Definition two_graph : graph :=
  [(Const 32 4, false); (Const 32 8, false); (Alloc 0 1, false); (Alloc 1 1, false); (Int 1, false); (Int 1, false);
   (Select 4 2 3, false); (Select 5 2 3, false)]%nat.
Definition two_function : list (rinst * bb) := [(RLoad 6 4, 0%nat); (RLoad 7 4, 0%nat)].

Lemma independent_choices : exists c1 c2 s val start,
  check_insts (scev := sexp) (fun _ => []) (fun _ _ => false) (fun _ => 0%nat) 9 (rev two_function)
    {| gr := two_graph; BaseMap := ∅; BoundsMap := ∅ |} = Some (true, [c2; c1], s) /\
  g_pointer c1 = 6%nat /\ g_pointer c2 = 7%nat /\
  peval 3 two_graph [1%nat] 6 = Some (3%nat, true) /\ peval 3 two_graph [0%nat] 7 = Some (2%nat, true) /\
  moment (fun _ => 0) (gr s) [1%nat] (g_found c1) val start /\ moment (fun _ => 0) (gr s) [0%nat] (g_found c2) val start.
Proof.
  eexists _, _, _, (fun v => match v with 16%nat => 200 | 19%nat => 8 | 10%nat => 100 | 13%nat => 4 | _ => 0 end),
    (fun v => match v with 2%nat => 100 | _ => 200 end).
  split; [vm_compute; reflexivity|]. do 4 (split; [reflexivity|]).
  split; (split;
    [intros v; do 20 (destruct v as [|v]; [lia|]); lia
    |intros b bd n o [= <- <-] E; do 3 (destruct n as [|n]; [vm_compute in E; discriminate E|]); vm_compute in E; injection E as <-; reflexivity
    |intros b bd n x [= <- <-] E; do 2 (destruct n as [|n]; [vm_compute in E; discriminate E|]); vm_compute in E; injection E as <-; reflexivity]).
Qed.

(** ** Null pointer checks *)

(** Dominators of a graph with entry 0: a block that is not reached when the
    dominator is taken away. *)
Fixpoint reaches (n : nat) (edges : list (bb * bb)) (avoid from to : bb) : bool :=
  if (from =? avoid)%nat then false
  else (from =? to)%nat ||
    match n with
    | O => false
    | S n' => existsb (fun e => (fst e =? from)%nat && reaches n' edges avoid (snd e) to) edges
    end.

Definition dom (edges : list (bb * bb)) (s b : bb) : bool := (s =? b)%nat || negb (reaches 5 edges s 0 b).

(** The pointer 0 is compared with null (value 1) in block 0; block 1 is the branch
    taken for null, and goes on to block 2 as the other branch does. *)
Definition join_edges : list (bb * bb) := [(0, 1); (0, 2); (1, 2)]%nat.
Definition join_uses (v : vid) : list user :=
  match v with 0%nat => [UIcmp true 0 true 1] | 1%nat => [UBranch true 1 2] | _ => [] end.

(** The check is accepted for a use in block 2, which the path through block 1
    reaches with a null pointer: dominance of the successor does not say that the
    other edge was not taken. *)
Lemma null_check_bypassed :
  checkCondition join_uses (dom join_edges) 3 [(Call true None, true)] 0 2 = Some true /\
  (0, 1)%nat ∈ join_edges /\ (1, 2)%nat ∈ join_edges.
Proof. split; [reflexivity|]. split; apply list_elem_of_In; cbn; auto. Qed.

(** A conjunction turns the successor round: [p == NULL && y] is accepted as a
    check for the branch that is taken when it holds, where the pointer is null. *)
Definition and_uses (v : vid) : list user :=
  match v with
  | 0%nat => [UIcmp true 0 true 1]
  | 1%nat => [UBinary And 2]
  | 2%nat => [UBranch true 1 2]
  | _ => []
  end.

Lemma null_check_and_inverted :
  checkCondition and_uses (dom [(0, 1); (0, 2)]%nat) 3 [(Call true None, true)] 0 1 = Some true /\
  checkCondition and_uses (dom [(0, 1); (0, 2)]%nat) 3 [(Call true None, true)] 0 2 = Some false.
Proof. split; reflexivity. Qed.

End RtExamples.
