(* ===== verification/Bitset.v ===== *)
(** Bit sets of libclamav/others.c, which record the API functions a bytecode
    declares and the logical signatures that matched. *)
From stdpp Require Import base numbers list list_numbers gmap sets.
From Stdlib Require Import ZArith Lia Bool.
From S2P Require Import Prelude Hashset.
Import Errors Alloc HashFn.
Local Open Scope Z_scope.

Module Bitset.

(** [bitset_t]; a NULL array is the empty list. *)
Record bitset_t := { bitset : list Z; bs_length : Z }.

Definition BITS_PER_CHAR : Z := 8.
Definition BITSET_DEFAULT_SIZE : Z := 1024.

(** The file has its own [nearest_power], which starts from 1024; 54 doublings
    leave the 64-bit values. *)
Definition bitset_nearest_power (num : Z) : Z := nearest_power_loop 64 BITSET_DEFAULT_SIZE num.

(** [cli_bitset_init]: the result of the second allocation is not tested. *)
Definition cli_bitset_init (mem1 mem2 : bool) : option bitset_t :=
  if negb (cli_malloc mem1 16) then None else
  Some {| bitset := if cli_calloc mem2 BITSET_DEFAULT_SIZE 1 then replicate (Z.to_nat BITSET_DEFAULT_SIZE) 0 else [];
          bs_length := BITSET_DEFAULT_SIZE |}.

(** [bitset_realloc]; [None] inside is NULL.  The [memset] is of
    [new_length - length] bytes. *)
Definition bitset_realloc (mem : bool) (bs : bitset_t) (min_size : Z) : option (option bitset_t) :=
  let new_length := bitset_nearest_power min_size in
  if negb (cli_realloc mem new_length) then Some None else
  assert* (bs_length bs <=? new_length) in
  Some (Some {| bitset := resize (Z.to_nat new_length) 0 (take (Z.to_nat (bs_length bs)) (bitset bs));
                bs_length := new_length |}).

(** [cli_bitset_set]: whether the bit was set, and the bit set. *)
Definition cli_bitset_set (mem : bool) (bs : bitset_t) (bit_offset : Z) : option (bool * bitset_t) :=
  let char_offset := bit_offset / BITS_PER_CHAR in
  let bit_offset := bit_offset `mod` BITS_PER_CHAR in
  let* bs' := (if bs_length bs <=? char_offset then bitset_realloc mem bs (uint 64 (char_offset + 1))
               else Some (Some bs)) in
  match bs' with
  | None => Some (false, bs)
  | Some bs =>
      let* c := bget (bitset bs) char_offset in
      let* l := bset (bitset bs) char_offset (uint 8 (Z.lor c (Z.shiftl 1 bit_offset))) in
      Some (true, {| bitset := l; bs_length := bs_length bs |})
  end.

Definition cli_bitset_test (bs : bitset_t) (bit_offset : Z) : option bool :=
  let char_offset := bit_offset / BITS_PER_CHAR in
  let bit_offset := bit_offset `mod` BITS_PER_CHAR in
  if bs_length bs <=? char_offset then Some false else
  let* c := bget (bitset bs) char_offset in
  Some (negb (Z.land c (Z.shiftl 1 bit_offset) =? 0)).

End Bitset.

Module BitsetFacts.
Import Bitset.

(** The array has the recorded length. *)
Definition wf (bs : bitset_t) : Prop := bs_length bs = Z.of_nat (length (bitset bs)).

(** Bit [j] of the set. *)
Definition bit (bs : bitset_t) (j : Z) : bool :=
  match bget (bitset bs) (j / 8) with Some c => Z.testbit c (j `mod` 8) | None => false end.

Lemma nearest_power_ge num : 0 <= num < 2 ^ 64 -> forall f j, 0 <= j <= 63 -> 64 <= j + Z.of_nat f ->
  num <= nearest_power_loop f (2 ^ j) num.
Proof.
  intros Hn. induction f as [|f IH]; intros j Hj Hf; [lia|]. cbn [nearest_power_loop].
  destruct (Z.ltb_spec (2 ^ j) num); [|lia].
  replace (Z.shiftl (2 ^ j) 1) with (2 ^ (j + 1))
    by (rewrite Z.shiftl_mul_pow2, Z.pow_add_r by lia; lia).
  destruct (decide (j = 63)) as [->|]; [change (uint 64 (2 ^ (63 + 1))) with 0; cbn [Z.eqb]; lia|].
  rewrite (uint_small 64) by (split; [apply Z.pow_nonneg; lia|apply Z.pow_lt_mono_r; lia]).
  destruct (Z.eqb_spec (2 ^ (j + 1)) 0); [lia|]. apply IH; lia.
Qed.

Lemma nearest_power_le K num : num <= 2 ^ K -> K <= 62 -> forall f j, 0 <= j <= K ->
  nearest_power_loop f (2 ^ j) num <= 2 ^ K.
Proof.
  intros Hn HK. induction f as [|f IH]; intros j Hj; cbn [nearest_power_loop].
  { apply Z.pow_le_mono_r; lia. }
  destruct (Z.ltb_spec (2 ^ j) num); [|apply Z.pow_le_mono_r; lia].
  assert (j < K) by (apply (Z.pow_lt_mono_r_iff 2); lia).
  replace (Z.shiftl (2 ^ j) 1) with (2 ^ (j + 1))
    by (rewrite Z.shiftl_mul_pow2, Z.pow_add_r by lia; lia).
  rewrite (uint_small 64) by (split; [apply Z.pow_nonneg; lia|apply Z.pow_lt_mono_r; lia]).
  destruct (Z.eqb_spec (2 ^ (j + 1)) 0); [lia|]. apply IH. lia.
Qed.

Lemma bit_test bs j : wf bs -> 0 <= j -> cli_bitset_test bs j = Some (bit bs j).
Proof.
  unfold wf, cli_bitset_test, bit, BITS_PER_CHAR. intros Hw Hj. cbv zeta.
  assert (0 <= j / 8) by (apply Z.div_pos; lia). pose proof (Z.mod_pos_bound j 8 ltac:(lia)).
  destruct (Z.leb_spec (bs_length bs) (j / 8)).
  - unfold bget. destruct (Z.ltb_spec (j / 8) 0); [lia|]. by rewrite lookup_ge_None_2 by lia.
  - destruct (bget_is_Some (bitset bs) (j / 8) ltac:(lia)) as [c ->].
    by rewrite land_shiftl1_testbit, negb_involutive by lia.
Qed.

(** With memory, a set of at most 2^27 bytes can be had. *)
Lemma realloc_succeeds n : 0 < n <= 2 ^ 27 -> cli_realloc true (bitset_nearest_power n) = true.
Proof.
  intros Hn. pose proof (nearest_power_ge n ltac:(lia) 64 10 ltac:(lia) ltac:(lia)).
  pose proof (nearest_power_le 27 n ltac:(lia) ltac:(lia) 64 10 ltac:(lia)).
  unfold bitset_nearest_power, cli_realloc. change BITSET_DEFAULT_SIZE with (2 ^ 10).
  destruct (Z.eqb_spec (nearest_power_loop 64 (2 ^ 10) n) 0); [lia|].
  destruct (Z.ltb_spec CLI_MAX_ALLOCATION (nearest_power_loop 64 (2 ^ 10) n)); [unfold CLI_MAX_ALLOCATION in *; lia|done].
Qed.

(** Growing keeps the bits. *)
Lemma realloc_spec mem bs n r : wf bs -> bs_length bs < n < 2 ^ 64 -> bitset_realloc mem bs n = r ->
  (r = Some None /\ ~ (mem = true /\ n <= 2 ^ 27)) \/ exists bs', r = Some (Some bs') /\ wf bs' /\ n <= bs_length bs' /\
    forall j, 0 <= j -> bit bs' j = bit bs j.
Proof.
  unfold wf, bitset_realloc. intros Hw Hn <-. cbv zeta.
  destruct (cli_realloc _ _) eqn:Er; cbn [negb];
    [right|left; split; [done|]; intros [-> ?]; rewrite realloc_succeeds in Er by lia; done].
  unfold bitset_nearest_power.
  pose proof (nearest_power_ge n ltac:(lia) 64 10 ltac:(lia) ltac:(lia)) as Hge.
  change (2 ^ 10) with BITSET_DEFAULT_SIZE in Hge.
  set (k := nearest_power_loop 64 BITSET_DEFAULT_SIZE n) in *.
  replace (bs_length bs <=? k) with true by lia. eexists. split; [done|]. cbn [bs_length bitset].
  rewrite length_resize. split; [lia|]. split; [done|]. intros j Hj. unfold bit. cbn [bitset].
  assert (0 <= j / 8) by (apply Z.div_pos; lia). pose proof (Z.mod_pos_bound j 8 ltac:(lia)).
  rewrite !bget_lookup by done.
  rewrite (take_ge (bitset bs)) by lia. rewrite resize_ge by lia.
  destruct (bitset bs !! Z.to_nat (j / 8)) as [c|] eqn:E.
  - by rewrite (lookup_app_l_Some _ _ _ _ E).
  - apply lookup_ge_None in E. rewrite lookup_app_r by done.
    destruct (replicate _ 0 !! _) as [c|] eqn:E0; [|done].
    apply lookup_replicate in E0 as [-> _]. apply Z.testbit_0_l.
Qed.

Lemma testbit_set c i j : 0 <= i < 8 -> 0 <= j < 8 ->
  Z.testbit (uint 8 (Z.lor c (Z.shiftl 1 i))) j = (i =? j) || Z.testbit c j.
Proof.
  intros Hi Hj. unfold uint. rewrite Z.mod_pow2_bits_low, Z.lor_spec, Z.shiftl_spec by lia.
  rewrite orb_comm. f_equal. destruct (Z.eqb_spec i j) as [->|]; [by rewrite Z.sub_diag|].
  destruct (decide (j < i)); [apply Z.testbit_neg_r; lia|]. change 1 with (2 ^ 0). apply Z.pow2_bits_false. lia.
Qed.

(** Setting a bit. *)
Lemma set_spec mem bs i : wf bs -> 0 <= i < 2 ^ 64 ->
  exists r bs', cli_bitset_set mem bs i = Some (r, bs') /\ wf bs' /\
    (forall j, 0 <= j -> bit bs' j = (r && (i =? j)) || bit bs j) /\
    bs_length bs <= bs_length bs' /\ (i < 8 * bs_length bs \/ mem = true /\ i < 2 ^ 30 -> r = true).
Proof.
  intros Hw Hi. pose proof (Z.mod_pos_bound i 8 ltac:(lia)) as Hm. pose proof (Z.div_mod i 8 ltac:(lia)) as Hd.
  assert (0 <= i / 8 < 2 ^ 61) as Hc by (split; [apply Z.div_pos; lia|apply Z.div_lt_upper_bound; lia]).
  assert (forall bs0, wf bs0 -> i / 8 < bs_length bs0 -> (forall j, 0 <= j -> bit bs0 j = bit bs j) ->
    exists l, (let* c := bget (bitset bs0) (i / 8) in
      bset (bitset bs0) (i / 8) (uint 8 (Z.lor c (Z.shiftl 1 (i `mod` 8))))) = Some l /\
      wf {| bitset := l; bs_length := bs_length bs0 |} /\
      forall j, 0 <= j -> bit {| bitset := l; bs_length := bs_length bs0 |} j = (i =? j) || bit bs j) as Hset.
  { intros bs0 Hw0 Hlt Hb. unfold wf in Hw0. destruct (bget_is_Some (bitset bs0) (i / 8) ltac:(lia)) as [c Ec].
    rewrite Ec, bset_is_Some by lia. eexists. split; [done|]. split; [unfold wf; cbn; by rewrite length_insert|].
    intros j Hj. rewrite <- Hb by done. unfold bit. cbn [bitset].
    assert (0 <= j / 8) by (apply Z.div_pos; lia). pose proof (Z.mod_pos_bound j 8 ltac:(lia)).
    pose proof (Z.div_mod j 8 ltac:(lia)).
    destruct (decide (i / 8 = j / 8)) as [e|].
    - rewrite <- e, bget_insert_eq, Ec by lia. rewrite testbit_set by done. f_equal. lia.
    - rewrite bget_insert_ne by lia. replace (i =? j) with false by (symmetry; apply Z.eqb_neq; congruence). done. }
  unfold cli_bitset_set, BITS_PER_CHAR. cbv zeta. rewrite (uint_small 64) by lia.
  destruct (Z.leb_spec (bs_length bs) (i / 8)) as [Hle|Hlt].
  - destruct (realloc_spec mem bs (i / 8 + 1) _ Hw ltac:(lia) eq_refl) as [[-> Hno]|(bs1 & -> & Hw1 & Hl1 & Hb1)].
    + exists false, bs. split; [done|]. split; [done|]. split; [done|]. split; [done|].
      intros [?|[-> ?]]; [lia|]. destruct Hno. split; [done|]. lia.
    + destruct (Hset bs1 Hw1 ltac:(lia) Hb1) as (l & El & Hwl & Hbl).
      destruct (bget _ _) as [c|]; [|done]. rewrite El. eexists _, _. split; [done|]. split; [done|]. split; [done|]. cbn [bs_length]. split; [lia|done].
  - destruct (Hset bs Hw Hlt ltac:(done)) as (l & El & Hwl & Hbl).
    destruct (bget _ _) as [c|]; [|done]. rewrite El. eexists _, _. split; [done|]. split; [done|]. split; [done|]. cbn [bs_length]. split; [lia|done].
Qed.

(** A sequence of calls of [cli_bitset_set], each with or without memory for the
    set to grow: what they return, and the set at the end. *)
Fixpoint set_all (bs : bitset_t) (calls : list (bool * Z)) : option (list bool * bitset_t) :=
  match calls with
  | [] => Some ([], bs)
  | (mem, i) :: calls =>
      let* (r, bs) := cli_bitset_set mem bs i in
      let* (rs, bs) := set_all bs calls in
      Some (r :: rs, bs)
  end.

(** The bits whose call returned TRUE. *)
Definition accepted (calls : list (bool * Z)) (rs : list bool) : list Z :=
  (fun p => snd (fst p)) <$> filter (fun p => snd p = true) (zip calls rs).

Lemma accepted_cons mem i calls r rs :
  accepted ((mem, i) :: calls) (r :: rs) = (if r then [i] else []) ++ accepted calls rs.
Proof. unfold accepted. cbn [zip zip_with]. rewrite filter_cons. by destruct r. Qed.

Lemma set_all_spec calls : Forall (fun c => 0 <= snd c < 2 ^ 64) calls -> forall bs, wf bs -> 1024 <= bs_length bs ->
  exists rs bs', set_all bs calls = Some (rs, bs') /\ wf bs' /\
    Forall2 (fun c r => snd c < 8192 \/ fst c = true /\ snd c < 2 ^ 30 -> r = true) calls rs /\
    forall j, 0 <= j -> bit bs' j = bool_decide (j ∈ accepted calls rs) || bit bs j.
Proof.
  induction 1 as [|[mem i] calls Hi _ IH]; intros bs Hw Hl; cbn [set_all snd] in *.
  { exists [], bs. split; [done|]. split; [done|]. split; [constructor|]. intros j _.
    by rewrite bool_decide_eq_false_2 by (apply not_elem_of_nil). }
  destruct (set_spec mem bs i Hw Hi) as (r & bs1 & E & Hw1 & Hb1 & Hle & Hr). rewrite E.
  destruct (IH bs1 Hw1 ltac:(lia)) as (rs & bs2 & -> & Hw2 & Hrs & Hb2).
  exists (r :: rs), bs2. split; [done|]. split; [done|]. split.
  { constructor; [|done]. cbn. intros [?|?]; apply Hr; [left; lia|by right]. }
  intros j Hj. rewrite Hb2, Hb1, accepted_cons, orb_assoc by done. f_equal.
  destruct r; cbn [andb app]; [|by rewrite orb_false_r].
  destruct (Z.eqb_spec i j) as [->|].
  - rewrite orb_true_r. by rewrite bool_decide_eq_true_2 by set_solver.
  - rewrite orb_false_r. apply bool_decide_ext. set_solver.
Qed.

End BitsetFacts.

Module BitsetProps.
Import Bitset BitsetFacts.

(** A bit set implements a finite set.  After any sequence of calls of
    [cli_bitset_set] on a fresh bit set, with numbers of 64 bits and memory for
    growth that may be refused at any call, a test of bit [j] is true exactly if
    some call with [j] returned TRUE; a call with a number below 8192 always does,
    and one with a number below 2^30 does when there is memory.  No access leaves
    the array. *)
Theorem bitset_implements_set calls bs0 : Forall (fun c => 0 <= snd c < 2 ^ 64) calls ->
  cli_bitset_init true true = Some bs0 ->
  exists rs bs, set_all bs0 calls = Some (rs, bs) /\
    Forall2 (fun c r => snd c < 8192 \/ fst c = true /\ snd c < 2 ^ 30 -> r = true) calls rs /\
    forall j, 0 <= j < 2 ^ 64 ->
      cli_bitset_test bs j = Some (bool_decide (j ∈ (list_to_set (accepted calls rs) : gset Z))).
Proof.
  intros Hi [= <-]. match goal with |- context [set_all ?b _] => set (bs0 := b) end.
  destruct (set_all_spec calls Hi bs0) as (rs & bs & E & Hw & Hrs & Hb); [done|done|].
  exists rs, bs. split; [done|]. split; [done|]. intros j Hj. rewrite bit_test by (done || lia). rewrite Hb by lia. f_equal.
  assert (bit bs0 j = false) as ->.
  { unfold bit. destruct (bget _ _) as [c|] eqn:Ec; [|done]. pose proof (bget_Some _ _ _ Ec).
    rewrite bget_lookup in Ec by lia.
    apply (lookup_replicate (Z.to_nat BITSET_DEFAULT_SIZE) 0) in Ec as [-> _]. apply Z.testbit_0_l. }
  rewrite orb_false_r. apply bool_decide_ext. set_solver.
Qed.

(** Bit 9000 makes the set grow; bit 20000 is refused for lack of memory. *)
Lemma bitset_implements_set_witness :
  exists rs bs, (let* b := cli_bitset_init true true in set_all b [(true, 3); (true, 9000); (false, 20000)]) = Some (rs, bs) /\
    rs = [true; true; false] /\
    cli_bitset_test bs 9000 = Some true /\ cli_bitset_test bs 4 = Some false /\ cli_bitset_test bs 20000 = Some false.
Proof.
  destruct (bitset_implements_set [(true, 3); (true, 9000); (false, 20000)] _ ltac:(repeat constructor; cbn; lia) eq_refl)
    as (rs & bs & E & _ & Ht).
  assert (rs = [true; true; false]) as Hrs.
  { enough (option_map fst (Some (rs, bs)) = Some [true; true; false]) as H by (injection H as H; exact H).
    rewrite <- E. vm_compute. reflexivity. }
  exists rs, bs. split; [exact E|]. split; [exact Hrs|]. subst rs.
  split; [|split]; rewrite Ht by lia; vm_compute; reflexivity.
Defined.

End BitsetProps.
