(* ===== verification/BcRead.v ===== *)
(** The readers of the bytecode loader (libclamav/bytecode.c): numbers, operands,
    data and strings of one line of a bytecode file.

    The readers share a cursor and the flag [ok] through pointers; here they are
    computations in a state monad, with a Hoare triple to reason about them. *)
From stdpp Require Import base numbers list list_numbers gmap.
From Stdlib Require Import ZArith Lia Bool.
From S2P Require Import Prelude.
Import Errors Alloc.
Local Open Scope Z_scope.

(** * The monad of the loader *)
Module Reader.

(** The line being read ([strlen] plus at least one byte), the variables
    [offset] and [ok] of the parsing function, and the constants of the function
    being read. *)
Record rst := { buf : list Z; off : Z; rok : bool; consts : list Z }.

(** A computation gives a value, makes the parsing function return a code, or is
    stuck: an access outside an array, or a loop that does not end. *)
Inductive fault := OutOfBounds | Forever.
Inductive outcome (A : Type) := Val (a : A) (s : rst) | Code (c : Z) | Stuck (f : fault).
Arguments Val {A} a s.
Arguments Code {A} c.
Arguments Stuck {A} f.

Definition reader (A : Type) : Type := rst -> outcome A.

#[global] Instance reader_ret : MRet reader := fun A a s => Val a s.
#[global] Instance reader_bind : MBind reader := fun A B k m s =>
  match m s with Val a s' => k a s' | Code c => Code c | Stuck f => Stuck f end.

Definition set_off (s : rst) (o : Z) : rst := {| buf := buf s; off := o; rok := rok s; consts := consts s |}.
Definition set_consts (s : rst) (l : list Z) : rst := {| buf := buf s; off := off s; rok := rok s; consts := l |}.
Definition clear_ok (s : rst) : rst := {| buf := buf s; off := off s; rok := false; consts := consts s |}.
Definition set_buf (s : rst) (b : list Z) : rst := {| buf := b; off := off s; rok := rok s; consts := consts s |}.

Definition get : reader rst := fun s => Val s s.
Definition code {A} (c : Z) : reader A := fun s => Code c.
Definition lift {A} (o : option A) : reader A := fun s => match o with Some a => Val a s | None => Stuck OutOfBounds end.
(** [*ok = 0; return v]. *)
Definition err {A} (v : A) : reader A := fun s => Val v (clear_ok s).
(** [offset += n]. *)
Definition skip (n : Z) : reader unit := fun s => Val tt (set_off s (uint 32 (off s + n))).
Definition goto (o : Z) : reader unit := fun s => Val tt (set_off s o).
Definition push_const (v : Z) : reader unit := fun s => Val tt (set_consts s (consts s ++ [v])).
(** [p[offset]] and [p[offset] |= v]. *)
Definition peek : reader Z := fun s => lift (bget (buf s) (off s)) s.
Definition or_byte (v : Z) : reader unit := fun s =>
  match bget (buf s) (off s) with
  | Some c =>
      match bset (buf s) (off s) (Z.lor c v) with
      | Some b => Val tt (set_buf s b)
      | None => Stuck OutOfBounds
      end
  | None => Stuck OutOfBounds
  end.

(** [if (!ok) return c]. *)
Definition check_ok (c : Z) : reader unit := fun s => if rok s then Val tt s else Code c.

(** Loops with a known number of rounds. *)
Fixpoint times {A} (n : nat) (i : Z) (body : Z -> reader A) : reader (list A) :=
  match n with
  | O => mret []
  | S n' => x ← body i; l ← times n' (i + 1) body; mret (x :: l)
  end.

End Reader.
Import Reader.

(** * Numbers *)
Module BcRead.

(** The loop over the digits [p[i] .. p[newoff-1]], low digit first; [Some None]
    is a byte that is no digit. *)
Fixpoint digits (n : nat) (p : list Z) (i shift acc : Z) : option (option Z) :=
  match n with
  | O => Some (Some acc)
  | S n' =>
      let* v := bget p i in
      if negb (Z.land v 0xf0 =? 0x60) then Some None
      else digits n' p (i + 1) (shift + 4) (Z.lor acc (uint 64 (Z.shiftl (Z.land v 0xf) shift)))
  end.

Definition readNumber (len : Z) : reader Z := fun s =>
  match bget (buf s) (off s) with
  | None => Stuck OutOfBounds
  | Some p0 =>
      let lim := uint 32 (p0 - 0x60) in
      if 0x10 <? lim then Val 0 (clear_ok s) else
      let newoff := uint 32 (off s + lim + 1) in
      if len <? newoff then Val 0 (clear_ok s) else
      if p0 =? 0x60 then Val 0 (set_off s newoff) else
      match digits (Z.to_nat (newoff - (off s + 1))) (buf s) (off s + 1) 0 0 with
      | None => Stuck OutOfBounds
      | Some None => Val 0 (clear_ok s)
      | Some (Some n) => Val n (set_off s newoff)
      end
  end.

Definition readFixedNumber (len width : Z) : reader Z := fun s =>
  let newoff := uint 32 (off s + width) in
  if len <? newoff then Val 0 (clear_ok s) else
  match digits (Z.to_nat (newoff - off s)) (buf s) (off s) 0 0 with
  | None => Stuck OutOfBounds
  | Some None => Val 0 (clear_ok s)
  | Some (Some n) => Val (uint 32 n) (set_off s newoff)
  end.

Definition MAX_OP : Z := 2 ^ 32 - 1.

(** [funcid_t] has 16 bits; [apis] is [cli_bitset_test(bc->uses_apis, id)]. *)
Definition readFuncID (len num_func : Z) : reader Z :=
  n ← readNumber len;
  let id := uint 16 (n - 1) in
  s ← get;
  if rok s && (num_func <=? id) then err (2 ^ 16 - 1) else mret id.

Definition readAPIFuncID (len : Z) (apis : Z -> bool) : reader Z :=
  n ← readNumber len;
  let id := uint 16 (n - 1) in
  s ← get;
  if rok s && negb (apis id) then err (2 ^ 16 - 1) else mret id.

(** An operand: a constant of the given width, which is added to the constants
    of the function; a global, marked by the highest bit; or the number of a
    value. *)
Definition readOperand (len : Z) (mem : bool) (numValues : Z) : reader Z :=
  c ← peek;
  if (Z.land c 0xf0 =? 0x40) || (c =? 0x50) then
    _ ← or_byte 0x20;
    s ← get;
    let numConstants := Z.of_nat (length (consts s)) in
    if negb (cli_realloc mem ((numConstants + 1) * 8)) then err MAX_OP else
    v ← readNumber len;
    n ← readFixedNumber len 1;
    let ty := 8 * n in
    if ty =? 0 then mret (uint 32 (Z.lor 0x80000000 v)) else
    let w := if ty <=? 8 then 8 else if ty <=? 16 then 16 else if ty <=? 32 then 32 else 64 in
    _ ← push_const (uint w v);
    mret (uint 32 (numValues + numConstants))
  else
    v ← readNumber len;
    s ← get;
    if negb (rok s) then mret MAX_OP
    else if numValues <=? v then err MAX_OP
    else mret v.

(** The loop over the pairs of digits of [readData]. *)
Fixpoint pairs (n : nat) (p : list Z) (i : Z) : option (option (list Z)) :=
  match n with
  | O => Some (Some [])
  | S n' =>
      let* v0 := bget p i in
      let* v1 := bget p (i + 1) in
      if negb (Z.land v0 0xf0 =? 0x60) || negb (Z.land v1 0xf0 =? 0x60) then Some None
      else
        let* r := pairs n' p (i + 2) in
        Some (match r with
              | None => None
              | Some l => Some (Z.lor (Z.land v0 0xf) (Z.shiftl (Z.land v1 0xf) 4) :: l)
              end)
  end.

(** [readData]: the data ([None] for NULL) and [*datalen], which is not written
    when the data is malformed.  The test of the pointer [ok] always succeeds, so
    that a length read wrongly is 0. *)
Definition readData (len : Z) (mem : bool) : reader (option (list Z) * option Z) :=
  c ← peek;
  if negb (c =? 124) then err (None, None) else
  _ ← skip 1;
  n ← readNumber len;
  let l := uint 32 n in
  if l =? 0 then mret (None, Some l) else
  s ← get;
  let newoff := uint 32 (off s + 2 * l) in
  if len <? newoff then err (None, None) else
  if negb (cli_malloc mem l) then err (None, None) else
  match pairs (Z.to_nat ((newoff - off s + 1) / 2)) (buf s) (off s) with
  | None => lift None
  | Some None => err (None, None)
  | Some (Some d) => _ ← goto newoff; mret (Some d, Some l)
  end.

Definition readString (len : Z) (mem : bool) : reader (option (list Z)) :=
  '(str, stringlen) ← readData len mem;
  s ← get;
  match stringlen with
  | Some n =>
      if rok s && negb (n =? 0) then
        match str with
        | Some d => c ← lift (bget d (n - 1)); if negb (c =? 0) then err None else mret str
        | None => lift None
        end
      else mret str
  | None => if rok s then lift None else mret str
  end.

End BcRead.
Import BcRead.

(** * Hoare triples *)
Module ReaderFacts.

(** From a state in [P], the computation gives a value in [Q], returns a code, or
    is stuck with a fault that [E] admits. *)
Definition triple {A} (E : fault -> Prop) (P : rst -> Prop) (m : reader A) (Q : A -> rst -> Prop) : Prop :=
  forall s, P s -> match m s with Val a s' => Q a s' | Code _ => True | Stuck f => E f end.

Definition never (f : fault) : Prop := False.

Section Triple.
Context (E : fault -> Prop).

Lemma triple_ret {A} (P : rst -> Prop) (a : A) (Q : A -> rst -> Prop) :
  (forall s, P s -> Q a s) -> triple E P (mret a) Q.
Proof. intros H s Hs. apply H, Hs. Qed.

Lemma triple_bind {A B} P (m : reader A) (R : A -> rst -> Prop) (k : A -> reader B) Q :
  triple E P m R -> (forall a, triple E (R a) (k a) Q) -> triple E P (m ≫= k) Q.
Proof.
  intros Hm Hk s Hs. unfold mbind, reader_bind. specialize (Hm s Hs).
  destruct (m s); [by apply (Hk a)|done|done].
Qed.

Lemma triple_conseq {A} (P P' : rst -> Prop) (m : reader A) (Q Q' : A -> rst -> Prop) :
  triple E P' m Q' -> (forall s, P s -> P' s) -> (forall a s, Q' a s -> Q a s) -> triple E P m Q.
Proof.
  intros H HP HQ s Hs. specialize (H s (HP s Hs)). destruct (m s); [by apply HQ|done|done].
Qed.

Lemma triple_code {A} P c (Q : A -> rst -> Prop) : triple E P (code c) Q.
Proof. by intros s _. Qed.

Lemma triple_if {A} P (b : bool) (m1 m2 : reader A) Q :
  (b = true -> triple E P m1 Q) -> (b = false -> triple E P m2 Q) -> triple E P (if b then m1 else m2) Q.
Proof. destruct b; auto. Qed.

Lemma triple_get {A} P (k : rst -> reader A) Q :
  (forall s, P s -> triple E (fun s' => s' = s) (k s) Q) -> triple E P (get ≫= k) Q.
Proof. intros H s Hs. by apply (H s Hs s). Qed.

Lemma triple_check_ok (P : rst -> Prop) c (Q : unit -> rst -> Prop) :
  (forall s, P s -> rok s = true -> Q tt s) -> triple E P (check_ok c) Q.
Proof. intros H s Hs. unfold check_ok. destruct (rok s) eqn:Eo; [by apply H|done]. Qed.

Lemma triple_pre {A} (P : rst -> Prop) (X : Prop) (m : reader A) Q :
  (forall s, P s -> X) -> (X -> triple E P m Q) -> triple E P m Q.
Proof. intros HX H s Hs. by apply (H (HX s Hs)). Qed.

(** A loop keeps an invariant that may mention the values read so far. *)
Lemma triple_times {A} (body : Z -> reader A) (I : nat -> list A -> rst -> Prop) n : forall i l,
  (forall k l, (k < n + length l)%nat -> length l = k ->
     triple E (I k l) (body (i + Z.of_nat k)) (fun a => I (S k) (l ++ [a]))) ->
  triple E (I (length l) l) (times n (i + Z.of_nat (length l)) body)
    (fun l' => I (n + length l)%nat (l ++ l')).
Proof.
  induction n as [|n IH]; intros i l Hb; cbn [times].
  - apply triple_ret. intros s Hs. by rewrite app_nil_r.
  - eapply triple_bind; [apply Hb; [lia|done]|]. intros a. cbn beta.
    eapply triple_bind.
    + specialize (IH i (l ++ [a])). rewrite length_app, Nat.add_1_r in IH. cbn [length] in IH.
      replace (i + Z.of_nat (length l) + 1) with (i + Z.of_nat (S (length l))) by lia.
      eapply IH. intros k l' Hk El. apply Hb; [lia|done].
    + intros l'. apply triple_ret. intros s Hs.
      rewrite <- app_assoc in Hs. rewrite Nat.add_succ_r in Hs. exact Hs.
Qed.
End Triple.

(** ** Lines *)

Definition byte (c : Z) : Prop := 0 <= c < 256.

(** The cursor is inside a terminated line of [len] bytes; a line is shorter than
    the largest allocation. *)
Record line (len : Z) (s : rst) : Prop := {
  line_off : 0 <= off s <= len;
  line_len : len < Z.of_nat (length (buf s));
  line_max : len < 2 ^ 31;
  line_nul : bget (buf s) len = Some 0;
  line_bytes : Forall byte (buf s) }.

(** What a reader does to the cursor: it stays inside the line and does not go
    back; [ok] is never set again, and constants are only added.  A reader that
    succeeds has moved on. *)
Record stays (len : Z) (s s' : rst) : Prop := {
  st_line : line len s';
  st_size : length (buf s') = length (buf s);
  st_off : off s <= off s';
  st_ok : rok s' = true -> rok s = true;
  st_consts : consts s `prefix_of` consts s' }.

Definition moved (len : Z) (s s' : rst) : Prop := stays len s s' /\ (rok s' = true -> off s < off s').

Lemma byte_get b i c : Forall byte b -> bget b i = Some c -> byte c.
Proof.
  intros Hb Hg. pose proof (bget_Some _ _ _ Hg). rewrite bget_lookup in Hg by lia.
  by eapply Forall_lookup_1 in Hg.
Qed.

Lemma line_get len s i : line len s -> 0 <= i <= len -> exists c, bget (buf s) i = Some c /\ byte c.
Proof.
  intros [] Hi. destruct (bget_is_Some (buf s) i ltac:(lia)) as [c Hc]. exists c.
  split; [done|]. by eapply byte_get.
Qed.

Lemma line_set_off len s o : line len s -> 0 <= o <= len -> line len (set_off s o).
Proof. intros [] ?. by split. Qed.

Lemma line_clear_ok len s : line len s -> line len (clear_ok s).
Proof. intros []. by split. Qed.

Lemma stays_refl len s : line len s -> stays len s s.
Proof. intros Hl. split; try done; lia. Qed.

Lemma stays_trans len s1 s2 s3 : stays len s1 s2 -> stays len s2 s3 -> stays len s1 s3.
Proof.
  intros [] []. split; [done|congruence|lia|auto|by etrans].
Qed.

Lemma moved_stays len s s' : moved len s s' -> stays len s s'.
Proof. by intros []. Qed.

Lemma stays_moved len s1 s2 s3 : stays len s1 s2 -> moved len s2 s3 -> moved len s1 s3.
Proof.
  intros H1 [H2 Hm]. split; [by eapply stays_trans|]. intros Ho. pose proof (st_off _ _ _ H1). specialize (Hm Ho). lia.
Qed.

Lemma moved_trans len s1 s2 s3 : moved len s1 s2 -> stays len s2 s3 -> moved len s1 s3.
Proof.
  intros [H1 Hm] H2. split; [by eapply stays_trans|]. intros Ho. pose proof (st_off _ _ _ H2).
  specialize (Hm (st_ok _ _ _ H2 Ho)). lia.
Qed.

Lemma moved_err len s : line len s -> moved len s (clear_ok s).
Proof. intros Hl. split; [|done]. split; [by apply line_clear_ok|done|cbn; lia|done|done]. Qed.

Lemma moved_off len s o : line len s -> off s < o <= len -> moved len s (set_off s o).
Proof.
  intros Hl Ho. pose proof (line_off _ _ Hl).
  split; [|cbn; lia]. split; [apply line_set_off; [done|lia]|done|cbn; lia|done|done].
Qed.

#[local] Hint Resolve stays_refl moved_stays stays_moved moved_trans moved_err st_line : clam.

(** ** Digits *)

(** The low [n] hexadecimal digits of [v], low digit first. *)
Fixpoint encode_digits (n : nat) (v : Z) : list Z :=
  match n with O => [] | S n' => (0x60 + v `mod` 16) :: encode_digits n' (v / 16) end.

Lemma length_encode_digits n : forall v, length (encode_digits n v) = n.
Proof. induction n; intros; cbn; auto. Qed.

Lemma digit_test c : byte c -> (Z.land c 0xf0 =? 0x60) = ((96 <=? c) && (c <? 112)).
Proof.
  intros Hc. rewrite <- (Z2Nat.id c) by (unfold byte in Hc; lia).
  assert (forallb (fun n => Bool.eqb (Z.land (Z.of_nat n) 0xf0 =? 0x60)
    ((96 <=? Z.of_nat n) && (Z.of_nat n <? 112))) (List.seq 0 256) = true) as H by (vm_compute; reflexivity).
  rewrite forallb_forall in H. apply Bool.eqb_prop, H, in_seq. unfold byte in Hc. lia.
Qed.

Lemma lor_shiftl acc x sh : 0 <= sh -> 0 <= acc < 2 ^ sh -> Z.lor acc (Z.shiftl x sh) = acc + x * 2 ^ sh.
Proof.
  intros Hs Ha. rewrite <- Z.shiftl_mul_pow2 by done. rewrite <- Z.add_lor_land.
  replace (Z.land acc (Z.shiftl x sh)) with 0; [lia|]. symmetry. apply Z.bits_inj'. intros i Hi.
  rewrite Z.land_spec, Z.bits_0, Z.shiftl_spec by done. apply andb_false_iff.
  destruct (decide (i < sh)); [right; apply Z.testbit_neg_r; lia|left].
  rewrite <- (Z.mod_small acc (2 ^ sh)) by done. apply Z.mod_pow2_bits_high. lia.
Qed.

Lemma digits_defined n p : forall i sh acc, 0 <= i -> i + Z.of_nat n <= Z.of_nat (length p) ->
  is_Some (digits n p i sh acc).
Proof.
  induction n as [|n IH]; intros i sh acc Hi Hn; cbn [digits]; [eauto|].
  destruct (bget_is_Some p i ltac:(lia)) as [c ->]. destruct (negb _); [eauto|]. apply IH; lia.
Qed.

(** The loop over the digits reads exactly the encodings. *)
Lemma digits_iff n p r : Forall byte p -> forall i sh acc, 0 <= i -> 0 <= sh -> sh + 4 * Z.of_nat n <= 64 ->
  0 <= acc < 2 ^ sh -> i + Z.of_nat n <= Z.of_nat (length p) ->
  digits n p i sh acc = Some (Some r) <->
  exists v, 0 <= v < 16 ^ Z.of_nat n /\ take n (drop (Z.to_nat i) p) = encode_digits n v /\
    r = acc + 2 ^ sh * v.
Proof.
  intros Hp. induction n as [|n IH]; intros i sh acc Hi Hs Hb Ha Hl.
  - cbn. split; [intros [= ->]; exists 0; split; [lia|]; split; [done|lia]|].
    intros (v & Hv & _ & ->). do 2 f_equal. replace v with 0 by lia. lia.
  - cbn [digits]. destruct (bget_is_Some p i ltac:(lia)) as [c Hc]. rewrite Hc.
    pose proof (byte_get _ _ _ Hp Hc) as Hbc. rewrite (digit_test c Hbc).
    assert (drop (Z.to_nat i) p = c :: drop (Z.to_nat (i + 1)) p) as Hd.
    { rewrite bget_lookup in Hc by lia. rewrite (drop_S _ _ _ Hc). do 2 f_equal. lia. }
    rewrite Hd. cbn [take encode_digits]. change 0xf with (2 ^ 4 - 1). rewrite land_mask by lia.
    assert (2 ^ (sh + 4) = 16 * 2 ^ sh) as Hp4 by (rewrite Z.pow_add_r by lia; lia).
    assert (2 ^ (sh + 4) <= 2 ^ 64) by (apply Z.pow_le_mono_r; lia).
    pose proof (Z.mod_pos_bound c 16 ltac:(lia)). change (2 ^ 4) with 16 in *.
    assert (0 < 2 ^ sh) by pow2_pos.
    rewrite (uint_small 64) by (rewrite Z.shiftl_mul_pow2 by done; nia).
    rewrite lor_shiftl by done.
    replace (Z.of_nat (S n)) with (Z.of_nat n + 1) by lia. rewrite Z.pow_add_r, Z.pow_1_r by lia.
    destruct ((96 <=? c) && (c <? 112)) eqn:Ec; cbn [negb].
    + assert (c = 96 + c `mod` 16) as Em by (pose proof (Z.div_mod c 16); lia).
      rewrite IH; [|lia|lia|lia|nia|lia]. split.
      * intros (v & Hv & Ht & ->). exists (c `mod` 16 + 16 * v). split; [lia|]. split.
        { rewrite (Z.mul_comm 16 v), Z.mod_add, Z.div_add, Z.mod_mod by lia.
          rewrite Z.div_small by lia. rewrite Z.add_0_l, <- Em, Ht. done. }
        rewrite Hp4. lia.
      * intros (v & Hv & [= Hc1 Ht] & ->). exists (v / 16). split.
        { split; [apply Z.div_pos; lia|apply Z.div_lt_upper_bound; lia]. }
        split; [done|]. rewrite Hp4. pose proof (Z.div_mod v 16 ltac:(lia)). 
        replace (c `mod` 16) with (v `mod` 16) by lia. nia.
    + split; [done|]. intros (v & Hv & [= Hc1 Ht] & _).
      pose proof (Z.mod_pos_bound v 16 ltac:(lia)). lia.
Qed.

(** ** Numbers *)

(** The encoding of [v] with [n] digits. *)
Definition encode_number (n : nat) (v : Z) : list Z := (0x60 + Z.of_nat n) :: encode_digits n v.

(** The text [l] follows at the cursor. *)
Definition at_text (s : rst) (l : list Z) : Prop := take (length l) (drop (Z.to_nat (off s)) (buf s)) = l.

Lemma readNumber_cases len s : line len s ->
  exists c, bget (buf s) (off s) = Some c /\ byte c /\
    ((c < 96 \/ 112 < c \/ len < off s + (c - 96) + 1) /\ readNumber len s = Val 0 (clear_ok s) \/
     96 <= c <= 112 /\ off s + (c - 96) + 1 <= len /\
     match digits (Z.to_nat (c - 96)) (buf s) (off s + 1) 0 0 with
     | Some (Some v) => readNumber len s = Val v (set_off s (off s + (c - 96) + 1))
     | _ => readNumber len s = Val 0 (clear_ok s)
     end).
Proof.
  intros Hl. pose proof (line_off _ _ Hl). pose proof (line_max _ _ Hl). pose proof (line_len _ _ Hl).
  destruct (line_get _ _ (off s) Hl ltac:(lia)) as (c & Hc & Hb). exists c. split; [done|]. split; [done|].
  unfold readNumber. rewrite Hc. cbv zeta. unfold byte in Hb.
  destruct (decide (c < 96)).
  { left. split; [lia|]. unfold uint. rewrite <- (Z.mod_add (c - 96) 1) by lia. rewrite Z.mod_small by lia.
    by replace (16 <? _) with true by lia. }
  rewrite (uint_small 32 (c - 96)) by lia.
  destruct (Z.ltb_spec 16 (c - 96)); [left; split; [lia|done]|].
  rewrite (uint_small 32) by lia.
  destruct (Z.ltb_spec len (off s + (c - 96) + 1)); [left; split; [lia|done]|].
  right. split; [lia|]. split; [lia|].
  replace (off s + (c - 96) + 1 - (off s + 1)) with (c - 96) by lia.
  destruct (Z.eqb_spec c 96) as [->|]; [done|].
  destruct (digits_defined (Z.to_nat (c - 96)) (buf s) (off s + 1) 0 0) as [[] ->]; [lia|lia|done|done].
Qed.

(** A reader that fails. *)
Ltac reader_err := eexists _, _; split; [eassumption || reflexivity|]; split; [by apply moved_err|lia].

(** What the number readers do to any line. *)
Lemma readNumber_spec len s : line len s ->
  exists v s', readNumber len s = Val v s' /\ moved len s s' /\ 0 <= v < 2 ^ 64.
Proof.
  intros Hl. pose proof Hl as [Ho Hn Hm Hz Hb].
  destruct (readNumber_cases _ _ Hl) as (c & Hc & _ & [[_ E]|(Hr & He & Hd)]); [reader_err|].
  destruct (digits _ _ _ _ _) as [[v|]|] eqn:Ed; [|reader_err..].
  eexists _, _. split; [exact Hd|]. split; [apply moved_off; [done|lia]|].
  apply (digits_iff _ _ _ Hb) in Ed as (x & Hx & _ & ->); [|cbn; lia..].
  assert (16 ^ Z.of_nat (Z.to_nat (c - 96)) <= 16 ^ 16) by (apply Z.pow_le_mono_r; lia). cbn; lia.
Qed.

Lemma readFixedNumber_spec len w s : line len s -> 0 < w <= 8 ->
  exists v s', readFixedNumber len w s = Val v s' /\ moved len s s' /\ 0 <= v < 16 ^ w.
Proof.
  intros Hl Hw. pose proof Hl as [Ho Hn Hm Hz Hb]. assert (0 < 16 ^ w) by (apply Z.pow_pos_nonneg; lia).
  assert (0 <= 0 < 16 ^ w) by lia.
  unfold readFixedNumber. cbv zeta. rewrite (uint_small 32 (off s + w)) by lia.
  destruct (Z.ltb_spec len (off s + w)); [reader_err|].
  replace (off s + w - off s) with w by lia.
  destruct (digits_defined (Z.to_nat w) (buf s) (off s) 0 0) as [r Ed]; [lia|lia|].
  rewrite Ed. destruct r as [v|]; [|reader_err].
  apply (digits_iff _ _ _ Hb) in Ed as (x & Hx & _ & ->); [|cbn; lia..].
  rewrite Z2Nat.id in Hx by lia. assert (16 ^ w <= 16 ^ 8) by (apply Z.pow_le_mono_r; lia).
  eexists _, _. split; [done|]. split; [apply moved_off; [done|lia]|].
  rewrite uint_small by (change (2 ^ 32) with (16 ^ 8); cbn; lia). cbn; lia.
Qed.

(** ** Triples of the readers, relative to the state [s0] at the start *)

Section Readers.
Context (len : Z) (E : fault -> Prop).

Lemma spec_triple {A} (m : reader A) (P : A -> Prop) s0 :
  (forall s, line len s -> exists v s', m s = Val v s' /\ moved len s s' /\ P v) ->
  triple E (stays len s0) m (fun v s => moved len s0 s /\ P v).
Proof.
  intros H s Hs. destruct (H s (st_line _ _ _ Hs)) as (v & s' & -> & Hm & Hv).
  split; [|done]. by eapply stays_moved.
Qed.

Lemma triple_number s0 : triple E (stays len s0) (readNumber len) (fun v s => moved len s0 s /\ 0 <= v < 2 ^ 64).
Proof. apply spec_triple, readNumber_spec. Qed.

Lemma triple_fixed w s0 : 0 < w <= 8 ->
  triple E (stays len s0) (readFixedNumber len w) (fun v s => moved len s0 s /\ 0 <= v < 16 ^ w).
Proof. intros. apply spec_triple. intros. by apply readFixedNumber_spec. Qed.

Lemma triple_err {A} (v : A) s0 : triple E (stays len s0) (err v) (fun _ s => moved len s0 s /\ rok s = false).
Proof.
  intros s Hs. cbn. split; [|done]. eapply stays_moved; [done|]. apply moved_err. by eapply st_line.
Qed.

Lemma triple_peek s0 (Q : Z -> rst -> Prop) :
  (forall s c, stays len s0 s -> bget (buf s) (off s) = Some c -> byte c -> Q c s) ->
  triple E (stays len s0) peek Q.
Proof.
  intros H s Hs. pose proof (line_off _ _ (st_line _ _ _ Hs)).
  destruct (line_get len s (off s) (st_line _ _ _ Hs) ltac:(lia)) as (c & Hc & Hb).
  unfold peek. rewrite Hc. cbn. by apply H.
Qed.

End Readers.

(** ** Operands *)

(** The numbers of the values, then of the constants, or a marked global. *)
Definition operand_ok (numValues numConstants v : Z) : Prop :=
  0 <= v < 2 ^ 32 /\ (v < numValues + numConstants \/ 2 ^ 31 <= v).

Lemma operand_ok_mono nv nc nc' v : operand_ok nv nc v -> nc <= nc' -> operand_ok nv nc' v.
Proof. unfold operand_ok. lia. Qed.

(** Marking a digit keeps the line. *)
Lemma or_byte_spec len s c : line len s -> bget (buf s) (off s) = Some c -> c <> 0 ->
  exists s', or_byte 0x20 s = Val tt s' /\ stays len s s' /\ off s' = off s /\ rok s' = rok s /\
    consts s' = consts s.
Proof.
  intros Hl Hc Hz. pose proof Hl as [Ho Hn Hm Hnul Hb]. pose proof (byte_get _ _ _ Hb Hc) as Hbc.
  pose proof (bget_Some _ _ _ Hc) as Hr.
  assert (off s < len) as Hlt.
  { destruct (decide (off s = len)); [|lia]. congruence. }
  unfold or_byte. rewrite Hc, bset_is_Some by done. eexists. split; [done|]. split; [|done].
  split; cbn; [|by rewrite length_insert|lia|done|done].
  split; cbn; [lia|by rewrite length_insert|done| |].
  - rewrite bget_insert_ne by lia. done.
  - apply Forall_insert; [done|]. unfold byte in *. split; [apply Z.lor_nonneg; lia|].
    destruct (decide (Z.lor c 32 = 0)); [lia|]. apply Z.log2_lt_cancel. 
    rewrite Z.log2_lor by lia. change (Z.log2 256) with 8. change (Z.log2 32) with 5.
    assert (Z.log2 c < 8) by (apply Z.log2_lt_pow2; lia). lia.
Qed.

Lemma push_const_stays len s v : line len s -> stays len s (set_consts s (consts s ++ [v])).
Proof. intros []. split; cbn; [by split|done|lia|done|by apply prefix_app_r]. Qed.

Lemma realloc_limit mem n : cli_realloc mem ((n + 1) * 8) = true -> n < 2 ^ 25.
Proof. unfold cli_realloc, CLI_MAX_ALLOCATION. destruct (_ || _) eqn:E; [done|]. intros _. change (2 ^ 25) with 33554432. lia. Qed.

Lemma global_mark v : 2 ^ 31 <= uint 32 (Z.lor 0x80000000 v) < 2 ^ 32.
Proof.
  pose proof (uint_range 32 (Z.lor 0x80000000 v) ltac:(lia)) as Hr. split; [|apply Hr].
  destruct (Z.lt_ge_cases (uint 32 (Z.lor 0x80000000 v)) (2 ^ 31)) as [Hlt|]; [exfalso|done].
  assert (Z.testbit (uint 32 (Z.lor 0x80000000 v)) 31 = true) as Ht.
  { unfold uint. rewrite Z.mod_pow2_bits_low, Z.lor_spec by lia. done. }
  rewrite <- (Z.mod_small (uint 32 (Z.lor 0x80000000 v)) (2 ^ 31)) in Ht by lia.
  rewrite Z.mod_pow2_bits_high in Ht by lia. done.
Qed.

Lemma readOperand_spec len mem nv s : line len s -> 0 <= nv < 2 ^ 17 ->
  exists v s', readOperand len mem nv s = Val v s' /\ moved len s s' /\
    (rok s' = true -> operand_ok nv (Z.of_nat (length (consts s'))) v).
Proof.
  intros Hl Hnv. change (2 ^ 17) with 131072 in Hnv. pose proof (line_off _ _ Hl).
  destruct (line_get len s (off s) Hl ltac:(lia)) as (c & Hc & Hb).
  unfold readOperand, peek, mbind, reader_bind, lift. rewrite Hc. cbv zeta.
  destruct ((Z.land c 0xf0 =? 0x40) || (c =? 0x50)) eqn:Et.
  - assert (c <> 0) by (intros ->; done).
    destruct (or_byte_spec len s c Hl Hc) as (s1 & -> & Hs1 & Ho1 & Hk1 & Hc1); [done|].
    cbn [get]. destruct (cli_realloc _ _) eqn:Ea; cbn [negb];
      [|eexists _, _; split; [done|]; split; [|done]; eapply stays_moved; [done|]; apply moved_err; by eapply st_line].
    apply realloc_limit in Ea. change (2 ^ 25) with 33554432 in Ea.
    destruct (readNumber_spec len s1) as (v & s2 & -> & Hm2 & Hv); [by eapply st_line|].
    destruct (readFixedNumber_spec len 1 s2) as (n & s3 & -> & Hm3 & Hn); [by eapply st_line, moved_stays|lia|].
    assert (moved len s s3) as Hm.
    { eapply moved_trans; [by eapply stays_moved|]. by apply moved_stays. }
    destruct (8 * n =? 0) eqn:En.
    + eexists _, _. split; [done|]. split; [done|]. intros _. unfold operand_ok.
      pose proof (global_mark v). lia.
    + cbn. eexists _, _. split; [done|]. split.
      { eapply moved_trans; [done|]. apply push_const_stays. by eapply st_line, moved_stays. }
      intros _. cbn [consts set_consts]. rewrite length_app. cbn [length].
      pose proof (prefix_length _ _ (st_consts _ _ _ (moved_stays _ _ _ (moved_trans _ _ _ _ Hm2 (moved_stays _ _ _ Hm3))))).
      unfold operand_ok. rewrite (uint_small 32) by (change (2 ^ 32) with 4294967296; lia). split; [|left]; lia.
  - destruct (readNumber_spec len s) as (v & s1 & -> & Hm & Hv); [done|]. cbn [get].
    destruct (rok s1) eqn:Ek; cbn [negb]; [|eexists _, _; split; [done|]; split; [done|congruence]].
    destruct (Z.leb_spec nv v).
    + eexists _, _. split; [done|]. split; [|done]. eapply moved_trans; [done|].
      apply moved_stays, moved_err. by eapply st_line, moved_stays.
    + eexists _, _. split; [done|]. split; [done|]. intros _. unfold operand_ok. lia.
Qed.

(** ** Data *)

(** Two digits for each byte, low digit first. *)
Definition encode_bytes (d : list Z) : list Z := flat_map (fun b => [0x60 + b `mod` 16; 0x60 + b / 16]) d.

Lemma length_encode_bytes d : length (encode_bytes d) = (2 * length d)%nat.
Proof. unfold encode_bytes. induction d as [|b d IH]; cbn [flat_map]; [done|]. rewrite length_app, IH. cbn. lia. Qed.

Lemma pairs_defined n p : forall i, 0 <= i -> i + 2 * Z.of_nat n <= Z.of_nat (length p) -> is_Some (pairs n p i).
Proof.
  induction n as [|n IH]; intros i Hi Hn; cbn [pairs]; [eauto|].
  destruct (bget_is_Some p i ltac:(lia)) as [c ->]. destruct (bget_is_Some p (i + 1) ltac:(lia)) as [c' ->].
  destruct (_ || _); [eauto|]. destruct (IH (i + 2) ltac:(lia) ltac:(lia)) as [r ->]. eauto.
Qed.

Lemma pair_byte c c' : byte c -> byte c' ->
  (Z.land c 0xf0 =? 0x60) = true -> (Z.land c' 0xf0 =? 0x60) = true ->
  exists b, byte b /\ c = 0x60 + b `mod` 16 /\ c' = 0x60 + b / 16 /\
    Z.lor (Z.land c 0xf) (Z.shiftl (Z.land c' 0xf) 4) = b.
Proof.
  intros Hc Hc'. rewrite !digit_test by done. intros H1 H2. unfold byte in *.
  change 0xf with (2 ^ 4 - 1). rewrite !land_mask by lia. change (2 ^ 4) with 16.
  rewrite lor_shiftl by (try done; apply Z.mod_pos_bound; lia).
  pose proof (Z.div_mod c 16 ltac:(lia)). pose proof (Z.div_mod c' 16 ltac:(lia)).
  pose proof (Z.mod_pos_bound c 16 ltac:(lia)). pose proof (Z.mod_pos_bound c' 16 ltac:(lia)).
  eexists. split; [|split; [|split; [|done]]]; [lia| |].
  - rewrite Z.mod_add, Z.mod_mod by lia. lia.
  - rewrite Z.div_add, Z.div_small by lia. lia.
Qed.

(** The loop over the pairs reads exactly the encodings. *)
Lemma pairs_iff n p d : Forall byte p -> forall i, 0 <= i -> i + 2 * Z.of_nat n <= Z.of_nat (length p) ->
  pairs n p i = Some (Some d) <->
  length d = n /\ Forall byte d /\ take (2 * n) (drop (Z.to_nat i) p) = encode_bytes d.
Proof.
  intros Hp. revert d. induction n as [|n IH]; intros d i Hi Hn; cbn [pairs].
  - cbn. split; [by intros [= <-]|]. intros (Hd & _ & _). by destruct d.
  - destruct (bget_is_Some p i ltac:(lia)) as [c Hc]. destruct (bget_is_Some p (i + 1) ltac:(lia)) as [c' Hc'].
    rewrite Hc, Hc'. pose proof (byte_get _ _ _ Hp Hc) as Hb. pose proof (byte_get _ _ _ Hp Hc') as Hb'.
    rewrite (drop_bget p i c), (drop_bget p (i + 1) c') by (done || lia).
    replace (2 * S n)%nat with (S (S (2 * n))) by lia. cbn [take].
    replace (i + 1 + 1) with (i + 2) by lia.
    destruct (_ || _) eqn:Ed.
    + split; [done|]. intros (Hd & Hf & Ht). exfalso. destruct d as [|b d]; [done|].
      unfold encode_bytes in Ht. cbn [flat_map app] in Ht. injection Ht as -> -> _. apply Forall_cons_1 in Hf as [Hbb _].
      rewrite !digit_test in Ed by done. unfold byte in Hbb.
      pose proof (Z.mod_pos_bound b 16 ltac:(lia)). assert (0 <= b / 16 < 16); [|lia].
      split; [apply Z.div_pos; lia|apply Z.div_lt_upper_bound; lia].
    + apply orb_false_iff in Ed as [E1%negb_false_iff E2%negb_false_iff].
      destruct (pair_byte c c' Hb Hb' E1 E2) as (b & Hbb & Ec & Ec' & Eb). rewrite Eb.
      destruct (pairs_defined n p (i + 2)) as [r Er]; [lia|lia|]. rewrite Er. split.
      * destruct r as [l|]; [|done]. intros [= <-]. apply IH in Er as (Hl & Hf & Ht); [|lia|lia].
        split; [cbn; by f_equal|]. split; [by constructor|]. rewrite Ht. unfold encode_bytes. cbn [flat_map app]. by rewrite <- Ec, <- Ec'.
      * intros (Hd & Hf & Ht). destruct d as [|b' d]; [done|]. apply Forall_cons_1 in Hf as [Hb2 Hf].
        unfold encode_bytes in Ht. cbn [flat_map app] in Ht. injection Ht as H1 H2 Ht.
        assert (r = Some d) as ->.
        { assert (pairs n p (i + 2) = Some (Some d)) by (apply IH; [lia|lia|]; split; [by injection Hd|done]). congruence. }
        do 3 f_equal. pose proof (Z.div_mod b 16 ltac:(lia)). pose proof (Z.div_mod b' 16 ltac:(lia)). lia.
Qed.

Lemma malloc_limit mem n : cli_malloc mem n = true -> n < 2 ^ 28.
Proof. unfold cli_malloc, CLI_MAX_ALLOCATION. destruct (_ || _) eqn:E; [done|]. intros _. change (2 ^ 28) with 268435456. lia. Qed.

(** What [readData] does to any line. *)
Lemma readData_spec len mem s : line len s ->
  exists r s', readData len mem s = Val r s' /\ moved len s s' /\
    (rok s' = true -> r = (None, Some 0) \/ exists d, r = (Some d, Some (Z.of_nat (length d))) /\ d <> [] /\ Forall byte d).
Proof.
  intros Hl. pose proof (line_off _ _ Hl). pose proof (line_max _ _ Hl).
  destruct (line_get len s (off s) Hl ltac:(lia)) as (c & Hc & Hb).
  assert (forall s1, stays len s s1 -> exists r s', Val (@None (list Z), @None Z) (clear_ok s1) = Val r s' /\ moved len s s' /\
    (rok s' = true -> r = (None, Some 0) \/ exists d, r = (Some d, Some (Z.of_nat (length d))) /\ d <> [] /\ Forall byte d)) as Herr.
  { intros s1 Hs1. eexists _, _. split; [done|]. split; [|done]. eapply stays_moved; [done|]. apply moved_err. by eapply st_line. }
  unfold readData, peek, mbind, reader_bind, lift. rewrite Hc.
  destruct (Z.eqb_spec c 124) as [->|]; cbn [negb]; [|apply Herr; by apply stays_refl].
  assert (off s < len).
  { destruct (decide (off s = len)); [|lia]. pose proof (line_nul _ _ Hl). congruence. }
  unfold skip. rewrite (uint_small 32) by lia.
  pose proof (moved_off len s (off s + 1) Hl ltac:(lia)) as Hm1. set (s1 := set_off s (off s + 1)) in *.
  destruct (readNumber_spec len s1) as (v & s2 & -> & Hm2 & Hv); [by eapply st_line, moved_stays|].
  assert (moved len s s2) as Hm12 by (eapply moved_trans; [done|by apply moved_stays]).
  destruct (uint 32 v =? 0) eqn:E0.
  { eexists _, _. split; [done|]. split; [done|]. intros _. left. do 2 f_equal. lia. }
  cbn [get]. cbv zeta. pose proof (st_line _ _ _ (moved_stays _ _ _ Hm12)) as Hl2. pose proof (line_off _ _ Hl2).
  destruct (len <? _) eqn:Elen; [apply Herr; by apply moved_stays|].
  destruct (cli_malloc mem (uint 32 v)) eqn:Ea; cbn [negb]; [|apply Herr; by apply moved_stays].
  apply malloc_limit in Ea. pose proof (uint_range 32 v ltac:(lia)).
  change (2 ^ 28) with 268435456 in Ea. rewrite (uint_small 32 (off s2 + _)) in Elen |- * by lia.
  set (l := uint 32 v) in *. replace ((off s2 + 2 * l - off s2 + 1) / 2) with l
    by (replace (off s2 + 2 * l - off s2 + 1) with (1 + l * 2) by lia; rewrite Z.div_add by lia; done).
  pose proof (line_len _ _ Hl2).
  destruct (pairs_defined (Z.to_nat l) (buf s2) (off s2)) as [r Er]; [lia|lia|]. rewrite Er.
  destruct r as [d|]; [|apply Herr; by apply moved_stays].
  unfold goto. cbn. eexists _, _. split; [done|]. split.
  { eapply moved_trans; [done|]. apply moved_stays, moved_off; [done|lia]. }
  intros _. right. exists d. apply pairs_iff in Er as (Hd & Hf & _); [|apply Hl2|lia|lia].
  split; [do 2 f_equal; lia|]. split; [|done]. intros ->. cbn in Hd. lia.
Qed.

Lemma readString_spec len mem s : line len s ->
  exists r s', readString len mem s = Val r s' /\ moved len s s'.
Proof.
  intros Hl. destruct (readData_spec len mem s Hl) as ([str n] & s1 & E & Hm & Hr).
  unfold readString, mbind, reader_bind. rewrite E. cbn [get].
  destruct (rok s1) eqn:Ek; cbn [andb].
  - destruct (Hr eq_refl) as [[= -> ->]|(d & [= -> ->] & Hd & _)]; [by eauto|].
    destruct (negb _); [|by eauto].
    destruct (bget_is_Some d (Z.of_nat (length d) - 1)) as [c Ec]; [destruct d; [done|cbn; lia]|].
    unfold lift. rewrite Ec. destruct (negb _); [|by eauto]. eexists _, _. split; [done|].
    eapply moved_trans; [done|]. apply moved_stays, moved_err. by eapply st_line, moved_stays.
  - destruct n; by eauto.
Qed.

Lemma readID_spec len (bad : Z -> bool) s : line len s ->
  exists v s', (n ← readNumber len; s ← get;
    if rok s && bad (uint 16 (n - 1)) then err (2 ^ 16 - 1) else mret (uint 16 (n - 1))) s = Val v s' /\
    moved len s s' /\ (rok s' = true -> bad v = false /\ 0 <= v < 2 ^ 16).
Proof.
  intros Hl. destruct (readNumber_spec len s Hl) as (v & s1 & E & Hm & Hv).
  unfold mbind, reader_bind. rewrite E. cbn [get].
  destruct (rok s1 && bad (uint 16 (v - 1))) eqn:Eb; eexists _, _; (split; [done|]).
  - split; [|done]. eapply moved_trans; [done|]. apply moved_stays, moved_err. by eapply st_line, moved_stays.
  - split; [done|]. intros Hk. rewrite Hk in Eb. split; [done|]. apply uint_range. lia.
Qed.

Lemma readFuncID_spec len num_func s : line len s ->
  exists v s', readFuncID len num_func s = Val v s' /\ moved len s s' /\ (rok s' = true -> 0 <= v < num_func).
Proof.
  intros Hl. destruct (readID_spec len (fun id => num_func <=? id) s Hl) as (v & s' & E & Hm & Hv).
  exists v, s'. split; [exact E|]. split; [done|]. intros Hk. specialize (Hv Hk). lia.
Qed.

Lemma readAPIFuncID_spec len apis s : line len s ->
  exists v s', readAPIFuncID len apis s = Val v s' /\ moved len s s' /\
    (rok s' = true -> apis v = true /\ 0 <= v < 2 ^ 16).
Proof.
  intros Hl. destruct (readID_spec len (fun id => negb (apis id)) s Hl) as (v & s' & E & Hm & Hv).
  exists v, s'. split; [exact E|]. split; [done|]. intros Hk. destruct (Hv Hk) as [?%negb_false_iff ?]. done.
Qed.

End ReaderFacts.

(** * Round trips and bounds *)
Module BcReadProps.
Import ReaderFacts.

Lemma at_text_cons s c l : 0 <= off s -> bget (buf s) (off s) = Some c ->
  at_text s (c :: l) <-> take (length l) (drop (Z.to_nat (off s + 1)) (buf s)) = l.
Proof.
  intros Ho Hc. unfold at_text. rewrite (drop_bget _ _ c) by done. cbn [length take].
  split; [by intros [= ?]|by intros ->].
Qed.

Lemma at_text_get s c l : at_text s (c :: l) -> 0 <= off s -> bget (buf s) (off s) = Some c.
Proof.
  unfold at_text. intros Ht Ho. rewrite bget_lookup by done.
  destruct (drop (Z.to_nat (off s)) (buf s)) as [|x r] eqn:E; [done|]. cbn in Ht. injection Ht as -> _.
  rewrite <- (Nat.add_0_r (Z.to_nat (off s))), <- lookup_drop, E. done.
Qed.

Lemma at_text_app s l1 l2 : 0 <= off s -> at_text s (l1 ++ l2) ->
  at_text s l1 /\ at_text (set_off s (off s + Z.of_nat (length l1))) l2.
Proof.
  unfold at_text. intros Ho Ht. cbn [off buf set_off].
  replace (Z.to_nat (off s + Z.of_nat (length l1))) with (Z.to_nat (off s) + length l1)%nat by lia.
  rewrite <- drop_drop. set (r := drop (Z.to_nat (off s)) (buf s)) in *. rewrite length_app in Ht.
  assert (length l1 + length l2 <= length r)%nat as Hr.
  { apply (f_equal length) in Ht. rewrite length_take, length_app in Ht. lia. }
  rewrite <- (take_drop (length l1) r) in Ht. rewrite take_app_add' in Ht by (rewrite length_take; lia).
  apply app_inj_1 in Ht; [done|]. rewrite length_take. lia.
Qed.

(** An encoded number is read back. *)
Lemma readNumber_encode len s n v : line len s -> (n <= 16)%nat -> 0 <= v < 16 ^ Z.of_nat n ->
  at_text s (encode_number n v) -> off s + Z.of_nat n + 1 <= len ->
  readNumber len s = Val v (set_off s (off s + Z.of_nat n + 1)).
Proof.
  intros Hl Hn16 Hv Ht He. pose proof Hl as [Ho Hn Hm Hz Hb]. unfold encode_number in Ht.
  destruct (readNumber_cases _ _ Hl) as (c & Hc & Hbc & Hcase).
  pose proof (at_text_get _ _ _ Ht ltac:(lia)) as Hc'.
  assert (c = 96 + Z.of_nat n) as -> by congruence.
  destruct Hcase as [[Hbad _]|(Hr & _ & Hd)]; [lia|].
  apply at_text_cons in Ht; [|lia|done]. rewrite length_encode_digits in Ht.
  replace (96 + Z.of_nat n - 96) with (Z.of_nat n) in Hd by lia. rewrite Nat2Z.id in Hd.
  assert (digits n (buf s) (off s + 1) 0 0 = Some (Some v)) as Ed.
  { apply (digits_iff n (buf s) v Hb); [lia|lia|lia|cbn; lia|lia|]. exists v. split; [done|]. split; [done|cbn; lia]. }
  by rewrite Ed in Hd.
Qed.

(** C32. Numbers are read back.  From a terminated line, [readNumber] succeeds with
    the value [v] exactly if the line has at the cursor the encoding of [v] with
    some number of at most 16 digits, and the cursor is then behind it: every
    64-bit value has an encoding that is read back, and nothing else is read. *)
Theorem readNumber_roundtrip len s v s' : line len s -> rok s = true ->
  (readNumber len s = Val v s' /\ rok s' = true) <->
  exists n, (n <= 16)%nat /\ 0 <= v < 16 ^ Z.of_nat n /\ at_text s (encode_number n v) /\
    off s + Z.of_nat n + 1 <= len /\ s' = set_off s (off s + Z.of_nat n + 1).
Proof.
  intros Hl Hk. pose proof Hl as [Ho Hn Hm Hz Hb]. split.
  - destruct (readNumber_cases _ _ Hl) as (c & Hc & Hbc & Hcase). unfold encode_number.
    intros [E Hk']. destruct Hcase as [[_ E']|(Hr & He & Hd)]; [rewrite E' in E; by injection E as <- <-|].
    destruct (digits _ _ _ _ _) as [[x|]|] eqn:Ed; rewrite Hd in E; injection E as <- <-; [|done|done].
    apply (digits_iff _ _ _ Hb) in Ed as (y & Hy & Ht & ->); [|cbn; lia..].
    exists (Z.to_nat (c - 96)). split; [lia|]. rewrite Z2Nat.id in * by lia. change (2 ^ 0) with 1.
    rewrite Z.mul_1_l, Z.add_0_l. split; [done|]. split; [|by split].
    replace (96 + (c - 96)) with c by lia. apply at_text_cons; [lia|done|]. by rewrite length_encode_digits.
  - intros (n & Hn16 & Hv & Ht & He & ->). split; [by apply readNumber_encode|done].
Qed.

(** Encoded data is read back. *)
Lemma readData_encode len s d n : line len s ->
  Forall byte d -> d <> [] -> Z.of_nat (length d) <= CLI_MAX_ALLOCATION ->
  (n <= 16)%nat -> Z.of_nat (length d) < 16 ^ Z.of_nat n ->
  at_text s (124 :: encode_number n (Z.of_nat (length d)) ++ encode_bytes d) ->
  off s + 2 + Z.of_nat n + 2 * Z.of_nat (length d) <= len ->
  readData len true s = Val (Some d, Some (Z.of_nat (length d)))
    (set_off s (off s + 2 + Z.of_nat n + 2 * Z.of_nat (length d))).
Proof.
  intros Hl Hd Hne Hmax Hn16 Hlt Ht He. pose proof Hl as [Ho Hn Hm Hz Hb].
  pose proof (at_text_get _ _ _ Ht ltac:(lia)) as Hc. unfold CLI_MAX_ALLOCATION in Hmax.
  assert (0 < Z.of_nat (length d)) as Hpos by (destruct d; [done|cbn; lia]).
  apply at_text_cons in Ht; [|lia|done].
  set (s1 := set_off s (off s + 1)). apply (at_text_app s1) in Ht as [Ht1 Ht2]; [|cbn; lia].
  unfold encode_number in Ht2. cbn [length] in Ht2. rewrite length_encode_digits in Ht2.
  set (s2 := set_off s1 (off s1 + Z.of_nat n + 1)).
  assert (readNumber len s1 = Val (Z.of_nat (length d)) s2) as En.
  { apply readNumber_encode; [apply line_set_off; [done|lia]|done|lia|done|cbn; lia]. }
  assert (pairs (length d) (buf s) (off s2) = Some (Some d)) as Ep.
  { apply pairs_iff; [done|cbn; lia|cbn; lia|]. split; [done|]. split; [done|].
    unfold at_text in Ht2. rewrite length_encode_bytes in Ht2. rewrite <- Ht2. do 2 f_equal. cbn. lia. }
  unfold readData, peek, mbind, reader_bind, lift. rewrite Hc. cbn [Z.eqb negb Pos.eqb]. unfold skip.
  rewrite (uint_small 32) by lia. fold s1. rewrite En. cbn [get]. cbv zeta.
  rewrite (uint_small 32 (Z.of_nat (length d))) by lia. replace (Z.of_nat (length d) =? 0) with false by lia.
  rewrite (uint_small 32) by (cbn; lia).
  replace (len <? off s2 + 2 * Z.of_nat (length d)) with false by (cbn; lia).
  unfold cli_malloc, CLI_MAX_ALLOCATION. replace (Z.of_nat (length d) =? 0) with false by lia.
  replace (184549376 <? Z.of_nat (length d)) with false by lia. cbn [orb negb].
  replace (Z.to_nat _) with (length d)
    by (replace (off s2 + 2 * Z.of_nat (length d) - off s2 + 1) with (1 + Z.of_nat (length d) * 2) by lia;
        rewrite Z.div_add by lia; change (1 / 2) with 0; lia).
  change (buf s2) with (buf s). rewrite Ep. cbn. do 2 f_equal. lia.
Qed.

(** Data is read back.  A line that has at the cursor the encoding of a
    sequence of bytes (the mark, its length, two digits for each byte), short
    enough for an allocation, is read by [readData] as that sequence, and the
    cursor is then behind it; so is its text by [readString] if it ends with the
    terminator 0. *)
Theorem readData_roundtrip len s d n : line len s ->
  Forall byte d -> d <> [] -> Z.of_nat (length d) <= CLI_MAX_ALLOCATION ->
  (n <= 16)%nat -> Z.of_nat (length d) < 16 ^ Z.of_nat n ->
  at_text s (124 :: encode_number n (Z.of_nat (length d)) ++ encode_bytes d) ->
  off s + 2 + Z.of_nat n + 2 * Z.of_nat (length d) <= len ->
  let s' := set_off s (off s + 2 + Z.of_nat n + 2 * Z.of_nat (length d)) in
  readData len true s = Val (Some d, Some (Z.of_nat (length d))) s' /\
  (last d = Some 0 -> readString len true s = Val (Some d) s').
Proof.
  intros Hl Hd Hne Hmax Hn16 Hlt Ht He s'.
  pose proof (readData_encode len s d n Hl Hd Hne Hmax Hn16 Hlt Ht He) as ED. fold s' in ED.
  split; [done|]. intros Hlast. unfold readString, mbind, reader_bind. rewrite ED. cbn [get].
  assert (0 < Z.of_nat (length d)) by (destruct d; [done|cbn; lia]).
  replace (Z.of_nat (length d) =? 0) with false by lia. cbn [negb]. rewrite andb_true_r.
  destruct (rok s'); [|done]. unfold lift. rewrite bget_lookup by lia.
  replace (Z.to_nat (Z.of_nat (length d) - 1)) with (pred (length d)) by lia.
  rewrite <- last_lookup, Hlast. done.
Qed.

(** C33. The readers stay inside the line.  From any terminated line, whatever
    bytes it holds, each reader ends without an access outside the line and
    leaves the cursor inside it; a reader that does not clear [ok] has moved the
    cursor on. *)
Theorem readers_in_bounds len mem num_func numValues apis w s : line len s ->
  0 < w <= 8 -> 0 <= numValues < 2 ^ 17 ->
  (exists v s', readNumber len s = Val v s' /\ moved len s s') /\
  (exists v s', readFixedNumber len w s = Val v s' /\ moved len s s') /\
  (exists v s', readFuncID len num_func s = Val v s' /\ moved len s s') /\
  (exists v s', readAPIFuncID len apis s = Val v s' /\ moved len s s') /\
  (exists v s', readOperand len mem numValues s = Val v s' /\ moved len s s') /\
  (exists r s', readData len mem s = Val r s' /\ moved len s s') /\
  (exists r s', readString len mem s = Val r s' /\ moved len s s').
Proof.
  intros Hl Hw Hv.
  destruct (readNumber_spec len s Hl) as (? & ? & ? & ? & ?).
  destruct (readFixedNumber_spec len w s Hl Hw) as (? & ? & ? & ? & ?).
  destruct (readFuncID_spec len num_func s Hl) as (? & ? & ? & ? & ?).
  destruct (readAPIFuncID_spec len apis s Hl) as (? & ? & ? & ? & ?).
  destruct (readOperand_spec len mem numValues s Hl Hv) as (? & ? & ? & ? & ?).
  destruct (readData_spec len mem s Hl) as (? & ? & ? & ? & ?).
  destruct (readString_spec len mem s Hl) as (? & ? & ? & ?).
  repeat split; eauto.
Qed.

(** ** A line *)

(** The string ab, and the number 0x2a, in a line of 13 bytes. *)
Definition text : list Z :=
  [124; 0x61; 0x63; 0x61; 0x66; 0x62; 0x66; 0x60; 0x60; 0x62; 0x6a; 0x62; 120; 0].
Definition at_start (o : Z) : rst := {| buf := text; off := o; rok := true; consts := [] |}.

Lemma text_line o : 0 <= o <= 13 -> line 13 (at_start o).
Proof.
  intros Ho. split; [done|cbn; lia|lia|done|]. cbn. repeat (constructor; [unfold byte; lia|]). constructor.
Qed.

Lemma readNumber_roundtrip_witness : readNumber 13 (at_start 9) = Val 42 (at_start 12) /\ true = true.
Proof.
  apply (proj2 (readNumber_roundtrip 13 (at_start 9) 42 (at_start 12) (text_line 9 ltac:(lia)) eq_refl)).
  exists 2%nat. repeat split; cbn; lia.
Defined.

Lemma readData_roundtrip_witness : readString 13 true (at_start 0) = Val (Some [97; 98; 0]) (at_start 9).
Proof.
  apply (readData_roundtrip 13 (at_start 0) [97; 98; 0] 1 (text_line 0 ltac:(lia)));
    [repeat constructor; unfold byte; lia|done|cbn; unfold CLI_MAX_ALLOCATION; lia|lia|cbn; lia|done|cbn; lia|done].
Defined.

Lemma readers_in_bounds_witness : exists v s', readOperand 13 true 7 (at_start 12) = Val v s' /\ moved 13 (at_start 12) s'.
Proof.
  apply (readers_in_bounds 13 true 1 7 (fun _ => true) 1 (at_start 12)); [apply text_line|..]; lia.
Defined.

End BcReadProps.
