(* ===== verification/BcLoad.v ===== *)
(** The bytecode loader of libclamav/bytecode.c: the parts of a bytecode file and
    [cli_bytecode_load].

    A failed load returns a code and leaves a partly filled [struct cli_bc] that is
    only freed, so the parsing functions return what they store, or the code. *)
From stdpp Require Import base numbers list list_numbers gmap.
From Stdlib Require Import ZArith Lia Bool.
From S2P Require Import Prelude Bitset VmCore VmExec BcRead.
Import Errors Alloc Bitset Reader BcRead VmArith.
Local Open Scope Z_scope.

(** * Data *)
Module BcData.

#[export] Instance opcode_eq_dec : EqDecision opcode.
Proof. solve_decision. Defined.

(** The level of the signatures this library supports, [cl_retflevel()]. *)
Definition CL_FLEVEL : Z := 53.

(** [enum derived_t] and [struct cli_bc_type]. *)
Inductive derived_t := DFunctionType | DPointerType | DStructType | DPackedStructType | DArrayType.

#[export] Instance derived_t_eq_dec : EqDecision derived_t.
Proof. solve_decision. Defined.

Record cli_bc_type := {
  tkind : derived_t; containedTypes : list Z; numElements : Z; size : Z; align : Z }.

(** A type in fresh, zeroed memory. *)
Definition no_type : cli_bc_type :=
  {| tkind := DFunctionType; containedTypes := []; numElements := 0; size := 0; align := 0 |}.

(** [struct bytecode_metadata] and the other fields the header gives. *)
Record header := {
  formatlevel : Z; timestamp : Z; sigmaker : option (list Z); targetExclude : Z; bkind : Z;
  minfunc : Z; maxfunc : Z; maxresource : Z; compiler : option (list Z);
  num_types : Z; num_func : Z; linelength : Z }.

(** [struct cli_bc_dbgnode_element]: a string, a constant of some width, or the
    number of a node. *)
Inductive dbgelement := DbgString (s : option (list Z)) (n : option Z) | DbgConst (n c : Z) | DbgNode (id : Z).

(** [struct cli_bc_func] while it is loaded: [allinsts] are the instructions
    stored so far ([insn_idx] of the [numInsts] declared ones), [BBs] the first
    instruction and the number of instructions of each block. *)
Record lfunc := {
  f_numArgs : Z; f_numLocals : Z; f_numInsts : Z; f_numBB : Z; f_returnType : Z; f_types : list Z;
  allinsts : list VmExec.inst; BBs : list (Z * Z); f_constants : list Z; f_dbgnodes : option (list Z) }.

Definition f_numValues (f : lfunc) : Z := f_numArgs f + f_numLocals f.
Definition insn_idx (f : lfunc) : Z := Z.of_nat (length (allinsts f)).

(** [struct cli_bc]. *)
Record cli_bc := {
  hdr : header; types : list cli_bc_type; start_tid : Z; uses_apis : option bitset_t;
  globals : list (list Z); globaltys : list Z; lfuncs : list lfunc; lsig : option (list Z);
  dbgnodes : list (list dbgelement) }.

Definition num_globals (bc : cli_bc) : Z := Z.of_nat (length (globals bc)).

(** [typesize] and [typealign]: undefined for a type that is not in the table. *)
Definition typesize (types : list cli_bc_type) (type : Z) : option Z :=
  let type := Z.land type 0x7fff in
  if type =? 0 then Some 0
  else if type <=? 8 then Some 1
  else if type <=? 16 then Some 2
  else if type <=? 32 then Some 4
  else if type <=? 64 then Some 8
  else let* ty := bget types (type - 65) in Some (size ty).

Definition typealign (types : list cli_bc_type) (type : Z) : option Z :=
  let type := Z.land type 0x7fff in
  if type <=? 64 then
    let* size := typesize types type in Some (if negb (size =? 0) then size else 1)
  else let* ty := bget types (type - 65) in Some (align ty).

Definition BC_START_TID : Z := 69.
Definition NUM_STATIC_TYPES : Z := 4.

End BcData.
Import BcData.

Module BcLoad.

(** Loops that end when [i] reaches [n]; the fuel bounds the number of rounds. *)
Fixpoint for_loop {A} (fuel : nat) (i n : Z) (body : Z -> reader A) : reader (list A) :=
  if n <=? i then mret [] else
  match fuel with
  | O => fun _ => Stuck Forever
  | S f => x ← body i; l ← for_loop f (i + 1) n body; mret (x :: l)
  end.

(** The bytes before the first 0. *)
Fixpoint cstring (l : list Z) : list Z :=
  match l with [] => [] | c :: l => if c =? 0 then [] else c :: cstring l end.

Definition strlen (l : list Z) : Z := Z.of_nat (length (cstring l)).

Section Load.
(** Whether the C library has memory. *)
Variable mem : bool.

(** ** Header *)

(** [strtol(s, &pos, 10)]: the value and the number of bytes used. *)
Fixpoint strtol_digits (l : list Z) (acc n : Z) : Z * Z :=
  match l with
  | c :: l' => if (48 <=? c) && (c <=? 57) then strtol_digits l' (acc * 10 + (c - 48)) (n + 1) else (acc, n)
  | [] => (acc, n)
  end.

Fixpoint strtol_space (l : list Z) (n : Z) : list Z * Z :=
  match l with
  | c :: l' => if (c =? 32) || ((9 <=? c) && (c <=? 13)) then strtol_space l' (n + 1) else (l, n)
  | [] => ([], n)
  end.

Definition strtol (l : list Z) : Z * Z :=
  let '(l, n) := strtol_space l 0 in
  let '(neg, l, n) := match l with
    | 43 :: l' => (false, l', n + 1) | 45 :: l' => (true, l', n + 1) | _ => (false, l, n) end in
  let '(v, m) := strtol_digits l 0 n in
  if m =? n then (0, 0)
  else (if neg then Z.max (- v) (- 2 ^ 63) else Z.min v (2 ^ 63 - 1), m).

Definition BC_HEADER : list Z := [67; 108; 97; 109; 66; 67].
Definition BC_FORMAT_096 : Z := 6.
Definition BC_FORMAT_LEVEL : Z := 7.

(** [flevel] is [cl_retflevel()]. *)
Definition parseHeader (flevel len : Z) : reader header :=
  s ← get;
  if negb (bool_decide (take 6 (buf s) = BC_HEADER)) then code CL_EMALFDB else
  _ ← goto 6;
  formatlevel ← readNumber len;
  let formatlevel := uint 32 formatlevel in
  _ ← check_ok CL_EMALFDB;
  if negb (formatlevel =? BC_FORMAT_096) && negb (formatlevel =? BC_FORMAT_LEVEL) then code CL_BREAK else
  timestamp ← readNumber len;
  sigmaker ← readString len mem;
  targetExclude ← readNumber len;
  kind ← readNumber len;
  minfunc ← readNumber len;
  maxfunc ← readNumber len;
  let minfunc := uint 32 minfunc in
  let maxfunc := uint 32 maxfunc in
  if (negb (minfunc =? 0) && (flevel <? minfunc)) || (negb (maxfunc =? 0) && (maxfunc <? flevel))
  then code CL_BREAK else
  maxresource ← readNumber len;
  compiler ← readString len mem;
  num_types ← readNumber len;
  num_func ← readNumber len;
  _ ← check_ok CL_EMALFDB;
  magic1 ← readNumber len;
  magic2 ← readFixedNumber len 2;
  s ← get;
  if negb (rok s) || negb (magic1 =? 0x53e5493e9f3d1c30) || negb (magic2 =? 42) then code CL_EMALFDB else
  c ← peek;
  if negb (c =? 58) then code CL_EMALFDB else
  _ ← skip 1;
  s ← get;
  let '(n, used) := strtol (cstring (drop (Z.to_nat (off s)) (buf s))) in
  e ← lift (bget (buf s) (off s + used));
  if negb (e =? 0) then code CL_EMALFDB else
  let num_types := uint 32 num_types in
  let num_func := uint 32 num_func in
  if negb (cli_calloc mem num_func 96) then code CL_EMEM else
  if negb (cli_calloc mem num_types 32) then code CL_EMEM else
  mret {| formatlevel := formatlevel; timestamp := timestamp; sigmaker := sigmaker;
          targetExclude := uint 32 targetExclude; bkind := uint 32 kind; minfunc := minfunc;
          maxfunc := maxfunc; maxresource := uint 32 maxresource; compiler := compiler;
          num_types := num_types; num_func := num_func; linelength := uint 32 n |}.

(** [parseLSig]: the line is the logical signature if it has a semicolon. *)
Definition parseLSig (line : list Z) : option (list Z) :=
  if bool_decide (59 ∈ cstring line) && mem then Some (cstring line) else None.

(** ** Types *)

(** [readTypeID]: the test of the pointer [ok] always succeeds. *)
Definition readTypeID (len : Z) (h : header) (start_tid : Z) : reader Z :=
  t ← readNumber len;
  if uint 32 (num_types h + start_tid) <=? t then err (2 ^ 16 - 1) else mret (uint 16 t).

(** [parseType]: the contained types; nothing is read after an error. *)
Definition parseType (len : Z) (h : header) (tid : Z) : reader (Z * list Z) :=
  n ← readNumber len;
  let n := uint 32 n in
  s ← get;
  if negb (rok s) then mret (n, []) else
  if negb (cli_malloc mem (2 * n)) then err (n, []) else
  l ← times (Z.to_nat n) 0 (fun _ => readTypeID len h tid);
  mret (n, l).

Fixpoint add_static_loop (i : Z) (tys : list Z) (types : list cli_bc_type) : option (list cli_bc_type) :=
  match tys with
  | [] => Some types
  | t :: tys =>
      let* types := bset types i {| tkind := DPointerType; containedTypes := [t]; numElements := 1;
                                    size := 8; align := 8 |} in
      add_static_loop (i + 1) tys types
  end.

Definition add_static_types (types : list cli_bc_type) : option (list cli_bc_type) :=
  add_static_loop 0 [8; 16; 32; 64] types.

(** The switch of [parseTypes] on the kind [t] of a type. *)
Definition parse_one_type (len : Z) (h : header) (tid : Z) (types : list cli_bc_type) (t : Z) : reader cli_bc_type :=
  if t =? 1 then
    '(n, l) ← parseType len h tid;
    _ ← check_ok CL_EMALFDB;
    if n =? 0 then code CL_EMALFDB else
    mret {| tkind := DFunctionType; containedTypes := l; numElements := n; size := 8; align := 8 |}
  else if (t =? 2) || (t =? 3) then
    '(n, l) ← parseType len h tid;
    _ ← check_ok CL_EMALFDB;
    mret {| tkind := if t =? 2 then DPackedStructType else DStructType; containedTypes := l;
            numElements := n; size := 0; align := 8 |}
  else if (t =? 4) || (t =? 5) then
    n ← (if t =? 4 then n ← readNumber len; _ ← check_ok CL_EMALFDB; mret (uint 32 n) else mret 1);
    if negb (cli_malloc mem 2) then code CL_EMALFDB else
    c ← readTypeID len h tid;
    _ ← check_ok CL_EMALFDB;
    if t =? 5 then
      mret {| tkind := DPointerType; containedTypes := [c]; numElements := n; size := 8; align := 8 |}
    else
      sz ← lift (typesize types c);
      al ← lift (typealign types c);
      mret {| tkind := DArrayType; containedTypes := [c]; numElements := n; size := uint 32 (n * sz); align := al |}
  else code CL_EMALFDB.

(** The loop [for (i = BC_START_TID - 65; i < num_types - 1; i++)]; a round reads
    at least one byte. *)
Fixpoint types_loop (fuel : nat) (len : Z) (h : header) (tid : Z) (i : Z) (types : list cli_bc_type)
    : reader (list cli_bc_type) :=
  if uint 32 (num_types h - 1) <=? i then mret types else
  match fuel with
  | O => fun _ => Stuck Forever
  | S f =>
      t ← readFixedNumber len 1;
      _ ← check_ok CL_EMALFDB;
      ty ← parse_one_type len h tid types t;
      types ← lift (bset types i ty);
      types_loop f len h tid (i + 1) types
  end.

Definition parseTypes (len : Z) (h : header) : reader (Z * list cli_bc_type) :=
  _ ← goto 0;
  c ← peek;
  if negb (c =? 84) then code CL_EMALFDB else
  _ ← goto 1;
  tid ← readFixedNumber len 2;
  if negb (tid =? BC_START_TID) then code CL_BREAK else
  types ← lift (add_static_types (replicate (Z.to_nat (num_types h)) no_type));
  types ← types_loop (Z.to_nat len) len h tid (BC_START_TID - 65) types;
  mret (tid, types).

(** ** APIs *)

(** The tables of the API of bytecode_api_decl.c: the name and the type of each
    call, and the types. *)
Variable apicalls : list (list Z * Z).
Variable apitypes : list cli_bc_type.

(** [types_equal]: [apity2ty] is the map of the API types to the types of the
    program that were found, or are assumed, to be equal. *)
Fixpoint types_equal (fuel : nat) (types : list cli_bc_type) (apity2ty : list Z) (tid apitid : Z)
    : res (bool * list Z) :=
  match fuel with
  | O => NoFuel
  | S f =>
      let! mark := of_opt (bget apity2ty apitid) in
      if mark =? tid + 1 then Ok (true, apity2ty) else
      let! apity2ty := of_opt (bset apity2ty apitid (uint 16 (tid + 1))) in
      let! ty := of_opt (bget types (tid - 65)) in
      let! apity := of_opt (bget apitypes apitid) in
      if negb (bool_decide (tkind ty = tkind apity)) then Ok (false, apity2ty) else
      if negb (numElements ty =? numElements apity) then Ok (false, apity2ty) else
      let n := if bool_decide (tkind ty = DArrayType) then Z.min 1 (numElements ty) else numElements ty in
      (fix contained (k : nat) (i : Z) (apity2ty : list Z) : res (bool * list Z) :=
         match k with
         | O => Ok (true, apity2ty)
         | S k =>
             let! a := of_opt (bget (containedTypes apity) i) in
             let! c := of_opt (bget (containedTypes ty) i) in
             if a <? BC_START_TID then
               if negb (c =? a) then Ok (false, apity2ty) else contained k (i + 1) apity2ty
             else
               let! (eq, apity2ty) := types_equal f types apity2ty c (a - BC_START_TID) in
               if negb eq then Ok (false, apity2ty) else contained k (i + 1) apity2ty
         end) (Z.to_nat n) 0 apity2ty
  end.

Definition res_reader {A} (r : res A) : reader A := fun s =>
  match r with Ok a => Val a s | Undef => Stuck OutOfBounds | NoFuel => Stuck Forever end.

(** One round of the loop of [parseApis]. *)
Definition parse_one_api (fuel : nat) (len : Z) (h : header) (tid : Z) (types : list cli_bc_type) (maxapi : Z)
    (st : bitset_t * list Z) : reader (bitset_t * list Z) :=
  let '(apis, apity2ty) := st in
  id ← readNumber len;
  let id := uint 32 id in
  ty ← readTypeID len h tid;
  name ← readString len mem;
  _ ← (if maxapi <? id then err tt else mret tt);
  let id := uint 32 (id - 1) in
  s ← get;
  _ ← (match name with
       | Some name =>
           if rok s then
             a ← lift (bget apicalls id);
             if negb (bool_decide (cstring name = fst a)) then err tt else mret tt
           else mret tt
       | None => mret tt
       end);
  s ← get;
  apity2ty ← (if rok s then
                a ← lift (bget apicalls id);
                '(eq, marks) ← res_reader (types_equal fuel types apity2ty ty (snd a));
                _ ← (if negb eq then err tt else mret tt);
                mret marks
              else mret apity2ty);
  _ ← check_ok CL_EMALFDB;
  '(_, apis) ← lift (cli_bitset_set mem apis id);
  mret (apis, apity2ty).

Fixpoint apis_loop (n fuel : nat) (len : Z) (h : header) (tid : Z) (types : list cli_bc_type) (maxapi : Z)
    (st : bitset_t * list Z) : reader bitset_t :=
  match n with
  | O => mret (fst st)
  | S n => st ← parse_one_api fuel len h tid types maxapi st; apis_loop n fuel len h tid types maxapi st
  end.

(** [fuel] bounds the nesting of the types of a prototype. *)
Definition parseApis (fuel : nat) (len : Z) (h : header) (tid : Z) (types : list cli_bc_type) : reader bitset_t :=
  _ ← goto 0;
  c ← peek;
  if negb (c =? 69) then code CL_EMALFDB else
  _ ← goto 1;
  maxapi ← readNumber len;
  let maxapi := uint 32 maxapi in
  _ ← check_ok CL_EMALFDB;
  if Z.of_nat (length apicalls) <? maxapi then code CL_BREAK else
  calls ← readNumber len;
  let calls := uint 32 calls in
  _ ← check_ok CL_EMALFDB;
  if maxapi <? calls then code CL_EMALFDB else
  match cli_bitset_init mem mem with
  | None => code CL_EMEM
  | Some apis =>
      if negb (cli_calloc mem (Z.of_nat (length apitypes)) 32) then code CL_EMEM else
      apis_loop (Z.to_nat calls) fuel len h tid types maxapi
        (apis, replicate (16 * length apitypes) 0)
  end.

(** ** Globals *)

(** The number of 64-bit components of a constant, a 16-bit value; the fuel
    bounds the nesting of the types, which the source does not. *)
Fixpoint type_components (fuel : nat) (types : list cli_bc_type) (id : Z) : reader Z :=
  match fuel with
  | O => fun _ => Stuck Forever
  | S f =>
      if id <=? 64 then mret 1 else
      ty ← lift (bget types (id - 65));
      match tkind ty with
      | DFunctionType => err 0
      | DPointerType => mret 2
      | DStructType | DPackedStructType =>
          l ← times (Z.to_nat (numElements ty)) 0 (fun i =>
                c ← lift (bget (containedTypes ty) i); type_components f types c);
          mret (uint 16 (foldr Z.add 0 l))
      | DArrayType =>
          c ← lift (bget (containedTypes ty) 0);
          n ← type_components f types c;
          mret (uint 16 (n * numElements ty))
      end
  end.

Definition peek_at (i : Z) : reader Z := fun s => lift (bget (buf s) (off s + i)) s.

(** The loop of [readConstant]; [None] when it returns from inside. *)
Fixpoint constant_loop (fuel : nat) (len comp : Z) (acc : list Z) : reader (option (list Z)) :=
  match fuel with
  | O => fun _ => Stuck Forever
  | S f =>
      s ← get;
      if negb (rok s) then mret (Some acc) else
      c ← peek;
      if c =? 0x60 then mret (Some acc) else
      if comp <=? Z.of_nat (length acc) then err None else
      _ ← or_byte 0x20;
      v ← readNumber len;
      constant_loop f len comp (acc ++ [v])
  end.

(** [readConstant]: the components of a global. *)
Definition readConstant (len comp : Z) : reader (list Z) :=
  s ← get;
  z ← (if rok s then
         c ← peek;
         if c =? 0x40 then c1 ← peek_at 1; mret (c1 =? 0x60) else mret false
       else mret false);
  if (z : bool) then _ ← skip 2; mret (replicate (Z.to_nat comp) 0) else
  r ← constant_loop (S (length (buf s))) len comp [];
  match r with
  | None => mret []
  | Some l =>
      s ← get;
      _ ← (if rok s && negb (Z.of_nat (length l) =? comp) then err tt else mret tt);
      _ ← skip 1;
      mret l
  end.

Definition _FIRST_GLOBAL : Z := 0x8000.
Definition cli_apicall_maxglobal : Z := 0x8005.

(** One round of the loop of [parseGlobals]. *)
Definition parse_one_global (fuel : nat) (len : Z) (h : header) (tid : Z) (types : list cli_bc_type)
    : reader (Z * list Z) :=
  ty ← readTypeID len h tid;
  comp ← type_components fuel types ty;
  _ ← check_ok CL_EMALFDB;
  if negb (cli_malloc mem (8 * comp)) then code CL_EMEM else
  g ← readConstant len comp;
  mret (ty, g).

Definition parseGlobals (fuel : nat) (len : Z) (h : header) (tid : Z) (types : list cli_bc_type)
    : reader (list (Z * list Z)) :=
  _ ← goto 0;
  c ← peek;
  if negb (c =? 71) then code CL_EMALFDB else
  _ ← goto 1;
  maxglobal ← readNumber len;
  if cli_apicall_maxglobal <? uint 32 maxglobal then code CL_BREAK else
  numglobals ← readNumber len;
  let numglobals := uint 32 numglobals in
  if negb (cli_calloc mem numglobals 8) then code CL_EMEM else
  if negb (cli_calloc mem numglobals 2) then code CL_EMEM else
  _ ← check_ok CL_EMALFDB;
  l ← for_loop (Z.to_nat len) 0 numglobals (fun _ => parse_one_global fuel len h tid types);
  _ ← check_ok CL_EMALFDB;
  s ← get;
  if negb (off s =? len) then code CL_EMALFDB else
  mret l.

(** ** Debug information *)

Definition parse_element (len : Z) : reader dbgelement :=
  c ← peek;
  if c =? 124 then
    '(d, n) ← readData len mem;
    _ ← check_ok CL_EMALFDB;
    mret (DbgString d n)
  else
    n ← readNumber len;
    let n := uint 32 n in
    _ ← check_ok CL_EMALFDB;
    e ← (if negb (n =? 0) then c ← readNumber len; mret (DbgConst n c)
         else id ← readNumber len; mret (DbgNode (uint 32 id)));
    _ ← check_ok CL_EMALFDB;
    mret e.

Definition parse_node (len : Z) : reader (list dbgelement) :=
  el ← readNumber len;
  let el := uint 32 el in
  _ ← check_ok CL_EMALFDB;
  if negb (cli_calloc mem el 32) then code CL_EMEM else
  for_loop (Z.to_nat len) 0 el (fun _ => parse_element len).

(** [parseMD]: the nodes it adds to the [cnt] present ones. *)
Definition parseMD (len cnt : Z) : reader (list (list dbgelement)) :=
  _ ← goto 0;
  c ← peek;
  if negb (c =? 68) then code CL_EMALFDB else
  _ ← goto 1;
  numMD ← readNumber len;
  let numMD := uint 32 numMD in
  _ ← check_ok CL_EMALFDB;
  if negb (cli_realloc mem (uint 32 (cnt + numMD) * 16)) then code CL_EMEM else
  for_loop (Z.to_nat len) 0 numMD (fun _ => parse_node len).

(** ** Functions *)

Definition parse_local (len : Z) : reader Z :=
  t ← readNumber len;
  a ← readFixedNumber len 1;
  mret (if negb (a =? 0) then Z.lor (uint 16 t) 0x8000 else uint 16 t).

Definition parseFunctionHeader (len : Z) (h : header) (tid fn : Z) : reader lfunc :=
  if num_func h <=? fn then code CL_EMALFDB else
  _ ← goto 0;
  c ← peek;
  if negb (c =? 65) then code CL_EMALFDB else
  _ ← goto 1;
  numArgs ← readFixedNumber len 1;
  returnType ← readTypeID len h tid;
  c ← peek;
  if negb (c =? 76) then code CL_EMALFDB else
  _ ← skip 1;
  numLocals ← readNumber len;
  let numLocals := uint 16 numLocals in
  _ ← check_ok CL_EMALFDB;
  let all_locals := numArgs + numLocals in
  if negb (cli_calloc mem all_locals 2) then code CL_EMEM else
  tys ← times (Z.to_nat all_locals) 0 (fun _ => parse_local len);
  _ ← check_ok CL_EMALFDB;
  c ← peek;
  if negb (c =? 70) then code CL_EMALFDB else
  _ ← skip 1;
  numInsts ← readNumber len;
  let numInsts := uint 32 numInsts in
  _ ← check_ok CL_EMALFDB;
  if negb (cli_calloc mem numInsts 40) then code CL_EMEM else
  numBB ← readNumber len;
  let numBB := uint 16 numBB in
  _ ← check_ok CL_EMALFDB;
  if negb (cli_calloc mem numBB 16) then code CL_EMEM else
  mret {| f_numArgs := numArgs; f_numLocals := numLocals; f_numInsts := numInsts; f_numBB := numBB;
          f_returnType := returnType; f_types := tys; allinsts := []; BBs := []; f_constants := [];
          f_dbgnodes := None |}.

(** ** Basic blocks *)

Definition readBBID (len numBB : Z) : reader Z :=
  id ← readNumber len;
  let id := uint 32 id in
  _ ← (if (id =? 0) || (numBB <=? id) then err tt else mret tt);
  s ← get;
  mret (if rok s then uint 16 id else 2 ^ 16 - 1).

Definition get_optype (f : lfunc) (op : Z) : reader Z :=
  if f_numValues f <=? op then mret 0 else t ← lift (bget (f_types f) op); mret (Z.land t 0x7fff).

(** [enum bc_opcode] starts from 1; 0 names no operation and is treated like
    [OP_BC_INVALID] by all that follows. *)
Definition opcodes : list opcode :=
  [OP_BC_INVALID;
   OP_BC_ADD; OP_BC_SUB; OP_BC_MUL; OP_BC_UDIV; OP_BC_SDIV; OP_BC_UREM; OP_BC_SREM;
   OP_BC_SHL; OP_BC_LSHR; OP_BC_ASHR; OP_BC_AND; OP_BC_OR; OP_BC_XOR;
   OP_BC_TRUNC; OP_BC_SEXT; OP_BC_ZEXT; OP_BC_BRANCH; OP_BC_JMP; OP_BC_RET; OP_BC_RET_VOID;
   OP_BC_ICMP_EQ; OP_BC_ICMP_NE; OP_BC_ICMP_UGT; OP_BC_ICMP_UGE; OP_BC_ICMP_ULT; OP_BC_ICMP_ULE;
   OP_BC_ICMP_SGT; OP_BC_ICMP_SGE; OP_BC_ICMP_SLE; OP_BC_ICMP_SLT;
   OP_BC_SELECT; OP_BC_CALL_DIRECT; OP_BC_CALL_API; OP_BC_COPY;
   OP_BC_GEP1; OP_BC_GEPZ; OP_BC_GEPN; OP_BC_STORE; OP_BC_LOAD;
   OP_BC_MEMSET; OP_BC_MEMCPY; OP_BC_MEMMOVE; OP_BC_MEMCMP;
   OP_BC_ISBIGENDIAN; OP_BC_ABORT; OP_BC_BSWAP16; OP_BC_BSWAP32; OP_BC_BSWAP64;
   OP_BC_PTRDIFF32; OP_BC_PTRTOINT64].

Definition operand_counts : list Z :=
  [0; 2; 2; 2; 2; 2; 2; 2; 2; 2; 2; 2; 2; 2; 1; 1; 1; 3; 1; 1; 0; 2; 2; 2; 2; 2; 2; 2; 2; 2; 2; 3; 0; 0; 2;
   3; 3; 0; 2; 1; 3; 3; 3; 3; 0; 0; 1; 1; 1; 2; 1].

(** The class of a type in [interp_op]. *)
Definition type_class (t : Z) : Z :=
  if 1 <? t then
    if t <=? 8 then 1 else if t <=? 16 then 2 else if t <=? 32 then 3 else if t <=? 65 then 4 else 0
  else 0.

(** What the union of [inst] held before in the byte of [cast.size]. *)
Variable stale : Z.

Definition cast_size (mask : Z) : Z :=
  if mask =? 1 then 0 else if mask <=? 8 then 1 else if mask <=? 16 then 2
  else if mask <=? 32 then 3 else if mask <=? 64 then 4 else stale.

(** The operands of a cast; the shift by 64 or more bits is undefined. *)
Definition parse_cast (len : Z) (f : lfunc) (op : opcode) : reader VmExec.operands :=
  source ← readOperand len mem (f_numValues f);
  mask ← lift (bget (f_types f) source);
  let size := cast_size mask in
  if bool_decide (op = OP_BC_SEXT) then mret (VmExec.Cast mask source size) else
  if mask =? 64 then mret (VmExec.Cast (2 ^ 64 - 1) source size) else
  if 64 <=? mask then lift None else
  mret (VmExec.Cast (2 ^ mask - 1) source size).

(** The default case of the switch of [parseBB], for operations with a fixed
    number of operands. *)
Definition parse_simple (len : Z) (f : lfunc) (type opnum : Z) : reader (Z * VmExec.operands) :=
  let operand := readOperand len mem (f_numValues f) in
  numOp ← lift (bget operand_counts opnum);
  if numOp =? 0 then mret (type, VmExec.NoOps)
  else if numOp =? 1 then a ← operand; mret (type, VmExec.Unary a)
  else if numOp =? 2 then a ← operand; b ← operand; mret (type, VmExec.Binop a b)
  else if numOp =? 3 then a ← operand; b ← operand; c ← operand; mret (type, VmExec.Three a b c)
  else err (type, VmExec.NoOps).

(** The switch of [parseBB]: the type of the instruction and its operands. *)
Definition parse_operands (len : Z) (h : header) (apis : bitset_t) (f : lfunc) (type opnum : Z) (op : opcode)
    : reader (Z * VmExec.operands) :=
  let operand := readOperand len mem (f_numValues f) in
  match op with
  | OP_BC_JMP => b ← readBBID len (f_numBB f); mret (type, VmExec.Jump b)
  | OP_BC_RET => t ← readNumber len; a ← operand; mret (uint 16 t, VmExec.Unary a)
  | OP_BC_BRANCH =>
      c ← operand; t ← readBBID len (f_numBB f); e ← readBBID len (f_numBB f);
      mret (type, VmExec.Branch c t e)
  | OP_BC_CALL_API | OP_BC_CALL_DIRECT =>
      numOp ← readFixedNumber len 1;
      s ← get;
      if rok s then
        if negb (cli_calloc mem numOp 4) then code CL_EMEM else
        id ← (if bool_decide (op = OP_BC_CALL_DIRECT) then readFuncID len (num_func h)
              else readAPIFuncID len (fun i => match cli_bitset_test apis i with Some b => b | None => false end));
        ops ← times (Z.to_nat numOp) 0 (fun _ => operand);
        mret (type, VmExec.CallOps ops [] numOp id)
      else mret (type, VmExec.NoOps)
  | OP_BC_ZEXT | OP_BC_SEXT | OP_BC_TRUNC => c ← parse_cast len f op; mret (type, c)
  | OP_BC_GEP1 | OP_BC_GEPZ =>
      a ← readNumber len; b ← operand; c ← operand; mret (type, VmExec.Three (uint 32 a) b c)
  | OP_BC_GEPN =>
      numOp ← readFixedNumber len 1;
      s ← get;
      if rok s then
        if negb (cli_calloc mem (numOp + 2) 4) then code CL_EMEM else
        a ← readNumber len;
        ops ← times (Z.to_nat (numOp + 1)) 0 (fun _ => operand);
        mret (type, VmExec.CallOps (uint 32 a :: ops) [] (numOp + 2) 0)
      else mret (type, VmExec.NoOps)
  | OP_BC_ICMP_EQ | OP_BC_ICMP_NE | OP_BC_ICMP_UGT | OP_BC_ICMP_UGE | OP_BC_ICMP_ULT | OP_BC_ICMP_ULE
  | OP_BC_ICMP_SGT | OP_BC_ICMP_SGE | OP_BC_ICMP_SLE | OP_BC_ICMP_SLT =>
      t ← readNumber len; parse_simple len f (uint 16 t) opnum
  | _ => parse_simple len f type opnum
  end.

(** Stores and copies get their type from an operand. *)
Definition operand_type (f : lfunc) (op : opcode) (type : Z) (u : VmExec.operands) : reader Z :=
  match op, u with
  | OP_BC_STORE, VmExec.Binop a _ => t ← get_optype f a; mret (if negb (t =? 0) then t else type)
  | OP_BC_COPY, VmExec.Binop _ b => get_optype f b
  | _, _ => mret type
  end.

(** One round of the loop of [parseBB], [n] instructions of the function were
    stored before: whether the instruction is the last one, and the instruction. *)
Definition parse_inst (len : Z) (h : header) (apis : bitset_t) (f : lfunc) (n : Z) : reader (bool * VmExec.inst) :=
  c ← peek;
  '(last, type, dest) ← (if c =? 84 then _ ← skip 1; mret (true, 0, 0)
                         else type ← readNumber len; dest ← readNumber len;
                              mret (false, uint 16 type, uint 32 dest));
  opnum ← readFixedNumber len 2;
  _ ← check_ok CL_EMALFDB;
  match bget opcodes opnum with
  | None => code CL_EMALFDB
  | Some op =>
      '(type, u) ← parse_operands len h apis f type opnum op;
      type ← operand_type f op type u;
      _ ← check_ok CL_EMALFDB;
      if f_numInsts f <=? n then code CL_EMALFDB else
      mret (last, {| VmExec.opc := op; VmExec.ty := type_class type; VmExec.itype := type;
                     VmExec.dest := dest; VmExec.u := u |})
  end.

Fixpoint bb_loop (fuel : nat) (len : Z) (h : header) (apis : bitset_t) (f : lfunc) (acc : list VmExec.inst)
    : reader (list VmExec.inst) :=
  match fuel with
  | O => fun _ => Stuck Forever
  | S fuel =>
      '(last, i) ← parse_inst len h apis f (insn_idx f + Z.of_nat (length acc));
      if (last : bool) then mret (acc ++ [i]) else bb_loop fuel len h apis f (acc ++ [i])
  end.

(** The numbers of the debug nodes after a block. *)
Definition parse_dbgnodes (len : Z) (f : lfunc) : reader (option (list Z)) :=
  c ← peek;
  if c =? 68 then
    _ ← skip 3;
    s ← get;
    if len <=? off s then code CL_EMALFDB else
    num ← readNumber len;
    _ ← check_ok CL_EMALFDB;
    if negb (uint 32 num =? f_numInsts f) then code CL_EMALFDB else
    if negb (cli_malloc mem (uint 32 num * 4)) then code CL_EMEM else
    l ← for_loop (Z.to_nat len) 0 (uint 32 num) (fun _ => n ← readNumber len; _ ← check_ok CL_EMALFDB; mret (uint 32 n));
    mret (Some l)
  else mret (f_dbgnodes f).

(** [parseBB] for block [bb] of the function [f]; the constants read are added to
    those of the function. *)
Definition parseBB (len : Z) (h : header) (apis : bitset_t) (f : lfunc) (bb : Z) : reader lfunc :=
  if f_numBB f <=? bb then code CL_EMALFDB else
  _ ← goto 0;
  c ← peek;
  if negb (c =? 66) then code CL_EMALFDB else
  _ ← goto 1;
  insts ← bb_loop (S (Z.to_nat len)) len h apis f [];
  _ ← (if bb + 1 =? f_numBB f then
         c ← peek; if negb (c =? 69) then code CL_EMALFDB else skip 1
       else mret tt);
  dbg ← parse_dbgnodes len f;
  s ← get;
  if negb (off s =? len) then code CL_EMALFDB else
  mret {| f_numArgs := f_numArgs f; f_numLocals := f_numLocals f; f_numInsts := f_numInsts f;
          f_numBB := f_numBB f; f_returnType := f_returnType f; f_types := f_types f;
          allinsts := allinsts f ++ insts; BBs := BBs f ++ [(insn_idx f, Z.of_nat (length insts))];
          f_constants := consts s; f_dbgnodes := dbg |}.

(** ** Files *)

(** [fgets]: at most [n - 1] bytes, up to the end of the line; [None] is NULL at
    the end of the file. *)
Fixpoint get_line (k : nat) (input : list Z) : list Z * list Z :=
  match k, input with
  | S k, c :: rest => if c =? 10 then ([c], rest) else let '(l, r) := get_line k rest in (c :: l, r)
  | _, _ => ([], input)
  end.

Definition fgets (n : Z) (input : list Z) : option (list Z * list Z) :=
  if n <=? 1 then Some ([], input)
  else match input with [] => None | _ => Some (get_line (Z.to_nat (n - 1)) input) end.

(** The buffer after [fgets] stored a line and after [cli_chomp]. *)
Definition fill (b line : list Z) : list Z := line ++ 0 :: drop (length line + 1) b.

Fixpoint chomped (n : nat) (l : list Z) : nat :=
  match n with
  | O => O
  | S m => match l !! m with Some c => if (c =? 10) || (c =? 13) then chomped m l else n | None => n end
  end.

Definition cli_chomp (b : list Z) : list Z :=
  let n := length (cstring b) in
  let k := chomped n b in
  take k b ++ replicate (n - k) 0 ++ drop n b.

(** ** The states of the loader *)
Inductive parse_state :=
| PARSE_BC_TYPES | PARSE_BC_APIS | PARSE_BC_GLOBALS | PARSE_BC_LSIG | PARSE_MD_OPT_HEADER
| PARSE_FUNC_HEADER | PARSE_BB.

Record lstate := { bc : cli_bc; state : parse_state; current_func : Z; lbb : Z; ending : bool }.

(** After a line: the next state and the buffer; a program that is skipped
    ([bc->state = bc_skip; return CL_SUCCESS]); an error code; or stuck. *)
Inductive lres :=
| LNext (s : lstate) (b : list Z)
| LSkip
| LReturn (rc : Z)
| LStuck (f : fault).

(** Runs a parsing function on the buffer; [skip] says whether [CL_BREAK] skips
    the program. *)
Definition on_line {A} (b : list Z) (cs : list Z) (skip : bool) (m : Z -> reader A) (k : A -> lstate) : lres :=
  match m (strlen b) {| buf := b; off := 0; rok := true; consts := cs |} with
  | Val a s => LNext (k a) (buf s)
  | Code rc =>
      if skip && (rc =? CL_BREAK) then LSkip else LReturn rc
  | Stuck f => LStuck f
  end.

Definition with_state (s : lstate) (st : parse_state) (c : cli_bc) : lstate :=
  {| bc := c; state := st; current_func := current_func s; lbb := lbb s; ending := ending s |}.

(** Setters of the parts of [struct cli_bc]. *)
Definition set_lsig (c : cli_bc) (l : option (list Z)) : cli_bc :=
  {| hdr := hdr c; types := types c; start_tid := start_tid c; uses_apis := uses_apis c; globals := globals c;
     globaltys := globaltys c; lfuncs := lfuncs c; lsig := l; dbgnodes := dbgnodes c |}.
Definition set_types (c : cli_bc) (x : Z * list cli_bc_type) : cli_bc :=
  {| hdr := hdr c; types := snd x; start_tid := fst x; uses_apis := uses_apis c; globals := globals c;
     globaltys := globaltys c; lfuncs := lfuncs c; lsig := lsig c; dbgnodes := dbgnodes c |}.
Definition set_apis (c : cli_bc) (a : bitset_t) : cli_bc :=
  {| hdr := hdr c; types := types c; start_tid := start_tid c; uses_apis := Some a; globals := globals c;
     globaltys := globaltys c; lfuncs := lfuncs c; lsig := lsig c; dbgnodes := dbgnodes c |}.
Definition set_globals (c : cli_bc) (l : list (Z * list Z)) : cli_bc :=
  {| hdr := hdr c; types := types c; start_tid := start_tid c; uses_apis := uses_apis c;
     globals := map snd l; globaltys := map fst l; lfuncs := lfuncs c; lsig := lsig c; dbgnodes := dbgnodes c |}.
Definition add_dbgnodes (c : cli_bc) (l : list (list dbgelement)) : cli_bc :=
  {| hdr := hdr c; types := types c; start_tid := start_tid c; uses_apis := uses_apis c; globals := globals c;
     globaltys := globaltys c; lfuncs := lfuncs c; lsig := lsig c; dbgnodes := dbgnodes c ++ l |}.
Definition set_funcs (c : cli_bc) (l : list lfunc) : cli_bc :=
  {| hdr := hdr c; types := types c; start_tid := start_tid c; uses_apis := uses_apis c; globals := globals c;
     globaltys := globaltys c; lfuncs := l; lsig := lsig c; dbgnodes := dbgnodes c |}.

(** The case of a function header, to which that of debug information falls
    through. *)
Definition func_header_line (s : lstate) (b : list Z) (c0 : Z) : lres :=
  let c := bc s in
  if c0 =? 83 then
    LNext {| bc := c; state := state s; current_func := current_func s; lbb := lbb s; ending := true |} b
  else
    on_line b [] false (fun len => parseFunctionHeader len (hdr c) (start_tid c) (current_func s))
      (fun f => {| bc := set_funcs c (lfuncs c ++ [f]); state := PARSE_BB; current_func := current_func s;
                   lbb := 0; ending := ending s |}).

(** The case of a basic block: the function is complete after its last block, if
    it has the declared number of instructions. *)
Definition bb_line (s : lstate) (b : list Z) : lres :=
  let c := bc s in
  match bget (lfuncs c) (current_func s), uses_apis c with
  | Some f, Some apis =>
      match on_line b (f_constants f) false (fun len => parseBB len (hdr c) apis f (lbb s))
        (fun f => {| bc := set_funcs c (<[Z.to_nat (current_func s) := f]> (lfuncs c)); state := PARSE_BB;
                     current_func := current_func s; lbb := lbb s + 1; ending := ending s |}) with
      | LNext s b =>
          match bget (lfuncs (bc s)) (current_func s) with
          | Some f =>
              if f_numBB f <=? lbb s then
                if negb (insn_idx f =? f_numInsts f) then LReturn CL_EMALFDB
                else LNext {| bc := bc s; state := PARSE_FUNC_HEADER; current_func := current_func s + 1;
                              lbb := lbb s; ending := ending s |} b
              else LNext s b
          | None => LStuck OutOfBounds
          end
      | r => r
      end
  | _, _ => LStuck OutOfBounds
  end.

(** One round of the loop of [cli_bytecode_load], after [cli_chomp]; [fuel] is
    that of the nesting of types. *)
Definition load_line (fuel : nat) (s : lstate) (b : list Z) : lres :=
  let c := bc s in
  match state s with
  | PARSE_BC_LSIG => LNext (with_state s PARSE_BC_TYPES (set_lsig c (parseLSig b))) b
  | PARSE_BC_TYPES =>
      on_line b [] false (fun len => parseTypes len (hdr c)) (fun x => with_state s PARSE_BC_APIS (set_types c x))
  | PARSE_BC_APIS =>
      on_line b [] true (fun len => parseApis fuel len (hdr c) (start_tid c) (types c))
        (fun x => with_state s PARSE_BC_GLOBALS (set_apis c x))
  | PARSE_BC_GLOBALS =>
      on_line b [] true (fun len => parseGlobals fuel len (hdr c) (start_tid c) (types c))
        (fun x => with_state s PARSE_MD_OPT_HEADER (set_globals c x))
  | PARSE_MD_OPT_HEADER =>
      match bget b 0 with
      | None => LStuck OutOfBounds
      | Some c0 =>
          if c0 =? 68 then
            on_line b [] false (fun len => parseMD len (Z.of_nat (length (dbgnodes c))))
              (fun l => with_state s PARSE_MD_OPT_HEADER (add_dbgnodes c l))
          else func_header_line s b c0
      end
  | PARSE_FUNC_HEADER =>
      match bget b 0 with None => LStuck OutOfBounds | Some c0 => func_header_line s b c0 end
  | PARSE_BB => bb_line s b
  end.

(** The loop over the lines; a round reads at least one byte of the file. *)
Fixpoint load_loop (n fuel : nat) (len : Z) (s : lstate) (b input : list Z) : lres :=
  match n with
  | O => LStuck Forever
  | S n =>
      match fgets len input with
      | None => LNext s b
      | Some (line, rest) =>
          if ending s then LNext s b else
          match load_line fuel s (cli_chomp (fill b line)) with
          | LNext s b => load_loop n fuel len s b rest
          | r => r
          end
      end
  end.

Definition FILEBUFF : Z := 8192.

(** [cli_bytecode_load] from a file with the contents [input]: [CL_SUCCESS] and a
    loaded program, [CL_SUCCESS] and a program to be skipped, or an error code.
    [junk] is what fresh memory holds. *)
Inductive load_result := Loaded (c : cli_bc) | Skipped | Failed (rc : Z) | LoadStuck (f : fault).

Definition cli_bytecode_load (fuel : nat) (flevel : Z) (junk : list Z) (input : list Z) : load_result :=
  match fgets FILEBUFF input with
  | None => Failed CL_EMALFDB
  | Some (line, rest) =>
      let firstbuf := cli_chomp (fill (resize (Z.to_nat FILEBUFF) 0 junk) line) in
      match parseHeader flevel (strlen firstbuf) {| buf := firstbuf; off := 0; rok := true; consts := [] |} with
      | Stuck f => LoadStuck f
      | Code rc => if rc =? CL_BREAK then Skipped else Failed rc
      | Val h _ =>
          if negb (cli_malloc mem (linelength h)) then Failed CL_EMEM else
          let c := {| hdr := h; types := []; start_tid := 0; uses_apis := None; globals := []; globaltys := [];
                      lfuncs := []; lsig := None; dbgnodes := [] |} in
          match load_loop (length rest + 3) fuel (linelength h)
                  {| bc := c; state := PARSE_BC_LSIG; current_func := 0; lbb := 0; ending := false |}
                  (resize (Z.to_nat (linelength h)) 0 junk) rest with
          | LStuck f => LoadStuck f
          | LReturn rc => Failed rc
          | LSkip => Skipped
          | LNext s _ =>
              if negb (current_func s =? num_func (hdr (bc s))) then Failed CL_EMALFDB else Loaded (bc s)
          end
      end
  end.

End Load.
End BcLoad.
