(* ===== verification/ApiTables.v ===== *)
(** The tables of libclamav/bytecode_api_decl.c: the types of the API and the
    calls with their names, types, and kinds. *)
From stdpp Require Import base list strings.
From Stdlib Require Import ZArith Lia Bool String Ascii.
From S2P Require Import Prelude BcLoad.
Import BcData.
Local Open Scope Z_scope.

Module ApiTables.

(** The bytes of a name. *)
Definition name (s : string) : list Z := map (fun a => Z.of_N (N_of_ascii a)) (list_ascii_of_string s).

(** The arrays [cli_tmp0], [cli_tmp1], ... *)
Definition cli_tmp : list (list Z) :=
  [[32; 32; 16; 16; 74; 73; 32; 72; 70; 32; 32; 32; 32];
   [71];
   [32; 32];
   [16; 8; 8; 32; 32; 32; 32; 32; 64; 32; 32; 16; 16; 16; 16; 16; 16; 32; 32; 32; 32; 16; 16; 64; 64; 64; 64; 32; 32; 70];
   [16; 8; 8; 32; 32; 32; 32; 32; 32; 32; 32; 32; 16; 16; 16; 16; 16; 16; 32; 32; 32; 32; 16; 16; 32; 32; 32; 32; 32; 32; 70];
   [32; 16; 16; 32; 32; 32; 16; 16];
   [32];
   [32];
   [32; 32];
   [32];
   [32; 65; 32; 32];
   [65; 32; 32];
   [32; 32; 32];
   [32; 65; 32];
   [32; 65; 32; 65; 32];
   [32; 32; 32; 32];
   [32; 65; 32; 32; 32; 32];
   [32; 87; 32];
   [88];
   [32; 32; 32; 32; 32; 32; 32; 32; 32];
   [65; 32];
   [32; 91; 32];
   [92];
   [16; 8; 8; 8; 94; 93];
   [8];
   [95];
   [8]].

Definition api_type (k : derived_t) (n : nat) (elements : Z) : cli_bc_type :=
  {| tkind := k; containedTypes := nth n cli_tmp []; numElements := elements; size := 0; align := 0 |}.

Definition cli_apicall_types : list cli_bc_type :=
  [api_type DStructType 0 13;
   api_type DArrayType 1 16;
   api_type DStructType 2 2;
   api_type DStructType 3 30;
   api_type DStructType 4 31;
   api_type DStructType 5 8;
   api_type DArrayType 6 1;
   api_type DArrayType 7 64;
   api_type DFunctionType 8 2;
   api_type DFunctionType 9 1;
   api_type DFunctionType 10 4;
   api_type DFunctionType 11 3;
   api_type DFunctionType 12 3;
   api_type DFunctionType 13 3;
   api_type DFunctionType 14 5;
   api_type DFunctionType 15 4;
   api_type DFunctionType 16 6;
   api_type DFunctionType 17 3;
   api_type DPointerType 18 1;
   api_type DStructType 19 9;
   api_type DFunctionType 20 2;
   api_type DFunctionType 21 3;
   api_type DPointerType 22 1;
   api_type DStructType 23 6;
   api_type DArrayType 24 29;
   api_type DArrayType 25 3;
   api_type DArrayType 26 10].

(** [struct cli_apicall]: the name, the type, the index among the calls of its
    kind, and the kind. *)
Record cli_apicall := { api_name : list Z; api_ty : Z; idx : Z; akind : Z }.

Definition apicall (n : string) (t i k : Z) : cli_apicall := {| api_name := name n; api_ty := t; idx := i; akind := k |}.

Definition cli_apicalls : list cli_apicall :=
  [apicall "test1" 12 0 0;
   apicall "read" 13 0 1;
   apicall "write" 13 1 1;
   apicall "seek" 12 1 0;
   apicall "setvirusname" 13 2 1;
   apicall "debug_print_str" 13 3 1;
   apicall "debug_print_uint" 8 0 2;
   apicall "disasm_x86" 21 4 1;
   apicall "trace_directory" 13 5 1;
   apicall "trace_scope" 13 6 1;
   apicall "trace_source" 13 7 1;
   apicall "trace_op" 13 8 1;
   apicall "trace_value" 13 9 1;
   apicall "trace_ptr" 13 10 1;
   apicall "pe_rawaddr" 8 1 2;
   apicall "file_find" 13 11 1;
   apicall "file_byteat" 8 2 2;
   apicall "malloc" 20 0 3;
   apicall "test2" 8 3 2;
   apicall "get_pe_section" 17 12 1;
   apicall "fill_buffer" 16 0 4;
   apicall "extract_new" 8 4 2;
   apicall "read_number" 8 5 2;
   apicall "hashset_new" 9 0 5;
   apicall "hashset_add" 12 2 0;
   apicall "hashset_remove" 12 3 0;
   apicall "hashset_contains" 12 4 0;
   apicall "hashset_done" 8 6 2;
   apicall "hashset_empty" 8 7 2;
   apicall "buffer_pipe_new" 8 8 2;
   apicall "buffer_pipe_new_fromfile" 8 9 2;
   apicall "buffer_pipe_read_avail" 8 10 2;
   apicall "buffer_pipe_read_get" 11 0 6;
   apicall "buffer_pipe_read_stopped" 12 5 0;
   apicall "buffer_pipe_write_avail" 8 11 2;
   apicall "buffer_pipe_write_get" 11 1 6;
   apicall "buffer_pipe_write_stopped" 12 6 0;
   apicall "buffer_pipe_done" 8 12 2;
   apicall "inflate_init" 15 0 7;
   apicall "inflate_process" 8 13 2;
   apicall "inflate_done" 8 14 2;
   apicall "bytecode_rt_error" 8 15 2;
   apicall "jsnorm_init" 8 16 2;
   apicall "jsnorm_process" 8 17 2;
   apicall "jsnorm_done" 8 18 2;
   apicall "ilog2" 12 7 0;
   apicall "ipow" 15 1 7;
   apicall "iexp" 15 2 7;
   apicall "isin" 15 3 7;
   apicall "icos" 15 4 7;
   apicall "memstr" 14 0 8;
   apicall "hex2ui" 12 8 0;
   apicall "atoi" 13 13 1;
   apicall "debug_print_str_start" 13 14 1;
   apicall "debug_print_str_nonl" 13 15 1;
   apicall "entropy_buffer" 13 16 1;
   apicall "map_new" 12 9 0;
   apicall "map_addkey" 10 0 9;
   apicall "map_setvalue" 10 1 9;
   apicall "map_remove" 10 2 9;
   apicall "map_find" 10 3 9;
   apicall "map_getvaluesize" 8 19 2;
   apicall "map_getvalue" 11 2 6;
   apicall "map_done" 8 20 2;
   apicall "file_find_limit" 10 4 9;
   apicall "engine_functionality_level" 9 1 5;
   apicall "engine_dconf_level" 9 2 5;
   apicall "engine_scan_options" 9 3 5;
   apicall "engine_db_options" 9 4 5;
   apicall "extract_set_container" 8 21 2;
   apicall "input_switch" 8 22 2].

(** What the loader uses of the calls. *)
Definition signatures : list (list Z * Z) := map (fun a => (api_name a, api_ty a)) cli_apicalls.

(** What the interpreter uses of the calls. *)
Definition kinds : list Z := map akind cli_apicalls.

End ApiTables.
