(* ===== verification/Samples.v ===== *)
(** Programs of the test suite (unit_tests/input), the trailing source text
    shortened. *)
From stdpp Require Import base list strings.
From Stdlib Require Import ZArith Lia Bool String Ascii.
From S2P Require Import Prelude BcRead ApiTables.
Import ApiTables ReaderFacts.
Local Open Scope Z_scope.

Module Samples.

Definition text (l : list string) : list Z := foldr (fun s r => name s ++ 10 :: r) [] l.

Open Scope string_scope.
(** retmagic.cbc: [return 0x1234f00d]. *)
Definition retmagic : list Z := text
  ["ClamBCafhflhhgjkd|afefdfggifnf```````|bhacflfafmfbfcfmb`cnbac`cmbacbcmbgfdcfcacefafefic``afaap`clamcoincidencejb:20";
   ""; "Tedaaa`"; "E``"; "G`aa`@`"; "A`b`bL`Faaaa"; "BTcab`bHm``odcbadE";
   "Sifnfdg`befnfdgbgig`gofifnfdghbfgofifdfibSkgSbgefdgegbgnf`b`chgacbcccdcff`c`cdfkcSmgSS"].

(** div0.cbc: a division by zero in a called function. *)
Definition div0 : list Z := text
  ["ClamBCafhflhhgjkd|afefdfggifnf```````|bhacflfafmfbfcfmb`cnbac`cmbacbcmbgfdcfcacefafefic``afabp`clamcoincidencejb:23";
   ""; "Tedaaa`"; "E``"; "G`aa`@`"; "A`b`bLaab`b`Fabaa"; "Bb`b``baab@dTcab`b`E";
   "Aab`bLaab`b`b`b`Fabaa"; "Bb`baae`Aad`Tcab`baaE"; "Sifnfdg`bdfiffg`chb"].

(** inf.cbc: an infinite loop. *)
Definition inf : list Z := text
  ["ClamBCafhflhhgjkd|afefdfggifnf```````|bhacflfafmfbfcfmb`cnbac`cmbacbcmbgfdcfcacefafefic``afaap`clamcoincidencejb:14";
   ""; "Tedaaa`"; "E``"; "G`aa`@`"; "A`b`bL`Fabab"; "BTbaaa"; "BTbaaaE"; "Sifnfdg`bef"].
(** bswap.cbc: 16, 32 and 64-bit byte swaps and block copies. *)
Definition bswap : list Z := text
  ["ClamBCafhalbajjkd|afefdfggifnf```````|bhacflfafmfbfcfmb`cnbac`cmbacdcmbgfffdfbcafbfafbc``b`aaap`clamcoincidencejb:132";
   "";
   "Tedebodebaddadb`bebgdaaaaaaaa`aabb`ab`aaabb`bb`baae`badbadb`bb`baae`badahb`bb`bdb`aah";
   "E``";
   "G`ac`@`bod@AaAbAcAdAeAfAgAhAiAjAkAlAmAnAo`bad@Aa`";
   "A`b`bLbebb`bab`bab`bab`aabgdabcd`bgdabcd`````b`a`aa`````b`a`aa```b`b`aa`````b`b`aa```aa`b`b```aa`````b`b`aa```ah`aa`b`b`b`b`Fbjbak";
   "Bbcdaedbbhdad@dbcdagdbbhdaf@d``ibadAb`B`ad``hbaf@aB`adb`aajgbadaaaklb``bbajacTaaakaaab";
   "Bb`aacnbajTbaab";
   "Bb`aanbbacanaaaoeab`aanC``ab``bbEamjnmd`Taaaoacaj";
   "Bb`bbaagbaeaabbalb``bbbaaabTaabbaadae";
   "Bb`babobbaaTbaae";
   "Bb`bbeabbabbeaaabfaeab`bbeaG``a`b`cd``bbEbmjnmd`Taabfaafaj";
   "Baabhalbb`bbiaoabhaHbadcfehgdHhgfedcbad``fbbiaagaabkalb``bbbiaaaTaabkaagah";
   "Bb`baaobbiaTbaah";
   "Bb`bbnabbaabnaaaboaeab`bbnaHhgfedcbad``bbEdmjnmd`Taaboaaiaj";
   "BahbabgbafaabbbfaahbabBhgab`bbcboabbbEemjnmdDonnkdTcab`bbcb";
   "Bb`bbdbbb`bdbTcab`bbdbE";
   "Sifnfdg"].
Close Scope string_scope.

Lemma text_bytes_ok (l : list string) : Forall byte (text l).
Proof.
  induction l as [|s l IH]; cbn; [constructor|]. apply Forall_app. split.
  - unfold name. apply Forall_map, Forall_true. intros a. unfold byte. cbn.
    destruct a as [[] [] [] [] [] [] [] []]; cbn; lia.
  - constructor; [unfold byte; lia|done].
Qed.

End Samples.
