(* ===== verification/BcLoadFacts.v ===== *)
(** Facts about the loader: what a loaded function looks like, and that the
    loops of the loader end. *)
From stdpp Require Import base numbers list list_numbers gmap.
From Stdlib Require Import ZArith Lia Bool.
From S2P Require Import Prelude Bitset VmCore VmExec BcRead BcLoad.
Import Errors Alloc Bitset Reader BcRead ReaderFacts VmArith BcData BcLoad.
Local Open Scope Z_scope.

Module BcLoadFacts.

(** A result in [Q], a code, or a fault that [E] admits. *)
Definition gives {A} (E : fault -> Prop) (r : outcome A) (Q : A -> rst -> Prop) : Prop :=
  match r with Val a s => Q a s | Code _ => True | Stuck f => E f end.

(** Accesses outside an array are possible, loops end. *)
Definition ends (f : fault) : Prop := f = OutOfBounds.

(** ** Well-formed instructions *)

Section Inst.
(** The function, the number of its constants, the number of functions and the
    declared API functions. *)
Context (f : lfunc) (nc num_func : Z) (apis : bitset_t).

Definition op_ok (v : Z) : Prop := operand_ok (f_numValues f) nc v.
Definition block_id (b : Z) : Prop := 0 < b < f_numBB f.

Definition simple_ok (n : Z) (u : VmExec.operands) : Prop :=
  match u with
  | VmExec.NoOps => n = 0
  | VmExec.Unary a => n = 1 /\ op_ok a
  | VmExec.Binop a b => n = 2 /\ op_ok a /\ op_ok b
  | VmExec.Three a b c => n = 3 /\ op_ok a /\ op_ok b /\ op_ok c
  | _ => False
  end.

(** The operands of each kind of instruction. *)
Definition operands_ok (opnum : Z) (op : opcode) (u : VmExec.operands) : Prop :=
  match op with
  | OP_BC_JMP => exists b, u = VmExec.Jump b /\ block_id b
  | OP_BC_RET => exists a, u = VmExec.Unary a /\ op_ok a
  | OP_BC_BRANCH => exists c t e, u = VmExec.Branch c t e /\ op_ok c /\ block_id t /\ block_id e
  | OP_BC_CALL_DIRECT => exists ops n id, u = VmExec.CallOps ops [] n id /\ n = Z.of_nat (length ops) /\
      Forall op_ok ops /\ 0 <= id < num_func
  | OP_BC_CALL_API => exists ops n id, u = VmExec.CallOps ops [] n id /\ n = Z.of_nat (length ops) /\
      Forall op_ok ops /\ cli_bitset_test apis id = Some true
  | OP_BC_ZEXT | OP_BC_SEXT | OP_BC_TRUNC => exists mask source size, u = VmExec.Cast mask source size /\
      op_ok source /\ (op = OP_BC_SEXT -> bget (f_types f) source = Some mask)
  | OP_BC_GEP1 | OP_BC_GEPZ => exists a b c, u = VmExec.Three a b c /\ 0 <= a < 2 ^ 32 /\ op_ok b /\ op_ok c
  | OP_BC_GEPN => exists a ops n id, u = VmExec.CallOps (a :: ops) [] n id /\ n = Z.of_nat (length ops) + 1 /\
      Forall op_ok ops
  | _ => exists n, bget operand_counts opnum = Some n /\ simple_ok n u
  end.

(** A well-formed instruction. *)
Definition inst_ok (i : VmExec.inst) : Prop :=
  0 <= VmExec.dest i < 2 ^ 32 /\ VmExec.ty i = type_class (VmExec.itype i) /\
  exists opnum, bget opcodes opnum = Some (VmExec.opc i) /\ operands_ok opnum (VmExec.opc i) (VmExec.u i).
End Inst.
#[local] Arguments op_ok : simpl never.
#[local] Arguments block_id : simpl never.
#[local] Arguments operand_ok : simpl never.

Lemma op_ok_mono f nc nc' v : nc <= nc' -> op_ok f nc v -> op_ok f nc' v.
Proof. intros ? H. by eapply operand_ok_mono. Qed.

Lemma operands_ok_mono f nc nc' nf apis opnum op u : nc <= nc' ->
  operands_ok f nc nf apis opnum op u -> operands_ok f nc' nf apis opnum op u.
Proof.
  intros Hle. pose proof (fun v => op_ok_mono f nc nc' v Hle) as Hm.
  assert (forall l, Forall (op_ok f nc) l -> Forall (op_ok f nc') l) as Hl by (intros; by eapply Forall_impl).
  assert (forall n u, simple_ok f nc n u -> simple_ok f nc' n u) as Hs.
  { intros n [] Hn; cbn in *; try done; naive_solver. }
  destruct op; cbn; naive_solver.
Qed.

Lemma inst_ok_mono f nc nc' nf apis i : nc <= nc' -> inst_ok f nc nf apis i -> inst_ok f nc' nf apis i.
Proof. intros Hle (? & ? & n & ? & ?). split; [done|]. split; [done|]. exists n. split; [done|]. by eapply operands_ok_mono. Qed.

(** ** Reading them *)

(** The chain of states from a reader to the end. *)
Ltac stays_chain :=
  first [eassumption | apply moved_stays; eassumption
        | (eapply stays_trans; [first [eassumption | apply moved_stays; eassumption]|]); stays_chain
        | apply stays_refl; first [eassumption | eapply st_line, moved_stays; eassumption | eapply st_line; eassumption]].
Ltac line_tac := first [eassumption | eapply st_line; stays_chain].

Section Read.
Context (len : Z) (mem : bool) (h : header) (apis : bitset_t) (stale : Z) (f : lfunc).
Context (Hnv : 0 <= f_numValues f < 2 ^ 17).

Abbreviation nconst s := (Z.of_nat (length (consts s))).
Abbreviation operand := (readOperand len mem (f_numValues f)).

(** A fact about an operand, once the reader has succeeded. *)
Definition read_ok (s : rst) (P : Z -> Prop) : Prop := rok s = true -> P (nconst s).

Lemma stays_nconst s s' : stays len s s' -> nconst s <= nconst s'.
Proof. intros H. pose proof (prefix_length _ _ (st_consts _ _ _ H)). lia. Qed.

Lemma read_ok_stays s s' (P : Z -> Prop) : stays len s s' -> (forall a b, a <= b -> P a -> P b) ->
  read_ok s P -> read_ok s' P.
Proof. intros Hs Hm Hp Hk. eapply Hm; [by apply stays_nconst|]. apply Hp. by eapply st_ok. Qed.

Lemma operand_read s : line len s -> exists v s', operand s = Val v s' /\ moved len s s' /\
  read_ok s' (fun nc => op_ok f nc v).
Proof. intros Hl. destruct (readOperand_spec len mem _ s Hl Hnv) as (v & s' & ? & ? & ?). eauto 10. Qed.

(** A sequence of operands. *)
Lemma operands_read n : forall i s, line len s -> exists l s',
  times n i (fun _ => operand) s = Val l s' /\ stays len s s' /\ length l = n /\
  read_ok s' (fun nc => Forall (op_ok f nc) l).
Proof.
  induction n as [|n IH]; intros i s Hl; cbn [times].
  { exists [], s. split; [done|]. split; [by apply stays_refl|]. split; [done|]. intros _. constructor. }
  unfold mbind, reader_bind. destruct (operand_read s Hl) as (v & s1 & -> & Hm & Hv).
  destruct (IH (i + 1) s1) as (l & s2 & -> & Hs & Hn & Hl2); [by eapply st_line, moved_stays|].
  exists (v :: l), s2. split; [done|]. split; [eapply stays_trans; [by apply moved_stays|done]|].
  split; [cbn; by f_equal|]. intros Hk. constructor; [|by apply Hl2].
  by eapply (read_ok_stays s1 s2 (fun nc => op_ok f nc v) Hs) in Hv; [apply Hv|intros; by eapply op_ok_mono].
Qed.

Lemma readBBID_read s : line len s -> exists b s', readBBID len (f_numBB f) s = Val b s' /\ moved len s s' /\
  (f_numBB f <= 2 ^ 16 -> rok s' = true -> block_id f b).
Proof.
  intros Hl. unfold readBBID, mbind, reader_bind.
  destruct (readNumber_spec len s Hl) as (v & s1 & -> & Hm & Hv). cbv zeta.
  destruct ((uint 32 v =? 0) || (f_numBB f <=? uint 32 v)) eqn:E; cbn.
  - eexists _, _. split; [done|]. split; [|done]. eapply moved_trans; [done|].
    apply moved_stays, moved_err. by eapply st_line, moved_stays.
  - destruct (rok s1) eqn:Ek; eexists _, _; (split; [done|]); (split; [done|]); intros Hb Hk; [|congruence].
    unfold block_id. pose proof (uint_range 32 v ltac:(lia)). rewrite (uint_small 16) by lia. lia.
Qed.

Lemma op_at s s' v : stays len s s' -> read_ok s (fun nc => op_ok f nc v) -> rok s' = true ->
  op_ok f (nconst s') v.
Proof. intros Hs Hv Hk. eapply read_ok_stays in Hv; [by apply Hv|done|intros; by eapply op_ok_mono]. Qed.

(** One reader. *)
Ltac read_step :=
  match goal with
  | |- context [match readNumber ?l ?s with _ => _ end] =>
      destruct (readNumber_spec l s) as (? & ? & -> & ? & ?); [line_tac|]
  | |- context [match readFixedNumber ?l ?w ?s with _ => _ end] =>
      destruct (readFixedNumber_spec l w s) as (? & ? & -> & ? & ?); [line_tac|lia|]
  | |- context [match readOperand _ _ _ ?s with _ => _ end] =>
      destruct (operand_read s) as (? & ? & -> & ? & ?); [line_tac|]
  | |- context [match readBBID _ _ ?s with _ => _ end] =>
      destruct (readBBID_read s) as (? & ? & -> & ? & ?); [line_tac|]
  | |- context [match readFuncID ?l ?n ?s with _ => _ end] =>
      destruct (readFuncID_spec l n s) as (? & ? & -> & ? & ?); [line_tac|]
  | |- context [match readAPIFuncID ?l ?a ?s with _ => _ end] =>
      destruct (readAPIFuncID_spec l a s) as (? & ? & -> & ? & ?); [line_tac|]
  | |- context [match times ?n ?i (fun _ => readOperand _ _ _) ?s with _ => _ end] =>
      destruct (operands_read n i s) as (? & ? & -> & ? & ? & ?); [line_tac|]
  end.
Ltac op_solve :=
  match goal with
  | |- op_ok _ _ _ => eapply op_at; [|eassumption|eassumption]; stays_chain
  | Hb : _ -> rok ?s1 = true -> block_id _ ?b |- block_id _ ?b =>
      apply Hb; [done|]; eapply st_ok; [|eassumption]; stays_chain
  end.

Lemma parse_cast_read op s : line len s ->
  gives ends (parse_cast mem stale len f op s) (fun u s' => stays len s s' /\
    (rok s' = true -> exists mask source size, u = VmExec.Cast mask source size /\
      op_ok f (nconst s') source /\ (op = OP_BC_SEXT -> bget (f_types f) source = Some mask))).
Proof.
  intros Hl. unfold parse_cast, mbind, reader_bind. cbv zeta. read_step.
  unfold lift at 1. destruct (bget _ _) as [mask|] eqn:Em; [|done].
  destruct (bool_decide (op = OP_BC_SEXT)) eqn:Eo.
  { apply bool_decide_eq_true in Eo. cbn. split; [stays_chain|]. intros Hk. eexists _, _, _. split; [done|].
    split; [op_solve|]. by intros _. }
  apply bool_decide_eq_false in Eo.
  destruct (mask =? 64); [|destruct (64 <=? mask); [done|]]; cbn;
    (split; [stays_chain|]); intros Hk; eexists _, _, _; (split; [done|]); (split; [op_solve|done]).
Qed.

Lemma parse_simple_read t opnum s : line len s ->
  gives ends (parse_simple mem len f t opnum s) (fun r s' => stays len s s' /\
    (rok s' = true -> exists n, bget operand_counts opnum = Some n /\ simple_ok f (nconst s') n (snd r))).
Proof.
  intros Hl. unfold parse_simple, mbind, reader_bind, lift. cbv zeta.
  destruct (bget operand_counts opnum) as [n|] eqn:En; [|done].
  destruct (Z.eqb_spec n 0) as [->|]; [cbn; split; [stays_chain|]; eauto|].
  destruct (Z.eqb_spec n 1) as [->|].
  { read_step. cbn. split; [stays_chain|]. intros Hk. exists 1. split; [done|]. split; [done|]. op_solve. }
  destruct (Z.eqb_spec n 2) as [->|].
  { do 2 read_step. cbn. split; [stays_chain|]. intros Hk. exists 2. split; [done|]. split; [done|].
    split; op_solve. }
  destruct (Z.eqb_spec n 3) as [->|].
  { do 3 read_step. cbn. split; [stays_chain|]. intros Hk. exists 3. split; [done|]. split; [done|].
    split; [|split]; op_solve. }
  cbn. split; [|done]. apply moved_stays. by apply moved_err.
Qed.

Lemma gives_bind {A B} {E} (m : reader A) (k : A -> reader B) s (Q : A -> rst -> Prop) (R : B -> rst -> Prop) :
  gives E (m s) Q -> (forall a s', Q a s' -> gives E (k a s') R) -> gives E ((m ≫= k) s) R.
Proof. unfold mbind, reader_bind. intros Hm Hk. destruct (m s); [by apply Hk|done|done]. Qed.

Lemma gives_impl {A} {E} (r : outcome A) (Q Q' : A -> rst -> Prop) :
  gives E r Q -> (forall a s, Q a s -> Q' a s) -> gives E r Q'.
Proof. destruct r; cbn; auto. Qed.

Lemma parse_icmp_read opnum s : line len s ->
  gives ends ((t ← readNumber len; parse_simple mem len f (uint 16 t) opnum) s) (fun r s' => stays len s s' /\
    (rok s' = true -> exists n, bget operand_counts opnum = Some n /\ simple_ok f (nconst s') n (snd r))).
Proof.
  intros Hl. unfold mbind, reader_bind. read_step.
  eapply gives_impl; [apply parse_simple_read; line_tac|]. intros r s' [Hs Hr]. split; [stays_chain|done].
Qed.

(** The operands of a call, with its function number [id] read by [readID]. *)
Lemma parse_call_read type (readID : reader Z) (P : Z -> Prop) s : line len s ->
  (forall s, line len s -> exists v s', readID s = Val v s' /\ moved len s s' /\ (rok s' = true -> P v)) ->
  gives ends ((numOp ← readFixedNumber len 1; s0 ← get;
    if rok s0 then
      if negb (cli_calloc mem numOp 4) then code CL_EMEM else
      id ← readID; ops ← times (Z.to_nat numOp) 0 (fun _ => operand);
      mret (type : Z, VmExec.CallOps ops [] numOp id)
    else mret (type, VmExec.NoOps)) s) (fun r s' => stays len s s' /\
    (rok s' = true -> exists ops n id, snd r = VmExec.CallOps ops [] n id /\ n = Z.of_nat (length ops) /\
      Forall (op_ok f (nconst s')) ops /\ P id)).
Proof.
  intros Hl HID. unfold mbind, reader_bind. read_step. unfold get. cbn [negb].
  match goal with |- context [rok ?x] => destruct (rok x) eqn:Ek end;
    [|cbn; split; [stays_chain|congruence]].
  destruct (negb _); [done|]. 
  match goal with |- context [match readID ?s with _ => _ end] =>
    destruct (HID s) as (? & ? & -> & ? & ?); [line_tac|] end.
  read_step. cbn. split; [stays_chain|]. intros Hk. eexists _, _, _. split; [done|]. split; [lia|].
  match goal with Hf : read_ok _ _ |- _ => split; [by apply Hf|] end.
  match goal with HP : _ -> P _ |- _ => apply HP end. eapply st_ok; [|eassumption]. stays_chain.
Qed.

Lemma parse_operands_read type opnum op s : line len s -> f_numBB f <= 2 ^ 16 ->
  gives ends (parse_operands mem stale len h apis f type opnum op s) (fun r s' => stays len s s' /\
    (rok s' = true -> operands_ok f (nconst s') (num_func h) apis opnum op (snd r))).
Proof.
  intros Hl Hb. unfold parse_operands. cbv zeta.
  destruct op; try (by apply parse_simple_read); try (by apply parse_icmp_read);
    try (eapply gives_bind; [by apply parse_cast_read|];
         intros u s' [Hs Hu]; cbn [gives mret reader_ret]; split; [done|]; exact Hu).
  - unfold mbind, reader_bind. do 3 read_step. cbn. split; [stays_chain|]. intros Hk.
    eexists _, _, _. split; [done|]. split; [op_solve|split; op_solve].
  - unfold mbind, reader_bind. read_step. cbn. split; [stays_chain|]. intros Hk.
    eexists. split; [done|]. op_solve.
  - unfold mbind, reader_bind. do 2 read_step. cbn. split; [stays_chain|]. intros Hk.
    eexists. split; [done|]. op_solve.
  - apply parse_call_read; [done|]. intros. by apply readFuncID_spec.
  - apply parse_call_read; [done|]. intros s0 Hl0.
    destruct (readAPIFuncID_spec len (fun i => match cli_bitset_test apis i with Some b => b | None => false end)
                s0 Hl0) as (v & s' & E & Hm & Hv).
    exists v, s'. split; [exact E|]. split; [done|]. intros Hk. destruct (Hv Hk) as [Ht _].
    destruct (cli_bitset_test apis v); [by subst|done].
  - unfold mbind, reader_bind. do 3 read_step. cbn. split; [stays_chain|]. intros Hk.
    eexists _, _, _. split; [done|]. split; [apply uint_range; lia|]. split; op_solve.
  - unfold mbind, reader_bind. do 3 read_step. cbn. split; [stays_chain|]. intros Hk.
    eexists _, _, _. split; [done|]. split; [apply uint_range; lia|]. split; op_solve.
  - unfold mbind, reader_bind. read_step. unfold get.
    match goal with |- context [rok ?x] => destruct (rok x) eqn:Ek end;
      [|cbn; split; [stays_chain|congruence]].
    destruct (negb _); [done|]. do 2 read_step. cbn. split; [stays_chain|]. intros Hk.
    eexists _, _, _, _. split; [done|]. split; [lia|].
    match goal with Hf : read_ok _ _ |- _ => by apply Hf end.
Qed.

Lemma operand_type_read op type u s :
  gives ends (operand_type f op type u s) (fun _ s' => s' = s).
Proof.
  unfold operand_type, get_optype, mbind, reader_bind, lift.
  destruct op, u; try done; destruct (_ <=? _); try done; by destruct (bget _ _).
Qed.

(** One instruction moves the cursor on, or ends the parsing. *)
Lemma parse_inst_read n s : line len s -> f_numBB f <= 2 ^ 16 ->
  gives ends (parse_inst mem stale len h apis f n s) (fun r s' => stays len s s' /\ rok s' = true /\
    off s < off s' /\ inst_ok f (nconst s') (num_func h) apis (snd r) /\ n < f_numInsts f).
Proof.
  intros Hl Hb. unfold parse_inst.
  eapply gives_bind with (Q := fun c s' => s' = s /\ bget (buf s) (off s) = Some c).
  { unfold peek, lift. destruct (bget _ _); done. }
  intros c s' [-> Hc].
  eapply gives_bind with (Q := fun r s' => stays len s s' /\ 0 <= snd r < 2 ^ 32).
  { destruct (Z.eqb_spec c 84) as [->|].
    - assert (off s < len) as Hlt.
      { destruct (decide (off s = len)) as [e|]; [|pose proof (line_off _ _ Hl); lia].
        pose proof (line_nul _ _ Hl). congruence. }
      cbn. split; [|cbn [snd]; lia]. pose proof (line_max _ _ Hl). pose proof (line_off _ _ Hl).
      rewrite (uint_small 32) by lia. apply moved_stays, moved_off; [done|lia].
    - unfold mbind, reader_bind. do 2 read_step. cbn. split; [stays_chain|]. cbn [snd]. apply uint_range. lia. }
  intros [[last type] dest] s1 [Hs1 Hd]. unfold mbind, reader_bind. read_step.
  unfold check_ok at 1. match goal with |- context [rok ?x] => destruct (rok x) eqn:Ek end; [|done].
  destruct (bget opcodes _) as [op|] eqn:Eop; [|done].
  match goal with |- context [parse_operands _ _ _ _ _ _ ?t ?o ?p ?s0] =>
    pose proof (parse_operands_read t o p s0 ltac:(line_tac) Hb) as Hp;
    destruct (parse_operands mem stale len h apis f t o p s0) as [[t' u] s2|c2|f2]; [|done|exact Hp] end.
  destruct Hp as [Hs2 Hu]. pose proof (operand_type_read op t' u s2) as Ht.
  destruct (operand_type f op t' u s2) as [t2 s3|c2|f2]; [|done|exact Ht]. cbn in Ht. subst s3.
  unfold check_ok. destruct (rok s2) eqn:Ek2; [|done]. destruct (Z.leb_spec (f_numInsts f) n); [done|].
  cbn. split; [stays_chain|]. split; [done|]. split.
  { pose proof (st_off _ _ _ Hs1). pose proof (st_off _ _ _ Hs2).
    match goal with Hm : moved _ s1 _ |- _ => destruct Hm as [_ Hm]; specialize (Hm Ek); lia end. }
  split; [|done]. split; [done|]. split; [done|]. eexists. split; [exact Eop|]. by apply Hu.
Qed.

(** The loop over the instructions of a block ends. *)
Lemma bb_loop_read fuel : forall acc s, line len s -> f_numBB f <= 2 ^ 16 -> len - off s < Z.of_nat fuel ->
  gives ends (bb_loop mem stale fuel len h apis f acc s) (fun l s' => stays len s s' /\ rok s' = true /\
    off s < off s' /\ insn_idx f + Z.of_nat (length l) <= f_numInsts f /\
    exists l', l = acc ++ l' /\ l' <> [] /\ Forall (inst_ok f (nconst s') (num_func h) apis) l').
Proof.
  induction fuel as [|fuel IH]; intros acc s Hl Hb Hf; [pose proof (line_off _ _ Hl); lia|].
  cbn [bb_loop]. eapply gives_bind; [by apply parse_inst_read|].
  intros [last i] s1 (Hs1 & Hk1 & Ho1 & Hi1 & Hn1). cbn [snd] in *. destruct last.
  - cbn. split; [done|]. split; [done|]. split; [done|]. split; [rewrite length_app; cbn; lia|].
    exists [i]. split; [done|]. split; [done|]. by constructor.
  - pose proof (st_line _ _ _ Hs1). eapply gives_impl; [apply IH; [done|done|lia]|].
    intros l s2 (Hs2 & Hk2 & Ho2 & Hn2 & l' & -> & Hne & Hl'). split; [stays_chain|]. split; [done|].
    split; [lia|]. split; [done|]. exists (i :: l'). rewrite <- app_assoc. split; [done|]. split; [done|].
    constructor; [|done]. eapply inst_ok_mono; [|done]. by apply stays_nconst.
Qed.

End Read.

(** Loops whose rounds move the cursor end. *)
Lemma for_loop_read {A} {E} len (body : Z -> reader A) n :
  (forall i s, line len s -> gives E (body i s) (fun _ s' => stays len s s' /\ off s < off s')) ->
  forall fuel i s, line len s -> len - off s < Z.of_nat fuel ->
  gives E (for_loop fuel i n body s) (fun l s' => stays len s s' /\ Z.of_nat (length l) = Z.max 0 (n - i)).
Proof.
  intros Hb. induction fuel as [|fuel IH]; intros i s Hl Hf; [pose proof (line_off _ _ Hl); lia|].
  cbn [for_loop]. destruct (Z.leb_spec n i); [cbn; split; [by apply stays_refl|lia]|].
  eapply gives_bind; [by apply Hb|]. intros a s1 [Hs1 Ho]. cbn beta.
  eapply gives_bind; [apply IH; [by eapply st_line|lia]|]. intros l s2 [Hs2 Hn]. cbn.
  split; [by eapply stays_trans|]. lia.
Qed.

Lemma times_read {A} {E} len (body : Z -> reader A) :
  (forall i s, line len s -> gives E (body i s) (fun _ s' => stays len s s')) ->
  forall n i s, line len s -> gives E (times n i body s) (fun l s' => stays len s s' /\ length l = n).
Proof.
  intros Hb. induction n as [|n IH]; intros i s Hl; cbn [times]; [cbn; split; [by apply stays_refl|done]|].
  eapply gives_bind; [by apply Hb|]. intros a s1 Hs1. cbn beta in Hs1 |- *.
  eapply gives_bind; [apply IH; by eapply st_line|]. intros l s2 [Hs2 <-]. cbn.
  split; [by eapply stays_trans|done].
Qed.

(** Single readers as results. *)
Lemma gives_number {E} len s : line len s -> gives E (readNumber len s) (fun v s' => moved len s s' /\ 0 <= v < 2 ^ 64).
Proof. intros Hl. destruct (readNumber_spec len s Hl) as (v & s' & -> & ? & ?). done. Qed.

Lemma gives_fixed {E} len w s : line len s -> 0 < w <= 8 ->
  gives E (readFixedNumber len w s) (fun v s' => moved len s s' /\ 0 <= v < 16 ^ w).
Proof. intros Hl Hw. destruct (readFixedNumber_spec len w s Hl Hw) as (v & s' & -> & ? & ?). done. Qed.

Lemma gives_check {E} s c : gives E (check_ok c s) (fun _ s' => s' = s /\ rok s = true).
Proof. unfold check_ok. by destruct (rok s) eqn:Ek. Qed.

Lemma gives_peek {E} len s : line len s -> gives E (peek s) (fun c s' => s' = s /\ bget (buf s) (off s) = Some c).
Proof.
  intros Hl. pose proof (line_off _ _ Hl). unfold peek, lift.
  destruct (line_get len s (off s) Hl ltac:(lia)) as (c & -> & _). done.
Qed.

Lemma gives_skip {E} len s c : line len s -> bget (buf s) (off s) = Some c -> c <> 0 ->
  gives E (skip 1 s) (fun _ s' => moved len s s').
Proof.
  intros Hl Hc Hz. pose proof (line_max _ _ Hl). pose proof (line_off _ _ Hl).
  assert (off s < len).
  { destruct (decide (off s = len)) as [e|]; [|lia]. pose proof (line_nul _ _ Hl). congruence. }
  cbn. rewrite (uint_small 32) by lia. apply moved_off; [done|lia].
Qed.

Lemma gives_typeid {E} len h tid s : line len s ->
  gives E (readTypeID len h tid s) (fun v s' => moved len s s' /\ 0 <= v < 2 ^ 16).
Proof.
  intros Hl. unfold readTypeID. eapply gives_bind; [by apply gives_number|]. intros v s1 [Hm Hv]. cbn beta.
  destruct (_ <=? v); cbn.
  - split; [|lia]. eapply moved_trans; [done|]. apply moved_stays, moved_err. by eapply st_line, moved_stays.
  - split; [done|]. apply uint_range. lia.
Qed.

(** A line starts at its first byte, which is not 0 once it was recognised. *)
Lemma gives_start {A} {E} len s0 s k (m : reader A) Q : line len s -> s = set_off s0 0 -> k <> 0 ->
  (line len (set_off s 1) -> gives E (m (set_off s 1)) Q) ->
  gives E ((_ ← goto 0; c ← peek; if negb (c =? k) then code CL_EMALFDB else _ ← goto 1; m) s) Q.
Proof.
  intros Hl Es Hk Hm. unfold mbind, reader_bind, goto.
  assert (set_off s 0 = s) as E0 by (subst s; done). rewrite E0.
  pose proof (gives_peek (E := E) len s Hl) as Hp. destruct (peek s) as [c s1|?|?]; [|done|exact Hp].
  destruct Hp as [-> Hc]. destruct (Z.eqb_spec c k) as [->|]; cbn [negb]; [|done].
  apply Hm. apply line_set_off; [done|].
  pose proof (line_nul _ _ Hl) as Hnul. pose proof (line_off _ _ Hl) as Ho. replace (off s) with 0 in * by (by subst s).
  destruct (decide (len = 0)) as [->|]; [congruence|lia].
Qed.

(** ** Functions *)

(** The blocks are consecutive, not empty, and start from instruction [i]. *)
Fixpoint tiles (l : list (Z * Z)) (i n : Z) : Prop :=
  match l with
  | [] => i = n
  | (a, k) :: l => a = i /\ 0 < k /\ tiles l (i + k) n
  end.

Lemma tiles_app l : forall i n k, tiles l i n -> 0 < k -> tiles (l ++ [(n, k)]) i (n + k).
Proof.
  induction l as [|[a j] l IH]; intros i n k; cbn; [intros -> ?; lia|].
  intros (-> & ? & ?) ?. split; [done|]. split; [done|]. by apply IH.
Qed.

(** A function whose header was read, with some of its blocks. *)
Record func_wf (num_func : Z) (apis : bitset_t) (f : lfunc) : Prop := {
  wf_args : 0 <= f_numArgs f < 16;
  wf_locals : 0 <= f_numLocals f < 2 ^ 16;
  wf_types : Z.of_nat (length (f_types f)) = f_numValues f;
  wf_bbs : 0 <= f_numBB f < 2 ^ 16;
  wf_insts : Forall (inst_ok f (Z.of_nat (length (f_constants f))) num_func apis) (allinsts f);
  wf_idx : insn_idx f <= f_numInsts f;
  wf_tiles : tiles (BBs f) 0 (insn_idx f) }.

Lemma func_values nf apis f : func_wf nf apis f -> 0 <= f_numValues f < 2 ^ 17.
Proof. intros []. unfold f_numValues. change (2 ^ 17) with 131072. change (2 ^ 16) with 65536 in *. lia. Qed.

(** One step of a parsing function: read, then go on from the new state. *)
Tactic Notation "gstep" uconstr(L) := eapply gives_bind; [eapply L; first [eassumption | eapply st_line; stays_chain | lia | idtac]|];
  let s := fresh "s" in let v := fresh "v" in intros v s; cbn beta.

Lemma parse_local_read {E} len s : line len s -> gives E (parse_local len s) (fun _ s' => stays len s s').
Proof.
  intros Hl. unfold parse_local. gstep gives_number. intros [Hm1 _]. gstep gives_fixed. intros [Hm2 _].
  cbn. stays_chain.
Qed.

Lemma parseFunctionHeader_read {E} mem len h tid fn s0 apis : line len s0 -> off s0 = 0 ->
  gives E (parseFunctionHeader mem len h tid fn s0) (fun f _ => func_wf (num_func h) apis f /\ BBs f = [] /\
    f_constants f = [] /\ fn < num_func h).
Proof.
  intros Hl Ho. unfold parseFunctionHeader. destruct (Z.leb_spec (num_func h) fn); [done|].
  eapply (gives_start len s0 s0 65); [done|by destruct s0; cbn in *; subst|done|]. intros Hl1.
  gstep gives_fixed. intros [Hm1 Hargs]. gstep gives_typeid. intros [Hm2 _].
  eapply gives_bind; [eapply gives_peek; line_tac|]. intros c sa [-> Hc]. cbn beta.
  destruct (Z.eqb_spec c 76) as [->|]; cbn [negb]; [|done].
  eapply gives_bind; [eapply gives_skip; [|exact Hc|done]; line_tac|]. intros [] sb Hm3. cbn beta.
  gstep gives_number. intros [Hm4 Hloc].
  eapply gives_bind; [apply gives_check|]. intros [] sc [-> Hk]. cbn beta.
  destruct (negb _); [done|].
  eapply gives_bind; [apply times_read; [intros; by apply parse_local_read|line_tac]|].
  intros tys sd [Hs4 Hn]. cbn beta.
  eapply gives_bind; [apply gives_check|]. intros [] se [-> Hk4]. cbn beta.
  eapply gives_bind; [eapply gives_peek; line_tac|]. intros c sf [-> Hc5]. cbn beta.
  destruct (Z.eqb_spec c 70) as [->|]; cbn [negb]; [|done].
  eapply gives_bind; [eapply gives_skip; [|exact Hc5|done]; line_tac|]. intros [] sg Hm6. cbn beta.
  gstep gives_number. intros [Hm7 Hi].
  eapply gives_bind; [apply gives_check|]. intros [] sh [-> _]. cbn beta.
  destruct (negb _); [done|]. gstep gives_number. intros [Hm8 Hb].
  eapply gives_bind; [apply gives_check|]. intros [] si [-> _]. cbn beta.
  destruct (negb _); [done|]. cbn. split; [|done].
  pose proof (uint_range 16 v1 ltac:(lia)). change (16 ^ 1) with 16 in Hargs.
  split; cbn; [done|done| |apply uint_range; lia|constructor|apply uint_range; lia|done].
  unfold f_numValues. cbn. lia.
Qed.

Lemma number_checked_read {E} len c s : line len s ->
  gives E ((n ← readNumber len; _ ← check_ok c; mret (uint 32 n)) s) (fun _ s' => stays len s s' /\ off s < off s').
Proof.
  intros Hl. gstep gives_number. intros [[Hs Hm] _].
  eapply gives_bind; [apply gives_check|]. intros [] sa [-> Hk]. cbn. auto.
Qed.

Lemma parse_dbgnodes_read {E} mem len f s : line len s ->
  gives E (parse_dbgnodes mem len f s) (fun _ s' => stays len s s').
Proof.
  intros Hl. unfold parse_dbgnodes. eapply gives_bind; [by eapply gives_peek|]. intros c sa [-> Hc]. cbn beta.
  destruct (c =? 68); [|cbn; by apply stays_refl].
  unfold mbind at 1, reader_bind at 1, skip. unfold mbind at 1, reader_bind at 1, get.
  pose proof (line_off _ _ Hl). pose proof (line_max _ _ Hl).
  cbn [off set_off]. rewrite (uint_small 32) by lia. destruct (Z.leb_spec len (off s + 3)); [done|].
  set (sb := set_off s (off s + 3)).
  assert (moved len s sb) as Hm0 by (apply moved_off; [done|lia]).
  gstep gives_number. intros [[Hs Hm] _].
  eapply gives_bind; [apply gives_check|]. intros [] sc [-> Hk]. cbn beta.
  destruct (negb _); [done|]. destruct (negb _); [done|].
  eapply gives_bind.
  { eapply (for_loop_read len); [intros; by apply number_checked_read|line_tac|].
    specialize (Hm Hk). cbn in Hm. lia. }
  intros l sd [Hs2 _]. cbn. stays_chain.
Qed.

(** A block is added to a well-formed function. *)
Lemma parseBB_read mem stale len h apis f bb s0 : func_wf (num_func h) apis f -> line len s0 -> off s0 = 0 ->
  consts s0 = f_constants f ->
  gives ends (parseBB mem stale len h apis f bb s0) (fun f' _ => func_wf (num_func h) apis f' /\
    length (BBs f') = S (length (BBs f)) /\ f_numBB f' = f_numBB f /\ bb < f_numBB f).
Proof.
  intros Hf Hl Ho Hcs. pose proof (func_values _ _ _ Hf) as Hnv. pose proof (wf_bbs _ _ _ Hf) as Hb.
  unfold parseBB. destruct (Z.leb_spec (f_numBB f) bb); [done|].
  eapply (gives_start len s0 s0 66); [done|by destruct s0; cbn in *; subst|done|]. intros Hl1.
  eapply gives_bind; [apply bb_loop_read; [done|done|lia|cbn; lia]|].
  intros l s (Hs & Hk & _ & Hn & l' & -> & Hne & Hi). cbn beta. cbn [app length] in *.
  eapply gives_bind with (Q := fun _ s' => stays len s s').
  { destruct (_ =? _); [|cbn; apply stays_refl; line_tac].
    eapply gives_bind; [eapply gives_peek; line_tac|]. intros c sa [-> Hc]. cbn beta.
    destruct (Z.eqb_spec c 69) as [->|]; cbn [negb]; [|done].
    eapply gives_impl; [eapply gives_skip; [|exact Hc|done]; line_tac|]. intros ? ?. apply moved_stays. }
  intros [] sb Hsb. cbn beta in Hsb |- *.
  eapply gives_bind; [apply parse_dbgnodes_read; by eapply st_line|]. intros dbg sc Hsc. cbn beta in Hsc |- *.
  unfold mbind, reader_bind, get. destruct (negb _); [done|]. cbn.
  assert (stays len (set_off s0 1) sc) as Hall by stays_chain.
  assert (consts s0 `prefix_of` consts sc) as Hp by apply (st_consts _ _ _ Hall).
  assert (Z.of_nat (length (consts s)) <= Z.of_nat (length (consts sc))) as Hle1.
  { pose proof (prefix_length _ _ (st_consts _ _ _ Hsb)). pose proof (prefix_length _ _ (st_consts _ _ _ Hsc)). lia. }
  rewrite Hcs in Hp. pose proof (prefix_length _ _ Hp).
  split; [|split; [rewrite length_app; cbn; lia|done]].
  destruct Hf. split; cbn; try done.
  - apply Forall_app. split.
    + eapply Forall_impl; [done|]. intros i Hi0. eapply inst_ok_mono in Hi0; [exact Hi0|lia].
    + eapply Forall_impl; [exact Hi|]. intros i Hi0. eapply inst_ok_mono in Hi0; [exact Hi0|lia].
  - unfold insn_idx in *. cbn. rewrite length_app. lia.
  - unfold insn_idx in *. cbn. rewrite length_app, Nat2Z.inj_add. apply tiles_app; [done|]. destruct l'; [done|cbn; lia].
Qed.

(** ** Types and debug information *)

Lemma parseType_read mem len h tid s : line len s -> gives ends (parseType mem len h tid s) (fun _ s' => stays len s s').
Proof.
  intros Hl. unfold parseType. gstep gives_number. intros [Hm _]. unfold mbind, reader_bind, get.
  destruct (rok _); cbn [negb]; [|cbn; stays_chain].
  destruct (negb _); [cbn; eapply stays_trans; [stays_chain|]; apply moved_stays, moved_err; line_tac|].
  eapply (gives_bind (times _ _ _)); [eapply (times_read len); [|line_tac]|].
  - intros. eapply gives_impl; [by apply gives_typeid|]. intros ? ? [? _]. by apply moved_stays.
  - intros l sa [Hs _]. cbn. stays_chain.
Qed.

Lemma parse_one_type_read mem len h tid types t s : line len s ->
  gives ends (parse_one_type mem len h tid types t s) (fun _ s' => stays len s s').
Proof.
  intros Hl. unfold parse_one_type. destruct (t =? 1); [|destruct (_ || _); [|destruct (_ || _); [|done]]].
  - gstep parseType_read. intros Hs. destruct v as [n l].
    eapply gives_bind; [apply gives_check|]. intros [] sa [-> Hk]. cbn beta. by destruct (n =? 0).
  - gstep parseType_read. intros Hs. destruct v as [n l].
    eapply gives_bind; [apply gives_check|]. intros [] sa [-> Hk]. done.
  - eapply gives_bind with (Q := fun _ s' => stays len s s').
    { destruct (t =? 4); [|cbn; by apply stays_refl].
      eapply gives_impl; [by apply (number_checked_read len CL_EMALFDB)|]. by intros ? ? []. }
    intros n sa Hsa. cbn beta in Hsa |- *. destruct (negb _); [done|].
    gstep gives_typeid. intros [Hm _].
    eapply gives_bind; [apply gives_check|]. intros [] sb [-> Hk]. cbn beta.
    destruct (t =? 5); [cbn; stays_chain|]. unfold mbind, reader_bind, lift.
    destruct (typesize types v); [|done]. destruct (typealign types v); [|done]. cbn. stays_chain.
Qed.

Lemma types_loop_read mem len h tid fuel : forall i types s, line len s -> len - off s < Z.of_nat fuel ->
  gives ends (types_loop mem fuel len h tid i types s) (fun _ s' => stays len s s').
Proof.
  induction fuel as [|fuel IH]; intros i types s Hl Hf; [pose proof (line_off _ _ Hl); lia|].
  cbn [types_loop]. destruct (_ <=? i); [cbn; by apply stays_refl|].
  gstep gives_fixed. intros [[Hs Hm] _].
  eapply gives_bind; [apply gives_check|]. intros [] sa [-> Hk]. cbn beta.
  eapply gives_bind; [apply parse_one_type_read; line_tac|]. intros ty sb Hsb. cbn beta in Hsb |- *.
  unfold mbind, reader_bind, lift. destruct (bset types i ty); [|done].
  specialize (Hm Hk). pose proof (st_off _ _ _ Hsb).
  eapply gives_impl; [apply IH; [line_tac|lia]|]. intros ? sc Hsc. stays_chain.
Qed.

Lemma parseTypes_read mem len h s0 : line len s0 -> off s0 = 0 ->
  gives ends (parseTypes mem len h s0) (fun _ _ => True).
Proof.
  intros Hl Ho. unfold parseTypes.
  eapply (gives_start len s0 s0 84); [done|by destruct s0; cbn in *; subst|done|]. intros Hl1.
  gstep gives_fixed. intros [[Hs Hm] _]. destruct (negb _) eqn:E; [done|].
  unfold mbind at 1, reader_bind at 1, lift. destruct (add_static_types _) as [types|]; [|done].
  eapply gives_bind; [apply types_loop_read; [line_tac|]|done].
  pose proof (st_off _ _ _ Hs). pose proof (line_off _ _ Hl1). cbn in *. lia.
Qed.

Lemma parse_element_read {E} mem len s : line len s ->
  gives E (parse_element mem len s) (fun _ s' => stays len s s' /\ off s < off s').
Proof.
  intros Hl. unfold parse_element. eapply gives_bind; [by eapply gives_peek|]. intros c sa [-> Hc]. cbn beta.
  destruct (c =? 124).
  - unfold mbind, reader_bind. destruct (readData_spec len mem s Hl) as ([d n] & s1 & -> & [Hs Hm] & _).
    unfold check_ok. destruct (rok s1) eqn:Ek; [|done]. cbn. auto.
  - gstep gives_number. intros [[Hs Hm] _].
    eapply gives_bind; [apply gives_check|]. intros [] sb [-> Hk]. cbn beta. specialize (Hm Hk).
    eapply gives_bind with (Q := fun _ s' => stays len s0 s').
    { destruct (negb _); gstep gives_number; intros [Hm2 _]; cbn; stays_chain. }
    intros e sc Hsc. cbn beta in Hsc |- *. eapply gives_bind; [apply gives_check|]. intros [] sd [-> _]. cbn.
    split; [stays_chain|]. pose proof (st_off _ _ _ Hsc). lia.
Qed.

Lemma parse_node_read {E} mem len s : line len s ->
  gives E (parse_node mem len s) (fun _ s' => stays len s s' /\ off s < off s').
Proof.
  intros Hl. unfold parse_node. gstep gives_number. intros [[Hs Hm] _].
  eapply gives_bind; [apply gives_check|]. intros [] sb [-> Hk]. cbn beta. specialize (Hm Hk).
  destruct (negb _); [done|]. pose proof (line_off _ _ Hl).
  eapply gives_impl; [eapply (for_loop_read len); [intros; by apply parse_element_read|line_tac|lia]|].
  intros l sc [Hsc _]. pose proof (st_off _ _ _ Hsc). split; [stays_chain|lia].
Qed.

Lemma parseMD_read {E} mem len cnt s0 : line len s0 -> off s0 = 0 ->
  gives E (parseMD mem len cnt s0) (fun _ s' => True).
Proof.
  intros Hl Ho. unfold parseMD.
  eapply (gives_start len s0 s0 68); [done|by destruct s0; cbn in *; subst|done|]. intros Hl1.
  gstep gives_number. intros [[Hs Hm] _].
  eapply gives_bind; [apply gives_check|]. intros [] sb [-> Hk]. cbn beta. specialize (Hm Hk). cbn in Hm.
  destruct (negb _); [done|]. pose proof (line_off _ _ Hl1).
  eapply gives_impl; [eapply (for_loop_read len); [intros; by apply parse_node_read|line_tac|lia]|done].
Qed.

(** ** Headers *)

(** Every value a computation gives satisfies [P]. *)
Definition yields {A} (m : reader A) (P : A -> Prop) : Prop := forall s a s', m s = Val a s' -> P a.

Lemma yields_bind {A B} (m : reader A) (k : A -> reader B) P : (forall a, yields (k a) P) -> yields (m ≫= k) P.
Proof.
  intros Hk s b s'. unfold mbind, reader_bind. destruct (m s) as [a s1|c|f]; [|done|done]. apply Hk.
Qed.

Lemma yields_code {A} c (P : A -> Prop) : yields (code c) P.
Proof. done. Qed.

Lemma yields_if {A} (b : bool) (m1 m2 : reader A) P :
  (b = true -> yields m1 P) -> (b = false -> yields m2 P) -> yields (if b then m1 else m2) P.
Proof. destruct b; auto. Qed.

(** The levels a header may ask for. *)
Definition level_ok (flevel : Z) (h : header) : Prop :=
  (formatlevel h = BC_FORMAT_096 \/ formatlevel h = BC_FORMAT_LEVEL) /\
  (minfunc h = 0 \/ minfunc h <= flevel) /\ (maxfunc h = 0 \/ flevel <= maxfunc h).

Lemma parseHeader_yields mem flevel len :
  yields (parseHeader mem flevel len) (fun h => level_ok flevel h /\ 0 <= linelength h).
Proof.
  unfold parseHeader. apply yields_bind. intros s. apply yields_if; [done|intros _].
  apply yields_bind. intros []. apply yields_bind. intros fl. cbv zeta. apply yields_bind. intros [].
  apply yields_if; [done|intros Hf]. do 6 (apply yields_bind; intros ?). apply yields_if; [done|intros Hv].
  do 8 (apply yields_bind; intros ?). apply yields_if; [done|intros _].
  apply yields_bind. intros c. apply yields_if; [done|intros _]. do 2 (apply yields_bind; intros ?).
  destruct (strtol _) as [n used]. apply yields_bind. intros e.
  do 3 (apply yields_if; [done|intros _]). intros s' h s'' [= <- _]. unfold level_ok. cbn.
  split; [|apply uint_range; lia]. lia.
Qed.

(** ** Sizes of types *)

(** The sizes are 32-bit values and the alignments are powers of two, or 0 for a
    type whose entry is not filled. *)
Definition type_ok (t : cli_bc_type) : Prop :=
  0 <= size t < 2 ^ 32 /\ align t ∈ [0; 1; 2; 4; 8].

Lemma typesize_int types ty : Z.land ty 0x7fff <= 64 -> exists n, typesize types ty = Some n /\ n ∈ [0; 1; 2; 4; 8].
Proof.
  intros Hle. unfold typesize. cbv zeta.
  destruct (_ =? 0); [eexists; split; [done|set_solver]|].
  destruct (_ <=? 8); [eexists; split; [done|set_solver]|].
  destruct (_ <=? 16); [eexists; split; [done|set_solver]|].
  destruct (_ <=? 32); [eexists; split; [done|set_solver]|].
  destruct (Z.leb_spec (Z.land ty 0x7fff) 64); [eexists; split; [done|set_solver]|lia].
Qed.

Lemma typesize_ok types ty n : Forall type_ok types -> typesize types ty = Some n -> 0 <= n < 2 ^ 32.
Proof.
  intros Ht. destruct (Z.le_gt_cases (Z.land ty 0x7fff) 64) as [Hle|Hgt].
  - destruct (typesize_int types ty Hle) as (k & -> & Hk). intros [= <-]. change (2 ^ 32) with 4294967296.
    repeat (apply elem_of_cons in Hk as [-> | Hk]; [lia|]). by apply elem_of_nil in Hk.
  - unfold typesize. cbv zeta. do 1 (destruct (Z.eqb_spec (Z.land ty 0x7fff) 0); [lia|]).
    do 4 (match goal with |- context [?a <=? ?b] => destruct (Z.leb_spec a b); [lia|] end).
    destruct (bget types _) as [t|] eqn:E; [|done]. intros [= <-]. pose proof (bget_Some _ _ _ E).
    rewrite bget_lookup in E by lia. by destruct (Forall_lookup_1 _ _ _ _ Ht E).
Qed.

Lemma typealign_ok types ty n : Forall type_ok types -> typealign types ty = Some n -> n ∈ [0; 1; 2; 4; 8].
Proof.
  intros Ht. unfold typealign. cbv zeta. destruct (Z.leb_spec (Z.land ty 0x7fff) 64).
  - destruct (typesize_int types (Z.land ty 0x7fff)) as (k & -> & Hk);
      [rewrite <- Z.land_assoc; change (Z.land 0x7fff 0x7fff) with 0x7fff; done|].
    intros [= <-]. destruct (negb _); set_solver.
  - destruct (bget types _) as [t|] eqn:E; [|done]. intros [= <-]. pose proof (bget_Some _ _ _ E).
    rewrite bget_lookup in E by lia. by destruct (Forall_lookup_1 _ _ _ _ Ht E).
Qed.

Lemma yields_lift {A B} (o : option A) (k : A -> reader B) P :
  (forall a, o = Some a -> yields (k a) P) -> yields (lift o ≫= k) P.
Proof.
  intros Hk s b s'. unfold mbind, reader_bind, lift. destruct o as [a|]; [|done]. by apply Hk.
Qed.

Lemma parse_one_type_ok mem len h tid types t : Forall type_ok types ->
  yields (parse_one_type mem len h tid types t) type_ok.
Proof.
  intros Ht. assert (forall k l n, type_ok {| tkind := k; containedTypes := l; numElements := n; size := 8; align := 8 |}) as H8.
  { intros. split; [cbn; lia|cbn; set_solver]. }
  unfold parse_one_type. apply yields_if; intros _; [|apply yields_if; intros _; [|apply yields_if; intros _; [|done]]].
  - apply yields_bind. intros [n l]. apply yields_bind. intros []. apply yields_if; [done|intros _].
    intros s a s' [= <- _]. apply H8.
  - apply yields_bind. intros [n l]. apply yields_bind. intros []. intros s a s' [= <- _].
    split; [cbn; lia|cbn; set_solver].
  - apply yields_bind. intros n. apply yields_if; [done|intros _]. apply yields_bind. intros c.
    apply yields_bind. intros []. apply yields_if; intros _; [intros s a s' [= <- _]; apply H8|].
    apply yields_lift. intros sz Hsz. apply yields_lift. intros al Hal. intros s a s' [= <- _].
    split; cbn; [apply uint_range; lia|by eapply typealign_ok].
Qed.

Lemma types_loop_ok mem len h tid fuel : forall i types, Forall type_ok types ->
  yields (types_loop mem fuel len h tid i types) (Forall type_ok).
Proof.
  induction fuel as [|fuel IH]; intros i types Ht; cbn [types_loop]; (apply yields_if; intros _;
    [by intros s a s' [= <- _]|]); [done|].
  apply yields_bind. intros t. apply yields_bind. intros [].
  intros s a s'. unfold mbind, reader_bind.
  destruct (parse_one_type mem len h tid types t s) as [ty s1|c|f] eqn:E; [|done|done].
  apply parse_one_type_ok in E; [|done]. unfold lift. destruct (bset types i ty) as [l|] eqn:Eb; [|done].
  apply bset_Some in Eb as [_ ->]. apply IH. by apply Forall_insert.
Qed.

Lemma parseTypes_ok mem len h : yields (parseTypes mem len h) (fun x => Forall type_ok (snd x)).
Proof.
  unfold parseTypes. apply yields_bind. intros []. apply yields_bind. intros c. apply yields_if; [done|intros _].
  apply yields_bind. intros []. apply yields_bind. intros tid. apply yields_if; [done|intros _].
  apply yields_lift. intros types Ha.
  assert (Forall type_ok types) as Ht.
  { assert (forall tys i l l', Forall type_ok l -> add_static_loop i tys l = Some l' -> Forall type_ok l') as Hs.
    { induction tys as [|t tys IH]; intros i l l' Hl; cbn [add_static_loop]; [by intros [= <-]|].
      destruct (bset l i _) as [l1|] eqn:Eb; [|done]. apply bset_Some in Eb as [_ ->]. apply IH.
      apply Forall_insert; [done|]. split; [cbn; lia|cbn; set_solver]. }
    eapply Hs; [|exact Ha]. apply Forall_replicate. split; [cbn; lia|cbn; set_solver]. }
  intros s x s'. unfold mbind, reader_bind. destruct (types_loop _ _ _ _ _ _ _ _) as [l s1|c1|f1] eqn:E; [|done|done].
  apply types_loop_ok in E; [|done]. by intros [= <- _].
Qed.

End BcLoadFacts.
