(* ===== verification/BcLoadSafe.v ===== *)
(** The loader as a whole: a loaded program is well-formed, and each part of a
    bytecode file is read in finitely many steps. *)
From stdpp Require Import base numbers list list_numbers gmap.
From Stdlib Require Import ZArith Lia Bool.
From S2P Require Import Prelude Bitset VmCore VmExec BcRead BcLoad BcLoadFacts.
Import Errors Alloc Bitset Reader BcRead ReaderFacts VmArith BcData BcLoad BcLoadFacts.
Local Open Scope Z_scope.

Module LoadInv.

(** ** The buffer *)

(** A computation keeps the size of the buffer and that it holds bytes. *)
Definition keep {A} (m : reader A) : Prop := forall s a s', m s = Val a s' ->
  length (buf s') = length (buf s) /\ (Forall byte (buf s) -> Forall byte (buf s')).

Lemma keep_same {A} (m : reader A) : (forall s a s', m s = Val a s' -> buf s' = buf s) -> keep m.
Proof. intros H s a s' E. by rewrite (H _ _ _ E). Qed.

Lemma keep_bind {A B} (m : reader A) (k : A -> reader B) : keep m -> (forall a, keep (k a)) -> keep (m ≫= k).
Proof.
  intros Hm Hk s b s'. unfold mbind, reader_bind. destruct (m s) as [a s1|c|f] eqn:E; [|done|done].
  intros E2. destruct (Hm _ _ _ E) as [L1 F1]. destruct (Hk _ _ _ _ E2) as [L2 F2]. split; [congruence|auto].
Qed.

Lemma keep_ret {A} (a : A) : keep (mret a). Proof. apply keep_same. by intros ? ? ? [= <- <-]. Qed.
Lemma keep_get : keep get. Proof. apply keep_same. by intros ? ? ? [= <- <-]. Qed.
Lemma keep_code {A} c : keep (A := A) (code c). Proof. by apply keep_same. Qed.
Lemma keep_err {A} (v : A) : keep (err v). Proof. apply keep_same. by intros ? ? ? [= <- <-]. Qed.
Lemma keep_lift {A} (o : option A) : keep (lift o).
Proof. apply keep_same. unfold lift. destruct o; [by intros ? ? ? [= <- <-]|done]. Qed.
Lemma keep_skip n : keep (skip n). Proof. apply keep_same. by intros ? ? ? [= <- <-]. Qed.
Lemma keep_goto n : keep (goto n). Proof. apply keep_same. by intros ? ? ? [= <- <-]. Qed.
Lemma keep_push v : keep (push_const v). Proof. apply keep_same. by intros ? ? ? [= <- <-]. Qed.
Lemma keep_peek : keep peek.
Proof. apply keep_same. intros s a s'. unfold peek, lift. destruct (bget _ _); [by intros [= <- <-]|done]. Qed.
Lemma keep_peek_at i : keep (peek_at i).
Proof. apply keep_same. intros s a s'. unfold peek_at, lift. destruct (bget _ _); [by intros [= <- <-]|done]. Qed.
Lemma keep_check c : keep (check_ok c).
Proof. apply keep_same. intros s a s'. unfold check_ok. destruct (rok s); [by intros [= <- <-]|done]. Qed.
Lemma keep_stuck {A} f : keep (A := A) (fun _ => Stuck f). Proof. by apply keep_same. Qed.
Lemma keep_res {A} (r : res A) : keep (res_reader r).
Proof. apply keep_same. unfold res_reader. destruct r; [by intros ? ? ? [= <- <-]|done|done]. Qed.

Lemma keep_or_byte : keep (or_byte 0x20).
Proof.
  intros s a s'. unfold or_byte. destruct (bget (buf s) (off s)) as [c|] eqn:Ec; [|done].
  destruct (bset _ _ _) as [b|] eqn:Eb; [|done]. apply bset_Some in Eb as [_ ->]. intros [= _ <-]. cbn.
  split; [apply length_insert|]. intros Hb. apply Forall_insert; [done|]. pose proof (byte_get _ _ _ Hb Ec) as Hc.
  unfold byte in *. split; [apply Z.lor_nonneg; lia|]. destruct (decide (c = 0)) as [->|]; [by vm_compute|].
  apply Z.log2_lt_cancel. rewrite Z.log2_lor by lia. change (Z.log2 256) with 8. change (Z.log2 32) with 5.
  assert (Z.log2 c < 8) by (apply Z.log2_lt_pow2; lia). lia.
Qed.

Lemma keep_number len : keep (readNumber len).
Proof.
  apply keep_same. intros s a s'. unfold readNumber. cbv zeta. repeat split_match; try done; by intros [= <- <-].
Qed.

Lemma keep_fixed len w : keep (readFixedNumber len w).
Proof.
  apply keep_same. intros s a s'. unfold readFixedNumber. cbv zeta. repeat split_match; try done; by intros [= <- <-].
Qed.

Lemma keep_times {A} n (body : Z -> reader A) : (forall i, keep (body i)) -> forall i, keep (times n i body).
Proof.
  intros Hb. induction n as [|n IH]; intros i; cbn [times]; [apply keep_ret|].
  apply keep_bind; [done|]. intros a. apply keep_bind; [done|]. intros l. apply keep_ret.
Qed.

Lemma keep_for {A} fuel n (body : Z -> reader A) : (forall i, keep (body i)) -> forall i, keep (for_loop fuel i n body).
Proof.
  intros Hb. induction fuel as [|fuel IH]; intros i; cbn [for_loop]; (destruct (n <=? i); [apply keep_ret|]);
    [apply keep_stuck|].
  apply keep_bind; [done|]. intros a. apply keep_bind; [done|]. intros l. apply keep_ret.
Qed.

Create HintDb keep.
#[local] Hint Resolve keep_ret keep_get keep_code keep_err keep_lift keep_skip keep_goto keep_push keep_peek keep_peek_at
  keep_check keep_stuck keep_res keep_or_byte keep_number keep_fixed keep_times keep_for : keep.

(** Goes through the statements of a parsing function. *)
Ltac keep_tac :=
  repeat first
    [ solve [auto 3 with keep]
    | apply keep_bind; [|intros ?]
    | apply keep_times; intros ?
    | apply keep_for; intros ?
    | match goal with |- keep (match ?x with _ => _ end) => destruct x end
    | progress cbv zeta ].

Lemma keep_readOperand len mem nv : keep (readOperand len mem nv).
Proof. unfold readOperand. keep_tac. Qed.
Lemma keep_readData len mem : keep (readData len mem).
Proof. unfold readData. keep_tac. Qed.
#[local] Hint Resolve keep_readOperand keep_readData : keep.
Lemma keep_readString len mem : keep (readString len mem).
Proof. unfold readString. keep_tac. Qed.
Lemma keep_readTypeID len h tid : keep (readTypeID len h tid).
Proof. unfold readTypeID. keep_tac. Qed.
Lemma keep_readBBID len n : keep (readBBID len n).
Proof. unfold readBBID. keep_tac. Qed.
Lemma keep_readFuncID len n : keep (readFuncID len n).
Proof. unfold readFuncID. keep_tac. Qed.
Lemma keep_readAPIFuncID len n : keep (readAPIFuncID len n).
Proof. unfold readAPIFuncID. keep_tac. Qed.
#[local] Hint Resolve keep_readString keep_readTypeID keep_readBBID keep_readFuncID keep_readAPIFuncID : keep.
Lemma keep_parseType mem len h tid : keep (parseType mem len h tid).
Proof. unfold parseType. keep_tac. Qed.
#[local] Hint Resolve keep_parseType : keep.
Lemma keep_parse_one_type mem len h tid types t : keep (parse_one_type mem len h tid types t).
Proof. unfold parse_one_type. keep_tac. Qed.
#[local] Hint Resolve keep_parse_one_type : keep.
Lemma keep_types_loop mem fuel len h tid : forall i types, keep (types_loop mem fuel len h tid i types).
Proof. induction fuel as [|fuel IH]; intros i types; cbn [types_loop]; keep_tac. Qed.
#[local] Hint Resolve keep_types_loop : keep.
Lemma keep_parseTypes mem len h : keep (parseTypes mem len h).
Proof. unfold parseTypes. keep_tac. Qed.

#[local] Hint Resolve keep_parseTypes : keep.

Lemma keep_parse_one_api mem apicalls apitypes fuel len h tid types maxapi st :
  keep (parse_one_api mem apicalls apitypes fuel len h tid types maxapi st).
Proof. unfold parse_one_api. keep_tac. Qed.
#[local] Hint Resolve keep_parse_one_api : keep.
Lemma keep_apis_loop mem apicalls apitypes n fuel len h tid types maxapi :
  forall st, keep (apis_loop mem apicalls apitypes n fuel len h tid types maxapi st).
Proof. induction n as [|n IH]; intros st; cbn [apis_loop]; keep_tac. Qed.
#[local] Hint Resolve keep_apis_loop : keep.
Lemma keep_parseApis mem apicalls apitypes fuel len h tid types :
  keep (parseApis mem apicalls apitypes fuel len h tid types).
Proof. unfold parseApis. keep_tac. Qed.

Lemma keep_type_components fuel types : forall id, keep (type_components fuel types id).
Proof. induction fuel as [|fuel IH]; intros id; cbn [type_components]; keep_tac. Qed.
Lemma keep_constant_loop fuel len comp : forall acc, keep (constant_loop fuel len comp acc).
Proof. induction fuel as [|fuel IH]; intros acc; cbn [constant_loop]; keep_tac. Qed.
#[local] Hint Resolve keep_type_components keep_constant_loop : keep.
Lemma keep_readConstant len comp : keep (readConstant len comp).
Proof. unfold readConstant. keep_tac. Qed.
#[local] Hint Resolve keep_readConstant : keep.
Lemma keep_parse_one_global mem fuel len h tid types : keep (parse_one_global mem fuel len h tid types).
Proof. unfold parse_one_global. keep_tac. Qed.
#[local] Hint Resolve keep_parse_one_global : keep.
Lemma keep_parseGlobals mem fuel len h tid types : keep (parseGlobals mem fuel len h tid types).
Proof. unfold parseGlobals. keep_tac. Qed.

Lemma keep_parse_element mem len : keep (parse_element mem len).
Proof. unfold parse_element. keep_tac. Qed.
#[local] Hint Resolve keep_parse_element : keep.
Lemma keep_parse_node mem len : keep (parse_node mem len).
Proof. unfold parse_node. keep_tac. Qed.
#[local] Hint Resolve keep_parse_node : keep.
Lemma keep_parseMD mem len cnt : keep (parseMD mem len cnt).
Proof. unfold parseMD. keep_tac. Qed.
Lemma keep_parse_local len : keep (parse_local len).
Proof. unfold parse_local. keep_tac. Qed.
#[local] Hint Resolve keep_parse_local : keep.
Lemma keep_parseFunctionHeader mem len h tid fn : keep (parseFunctionHeader mem len h tid fn).
Proof. unfold parseFunctionHeader. keep_tac. Qed.

Lemma keep_parse_cast mem stale len f op : keep (parse_cast mem stale len f op).
Proof. unfold parse_cast. keep_tac. Qed.
Lemma keep_parse_simple mem len f type opnum : keep (parse_simple mem len f type opnum).
Proof. unfold parse_simple. keep_tac. Qed.
#[local] Hint Resolve keep_parse_cast keep_parse_simple : keep.
Lemma keep_parse_operands mem stale len h apis f type opnum op :
  keep (parse_operands mem stale len h apis f type opnum op).
Proof. unfold parse_operands. keep_tac. Qed.
Lemma keep_operand_type f op type u : keep (operand_type f op type u).
Proof. unfold operand_type, get_optype. keep_tac. Qed.
#[local] Hint Resolve keep_parse_operands keep_operand_type : keep.
Lemma keep_parse_inst mem stale len h apis f n : keep (parse_inst mem stale len h apis f n).
Proof. unfold parse_inst. keep_tac. Qed.
#[local] Hint Resolve keep_parse_inst : keep.
Lemma keep_bb_loop mem stale fuel len h apis f : forall acc, keep (bb_loop mem stale fuel len h apis f acc).
Proof. induction fuel as [|fuel IH]; intros acc; cbn [bb_loop]; keep_tac. Qed.
Lemma keep_parse_dbgnodes mem len f : keep (parse_dbgnodes mem len f).
Proof. unfold parse_dbgnodes. keep_tac. Qed.
#[local] Hint Resolve keep_bb_loop keep_parse_dbgnodes : keep.
Lemma keep_parseBB mem stale len h apis f bb : keep (parseBB mem stale len h apis f bb).
Proof. unfold parseBB. keep_tac. Qed.

#[export] Hint Resolve keep_parseTypes keep_parseApis keep_parseGlobals keep_parseMD keep_parseFunctionHeader
  keep_parseBB : keep.

(** ** Lines *)

Lemma cstring_spec b : 0 ∈ b -> strlen b < Z.of_nat (length b) /\ bget b (strlen b) = Some 0.
Proof.
  unfold strlen. intros H0. rewrite bget_lookup, Nat2Z.id by lia.
  induction b as [|c b IH]; [by apply elem_of_nil in H0|]. cbn [cstring].
  destruct (Z.eqb_spec c 0) as [->|]; [cbn; split; [lia|done]|]. cbn [length].
  destruct IH as [? ?]; [by apply elem_of_cons in H0 as [|]|]. split; [lia|done].
Qed.

Lemma line_start b cs : 0 ∈ b -> Z.of_nat (length b) <= 2 ^ 31 -> Forall byte b ->
  line (strlen b) {| buf := b; off := 0; rok := true; consts := cs |}.
Proof.
  intros H0 Hl Hb. destruct (cstring_spec b H0). unfold strlen in *. split; cbn; [lia|lia|lia|done|done].
Qed.

Lemma get_line_spec k : forall input l r, get_line k input = (l, r) -> (length l <= k)%nat /\ input = l ++ r.
Proof.
  induction k as [|k IH]; intros [|c input] l r; cbn; try (by intros [= <- <-]; split; [cbn; lia|done]).
  destruct (c =? 10); [by intros [= <- <-]; split; [cbn; lia|done]|].
  destruct (get_line k input) as [l' r'] eqn:E. intros [= <- <-]. destruct (IH _ _ _ E) as [? ->].
  split; [cbn; lia|done].
Qed.

(** The buffer of a line has the given size, holds bytes, and is terminated. *)
Definition buf_ok (n : Z) (b : list Z) : Prop := Z.of_nat (length b) = n /\ Forall byte b.

Lemma fgets_spec n b input line rest : 0 < n -> buf_ok n b -> Forall byte input -> fgets n input = Some (line, rest) ->
  buf_ok n (cli_chomp (fill b line)) /\ 0 ∈ cli_chomp (fill b line) /\ Forall byte rest.
Proof.
  intros Hn [Hb Hf] Hi. unfold fgets. intros E.
  assert (Z.of_nat (length line) < n /\ input = line ++ rest) as [Hlen ->].
  { destruct (Z.leb_spec n 1); [injection E as <- <-; split; [cbn; lia|done]|].
    destruct input as [|c input]; [done|]. injection E as E. apply get_line_spec in E as [? ->]. split; [lia|done]. }
  apply Forall_app in Hi as [Hl Hr].
  assert (buf_ok n (fill b line)) as [Hfl Hff].
  { unfold fill, buf_ok. rewrite length_app. cbn [length]. rewrite length_drop. split; [lia|].
    apply Forall_app. split; [done|]. constructor; [unfold byte; lia|]. by apply Forall_drop. }
  assert (0 ∈ fill b line) as H0 by (unfold fill; set_solver).
  destruct (cstring_spec _ H0) as [Hs Hz]. unfold strlen in Hs, Hz.
  assert (forall m l, (chomped m l <= m)%nat) as Hc.
  { clear. induction m as [|m IH]; intros l; cbn; [lia|]. destruct (l !! m); [|lia]. destruct (_ || _); [|lia].
    specialize (IH l). lia. }
  unfold cli_chomp. set (k := chomped _ _). pose proof (Hc (length (cstring (fill b line))) (fill b line)) as Hk. fold k in Hk.
  split; [split|split; [|done]].
  - rewrite !length_app, length_take, length_replicate, length_drop. lia.
  - apply Forall_app. split; [by apply Forall_take|]. apply Forall_app. split; [|by apply Forall_drop].
    apply Forall_replicate. unfold byte. lia.
  - rewrite bget_lookup, Nat2Z.id in Hz by lia. apply elem_of_app. right. apply elem_of_app. right.
    rewrite (drop_S _ _ _ Hz). set_solver.
Qed.

(** ** The invariant of the loader *)

(** A function all of whose blocks were read. *)
Definition complete (c : cli_bc) (f : lfunc) : Prop := exists apis, uses_apis c = Some apis /\
  func_wf (num_func (hdr c)) apis f /\ insn_idx f = f_numInsts f /\ Z.of_nat (length (BBs f)) = f_numBB f.

(** The function that is being read, and its blocks so far. *)
Definition current (c : cli_bc) (n : Z) (f : lfunc) : Prop := exists apis, uses_apis c = Some apis /\
  func_wf (num_func (hdr c)) apis f /\ Z.of_nat (length (BBs f)) = n /\ (0 < n -> n < f_numBB f).

Definition load_inv (s : lstate) : Prop :=
  let c := bc s in
  match state s with
  | PARSE_BC_LSIG | PARSE_BC_TYPES | PARSE_BC_APIS => lfuncs c = [] /\ current_func s = 0
  | PARSE_BC_GLOBALS => lfuncs c = [] /\ current_func s = 0 /\ is_Some (uses_apis c)
  | PARSE_MD_OPT_HEADER | PARSE_FUNC_HEADER =>
      is_Some (uses_apis c) /\ current_func s = Z.of_nat (length (lfuncs c)) /\ Forall (complete c) (lfuncs c)
  | PARSE_BB => exists l f, lfuncs c = l ++ [f] /\ current_func s = Z.of_nat (length l) /\
      Forall (complete c) l /\ current c (lbb s) f /\ current_func s < num_func (hdr c)
  end.

Lemma load_inv_done s : load_inv s -> state s <> PARSE_BB ->
  current_func s = Z.of_nat (length (lfuncs (bc s))) /\ Forall (complete (bc s)) (lfuncs (bc s)).
Proof.
  unfold load_inv. destruct (state s); intros Hi Hn; try done; try (destruct Hi as (-> & -> & ?); by split);
    try (destruct Hi as (-> & ->); by split); by destruct Hi as (_ & ? & ?).
Qed.

Lemma on_line_inv {A} b cs skip (m : Z -> reader A) k n s' b' : buf_ok n b -> keep (m (strlen b)) ->
  on_line b cs skip m k = LNext s' b' ->
  buf_ok n b' /\ exists a s1, m (strlen b) {| buf := b; off := 0; rok := true; consts := cs |} = Val a s1 /\ s' = k a.
Proof.
  intros [Hl Hb] Hk. unfold on_line. destruct (m _ _) as [a s1|c|f] eqn:E; [|by destruct (_ && _)|done].
  intros [= <- <-]. destruct (Hk _ _ _ E) as [L F]. cbn in *. split; [split; [lia|auto]|eauto].
Qed.

Lemma func_header_inv mem s b c0 n s' b' : buf_ok n b -> 0 ∈ b -> n <= 2 ^ 31 ->
  is_Some (uses_apis (bc s)) -> current_func s = Z.of_nat (length (lfuncs (bc s))) ->
  Forall (complete (bc s)) (lfuncs (bc s)) -> state s = PARSE_MD_OPT_HEADER \/ state s = PARSE_FUNC_HEADER ->
  func_header_line mem s b c0 = LNext s' b' -> buf_ok n b' /\ load_inv s'.
Proof.
  intros Hb H0 Hn [apis Ha] Hc Hf Hst. unfold func_header_line. destruct (c0 =? 83).
  { intros [= <- <-]. split; [done|]. unfold load_inv. cbn. destruct Hst as [-> | ->]; by split. }
  intros E. apply (on_line_inv _ _ _ _ _ n) in E as (Hb' & f & s1 & E & ->); [|done|apply keep_parseFunctionHeader].
  split; [done|]. destruct Hb as [Hl Hby].
  pose proof (parseFunctionHeader_read (E := ends) mem (strlen b) (hdr (bc s)) (start_tid (bc s)) (current_func s)
    {| buf := b; off := 0; rok := true; consts := [] |} apis (line_start b [] H0 ltac:(lia) Hby) eq_refl) as Hp.
  rewrite E in Hp. destruct Hp as (Hwf & Hbb & Hcs & Hlt).
  unfold load_inv. cbn. exists (lfuncs (bc s)), f. split; [done|]. split; [done|]. split; [done|].
  split; [|done]. exists apis. split; [done|]. split; [done|]. rewrite Hbb. split; [done|lia].
Qed.

Lemma bb_line_inv mem stale s b n s' b' : buf_ok n b -> 0 ∈ b -> n <= 2 ^ 31 -> state s = PARSE_BB -> load_inv s ->
  bb_line mem stale s b = LNext s' b' -> buf_ok n b' /\ load_inv s'.
Proof.
  intros Hb H0 Hn Hst Hi. unfold load_inv in Hi. rewrite Hst in Hi.
  destruct Hi as (l & f & El & Ec & Hl & (apis & Ha & Hwf & Hlen & Hlt) & Hnf). pose proof Hb as [Hbl Hby].
  unfold bb_line. rewrite El, Ec, Ha, bget_lookup, Nat2Z.id by lia.
  rewrite list_lookup_middle by done.
  destruct (on_line _ _ _ _ _) as [s1 b1| | |] eqn:E; try done.
  apply (on_line_inv _ _ _ _ _ n) in E as (Hb1 & f' & s2 & E & ->); [|done|apply keep_parseBB].
  pose proof (parseBB_read mem stale (strlen b) (hdr (bc s)) apis f (lbb s)
    {| buf := b; off := 0; rok := true; consts := f_constants f |} Hwf
    (line_start b _ H0 ltac:(lia) Hby) eq_refl eq_refl) as Hp.
  rewrite E in Hp. destruct Hp as (Hwf' & Hlen' & Hnb & Hbb).
  cbn [bc current_func lbb set_funcs lfuncs]. rewrite bget_lookup, Nat2Z.id by lia.
  rewrite (insert_app_r_alt l [f]), Nat.sub_diag by lia. cbn [insert list_insert].
  rewrite list_lookup_middle by done.
  destruct (Z.leb_spec (f_numBB f') (lbb s + 1)) as [Hge|Hlt2].
  - destruct (Z.eqb_spec (insn_idx f') (f_numInsts f')) as [Heq|]; cbn [negb]; [|done]. intros [= <- <-].
    split; [done|]. unfold load_inv. cbn. split; [by exists apis|]. rewrite length_app. cbn. split; [lia|].
    apply Forall_app. split; [exact Hl|]. constructor; [|constructor]. exists apis. cbn.
    split; [done|]. split; [done|]. split; [done|]. lia.
  - intros [= <- <-]. split; [done|]. unfold load_inv. cbn. exists l, f'. split; [done|]. split; [done|].
    split; [exact Hl|]. split; [|lia]. exists apis. cbn. split; [done|]. split; [done|]. split; [lia|].
    intros _. lia.
Qed.

Lemma load_line_inv mem apicalls apitypes stale fuel s b n s' b' : buf_ok n b -> 0 ∈ b -> n <= 2 ^ 31 -> load_inv s ->
  load_line mem apicalls apitypes stale fuel s b = LNext s' b' -> buf_ok n b' /\ load_inv s'.
Proof.
  intros Hb H0 Hn Hi. unfold load_line. destruct (state s) eqn:Es; unfold load_inv in Hi; rewrite Es in Hi.
  - intros E. apply (on_line_inv _ _ _ _ _ n) in E as (Hb' & x & s1 & E & ->); [|done|apply keep_parseTypes].
    split; [done|]. unfold load_inv. cbn. tauto.
  - intros E. apply (on_line_inv _ _ _ _ _ n) in E as (Hb' & x & s1 & E & ->); [|done|apply keep_parseApis].
    split; [done|]. unfold load_inv. cbn. destruct Hi. split; [done|]. split; [done|]. by eexists.
  - intros E. apply (on_line_inv _ _ _ _ _ n) in E as (Hb' & x & s1 & E & ->); [|done|apply keep_parseGlobals].
    split; [done|]. unfold load_inv. cbn. destruct Hi as (Hl & Hc & Ha). rewrite Hl. by split.
  - intros [= <- <-]. split; [done|]. unfold load_inv. cbn. tauto.
  - destruct (bget b 0) as [c0|]; [|done]. destruct Hi as (Ha & Hc & Hf). destruct (c0 =? 68).
    + intros E. apply (on_line_inv _ _ _ _ _ n) in E as (Hb' & x & s1 & E & ->); [|done|apply keep_parseMD].
      split; [done|]. unfold load_inv. cbn. by split.
    + intros E. eapply func_header_inv; [..|exact E]; auto.
  - destruct (bget b 0) as [c0|]; [|done]. destruct Hi as (Ha & Hc & Hf).
    intros E. eapply func_header_inv; [..|exact E]; auto.
  - intros E. eapply bb_line_inv; [..|exact E]; try done. unfold load_inv. by rewrite Es.
Qed.

Lemma load_loop_inv mem apicalls apitypes stale k : forall fuel len s b input s' b',
  0 < len <= 2 ^ 31 -> buf_ok len b -> Forall byte input -> load_inv s ->
  load_loop mem apicalls apitypes stale k fuel len s b input = LNext s' b' -> load_inv s'.
Proof.
  induction k as [|k IH]; intros fuel len s b input s' b' Hl Hb Hin Hi; cbn [load_loop]; [done|].
  destruct (fgets len input) as [[line rest]|] eqn:Ef; [|by intros [= <- <-]].
  destruct (ending s); [by intros [= <- <-]|].
  destruct (fgets_spec len b input line rest ltac:(lia) Hb Hin Ef) as (Hb1 & H0 & Hr).
  destruct (load_line _ _ _ _ _ _ _) as [s1 b1| | |] eqn:E; try done.
  apply (load_line_inv _ _ _ _ _ _ _ len) in E as [Hb2 Hi2]; [|done|done|lia|done].
  by apply IH.
Qed.

(** The header is not changed by what follows it, and the sizes of the types are
    those of the line of types. *)
Definition types_inv (h : header) (s : lstate) : Prop := hdr (bc s) = h /\ Forall type_ok (types (bc s)).

Lemma load_line_types h mem apicalls apitypes stale fuel s b s' b' :
  load_line mem apicalls apitypes stale fuel s b = LNext s' b' -> types_inv h s -> types_inv h s'.
Proof.
  assert (forall A b cs skip (m : Z -> reader A) k s' b' (P : A -> Prop), yields (m (strlen b)) P ->
    on_line b cs skip m k = LNext s' b' -> exists a, s' = k a /\ P a) as Ho.
  { intros A b0 cs skip m k s0 b0' P Hy. unfold on_line. destruct (m _ _) eqn:E; [|by destruct (_ && _)|done].
    intros [= <- _]. apply Hy in E. by eexists. }
  assert (forall c0, func_header_line mem s b c0 = LNext s' b' -> types_inv h s -> types_inv h s') as Hh.
  { intros c0. unfold func_header_line. destruct (c0 =? 83); [by intros [= <- _]|]. intros E.
    by apply (Ho _ _ _ _ _ _ _ _ (fun _ => True)) in E as (f & -> & _). }
  unfold load_line. destruct (state s).
  - intros E. apply (Ho _ _ _ _ _ _ _ _ (fun x => Forall type_ok (snd x))) in E as (x & -> & Hx); [|apply parseTypes_ok].
    intros [? _]. by split.
  - intros E. by apply (Ho _ _ _ _ _ _ _ _ (fun _ => True)) in E as (x & -> & _).
  - intros E. by apply (Ho _ _ _ _ _ _ _ _ (fun _ => True)) in E as (x & -> & _).
  - by intros [= <- _].
  - destruct (bget b 0) as [c0|]; [|done]. destruct (c0 =? 68); [|apply Hh].
    intros E. by apply (Ho _ _ _ _ _ _ _ _ (fun _ => True)) in E as (x & -> & _).
  - destruct (bget b 0) as [c0|]; [|done]. apply Hh.
  - unfold bb_line. destruct (bget _ _) as [f|]; [|done]. destruct (uses_apis _) as [apis|]; [|done].
    destruct (on_line _ _ _ _ _) as [s1 b1| | |] eqn:E; try done.
    apply (Ho _ _ _ _ _ _ _ _ (fun _ => True)) in E as (x & -> & _); [|done].
    destruct (bget _ _) as [f'|]; [|done]. destruct (_ <=? _); [|by intros [= <- _]].
    destruct (negb _); [done|]. by intros [= <- _].
Qed.

Lemma load_loop_types h mem apicalls apitypes stale k : forall fuel len s b input s' b',
  load_loop mem apicalls apitypes stale k fuel len s b input = LNext s' b' -> types_inv h s -> types_inv h s'.
Proof.
  induction k as [|k IH]; intros fuel len s b input s' b'; cbn [load_loop]; [done|].
  destruct (fgets len input) as [[line rest]|]; [|by intros [= <- _]].
  destruct (ending s); [by intros [= <- _]|].
  destruct (load_line _ _ _ _ _ _ _) as [s1 b1| | |] eqn:E; try done.
  intros E2 Hs. eapply IH; [exact E2|]. by eapply load_line_types.
Qed.

(** What a loaded program satisfies. *)
Lemma loaded_spec mem apicalls apitypes stale fuel flevel junk input c :
  cli_bytecode_load mem apicalls apitypes stale fuel flevel junk input = Loaded c ->
  level_ok flevel (hdr c) /\ Forall type_ok (types c) /\
  (Forall byte input -> Forall byte junk ->
   Z.of_nat (length (lfuncs c)) = num_func (hdr c) /\ Forall (complete c) (lfuncs c)).
Proof.
  unfold cli_bytecode_load. destruct (fgets FILEBUFF input) as [[line rest]|] eqn:Ef; [|done]. cbv zeta.
  destruct (parseHeader _ _ _ _) as [h s1|c1|f1] eqn:Eh; [|by destruct (_ =? _)|done].
  apply parseHeader_yields in Eh as [Hlv Hlen].
  destruct (cli_malloc mem (linelength h)) eqn:Em; cbn [negb]; [|done].
  assert (0 < linelength h <= 2 ^ 31) as Hl.
  { revert Em. unfold cli_malloc, CLI_MAX_ALLOCATION. destruct (_ || _) eqn:E; [done|]. intros _.
    change (2 ^ 31) with 2147483648. lia. }
  destruct (load_loop _ _ _ _ _ _ _ _ _ _) as [s b| | |] eqn:El; try done.
  destruct (Z.eqb_spec (current_func s) (num_func (hdr (bc s)))) as [Heq|]; cbn [negb]; [|done]. intros [= <-].
  destruct (load_loop_types h _ _ _ _ _ _ _ _ _ _ _ _ El) as [Hh Ht]; [by split|].
  split; [by rewrite Hh|]. split; [done|]. intros Hin Hj.
  assert (forall n, 0 <= n -> buf_ok n (resize (Z.to_nat n) 0 junk)) as Hr.
  { intros n Hn. split; [rewrite length_resize; lia|]. apply Forall_resize; [unfold byte; lia|done]. }
  apply load_loop_inv in El; [|done|apply Hr; lia| |by unfold load_inv].
  2:{ destruct (fgets_spec FILEBUFF (resize (Z.to_nat FILEBUFF) 0 junk) input line rest) as (_ & _ & ?); try done.
      by apply Hr. }
  destruct (load_inv_done s El) as [Hc Hf].
  - intros Es. unfold load_inv in El. rewrite Es in El. destruct El as (? & ? & ? & ? & ? & ? & ?). lia.
  - split; [lia|done].
Qed.

End LoadInv.
