(* ===== verification/BcLoadProps.v ===== *)
(** The properties of the loader, with programs of the test suite as examples. *)
From stdpp Require Import base numbers list list_numbers gmap.
From Stdlib Require Import ZArith Lia Bool.
From S2P Require Import Prelude Bitset VmCore VmExec BcRead BcLoad ApiTables Samples BcLoadFacts BcLoadSafe.
Import Errors Alloc Bitset Reader BcRead ReaderFacts VmArith BcData BcLoad ApiTables Samples BcLoadFacts LoadInv.
Local Open Scope Z_scope.

Module LoadSamples.

(** The load of a program, with the tables of the API; 30 levels of nesting are more than these programs have. *)
Abbreviation load_sample input := (cli_bytecode_load true signatures cli_apicall_types 0 30 CL_FLEVEL [] input).

Lemma retmagic_loads : exists c, load_sample retmagic = Loaded c.
Proof. eexists. vm_compute. reflexivity. Qed.

End LoadSamples.
Import LoadSamples.

Module BcLoadProps.

(** The program has the declared functions, and each is complete. *)
Definition well_formed (c : cli_bc) : Prop :=
  Z.of_nat (length (lfuncs c)) = num_func (hdr c) /\ Forall (complete c) (lfuncs c).

(** C34. A loaded program is well-formed.  If [cli_bytecode_load] succeeds, the
    program has the declared number of functions; each function has at most 15
    arguments, a type for each of its values, the declared number of blocks and
    of instructions, the blocks are consecutive and not empty; the operands of
    each instruction are values, constants or marked globals, branches go to
    blocks of the function other than the first, calls go to functions of the
    program or to declared API functions. *)
Theorem loaded_program_wf mem apicalls apitypes stale fuel flevel junk input c :
  Forall byte input -> Forall byte junk ->
  cli_bytecode_load mem apicalls apitypes stale fuel flevel junk input = Loaded c ->
  well_formed c.
Proof. intros Hin Hj Hc. by apply (loaded_spec _ _ _ _ _ _ _ _ _ Hc). Qed.

Lemma loaded_program_wf_witness : exists c, load_sample retmagic = Loaded c /\ well_formed c.
Proof.
  destruct retmagic_loads as [c Hc]. exists c. split; [exact Hc|].
  apply (loaded_program_wf true signatures cli_apicall_types 0 30 CL_FLEVEL [] retmagic c); [|constructor|exact Hc].
  apply text_bytes_ok.
Defined.

(** The state in which a parser meets the line in buffer [b]. *)
Definition at_line (b cs : list Z) : rst := {| buf := b; off := 0; rok := true; consts := cs |}.

(** C35. The parts of a file are read in finitely many steps.  On any line (a
    buffer of at most 2^31 bytes that holds a 0) the parsing functions for types,
    debug information, function headers and basic blocks end, whatever the line
    holds; those for debug information and for function headers do not make any
    access outside an array either. *)
Theorem parsers_terminate mem stale h apis f bb tid fn cnt b cs :
  0 ∈ b -> Z.of_nat (length b) <= 2 ^ 31 -> Forall byte b -> func_wf (num_func h) apis f ->
  let s := at_line b cs in
  parseTypes mem (strlen b) h s <> Stuck Forever /\
  (f_constants f = cs -> parseBB mem stale (strlen b) h apis f bb s <> Stuck Forever) /\
  (forall e, parseMD mem (strlen b) cnt s <> Stuck e) /\
  (forall e, parseFunctionHeader mem (strlen b) h tid fn s <> Stuck e).
Proof.
  intros H0 Hl Hb Hf s. pose proof (line_start b cs H0 Hl Hb) as Hs. fold s in Hs.
  split; [|split; [|split]].
  - pose proof (parseTypes_read mem _ h s Hs eq_refl) as H. by destruct (parseTypes _ _ _ _) as [| |[]].
  - intros Ec. pose proof (parseBB_read mem stale _ h apis f bb s Hf Hs eq_refl (eq_sym Ec)) as H.
    by destruct (parseBB _ _ _ _ _ _ _ _) as [| |[]].
  - intros e. pose proof (parseMD_read (E := never) mem _ cnt s Hs eq_refl) as H.
    by destruct (parseMD _ _ _ _).
  - intros e. pose proof (parseFunctionHeader_read (E := never) mem _ h tid fn s apis Hs eq_refl) as H.
    by destruct (parseFunctionHeader _ _ _ _ _ _).
Qed.

(** A function header and a line that is no debug information. *)
Definition some_header : header :=
  {| formatlevel := 6; timestamp := 0; sigmaker := None; targetExclude := 0; bkind := 0; minfunc := 0; maxfunc := 0;
     maxresource := 0; compiler := None; num_types := 5; num_func := 1; linelength := 20 |}.
Definition empty_func : lfunc :=
  {| f_numArgs := 0; f_numLocals := 0; f_numInsts := 1; f_numBB := 1; f_returnType := 32; f_types := [];
     allinsts := []; BBs := []; f_constants := []; f_dbgnodes := None |}.

Lemma empty_func_wf apis : func_wf 1 apis empty_func.
Proof. split; cbn; try done; try lia. Qed.

Lemma parsers_terminate_witness :
  let s := at_line [68; 0x60; 0] [] in
  parseMD true 2 0 s <> Stuck OutOfBounds /\
  parseBB true 0 2 some_header {| bitset := []; bs_length := 0 |} empty_func 0 s <> Stuck Forever.
Proof.
  destruct (parsers_terminate true 0 some_header {| bitset := []; bs_length := 0 |} empty_func 0 69 0 0 [68; 0x60; 0] [])
    as (_ & HB & HM & _).
  - set_solver.
  - cbn. lia.
  - repeat constructor; unfold byte; lia.
  - apply empty_func_wf.
  - split; [exact (HM OutOfBounds)|exact (HB eq_refl)].
Defined.

(** The program is for a library of level [flevel]. *)
Definition supported (flevel : Z) (c : cli_bc) : Prop := level_ok flevel (hdr c).

(** Programs for another version are refused.  A program that is loaded has
    format 6 or 7, and the functionality level of the library lies in the range
    its header asks for, where 0 means no bound; other programs are skipped or
    rejected, never executed. *)
Theorem loaded_level_ok mem apicalls apitypes stale fuel flevel junk input c :
  cli_bytecode_load mem apicalls apitypes stale fuel flevel junk input = Loaded c -> supported flevel c.
Proof. intros Hc. by apply (loaded_spec _ _ _ _ _ _ _ _ _ Hc). Qed.

Lemma loaded_level_ok_witness : exists c, load_sample retmagic = Loaded c /\ supported CL_FLEVEL c.
Proof.
  destruct retmagic_loads as [c Hc]. exists c. split; [exact Hc|].
  exact (loaded_level_ok true signatures cli_apicall_types 0 30 CL_FLEVEL [] retmagic c Hc).
Defined.

End BcLoadProps.

(** * Malformed files *)
Module BcLoadDefects.
Import BcLoadProps.

Definition start (b : list Z) : rst := {| buf := b; off := 0; rok := true; consts := [] |}.

(** The four static types are stored without looking at the number of types. *)
Lemma static_types_overflow :
  parseTypes true 3 {| formatlevel := 6; timestamp := 0; sigmaker := None; targetExclude := 0; bkind := 0;
    minfunc := 0; maxfunc := 0; maxresource := 0; compiler := None; num_types := 3; num_func := 1; linelength := 20 |}
    (start [84; 0x65; 0x64; 0]) = Stuck OutOfBounds.
Proof. reflexivity. Qed.

(** [readTypeID] accepts four type numbers after the last one: here 71 in a table
    of 6 types, which are 65 to 70; its size is then looked up. *)
Lemma typeid_out_of_range :
  parseTypes true 8 {| formatlevel := 6; timestamp := 0; sigmaker := None; targetExclude := 0; bkind := 0;
    minfunc := 0; maxfunc := 0; maxresource := 0; compiler := None; num_types := 6; num_func := 1; linelength := 20 |}
    (start [84; 0x65; 0x64; 0x64; 0x60; 0x62; 0x67; 0x64; 0]) = Stuck OutOfBounds.
Proof. reflexivity. Qed.

(** API numbers start from 1, but 0 is not excluded. *)
Lemma api_zero :
  parseApis true signatures cli_apicall_types 30 8 some_header 69 []
    (start [69; 0x61; 0x61; 0x61; 0x61; 0x60; 0x60; 124; 0]) = Code CL_EMALFDB /\
  parseApis true signatures cli_apicall_types 30 9 some_header 69 []
    (start [69; 0x61; 0x61; 0x61; 0x61; 0x60; 0x60; 124; 0x60; 0]) = Stuck OutOfBounds.
Proof. split; reflexivity. Qed.

(** A cast of a constant looks up the type of a value that does not exist. *)
Lemma cast_of_constant :
  parse_cast true 0 3 empty_func OP_BC_ZEXT (start [0x41; 0x65; 0x64; 0]) = Stuck OutOfBounds.
Proof. reflexivity. Qed.

(** At the end of a line [readConstant] writes over the terminator and leaves the
    cursor behind it. *)
Lemma constant_overwrites_terminator :
  readConstant 1 1 (set_off (start [71; 0; 9]) 1) =
  Val [0] {| buf := [71; 0x20; 9]; off := 2; rok := false; consts := [] |}.
Proof. reflexivity. Qed.

(** The number of components of a constant has 16 bits: an array of 65537
    integers has one component. *)
Lemma components_truncated s :
  type_components 3 [{| tkind := DArrayType; containedTypes := [8]; numElements := 65537; size := 65537; align := 1 |}]
    65 s = Val 1 s.
Proof. reflexivity. Qed.

(** A structure that contains itself: the components are never counted. *)
Lemma recursive_type_diverges fuel s :
  type_components fuel [{| tkind := DStructType; containedTypes := [65]; numElements := 1; size := 0; align := 8 |}]
    65 s = Stuck Forever.
Proof.
  induction fuel as [|fuel IH]; [done|]. cbn [type_components].
  change (65 <=? 64) with false. change (65 - 65) with 0. cbv iota. unfold mbind, reader_bind, lift, bget. cbn [Z.ltb Z.compare].
  change (Z.to_nat 0) with 0%nat. cbn [lookup list_lookup tkind numElements containedTypes].
  change (Z.to_nat 1) with 1%nat. cbn [times]. unfold mbind, reader_bind. cbn [Z.ltb Z.compare].
  change (Z.to_nat 0) with 0%nat. cbn [lookup list_lookup]. by rewrite IH.
Qed.

End BcLoadDefects.
