(* ===== verification/BcPrepare.v ===== *)
(** Preparing a loaded program for the interpreter (libclamav/bytecode.c):
    [cli_bytecode_prepare_interpreter] lays out the values of each function and
    the globals, and replaces the numbers of the operands by their places;
    [cli_bytecode_prepare] chooses between the JIT and the interpreter. *)
From stdpp Require Import base numbers list list_numbers gmap.
From Stdlib Require Import ZArith Lia Bool.
From S2P Require Import Prelude Bitset VmCore VmExec JitRun BcRead BcLoad.
Import Errors Alloc VmPtr VmArith BcData.
Local Open Scope Z_scope.

Module BcPrepare.

Section Prepare.
(** Whether the C library has memory. *)
Variable mem : bool.
(** What fresh memory holds. *)
Variable junk : nat -> Z.

(** ** Layout *)

(** [(n + align - 1) & ~(align - 1)] in 32 bits. *)
Definition align_up (n align : Z) : Z := Z.land (uint 32 (n + align - 1)) (uint 32 (Z.lnot (align - 1))).

(** The loop over the types of the values or of the globals: the offset of each,
    and the size; an alignment of 0 fails the assertion. *)
Fixpoint layout (types : list cli_bc_type) (tys : list Z) (bytes : Z) : R (list Z * Z) :=
  match tys with
  | [] => RVal ([], bytes)
  | ty :: tys =>
      let? al := r_of_opt (typealign types ty) in
      if al =? 0 then RUndef else
      let off := align_up bytes al in
      let? sz := r_of_opt (typesize types ty) in
      let? (l, n) := layout types tys (uint 32 (off + sz)) in
      RVal (off :: l, n)
  end.

(** ** Globals *)

(** Writes of 1, 2, 4 or 8 bytes into the global bytes. *)
Fixpoint poke (n : nat) (b : list Z) (o v : Z) : option (list Z) :=
  match n with
  | O => Some b
  | S n => let* b := bset b o (uint 8 v) in poke n b (o + 1) (v / 256)
  end.

Fixpoint poke_all (n : nat) (sz : nat) (g : list Z) (i o : Z) (b : list Z) : option (list Z) :=
  match n with
  | O => Some b
  | S n =>
      let* v := bget g i in
      let* b := poke sz b o v in
      poke_all n sz g (i + 1) (o + Z.of_nat sz) b
  end.

Definition bcglobalid : Z := BcLoad.cli_apicall_maxglobal - BcLoad._FIRST_GLOBAL + 2.

(** The initial value of a global at offset [o]; only pointers and arrays of
    integers are initialised. *)
Definition init_global (types : list cli_bc_type) (gmap : list Z) (ty o : Z) (g b : list Z) : option (list Z) :=
  if ty <? 65 then Some b else
  let* t := bget types (ty - 65) in
  match tkind t with
  | DPointerType =>
      let* g1 := bget g 1 in
      if BcLoad._FIRST_GLOBAL <=? g1 then
        let* g0 := bget g 0 in
        poke 8 b o (ptr_compose (g1 - BcLoad._FIRST_GLOBAL + 1) g0)
      else if Z.of_nat (length gmap) <? g1 then Some b
      else
        let* m := bget gmap g1 in
        let* g0 := bget g 0 in
        poke 8 b o (ptr_compose bcglobalid (m + g0))
  | DArrayType =>
      let* c := bget (containedTypes t) 0 in
      let* elsize := typesize types c in
      if (elsize =? 1) || (elsize =? 2) || (elsize =? 4) || (elsize =? 8) then
        poke_all (Z.to_nat (numElements t)) (Z.to_nat elsize) g 0 o b
      else Some b
  | _ => let* _ := bget g 1 in Some b
  end.

Fixpoint init_globals (types : list cli_bc_type) (gmap tys offs : list Z) (gs : list (list Z)) (b : list Z)
    : option (list Z) :=
  match tys, offs, gs with
  | ty :: tys, o :: offs, g :: gs =>
      let* b := init_global types gmap ty o g b in init_globals types gmap tys offs gs b
  | _, _, _ => Some b
  end.

(** ** Operands *)

Section Operands.
Variables (bc : cli_bc) (f : lfunc).
(** The maps of the globals and of the values. *)
Variables (gmap map : list Z).

Definition totValues : Z := f_numValues f + Z.of_nat (length (f_constants f)) + num_globals bc.

Definition MAP (val : Z) : R Z :=
  if negb (Z.land val 0x80000000 =? 0) then
    let o := Z.land val 0x7fffffff in
    if num_globals bc <? o then RFail CL_EBYTECODE else
    let? g := r_of_opt (bget gmap o) in
    RVal (uint 32 (Z.lor 0x80000000 g))
  else if totValues <? val then RFail CL_EBYTECODE
  else r_of_opt (bget map val).

(** Whether value [val] is a stack object; undefined outside the types. *)
Definition is_alloca (val : Z) : R bool :=
  let? t := r_of_opt (bget (f_types f) val) in RVal (negb (Z.land t 0x8000 =? 0)).

Definition MAPPTR (val : Z) : R Z :=
  let? a := (if val <? f_numValues f then is_alloca val else RVal false) in
  if (a : bool) then
    let? m := r_of_opt (bget map val) in RVal (Z.lor m 0x40000000)
  else MAP val.

(** [get_geptypesize], -1 for a type that is no pointer. *)
Definition get_geptypesize (tid : Z) : R Z :=
  if uint 32 (num_types (hdr bc) + 65) <=? tid then RVal (-1)
  else if tid <=? 64 then RVal (-1)
  else
    let? ty := r_of_opt (bget (types bc) (tid - 65)) in
    if negb (bool_decide (tkind ty = DPointerType)) then RVal (-1) else
    let? c := r_of_opt (bget (containedTypes ty) 0) in
    r_of_opt (typesize (types bc) c).

(** The operands of a call and their sizes. *)
Fixpoint map_call (target : option lfunc) (ops : list Z) (k : Z) : R (list Z * list Z) :=
  match ops with
  | [] => RVal ([], [])
  | o :: ops =>
      let? m := MAPPTR o in
      let? sz := match target with
                 | Some t => let? ty := r_of_opt (bget (f_types t) k) in r_of_opt (typesize (types bc) ty)
                 | None => RVal 32
                 end in
      let? (l, ls) := map_call target ops (k + 1) in
      RVal (m :: l, uint 16 sz :: ls)
  end.

(** Whether the base of a [OP_BC_GEPZ] or [OP_BC_GEP1] is a global or a stack
    object. *)
Definition gep_base (b : Z) : R bool :=
  if negb (Z.land b 0x80000000 =? 0) then RVal true else is_alloca b.

(** The switch of [cli_bytecode_prepare_interpreter]: the new operands and the
    new type class. *)
Definition map_operands (i : VmExec.inst) : R (VmExec.operands * Z) :=
  let same u := RVal (u, VmExec.ty i) in
  match VmExec.opc i, VmExec.u i with
  | (OP_BC_ADD | OP_BC_SUB | OP_BC_MUL | OP_BC_UDIV | OP_BC_SDIV | OP_BC_UREM | OP_BC_SREM
     | OP_BC_SHL | OP_BC_LSHR | OP_BC_ASHR | OP_BC_AND | OP_BC_OR | OP_BC_XOR
     | OP_BC_ICMP_EQ | OP_BC_ICMP_NE | OP_BC_ICMP_UGT | OP_BC_ICMP_UGE | OP_BC_ICMP_ULT | OP_BC_ICMP_ULE
     | OP_BC_ICMP_SGT | OP_BC_ICMP_SGE | OP_BC_ICMP_SLT | OP_BC_ICMP_SLE | OP_BC_COPY | OP_BC_STORE),
    VmExec.Binop a b => let? a := MAP a in let? b := MAP b in same (VmExec.Binop a b)
  | (OP_BC_SEXT | OP_BC_ZEXT | OP_BC_TRUNC), VmExec.Cast mask source size =>
      let? source := MAP source in same (VmExec.Cast mask source size)
  | OP_BC_BRANCH, VmExec.Branch c t e => let? c := MAP c in same (VmExec.Branch c t e)
  | OP_BC_JMP, u => same u
  | OP_BC_RET, VmExec.Unary a => let? a := MAP a in same (VmExec.Unary a)
  | OP_BC_SELECT, VmExec.Three a b c =>
      let? a := MAP a in let? b := MAP b in let? c := MAP c in same (VmExec.Three a b c)
  | OP_BC_CALL_DIRECT, VmExec.CallOps ops _ numOps funcid =>
      if num_func (hdr bc) <? funcid then RFail CL_EBYTECODE else
      let? target := r_of_opt (bget (lfuncs bc) funcid) in
      if negb (numOps =? f_numArgs target) then RFail CL_EBYTECODE else
      if negb (numOps =? 0) && negb (cli_malloc mem (2 * numOps)) then RFail CL_EMEM else
      let? (ops, sizes) := map_call (Some target) ops 0 in
      same (VmExec.CallOps ops sizes numOps funcid)
  | OP_BC_CALL_API, VmExec.CallOps ops _ numOps funcid =>
      if 5 <? numOps then RFail CL_EBYTECODE else
      if negb (numOps =? 0) && negb (cli_malloc mem (2 * numOps)) then RFail CL_EMEM else
      let? (ops, sizes) := map_call None ops 0 in
      same (VmExec.CallOps ops sizes numOps funcid)
  | OP_BC_LOAD, VmExec.Unary a => let? a := MAPPTR a in same (VmExec.Unary a)
  | OP_BC_GEP1, VmExec.Three a b c =>
      let? g := gep_base b in
      if (g : bool) then RFail CL_EBYTECODE else
      let? b := MAP b in let? c := MAP c in
      let? sz := get_geptypesize a in
      if uint 32 sz =? 2 ^ 32 - 1 then RFail CL_EBYTECODE else same (VmExec.Three (uint 32 sz) b c)
  | OP_BC_GEPZ, VmExec.Three a b c =>
      let? g := gep_base b in
      let? b := MAP b in let? c := MAP c in
      RVal (VmExec.Three a b c, if (g : bool) then 0 else 3)
  | OP_BC_GEPN, u => same u
  | (OP_BC_MEMSET | OP_BC_MEMCPY | OP_BC_MEMMOVE | OP_BC_MEMCMP), VmExec.Three a b c =>
      let? a := MAPPTR a in let? b := MAPPTR b in let? c := MAP c in same (VmExec.Three a b c)
  | (OP_BC_RET_VOID | OP_BC_ISBIGENDIAN | OP_BC_ABORT), u => same u
  | (OP_BC_BSWAP16 | OP_BC_BSWAP32 | OP_BC_BSWAP64), VmExec.Unary a => let? a := MAP a in same (VmExec.Unary a)
  | OP_BC_PTRDIFF32, VmExec.Binop a b => let? a := MAPPTR a in let? b := MAPPTR b in same (VmExec.Binop a b)
  | OP_BC_PTRTOINT64, VmExec.Unary a => let? a := MAPPTR a in same (VmExec.Unary a)
  | OP_BC_INVALID, _ => RFail CL_EBYTECODE
  | _, _ => RUndef
  end.

(** The destination is looked up without a test. *)
Definition map_inst (i : VmExec.inst) : R VmExec.inst :=
  let? d := r_of_opt (bget map (VmExec.dest i)) in
  let? (u, ty) := map_operands i in
  RVal {| VmExec.opc := VmExec.opc i; VmExec.ty := ty; VmExec.itype := VmExec.itype i;
          VmExec.dest := d; VmExec.u := u |}.

End Operands.

(** Loops that collect results. *)
Fixpoint map_R {A B} (g : A -> R B) (l : list A) : R (list B) :=
  match l with
  | [] => RVal []
  | x :: l => let? y := g x in let? r := map_R g l in RVal (y :: r)
  end.

(** The block of [n] instructions from number [i] on. *)
Definition block (insts : list VmExec.inst) (p : Z * Z) : list VmExec.inst :=
  take (Z.to_nat (snd p)) (drop (Z.to_nat (fst p)) insts).

(** One round of the loop over the functions.  The map has room for the globals,
    which is never written. *)
Definition prepare_func (bc : cli_bc) (gmap : list Z) (f : lfunc) : R VmExec.func :=
  let n := Z.of_nat (length (f_constants f)) in
  if negb (cli_malloc mem (4 * totValues bc f)) then RFail CL_EMEM else
  let? (offs, bytes) := layout (types bc) (f_types f) 0 in
  let bytes := Z.land (uint 32 (bytes + 7)) (uint 32 (Z.lnot 7)) in
  let map := offs ++ ((fun k => uint 32 (bytes + 8 * Z.of_nat k)) <$> seq 0 (length (f_constants f)))
             ++ ((fun k => uint 32 (junk k)) <$> seq 0 (Z.to_nat (num_globals bc))) in
  let? insts := map_R (map_inst bc f gmap map) (allinsts f) in
  RVal {| VmExec.numArgs := f_numArgs f; VmExec.numBytes := uint 32 (bytes + 8 * n);
          VmExec.constants := f_constants f; VmExec.BB := block insts <$> BBs f |}.

(** [cli_bytecode_prepare_interpreter]: the functions, and the contents of the
    global bytes. *)
Definition cli_bytecode_prepare_interpreter (bc : cli_bc) : R (list VmExec.func * list Z) :=
  if negb (cli_malloc mem (8 * num_globals bc)) then RFail CL_EMEM else
  let? (gmap, bytes) := layout (types bc) (globaltys bc) 0 in
  if negb (bytes =? 0) && negb (cli_calloc mem 1 bytes) then RFail CL_EMEM else
  let? b := r_of_opt (init_globals (types bc) gmap (globaltys bc) gmap (globals bc)
                        (replicate (Z.to_nat bytes) 0)) in
  let? fs := map_R (prepare_func bc gmap) (lfuncs bc) in
  RVal (fs, b).

(** The program for the interpreter, with its globals in block [g]. *)
Definition prepared (fs : list VmExec.func) (b : list Z) (g : Z) : VmExec.bytecode :=
  {| VmExec.funcs := fs; VmExec.globalBytes := g; VmExec.numGlobalBytes := Z.of_nat (length b) |}.

(** ** All programs *)

(** A program as it was loaded, which the JIT keeps, or as it was prepared for
    the interpreter. *)
Inductive program := Plain (bc : cli_bc) | Interp (fs : list VmExec.func) (b : list Z).

(** The loop of [cli_bytecode_prepare] over the programs with their states. *)
Fixpoint prepare_loop (dconfmask : Z) (l : list (JitEngine.bc_state * program))
    : R (list (JitEngine.bc_state * program)) :=
  match l with
  | [] => RVal []
  | (st, p) :: l =>
      let? q := (match st, p with
                 | (JitEngine.bc_jit | JitEngine.bc_interp), _ => RVal (st, p)
                 | _, Interp _ _ => RVal (st, p)
                 | _, Plain bc =>
                     if negb (JitEngine.has dconfmask JitEngine.BYTECODE_INTERPRETER) then RVal (st, p)
                     else
                       let? (fs, b) := cli_bytecode_prepare_interpreter bc in
                       RVal (JitEngine.bc_interp, Interp fs b)
                 end) in
      let? r := prepare_loop dconfmask l in
      RVal (q :: r)
  end.

(** [cli_bytecode_prepare]: [jit] is [cli_bytecode_prepare_jit], which sets the
    states of the programs. *)
Definition cli_bytecode_prepare (jit : JitEngine.all_bc -> Z * JitEngine.all_bc) (dconfmask : Z)
    (all : JitEngine.all_bc) (bcs : list program) : R (list (JitEngine.bc_state * program)) :=
  let '(rc, all) := jit all in
  if rc =? CL_SUCCESS then RVal (zip (JitEngine.states all) bcs)
  else prepare_loop dconfmask (zip (JitEngine.states all) bcs).

End Prepare.
End BcPrepare.
