(* ===== verification/BcPlaces.v ===== *)
(** The places of operands: what preparing a program makes of the numbers of the
    values, and which instruction it makes of each instruction. *)
From stdpp Require Import base numbers list list_numbers gmap.
From Stdlib Require Import ZArith Lia Bool.
From S2P Require Import Prelude Bitset VmCore VmFacts VmExec BcRead BcLoad BcLoadFacts BcPrepare.
Import Errors Alloc VmArith BcData BcLoad ReaderFacts BcLoadFacts BcPrepare.
Local Open Scope Z_scope.

Module BcPlaces.

(** The mark of a global is a bit of its own. *)
Lemma mark_add g : 0 <= g < 2 ^ 31 -> uint 32 (Z.lor 0x80000000 g) = 2 ^ 31 + g.
Proof.
  intros Hg. assert (Z.lor 0x80000000 g = 2 ^ 31 + g) as ->; [|apply uint_small; lia].
  rewrite <- Z.lxor_lor, <- Z.add_nocarry_lxor; [done|..].
  all: apply Z.bits_inj'; intros n Hn; rewrite Z.land_spec, Z.bits_0; change 0x80000000 with (2 ^ 31);
    rewrite Z.pow2_bits_eqb by lia; destruct (Z.eqb_spec 31 n) as [<-|]; [|done]; rewrite andb_true_l;
    rewrite <- (Z.mod_small g (2 ^ 31)) by lia; apply Z.mod_pow2_bits_high; lia.
Qed.

(** The three instructions without operands. *)
Lemma no_operands opnum op n : bget opcodes opnum = Some op -> bget operand_counts opnum = Some n ->
  op = OP_BC_RET_VOID \/ op = OP_BC_ISBIGENDIAN \/ op = OP_BC_ABORT -> n = 0.
Proof.
  intros Ho Hn Hop. pose proof (bget_Some _ _ _ Ho) as Hr. rewrite bget_lookup in Ho by lia. rewrite bget_lookup in Hn by lia.
  destruct (Z.to_nat opnum) as [|k]; [cbn in Ho; naive_solver|].
  do 50 (destruct k as [|k]; [cbn in Ho, Hn; naive_solver|]). done.
Qed.

Section Places.
(** The program and the function; the places of the globals, those of the values,
    and where the constants begin. *)
Context (c : cli_bc) (f : lfunc) (gmap offs : list Z) (base : Z).
Abbreviation nc := (Z.of_nat (length (f_constants f))).

(** The place of value, constant or global number [v]: globals are marked in both
    numberings. *)
Definition val_place (v m : Z) : Prop :=
  (2 ^ 31 <= v /\ exists g, gmap !! Z.to_nat (v - 2 ^ 31) = Some g /\ m = 2 ^ 31 + g) \/
  (0 <= v < f_numValues f /\ offs !! Z.to_nat v = Some m) \/
  (f_numValues f <= v < f_numValues f + nc /\ m = base + 8 * (v - f_numValues f)).

(** Values that are objects on the stack. *)
Definition stack_object (v : Z) : bool :=
  match bget (f_types f) v with Some t => negb (Z.land t 0x8000 =? 0) | None => false end.

(** The operand is a pointer: the place of a stack object is marked. *)
Definition ptr_place (v m : Z) : Prop :=
  if stack_object v then exists o, offs !! Z.to_nat v = Some o /\ m = Z.lor o 0x40000000 else val_place v m.

(** Instructions whose first two operands are pointers. *)
Definition by_pointer (op : opcode) : bool :=
  match op with
  | OP_BC_LOAD | OP_BC_PTRTOINT64 | OP_BC_PTRDIFF32 | OP_BC_MEMSET | OP_BC_MEMCPY | OP_BC_MEMMOVE | OP_BC_MEMCMP => true
  | _ => false
  end.

Definition arg_place (op : opcode) : Z -> Z -> Prop := if by_pointer op then ptr_place else val_place.

(** The size of what a pointer of type [ty] points to. *)
Definition pointee_size (ty sz : Z) : Prop := exists t e, bget (types c) (ty - 65) = Some t /\ tkind t = DPointerType /\
  bget (containedTypes t) 0 = Some e /\ typesize (types c) e = Some sz.

(** The sizes of the arguments of a call, in 16 bits. *)
Definition arg_sizes (op : opcode) (id : Z) (n : nat) (sizes : list Z) : Prop :=
  match op with
  | OP_BC_CALL_DIRECT => exists t, bget (lfuncs c) id = Some t /\
      Forall2 (fun ty sz => uint 16 <$> typesize (types c) ty = Some sz) (take n (f_types t)) sizes
  | _ => sizes = replicate n 32
  end.

(** The operands of an instruction, before and after. *)
Definition operands_placed (op : opcode) (u u' : VmExec.operands) : Prop :=
  match op, u, u' with
  | OP_BC_GEPN, _, _ => u' = u
  | OP_BC_GEP1, VmExec.Three a b d, VmExec.Three a' b' d' => pointee_size a a' /\ val_place b b' /\ val_place d d'
  | OP_BC_GEPZ, VmExec.Three a b d, VmExec.Three a' b' d' => a' = a /\ val_place b b' /\ val_place d d'
  | _, VmExec.Unary a, VmExec.Unary a' => arg_place op a a'
  | _, VmExec.Binop a b, VmExec.Binop a' b' => arg_place op a a' /\ arg_place op b b'
  | _, VmExec.Three a b d, VmExec.Three a' b' d' => arg_place op a a' /\ arg_place op b b' /\ val_place d d'
  | _, VmExec.Cast mask v size, VmExec.Cast mask' v' size' => mask' = mask /\ size' = size /\ val_place v v'
  | _, VmExec.CallOps l _ n id, VmExec.CallOps l' sizes n' id' =>
      n' = n /\ id' = id /\ Forall2 ptr_place l l' /\ arg_sizes op id (length l) sizes
  | _, VmExec.Branch v t e, VmExec.Branch v' t' e' => val_place v v' /\ t' = t /\ e' = e
  | _, VmExec.Jump b, VmExec.Jump b' => b' = b
  | _, VmExec.NoOps, VmExec.NoOps => True
  | _, _, _ => False
  end.

(** The class of the result: [OP_BC_GEPZ] tells objects from pointers. *)
Definition class_of (i : VmExec.inst) : Z :=
  match VmExec.opc i, VmExec.u i with
  | OP_BC_GEPZ, VmExec.Three _ b _ => if (2 ^ 31 <=? b) || stack_object b then 0 else 3
  | _, _ => VmExec.ty i
  end.

(** The instruction [i] and what it is prepared as. *)
Record inst_placed (i i' : VmExec.inst) : Prop := {
  ip_opc : VmExec.opc i' = VmExec.opc i;
  ip_itype : VmExec.itype i' = VmExec.itype i;
  ip_ty : VmExec.ty i' = class_of i;
  ip_dest : VmExec.dest i < f_numValues f -> offs !! Z.to_nat (VmExec.dest i) = Some (VmExec.dest i');
  ip_operands : operands_placed (VmExec.opc i) (VmExec.u i) (VmExec.u i') }.

(** ** The maps give these places *)

Context (map : list Z).
Hypothesis types_ok : Forall type_ok (types c).
Hypothesis gmap_small : Forall (fun g => 0 <= g < 2 ^ 31) gmap.
Hypothesis values_small : 0 <= f_numValues f < 2 ^ 17.
Hypothesis consts_small : nc < 2 ^ 30.
Hypothesis map_values : forall v, 0 <= v < f_numValues f -> bget map v = offs !! Z.to_nat v.
Hypothesis map_consts : forall v, f_numValues f <= v < f_numValues f + nc -> bget map v = Some (base + 8 * (v - f_numValues f)).
Hypothesis values_types : Z.of_nat (length (f_types f)) = f_numValues f.

Lemma MAP_place v m : op_ok f nc v -> MAP c f gmap map v = RVal m -> val_place v m.
Proof using gmap_small values_small consts_small map_values map_consts.
  intros [Hv Hr]. unfold MAP, val_place. cbv zeta. destruct (VmOperandFacts.operand_bits v Hv) as [-> Hlow].
  destruct (Z.ltb_spec v (2 ^ 31)) as [Hlt|Hge]; cbn [negb].
  - destruct (_ <? v); [done|]. intros E. right. destruct (Z.lt_ge_cases v (f_numValues f)).
    + left. split; [lia|]. rewrite map_values in E by lia. destruct (offs !! _); cbn in E; [by injection E as <-|discriminate E].
    + right. assert (f_numValues f <= v < f_numValues f + nc) as Hc by lia. split; [done|]. rewrite map_consts in E by done.
      cbn in E. by injection E as <-.
  - rewrite Hlow by done. destruct (_ <? _); [done|]. intros E. left. split; [done|].
    rewrite bget_lookup in E by lia. destruct (gmap !! _) as [g|] eqn:Eg; cbn in E; [injection E as <-|discriminate E].
    exists g. split; [done|]. apply mark_add. exact (Forall_lookup_1 _ _ _ _ gmap_small Eg).
Qed.

Lemma stack_object_range v : stack_object v = true -> 0 <= v < f_numValues f.
Proof using values_types. unfold stack_object. destruct (bget _ _) eqn:E; [|done]. apply bget_Some in E. lia. Qed.

Lemma MAPPTR_place v m : op_ok f nc v -> MAPPTR c f gmap map v = RVal m -> ptr_place v m.
Proof using gmap_small values_small consts_small map_values map_consts values_types.
  intros Hv. unfold MAPPTR, is_alloca, ptr_place. pose proof (MAP_place v m Hv) as HM.
  destruct (stack_object v) eqn:Es.
  - pose proof (stack_object_range v Es). unfold stack_object in Es. destruct (Z.ltb_spec v (f_numValues f)); [|lia].
    destruct (bget (f_types f) v); [|done]. cbn [r_of_opt]. rewrite Es. rewrite map_values by lia.
    destruct (offs !! _) as [o|]; [|done]. intros [= <-]. by exists o.
  - destruct (v <? _); [|done]. unfold stack_object in Es. destruct (bget (f_types f) v); [|done]. cbn [r_of_opt].
    by rewrite Es.
Qed.

Lemma gep_base_spec b r : 0 <= b < 2 ^ 32 -> gep_base f b = RVal r -> r = (2 ^ 31 <=? b) || stack_object b.
Proof using.
  intros Hb. unfold gep_base, is_alloca, stack_object. destruct (VmOperandFacts.operand_bits b Hb) as [-> _].
  destruct (Z.ltb_spec b (2 ^ 31)); destruct (Z.leb_spec (2 ^ 31) b); try lia; cbn; [|by intros [= <-]].
  destruct (bget _ _); [|done]. by intros [= <-].
Qed.

Lemma geptypesize_spec ty sz : get_geptypesize c ty = RVal sz -> (uint 32 sz =? 2 ^ 32 - 1) = false -> pointee_size ty (uint 32 sz).
Proof using types_ok.
  unfold get_geptypesize, pointee_size. destruct (_ <=? ty); [by intros [= <-]|]. destruct (ty <=? 64); [by intros [= <-]|].
  destruct (bget (types c) (ty - 65)) as [t|] eqn:Et; [|done]. cbn [r_of_opt].
  destruct (bool_decide _) eqn:Ek; [|by intros [= <-]]. apply bool_decide_eq_true in Ek. cbn [negb].
  destruct (bget (containedTypes t) 0) as [e|] eqn:Ee; [|done]. cbn [r_of_opt].
  destruct (typesize (types c) e) as [n|] eqn:En; [|done]. intros [= <-] _. exists t, e.
  rewrite uint_small by (by eapply typesize_ok). done.
Qed.

Lemma map_call_place target ops : Forall (op_ok f nc) ops -> forall k l ls, map_call c f gmap map target ops (Z.of_nat k) = RVal (l, ls) ->
  Forall2 ptr_place ops l /\
  match target with
  | Some t => Forall2 (fun ty sz => uint 16 <$> typesize (types c) ty = Some sz) (take (length ops) (drop k (f_types t))) ls
  | None => ls = replicate (length ops) 32
  end.
Proof using gmap_small values_small consts_small map_values map_consts values_types.
  induction 1 as [|o ops Ho _ IH]; intros k l ls; cbn [map_call length].
  { intros [= <- <-]. split; [done|]. by destruct target. }
  destruct (MAPPTR c f gmap map o) as [m| | | |] eqn:Em; try done. apply MAPPTR_place in Em; [|done].
  destruct target as [t|].
  - destruct (bget (f_types t) (Z.of_nat k)) as [ty|] eqn:Ety; [|done]. cbn [r_of_opt].
    destruct (typesize (types c) ty) as [sz|] eqn:Esz; [|done]. cbn [r_of_opt].
    replace (Z.of_nat k + 1) with (Z.of_nat (S k)) by lia.
    destruct (map_call _ _ _ _ _ _ _) as [[l' ls']| | | |] eqn:El; try done. intros [= <- <-].
    destruct (IH _ _ _ El) as [H1 H2]. split; [by constructor|].
    rewrite bget_lookup, Nat2Z.id in Ety by lia. rewrite (drop_S _ _ _ Ety). cbn [take].
    constructor; [by rewrite Esz|done].
  - replace (Z.of_nat k + 1) with (Z.of_nat (S k)) by lia.
    destruct (map_call _ _ _ _ _ _ _) as [[l' ls']| | | |] eqn:El; try done. intros [= <- <-].
    destruct (IH _ _ _ El) as [H1 ->]. split; [by constructor|done].
Qed.

(** The operands that the loader has checked. *)
Ltac destruct_exists H := match type of H with
  | exists _, _ => let x := fresh "x" in destruct H as [x H]; destruct_exists H
  | _ /\ _ => let H' := fresh "H" in destruct H as [H' H]; destruct_exists H'; destruct_exists H
  | simple_ok _ _ _ _ => cbn [simple_ok] in H; destruct_exists H
  | False => destruct H
  | _ => idtac
  end.

(** A step of [map_operands]. *)
Ltac place_step :=
  match goal with
  | |- (match MAP ?c ?f ?g ?m ?v with _ => _ end) = _ -> _ =>
      let E := fresh "E" in destruct (MAP c f g m v) as [?| | | |] eqn:E; try done; apply MAP_place in E; [|assumption]
  | |- (match MAPPTR ?c ?f ?g ?m ?v with _ => _ end) = _ -> _ =>
      let E := fresh "E" in destruct (MAPPTR c f g m v) as [?| | | |] eqn:E; try done; apply MAPPTR_place in E; [|assumption]
  | |- (if ?b then _ else _) = _ -> _ => destruct b; try done
  end.

Lemma map_operands_placed mem apis i u ty :
  inst_ok f nc (num_func (hdr c)) apis i -> map_operands mem c f gmap map i = RVal (u, ty) ->
  operands_placed (VmExec.opc i) (VmExec.u i) u /\ ty = class_of i.
Proof.
  intros (_ & _ & opnum & Hop & Hu). unfold map_operands, class_of. cbv zeta.
  destruct (VmExec.opc i) eqn:Eo; try done; destruct (VmExec.u i) eqn:Eu; try done;
    cbn [operands_ok] in Hu; destruct_exists Hu; simplify_eq; try done.
  all: try (repeat place_step; intros [= <- <-]; done).
  all: try match goal with Hn : bget operand_counts _ = Some _ |- _ =>
    exfalso; pose proof (no_operands _ _ _ Hop Hn ltac:(tauto)); discriminate end.
  - destruct (_ <? _); [done|]. destruct (bget (lfuncs c) x1) as [t|] eqn:Et; [|done]. cbn [r_of_opt]. do 2 place_step.
    destruct (map_call _ _ _ _ _ _ _) as [[l ls]| | | |] eqn:Em; try done. intros [= <- <-]. split; [|done].
    apply (map_call_place (Some t) x ltac:(assumption) 0) in Em as [Hm1 Hm2]. rewrite drop_0 in Hm2. cbn. split; [done|]. split; [done|]. split; [done|]. by exists t.
  - do 2 place_step. destruct (map_call _ _ _ _ _ _ _) as [[l ls]| | | |] eqn:Em; try done. intros [= <- <-]. split; [|done].
    by apply (map_call_place None x ltac:(assumption) 0) in Em as [Hm1 Hm2].
  - destruct (gep_base f x0) as [[]| | | |]; try done. do 2 place_step.
    destruct (get_geptypesize c x) as [sz| | | |] eqn:Es; try done. destruct (_ =? _) eqn:En; [done|].
    intros [= <- <-]. split; [|done]. split; [by apply geptypesize_spec|done].
  - destruct (gep_base f x0) as [g| | | |] eqn:Eg; try done. apply gep_base_spec in Eg as ->; [|match goal with Ho : op_ok _ _ x0 |- _ => apply Ho end].
    do 2 place_step. by intros [= <- <-].
Qed.

(** Every instruction is prepared as it should. *)
Lemma map_inst_placed mem apis i i' :
  inst_ok f nc (num_func (hdr c)) apis i -> map_inst mem c f gmap map i = RVal i' -> inst_placed i i'.
Proof.
  intros Hi. unfold map_inst. destruct (bget map (VmExec.dest i)) as [d|] eqn:Ed; [|done]. cbn [r_of_opt].
  destruct (map_operands mem c f gmap map i) as [[u ty]| | | |] eqn:Em; try done. intros [= <-].
  destruct (map_operands_placed _ _ _ _ _ Hi Em) as [Ho ->]. split; try done. cbn. intros Hd.
  rewrite <- map_values; [done|]. split; [apply Hi|done].
Qed.
End Places.
End BcPlaces.
