(* ===== verification/BcPrepFacts.v ===== *)
(** The layout of a prepared program, and what its instructions look like. *)
From stdpp Require Import base numbers list list_numbers gmap.
From Stdlib Require Import ZArith Lia Bool.
From S2P Require Import Prelude Bitset VmCore VmExec VmInv VmSafe JitRun BcRead BcLoad BcLoadFacts BcLoadSafe BcPrepare BcPlaces.
Import Errors Alloc VmPtr VmMem VmArith BcData BcLoad ReaderFacts BcLoadFacts LoadInv BcPrepare BcPlaces.
Local Open Scope Z_scope.

Module BcPrepFacts.

(** ** Layout *)

(** The offsets of values of the given types, from [from] to [to]: each is
    aligned, and the values do not overlap. *)
Fixpoint placed (types : list cli_bc_type) (tys offs : list Z) (from to : Z) : Prop :=
  match tys, offs with
  | [], [] => from <= to
  | ty :: tys, o :: offs =>
      exists al sz, typealign types ty = Some al /\ typesize types ty = Some sz /\ 0 < al /\
        from <= o /\ o `mod` al = 0 /\ placed types tys offs (o + sz) to
  | _, _ => False
  end.

(** An upper bound of the size of a layout. *)
Fixpoint room (types : list cli_bc_type) (tys : list Z) : Z :=
  match tys with
  | [] => 0
  | ty :: tys => 7 + match typesize types ty with Some sz => sz | None => 0 end + room types tys
  end.

Lemma align_up_spec n al : al ∈ [1; 2; 4; 8] -> 0 <= n -> n + 7 < 2 ^ 32 ->
  n <= align_up n al < n + al /\ align_up n al `mod` al = 0.
Proof.
  intros Hal Hn Hb.
  assert (exists k, 0 <= k <= 3 /\ al = 2 ^ k) as (k & Hk & ->).
  { repeat (apply elem_of_cons in Hal as [-> | Hal]; [first [by exists 0 | by exists 1 | by exists 2 | by exists 3]|]).
    by apply elem_of_nil in Hal. }
  assert (0 < 2 ^ k <= 8) as Hp.
  { split; [apply pow2_gt0; lia|]. change 8 with (2 ^ 3). apply Z.pow_le_mono_r; lia. }
  unfold align_up. rewrite (uint_small 32 (n + 2 ^ k - 1)) by lia.
  assert (Z.land (n + 2 ^ k - 1) (uint 32 (Z.lnot (2 ^ k - 1))) = (n + 2 ^ k - 1) / 2 ^ k * 2 ^ k) as ->.
  { apply Z.bits_inj'. intros i Hi. rewrite Z.land_spec.
    rewrite <- Z.shiftl_mul_pow2, <- Z.shiftr_div_pow2 by lia. rewrite Z.shiftl_spec by done.
    unfold uint. destruct (decide (i < 32)).
    - rewrite Z.mod_pow2_bits_low, Z.lnot_spec by lia.
      replace (2 ^ k - 1) with (Z.ones k) by (rewrite Z.ones_equiv; lia).
      destruct (decide (i < k)).
      + rewrite Z.ones_spec_low, andb_false_r by lia. symmetry. apply Z.testbit_neg_r. lia.
      + rewrite Z.ones_spec_high, andb_true_r by lia. rewrite Z.shiftr_spec by lia. f_equal. lia.
    - rewrite Z.mod_pow2_bits_high, andb_false_r by lia. symmetry.
      rewrite Z.shiftr_spec by lia. replace (i - k + k) with i by lia.
      rewrite <- (Z.mod_small (n + 2 ^ k - 1) (2 ^ 32)) by lia. apply Z.mod_pow2_bits_high. lia. }
  split; [|apply Z.mod_mul; lia].
  pose proof (Z.div_mod (n + 2 ^ k - 1) (2 ^ k) ltac:(lia)).
  pose proof (Z.mod_pos_bound (n + 2 ^ k - 1) (2 ^ k) ltac:(lia)). lia.
Qed.

Lemma room_nonneg types tys : Forall type_ok types -> 0 <= room types tys.
Proof.
  intros Ht. induction tys as [|ty tys IH]; cbn; [lia|].
  destruct (typesize types ty) as [sz|] eqn:E; [|lia]. apply typesize_ok in E; [|done]. lia.
Qed.

(** A layout that fits is free of wrap-around. *)
Lemma layout_placed types tys : Forall type_ok types -> forall n l m, 0 <= n -> n + room types tys + 7 < 2 ^ 32 ->
  layout types tys n = RVal (l, m) -> placed types tys l n m /\ n <= m <= n + room types tys.
Proof.
  intros Ht. induction tys as [|ty tys IH]; intros n l m Hn Hb; cbn [layout room] in *.
  { intros [= <- <-]. cbn. lia. }
  pose proof (room_nonneg types tys Ht).
  destruct (typealign types ty) as [al|] eqn:Ea; [|done]. cbn [r_of_opt].
  destruct (Z.eqb_spec al 0); [done|].
  destruct (typesize types ty) as [sz|] eqn:Es; [|done]. cbn [r_of_opt].
  assert (al ∈ [1; 2; 4; 8]) as Hal by (apply typealign_ok in Ea; [set_solver|done]).
  assert (0 < al <= 8) as Hal8.
  { clear -Hal. repeat (apply elem_of_cons in Hal as [-> | Hal]; [lia|]). by apply elem_of_nil in Hal. }
  pose proof (typesize_ok _ _ _ Ht Es).
  destruct (align_up_spec n al Hal) as [Hr Hm]; [done|lia|].
  rewrite (uint_small 32) by lia.
  destruct (layout types tys (align_up n al + sz)) as [[l' m']| | | |] eqn:El; try done. intros [= <- <-].
  apply IH in El as [Hp Hm']; [|lia|lia]. split; [|lia]. cbn. exists al, sz. repeat split; (done || lia).
Qed.

(** Each place lies inside. *)
Lemma placed_lookup types tys : forall offs from to k ty o, placed types tys offs from to -> 0 <= from ->
  Forall type_ok types -> tys !! k = Some ty -> offs !! k = Some o ->
  exists sz, typesize types ty = Some sz /\ from <= o /\ 0 <= o /\ o + sz <= to.
Proof.
  induction tys as [|t tys IH]; intros [|o' offs] from to k ty o; cbn; try done.
  intros (al & sz & Ha & Hs & Hal & Hfr & Hm & Hp) Hf Ht. pose proof (typesize_ok _ _ _ Ht Hs).
  assert (forall tys offs a b, placed types tys offs a b -> a <= b) as Hmono.
  { clear -Ht. induction tys as [|t tys IH]; intros [|o offs] a b; cbn; try done.
    intros (al & sz & _ & Hs & _ & ? & _ & Hp). apply IH in Hp. apply typesize_ok in Hs; [lia|done]. }
  destruct k as [|k]; cbn.
  - intros [= <-] [= <-]. apply Hmono in Hp. exists sz. repeat split; (done || lia).
  - intros H1 H2. destruct (IH offs (o' + sz) to k ty o Hp ltac:(lia) Ht H1 H2) as (sz' & ? & ? & ? & ?).
    exists sz'. repeat split; (done || lia).
Qed.

Lemma placed_length types tys : forall offs a b, placed types tys offs a b -> length offs = length tys.
Proof.
  induction tys as [|t tys IH]; intros [|o offs] a b; cbn; try done.
  intros (al & sz & _ & _ & _ & _ & _ & Hp). f_equal. by eapply IH.
Qed.

(** Places of different values do not overlap. *)
Lemma placed_disjoint types tys : forall offs from to j k tj tk oj ok, placed types tys offs from to -> 0 <= from ->
  Forall type_ok types -> (j < k)%nat -> tys !! j = Some tj -> tys !! k = Some tk ->
  offs !! j = Some oj -> offs !! k = Some ok -> exists sz, typesize types tj = Some sz /\ oj + sz <= ok.
Proof.
  induction tys as [|t tys IH]; intros [|o' offs] from to j k tj tk oj ok Hp Hf Ht Hjk; cbn in Hp; try done.
  destruct Hp as (al & sz & Ha & Hs & Hal & Hfr & Hm & Hp). pose proof (typesize_ok _ _ _ Ht Hs).
  destruct k as [|k]; [lia|]. cbn. destruct j as [|j]; cbn.
  - intros [= <-] Hk [= <-] Ho. destruct (placed_lookup _ _ _ _ _ _ _ _ Hp ltac:(lia) Ht Hk Ho) as (? & ? & ? & ? & ?).
    eauto.
  - intros Hj Hk Hoj Hok. eapply IH; [exact Hp|lia|done| |done..]. lia.
Qed.

(** ** Functions *)

Lemma map_R_Forall2 {A B} (g : A -> R B) l : forall r, map_R g l = RVal r -> Forall2 (fun x y => g x = RVal y) l r.
Proof.
  induction l as [|x l IH]; intros r; cbn [map_R]; [by intros [= <-]|].
  destruct (g x) as [y| | | |] eqn:E; try done. destruct (map_R g l) as [r'| | | |]; try done.
  intros [= <-]. constructor; [done|]. by apply IH.
Qed.

(** The map of the values of a function: their places, those of the constants,
    and the unused rest. *)
Definition value_map (junk : nat -> Z) (bc : cli_bc) (f : lfunc) (offs : list Z) (bytes : Z) : list Z :=
  offs ++ ((fun k => uint 32 (bytes + 8 * Z.of_nat k)) <$> seq 0 (length (f_constants f)))
       ++ ((fun k => uint 32 (junk k)) <$> seq 0 (Z.to_nat (num_globals bc))).

Lemma prepare_func_inv mem junk bc gmap f g : prepare_func mem junk bc gmap f = RVal g ->
  exists offs n insts, layout (types bc) (f_types f) 0 = RVal (offs, n) /\
    map_R (map_inst mem bc f gmap (value_map junk bc f offs (align_up n 8))) (allinsts f) = RVal insts /\
    g = {| VmExec.numArgs := f_numArgs f; VmExec.numBytes := uint 32 (align_up n 8 + 8 * Z.of_nat (length (f_constants f)));
           VmExec.constants := f_constants f; VmExec.BB := block insts <$> BBs f |}.
Proof.
  unfold prepare_func. cbv zeta. destruct (negb _); [done|].
  destruct (layout (types bc) (f_types f) 0) as [[offs n]| | | |]; try done.
  intros E. exists offs, n.
  assert (Z.land (uint 32 (n + 7)) (uint 32 (Z.lnot 7)) = align_up n 8) as Ha.
  { unfold align_up. by replace (n + 8 - 1) with (n + 7) by lia. }
  rewrite Ha in E. fold (value_map junk bc f offs (align_up n 8)) in E.
  destruct (map_R _ _) as [insts| | | |]; try done. injection E as <-. eauto.
Qed.

(** The values and constants of a function leave room for the stack entry. *)
Definition fits (c : cli_bc) : Prop :=
  Forall (fun f => room (types c) (f_types f) + 8 * Z.of_nat (length (f_constants f)) + 15 < 2 ^ 31 - 48) (lfuncs c) /\
  room (types c) (globaltys c) + 7 < 2 ^ 31.

Lemma tiles_block l : forall i n (insts : list VmExec.inst), tiles l i n -> 0 <= i -> n = Z.of_nat (length insts) ->
  Forall (fun b => b <> []) (block insts <$> l).
Proof.
  assert (forall l i n, tiles l i n -> i <= n) as Hle.
  { clear. induction l as [|[a k] l IH]; intros i n; cbn; [intros ->; lia|]. intros (-> & ? & Ht). apply IH in Ht. lia. }
  induction l as [|[a k] l IH]; intros i n insts; cbn; [constructor|].
  intros (-> & Hk & Ht) Hi Hn. constructor; [|by eapply IH; [exact Ht|lia|]].
  pose proof (Hle _ _ _ Ht). unfold block. cbn [fst snd].
  intros E. apply (f_equal length) in E. rewrite length_take, length_drop in E. cbn in E. lia.
Qed.

(** The frame of a prepared function, in a program whose globals are at [gmap]: the
    values have places of their own, followed by the constants, and the blocks hold
    the instructions of the function, each with its operands and its result at
    these places. *)
Record frame (c : cli_bc) (gmap : list Z) (f : lfunc) (g : VmExec.func) : Prop := {
  fr_places : exists offs n insts, placed (types c) (f_types f) offs 0 n /\
    VmExec.numBytes g = align_up n 8 + 8 * Z.of_nat (length (f_constants f)) /\
    n <= align_up n 8 < n + 8 /\ align_up n 8 `mod` 8 = 0 /\
    Forall2 (inst_placed c f gmap offs (align_up n 8)) (allinsts f) insts /\
    VmExec.BB g = block insts <$> BBs f;
  fr_ok : VmInv.func_ok g;
  fr_args : VmExec.numArgs g = f_numArgs f;
  fr_constants : VmExec.constants g = f_constants f;
  fr_blocks : VmExec.numBB g = f_numBB f;
  fr_nonempty : Forall (fun b => b <> []) (VmExec.BB g) }.

(** What the map gives for the values and for the constants. *)
Lemma value_map_values junk c f offs m v : length offs = length (f_types f) -> Z.of_nat (length (f_types f)) = f_numValues f ->
  0 <= v < f_numValues f -> bget (value_map junk c f offs m) v = offs !! Z.to_nat v.
Proof. intros Ho Hl Hv. rewrite bget_lookup by lia. unfold value_map. by rewrite lookup_app_l by lia. Qed.

Lemma value_map_consts junk c f offs m v : length offs = length (f_types f) -> Z.of_nat (length (f_types f)) = f_numValues f ->
  0 <= m -> m + 8 * Z.of_nat (length (f_constants f)) < 2 ^ 32 ->
  f_numValues f <= v < f_numValues f + Z.of_nat (length (f_constants f)) ->
  bget (value_map junk c f offs m) v = Some (m + 8 * (v - f_numValues f)).
Proof.
  intros Ho Hl Hm Hb Hv. rewrite bget_lookup by lia. unfold value_map.
  rewrite lookup_app_r by lia. rewrite lookup_app_l by (rewrite length_fmap, length_seq; lia).
  rewrite list_lookup_fmap, lookup_seq_lt by lia. cbn. f_equal. rewrite uint_small; lia.
Qed.

Lemma prepare_func_frame mem junk c gmap f g : Forall type_ok (types c) -> complete c f ->
  Forall (fun g => 0 <= g < 2 ^ 31) gmap ->
  room (types c) (f_types f) + 8 * Z.of_nat (length (f_constants f)) + 15 < 2 ^ 31 - 48 ->
  prepare_func mem junk c gmap f = RVal g -> frame c gmap f g.
Proof.
  intros Ht (apis & _ & Hwf & Hidx & Hbb) Hg Hroom E. apply prepare_func_inv in E as (offs & n & insts & El & Em & ->).
  pose proof (room_nonneg (types c) (f_types f) Ht).
  apply layout_placed in El as [Hp Hn]; [|done|lia|lia].
  destruct (align_up_spec n 8) as [Ha Hm]; [set_solver|lia|lia|].
  apply map_R_Forall2 in Em. pose proof (Forall2_length _ _ _ Em) as Eml. pose proof (placed_length _ _ _ _ _ Hp) as Hol.
  split; cbn; [| |done|done| |].
  - exists offs, n, insts. split; [done|]. split; [apply uint_small; lia|]. split; [done|]. split; [done|]. split; [|done].
    apply Forall2_same_length_lookup_2; [done|]. intros k i i' Hi Hi'.
    eapply map_inst_placed; [exact Ht|exact Hg|by eapply func_values|lia| | |apply Hwf| |].
    + intros v Hv. apply value_map_values; [done|apply Hwf|done].
    + intros v Hv. apply (value_map_consts junk); [done|apply Hwf|lia|lia|done].
    + eapply Forall_lookup_1; [apply Hwf|exact Hi].
    + exact (Forall2_lookup_lr _ _ _ _ _ _ Em Hi Hi').
  - unfold VmInv.func_ok, VmExec.numConstants. cbn. rewrite (uint_small 32) by lia.
    split; [lia|]. split; [|lia]. rewrite Z.add_mod, Hm by lia.
    rewrite (Z.mul_comm 8), Z.mod_mul by lia. done.
  - unfold VmExec.numBB. cbn. by rewrite length_fmap.
  - eapply tiles_block; [apply Hwf|lia|]. unfold insn_idx. by rewrite Eml.
Qed.

(** ** Instructions *)

(** Instructions without pointer accesses, API calls and partial arithmetic, whose
    branches test a value or a constant: those for which the interpreter is
    proved to be safe, as the loader leaves them. *)
Definition plain_inst (f : lfunc) (i : VmExec.inst) : Prop :=
  match VmExec.opc i, VmExec.u i with
  | OP_BC_MUL, _ => VmExec.ty i <> 2
  | OP_BC_SEXT, VmExec.Cast mask _ _ => 1 <= mask <= 64
  | OP_BC_BRANCH, VmExec.Branch c _ _ =>
      c < f_numValues f + Z.of_nat (length (f_constants f)) /\
      (c < f_numValues f -> exists t, bget (f_types f) c = Some t /\ 1 <= Z.land t 0x7fff <= 64)
  | (OP_BC_SDIV | OP_BC_SREM | OP_BC_SHL | OP_BC_LSHR | OP_BC_ASHR | OP_BC_LOAD | OP_BC_STORE | OP_BC_CALL_API
     | OP_BC_MEMSET | OP_BC_MEMCPY | OP_BC_MEMMOVE | OP_BC_MEMCMP), _ => False
  | _, _ => True
  end.

Lemma lor_u32 a b : 0 <= a < 2 ^ 32 -> 0 <= b < 2 ^ 32 -> 0 <= Z.lor a b < 2 ^ 32.
Proof.
  intros Ha Hb. split; [apply Z.lor_nonneg; lia|].
  destruct (decide (Z.lor a b = 0)); [lia|]. apply Z.log2_lt_pow2; [pose proof (proj2 (Z.lor_nonneg a b)); lia|].
  rewrite Z.log2_lor by lia. apply Z.max_lub_lt.
  - destruct (decide (a = 0)) as [->|]; [cbn; lia|]. apply Z.log2_lt_pow2; lia.
  - destruct (decide (b = 0)) as [->|]; [cbn; lia|]. apply Z.log2_lt_pow2; lia.
Qed.

Lemma low_unmarked c : 0 <= c < 2 ^ 31 -> (Z.land c 0x80000000 =? 0) = true.
Proof.
  intros Hc. change 0x80000000 with (Z.shiftl 1 31). rewrite land_shiftl1_testbit by lia.
  rewrite <- (Z.mod_small c (2 ^ 31)) by lia. by rewrite Z.mod_pow2_bits_high by lia.
Qed.

Section Map.
Context (mem : bool) (c : cli_bc) (f : lfunc) (gmap map : list Z).
Context (Hmap : Forall VmInv.op32 map).

Lemma map_get v m : bget map v = Some m -> VmInv.op32 m.
Proof.
  intros E. pose proof (bget_Some _ _ _ E). rewrite bget_lookup in E by lia. by eapply Forall_lookup_1 in E.
Qed.

Lemma MAP_op32 v m : MAP c f gmap map v = RVal m -> VmInv.op32 m.
Proof.
  unfold MAP. cbv zeta. destruct (negb _).
  - destruct (_ <? _); [done|]. destruct (bget gmap _); [|done]. intros [= <-].
    pose proof (global_mark z). unfold VmInv.op32. lia.
  - destruct (_ <? v); [done|]. destruct (bget map v) eqn:E; [|done]. intros [= <-]. by eapply map_get.
Qed.

Lemma MAPPTR_op32 v m : MAPPTR c f gmap map v = RVal m -> VmInv.op32 m.
Proof.
  unfold MAPPTR, is_alloca. destruct (v <? _).
  - destruct (bget (f_types f) v); [|done]. cbn. destruct (negb _); [|apply MAP_op32].
    destruct (bget map v) eqn:E; [|done]. intros [= <-]. apply map_get in E. unfold VmInv.op32 in *. by apply lor_u32.
  - apply MAP_op32.
Qed.

Lemma map_call_op32 target ops : forall k l ls, map_call c f gmap map target ops k = RVal (l, ls) ->
  Forall VmInv.op32 l /\ length l = length ops /\ length ls = length ops.
Proof.
  induction ops as [|o ops IH]; intros k l ls; cbn [map_call]; [by intros [= <- <-]|].
  destruct (MAPPTR c f gmap map o) as [m| | | |] eqn:E; try done.
  match goal with |- context [match ?x with RVal _ => _ | _ => _ end] => destruct x as [sz| | | |]; try done end.
  destruct (map_call _ _ _ _ _ _ _) as [[l' ls']| | | |] eqn:Em; try done. intros [= <- <-].
  apply IH in Em as (? & ? & ?). split; [constructor; [by eapply MAPPTR_op32|done]|]. cbn. lia.
Qed.

Lemma MAP_value v m o : 0 <= v < 2 ^ 31 -> bget map v = Some o -> MAP c f gmap map v = RVal m -> m = o.
Proof.
  intros Hv Hm. unfold MAP. rewrite low_unmarked by done. cbn [negb]. destruct (_ <? v); [done|].
  rewrite Hm. by intros [= <-].
Qed.

Lemma type_class_range t : 0 <= type_class t <= 4.
Proof. unfold type_class. repeat (destruct (_ <? _) || destruct (_ <=? _)); lia. Qed.

(** A step of [map_operands]. *)
Ltac map_step :=
  match goal with
  | |- (match MAP ?c ?f ?g ?m ?v with _ => _ end) = _ -> _ =>
      let E := fresh "E" in destruct (MAP c f g m v) as [?| | | |] eqn:E; try done; pose proof (MAP_op32 _ _ E)
  | |- (match MAPPTR ?c ?f ?g ?m ?v with _ => _ end) = _ -> _ =>
      let E := fresh "E" in destruct (MAPPTR c f g m v) as [?| | | |] eqn:E; try done; pose proof (MAPPTR_op32 _ _ E)
  | |- (match gep_base ?f ?b with _ => _ end) = _ -> _ => destruct (gep_base f b) as [[]| | | |]; try done
  | |- (match get_geptypesize ?c ?b with _ => _ end) = _ -> _ => destruct (get_geptypesize c b) as [?| | | |]; try done
  | |- (if ?b then _ else _) = _ -> _ => destruct b; try done
  end.

(** A plain instruction is mapped to one for which the interpreter is safe. *)
Lemma map_inst_scalar apis (g : VmExec.func) i i' :
  inst_ok f (Z.of_nat (length (f_constants f))) (num_func (hdr c)) apis i -> plain_inst f i ->
  (forall v m, 0 <= v < f_numValues f + Z.of_nat (length (f_constants f)) ->
     (v < f_numValues f -> exists t, bget (f_types f) v = Some t /\ 1 <= Z.land t 0x7fff <= 64) ->
     MAP c f gmap map v = RVal m -> 0 <= m < VmExec.numBytes g) ->
  map_inst mem c f gmap map i = RVal i' -> VmInv.scalar g i'.
Proof.
  intros (Hd & Hty & opnum & Hop & Hu) Hpl Hbr. unfold map_inst.
  destruct (bget map (VmExec.dest i)) as [d|] eqn:Ed; [|done]. cbn [r_of_opt]. apply map_get in Ed.
  destruct (map_operands mem c f gmap map i) as [[u ty]| | | |] eqn:Em; try done. intros [= <-].
  unfold VmInv.scalar. cbn [VmExec.dest VmExec.ty VmExec.opc VmExec.u].
  assert (0 <= VmExec.ty i <= 4) as Ht4 by (rewrite Hty; apply type_class_range).
  split; [done|]. revert Em. unfold map_operands. cbv zeta. unfold plain_inst in Hpl.
  destruct (VmExec.opc i) eqn:Eo; try done; destruct (VmExec.u i) eqn:Eu; try done; repeat map_step;
    try (intros [= <- <-]; split; [done || lia|]; first [done | by split | split; [done|by split]]).
  all: try (destruct Hu as (b0 & Hj & Hb);
    first [discriminate Hj | injection Hj as ->; intros [= <- <-]; split; [done|unfold block_id in Hb; lia]]).
  - destruct Hu as (c0 & t0 & e0 & [= <- <- <-] & [Hc0 _] & Ht & He). destruct Hpl as [Hlt Hvt].
    intros [= <- <-]. split; [done|]. unfold block_id in *. split; [|lia]. eapply Hbr; [|exact Hvt|exact E]. lia.
  - destruct Hu as (ops0 & n0 & id0 & Hinj & Hn & _). injection Hinj as ? ? ? ?. subst.
    destruct (bget (lfuncs c) id0) as [target|]; [|done]. cbn [r_of_opt]. do 2 map_step.
    destruct (map_call _ _ _ _ _ _ _) as [[l ls]| | | |] eqn:Em; try done. intros [= <- <-].
    apply map_call_op32 in Em as (? & ? & ?). split; [done|]. split; [done|]. lia.
Qed.
End Map.

(** ** Whole programs *)

Lemma value_map_op32 junk c f offs n m : Forall type_ok (types c) -> placed (types c) (f_types f) offs 0 n ->
  n < 2 ^ 32 -> Forall VmInv.op32 (value_map junk c f offs m).
Proof.
  intros Ht Hp Hn. unfold value_map. apply Forall_app. split; [|apply Forall_app; split].
  - apply Forall_lookup_2. intros k o Ho.
    assert (is_Some (f_types f !! k)) as [ty Hty].
    { apply lookup_lt_is_Some. rewrite <- (placed_length _ _ _ _ _ Hp). by apply lookup_lt_Some in Ho. }
    destruct (placed_lookup _ _ _ _ _ _ _ _ Hp ltac:(lia) Ht Hty Ho) as (sz & Hs & ? & ? & ?).
    apply typesize_ok in Hs; [|done]. unfold VmInv.op32. lia.
  - apply Forall_fmap, Forall_true. intros k. cbn. apply uint_range. lia.
  - apply Forall_fmap, Forall_true. intros k. cbn. apply uint_range. lia.
Qed.

(** The place of a non-empty value or of a constant is inside the frame. *)
Lemma value_map_inside junk c f gmap offs n v m : Forall type_ok (types c) ->
  placed (types c) (f_types f) offs 0 n -> Z.of_nat (length (f_types f)) = f_numValues f ->
  n <= align_up n 8 -> align_up n 8 + 8 * Z.of_nat (length (f_constants f)) < 2 ^ 31 ->
  0 <= f_numValues f < 2 ^ 17 ->
  0 <= v < f_numValues f + Z.of_nat (length (f_constants f)) ->
  (v < f_numValues f -> exists t, bget (f_types f) v = Some t /\ 1 <= Z.land t 0x7fff <= 64) ->
  MAP c f gmap (value_map junk c f offs (align_up n 8)) v = RVal m ->
  0 <= m < align_up n 8 + 8 * Z.of_nat (length (f_constants f)).
Proof.
  intros Ht Hp Hlen Ha Hb Hnv Hv Hty Em. pose proof (placed_length _ _ _ _ _ Hp) as Hol.
  change (2 ^ 17) with 131072 in Hnv. set (len := Z.of_nat (length (f_constants f))) in *.
  assert (0 <= n) as Hn0.
  { assert (forall tys offs a b, 0 <= a -> placed (types c) tys offs a b -> 0 <= b) as Hpos; [|by eapply Hpos in Hp].
    clear -Ht. induction tys as [|t tys IH]; intros [|o offs] a b Ha; cbn; try done; [lia|].
    intros (al & sz & _ & Hs & _ & ? & _ & Hp). apply IH in Hp; [done|]. apply typesize_ok in Hs; [lia|done]. }
  assert (0 <= v < 2 ^ 31) as Hv31 by lia.
  destruct (Z.lt_ge_cases v (f_numValues f)) as [Hlt|Hge].
  - destruct (Hty Hlt) as (t & Et & Htr). rewrite bget_lookup in Et by lia.
    assert (is_Some (offs !! Z.to_nat v)) as [o Ho] by (apply lookup_lt_is_Some; lia).
    assert (m = o) as ->.
    { eapply (MAP_value c f gmap); [exact Hv31| |exact Em]. by rewrite value_map_values by lia. }
    destruct (placed_lookup _ _ _ _ _ _ _ _ Hp ltac:(lia) Ht Et Ho) as (sz & Hs & ? & ? & ?).
    assert (0 < sz); [|lia].
    revert Hs. unfold typesize. cbv zeta. destruct (Z.eqb_spec (Z.land t 0x7fff) 0); [lia|].
    destruct (_ <=? 8); [intros [= <-]; lia|]. destruct (_ <=? 16); [intros [= <-]; lia|].
    destruct (_ <=? 32); [intros [= <-]; lia|]. replace (Z.land t 0x7fff <=? 64) with true by lia. intros [= <-]; lia.
  - assert (m = align_up n 8 + 8 * (v - f_numValues f)) as ->; [|lia].
    eapply (MAP_value c f gmap); [exact Hv31| |exact Em]. by apply (value_map_consts junk); lia.
Qed.

(** The prepared function of a plain function. *)
Lemma prepare_func_scalar mem junk c gmap f g : Forall type_ok (types c) -> complete c f ->
  Forall (fun g => 0 <= g < 2 ^ 31) gmap ->
  room (types c) (f_types f) + 8 * Z.of_nat (length (f_constants f)) + 15 < 2 ^ 31 - 48 ->
  Forall (plain_inst f) (allinsts f) ->
  prepare_func mem junk c gmap f = RVal g -> VmSafe.scalar_func g.
Proof.
  intros Ht Hc Hg Hroom Hpl E. pose proof (prepare_func_frame _ _ _ _ _ _ Ht Hc Hg Hroom E) as Hfr.
  destruct Hc as (apis & _ & Hwf & Hidx & Hbb).
  apply prepare_func_inv in E as (offs & n & insts & El & Em & Eg).
  pose proof (room_nonneg (types c) (f_types f) Ht).
  apply layout_placed in El as [Hp Hn]; [|done|lia|lia].
  destruct (align_up_spec n 8) as [Ha Hm]; [set_solver|lia|lia|].
  apply map_R_Forall2 in Em.
  assert (Forall (VmInv.scalar g) insts) as Hs.
  { apply Forall_lookup_2. intros k i' Hi'. destruct (Forall2_lookup_r _ _ _ _ _ Em Hi') as (i & Hi & Emi).
    eapply map_inst_scalar; [| | | |exact Emi].
    - eapply value_map_op32; [done|exact Hp|lia].
    - eapply Forall_lookup_1; [apply Hwf|done].
    - by eapply Forall_lookup_1 in Hi.
    - intros v m Hv Hty Emv. rewrite Eg. cbn [VmExec.numBytes]. rewrite (uint_small 32) by lia.
      eapply (value_map_inside junk c f gmap); try done; [apply Hwf|lia|lia|by eapply func_values]. }
  unfold VmSafe.scalar_func. apply Forall_forall. intros b Hb. split.
  - pose proof (fr_nonempty _ _ _ _ Hfr) as Hne. by apply (proj1 (Forall_forall _ _) Hne b Hb).
  - rewrite Eg in Hb. cbn in Hb. apply list_elem_of_fmap in Hb as (p & -> & _). unfold block.
    apply Forall_take, Forall_drop. exact Hs.
Qed.

(** Initialising the globals keeps their size. *)
Lemma poke_length n : forall b o v b', poke n b o v = Some b' -> length b' = length b.
Proof.
  induction n as [|n IH]; intros b o v b'; cbn [poke]; [by intros [= <-]|].
  destruct (bset b o _) as [b1|] eqn:E; [|done]. apply bset_Some in E as [_ ->]. intros E. apply IH in E.
  by rewrite E, length_insert.
Qed.

Lemma poke_all_length n sz g : forall i o b b', poke_all n sz g i o b = Some b' -> length b' = length b.
Proof.
  induction n as [|n IH]; intros i o b b'; cbn [poke_all]; [by intros [= <-]|].
  destruct (bget g i); [|done]. destruct (poke sz b o _) as [b1|] eqn:E; [|done]. apply poke_length in E.
  intros E2. apply IH in E2. congruence.
Qed.

Lemma init_global_length types gmap ty o g b b' : init_global types gmap ty o g b = Some b' -> length b' = length b.
Proof.
  unfold init_global. repeat split_match; try done; try (by intros [= <-]);
    first [apply poke_length | apply poke_all_length].
Qed.

Lemma init_globals_length types gmap tys : forall offs gs b b', init_globals types gmap tys offs gs b = Some b' ->
  length b' = length b.
Proof.
  induction tys as [|ty tys IH]; intros [|o offs] [|g gs] b b'; cbn [init_globals]; try (by intros [= <-]).
  destruct (init_global _ _ _ _ _ _) as [b1|] eqn:E; [|done]. apply init_global_length in E.
  intros E2. apply IH in E2. congruence.
Qed.

Lemma prepare_interpreter_inv mem junk c fs b : cli_bytecode_prepare_interpreter mem junk c = RVal (fs, b) ->
  exists gmap bytes, layout (types c) (globaltys c) 0 = RVal (gmap, bytes) /\ Z.of_nat (length b) = Z.max 0 bytes /\
    Forall2 (fun f g => prepare_func mem junk c gmap f = RVal g) (lfuncs c) fs.
Proof.
  unfold cli_bytecode_prepare_interpreter. destruct (negb _); [done|].
  destruct (layout (types c) (globaltys c) 0) as [[gmap bytes]| | | |]; try done.
  destruct (_ && _); [done|]. destruct (init_globals _ _ _ _ _ _) as [b1|] eqn:E; [|done]. cbn [r_of_opt].
  destruct (map_R _ _) as [fs'| | | |] eqn:Ef; try done. intros [= <- <-].
  apply init_globals_length in E. rewrite length_replicate in E. apply map_R_Forall2 in Ef.
  exists gmap, bytes. split; [done|]. split; [lia|done].
Qed.

(** The places of the globals of a program that fits. *)
Lemma globals_placed c gmap bytes : Forall type_ok (types c) -> fits c -> layout (types c) (globaltys c) 0 = RVal (gmap, bytes) ->
  placed (types c) (globaltys c) gmap 0 bytes /\ 0 <= bytes < 2 ^ 31 /\ Forall (fun g => 0 <= g < 2 ^ 31) gmap.
Proof.
  intros Ht [_ Hg] El. pose proof (room_nonneg (types c) (globaltys c) Ht).
  apply layout_placed in El as [Hp Hn]; [|done|lia|lia]. split; [done|]. split; [lia|].
  apply Forall_lookup_2. intros k o Ho.
  assert (is_Some (globaltys c !! k)) as [ty Hty].
  { apply lookup_lt_is_Some. rewrite <- (placed_length _ _ _ _ _ Hp). by apply lookup_lt_Some in Ho. }
  destruct (placed_lookup _ _ _ _ _ _ _ _ Hp ltac:(lia) Ht Hty Ho) as (sz & Hs & ? & ? & ?).
  apply typesize_ok in Hs; [lia|done].
Qed.

(** A prepared program that fits meets what the interpreter assumes. *)
Lemma prepared_ok mem junk c fs b g : Forall type_ok (types c) -> Forall (complete c) (lfuncs c) -> fits c ->
  cli_bytecode_prepare_interpreter mem junk c = RVal (fs, b) ->
  VmInv.bc_ok (prepared fs b g) /\
  exists gmap, placed (types c) (globaltys c) gmap 0 (Z.of_nat (length b)) /\ Forall2 (frame c gmap) (lfuncs c) fs.
Proof.
  intros Ht Hc Hfits E. apply prepare_interpreter_inv in E as (gmap & bytes & El & Hb & Hf).
  destruct (globals_placed _ _ _ Ht Hfits El) as (Hp & Hby & Hg). destruct Hfits as [Hfit _].
  assert (Forall2 (frame c gmap) (lfuncs c) fs) as Hfr.
  { apply Forall2_same_length_lookup_2; [by apply Forall2_length in Hf|]. intros k f gf Hk Hgk.
    eapply prepare_func_frame; [done| |done| |by eapply (Forall2_lookup_lr _ _ _ _ _ _ Hf)].
    - by eapply Forall_lookup_1 in Hk.
    - by eapply (Forall_lookup_1 _ _ _ _ Hfit) in Hk. }
  split; [|exists gmap; split; [by replace (Z.of_nat (length b)) with bytes by lia|done]].
  split; [|cbn; lia]. cbn. apply Forall_lookup_2. intros k gf Hk.
  destruct (Forall2_lookup_r _ _ _ _ _ Hfr Hk) as (f & _ & Hff). apply Hff.
Qed.

Lemma prepared_scalar mem junk c fs b g : Forall type_ok (types c) -> Forall (complete c) (lfuncs c) -> fits c ->
  Forall (fun f => Forall (plain_inst f) (allinsts f)) (lfuncs c) ->
  cli_bytecode_prepare_interpreter mem junk c = RVal (fs, b) -> VmSafe.scalar_program (prepared fs b g).
Proof.
  intros Ht Hc Hfits Hpl E. apply prepare_interpreter_inv in E as (gmap & bytes & El & Hb & Hf).
  destruct (globals_placed _ _ _ Ht Hfits El) as (_ & _ & Hg). destruct Hfits as [Hfit _].
  unfold VmSafe.scalar_program. cbn. apply Forall_lookup_2. intros k gf Hk.
  destruct (Forall2_lookup_r _ _ _ _ _ Hf Hk) as (f & Hff & E).
  eapply prepare_func_scalar; [done| |exact Hg| | |exact E].
  - by eapply Forall_lookup_1 in Hff.
  - by eapply (Forall_lookup_1 _ _ _ _ Hfit) in Hff.
  - by eapply (Forall_lookup_1 _ _ _ _ Hpl) in Hff.
Qed.

End BcPrepFacts.
