(* ===== verification/BcContext.v ===== *)
(** The context of a run (libclamav/bytecode.c): [cli_bytecode_context_setfuncid]
    makes room for the parameters of the function that is called,
    [cli_bytecode_context_setparam_int] stores one, [cli_bytecode_run] starts the
    interpreter or the compiled code. *)
From stdpp Require Import base numbers list list_numbers gmap.
From Stdlib Require Import ZArith Lia Bool.
From S2P Require Import Prelude Bitset VmCore VmExec VmInv JitRun BcRead BcLoad BcLoadFacts BcPrepare BcPrepFacts.
Import Errors Alloc VmMem BcData BcLoadFacts BcPrepare BcPrepFacts.
Local Open Scope Z_scope.

Module BcContext.

(** [struct cli_bc_ctx], as far as the parameters go: [func], [numParams],
    [funcid], [operands], [opsizes] and [bytes]; [values] is a block of memory of
    [bytes] bytes. *)
Record context := {
  c_func : lfunc; c_numParams : Z; c_funcid : Z; c_operands : list Z; c_opsizes : list Z; c_bytes : Z }.

(** The loop over the arguments: the offsets, the sizes (of 16 bits) and the end. *)
Fixpoint param_layout (types : list cli_bc_type) (tys : list Z) (s : Z) : option (list Z * list Z * Z) :=
  match tys with
  | [] => Some ([], [], s)
  | ty :: tys =>
      let* al := typealign types ty in
      let s := align_up s al in
      let* sz := typesize types ty in
      let sz := uint 16 sz in
      let* (ops, sizes, e) := param_layout types tys (uint 32 (s + sz)) in
      Some (s :: ops, sz :: sizes, e)
  end.

(** [cli_bytecode_context_setfuncid]: the code, and the context when it is
    [CL_SUCCESS].  The array of the sizes is used without a test. *)
Definition cli_bytecode_context_setfuncid (mem1 mem2 mem3 : bool) (bc : cli_bc) (funcid : Z) : res (Z * option context) :=
  if num_func (hdr bc) <=? funcid then Ok (CL_EARG, None) else
  let! func := of_opt (bget (lfuncs bc) funcid) in
  let n := f_numArgs func in
  if negb (n =? 0) && negb (cli_malloc mem1 (4 * n)) then Ok (CL_EMEM, None) else
  if negb (n =? 0) && negb (cli_malloc mem2 (2 * n)) then Undef else
  let! tys := of_opt (assert* (n <=? Z.of_nat (length (f_types func))) in Some (take (Z.to_nat n) (f_types func))) in
  let! (ops, sizes, s) := of_opt (param_layout (types bc) tys 0) in
  let s := uint 32 (s + 8) in
  if negb (cli_malloc mem3 s) then Ok (CL_EMEM, None) else
  Ok (CL_SUCCESS, Some {| c_func := func; c_numParams := n; c_funcid := uint 16 funcid; c_operands := ops;
                          c_opsizes := sizes; c_bytes := s |}).

Definition type_isint (type : Z) : bool := (0 <? type) && (type <=? 64).

(** [cli_bytecode_context_setparam_int], with the values in block [v] of [m]. *)
Definition cli_bytecode_context_setparam_int (x : context) (v : Z) (m : memory) (i c : Z) : res (Z * memory) :=
  if c_numParams x <=? i then Ok (CL_EARG, m) else
  let! ty := of_opt (bget (f_types (c_func x)) i) in
  if negb (type_isint ty) then Ok (CL_EARG, m) else
  let! sz := of_opt (bget (c_opsizes x) i) in
  let! o := of_opt (bget (c_operands x) i) in
  if (sz =? 1) || (sz =? 2) || (sz =? 4) || (sz =? 8) then
    let! m := of_opt (store (Z.to_nat sz) m v o (uint (8 * sz) c)) in Ok (CL_SUCCESS, m)
  else Ok (CL_SUCCESS, m).

Definition cli_bytecode_context_setparam_ptr : Z := CL_EARG.

(** [cli_bytecode_run] on a context with or without a function (with one, [values]
    and [operands] are set): the code, and the state at the end when there was a
    run; [jit] is the run of the compiled code. *)
Definition cli_bytecode_run {B} (state : JitEngine.bc_state) (x : option context)
    (interp : Z -> Z -> Z -> list Z -> list Z -> res (Z * B)) (jit : Z -> res (Z * B)) : res (Z * option B) :=
  match x with
  | None => Ok (CL_ENULLARG, None)
  | Some x =>
      match state with
      | JitEngine.bc_loaded => Ok (CL_EARG, None)
      | JitEngine.bc_interp =>
          let! (code, s) := interp (c_bytes x) (c_numParams x) (c_funcid x) (c_operands x) (c_opsizes x) in
          Ok (code, Some s)
      | _ => let! (code, s) := jit (c_funcid x) in Ok (code, Some s)
      end
  end.

End BcContext.

Module BcContextFacts.
Import BcContext.

Lemma align_up_u32 n al : 0 <= align_up n al < 2 ^ 32.
Proof.
  unfold align_up. pose proof (uint_range 32 (n + al - 1) ltac:(lia)) as Hx.
  pose proof (uint_range 32 (Z.lnot (al - 1)) ltac:(lia)). set (x := uint 32 (n + al - 1)) in *.
  set (y := uint 32 (Z.lnot (al - 1))) in *.
  destruct (Z.ldiff_le (Z.land x y) x ltac:(lia)); [|lia].
  apply Z.bits_inj'. intros i Hi. rewrite Z.ldiff_spec, Z.land_spec, Z.testbit_0_l.
  by destruct (Z.testbit x i), (Z.testbit y i).
Qed.

Lemma align_up_le n al : al ∈ [0; 1; 2; 4; 8] -> 0 <= n -> n + 7 < 2 ^ 32 -> align_up n al <= n + 7.
Proof.
  intros Hal Hn Hb. apply elem_of_cons in Hal as [->|Hal].
  - unfold align_up. change (uint 32 (Z.lnot (0 - 1))) with 0. rewrite Z.land_0_r. lia.
  - destruct (align_up_spec n al) as [Ha _]; [done|lia|lia|].
    repeat (apply elem_of_cons in Hal as [-> | Hal]; [lia|]). by apply elem_of_nil in Hal.
Qed.

(** The area of the parameters. *)
Lemma param_layout_spec types tys : Forall type_ok types -> forall s ops sizes e, 0 <= s ->
  s + 65542 * Z.of_nat (length tys) < 2 ^ 31 -> param_layout types tys s = Some (ops, sizes, e) ->
  length ops = length tys /\ length sizes = length tys /\ Forall VmInv.op32 ops /\
  0 <= e <= s + 65542 * Z.of_nat (length tys).
Proof.
  intros Ht. induction tys as [|ty tys IH]; intros s ops sizes e Hs Hb; cbn [param_layout length] in *.
  { intros [= <- <- <-]. repeat split; [constructor|lia|lia]. }
  destruct (typealign types ty) as [al|] eqn:Ea; [|done]. apply typealign_ok in Ea; [|done].
  destruct (typesize types ty) as [sz|]; [|done].
  pose proof (align_up_u32 s al) as Ha. pose proof (align_up_le s al Ea Hs ltac:(lia)) as Hle.
  pose proof (uint_range 16 sz ltac:(lia)) as Hsz. change (2 ^ 16) with 65536 in Hsz.
  rewrite (uint_small 32) by lia.
  destruct (param_layout types tys _) as [[[ops' sizes'] e']|] eqn:E; [|done]. intros [= <- <- <-].
  apply IH in E as (H1 & H2 & H3 & H4); [|lia|lia]. cbn [length].
  split; [lia|]. split; [lia|]. split; [by constructor|lia].
Qed.

(** The context that [cli_bytecode_context_setfuncid] makes. *)
Lemma setfuncid_spec m1 m2 m3 c funcid x : Forall type_ok (types c) ->
  (forall f, f ∈ lfuncs c -> 0 <= f_numArgs f < 16) ->
  cli_bytecode_context_setfuncid m1 m2 m3 c funcid = Ok (CL_SUCCESS, Some x) ->
  Forall VmInv.op32 (c_operands x) /\ c_numParams x <= Z.of_nat (length (c_operands x)) /\
  c_numParams x <= Z.of_nat (length (c_opsizes x)) /\ 8 <= c_bytes x < 2 ^ 32 /\
  bget (lfuncs c) funcid = Some (c_func x) /\ c_numParams x = f_numArgs (c_func x).
Proof.
  intros Ht Hargs. unfold cli_bytecode_context_setfuncid. destruct (_ <=? funcid); [done|].
  destruct (bget (lfuncs c) funcid) as [f|] eqn:Ef; [|done]. cbn [of_opt].
  assert (0 <= f_numArgs f < 16) as Hn.
  { apply Hargs. pose proof (bget_Some _ _ _ Ef) as Hr. rewrite bget_lookup in Ef by lia. by eapply list_elem_of_lookup_2. }
  destruct (_ && _); [done|]. destruct (_ && _); [done|].
  destruct (Z.leb_spec (f_numArgs f) (Z.of_nat (length (f_types f)))) as [Hle|]; [|done]. cbn [of_opt].
  destruct (param_layout _ _ _) as [[[ops sizes] e]|] eqn:E; [|done]. cbn [of_opt].
  assert (length (take (Z.to_nat (f_numArgs f)) (f_types f)) = Z.to_nat (f_numArgs f)) as Hl by (rewrite length_take; lia).
  apply (param_layout_spec (types c)) in E as (H1 & H2 & H3 & H4); [|done|lia|lia]. rewrite Hl in *.
  destruct (cli_malloc _ _); [|done]. cbn [negb]. intros [= <-]. cbn. rewrite (uint_small 32) by lia.
  repeat split; try done; lia.
Qed.

End BcContextFacts.
