(* ===== verification/BcPrepProps.v ===== *)
(** Loading, preparing and running a program: the properties that tie the loader,
    the preparation and the interpreter together. *)
From stdpp Require Import base numbers list list_numbers gmap.
From Stdlib Require Import ZArith Lia Bool.
From S2P Require Import Prelude Bitset VmCore VmExec VmInv VmSafe JitRun BcRead BcLoad ApiTables Samples.
From S2P Require Import BcLoadFacts BcLoadSafe BcLoadProps BcPrepare BcPrepFacts BcContext.
Import Errors Alloc VmMem VmPtr VmArith BcData BcLoad ReaderFacts ApiTables Samples BcLoadFacts LoadInv LoadSamples
  BcPrepare BcPrepFacts BcContext BcContextFacts.
Local Open Scope Z_scope.

Module BcPrepProps.

(** What preparing makes of program [c]: the globals have places of their own in the
    global bytes, the functions have frames whose instructions refer to the places
    of their values, and the interpreter's assumptions hold. *)
Definition well_prepared (c : cli_bc) (fs : list VmExec.func) (b : list Z) (g : Z) : Prop :=
  VmInv.bc_ok (prepared fs b g) /\
  exists gmap, placed (types c) (globaltys c) gmap 0 (Z.of_nat (length b)) /\ Forall2 (frame c gmap) (lfuncs c) fs.

(** Programs of plain instructions only. *)
Definition plain_program (c : cli_bc) : Prop := Forall (fun f => Forall (plain_inst f) (allinsts f)) (lfuncs c).

(** C36. What preparing makes of a program.  If a loaded program fits (the sizes of
    its values do not reach 2^31) and [cli_bytecode_prepare_interpreter] succeeds,
    then the globals have aligned places in the global bytes that do not overlap,
    and so have the values of each function, followed by its constants; the size of
    the frame is their end, a multiple of 8.  The blocks of the function hold its
    instructions in order, none is empty; each has its operation and type, and for
    every value, constant and global it refers to, and for its result, the place of
    that value, constant or global (marked for globals and for stack objects used as
    pointers), calls with the sizes of their arguments, pointer arithmetic with the
    size of what is pointed to ([inst_placed]).  The program meets the assumptions
    under which the interpreter keeps its frame discipline. *)
Theorem prepared_frames mem apicalls apitypes stale fuel flevel junk input c fresh fs b g :
  Forall byte input -> Forall byte junk ->
  cli_bytecode_load mem apicalls apitypes stale fuel flevel junk input = Loaded c ->
  fits c -> cli_bytecode_prepare_interpreter mem fresh c = RVal (fs, b) ->
  well_prepared c fs b g.
Proof.
  intros Hin Hj Hl Hf Hp. destruct (loaded_spec _ _ _ _ _ _ _ _ _ Hl) as (_ & Ht & Hc).
  destruct (Hc Hin Hj) as [_ Hcomp]. by eapply prepared_ok.
Qed.

(** C37. From the file to the result.  A program that is loaded, fits, consists of
    plain instructions and is prepared for the interpreter, and whose function
    [funcid] is chosen with [cli_bytecode_context_setfuncid], is run by
    [cli_bytecode_run] without undefined behaviour and returns a code, at the
    latest when the clock shows the timeout, for all contents of the input file,
    of the memory and of the parameters. *)
Theorem plain_program_runs {A} mem apicalls apitypes stale fuel flevel junk input c fresh fs b g m1 m2 m3 funcid x
    ctx_values ok vjunk kinds (apicall : Z -> list VmExec.apiarg -> memory * Z * A -> option (VmExec.apires * (memory * Z * A)))
    expired globs bcglobalid m n a jit k vfuel :
  Forall byte input -> Forall byte junk ->
  cli_bytecode_load mem apicalls apitypes stale fuel flevel junk input = Loaded c ->
  fits c -> plain_program c -> cli_bytecode_prepare_interpreter mem fresh c = RVal (fs, b) ->
  cli_bytecode_context_setfuncid m1 m2 m3 c funcid = Ok (CL_SUCCESS, Some x) ->
  VmInv.api_ok apicall -> VmProps.start_ok (prepared fs b g) ctx_values (c_bytes x) globs bcglobalid m n ->
  VmProps.expires_at expired k -> 5000 * k <= Z.of_nat vfuel ->
  exists code s, cli_bytecode_run JitEngine.bc_interp (Some x)
    (fun bytes numParams funcid operands opsizes =>
       VmExec.cli_bytecode_run_interp (prepared fs b g) ctx_values ok vjunk kinds apicall expired vfuel globs
         bcglobalid bytes numParams funcid operands opsizes m n a) jit = Ok (code, Some s).
Proof.
  intros Hin Hj Hl Hf Hpl Hp Hset Hapi Hst Hexp Hfuel.
  destruct (loaded_spec _ _ _ _ _ _ _ _ _ Hl) as (_ & Ht & Hc). destruct (Hc Hin Hj) as [_ Hcomp].
  destruct (setfuncid_spec m1 m2 m3 c funcid x Ht) as (Hop & Hn1 & Hn2 & _); [|done|].
  { intros f Hin'. eapply Forall_forall in Hcomp; [|exact Hin']. destruct Hcomp as (apis & _ & [Ha] & _). exact Ha. }
  assert (exists code s, VmExec.cli_bytecode_run_interp (prepared fs b g) ctx_values ok vjunk kinds apicall expired vfuel
    globs bcglobalid (c_bytes x) (c_numParams x) (c_funcid x) (c_operands x) (c_opsizes x) m n a = Ok (code, s))
    as (code & s & E).
  { eapply VmProps.scalar_program_runs; try done.
    - by apply (prepared_ok mem fresh c fs b g Ht Hcomp Hf Hp).
    - by apply (prepared_scalar mem fresh c fs b g Ht Hcomp Hf Hpl Hp). }
  exists code, s. cbn [cli_bytecode_run]. by rewrite E.
Qed.

(** ** The choice between the JIT and the interpreter *)

(** How [cli_bytecode_prepare_jit] ends: whether the code of every program was
    generated. *)
Definition jit_ready (p : JitEngine.phases) (all : JitEngine.all_bc) : Prop :=
  is_Some (JitEngine.engine all) /\ JitEngineFacts.first_failure (JitEngineFacts.generation p all) = JitEngine.GenTrue.

Lemma return_code_not_success o : (JitEngine.return_code o =? CL_SUCCESS) = false.
Proof. by destruct o. Qed.

Lemma prepare_jit_cases p all :
  match JitEngine.cli_bytecode_prepare_jit p all with
  | (rc, all') => (rc =? CL_SUCCESS) = false /\
      (jit_ready p all /\ JitEngine.states all' = (fun _ => JitEngine.bc_jit) <$> JitEngine.states all \/
       ~ jit_ready p all /\ JitEngine.states all' = JitEngine.states all)
  end.
Proof.
  pose proof (JitEngineFacts.prepare_jit_spec p all) as H. cbn zeta in H. unfold jit_ready.
  destruct (JitEngine.cli_bytecode_prepare_jit p all) as [rc all'], (JitEngine.engine all) as [e|]; cbn [fst snd] in H.
  - destruct H as [-> H]. split; [apply return_code_not_success|].
    destruct (decide (JitEngineFacts.first_failure (JitEngineFacts.generation p all) = JitEngine.GenTrue)) as [E|E]; [left; by subst|right].
    split; [tauto|done].
  - injection H as -> ->. split; [done|]. right. split; [|done]. by intros [[] _].
Qed.

(** The interpreter's turn on programs that were only loaded. *)
Lemma prepare_loop_loaded mem junk dconfmask bcs l :
  JitEngine.has dconfmask JitEngine.BYTECODE_INTERPRETER = true ->
  prepare_loop mem junk dconfmask ((fun bc => (JitEngine.bc_loaded, Plain bc)) <$> bcs) = RVal l <->
  exists rs, Forall2 (fun bc r => cli_bytecode_prepare_interpreter mem junk bc = RVal r) bcs rs /\
             l = (fun r => (JitEngine.bc_interp, Interp (fst r) (snd r))) <$> rs.
Proof.
  intros Hi. revert l. induction bcs as [|bc bcs IH]; intros l.
  - cbn. split; [intros [= <-]; exists []; split; [constructor|done]|].
    intros (rs & H & ->). inversion H. done.
  - rewrite fmap_cons. cbn [prepare_loop]. rewrite Hi. cbn [negb]. split.
    + destruct (cli_bytecode_prepare_interpreter mem junk bc) as [[fs b]| | | |] eqn:E; try done.
      destruct (prepare_loop _ _ _ _) as [r| | | |]; try done. intros [= <-].
      destruct (proj1 (IH r) eq_refl) as (rs & Hrs & ->).
      exists ((fs, b) :: rs). split; [by constructor|done].
    + intros (rs & H & ->). inversion H as [|? [fs b] ? rs' E Hrs]; subst. rewrite E.
      rewrite (proj2 (IH ((fun r => (JitEngine.bc_interp, Interp (fst r) (snd r))) <$> rs'))); [done|]. by exists rs'.
Qed.

Lemma zip_same {A B} (x : A) (xs : list A) (ys : list B) :
  Forall (eq x) xs -> length xs = length ys -> zip xs ys = (fun y => (x, y)) <$> ys.
Proof.
  intros Hx. revert ys. induction Hx as [|? xs <- _ IH]; intros [|y ys] [=]; cbn; [done|].
  by rewrite IH.
Qed.

(** The programs, all marked for the JIT, or all prepared for the interpreter as
    [rs]. *)
Definition all_jit (bcs : list cli_bc) : list (JitEngine.bc_state * program) :=
  (fun bc => (JitEngine.bc_jit, Plain bc)) <$> bcs.
Definition all_interp (rs : list (list VmExec.func * list Z)) : list (JitEngine.bc_state * program) :=
  (fun r => (JitEngine.bc_interp, Interp (fst r) (snd r))) <$> rs.

(** All programs run in the same engine.  When programs that were just
    loaded are prepared and the interpreter is enabled, [cli_bytecode_prepare]
    succeeds in exactly two ways: the JIT generated the code of every one of them
    (even if it failed to compile all of it at the end), and they stay as they were
    loaded, marked for the JIT; or the JIT did not, and every one is what
    [cli_bytecode_prepare_interpreter] made of it.  One program that neither can
    prepare makes the whole call fail. *)
Theorem prepare_dispatch mem junk p dconfmask all bcs l :
  Forall (eq JitEngine.bc_loaded) (JitEngine.states all) -> length (JitEngine.states all) = length bcs ->
  JitEngine.has dconfmask JitEngine.BYTECODE_INTERPRETER = true ->
  cli_bytecode_prepare mem junk (JitEngine.cli_bytecode_prepare_jit p) dconfmask all (Plain <$> bcs) = RVal l <->
  (jit_ready p all /\ l = all_jit bcs) \/
  (~ jit_ready p all /\
   exists rs, Forall2 (fun bc r => cli_bytecode_prepare_interpreter mem junk bc = RVal r) bcs rs /\ l = all_interp rs).
Proof.
  intros Hst Hlen Hi. unfold cli_bytecode_prepare. pose proof (prepare_jit_cases p all) as Hj.
  destruct (JitEngine.cli_bytecode_prepare_jit p all) as [rc all']. destruct Hj as [-> [[Hr Hs]|[Hr Hs]]].
  - rewrite Hs, (zip_same JitEngine.bc_jit) by
      (rewrite ?length_fmap; try done; by apply Forall_fmap, Forall_true).
    cbn iota. rewrite <- list_fmap_compose.
    assert (forall bcs, prepare_loop mem junk dconfmask ((pair JitEngine.bc_jit ∘ Plain) <$> bcs)
      = RVal ((fun bc => (JitEngine.bc_jit, Plain bc)) <$> bcs)) as ->.
    { clear. induction bcs as [|bc bcs IH]; cbn; [done|]. by rewrite IH. }
    split; [intros [= <-]; by left|intros [[_ ->]|[[] _]]; done].
  - rewrite Hs, (zip_same JitEngine.bc_loaded), <- list_fmap_compose by (rewrite ?length_fmap; done).
    change (pair JitEngine.bc_loaded ∘ Plain) with (fun bc => (JitEngine.bc_loaded, Plain bc)).
    rewrite prepare_loop_loaded by done. tauto.
Qed.

(** ** A program *)

Lemma retmagic_prepared : exists c fs b, load_sample retmagic = Loaded c /\
  cli_bytecode_prepare_interpreter true (fun _ => 0) c = RVal (fs, b) /\ fits c /\ plain_program c.
Proof.
  eexists _, _, _. split; [vm_compute; reflexivity|]. split; [vm_compute; reflexivity|].
  split; [split; [repeat constructor; vm_compute; reflexivity|vm_compute; reflexivity]|].
  unfold plain_program. cbn [lfuncs allinsts]. repeat constructor.
Qed.

Lemma prepared_frames_witness : exists c fs b gmap, load_sample retmagic = Loaded c /\ Forall2 (frame c gmap) (lfuncs c) fs /\
  VmInv.bc_ok (prepared fs b 0).
Proof.
  destruct retmagic_prepared as (c & fs & b & Hl & Hp & Hf & _). exists c, fs, b.
  destruct (prepared_frames true signatures cli_apicall_types 0 30 CL_FLEVEL [] retmagic c (fun _ => 0) fs b 0
    (text_bytes_ok _) (List.Forall_nil _) Hl Hf Hp) as (H1 & gmap & _ & H2). exists gmap. split; [exact Hl|].
  split; [exact H2|exact H1].
Defined.

Definition zero_api (id : Z) (args : list VmExec.apiarg) (x : memory * Z * unit)
  : option (VmExec.apires * (memory * Z * unit)) := Some (VmExec.RInt 0, x).

(** The blocks of the global bytes and of the values of the context. *)
Definition run_mem (b : list Z) : memory :=
  {[ 0 := {| bsize := Z.of_nat (length b); bdata := fun i => nth (Z.to_nat i) b 0 |};
     1 := {| bsize := 8; bdata := fun _ => 0 |} ]}.

Lemma zero_api_ok : VmInv.api_ok zero_api.
Proof. intros id args m n a r m' n' a' [= <- <- <- <-] Hn. split; [lia|]. by split. Qed.

Lemma run_mem_start fs b : VmProps.start_ok (prepared fs b 0) 1 8 [] 7 (run_mem b) 2.
Proof.
  split; cbn; [lia| | | |lia|split; [constructor|lia]].
  - eexists. split; [reflexivity|done].
  - intros _. eexists. split; [reflexivity|done].
  - intros x [blk Hx]. unfold run_mem in Hx. apply lookup_insert_Some in Hx as [[<- _]|[_ Hx]]; [lia|].
    apply lookup_singleton_Some in Hx as [<- _]. lia.
Qed.

Lemma retmagic_context c : load_sample retmagic = Loaded c ->
  exists x, cli_bytecode_context_setfuncid true true true c 0 = Ok (CL_SUCCESS, Some x) /\ c_bytes x = 8.
Proof. intros E. vm_compute in E. injection E as <-. eexists. split; [vm_compute; reflexivity|reflexivity]. Qed.

Lemma plain_program_runs_witness : exists fs b x code s,
  cli_bytecode_run JitEngine.bc_interp (Some x)
    (fun bytes numParams funcid operands opsizes =>
       VmExec.cli_bytecode_run_interp (prepared fs b 0) 1 true (fun _ => 0) kinds zero_api (fun pc => 5000 <=? pc) 5000
         [] 7 bytes numParams funcid operands opsizes (run_mem b) 2 tt) (fun _ => Undef) = Ok (code, Some s).
Proof.
  destruct retmagic_prepared as (c & fs & b & Hl & Hp & Hf & Hpl). destruct (retmagic_context c Hl) as (x & Hx & Hb).
  exists fs, b, x.
  apply (plain_program_runs true signatures cli_apicall_types 0 30 CL_FLEVEL [] retmagic c (fun _ => 0) fs b 0
    true true true 0 x 1 true (fun _ => 0) kinds zero_api (fun pc => 5000 <=? pc) [] 7 (run_mem b) 2 tt
    (fun _ => Undef) 1 5000 (text_bytes_ok _) (List.Forall_nil _) Hl Hf Hpl Hp Hx zero_api_ok).
  - rewrite Hb. apply run_mem_start.
  - repeat split; lia.
  - lia.
Defined.

(** Without an engine the interpreter prepares the program. *)
Lemma prepare_dispatch_witness : exists c fs b, load_sample retmagic = Loaded c /\
  cli_bytecode_prepare true (fun _ => 0) (JitEngine.cli_bytecode_prepare_jit JitEngineFacts.all_true)
    1 {| JitEngine.states := [JitEngine.bc_loaded]; JitEngine.engine := None |} [Plain c]
  = RVal [(JitEngine.bc_interp, Interp fs b)].
Proof.
  destruct retmagic_prepared as (c & fs & b & Hl & Hp & _). exists c, fs, b. split; [exact Hl|].
  apply (prepare_dispatch true (fun _ => 0) JitEngineFacts.all_true 1
    {| JitEngine.states := [JitEngine.bc_loaded]; JitEngine.engine := None |} [c]).
  - repeat constructor.
  - reflexivity.
  - reflexivity.
  - right. split; [intros [[e He] _]; discriminate He|]. exists [(fs, b)]. split; [constructor; [exact Hp|constructor]|reflexivity].
Defined.

(** The code and the integer result of a sample that is loaded, prepared and run
    by the interpreter, as the unit tests of the repository do it. *)
Definition run_sample (sample : list Z) : option (Z * option Z) :=
  match load_sample sample with
  | Loaded c =>
      match cli_bytecode_prepare_interpreter true (fun _ => 0) c with
      | RVal (fs, b) =>
          match VmExec.cli_bytecode_run_interp (prepared fs b 0) 1 true (fun _ => 0) kinds zero_api (fun _ => false) 1000
                  [] 7 8 0 0 [] [] (run_mem b) 2 tt with
          | Ok (code, s) => Some (code, VmExec.cli_bytecode_context_getresult_int 1 s)
          | _ => None
          end
      | _ => None
      end
  | _ => None
  end.

(** The expectations of [test_retmagic_int], [test_bswap_int] and [test_div0_int] of
    unit_tests/check_bytecode.c. *)
Example retmagic_result : run_sample retmagic = Some (CL_SUCCESS, Some 0x1234f00d).
Proof. vm_compute. reflexivity. Qed.
Example bswap_result : run_sample bswap = Some (CL_SUCCESS, Some 0xbeef).
Proof. vm_compute. reflexivity. Qed.
Example div0_result : option_map fst (run_sample div0) = Some CL_EBYTECODE.
Proof. vm_compute. reflexivity. Qed.

End BcPrepProps.
