(* ===== verification/StrSearch.v ===== *)
(** The value of hexadecimal digits, and searching bytes in memory: [cli_memstr] of libclamav/str.c, which skips
    positions by comparing the second byte first, and [cli_memmem] of
    libclamav/bytecode_api.c, which looks for the first byte with [memchr].  Both
    are compared with the search that tries every position. *)
From stdpp Require Import base numbers list list_numbers.
From Stdlib Require Import ZArith Lia Bool.
From S2P Require Import Prelude.
Local Open Scope Z_scope.

Module StrSearch.

(** The table [hex_chars] of str.c. *)
Definition cli_hex2int (c : Z) : Z :=
  if (48 <=? c) && (c <=? 57) then c - 48
  else if (65 <=? c) && (c <=? 70) then c - 55
  else if (97 <=? c) && (c <=? 102) then c - 87
  else -1.

(** [memchr] on [n] bytes from index [i] on; the index of the byte. *)
Fixpoint memchr (n : nat) (p : list Z) (i c : Z) : option (option Z) :=
  match n with
  | O => Some None
  | S n =>
      let* x := bget p i in
      if x =? c then Some (Some i) else memchr n p (i + 1) c
  end.

(** Whether [memcmp] on [n] bytes of [p] from [i] and [q] from [j] is 0; all of
    them must exist. *)
Definition memcmp_eq (n : Z) (p : list Z) (i : Z) (q : list Z) (j : Z) : option bool :=
  assert* (i + n <=? Z.of_nat (length p)) && (j + n <=? Z.of_nat (length q)) in
  Some (bool_decide (take (Z.to_nat n) (drop (Z.to_nat i) p) = take (Z.to_nat n) (drop (Z.to_nat j) q))).

(** The loop of [cli_memstr]; [i] grows in each round. *)
Fixpoint memstr_loop (fuel : nat) (haystack : list Z) (hs : Z) (needle : list Z) (ns n0 n1 s1 s2 i : Z)
    : res (option Z) :=
  if hs - ns <? i then Ok None else
  match fuel with
  | O => NoFuel
  | S fuel =>
      let next s := memstr_loop fuel haystack hs needle ns n0 n1 s1 s2 (uint 32 (i + s)) in
      let! h1 := of_opt (bget haystack (i + 1)) in
      if negb (n1 =? h1) then next s1 else
      let! h0 := of_opt (bget haystack i) in
      if negb (n0 =? h0) then next s2 else
      let! e := of_opt (memcmp_eq (ns - 2) needle 2 haystack (i + 2)) in
      if (e : bool) then Ok (Some i) else next s2
  end.

(** [cli_memstr]: the index in [haystack]; [same] tells whether the two pointers
    are equal. *)
Definition cli_memstr (same : bool) (haystack : list Z) (hs : Z) (needle : list Z) (ns : Z) : res (option Z) :=
  if (hs =? 0) || (ns =? 0) || (hs <? ns) then Ok None else
  if same then Ok (Some 0) else
  let! n0 := of_opt (bget needle 0) in
  if ns =? 1 then of_opt (memchr (Z.to_nat hs) haystack 0 n0) else
  let! n1 := of_opt (bget needle 1) in
  let '(s1, s2) := if n0 =? n1 then (2, 1) else (1, 2) in
  memstr_loop (S (Z.to_nat hs)) haystack hs needle ns n0 n1 s1 s2 0.

(** The loop of [cli_memmem], with [hlen] bytes left from index [i] on. *)
Fixpoint memmem_loop (fuel : nat) (haystack : list Z) (i hlen : Z) (needle : list Z) (nlen c : Z) : res (option Z) :=
  if hlen <? nlen then Ok None else
  match fuel with
  | O => NoFuel
  | S fuel =>
      let! p := of_opt (memchr (Z.to_nat (hlen - nlen + 1)) haystack i c) in
      match p with
      | None => Ok None
      | Some q =>
          let hlen := uint 32 (hlen - (q + 1 - i)) in
          let! e := of_opt (memcmp_eq (nlen - 1) haystack (q + 1) needle 1) in
          if (e : bool) then Ok (Some q) else memmem_loop fuel haystack (q + 1) hlen needle nlen c
      end
  end.

(** [cli_memmem] on pointers that are not NULL. *)
Definition cli_memmem (haystack : list Z) (hlen : Z) (needle : list Z) (nlen : Z) : res (option Z) :=
  let! c := of_opt (bget needle 0) in
  if nlen =? 1 then of_opt (memchr (Z.to_nat hlen) haystack 0 c)
  else memmem_loop (S (Z.to_nat hlen)) haystack 0 hlen needle nlen c.

End StrSearch.

Module StrFacts.
Import StrSearch.

(** The reference: the first position at which [needle] is a prefix. *)
Fixpoint first_match (needle h : list Z) : option nat :=
  if decide (needle `prefix_of` h) then Some O
  else match h with [] => None | _ :: h => S <$> first_match needle h end.

(** The needle occurs at position [i]. *)
Definition match_at (needle h : list Z) (i : nat) : Prop := needle `prefix_of` drop i h.

Lemma match_at_lookup needle h i k x : match_at needle h i -> needle !! k = Some x -> h !! (i + k)%nat = Some x.
Proof. intros [r E] Hk. rewrite <- lookup_drop, E. by apply lookup_app_l_Some. Qed.

Lemma match_at_len needle h i : match_at needle h i -> needle <> [] -> (i + length needle <= length h)%nat.
Proof.
  intros [r E] Hn. apply (f_equal length) in E. rewrite length_drop, length_app in E.
  destruct needle; [done|]. cbn in *. lia.
Qed.

Lemma match_at_take needle h i :
  match_at needle h i <-> take (length needle) (drop i h) = needle.
Proof.
  split; [intros [r ->]; apply take_app_length|].
  intros E. exists (drop (length needle) (drop i h)). by rewrite <- E at 1; rewrite take_drop.
Qed.

Lemma first_match_Some needle h : forall i, match_at needle h i -> (forall j, (j < i)%nat -> ~ match_at needle h j) ->
  first_match needle h = Some i.
Proof.
  unfold match_at. induction h as [|x h IH]; intros i Hi Hj; cbn [first_match].
  - destruct (decide _) as [|n]; [|by destruct i]. destruct i as [|i]; [done|]. by destruct (Hj O ltac:(lia)).
  - destruct i as [|i]; [by rewrite decide_True|].
    rewrite decide_False by (apply (Hj O); lia). rewrite (IH i); [done|done|].
    intros j Hlt. apply (Hj (S j)). lia.
Qed.

Lemma first_match_None needle h : (forall j, ~ match_at needle h j) -> first_match needle h = None.
Proof.
  unfold match_at. induction h as [|x h IH]; intros Hj; cbn [first_match].
  - rewrite decide_False; [done|]. apply (Hj O).
  - rewrite decide_False by apply (Hj O). rewrite IH; [done|]. intros j. apply (Hj (S j)).
Qed.

Lemma first_match_spec needle h :
  match first_match needle h with
  | Some i => match_at needle h i /\ forall j, (j < i)%nat -> ~ match_at needle h j
  | None => forall j, ~ match_at needle h j
  end.
Proof.
  unfold match_at. induction h as [|x h IH]; cbn [first_match].
  - destruct (decide (needle `prefix_of` [])) as [|Hn]; [split; [done|lia]|]. intros j. by rewrite drop_nil.
  - destruct (decide (needle `prefix_of` x :: h)) as [|Hn]; [split; [done|lia]|].
    destruct (first_match needle h) as [i|]; cbn.
    + destruct IH as [Hi Hj]. split; [done|]. intros [|j] Hlt; [done|]. apply Hj. lia.
    + intros [|j]; [done|]. apply IH.
Qed.

(** Matches in a part of a buffer. *)
Lemma match_at_segment needle h o n p : needle <> [] ->
  match_at needle (take n (drop o h)) p <-> match_at needle h (o + p) /\ (p + length needle <= n)%nat.
Proof.
  intros Hne. rewrite !match_at_take.
  rewrite skipn_firstn_comm, drop_drop, take_take.
  destruct (decide (p + length needle <= n)%nat).
  - rewrite Nat.min_l by lia. tauto.
  - split; [|intros [_ ?]; lia]. intros E. apply (f_equal length) in E. rewrite length_take, length_drop in E.
    assert (length needle <> O) by (by destruct needle). lia.
Qed.

Lemma memchr_spec p c : forall n i, 0 <= i -> i + Z.of_nat n <= Z.of_nat (length p) ->
  exists r, memchr n p i c = Some r /\
  match r with
  | None => forall k, i <= k < i + Z.of_nat n -> bget p k <> Some c
  | Some q => i <= q < i + Z.of_nat n /\ bget p q = Some c /\ forall k, i <= k < q -> bget p k <> Some c
  end.
Proof.
  induction n as [|n IH]; intros i Hi Hn; cbn [memchr]; [eexists; split; [done|]; intros ? ?; lia|].
  destruct (bget_is_Some p i ltac:(lia)) as [x Ex]. rewrite Ex.
  destruct (Z.eqb_spec x c) as [->|Hne]; [eexists; split; [done|]; split; [lia|]; split; [done|]; intros ? ?; lia|].
  destruct (IH (i + 1) ltac:(lia) ltac:(lia)) as ([q|] & -> & H); eexists; (split; [done|]).
  - destruct H as (? & ? & Hk). split; [lia|]. split; [done|]. intros k Hk'.
    destruct (decide (k = i)) as [->|]; [congruence|]. apply Hk. lia.
  - intros k Hk'. destruct (decide (k = i)) as [->|]; [congruence|]. apply H. lia.
Qed.

Section Search.
Variables haystack needle : list Z.
Hypothesis needle_ne : needle <> [].
Hypothesis hs_u32 : Z.of_nat (length haystack) < 2 ^ 32.
Abbreviation hs := (Z.of_nat (length haystack)).
Abbreviation ns := (Z.of_nat (length needle)).

(** The naive search on indices in Z. *)
Definition no_match_before (i : Z) : Prop := forall j, 0 <= j < i -> ~ match_at needle haystack (Z.to_nat j).

Definition answer : option Z := Z.of_nat <$> first_match needle haystack.

Lemma answer_found i : 0 <= i -> no_match_before i -> match_at needle haystack (Z.to_nat i) -> answer = Some i.
Proof.
  intros Hi Hb Hm. unfold answer. rewrite (first_match_Some _ _ _ Hm); [cbn; f_equal; lia|].
  intros j Hj. specialize (Hb (Z.of_nat j) ltac:(lia)). by rewrite Nat2Z.id in Hb.
Qed.

Lemma answer_none i : hs - ns < i -> no_match_before i -> answer = None.
Proof.
  intros Hi Hb. unfold answer. rewrite first_match_None; [done|]. intros j Hm.
  pose proof (match_at_len _ _ _ Hm needle_ne). apply (Hb (Z.of_nat j)); [lia|]. by rewrite Nat2Z.id.
Qed.

Lemma no_match_extend i : no_match_before i -> ~ match_at needle haystack (Z.to_nat i) -> no_match_before (i + 1).
Proof. intros Hb Hn j Hj. destruct (decide (j = i)) as [->|]; [done|]. apply Hb. lia. Qed.

(** A match has the bytes of the needle. *)
Lemma match_byte i k x : 0 <= i -> 0 <= k -> match_at needle haystack (Z.to_nat i) -> bget needle k = Some x ->
  bget haystack (i + k) = Some x.
Proof.
  intros Hi Hk Hm. rewrite !bget_lookup by lia. intros E. rewrite Z2Nat.inj_add by lia. by eapply match_at_lookup.
Qed.

(** Comparing the first [d] bytes and the rest is comparing all. *)
Lemma match_split i d : 0 <= i -> i + ns <= hs -> 0 <= d <= ns ->
  (forall k, 0 <= k < d -> bget haystack (i + k) = bget needle k) ->
  (match_at needle haystack (Z.to_nat i) <->
   take (Z.to_nat (ns - d)) (drop (Z.to_nat d) needle) = take (Z.to_nat (ns - d)) (drop (Z.to_nat (i + d)) haystack)).
Proof.
  intros Hi Hl Hd Hk.
  assert (take (Z.to_nat d) (drop (Z.to_nat i) haystack) = take (Z.to_nat d) needle) as Hpre.
  { apply list_eq. intros k. destruct (decide (k < Z.to_nat d)%nat).
    - rewrite !lookup_take_lt, lookup_drop by done. specialize (Hk (Z.of_nat k) ltac:(lia)).
      rewrite !bget_lookup in Hk by lia. rewrite Z2Nat.inj_add, Nat2Z.id in Hk by lia. done.
    - rewrite !lookup_take_ge by lia. done. }
  rewrite match_at_take.
  rewrite (take_ge (drop (Z.to_nat d) needle)) by (rewrite length_drop; lia).
  rewrite <- (take_drop (Z.to_nat d) needle) at 2.
  set (k := Z.to_nat (ns - d)). replace (length needle) with (Z.to_nat d + k)%nat by lia.
  rewrite <- take_take_drop, Hpre, drop_drop, Z2Nat.inj_add by lia.
  split; [intros E; apply app_inv_head in E; by rewrite E|by intros <-].
Qed.

(** ** [cli_memstr] *)

Lemma memstr_loop_spec n0 n1 s1 s2 : bget needle 0 = Some n0 -> bget needle 1 = Some n1 -> 2 <= ns ->
  (s1, s2) = (if n0 =? n1 then (2, 1) else (1, 2)) ->
  forall fuel i, 0 <= i -> hs - i < Z.of_nat fuel -> no_match_before i ->
  memstr_loop fuel haystack hs needle ns n0 n1 s1 s2 i = Ok answer.
Proof.
  intros E0 E1 H2 Hs. induction fuel as [|fuel IH]; intros i Hi Hf Hb; cbn [memstr_loop].
  { destruct (Z.ltb_spec (hs - ns) i); [by erewrite answer_none|lia]. }
  destruct (Z.ltb_spec (hs - ns) i) as [|Hle]; [by erewrite answer_none|].
  assert (forall x k, bget needle k = Some x -> 0 <= k -> bget haystack (i + k) <> Some x ->
    ~ match_at needle haystack (Z.to_nat i)) as Hno.
  { intros x k Ek Hk Hne Hm. by apply Hne, (match_byte i k x Hi Hk Hm). }
  assert (forall s, (s = 1 \/ s = 2) -> no_match_before (i + s) ->
    memstr_loop fuel haystack hs needle ns n0 n1 s1 s2 (uint 32 (i + s)) = Ok answer) as Hnext.
  { intros s Hs' Hb'. rewrite (uint_small 32) by lia. apply IH; [lia|lia|done]. }
  assert ((s1 = 1 \/ s1 = 2) /\ (s2 = 1 \/ s2 = 2)) as [Hs1 Hs2].
  { destruct (n0 =? n1); injection Hs as -> ->; lia. }
  destruct (bget_is_Some haystack (i + 1) ltac:(lia)) as [h1 Eh1]. rewrite Eh1. cbn [of_opt].
  destruct (Z.eqb_spec n1 h1) as [->|Hne1]; cbn [negb].
  - destruct (bget_is_Some haystack i ltac:(lia)) as [h0 Eh0]. rewrite Eh0. cbn [of_opt].
    (* the second byte agrees: if the first two of the needle differ, position i + 1 is none *)
    assert (~ match_at needle haystack (Z.to_nat i) -> no_match_before (i + s2)) as Hskip.
    { intros Hn. pose proof (no_match_extend i Hb Hn) as Hb1.
      destruct (Z.eqb_spec n0 h1) as [|Hd]; injection Hs as -> ->; [done|].
      replace (i + 2) with (i + 1 + 1) by lia. apply no_match_extend; [done|]. intros Hm.
      pose proof (match_byte (i + 1) 0 n0 ltac:(lia) ltac:(lia) Hm E0) as Hc. rewrite Z.add_0_r in Hc. congruence. }
    destruct (Z.eqb_spec n0 h0) as [->|Hne0]; cbn [negb].
    + unfold memcmp_eq.
      replace ((2 + (ns - 2) <=? ns) && (i + 2 + (ns - 2) <=? hs)) with true by lia. cbn [of_opt].
      pose proof (match_split i 2 Hi ltac:(lia) ltac:(lia)) as Hsp.
      assert (forall k, 0 <= k < 2 -> bget haystack (i + k) = bget needle k) as Hk.
      { intros k Hk. assert (k = 0 \/ k = 1) as [-> | ->] by lia; [by rewrite Z.add_0_r, Eh0|by rewrite Eh1]. }
      specialize (Hsp Hk). case_bool_decide as Hc.
      * by rewrite (answer_found i Hi Hb (proj2 Hsp Hc)).
      * apply Hnext; [done|]. apply Hskip. tauto.
    + apply Hnext; [done|]. apply Hskip. apply (Hno n0 0 E0 ltac:(lia)). rewrite Z.add_0_r. congruence.
  - apply Hnext; [done|].
    assert (~ match_at needle haystack (Z.to_nat i)) as Hn by (apply (Hno n1 1 E1 ltac:(lia)); congruence).
    pose proof (no_match_extend i Hb Hn) as Hb1.
    destruct (Z.eqb_spec n0 n1) as [->|]; injection Hs as -> ->; [|done].
    replace (i + 2) with (i + 1 + 1) by lia. apply no_match_extend; [done|]. intros Hm.
    pose proof (match_byte (i + 1) 0 n1 ltac:(lia) ltac:(lia) Hm E0) as Hc. rewrite Z.add_0_r in Hc. congruence.
Qed.

(** A single byte. *)
Lemma memchr_single c : needle = [c] -> memchr (length haystack) haystack 0 c = Some answer.
Proof.
  intros En. destruct (memchr_spec haystack c (length haystack) 0 ltac:(lia) ltac:(lia)) as (r & -> & Hr). f_equal.
  assert (forall k, 0 <= k -> bget haystack k <> Some c -> ~ match_at needle haystack (Z.to_nat k)) as Hno.
  { rewrite En. intros k Hk Hne Hm. apply Hne. rewrite bget_lookup by done.
    pose proof (match_at_lookup [c] haystack (Z.to_nat k) 0 c Hm eq_refl) as E. by rewrite Nat.add_0_r in E. }
  destruct r as [q|]; symmetry.
  - destruct Hr as (Hq & Eq & Hk). apply answer_found; [lia| |].
    + intros j Hj. apply Hno; [lia|]. apply Hk. lia.
    + rewrite bget_lookup in Eq by lia. unfold match_at. rewrite En.
      rewrite (drop_S _ _ _ Eq). by exists (drop (S (Z.to_nat q)) haystack).
  - apply (answer_none (hs + 1)); [rewrite En; cbn; lia|]. intros j Hj. apply Hno; [lia|].
    destruct (decide (j < hs)); [apply Hr; lia|].
    intros E. apply bget_Some in E. lia.
Qed.

Lemma cli_memstr_spec : cli_memstr false haystack hs needle ns = Ok answer.
Proof.
  unfold cli_memstr. assert (0 < ns) by (destruct needle; [done|cbn; lia]).
  destruct (Z.eqb_spec ns 0) as [|_]; [lia|]. rewrite orb_false_r.
  destruct (Z.ltb_spec hs ns) as [Hlt|Hge].
  { rewrite orb_true_r. rewrite (answer_none 0); [done|lia|]. intros j Hj. lia. }
  destruct (Z.eqb_spec hs 0) as [|_]; [lia|]. cbn [orb].
  destruct (bget_is_Some needle 0 ltac:(lia)) as [n0 E0]. rewrite E0. cbn [of_opt].
  destruct (Z.eqb_spec ns 1) as [H1|].
  - rewrite Nat2Z.id. rewrite memchr_single; [done|].
    destruct needle as [|a [|]]; cbn in *; [done|by injection E0 as ->|lia].
  - destruct (bget_is_Some needle 1 ltac:(lia)) as [n1 E1]. rewrite E1. cbn [of_opt].
    destruct (if n0 =? n1 then (2, 1) else (1, 2)) as [s1 s2] eqn:Es.
    apply memstr_loop_spec; [done|done|lia|done|lia|lia|]. intros j Hj. lia.
Qed.

(** ** [cli_memmem] *)

Lemma memmem_loop_spec c : bget needle 0 = Some c -> forall fuel i, 0 <= i <= hs -> hs - i < Z.of_nat fuel ->
  no_match_before i -> memmem_loop fuel haystack i (hs - i) needle ns c = Ok answer.
Proof.
  intros E0. assert (0 < ns) by (destruct needle; [done|cbn; lia]).
  induction fuel as [|fuel IH]; intros i Hi Hf Hb; cbn [memmem_loop];
    (destruct (Z.ltb_spec (hs - i) ns); [rewrite (answer_none i); [done|lia|done]|]); [lia|].
  destruct (memchr_spec haystack c (Z.to_nat (hs - i - ns + 1)) i ltac:(lia) ltac:(lia)) as (r & -> & Hr). cbn [of_opt].
  assert (forall k, 0 <= k -> bget haystack k <> Some c -> ~ match_at needle haystack (Z.to_nat k)) as Hno.
  { intros k Hk Hne Hm. apply Hne. rewrite <- (Z.add_0_r k). by apply match_byte. }
  destruct r as [q|].
  - destruct Hr as (Hq & Eq & Hk). unfold memcmp_eq.
    replace ((q + 1 + (ns - 1) <=? hs) && (1 + (ns - 1) <=? ns)) with true by lia. cbn [of_opt].
    assert (no_match_before q) as Hbq.
    { intros j Hj. destruct (decide (j < i)); [apply Hb; lia|]. apply Hno; [lia|]. apply Hk. lia. }
    pose proof (match_split q 1 ltac:(lia) ltac:(lia) ltac:(lia)) as Hsp.
    assert (forall k, 0 <= k < 1 -> bget haystack (q + k) = bget needle k) as Hone.
    { intros k Hk1. assert (k = 0) as -> by lia. by rewrite Z.add_0_r, Eq, E0. }
    specialize (Hsp Hone). case_bool_decide as Hc.
    + by rewrite (answer_found q ltac:(lia) Hbq (proj2 Hsp (eq_sym Hc))).
    + rewrite (uint_small 32) by lia. replace (hs - i - (q + 1 - i)) with (hs - (q + 1)) by lia.
      apply IH; [lia|lia|]. apply no_match_extend; [done|]. intros Hm. by apply Hc; symmetry; apply Hsp.
  - rewrite (answer_none (hs - ns + 1)); [done|lia|]. intros j Hj.
    destruct (decide (j < i)); [apply Hb; lia|]. apply Hno; [lia|]. apply Hr. lia.
Qed.

Lemma cli_memmem_spec : cli_memmem haystack hs needle ns = Ok answer.
Proof.
  unfold cli_memmem. assert (0 < ns) by (destruct needle; [done|cbn; lia]).
  destruct (bget_is_Some needle 0 ltac:(lia)) as [c E0]. rewrite E0. cbn [of_opt].
  destruct (Z.eqb_spec ns 1).
  - rewrite Nat2Z.id. rewrite memchr_single; [done|].
    destruct needle as [|a [|]]; cbn in *; [done|by injection E0 as ->|lia].
  - rewrite <- (Z.sub_0_r hs) at 2. apply memmem_loop_spec; [done|lia|lia|]. intros j Hj. lia.
Qed.
End Search.
End StrFacts.

Module StrProps.
Import StrSearch StrFacts.

(** The fast searches agree with the naive one.  For a needle that is not
    empty, [cli_memstr] and [cli_memmem] return the first position at which the
    needle occurs, or NULL if there is none, without an access outside the two
    buffers. *)
Theorem search_first haystack needle : needle <> [] -> Z.of_nat (length haystack) < 2 ^ 32 ->
  let first := Z.of_nat <$> first_match needle haystack in
  cli_memstr false haystack (Z.of_nat (length haystack)) needle (Z.of_nat (length needle)) = Ok first /\
  cli_memmem haystack (Z.of_nat (length haystack)) needle (Z.of_nat (length needle)) = Ok first.
Proof. intros Hn Hl. split; [by apply cli_memstr_spec|by apply cli_memmem_spec]. Qed.

(** "aab" in "aaaabab". *)
Lemma search_first_witness :
  cli_memstr false [97; 97; 97; 97; 98; 97; 98] 7 [97; 97; 98] 3 = Ok (Some 2) /\
  cli_memmem [97; 97; 97; 97; 98; 97; 98] 7 [97; 97; 98] 3 = Ok (Some 2).
Proof.
  apply (search_first [97; 97; 97; 97; 98; 97; 98] [97; 97; 98]); [discriminate|cbn; lia].
Defined.

End StrProps.
