(* ===== verification/BcApi.v ===== *)
(** The functions that bytecode programs call (libclamav/bytecode_api.c): access to
    the scanned file, buffer pipes, hash sets and maps.

    A pointer argument is the contents of the object it points to; the interpreter
    has checked that the object has the length that is passed with it.  A result
    [Undef] is an access outside such an object. *)
From stdpp Require Import base numbers list list_numbers gmap.
From Stdlib Require Import ZArith Lia Bool.
From S2P Require Import Prelude Hashset Hashtab Climap StrSearch.
Import Errors Alloc StrSearch.
Local Open Scope Z_scope.

Module BcApi.

(** [struct bc_buffer]; NULL data is [None]. *)
Record bc_buffer := { data : option (list Z); bufsize : Z; write_cursor : Z; read_cursor : Z }.

(** [struct cli_bc_ctx], as far as these functions use it.  The arrays are NULL
    exactly when they are empty. *)
Record bc_ctx := {
  fmap : option (list Z); file_size : Z; off : Z;
  buffers : list bc_buffer; hashsets : list HashSet.hashset; maps : list CliMap.cli_map }.

Definition with_off (ctx : bc_ctx) (o : Z) : bc_ctx :=
  {| fmap := fmap ctx; file_size := file_size ctx; off := o; buffers := buffers ctx;
     hashsets := hashsets ctx; maps := maps ctx |}.
Definition with_buffers (ctx : bc_ctx) (l : list bc_buffer) : bc_ctx :=
  {| fmap := fmap ctx; file_size := file_size ctx; off := off ctx; buffers := l;
     hashsets := hashsets ctx; maps := maps ctx |}.
Definition with_hashsets (ctx : bc_ctx) (l : list HashSet.hashset) : bc_ctx :=
  {| fmap := fmap ctx; file_size := file_size ctx; off := off ctx; buffers := buffers ctx;
     hashsets := l; maps := maps ctx |}.
Definition with_maps (ctx : bc_ctx) (l : list CliMap.cli_map) : bc_ctx :=
  {| fmap := fmap ctx; file_size := file_size ctx; off := off ctx; buffers := buffers ctx;
     hashsets := hashsets ctx; maps := l |}.

(** ** The file *)

(** [CLI_ISCONTAINED(bb, bb_size, bb + sb, sb_size)], for offsets [sb] from the
    start of the larger object. *)
Definition CLI_ISCONTAINED (bb_size sb sb_size : Z) : bool :=
  (0 <? bb_size) && (0 <? sb_size) && (uint 64 sb_size <=? uint 64 bb_size) && (0 <=? sb)
  && (sb + sb_size <=? bb_size) && (0 <? sb + sb_size) && (sb <? bb_size).

Section File.
(** Whether the pages of the file can be read. *)
Variable io : bool.

(** [fmap_need_off_once]: NULL, or the bytes. *)
Definition fmap_need (m : list Z) (at_ len : Z) : option (list Z) :=
  if len =? 0 then None
  else if negb (CLI_ISCONTAINED (Z.of_nat (length m)) at_ len) then None
  else if io then Some (take (Z.to_nat len) (drop (Z.to_nat at_) m)) else None.

(** [fmap_readn]: the return value, and the bytes that are copied. *)
Definition fmap_readn (m : list Z) (at_ len : Z) : Z * list Z :=
  if Z.of_nat (length m) <? at_ then (-1, []) else
  let len := if Z.of_nat (length m) - at_ <? len then Z.of_nat (length m) - at_ else len in
  match fmap_need m at_ len with
  | None => (-1, [])
  | Some src => (sint 32 len, src)
  end.

(** [cli_bcapi_read]: the return value, the new contents of [data], and the
    context; the bytes are written at offset [o] of [data]. *)
Definition cli_bcapi_read (ctx : bc_ctx) (data : list Z) (o size : Z) : res (Z * list Z * bc_ctx) :=
  match fmap ctx with
  | None => Ok (-1, data, ctx)
  | Some m =>
      if (size <? 0) || (CLI_MAX_ALLOCATION <? size) then Ok (-1, data, ctx) else
      let '(n, src) := fmap_readn m (uint 64 (off ctx)) size in
      let! data := of_opt (CliMap.write_at data o src) in
      if n <=? 0 then Ok (n, data, ctx) else Ok (n, data, with_off ctx (off ctx + n))
  end.

(** [cli_bcapi_seek]: [off_t] has 64 bits, [ctx->file_size + pos] is unsigned. *)
Definition cli_bcapi_seek (ctx : bc_ctx) (pos whence : Z) : Z * bc_ctx :=
  match fmap ctx with
  | None => (-1, ctx)
  | Some _ =>
      let target := if whence =? 0 then Some pos
                    else if whence =? 1 then Some (off ctx + pos)
                    else if whence =? 2 then Some (uint 32 (file_size ctx + pos))
                    else None in
      match target with
      | None => (-1, ctx)
      | Some o => if (o <? 0) || (file_size ctx <? o) then (-1, ctx) else (sint 32 o, with_off ctx o)
      end
  end.

Definition cli_bcapi_file_byteat (ctx : bc_ctx) (o : Z) : Z :=
  match fmap ctx with
  | None => -1
  | Some m =>
      match fmap_readn m o 1 with
      | (1, [c]) => c
      | _ => -1
      end
  end.

(** [cli_bcapi_fill_buffer]: what was not consumed is moved to the front of the
    buffer, the rest is read from the file. *)
Definition cli_bcapi_fill_buffer (ctx : bc_ctx) (buf : list Z) (buflen filled pos : Z) : res (Z * list Z * bc_ctx) :=
  if (buflen =? 0) || (CLI_MAX_ALLOCATION <? buflen) || (buflen <? filled) then Ok (-1, buf, ctx) else
  if file_size ctx <=? off ctx then Ok (0, buf, ctx) else
  let remaining := sint 32 (uint 32 (filled - pos)) in
  if negb (remaining =? 0) && negb (CLI_ISCONTAINED buflen pos remaining) then Ok (-1, buf, ctx) else
  let! buf :=
    (if negb (remaining =? 0) then
       of_opt (assert* (pos + remaining <=? Z.of_nat (length buf)) in
               CliMap.write_at buf 0 (take (Z.to_nat remaining) (drop (Z.to_nat pos) buf)))
     else Ok buf) in
  let tofill := sint 32 (uint 32 (buflen - remaining)) in
  if negb (CLI_ISCONTAINED buflen remaining tofill) then Ok (-1, buf, ctx) else
  let! (r, buf, ctx) := cli_bcapi_read ctx buf remaining tofill in
  if r <=? 0 then Ok (r, buf, ctx) else Ok (remaining + r, buf, ctx).

(** The loop of [cli_bcapi_file_find_limit]; [char buf[4096]]. *)
Fixpoint find_loop (fuel : nat) (m data : list Z) (len limit off : Z) : res Z :=
  match fuel with
  | O => NoFuel
  | S fuel =>
      let over := limit <? uint 32 (off + 4096) in
      let readlen := if over then sint 32 (uint 32 (limit - off)) else 4096 in
      if over && (readlen <? 0) then Ok (-1) else
      let '(n, buf) := fmap_readn m off readlen in
      if (uint 32 n <? len) || (n <? 0) then Ok (-1) else
      let! p := cli_memmem buf n data len in
      match p with
      | Some p => Ok (sint 32 (uint 32 (off + p)))
      | None => find_loop fuel m data len limit (uint 32 (off + n))
      end
  end.

Definition cli_bcapi_file_find_limit (ctx : bc_ctx) (data : list Z) (len limit : Z) : res Z :=
  match fmap ctx with
  | None => Ok (-1)
  | Some m =>
      if (1024 <? len) || (len =? 0) || (limit <=? 0) then Ok (-1)
      else find_loop (S (length m)) m data len limit (uint 32 (off ctx))
  end.

(** [cli_bcapi_file_find]: the length of the map becomes an [int32_t]. *)
Definition cli_bcapi_file_find (ctx : bc_ctx) (data : list Z) (len : Z) : res Z :=
  match fmap ctx with
  | None => Ok (-1)
  | Some m => if len =? 0 then Ok (-1) else cli_bcapi_file_find_limit ctx data len (sint 32 (Z.of_nat (length m)))
  end.

End File.

(** [cli_bcapi_memstr]: [None] is NULL. *)
Definition cli_bcapi_memstr (same : bool) (h : option (list Z)) (hs : Z) (n : option (list Z)) (ns : Z) : res Z :=
  match h, n with
  | Some h, Some n =>
      if (hs <? 0) || (ns <? 0) then Ok (-1) else
      let! s := cli_memstr same h hs n ns in
      Ok (match s with Some i => sint 32 i | None => -1 end)
  | _, _ => Ok (-1)
  end.

(** ** Buffer pipes *)

Definition BUFSIZ : Z := 8192.

Definition cli_bcapi_buffer_pipe_new (mem1 mem2 : bool) (ctx : bc_ctx) (size : Z) : Z * bc_ctx :=
  let n := Z.of_nat (length (buffers ctx)) + 1 in
  if negb (cli_calloc mem1 1 size) then (-1, ctx) else
  if negb (cli_realloc mem2 (24 * n)) then (-1, ctx) else
  (n - 1, with_buffers ctx (buffers ctx ++ [{| data := Some (replicate (Z.to_nat size) 0); bufsize := size;
                                               write_cursor := 0; read_cursor := 0 |}])).

(** A pipe without data reads the file from [read_cursor] on. *)
Definition cli_bcapi_buffer_pipe_new_fromfile (mem : bool) (ctx : bc_ctx) (at_ : Z) : Z * bc_ctx :=
  let n := Z.of_nat (length (buffers ctx)) + 1 in
  if file_size ctx <=? at_ then (-1, ctx) else
  if negb (cli_realloc mem (24 * n)) then (-1, ctx) else
  (n - 1, with_buffers ctx (buffers ctx ++ [{| data := None; bufsize := 0; write_cursor := 0; read_cursor := at_ |}])).

Definition get_buffer (ctx : bc_ctx) (id : Z) : option bc_buffer := bget (buffers ctx) id.

Definition set_buffer (ctx : bc_ctx) (id : Z) (b : bc_buffer) : bc_ctx :=
  with_buffers ctx (<[Z.to_nat id := b]> (buffers ctx)).

Definition cli_bcapi_buffer_pipe_read_avail (ctx : bc_ctx) (id : Z) : Z :=
  match get_buffer ctx id with
  | None => 0
  | Some b =>
      match data b with
      | Some _ => if write_cursor b <=? read_cursor b then 0 else write_cursor b - read_cursor b
      | None =>
          match fmap ctx with
          | None => 0
          | Some _ =>
              if file_size ctx <=? read_cursor b then 0
              else if uint 32 (read_cursor b + BUFSIZ) <=? file_size ctx then BUFSIZ
              else file_size ctx - read_cursor b
          end
      end
  end.

(** The pointers that are handed out: an offset in the buffer, or in the file. *)
Inductive pipe_ptr := InBuffer (o : Z) | InFile (o : Z).

Definition cli_bcapi_buffer_pipe_read_get (io : bool) (ctx : bc_ctx) (id size : Z) : option pipe_ptr :=
  let* b := get_buffer ctx id in
  if (cli_bcapi_buffer_pipe_read_avail ctx id <? size) || (size =? 0) then None else
  match data b with
  | Some _ => Some (InBuffer (read_cursor b))
  | None =>
      let* m := fmap ctx in
      let* _ := fmap_need io m (read_cursor b) size in Some (InFile (read_cursor b))
  end.

Definition cli_bcapi_buffer_pipe_read_stopped (ctx : bc_ctx) (id amount : Z) : Z * bc_ctx :=
  match get_buffer ctx id with
  | None => (-1, ctx)
  | Some b =>
      match data b with
      | Some _ =>
          if write_cursor b <=? read_cursor b then (-1, ctx) else
          let r := if write_cursor b <? uint 32 (read_cursor b + amount) then write_cursor b
                   else uint 32 (read_cursor b + amount) in
          let w := write_cursor b in
          let reset := (bufsize b <=? r) && (bufsize b <=? w) in
          (0, set_buffer ctx id {| data := data b; bufsize := bufsize b;
                                   write_cursor := if reset then 0 else w; read_cursor := if reset then 0 else r |})
      | None =>
          (0, set_buffer ctx id {| data := data b; bufsize := bufsize b; write_cursor := write_cursor b;
                                   read_cursor := uint 32 (read_cursor b + amount) |})
      end
  end.

Definition cli_bcapi_buffer_pipe_write_avail (ctx : bc_ctx) (id : Z) : Z :=
  match get_buffer ctx id with
  | None => 0
  | Some b =>
      match data b with
      | None => 0
      | Some _ => if bufsize b <=? write_cursor b then 0 else bufsize b - write_cursor b
      end
  end.

Definition cli_bcapi_buffer_pipe_write_get (ctx : bc_ctx) (id size : Z) : option pipe_ptr :=
  let* b := get_buffer ctx id in
  if (cli_bcapi_buffer_pipe_write_avail ctx id <? size) || (size =? 0) then None else
  let* _ := data b in Some (InBuffer (write_cursor b)).

Definition cli_bcapi_buffer_pipe_write_stopped (ctx : bc_ctx) (id size : Z) : Z * bc_ctx :=
  match get_buffer ctx id with
  | None => (-1, ctx)
  | Some b =>
      match data b with
      | None => (-1, ctx)
      | Some _ =>
          (0, set_buffer ctx id {| data := data b; bufsize := bufsize b;
            write_cursor := if bufsize b <=? uint 32 (write_cursor b + size) then bufsize b
                            else uint 32 (write_cursor b + size);
            read_cursor := read_cursor b |})
      end
  end.

Definition cli_bcapi_buffer_pipe_done (ctx : bc_ctx) (id : Z) : Z * bc_ctx :=
  match get_buffer ctx id with
  | None => (-1, ctx)
  | Some b => (0, set_buffer ctx id {| data := None; bufsize := bufsize b; write_cursor := write_cursor b;
                                       read_cursor := read_cursor b |})
  end.

(** ** Hash sets *)

(** [cli_bcapi_hashset_new]: the result of [cli_hashset_init] is not tested. *)
Definition cli_bcapi_hashset_new (mem mem1 mem2 : bool) (junk : list Z) (ctx : bc_ctx) : Z * bc_ctx :=
  let n := Z.of_nat (length (hashsets ctx)) + 1 in
  if negb (cli_realloc mem (32 * n)) then (-1, ctx) else
  let '(_, s) := HashSet.cli_hashset_init mem1 mem2 junk 16 80 in
  (n - 1, with_hashsets ctx (hashsets ctx ++ [s])).

Definition get_hashset (ctx : bc_ctx) (id : Z) : option HashSet.hashset := bget (hashsets ctx) id.

Definition set_hashset (ctx : bc_ctx) (id : Z) (s : HashSet.hashset) : bc_ctx :=
  with_hashsets ctx (<[Z.to_nat id := s]> (hashsets ctx)).

Definition cli_bcapi_hashset_add (mem1 mem2 : bool) (junk : list Z) (ctx : bc_ctx) (id key : Z) : res (Z * bc_ctx) :=
  match get_hashset ctx id with
  | None => Ok (-1, ctx)
  | Some s => let! (rc, s) := HashSet.cli_hashset_addkey mem1 mem2 junk s key in Ok (rc, set_hashset ctx id s)
  end.

Definition cli_bcapi_hashset_remove (ctx : bc_ctx) (id key : Z) : res (Z * bc_ctx) :=
  match get_hashset ctx id with
  | None => Ok (-1, ctx)
  | Some s => let! (rc, s) := HashSet.cli_hashset_removekey s key in Ok (rc, set_hashset ctx id s)
  end.

(** [cli_bcapi_hashset_contains]: the [int] that [cli_hashset_contains] returns is
    the bit of the slot in its word of the bitmap, not 0 or 1. *)
Definition cli_bcapi_hashset_contains (ctx : bc_ctx) (id key : Z) : res Z :=
  match get_hashset ctx id with
  | None => Ok (-1)
  | Some s =>
      let! idx := HashSet.cli_hashset_search s key in
      let! w := of_opt (bget (HashSet.bitmap s) (Z.shiftr idx 5)) in
      Ok (sint 32 (Z.land w (Z.shiftl 1 (Z.land idx 0x1f))))
  end.

(** [cli_bcapi_hashset_empty] follows the pointer without a test. *)
Definition cli_bcapi_hashset_empty (ctx : bc_ctx) (id : Z) : res Z :=
  let! s := of_opt (get_hashset ctx id) in Ok (if HashSet.count s =? 0 then 1 else 0).

(** [cli_bcapi_hashset_done]: only the last set is taken out of the array. *)
Definition cli_bcapi_hashset_done (ctx : bc_ctx) (id : Z) : Z * bc_ctx :=
  match get_hashset ctx id with
  | None => (-1, ctx)
  | Some s =>
      let ctx := set_hashset ctx id (HashSet.cli_hashset_destroy s) in
      (0, if id =? Z.of_nat (length (hashsets ctx)) - 1 then with_hashsets ctx (removelast (hashsets ctx)) else ctx)
  end.

(** ** Maps *)

(** [cli_bcapi_map_new]: [junk_map] is what the new element of the array held; the
    result of [cli_map_init] is not tested. *)
Definition cli_bcapi_map_new (mem mem1 : bool) (junk_map : CliMap.cli_map) (ctx : bc_ctx) (keysize valuesize : Z)
    : Z * bc_ctx :=
  let n := Z.of_nat (length (maps ctx)) + 1 in
  if keysize =? 0 then (-1, ctx) else
  if negb (cli_realloc mem (64 * n)) then (-1, ctx) else
  let '(_, s) := CliMap.cli_map_init mem1 junk_map keysize valuesize 16 in
  (n - 1, with_maps ctx (maps ctx ++ [s])).

Definition get_hashtab (ctx : bc_ctx) (id : Z) : option CliMap.cli_map := bget (maps ctx) id.

Definition set_map (ctx : bc_ctx) (id : Z) (s : CliMap.cli_map) : bc_ctx :=
  with_maps ctx (<[Z.to_nat id := s]> (maps ctx)).

Definition cli_bcapi_map_addkey (mem : bool) (junk : list Z) (ctx : bc_ctx) (key : list Z) (keysize id : Z)
    : res (Z * bc_ctx) :=
  match get_hashtab ctx id with
  | None => Ok (-1, ctx)
  | Some s => let! (rc, s) := CliMap.cli_map_addkey mem junk s key keysize in Ok (rc, set_map ctx id s)
  end.

Definition cli_bcapi_map_setvalue (mem : bool) (ctx : bc_ctx) (value : list Z) (valuesize id : Z) : res (Z * bc_ctx) :=
  match get_hashtab ctx id with
  | None => Ok (-1, ctx)
  | Some s => let! (rc, s) := of_opt (CliMap.cli_map_setvalue mem s value valuesize) in Ok (rc, set_map ctx id s)
  end.

Definition cli_bcapi_map_remove (ctx : bc_ctx) (key : list Z) (keysize id : Z) : res (Z * bc_ctx) :=
  match get_hashtab ctx id with
  | None => Ok (-1, ctx)
  | Some s => let! (rc, s) := CliMap.cli_map_removekey s key keysize in Ok (rc, set_map ctx id s)
  end.

Definition cli_bcapi_map_find (ctx : bc_ctx) (key : list Z) (keysize id : Z) : res (Z * bc_ctx) :=
  match get_hashtab ctx id with
  | None => Ok (-1, ctx)
  | Some s => let! (rc, s) := CliMap.cli_map_find s key keysize in Ok (rc, set_map ctx id s)
  end.

Definition cli_bcapi_map_getvaluesize (ctx : bc_ctx) (id : Z) : res Z :=
  match get_hashtab ctx id with
  | None => Ok (-1)
  | Some s => of_opt (CliMap.cli_map_getvalue_size s)
  end.

Definition cli_bcapi_map_getvalue (ctx : bc_ctx) (id valuesize : Z) : res (option CliMap.value_ptr) :=
  match get_hashtab ctx id with
  | None => Ok None
  | Some s =>
      let! n := of_opt (CliMap.cli_map_getvalue_size s) in
      if negb (n =? valuesize) then Ok None else of_opt (CliMap.cli_map_getvalue s)
  end.

Definition cli_bcapi_map_done (ctx : bc_ctx) (id : Z) : res (Z * bc_ctx) :=
  match get_hashtab ctx id with
  | None => Ok (-1, ctx)
  | Some s =>
      let! s := of_opt (CliMap.cli_map_delete s) in
      let ctx := set_map ctx id s in
      Ok (0, if id =? Z.of_nat (length (maps ctx)) - 1 then with_maps ctx (removelast (maps ctx)) else ctx)
  end.

(** ** Small functions *)

Definition cli_bcapi_test1 (a b : Z) : Z := if (a =? 0xf00dbeef) && (b =? 0xbeeff00d) then 0x12345678 else 0x55.
Definition cli_bcapi_test2 (a : Z) : Z := if a =? 0xf00d then 0xd00f else 0x5555.

(** [cli_hex2str_to] on two characters. *)
Definition cli_bcapi_hex2ui (ah bh : Z) : Z :=
  let c := cli_hex2int (uint 8 ah) in
  if c <? 0 then -1 else
  let d := cli_hex2int (uint 8 bh) in
  if d <? 0 then -1 else uint 8 (Z.shiftl c 4 + d).

End BcApi.
