(* ===== verification/BcApiFacts.v ===== *)
(** Facts about the API of bytecode programs: the file, pipes and hash sets. *)
From stdpp Require Import base numbers list list_numbers gmap sets.
From Stdlib Require Import ZArith Lia Bool.
From S2P Require Import Prelude Hashset Hashtab Climap StrSearch BcApi.
Import Errors Alloc StrSearch StrFacts BcApi.
Local Open Scope Z_scope.

Module BcApiFacts.

(** ** The file *)

(** The bytes [o, o + n) of a file. *)
Definition segment (m : list Z) (o n : Z) : list Z := take (Z.to_nat n) (drop (Z.to_nat o) m).

Lemma length_segment m o n : 0 <= o -> 0 <= n -> o + n <= Z.of_nat (length m) -> Z.of_nat (length (segment m o n)) = n.
Proof. intros. unfold segment. rewrite length_take, length_drop. lia. Qed.

Lemma contained_iff bb_size sb sb_size : bb_size < 2 ^ 64 ->
  CLI_ISCONTAINED bb_size sb sb_size = true <-> 0 < sb_size /\ 0 <= sb /\ sb + sb_size <= bb_size.
Proof.
  intros Hb. unfold CLI_ISCONTAINED. rewrite !andb_true_iff, !Z.ltb_lt, !Z.leb_le. split; [lia|].
  intros (Hs & Ho & Hc). rewrite !(uint_small 64) by lia. lia.
Qed.

(** Reading within the file. *)
Lemma readn_spec m o len : Z.of_nat (length m) < 2 ^ 31 -> 0 <= o -> 0 <= len ->
  fmap_readn true m o len =
    if (o <? Z.of_nat (length m)) && (0 <? len) then
      let n := Z.min len (Z.of_nat (length m) - o) in (n, segment m o n)
    else (-1, []).
Proof.
  intros Hm Ho Hl. unfold fmap_readn, fmap_need.
  destruct (Z.ltb_spec (Z.of_nat (length m)) o); [by replace (o <? _) with false by lia|].
  set (n := if Z.of_nat (length m) - o <? len then Z.of_nat (length m) - o else len).
  assert (n = Z.min len (Z.of_nat (length m) - o)) as Hn by (unfold n; case_match; lia).
  destruct (Z.eqb_spec n 0).
  - by replace ((o <? Z.of_nat (length m)) && (0 <? len)) with false by lia.
  - replace ((o <? Z.of_nat (length m)) && (0 <? len)) with true by lia.
    rewrite (proj2 (contained_iff (Z.of_nat (length m)) o n ltac:(lia))) by lia. cbn [negb].
    rewrite <- Hn. cbv zeta. f_equal. apply sint_small; lia.
Qed.

(** ** [cli_bcapi_file_find_limit] *)

Section Find.
Variables (m needle : list Z) (limit o : Z).
Hypothesis needle_ne : needle <> [].
Hypothesis len_ok : Z.of_nat (length needle) <= 1024.
Hypothesis file_ok : Z.of_nat (length m) < 2 ^ 31.
Hypothesis limit_ok : 0 < limit < 2 ^ 31.
Hypothesis o_ok : 0 <= o < 2 ^ 31.
Abbreviation len := (Z.of_nat (length needle)).

(** The end of the part that is searched. *)
Definition last_byte : Z := Z.min limit (Z.of_nat (length m)).

(** The needle occurs at [r], before the limit, inside one block of 4096 bytes
    counted from [o]. *)
Definition occurrence (r : Z) : Prop :=
  o <= r /\ r + len <= last_byte /\ match_at needle m (Z.to_nat r) /\ (r - o) / 4096 = (r + len - 1 - o) / 4096.

Lemma len_pos : 0 < len.
Proof. destruct needle; [done|cbn; lia]. Qed.

(** A match in what was read at [x] is a match in the file. *)
Lemma match_read x n p : 0 <= x -> 0 <= n -> 0 <= p ->
  match_at needle (segment m x n) (Z.to_nat p) <-> match_at needle m (Z.to_nat (x + p)) /\ p + len <= n.
Proof.
  intros Hx Hn Hp. unfold segment. rewrite match_at_segment by done. rewrite Z2Nat.inj_add by lia.
  split; intros [? ?]; (split; [done|lia]).
Qed.

(** What the search of a block finds. *)
Lemma memmem_block x n : 0 <= x -> 0 < n -> x + n <= Z.of_nat (length m) ->
  exists r, cli_memmem (segment m x n) n needle len = Ok r /\
  match r with
  | Some p => 0 <= p /\ p + len <= n /\ match_at needle m (Z.to_nat (x + p)) /\
      forall q, x <= q < x + p -> q + len <= x + n -> ~ match_at needle m (Z.to_nat q)
  | None => forall q, x <= q -> q + len <= x + n -> ~ match_at needle m (Z.to_nat q)
  end.
Proof.
  intros Hx Hn Hl. pose proof (length_segment m x n ltac:(lia) ltac:(lia) ltac:(lia)) as Hseg.
  pose proof (cli_memmem_spec (segment m x n) needle needle_ne ltac:(lia)) as E. rewrite Hseg in E. rewrite E.
  eexists. split; [done|]. unfold answer. pose proof (first_match_spec needle (segment m x n)) as Hs.
  assert (forall q, x <= q -> q + len <= x + n -> match_at needle m (Z.to_nat q) ->
    match_at needle (segment m x n) (Z.to_nat (q - x))) as Hin.
  { intros q Hq Hqn Hmq. apply match_read; [lia..|]. replace (x + (q - x)) with q by lia. split; [done|lia]. }
  destruct (first_match _ _) as [i|]; cbn.
  - destruct Hs as [Hi Hj]. rewrite <- (Nat2Z.id i) in Hi. apply match_read in Hi as [Hi ?]; [|lia..].
    split; [lia|]. split; [done|]. split; [done|]. intros q Hq Hqn Hmq.
    apply (Hj (Z.to_nat (q - x))); [lia|]. apply Hin; [lia|done|done].
  - intros q Hq Hqn Hmq. by apply (Hs (Z.to_nat (q - x))), Hin.
Qed.

(** An occurrence that starts in the block at [x] ends in it. *)
Lemma block_end x q : (x - o) `mod` 4096 = 0 -> x <= q < x + 4096 -> occurrence q -> q + len <= x + 4096.
Proof.
  intros Hal Hq (_ & _ & _ & Hblk).
  pose proof (Z.div_mod (x - o) 4096 ltac:(lia)). pose proof (Z.div_mod (q + len - 1 - o) 4096 ltac:(lia)).
  pose proof (Z.mod_pos_bound (q + len - 1 - o) 4096 ltac:(lia)).
  rewrite <- (Z.div_unique (q - o) 4096 ((x - o) / 4096) (q - x)) in Hblk by lia. lia.
Qed.

(** The answer that the loop must give. *)
Definition right (r : Z) : Prop :=
  (r = -1 /\ forall q, ~ occurrence q) \/ (occurrence r /\ forall q, occurrence q -> r <= q).

Lemma find_loop_spec : forall fuel x, 0 <= x < 2 ^ 31 -> Z.max 0 (Z.of_nat (length m) - x) < Z.of_nat fuel ->
  (x - o) `mod` 4096 = 0 \/ last_byte <= x -> o <= x -> (forall q, occurrence q -> x <= q) ->
  exists r, find_loop true fuel m needle len limit x = Ok r /\ right r.
Proof.
  pose proof len_pos as Hlen.
  assert (forall x, (forall q, occurrence q -> x <= q) -> last_byte <= x + len - 1 -> right (-1)) as Hend.
  { intros x Hq Hle. left. split; [done|]. intros q Ho. pose proof (Hq q Ho). destruct Ho as (_ & Hb & _). lia. }
  induction fuel as [|fuel IH]; intros x Hx Hf Hal Hox Hq; [lia|]. cbn [find_loop].
  rewrite (uint_small 32 (x + 4096)) by lia.
  set (over := limit <? x + 4096).
  set (readlen := if over then sint 32 (uint 32 (limit - x)) else 4096).
  assert (readlen = if over then limit - x else 4096) as Hrl.
  { unfold readlen. destruct over; [|done]. rewrite sint_uint by lia. apply sint_small; lia. }
  destruct (over && (readlen <? 0)) eqn:Eneg.
  { exists (-1). split; [done|]. apply (Hend x Hq). unfold last_byte. unfold over in *.
    destruct (Z.ltb_spec limit (x + 4096)); [|done]. cbn in Eneg. lia. }
  assert (0 <= readlen /\ readlen = Z.min 4096 (limit - x)) as [Hr0 Hr].
  { unfold over in *. destruct (Z.ltb_spec limit (x + 4096)); cbn in Eneg; lia. }
  clearbody readlen. clear Hrl Eneg.
  rewrite readn_spec by lia.
  destruct ((x <? Z.of_nat (length m)) && (0 <? readlen)) eqn:Erd.
  2:{ exists (-1). split; [by change (-1 <? 0) with true; rewrite orb_true_r|]. apply (Hend x Hq). unfold last_byte. lia. }
  cbv zeta. set (n := Z.min readlen (Z.of_nat (length m) - x)).
  assert (0 < n <= 4096 /\ x + n <= last_byte /\ (n = 4096 \/ x + n = last_byte)) as (Hn & Hnl & Hne)
    by (unfold n, last_byte; lia).
  clearbody n.
  destruct ((uint 32 n <? len) || (n <? 0)) eqn:Esh.
  { exists (-1). split; [done|]. rewrite (uint_small 32) in Esh by lia. apply (Hend x Hq). lia. }
  rewrite (uint_small 32) in Esh by lia.
  destruct (memmem_block x n ltac:(lia) ltac:(lia)) as ([p|] & -> & Hp).
  { unfold last_byte in *. lia. }
  - destruct Hp as (Hp0 & Hpn & Hmp & Hmin). eexists. split; [done|].
    rewrite sint_uint, (sint_small 32) by (unfold last_byte in *; lia). right. split.
    + split; [lia|]. split; [lia|]. split; [done|]. destruct Hal as [Hal|]; [|lia].
      pose proof (Z.div_mod (x - o) 4096 ltac:(lia)) as Hd.
      rewrite <- (Z.div_unique (x + p - o) 4096 ((x - o) / 4096) p) by lia.
      rewrite <- (Z.div_unique (x + p + len - 1 - o) 4096 ((x - o) / 4096) (p + len - 1)) by lia. done.
    + intros q Hoq. pose proof (Hq q Hoq). destruct (decide (x + p <= q)); [done|]. exfalso.
      apply (Hmin q ltac:(lia)); [|apply Hoq]. destruct Hne as [->|Hne]; [|destruct Hoq as (_ & ? & _); lia].
      destruct Hal as [Hal|]; [|lia]. apply (block_end x q Hal); [lia|done].
  - rewrite (uint_small 32) by (unfold last_byte in *; lia).
    apply IH; [unfold last_byte in *; lia|unfold last_byte in *; lia| |lia|].
    + destruct Hne as [->|]; [|right; lia]. destruct Hal as [Hal|]; [left|right; lia].
      replace (x + 4096 - o) with (x - o + 1 * 4096) by lia. by rewrite Z.mod_add.
    + intros q Hoq. pose proof (Hq q Hoq). destruct (decide (x + n <= q)); [done|]. exfalso.
      apply (Hp q ltac:(lia)); [|apply Hoq]. destruct Hne as [->|Hne]; [|destruct Hoq as (_ & ? & _); lia].
      destruct Hal as [Hal|]; [|lia]. apply (block_end x q Hal); [lia|done].
Qed.
End Find.

(** ** Reading and filling *)

Lemma write_at_spec l o src : 0 <= o -> o + Z.of_nat (length src) <= Z.of_nat (length l) ->
  CliMap.write_at l o src = Some (take (Z.to_nat o) l ++ src ++ drop (Z.to_nat o + length src) l).
Proof. intros. unfold CliMap.write_at. by replace ((0 <=? o) && _) with true by lia. Qed.

(** Reading [size] bytes into the buffer at [o]. *)
Lemma read_spec ctx m buf o size : fmap ctx = Some m -> Z.of_nat (length m) < 2 ^ 31 ->
  0 <= off ctx < 2 ^ 31 -> 0 < size <= CLI_MAX_ALLOCATION -> 0 <= o -> o + size <= Z.of_nat (length buf) ->
  cli_bcapi_read true ctx buf o size =
    if off ctx <? Z.of_nat (length m) then
      let n := Z.min size (Z.of_nat (length m) - off ctx) in
      Ok (n, take (Z.to_nat o) buf ++ segment m (off ctx) n ++ drop (Z.to_nat (o + n)) buf, with_off ctx (off ctx + n))
    else Ok (-1, buf, ctx).
Proof.
  intros Em Hm Ho Hs Hbo Hb. unfold cli_bcapi_read. rewrite Em.
  replace ((size <? 0) || (CLI_MAX_ALLOCATION <? size)) with false by lia.
  rewrite (uint_small 64) by lia. rewrite readn_spec by lia.
  replace (0 <? size) with true by lia. rewrite andb_true_r.
  destruct (Z.ltb_spec (off ctx) (Z.of_nat (length m))).
  - cbv zeta. set (n := Z.min size (Z.of_nat (length m) - off ctx)).
    assert (0 < n <= size) by lia.
    pose proof (length_segment m (off ctx) n ltac:(lia) ltac:(lia) ltac:(lia)).
    cbv iota beta. rewrite write_at_spec by lia. cbn [of_opt]. replace (n <=? 0) with false by lia.
    do 4 f_equal. f_equal. f_equal. lia.
  - cbv iota beta. rewrite write_at_spec by (cbn; lia). cbn [of_opt length app].
    rewrite Nat.add_0_r, take_drop. done.
Qed.

(** [fill_buffer] keeps what was not consumed and appends what comes next in the
    file. *)
Lemma fill_buffer_spec ctx m buf filled pos : fmap ctx = Some m -> Z.of_nat (length m) < 2 ^ 31 ->
  file_size ctx = Z.of_nat (length m) -> 0 <= off ctx < Z.of_nat (length m) ->
  let buflen := Z.of_nat (length buf) in
  0 < buflen <= CLI_MAX_ALLOCATION -> 0 <= pos <= filled -> filled <= buflen -> filled - pos < buflen ->
  let kept := filled - pos in
  let n := Z.min (buflen - kept) (Z.of_nat (length m) - off ctx) in
  exists rest,
  cli_bcapi_fill_buffer true ctx buf buflen filled pos =
    Ok (kept + n, segment buf pos kept ++ segment m (off ctx) n ++ rest, with_off ctx (off ctx + n)) /\
  0 < n /\ Z.of_nat (length rest) = buflen - kept - n.
Proof.
  intros Em Hm Hfs Ho buflen Hb Hp Hfl Hk kept n. unfold cli_bcapi_fill_buffer.
  assert (buflen < 2 ^ 31) by (unfold CLI_MAX_ALLOCATION in *; lia).
  replace ((buflen =? 0) || (CLI_MAX_ALLOCATION <? buflen) || (buflen <? filled)) with false by lia.
  replace (file_size ctx <=? off ctx) with false by lia.
  rewrite (uint_small 32 (filled - pos)), (sint_small 32 (filled - pos)) by lia. fold kept.
  assert (negb (kept =? 0) && negb (CLI_ISCONTAINED buflen pos kept) = false) as ->.
  { destruct (Z.eqb_spec kept 0); [done|]. by rewrite (proj2 (contained_iff buflen pos kept ltac:(lia))) by lia. }
  pose proof (length_segment buf pos kept ltac:(lia) ltac:(lia) ltac:(lia)) as Hseg.
  assert (exists buf1, (if negb (kept =? 0) then
       of_opt (assert* (pos + kept <=? Z.of_nat (length buf)) in
               CliMap.write_at buf 0 (take (Z.to_nat kept) (drop (Z.to_nat pos) buf)))
     else Ok buf) = Ok buf1 /\ take (Z.to_nat kept) buf1 = segment buf pos kept /\ length buf1 = length buf)
    as (buf1 & -> & Hb1 & Hl1).
  { destruct (Z.eqb_spec kept 0) as [E|]; cbn [negb].
    - exists buf. split; [done|]. split; [|done]. rewrite E. done.
    - replace (pos + kept <=? Z.of_nat (length buf)) with true by lia. fold (segment buf pos kept).
      rewrite write_at_spec by lia. change (Z.to_nat 0) with O. rewrite take_0, app_nil_l, Nat.add_0_l. eexists. split; [done|].
      split; [apply take_app_length'; lia|]. rewrite length_app, length_drop. lia. }
  rewrite (uint_small 32 (buflen - kept)), (sint_small 32 (buflen - kept)) by lia.
  rewrite (proj2 (contained_iff buflen kept (buflen - kept) ltac:(lia))) by lia. cbn [negb].
  rewrite (read_spec ctx m) by (done || lia).
  replace (off ctx <? Z.of_nat (length m)) with true by lia. cbv zeta. fold n.
  cbv iota beta. rewrite Hb1. replace (n <=? 0) with false by lia.
  eexists. split; [done|]. split; [lia|]. rewrite length_drop. lia.
Qed.

(** ** Pipes *)

(** The bytes in a pipe. *)
Definition contents (b : bc_buffer) : list Z :=
  match data b with
  | Some d => segment d (read_cursor b) (write_cursor b - read_cursor b)
  | None => []
  end.

Record pipe_ok (b : bc_buffer) (d : list Z) : Prop := {
  pipe_data : data b = Some d;
  pipe_size : bufsize b = Z.of_nat (length d);
  pipe_small : bufsize b < 2 ^ 31;
  pipe_order : 0 <= read_cursor b <= write_cursor b;
  pipe_bound : write_cursor b <= bufsize b }.

(** What a program does to write bytes: it asks for room, stores the bytes at the
    pointer it gets, and says how many it wrote. *)
Definition pipe_write (ctx : bc_ctx) (id : Z) (bytes : list Z) : option bc_ctx :=
  let* p := cli_bcapi_buffer_pipe_write_get ctx id (Z.of_nat (length bytes)) in
  let* b := get_buffer ctx id in
  match p, data b with
  | InBuffer o, Some d =>
      let* d := CliMap.write_at d o bytes in
      Some (snd (cli_bcapi_buffer_pipe_write_stopped
        (set_buffer ctx id {| data := Some d; bufsize := bufsize b; write_cursor := write_cursor b;
                              read_cursor := read_cursor b |}) id (Z.of_nat (length bytes))))
  | _, _ => None
  end.

(** What it does to read [n] bytes. *)
Definition pipe_read (ctx : bc_ctx) (id n : Z) : option (list Z * bc_ctx) :=
  let* p := cli_bcapi_buffer_pipe_read_get true ctx id n in
  let* b := get_buffer ctx id in
  match p, data b with
  | InBuffer o, Some d =>
      assert* (o + n <=? Z.of_nat (length d)) in
      Some (segment d o n, snd (cli_bcapi_buffer_pipe_read_stopped ctx id n))
  | _, _ => None
  end.

Lemma get_set_buffer ctx id b b' : get_buffer ctx id = Some b -> get_buffer (set_buffer ctx id b') id = Some b'.
Proof. intros E. apply bget_Some in E. unfold get_buffer, set_buffer. cbn. by apply bget_insert_eq. Qed.

Lemma set_set_buffer ctx id b b' : set_buffer (set_buffer ctx id b) id b' = set_buffer ctx id b'.
Proof. unfold set_buffer, with_buffers. cbn. by rewrite list_insert_insert_eq. Qed.

Lemma segment_app d o a b : 0 <= o -> 0 <= a -> 0 <= b -> segment d o (a + b) = segment d o a ++ segment d (o + a) b.
Proof.
  intros. unfold segment. rewrite !Z2Nat.inj_add by lia. by rewrite <- drop_drop, take_take_drop.
Qed.

Lemma segment_write d o src : 0 <= o -> o + Z.of_nat (length src) <= Z.of_nat (length d) ->
  let d' := take (Z.to_nat o) d ++ src ++ drop (Z.to_nat o + length src) d in
  length d' = length d /\ segment d' o (Z.of_nat (length src)) = src /\
  forall x n, 0 <= x -> 0 <= n -> x + n <= o -> segment d' x n = segment d x n.
Proof.
  intros Ho Hl d'. assert (length (take (Z.to_nat o) d) = Z.to_nat o) as Ht by (rewrite length_take; lia).
  split; [|split].
  - unfold d'. rewrite !length_app, Ht, length_drop. lia.
  - unfold segment, d'. rewrite drop_app_length' by done. rewrite Nat2Z.id. apply take_app_length.
  - intros x n Hx Hn Hxn. unfold segment, d'. rewrite drop_app_le by lia.
    rewrite take_app_le by (rewrite length_drop; lia). rewrite skipn_firstn_comm, take_take. f_equal. lia.
Qed.

Lemma pipe_write_spec ctx id b d bytes : get_buffer ctx id = Some b -> pipe_ok b d -> bytes <> [] ->
  let n := Z.of_nat (length bytes) in
  if n <=? bufsize b - write_cursor b then
    exists b' d', pipe_write ctx id bytes = Some (set_buffer ctx id b') /\ pipe_ok b' d' /\
      contents b' = contents b ++ bytes /\ bufsize b' = bufsize b /\ write_cursor b' = write_cursor b + n
  else pipe_write ctx id bytes = None.
Proof.
  intros Eb [Hd Hs Hsm Hor Hbd] Hne n. assert (0 < n) by (destruct bytes; [done|unfold n; cbn; lia]).
  unfold pipe_write, cli_bcapi_buffer_pipe_write_get, cli_bcapi_buffer_pipe_write_avail. rewrite Eb, Hd. fold n.
  replace (n =? 0) with false by lia. rewrite orb_false_r.
  assert ((if bufsize b <=? write_cursor b then 0 else bufsize b - write_cursor b) = bufsize b - write_cursor b) as ->
    by (case_match; lia).
  destruct (Z.leb_spec n (bufsize b - write_cursor b)) as [Hle|Hgt].
  2:{ by replace (bufsize b - write_cursor b <? n) with true by lia. }
  replace (bufsize b - write_cursor b <? n) with false by lia.
  rewrite write_at_spec by lia. destruct (segment_write d (write_cursor b) bytes) as (Hl' & Hw & Hold); [lia|lia|].
  set (d' := take _ d ++ bytes ++ drop _ d) in *.
  unfold cli_bcapi_buffer_pipe_write_stopped. erewrite get_set_buffer by done. cbn [data bufsize write_cursor read_cursor snd].
  rewrite set_set_buffer, (uint_small 32) by lia.
  assert ((if bufsize b <=? write_cursor b + n then bufsize b else write_cursor b + n) = write_cursor b + n) as ->
    by (case_match; lia).
  eexists _, d'. split; [done|]. cbn [bufsize write_cursor]. split; [|split; [|done]].
  - split; cbn; (done || lia).
  - unfold contents. cbn [data write_cursor read_cursor]. rewrite Hd.
    replace (write_cursor b + n - read_cursor b) with ((write_cursor b - read_cursor b) + n) by lia.
    rewrite segment_app by lia. replace (read_cursor b + (write_cursor b - read_cursor b)) with (write_cursor b) by lia.
    unfold n. rewrite Hw, Hold by lia. done.
Qed.

Lemma pipe_read_spec ctx id b d n : get_buffer ctx id = Some b -> pipe_ok b d -> 0 < n ->
  let l := Z.of_nat (length (contents b)) in
  if n <=? l then
    exists b', pipe_read ctx id n = Some (take (Z.to_nat n) (contents b), set_buffer ctx id b') /\ pipe_ok b' d /\
      contents b' = drop (Z.to_nat n) (contents b) /\ bufsize b' = bufsize b /\
      bufsize b' - write_cursor b' =
        if (n =? l) && (bufsize b - write_cursor b =? 0) then bufsize b else bufsize b - write_cursor b
  else pipe_read ctx id n = None.
Proof.
  intros Eb [Hd Hs Hsm Hor Hbd] Hn l.
  assert (l = write_cursor b - read_cursor b) as Hl.
  { unfold l, contents. rewrite Hd. apply length_segment; lia. }
  unfold pipe_read, cli_bcapi_buffer_pipe_read_get, cli_bcapi_buffer_pipe_read_avail. rewrite Eb, Hd.
  replace (n =? 0) with false by lia. rewrite orb_false_r.
  assert ((if write_cursor b <=? read_cursor b then 0 else write_cursor b - read_cursor b) = l) as ->
    by (case_match; lia).
  destruct (Z.leb_spec n l) as [Hle|Hgt]; [|by replace (l <? n) with true by lia].
  replace (l <? n) with false by lia. cbn iota.
  replace (read_cursor b + n <=? Z.of_nat (length d)) with true by lia.
  unfold cli_bcapi_buffer_pipe_read_stopped. rewrite Eb, Hd.
  replace (write_cursor b <=? read_cursor b) with false by lia. cbn [snd].
  rewrite (uint_small 32) by lia.
  assert ((if write_cursor b <? read_cursor b + n then write_cursor b else read_cursor b + n) = read_cursor b + n) as ->
    by (case_match; lia).
  assert (contents b = segment d (read_cursor b) n ++ segment d (read_cursor b + n) (write_cursor b - (read_cursor b + n)))
    as Hc.
  { unfold contents. rewrite Hd, <- segment_app by lia. f_equal. lia. }
  assert (length (segment d (read_cursor b) n) = Z.to_nat n) as Hln
    by (pose proof (length_segment d (read_cursor b) n); lia).
  rewrite Hc, take_app_length', drop_app_length' by done.
  eexists. split; [done|]. cbn [bufsize write_cursor]. split; [|split; [|split; [done|]]].
  3:{ destruct (Z.leb_spec (bufsize b) (read_cursor b + n)), (Z.leb_spec (bufsize b) (write_cursor b)),
        (Z.eqb_spec n l), (Z.eqb_spec (bufsize b - write_cursor b) 0); cbn; lia. }
  - split; cbn; try done; case_match; lia.
  - unfold contents. cbn [data write_cursor read_cursor]. case_match eqn:Er; [|done].
    apply andb_true_iff in Er as [? ?]. replace (write_cursor b - (read_cursor b + n)) with 0 by lia. done.
Qed.

(** ** Hash sets *)

Lemma bitmap_word_bit w idx : 0 <= idx ->
  (sint 32 (Z.land w (Z.shiftl 1 (Z.land idx 0x1f))) =? 0) = (Z.land w (Z.shiftl 1 (Z.land idx 0x1f)) =? 0).
Proof.
  intros Hi. change 0x1f with (Z.ones 5). rewrite Z.land_ones by lia.
  pose proof (Z.mod_pos_bound idx (2 ^ 5) ltac:(lia)) as Hk. set (k := idx `mod` 2 ^ 5) in *.
  assert (Z.land w (Z.shiftl 1 k) = if Z.testbit w k then 2 ^ k else 0) as ->.
  { rewrite Z.shiftl_1_l. apply Z.bits_inj'. intros i Hi'. rewrite Z.land_spec.
    destruct (decide (i = k)) as [->|Hne].
    - rewrite Z.pow2_bits_true, andb_true_r by lia. destruct (Z.testbit w k) eqn:E; [by rewrite Z.pow2_bits_true by lia|].
      by rewrite Z.testbit_0_l.
    - rewrite Z.pow2_bits_false, andb_false_r by lia.
      destruct (Z.testbit w k); [by rewrite Z.pow2_bits_false by lia|by rewrite Z.testbit_0_l]. }
  destruct (Z.testbit w k); [|done].
  assert (0 < 2 ^ k < 2 ^ 32) as Hp.
  { split; [apply pow2_gt0; lia|]. apply Z.pow_lt_mono_r; lia. }
  replace (2 ^ k =? 0) with false by lia.
  destruct (Z.eqb_spec (sint 32 (2 ^ k)) 0) as [E|]; [|done].
  change 0 with (sint 32 0) in E. apply sint_eq_iff in E; [|lia]. rewrite !(uint_small 32) in E by lia. lia.
Qed.

(** Looking up a key. *)
Lemma api_contains_spec ctx id s S key : get_hashset ctx id = Some s -> HashSetFacts.represents s S ->
  exists v, cli_bcapi_hashset_contains ctx id key = Ok v /\ (v <> 0 <-> key ∈ S).
Proof.
  intros Eg Hr. pose proof (HashSetFacts.represents_contains s S key Hr) as Hc.
  unfold cli_bcapi_hashset_contains. rewrite Eg. unfold HashSet.cli_hashset_contains, HashSet.BITMAP_CONTAINS in Hc.
  destruct (HashSet.cli_hashset_search s key) as [idx| |]; try done.
  destruct (bget (HashSet.bitmap s) (Z.shiftr idx 5)) as [w|] eqn:Ew; [|done]. cbn [of_opt] in *.
  eexists. split; [done|]. injection Hc as Hc.
  assert (0 <= idx) as Hi by (apply (Z.shiftr_nonneg idx 5); apply bget_Some in Ew; lia).
  rewrite <- (bitmap_word_bit w idx Hi) in Hc.
  destruct (Z.eqb_spec (sint 32 (Z.land w (Z.shiftl 1 (Z.land idx 31)))) 0); case_bool_decide; naive_solver.
Qed.

End BcApiFacts.
