(* ===== verification/BcApiProps.v ===== *)
(** The properties of the API of bytecode programs. *)
From stdpp Require Import base numbers list list_numbers gmap sets.
From Stdlib Require Import ZArith Lia Bool.
From S2P Require Import Prelude Hashset Hashtab Climap StrSearch BcApi BcApiFacts.
Import Errors Alloc StrSearch StrFacts BcApi BcApiFacts.
Local Open Scope Z_scope.

Module BcApiProps.

(** A context that scans the file [m], at offset [o]. *)
Definition scanning (m : list Z) (o : Z) : bc_ctx :=
  {| fmap := Some m; file_size := Z.of_nat (length m); off := o; buffers := []; hashsets := []; maps := [] |}.

(** What [file_find_limit] is documented to look for (bytecode_api.h), from the file
    offset [o] on: the data at a position [r] with r + len < limit. *)
Definition match_pos (m data : list Z) (limit o r : Z) : Prop :=
  o <= r /\ r + Z.of_nat (length data) < limit /\ match_at data m (Z.to_nat r).

(** The file is read in blocks of 4096 bytes, from [o] on: the data crosses the
    end of none. *)
Definition inside_blocks (m data : list Z) (o : Z) : Prop := forall q, o <= q ->
  match_at data m (Z.to_nat q) -> (q - o) / 4096 = (q + Z.of_nat (length data) - 1 - o) / 4096.

(** The data does not end at the limit. *)
Definition not_at_limit (m data : list Z) (limit o : Z) : Prop := forall q, o <= q ->
  match_at data m (Z.to_nat q) -> q + Z.of_nat (length data) <> limit.

Lemma occurrence_match_pos m data limit o r : data <> [] -> 0 <= o -> inside_blocks m data o -> not_at_limit m data limit o ->
  occurrence m data limit o r <-> match_pos m data limit o r.
Proof.
  intros Hd Ho Hb Hl. unfold occurrence, match_pos, last_byte. split.
  - intros (H1 & H2 & H3 & _). specialize (Hl r H1 H3). split; [done|]. split; [lia|done].
  - intros (H1 & H2 & H3). split; [done|]. pose proof (match_at_len _ _ _ H3 Hd).
    split; [lia|]. split; [done|by apply Hb].
Qed.

(** C38. Searching in the file.  If the data crosses the end of no block of 4096
    bytes that is read and does not end at the limit, then
    [cli_bcapi_file_find_limit] ends, without an access outside its buffer, and
    returns the first position r from the file offset on at which the data is found
    with r + len < limit, or -1 if there is none. *)
Theorem file_find_blocks m o data limit :
  data <> [] -> Z.of_nat (length data) <= 1024 -> Z.of_nat (length m) < 2 ^ 31 -> 0 < limit < 2 ^ 31 -> 0 <= o < 2 ^ 31 ->
  inside_blocks m data o -> not_at_limit m data limit o ->
  exists r, cli_bcapi_file_find_limit true (scanning m o) data (Z.of_nat (length data)) limit = Ok r /\
    ((r = -1 /\ forall q, ~ match_pos m data limit o q) \/
     (match_pos m data limit o r /\ forall q, match_pos m data limit o q -> r <= q)).
Proof.
  intros Hd Hl Hm Hlim Ho Hin Hnl. unfold cli_bcapi_file_find_limit. cbn [fmap scanning off].
  assert (0 < Z.of_nat (length data)) by (destruct data; [done|cbn; lia]).
  replace ((1024 <? Z.of_nat (length data)) || (Z.of_nat (length data) =? 0) || (limit <=? 0)) with false by lia.
  rewrite (uint_small 32) by lia.
  setoid_rewrite <- (occurrence_match_pos m data limit o _ Hd ltac:(lia) Hin Hnl).
  apply (find_loop_spec m data limit o Hd Hl Hm Hlim Ho); [lia|lia| |lia|].
  - left. by rewrite Z.sub_diag.
  - intros q (? & _). done.
Qed.

Lemma file_find_blocks_witness :
  exists r, cli_bcapi_file_find_limit true (scanning [1; 2; 3; 2; 3] 1) [3] 1 4 = Ok r /\ r = 2 /\
    forall q, match_pos [1; 2; 3; 2; 3] [3] 4 1 q -> 2 <= q.
Proof.
  assert (forall q, 1 <= q -> match_at [3] [1; 2; 3; 2; 3] (Z.to_nat q) -> q = 2 \/ q = 4) as Hq.
  { intros q Hq [r Hr]. destruct (Z.leb_spec 5 q) as [H|H].
    - rewrite drop_ge in Hr by (cbn; lia). discriminate Hr.
    - assert (q = 1 \/ q = 2 \/ q = 3 \/ q = 4) as [-> | [-> | [-> | ->]]] by lia; [discriminate Hr|lia|discriminate Hr|lia]. }
  destruct (file_find_blocks [1; 2; 3; 2; 3] 1 [3] 4) as (r & E & H); [discriminate|cbn; lia|cbn; lia|lia|lia|..].
  - intros q H1 H2. destruct (Hq q H1 H2) as [-> | ->]; reflexivity.
  - intros q H1 H2. destruct (Hq q H1 H2) as [-> | ->]; discriminate.
  - assert (r = 2) as -> by (change (cli_bcapi_file_find_limit true (scanning [1; 2; 3; 2; 3] 1) [3] 1 4 = Ok r) in E;
      vm_compute in E; injection E as <-; reflexivity).
    exists 2. split; [exact E|]. split; [reflexivity|]. destruct H as [[H _]|[_ H]]; [discriminate H|exact H].
Defined.

(** A search over the end of a block fails: the two bytes are at 4095. *)
Lemma match_across_blocks_missed :
  let m := replicate 4095 0 ++ [1; 2] in
  match_at [1; 2] m 4095 /\ cli_bcapi_file_find true (scanning m 0) [1; 2] 2 = Ok (-1).
Proof. split; [exists []; vm_compute; reflexivity|vm_compute; reflexivity]. Qed.

(** A match that ends at the limit is accepted: the byte is at 2, the limit is 3. *)
Lemma match_at_limit_found : cli_bcapi_file_find_limit true (scanning [1; 2; 3; 2] 0) [3] 1 3 = Ok 2.
Proof. vm_compute. reflexivity. Qed.

(** ** Pipes *)

(** What programs do with a pipe, and what they get. *)
Inductive pipe_op := PWrite (bytes : list Z) | PRead (n : Z).
Inductive pipe_out := Accepted | Got (bytes : list Z) | Refused.

Definition pipe_step (ctx : bc_ctx) (id : Z) (op : pipe_op) : pipe_out * bc_ctx :=
  match op with
  | PWrite bytes => match pipe_write ctx id bytes with Some ctx => (Accepted, ctx) | None => (Refused, ctx) end
  | PRead n => match pipe_read ctx id n with Some (l, ctx) => (Got l, ctx) | None => (Refused, ctx) end
  end.

Fixpoint pipe_run (ctx : bc_ctx) (id : Z) (ops : list pipe_op) : list pipe_out * bc_ctx :=
  match ops with
  | [] => ([], ctx)
  | op :: ops =>
      let '(o, ctx) := pipe_step ctx id op in
      let '(os, ctx) := pipe_run ctx id ops in (o :: os, ctx)
  end.

(** The specification: a queue with room for so many more bytes; the room comes
    back when the queue has been filled once and emptied. *)
Record queue := { q_bytes : list Z; q_room : Z }.

Definition queue_step (size : Z) (q : queue) (op : pipe_op) : pipe_out * queue :=
  match op with
  | PWrite bytes =>
      if Z.of_nat (length bytes) <=? q_room q
      then (Accepted, {| q_bytes := q_bytes q ++ bytes; q_room := q_room q - Z.of_nat (length bytes) |})
      else (Refused, q)
  | PRead n =>
      if n <=? Z.of_nat (length (q_bytes q))
      then (Got (take (Z.to_nat n) (q_bytes q)),
            {| q_bytes := drop (Z.to_nat n) (q_bytes q);
               q_room := if (n =? Z.of_nat (length (q_bytes q))) && (q_room q =? 0) then size else q_room q |})
      else (Refused, q)
  end.

Fixpoint queue_run (size : Z) (q : queue) (ops : list pipe_op) : list pipe_out * queue :=
  match ops with
  | [] => ([], q)
  | op :: ops =>
      let '(o, q) := queue_step size q op in
      let '(os, q) := queue_run size q ops in (o :: os, q)
  end.

(** The bytes that were written, and those that were read. *)
Fixpoint written (ops : list pipe_op) (os : list pipe_out) : list Z :=
  match ops, os with
  | PWrite bytes :: ops, Accepted :: os => bytes ++ written ops os
  | _ :: ops, _ :: os => written ops os
  | _, _ => []
  end.
Fixpoint received (os : list pipe_out) : list Z :=
  match os with
  | Got l :: os => l ++ received os
  | _ :: os => received os
  | [] => []
  end.

Definition op_ok (op : pipe_op) : Prop := match op with PWrite bytes => bytes <> [] | PRead n => 0 < n end.

(** The pipe [id] of [ctx] is the queue. *)
Definition is_queue (ctx : bc_ctx) (id size : Z) (q : queue) : Prop :=
  exists b d, get_buffer ctx id = Some b /\ pipe_ok b d /\ bufsize b = size /\
    q_bytes q = contents b /\ q_room q = bufsize b - write_cursor b.

Lemma pipe_step_sim ctx id size q op : op_ok op -> is_queue ctx id size q ->
  exists o ctx' q', pipe_step ctx id op = (o, ctx') /\ queue_step size q op = (o, q') /\ is_queue ctx' id size q'.
Proof.
  intros Hop (b & d & Eb & Hb & Hs & Hq & Hr). destruct op as [bytes|n]; cbn [pipe_step queue_step op_ok] in *.
  - pose proof (pipe_write_spec ctx id b d bytes Eb Hb Hop) as Hw. cbv zeta in Hw. rewrite Hr.
    destruct (_ <=? _).
    + destruct Hw as (b' & d' & -> & Hok & Hc & Hbs & Hwc). eexists _, _, _. split; [done|]. split; [done|].
      exists b', d'. split; [by eapply get_set_buffer|]. split; [done|]. split; [congruence|]. cbn [q_bytes q_room].
      split; [by rewrite Hc, Hq|lia].
    + rewrite Hw. eexists _, _, _. split; [done|]. split; [done|]. exists b, d. done.
  - pose proof (pipe_read_spec ctx id b d n Eb Hb Hop) as Hrd. cbv zeta in Hrd. rewrite Hq, Hr.
    destruct (_ <=? _).
    + destruct Hrd as (b' & -> & Hok & Hc & Hbs & Hroom). eexists _, _, _. split; [done|]. split; [done|].
      exists b', d. split; [by eapply get_set_buffer|]. split; [done|]. split; [congruence|]. cbn [q_bytes q_room].
      split; [done|]. by rewrite Hroom, Hs.
    + rewrite Hrd. eexists _, _, _. split; [done|]. split; [done|]. exists b, d. done.
Qed.

Lemma pipe_run_sim id size ops : Forall op_ok ops -> forall ctx q, is_queue ctx id size q ->
  exists os ctx' q', pipe_run ctx id ops = (os, ctx') /\ queue_run size q ops = (os, q') /\ is_queue ctx' id size q'.
Proof.
  induction 1 as [|op ops Hop _ IH]; intros ctx q Hq; cbn [pipe_run queue_run].
  - eexists _, _, _. done.
  - destruct (pipe_step_sim ctx id size q op Hop Hq) as (o & c1 & q1 & -> & -> & H1).
    destruct (IH c1 q1 H1) as (os & c2 & q2 & -> & -> & H2). eexists _, _, _. done.
Qed.

(** The queue loses and invents nothing. *)
Lemma queue_fifo size ops : forall q os q', queue_run size q ops = (os, q') ->
  q_bytes q ++ written ops os = received os ++ q_bytes q'.
Proof.
  induction ops as [|op ops IH]; intros q os q'; cbn [queue_run].
  { intros [= <- <-]. cbn. by rewrite app_nil_r. }
  destruct (queue_step size q op) as [o q1] eqn:Eq. destruct (queue_run size q1 ops) as [os1 q2] eqn:Er.
  intros [= <- <-]. apply IH in Er. revert Eq. destruct op as [bytes|n]; cbn [queue_step].
  - destruct (_ <=? _); intros [= <- <-]; cbn [written received q_bytes] in *; [|done].
    by rewrite <- Er, app_assoc.
  - destruct (_ <=? _); intros [= <- <-]; cbn [written received q_bytes] in *; [|done].
    by rewrite <- app_assoc, <- Er, app_assoc, take_drop.
Qed.

(** C39. Buffer pipes are queues.  On a new pipe of at most 182 MiB, every sequence
    of writes and reads by a program gives exactly what the queue gives: bytes
    come out in the order in which they went in, none is lost or invented, no
    access leaves the buffer, and a write is refused only for lack of room. *)
Theorem pipe_implements_queue ctx size id ctx0 ops : 0 < size < 2 ^ 31 -> Forall op_ok ops ->
  cli_bcapi_buffer_pipe_new true true ctx size = (id, ctx0) -> id <> -1 ->
  exists os ctx' q, pipe_run ctx0 id ops = (os, ctx') /\
    queue_run size {| q_bytes := []; q_room := size |} ops = (os, q) /\ is_queue ctx' id size q /\
    written ops os = received os ++ q_bytes q.
Proof.
  intros Hs Hops En Hid.
  assert (is_queue ctx0 id size {| q_bytes := []; q_room := size |}) as Hq.
  { revert En. unfold cli_bcapi_buffer_pipe_new. cbv zeta.
    destruct (cli_calloc true 1 size); [|intros [= <- <-]; done]. destruct (cli_realloc _ _); [|intros [= <- <-]; done].
    cbn [negb]. intros [= <- <-]. eexists _, _. split.
    { unfold get_buffer, with_buffers. cbn [buffers]. rewrite bget_lookup by lia.
      replace (Z.to_nat (Z.of_nat (length (buffers ctx)) + 1 - 1)) with (length (buffers ctx)) by lia.
      by rewrite list_lookup_middle. }
    split; [split; cbn; [done|rewrite length_replicate; lia|lia|lia|lia]|]. cbn.
    split; [done|]. split; [done|lia]. }
  destruct (pipe_run_sim id size ops Hops ctx0 _ Hq) as (os & ctx' & q & E & Eq & Hq').
  exists os, ctx', q. split; [done|]. split; [done|]. split; [done|]. apply (queue_fifo _ _ _ _ _ Eq).
Qed.

Lemma pipe_implements_queue_witness :
  let ops := [PWrite [1; 2; 3]; PRead 2; PWrite [4]; PRead 2; PWrite [5; 6]] in
  let '(id, ctx0) := cli_bcapi_buffer_pipe_new true true (scanning [] 0) 4 in
  exists os ctx', pipe_run ctx0 id ops = (os, ctx') /\ written ops os = received os ++ [5; 6].
Proof.
  cbv zeta. destruct (cli_bcapi_buffer_pipe_new true true (scanning [] 0) 4) as [id ctx0] eqn:E.
  assert (id <> -1) as Hid by (vm_compute in E; injection E as <- <-; discriminate).
  destruct (pipe_implements_queue (scanning [] 0) 4 id ctx0
    [PWrite [1; 2; 3]; PRead 2; PWrite [4]; PRead 2; PWrite [5; 6]]) as (os & ctx' & q & E1 & E2 & _ & E3);
    [lia|repeat constructor; (discriminate || lia)|exact E|exact Hid|].
  exists os, ctx'. split; [exact E1|]. vm_compute in E2. injection E2 as <- <-. exact E3.
Defined.

(** A pipe that was given back is read from the file. *)
Lemma pipe_done_reads_file :
  let ctx := scanning [7; 8; 9] 0 in
  let '(id, ctx) := cli_bcapi_buffer_pipe_new true true ctx 4 in
  let '(_, ctx) := cli_bcapi_buffer_pipe_done ctx id in
  cli_bcapi_buffer_pipe_read_avail ctx id = 3.
Proof. vm_compute. reflexivity. Qed.

(** ** Hash sets *)

Inductive set_op := SNew | SAdd (id key : Z) | SHas (id key : Z).

Definition set_step (junk : list Z) (ctx : bc_ctx) (op : set_op) : res (Z * bc_ctx) :=
  match op with
  | SNew => Ok (cli_bcapi_hashset_new true true true junk ctx)
  | SAdd id key => cli_bcapi_hashset_add true true junk ctx id key
  | SHas id key => let! v := cli_bcapi_hashset_contains ctx id key in Ok (v, ctx)
  end.

Fixpoint set_run (junk : list Z) (ctx : bc_ctx) (ops : list set_op) : res (list Z * bc_ctx) :=
  match ops with
  | [] => Ok ([], ctx)
  | op :: ops =>
      let! (r, ctx) := set_step junk ctx op in
      let! (rs, ctx) := set_run junk ctx ops in Ok (r :: rs, ctx)
  end.

(** The specification: a list of finite sets. *)
Definition sets_step (Ss : list (gset Z)) (op : set_op) : list (gset Z) :=
  match op with
  | SNew => Ss ++ [∅]
  | SAdd id key => match bget Ss id with Some T => <[Z.to_nat id := {[key]} ∪ T]> Ss | None => Ss end
  | SHas _ _ => Ss
  end.

(** The right return values: the number of the new set, 0, or not 0 exactly for
    members; -1 for numbers that are not those of a set. *)
Definition set_answer (Ss : list (gset Z)) (op : set_op) (r : Z) : Prop :=
  match op with
  | SNew => r = Z.of_nat (length Ss)
  | SAdd id _ => r = match bget Ss id with Some _ => 0 | None => -1 end
  | SHas id key => match bget Ss id with Some T => r <> 0 <-> key ∈ T | None => r = -1 end
  end.

Fixpoint set_answers (Ss : list (gset Z)) (ops : list set_op) (rs : list Z) : Prop :=
  match ops, rs with
  | [], [] => True
  | op :: ops, r :: rs => set_answer Ss op r /\ set_answers (sets_step Ss op) ops rs
  | _, _ => False
  end.

(** The sets of the context are the sets [Ss], each of at most [k] keys. *)
Definition is_sets (ctx : bc_ctx) (Ss : list (gset Z)) (k : Z) : Prop :=
  Forall2 HashSetFacts.represents (hashsets ctx) Ss /\ Z.of_nat (length Ss) <= k /\
  Forall (fun T => Z.of_nat (size T) <= k) Ss.

Lemma is_sets_lookup ctx Ss k id : is_sets ctx Ss k ->
  match bget Ss id with
  | Some T => exists s, get_hashset ctx id = Some s /\ HashSetFacts.represents s T /\ Z.of_nat (size T) <= k /\ 0 <= id
  | None => get_hashset ctx id = None
  end.
Proof.
  intros (Hf & _ & Hk). unfold get_hashset, bget. destruct (Z.ltb_spec id 0); [done|].
  destruct (Ss !! Z.to_nat id) as [T|] eqn:E.
  - destruct (Forall2_lookup_r _ _ _ _ _ Hf E) as (s & -> & Hr). exists s. split; [done|]. split; [done|].
    split; [by eapply Forall_lookup_1 in Hk|done].
  - apply lookup_ge_None in E. apply lookup_ge_None. by rewrite (Forall2_length _ _ _ Hf).
Qed.

Lemma set_step_sim junk ctx Ss k op : is_sets ctx Ss k -> k < 2 ^ 22 ->
  exists r ctx', set_step junk ctx op = Ok (r, ctx') /\ set_answer Ss op r /\ is_sets ctx' (sets_step Ss op) (k + 1).
Proof.
  intros His Hk. pose proof His as (Hf & Hl & Hsz). pose proof (Forall2_length _ _ _ Hf) as Hlen.
  assert (is_sets ctx Ss (k + 1)) as Hnext.
  { split; [done|]. split; [lia|]. eapply Forall_impl; [exact Hsz|]. cbn. lia. }
  destruct op as [|id key|id key]; cbn [set_step set_answer sets_step];
    [|pose proof (is_sets_lookup ctx Ss k id His) as Hg; destruct (bget Ss id) as [T|]..].
  - unfold cli_bcapi_hashset_new. cbv zeta.
    replace (cli_realloc true (32 * (Z.of_nat (length (hashsets ctx)) + 1))) with true
      by (unfold cli_realloc, CLI_MAX_ALLOCATION; case_match eqn:E; [lia|done]). cbn [negb].
    destruct (HashSetFacts.set_represents_init junk 16 80 ltac:(lia)) as (s & -> & Hs).
    eexists _, _. split; [done|]. split; [lia|]. split; [cbn; by apply Forall2_app; [|constructor]|].
    rewrite length_app. cbn. split; [lia|]. apply Forall_app. split; [apply Hnext|].
    repeat constructor. rewrite size_empty. lia.
  - destruct Hg as (s & Eg & Hr & Hs & Hid). unfold cli_bcapi_hashset_add. rewrite Eg.
    destruct (HashSetFacts.represents_addkey junk s T key Hr ltac:(lia)) as (s' & -> & Hr').
    eexists _, _. split; [done|]. split; [done|]. split; [cbn; by apply Forall2_insert|].
    rewrite length_insert. split; [lia|]. apply Forall_insert; [apply Hnext|].
    pose proof (size_union_alt {[key]} T). rewrite size_singleton in *.
    pose proof (subseteq_size (T ∖ {[key]}) T ltac:(set_solver)). lia.
  - unfold cli_bcapi_hashset_add. rewrite Hg. eexists _, _. done.
  - destruct Hg as (s & Eg & Hr & _). destruct (api_contains_spec ctx id s T key Eg Hr) as (v & -> & Hv).
    eexists _, _. done.
  - unfold cli_bcapi_hashset_contains. rewrite Hg. eexists _, _. done.
Qed.

Lemma set_run_sim junk ops : forall ctx Ss k, is_sets ctx Ss k -> k + Z.of_nat (length ops) <= 2 ^ 22 ->
  exists rs ctx', set_run junk ctx ops = Ok (rs, ctx') /\ set_answers Ss ops rs /\
    exists k', is_sets ctx' (fold_left sets_step ops Ss) k'.
Proof.
  induction ops as [|op ops IH]; intros ctx Ss k His Hk; cbn [set_run fold_left].
  { exists [], ctx. split; [done|]. split; [done|]. by exists k. }
  cbn [length] in Hk. destruct (set_step_sim junk ctx Ss k op His ltac:(lia)) as (r & c1 & -> & Ha & H1).
  destruct (IH c1 _ _ H1 ltac:(lia)) as (rs & c2 & -> & Has & Hk'). exists (r :: rs), c2. done.
Qed.

(** The hash sets of a program are independent finite sets.  Any sequence of
    fewer than 2^22 calls of [hashset_new], [hashset_add] and [hashset_contains],
    with any numbers and keys, runs without undefined behaviour; each set answers
    for its own keys only, and numbers that are not those of a set get -1. *)
Theorem api_hashsets_are_sets junk ctx ops : hashsets ctx = [] -> Z.of_nat (length ops) <= 2 ^ 22 ->
  exists rs ctx', set_run junk ctx ops = Ok (rs, ctx') /\ set_answers [] ops rs /\
    Forall2 HashSetFacts.represents (hashsets ctx') (fold_left sets_step ops []).
Proof.
  intros E Hl. destruct (set_run_sim junk ops ctx [] 0) as (rs & ctx' & Er & Ha & k' & Hs & _).
  - split; [rewrite E; constructor|]. split; [cbn; lia|constructor].
  - lia.
  - exists rs, ctx'. done.
Qed.

Lemma api_hashsets_are_sets_witness :
  exists rs ctx', set_run [] (scanning [] 0) [SNew; SNew; SAdd 1 5; SHas 0 5; SHas 1 5; SHas 2 5] = Ok (rs, ctx') /\
    exists v, rs = [0; 1; 0; 0; v; -1] /\ v <> 0.
Proof.
  destruct (api_hashsets_are_sets [] (scanning [] 0) [SNew; SNew; SAdd 1 5; SHas 0 5; SHas 1 5; SHas 2 5])
    as (rs & ctx' & E & Ha & _); [reflexivity|cbn; lia|].
  exists rs, ctx'. split; [exact E|].
  destruct rs as [|r0 [|r1 [|r2 [|r3 [|r4 [|r5 [|]]]]]]]; cbn in Ha; try tauto.
  destruct Ha as (-> & -> & -> & H3 & H4 & -> & _). exists r4.
  assert (r3 = 0) as ->.
  { destruct (decide (r3 = 0)) as [?|n]; [assumption|]. apply H3 in n. exfalso. exact (not_elem_of_empty (C := gset Z) 5 n). }
  split; [reflexivity|]. apply H4. exact (elem_of_union_l (C := gset Z) 5 {[5]} ∅ (elem_of_singleton_2 5 5 eq_refl)).
Defined.

(** A set that is not the last one can still be named when it is done; looking
    into it has no result, as its arrays are NULL. *)
Lemma hashset_use_after_done v :
  (let! (_, ctx) := set_run [] (scanning [] 0) [SNew; SNew] in
   cli_bcapi_hashset_contains (snd (cli_bcapi_hashset_done ctx 0)) 0 5) <> Ok v.
Proof. vm_compute. discriminate. Qed.

(** [hashset_empty] follows a NULL pointer for a number that is not that of a set. *)
Lemma hashset_empty_unchecked : cli_bcapi_hashset_empty (scanning [] 0) 0 = Undef.
Proof. reflexivity. Qed.

(** ** The window on the file *)

(** The bytes of the buffer that are not consumed are those of the file that end at
    the file offset. *)
Definition window (m : list Z) (ctx : bc_ctx) (buf : list Z) (filled pos : Z) : Prop :=
  0 <= off ctx - (filled - pos) /\
  segment buf pos (filled - pos) = segment m (off ctx - (filled - pos)) (filled - pos).

(** C40. A program that consumes bytes of a buffer and calls [cli_bcapi_fill_buffer]
    sees the file without gaps: as long as the file has not ended and some byte was
    consumed or the buffer was not full, the call returns the number of bytes now
    in the buffer, they continue where the program stopped, and either the buffer
    is full or the end of the file was reached. *)
Theorem fill_buffer_window ctx m buf filled pos : fmap ctx = Some m -> Z.of_nat (length m) < 2 ^ 31 ->
  file_size ctx = Z.of_nat (length m) -> 0 <= off ctx < Z.of_nat (length m) ->
  let buflen := Z.of_nat (length buf) in
  0 < buflen <= CLI_MAX_ALLOCATION -> 0 <= pos <= filled -> filled <= buflen -> filled - pos < buflen ->
  window m ctx buf filled pos ->
  exists r buf' ctx', cli_bcapi_fill_buffer true ctx buf buflen filled pos = Ok (r, buf', ctx') /\
    filled - pos < r <= buflen /\ length buf' = length buf /\ window m ctx' buf' r 0 /\
    off ctx' - r = off ctx - (filled - pos) /\ (r = buflen \/ off ctx' = Z.of_nat (length m)).
Proof.
  intros Em Hm Hfs Ho buflen Hb Hp Hfl Hk [Hw0 Hw].
  destruct (fill_buffer_spec ctx m buf filled pos Em Hm Hfs Ho Hb Hp Hfl Hk) as (rest & E & Hn & Hr).
  fold buflen in E, Hn, Hr. set (kept := filled - pos) in *.
  set (n := Z.min (buflen - kept) (Z.of_nat (length m) - off ctx)) in *.
  pose proof (length_segment buf pos kept ltac:(lia) ltac:(lia) ltac:(lia)) as Hl1.
  pose proof (length_segment m (off ctx) n ltac:(lia) ltac:(lia) ltac:(lia)) as Hl2.
  eexists _, _, _. split; [exact E|]. cbn [with_off off]. split; [lia|]. split; [rewrite !length_app; lia|].
  split; [|split; [lia|]].
  - split; [cbn; lia|]. cbn [with_off off]. rewrite Z.sub_0_r.
    replace (off ctx + n - (kept + n)) with (off ctx - kept) by lia.
    rewrite (segment_app m (off ctx - kept) kept n) by lia. rewrite <- Hw.
    replace (off ctx - kept + kept) with (off ctx) by lia.
    unfold segment at 1. change (Z.to_nat 0) with O. rewrite drop_0, app_assoc.
    apply take_app_length'. rewrite length_app. lia.
  - unfold n. lia.
Qed.

Lemma fill_buffer_window_witness :
  exists buf' ctx', cli_bcapi_fill_buffer true (scanning [1; 2; 3; 4; 5; 6] 3) [1; 2; 3] 3 3 2 = Ok (3, buf', ctx') /\
    window [1; 2; 3; 4; 5; 6] ctx' buf' 3 0.
Proof.
  destruct (fill_buffer_window (scanning [1; 2; 3; 4; 5; 6] 3) [1; 2; 3; 4; 5; 6] [1; 2; 3] 3 2)
    as (r & buf' & ctx' & E & Hr & _ & Hw & _ & He); [reflexivity|cbn; lia|reflexivity|cbn; lia|..].
  - unfold CLI_MAX_ALLOCATION. cbn. lia.
  - lia.
  - cbn. lia.
  - cbn. lia.
  - split; [cbn; lia|reflexivity].
  - assert (r = 3) as -> by (vm_compute in E; injection E as <- _ _; reflexivity).
    exists buf', ctx'. split; [exact E|exact Hw].
Defined.

End BcApiProps.
