(* ===== verification/PackLibs.v ===== *)
(** * The FSG decompressor (libclamav/packlibs.c)

    [cli_unfsg] unpacks the LZ stream of an executable packer.  The stream mixes single bits, fetched eight at a time through a marker byte, with
    whole bytes.  The memory of the source and of the destination are lists; the
    pointers are indices into them, so that a pointer may start in the middle of
    an allocation ([unfsg_133] unpacks one section after the other), and pointer
    arithmetic does not wrap (64-bit addresses).  [Undef] is an access outside the
    two lists; a C function that returns -1 gives [Ok None]. *)
From stdpp Require Import base numbers list list_numbers.
From Stdlib Require Import ZArith Lia Bool.
From S2P Require Import Prelude.

Local Open Scope Z_scope.

(** The code reads bits and returns -1 at once when a read fails. *)
Notation "'let?' x ':=' m 'in' k" :=
  (match m with Ok (Some x) => k | Ok None => Ok None | Undef => Undef | NoFuel => NoFuel end)
  (at level 10, x pattern, m at level 100, k at level 200) : clam_scope.

Module PackLibs.

(** A read of a byte of the source, as an [unsigned char]. *)
Definition rdbyte (src : list Z) (i : Z) : res (option Z) :=
  match bget src i with Some b => Ok (Some (uint 8 b)) | None => Undef end.

(** [CLI_ISCONTAINED] of others.h, on addresses and sizes. *)
Definition CLI_ISCONTAINED (bb bb_size sb sb_size : Z) : bool :=
  (0 <? bb_size) && (0 <? sb_size) && (sb_size <=? bb_size) && (bb <=? sb)
  && (sb + sb_size <=? bb + bb_size) && (bb <? sb + sb_size) && (sb <? bb + bb_size).

(** The bit reader: the next position and the marker byte [mydl].  The result is
    the bit, the new position and the new marker. *)
Definition doubledl (src : list Z) (scur mydl buffer buffersize : Z) : res (option (Z * (Z * Z))) :=
  let olddl := mydl in
  let mydl := uint 8 (mydl * 2) in
  if Z.land olddl 0x7f =? 0 then
    if (scur <? buffer) || (buffer + buffersize - 1 <=? scur) then Ok None
    else
      let? olddl := rdbyte src scur in
      let mydl := uint 8 (olddl * 2 + 1) in
      Ok (Some (Z.land (Z.shiftr olddl 7) 1, (scur + 1, mydl)))
  else Ok (Some (Z.land (Z.shiftr olddl 7) 1, (scur, mydl))).

(** The variables of the unpacking loop. *)
Record fsg := Fsg {
  csrc : Z;
  mydl : Z;
  cdst : Z;
  mem : list Z;      (** the memory [dest] points into *)
  oldback : Z;
  lostbit : Z;
}.

(** What one round of the loop decodes: a [continue], the end of the stream, or
    the copy of [backsize] bytes from [backbytes] bytes back. *)
Inductive action :=
  | Continue (s : fsg)
  | Break (s : fsg)
  | Copy (s : fsg) (backbytes backsize : Z).

Section Loop.
Context (src : list Z) (source ssize dest dsize : Z).

Definition bit (b : Z * Z) : res (option (Z * (Z * Z))) :=
  doubledl src b.1 b.2 source (uint 32 ssize).

(** [while (backbytes < 0x100)]: bits are shifted in until the ninth is reached. *)
Fixpoint near_loop (fuel : nat) (backbytes : Z) (b : Z * Z) : res (option (Z * (Z * Z))) :=
  match fuel with
  | O => NoFuel
  | S fuel =>
      if backbytes <? 0x100 then
        let? (oob, b) := bit b in
        near_loop fuel (uint 32 (backbytes * 2 + oob)) b
      else Ok (Some (backbytes, b))
  end.

(** [do { bit; backsize = backsize*2+bit; bit } while (oob)], used three times. *)
Fixpoint size_loop (fuel : nat) (backsize : Z) (b : Z * Z) : res (option (Z * (Z * Z))) :=
  match fuel with
  | O => NoFuel
  | S fuel =>
      let? (oob, b) := bit b in
      let backsize := uint 32 (backsize * 2 + oob) in
      let? (oob, b) := bit b in
      if oob =? 0 then Ok (Some (backsize, b)) else size_loop fuel backsize b
  end.

(** The byte read that follows [csrc >= source+ssize]. *)
Definition next_byte (b : Z * Z) : res (option (Z * (Z * Z))) :=
  if source + ssize <=? b.1 then Ok None
  else let? c := rdbyte src b.1 in Ok (Some (c, (b.1 + 1, b.2))).

(** [*cdst++ = c]. *)
Definition put (s : fsg) (b : Z * Z) (c lost : Z) : res (option fsg) :=
  match bset (mem s) (cdst s) c with
  | Some m => Ok (Some (Fsg b.1 b.2 (cdst s + 1) m (oldback s) lost))
  | None => Undef
  end.

(** The branch 16a: a byte from at most 15 back, a zero, or a short match. *)
Definition branch_near (fuel : nat) (s : fsg) (b : Z * Z) : res (option action) :=
  let? (oob, b) := bit b in
  if negb (oob =? 0) then
    let? (backbytes, b) := near_loop fuel 0x10 b in
    let backbytes := Z.land backbytes 0xff in
    if backbytes =? 0 then
      if dest + dsize <=? cdst s then Ok None
      else let? s := put s b 0 1 in Ok (Some (Continue s))
    else Ok (Some (Copy (Fsg b.1 b.2 (cdst s) (mem s) (oldback s) 1) backbytes 1))
  else
    let? (c, b) := next_byte b in
    let backsize := Z.land c 1 in
    let backbytes := Z.shiftr (Z.land c 0xff) 1 in
    if backbytes =? 0 then Ok (Some (Break (Fsg b.1 b.2 (cdst s) (mem s) (oldback s) (lostbit s))))
    else Ok (Some (Copy (Fsg b.1 b.2 (cdst s) (mem s) backbytes 0) backbytes (backsize + 2))).

(** The lengthening of a far match by its distance. *)
Definition far_size (backbytes backsize : Z) : Z :=
  let backsize := if 0x7d00 <=? backbytes then uint 32 (backsize + 1) else backsize in
  let backsize := if 0x500 <=? backbytes then uint 32 (backsize + 1) else backsize in
  if backbytes <=? 0x7f then uint 32 (backsize + 2) else backsize.

(** The branch 180: a match with a coded length, at the last distance or at one
    that follows. *)
Definition branch_far (fuel : nat) (s : fsg) (b : Z * Z) : res (option action) :=
  let? (backsize, b) := size_loop fuel 1 b in
  let backsize := uint 32 (backsize - 1 - lostbit s) in
  if backsize =? 0 then
    let? (backsize, b) := size_loop fuel 1 b in
    Ok (Some (Copy (Fsg b.1 b.2 (cdst s) (mem s) (oldback s) 0) (oldback s) backsize))
  else
    let? (c, b) := next_byte b in
    let backbytes := uint 32 (c + uint 32 (Z.shiftl (backsize - 1) 8)) in
    let? (backsize, b) := size_loop fuel 1 b in
    let backsize := far_size backbytes backsize in
    Ok (Some (Copy (Fsg b.1 b.2 (cdst s) (mem s) backbytes 0) backbytes backsize)).

(** [while (backsize--) { *cdst = *(cdst-backbytes); cdst++; }]: a byte at a time,
    so that a match may overlap what it produces. *)
Fixpoint copy_back (n : nat) (m : list Z) (cdst backbytes : Z) : option (list Z) :=
  match n with
  | O => Some m
  | S n =>
      let* c := bget m (cdst - backbytes) in
      let* m := bset m cdst c in
      copy_back n m (cdst + 1) backbytes
  end.

Definition do_copy (s : fsg) (backbytes backsize : Z) : res (option fsg) :=
  if negb (CLI_ISCONTAINED dest dsize (cdst s) backsize)
     || negb (CLI_ISCONTAINED dest dsize (cdst s - backbytes) backsize) then Ok None
  else
    match copy_back (Z.to_nat backsize) (mem s) (cdst s) backbytes with
    | Some m => Ok (Some (Fsg (csrc s) (mydl s) (cdst s + backsize) m (oldback s) (lostbit s)))
    | None => Undef
    end.

(** One round of [while (1)]: the state after it, and whether it was left. *)
Definition round (fuel : nat) (s : fsg) : res (option (bool * fsg)) :=
  let? (oob, b) := bit (csrc s, mydl s) in
  if negb (oob =? 0) then
    let? (oob, b) := bit b in
    let? a := (if negb (oob =? 0) then branch_near fuel s b else branch_far fuel s b) in
    match a with
    | Continue s => Ok (Some (false, s))
    | Break s => Ok (Some (true, s))
    | Copy s backbytes backsize =>
        let? s := do_copy s backbytes backsize in Ok (Some (false, s))
    end
  else if (cdst s <? dest) || (dest + dsize <=? cdst s) || (b.1 <? source) || (source + ssize <=? b.1) then Ok None
  else
    let? c := rdbyte src b.1 in
    let? s := put s (b.1 + 1, b.2) c 1 in Ok (Some (false, s)).

Fixpoint loop (fuel : nat) (n : nat) (s : fsg) : res (option fsg) :=
  match n with
  | O => NoFuel
  | S n =>
      let? (stop, s) := round fuel s in
      if (stop : bool) then Ok (Some s) else loop fuel n s
  end.

(** One bit or one byte is consumed by every round, so that eight rounds for each
    byte of the source are enough. *)
Definition fuel_for : nat := Z.to_nat (8 * ssize + 9).

(** The first byte is copied, then the loop runs.  The result is the memory of
    the destination with [*endsrc] and [*enddst]. *)
Definition unpack (m : list Z) : res (option (list Z * Z * Z)) :=
  let? c := rdbyte src source in
  let? s := put (Fsg source 0x80 dest m 0 1) (source + 1, 0x80) c 1 in
  let? s := loop fuel_for fuel_for s in
  Ok (Some (mem s, csrc s, cdst s)).

Definition cli_unfsg (m : list Z) : res (option (list Z * Z * Z)) :=
  if (ssize <=? 0) || (dsize <=? 0) then Ok None else unpack m.

End Loop.

End PackLibs.
