(* ===== verification/PackFacts.v ===== *)
(** * The decompressor is safe and terminates

    A specification of results that may be -1, the measure that every read
    decreases, and the safety of [cli_unfsg] for all inputs. *)
From stdpp Require Import base numbers list list_numbers.
From Stdlib Require Import ZArith Lia Bool.
From S2P Require Import Prelude PackLibs.

Local Open Scope Z_scope.

Module PackFacts.
Import PackLibs.

(** [rok P m]: the computation [m] is defined and ends, and its result, if it is
    not -1, satisfies [P]. *)
Definition rok {A} (P : A -> Prop) (m : res (option A)) : Prop :=
  match m with Ok (Some a) => P a | Ok None => True | _ => False end.

Lemma rok_bind {A B} (Q : A -> Prop) (P : B -> Prop) (m : res (option A)) (k : A -> res (option B)) :
  rok Q m -> (forall a, Q a -> rok P (k a)) -> rok P (let? x := m in k x).
Proof. destruct m as [[a|]| |]; cbn; auto. Qed.

Lemma rok_mono {A} (Q P : A -> Prop) m : rok Q m -> (forall a, Q a -> P a) -> rok P m.
Proof. destruct m as [[a|]| |]; cbn; auto. Qed.

(** The bits left in the marker byte: those above its lowest bit set. *)
Definition pend (v : Z) : Z :=
  if Z.testbit v 0 then 7 else if Z.testbit v 1 then 6 else if Z.testbit v 2 then 5
  else if Z.testbit v 3 then 4 else if Z.testbit v 4 then 3 else if Z.testbit v 5 then 2
  else if Z.testbit v 6 then 1 else 0.

Lemma byte_forall (P : Z -> bool) : forallb P (seqZ 0 256) = true -> forall v, 0 <= v < 256 -> P v = true.
Proof.
  intros H v Hv. rewrite forallb_forall in H. apply H, list_elem_of_In, elem_of_seqZ. lia.
Qed.

Lemma pend_range v : 0 <= pend v <= 7.
Proof. unfold pend. repeat case_match; lia. Qed.

(** While bits are left, a shift of the marker byte uses up one of them. *)
Lemma pend_shift v : 0 <= v < 256 -> Z.land v 0x7f <> 0 -> pend (uint 8 (v * 2)) = pend v - 1 /\ 0 < pend v.
Proof.
  intros Hv Hl.
  pose proof (byte_forall (fun v => (Z.land v 0x7f =? 0)
     || ((pend (uint 8 (v * 2)) =? pend v - 1) && (0 <? pend v))) ltac:(vm_compute; reflexivity) v Hv).
  cbn beta in H. lia.
Qed.

Lemma pend_fresh v : pend (uint 8 (v * 2 + 1)) = 7.
Proof.
  unfold pend, uint. replace (Z.testbit _ 0) with true; [done|].
  change (2 ^ 8) with 256. symmetry. rewrite Z.bit0_odd, <- Z.negb_even, Zeven_mod.
  pose proof (Z.div_mod (v * 2 + 1) 256 ltac:(lia)).
  set (x := (v * 2 + 1) `mod` 256) in *.
  pose proof (Z.div_mod x 2 ltac:(lia)). pose proof (Z.mod_pos_bound x 2 ltac:(lia)).
  destruct (_ =? 0) eqn:E; [lia|done].
Qed.

Lemma bit_of_byte v : 0 <= v < 256 -> Z.land (Z.shiftr v 7) 1 = 0 \/ Z.land (Z.shiftr v 7) 1 = 1.
Proof.
  intros _. rewrite (land_mask 1) by lia. pose proof (Z.mod_pos_bound (Z.shiftr v 7) (2 ^ 1) ltac:(lia)). lia.
Qed.

Lemma copy_back_ok n m d bb : 0 <= d -> d + Z.of_nat n <= Z.of_nat (length m) -> 0 <= d - bb ->
  d - bb + Z.of_nat n <= Z.of_nat (length m) ->
  exists m', copy_back n m d bb = Some m' /\ length m' = length m /\
    forall i, 0 <= i < d \/ d + Z.of_nat n <= i -> bget m' i = bget m i.
Proof.
  revert m d. induction n as [|n IH]; intros m d H1 H2 H3 H4; [by exists m|].
  cbn [copy_back]. destruct (bget_is_Some m (d - bb)) as [c ->]; [lia|].
  rewrite bset_is_Some by lia.
  destruct (IH (<[Z.to_nat d:=c]> m) (d + 1)) as (m' & E & Hl & Hf); rewrite ?length_insert in *; try lia.
  exists m'. split; [done|]. split; [done|]. intros i Hi. rewrite Hf by lia. apply bget_insert_ne; lia.
Qed.

Section Safe.
Context (src : list Z) (source ssize dest dsize : Z).
Hypothesis Hsource : 0 <= source.
Hypothesis Hssize : 0 < ssize < 2 ^ 31.
Hypothesis Hsrc : source + ssize <= Z.of_nat (length src).
Hypothesis Hdest : 0 <= dest.
Hypothesis Hdsize : 0 < dsize.

(** The position of the bit reader is inside the source; its measure counts the
    bits that it can still give. *)
Definition meas (b : Z * Z) : Z := 8 * (source + ssize - b.1) + pend b.2.
Definition bok (b : Z * Z) : Prop := source <= b.1 <= source + ssize /\ 0 <= b.2 < 256.
#[local] Arguments meas : simpl never.

Lemma meas_nonneg b : bok b -> 0 <= meas b.
Proof. intros [H _]. unfold meas. pose proof (pend_range b.2) as Hp. clear -H Hp. lia. Qed.

Lemma rdbyte_ok i : source <= i < source + ssize -> rok (fun c => 0 <= c < 256) (rdbyte src i).
Proof.
  intros Hi. unfold rdbyte. destruct (bget_is_Some src i) as [c ->]; [lia|]. cbn. apply (uint_range 8). lia.
Qed.

Lemma bit_ok b : bok b ->
  rok (fun r => (r.1 = 0 \/ r.1 = 1) /\ bok r.2 /\ meas r.2 < meas b) (bit src source ssize b).
Proof.
  intros [Hb Hm]. destruct b as [c v]. unfold bit, doubledl. cbn [fst snd] in *.
  rewrite (uint_small 32) by lia.
  destruct (Z.land v 0x7f =? 0) eqn:E.
  - destruct ((c <? source) || (source + ssize - 1 <=? c)) eqn:E2; [done|].
    eapply rok_bind; [apply rdbyte_ok; lia|]. intros o Ho. cbn.
    split; [by apply bit_of_byte|]. pose proof (uint_range 8 (o * 2 + 1) ltac:(lia)).
    unfold bok, meas. cbn [fst snd]. rewrite pend_fresh. pose proof (pend_range v). lia.
  - cbn. split; [by apply bit_of_byte|]. pose proof (uint_range 8 (v * 2) ltac:(lia)).
    destruct (pend_shift v) as [H1 H2]; [lia|lia|]. unfold bok, meas. cbn [fst snd]. lia.
Qed.

(** A decoded number with the reader after it. *)
Definition numok (b : Z * Z) (r : Z * (Z * Z)) : Prop :=
  0 <= r.1 < 2 ^ 32 /\ bok r.2 /\ meas r.2 < meas b.

Lemma size_loop_ok fuel bs b : bok b -> meas b < Z.of_nat fuel ->
  rok (numok b) (size_loop src source ssize fuel bs b).
Proof.
  revert bs b. induction fuel as [|fuel IH]; intros bs b Hb Hf.
  { pose proof (meas_nonneg b Hb). lia. }
  cbn [size_loop]. eapply rok_bind; [by apply bit_ok|]. intros [o b1] [_ [Hb1 Hm1]]. cbn in Hb1, Hm1 |- *.
  eapply rok_bind; [by apply bit_ok|]. intros [o2 b2] [_ [Hb2 Hm2]]. cbn in Hb2, Hm2 |- *.
  pose proof (uint_range 32 (bs * 2 + o) ltac:(lia)).
  destruct (o2 =? 0); [cbn; unfold numok; cbn; repeat split; try lia; apply Hb2|].
  eapply rok_mono; [apply IH; [done|lia]|]. intros [n b3] [H1 [H2 H3]]. unfold numok. cbn in *. repeat split; try lia; apply H2.
Qed.

Lemma near_loop_ok k bb b fuel : bok b -> (k < fuel)%nat -> 0 <= bb < 2 ^ 32 ->
  2 ^ (8 - Z.of_nat k) <= bb -> (k <= 8)%nat ->
  rok (fun r => 0 <= r.1 < 2 ^ 32 /\ bok r.2 /\ meas r.2 <= meas b) (near_loop src source ssize fuel bb b).
Proof.
  revert bb b fuel. induction k as [|k IH]; intros bb b fuel Hb Hk Hbb Hp H8; destruct fuel as [|fuel]; try lia.
  - cbn [near_loop]. change (2 ^ (8 - Z.of_nat 0)) with 256 in Hp.
    destruct (bb <? 0x100) eqn:E; [lia|]. cbn. split; [lia|]. split; [done|lia].
  - cbn [near_loop]. destruct (bb <? 0x100) eqn:E; [|cbn; split; [lia|]; split; [done|lia]].
    eapply rok_bind; [by apply bit_ok|]. intros [o b1] [Ho [Hb1 Hm1]]. cbn in Ho, Hb1, Hm1 |- *.
    rewrite (uint_small 32) by (destruct Ho; lia).
    eapply rok_mono; [apply (IH (bb * 2 + o)); try done; try lia|].
    + replace (8 - Z.of_nat k) with (8 - Z.of_nat (S k) + 1) by lia. rewrite Z.pow_add_r by lia. change (2 ^ 1) with 2. lia.
    + intros [n b3] [H1 [H2 H3]]. cbn in *. split; [done|]. split; [done|lia].
Qed.

Lemma next_byte_ok b : bok b ->
  rok (fun r => 0 <= r.1 < 256 /\ bok r.2 /\ meas r.2 < meas b) (next_byte src source ssize b).
Proof.
  intros [Hb Hm]. unfold next_byte. destruct (source + ssize <=? b.1) eqn:E; [done|].
  eapply rok_bind; [apply rdbyte_ok; lia|]. cbn beta. intros c Hc. cbn [rok].
  unfold bok, meas. cbn [fst snd] in *. lia.
Qed.

(** The state of the unpacking loop: the reader, the position to write and the
    memory, of which only the bytes from [dest] to [cdst] have changed. *)
Context (m0 : list Z).
Hypothesis Hm0 : dest + dsize <= Z.of_nat (length m0).

Record sok (s : fsg) : Prop := {
  sok_bits : bok (csrc s, mydl s);
  sok_dst : dest <= cdst s <= dest + dsize;
  sok_old : 0 <= oldback s < 2 ^ 32;
  sok_len : length (mem s) = length m0;
  sok_frame : forall i, 0 <= i < dest \/ cdst s <= i -> bget (mem s) i = bget m0 i;
}.

Definition reader (s : fsg) : Z * Z := (csrc s, mydl s).

Lemma put_ok s b c l : sok s -> bok b -> cdst s < dest + dsize ->
  rok (fun s' => sok s' /\ reader s' = b /\ cdst s' = cdst s + 1) (put s b c l).
Proof.
  intros [H1 H2 H3 H4 H5] Hb Hd. unfold put.
  rewrite bset_is_Some by lia. cbn. split; [|by destruct b].
  constructor; cbn; try done; try lia.
  - by rewrite length_insert.
  - intros i Hi. rewrite bget_insert_ne by lia. apply H5. lia.
Qed.

Definition set_reader (s : fsg) (b : Z * Z) (ob l : Z) : fsg := Fsg b.1 b.2 (cdst s) (mem s) ob l.

Lemma sok_set s b ob l : sok s -> bok b -> 0 <= ob < 2 ^ 32 -> sok (set_reader s b ob l).
Proof. intros [H1 H2 H3 H4 H5] Hb Ho. destruct b. constructor; cbn; auto. Qed.

Definition aok (b : Z * Z) (a : action) : Prop :=
  match a with
  | Continue s | Break s => sok s /\ meas (reader s) < meas b
  | Copy s bb bs => sok s /\ meas (reader s) < meas b /\ 0 <= bs
  end.

Lemma far_size_nonneg bb bs : 0 <= bs -> 0 <= far_size bb bs.
Proof.
  intros H. unfold far_size. pose proof (fun v => uint_range 32 v ltac:(lia)).
  repeat case_match; first [apply H0|done].
Qed.

Lemma branch_far_ok fuel s b : sok s -> bok b -> meas b < Z.of_nat fuel ->
  rok (aok b) (branch_far src source ssize fuel s b).
Proof.
  intros Hs Hb Hf. unfold branch_far.
  eapply rok_bind; [by apply size_loop_ok|]. intros [n b1] [Hn [Hb1 Hm1]]. cbn in Hn, Hb1, Hm1 |- *.
  case_match.
  - eapply rok_bind; [apply size_loop_ok; [done|lia]|]. intros [n2 b2] [Hn2 [Hb2 Hm2]]. cbn in Hn2, Hb2, Hm2 |- *.
    pose proof (sok_set s b2 (oldback s) 0 Hs Hb2 (sok_old s Hs)). destruct b2. split; [done|]. unfold reader. cbn. lia.
  - eapply rok_bind; [by apply next_byte_ok|]. intros [c b2] [Hc [Hb2 Hm2]]. cbn in Hc, Hb2, Hm2 |- *.
    eapply rok_bind; [apply size_loop_ok; [done|lia]|]. intros [n3 b3] [Hn3 [Hb3 Hm3]]. cbn in Hn3, Hb3, Hm3 |- *.
    pose proof (sok_set s b3 _ 0 Hs Hb3 (uint_range 32 (c + uint 32 (Z.shiftl (uint 32 (n - 1 - lostbit s) - 1) 8)) ltac:(lia))).
    destruct b3. split; [done|]. split; [unfold reader; cbn; lia|]. apply far_size_nonneg. lia.
Qed.

Lemma branch_near_ok fuel s b : sok s -> bok b -> meas b < Z.of_nat fuel -> (4 < fuel)%nat ->
  rok (aok b) (branch_near src source ssize dest dsize fuel s b).
Proof.
  intros Hs Hb Hf H4. unfold branch_near.
  eapply rok_bind; [by apply bit_ok|]. intros [o b1] [_ [Hb1 Hm1]]. cbn in Hb1, Hm1 |- *.
  case_match.
  - eapply rok_bind; [apply (near_loop_ok 4); [done|lia|lia|cbn; lia|lia]|].
    intros [bb b2] [Hbb [Hb2 Hm2]]. cbn in Hbb, Hb2, Hm2 |- *. case_match.
    + case_match; [done|]. eapply rok_bind; [apply put_ok; [done|done|lia]|].
      intros s' [Hs' [Hr Hc]]. cbn. split; [done|]. rewrite Hr. lia.
    + pose proof (sok_set s b2 (oldback s) 1 Hs Hb2 (sok_old s Hs)). destruct b2. cbn. split; [done|]. unfold reader. cbn. lia.
  - eapply rok_bind; [by apply next_byte_ok|]. intros [c b2] [Hc [Hb2 Hm2]]. cbn in Hc, Hb2, Hm2 |- *.
    assert (0 <= Z.shiftr (Z.land c 255) 1 < 2 ^ 32) as Hbb.
    { rewrite (land_mask 8), Z.mod_small by lia. rewrite Z.shiftr_div_pow2 by lia. change (2 ^ 1) with 2.
      pose proof (Z.div_le_upper_bound c 2 256 ltac:(lia) ltac:(lia)). pose proof (Z.div_pos c 2 ltac:(lia) ltac:(lia)). lia. }
    case_match.
    + pose proof (sok_set s b2 (oldback s) (lostbit s) Hs Hb2 (sok_old s Hs)). destruct b2. cbn. split; [done|]. unfold reader. cbn. lia.
    + pose proof (sok_set s b2 _ 0 Hs Hb2 Hbb). destruct b2. cbn. split; [done|]. split; [unfold reader; cbn; lia|].
      rewrite (land_mask 1) by lia. pose proof (Z.mod_pos_bound c (2 ^ 1) ltac:(lia)). lia.
Qed.

Lemma do_copy_ok s bb bs : sok s -> 0 <= bs ->
  rok (fun s' => sok s' /\ reader s' = reader s) (do_copy dest dsize s bb bs).
Proof.
  intros Hs Hb. unfold do_copy, CLI_ISCONTAINED. case_match eqn:E; [done|].
  destruct Hs as [H1 H2 H3 H4 H5].
  destruct (copy_back_ok (Z.to_nat bs) (mem s) (cdst s) bb) as (m' & -> & Hl & Hf); [lia..|].
  cbn. split; [|done]. constructor; cbn; try done; try lia.
  intros i Hi. rewrite Hf by lia. apply H5. lia.
Qed.

Lemma round_ok fuel s : sok s -> meas (reader s) < Z.of_nat fuel -> (4 < fuel)%nat ->
  rok (fun r => sok r.2 /\ meas (reader r.2) < meas (reader s)) (round src source ssize dest dsize fuel s).
Proof.
  intros Hs Hf H4. unfold round. pose proof (sok_bits s Hs) as Hb.
  eapply rok_bind; [by apply bit_ok|]. intros [o b1] [_ [Hb1 Hm1]]. cbn in Hb1, Hm1 |- *.
  fold (reader s) in Hm1. case_match.
  - eapply rok_bind; [by apply bit_ok|]. intros [o2 b2] [_ [Hb2 Hm2]]. cbn in Hb2, Hm2 |- *.
    eapply (rok_bind (aok b2)); [case_match; [apply branch_near_ok|apply branch_far_ok]; auto; lia|].
    intros [s1|s1|s1 bb bs]; cbn.
    1,2: intros [? ?]; split; [done|lia].
    intros (Hs1 & Hm & Hbs). eapply rok_bind; [by apply do_copy_ok|].
    intros s2 [Hs2 Hr]. cbn. split; [done|]. rewrite Hr. lia.
  - case_match eqn:E; [done|]. eapply rok_bind; [apply rdbyte_ok; lia|]. cbn beta. intros c Hc.
    eapply rok_bind; [apply put_ok|]; [done|unfold bok in *; cbn; lia|lia|].
    intros s' [Hs' [Hr _]]. cbn. split; [done|]. rewrite Hr. unfold meas in *. cbn [fst snd] in *. lia.
Qed.

Lemma unfsg_loop_ok fuel n s : sok s -> meas (reader s) < Z.of_nat fuel -> (4 < fuel)%nat -> meas (reader s) < Z.of_nat n ->
  rok sok (loop src source ssize dest dsize fuel n s).
Proof.
  revert s. induction n as [|n IH]; intros s Hs Hf H4 Hn.
  { pose proof (meas_nonneg _ (sok_bits s Hs)). unfold reader in Hn. lia. }
  cbn [loop]. eapply rok_bind; [by apply round_ok|]. intros [stop s1] [Hs1 Hm]. cbn in Hs1, Hm |- *.
  case_match; [done|]. apply IH; auto; lia.
Qed.

Lemma unpack_ok :
  rok (fun '(m, es, ed) => source <= es <= source + ssize /\ dest <= ed <= dest + dsize /\
         length m = length m0 /\ forall i, 0 <= i < dest \/ ed <= i -> bget m i = bget m0 i)
      (unpack src source ssize dest dsize m0).
Proof.
  unfold unpack. eapply rok_bind; [apply rdbyte_ok; lia|]. cbn beta. intros c Hc.
  eapply rok_bind; [apply put_ok|].
  - constructor; cbn; try done; try lia. split; cbn; lia.
  - split; cbn; lia.
  - cbn. lia.
  - intros s [Hs [Hr _]]. cbn [fst snd] in Hr.
    assert (meas (reader s) < 8 * ssize) as Hm.
    { rewrite Hr. unfold meas. cbn [fst snd]. change (pend 128) with 0. lia. }
    eapply rok_bind; [apply unfsg_loop_ok; unfold fuel_for; [done|lia..]|].
    intros s' [H1 H2 H3 H4 H5]. cbn. unfold bok in H1. cbn in H1. repeat split; try lia. exact H5.
Qed.
End Safe.

(** What the caller may rely on after unpacking [ssize] bytes at [source] into
    [dsize] bytes at [dest] of the memory [m0]. *)
Definition unpacked (m0 : list Z) (source ssize dest dsize : Z) (r : list Z * Z * Z) : Prop :=
  let '(m, endsrc, enddst) := r in
  0 < ssize /\ 0 < dsize /\ source <= endsrc <= source + ssize /\ dest <= enddst <= dest + dsize /\
  length m = length m0 /\ forall i, 0 <= i < dest \/ enddst <= i -> bget m i = bget m0 i.

(** C16. The decompressor is safe on every input: whatever bytes the source holds,
    [cli_unfsg] ends within the rounds its source allows and reads and writes
    inside the two buffers only.  When it does not return -1, its end pointers
    lie inside the buffers and no byte of the destination's memory before [dest]
    or after the unpacked text has changed. *)
Theorem cli_unfsg_safe (src m0 : list Z) (source ssize dest dsize : Z) :
  0 <= source -> ssize < 2 ^ 31 -> source + ssize <= Z.of_nat (length src) ->
  0 <= dest -> dest + dsize <= Z.of_nat (length m0) ->
  exists r, cli_unfsg src source ssize dest dsize m0 = Ok r /\
    match r with
    | None => True
    | Some r => unpacked m0 source ssize dest dsize r
    end.
Proof.
  intros H1 H2 H3 H4 H5. unfold cli_unfsg. destruct ((ssize <=? 0) || (dsize <=? 0)) eqn:E; [by exists None|].
  pose proof (unpack_ok src source ssize dest dsize ltac:(lia) ltac:(lia) ltac:(lia) ltac:(lia) ltac:(lia) m0 ltac:(lia)) as H.
  destruct (unpack src source ssize dest dsize m0) as [[[[m es] ed]|]| |]; cbn in H; try done; [|by exists None].
  exists (Some (m, es, ed)). split; [done|]. split; [lia|]. split; [lia|]. done.
Qed.

Lemma cli_unfsg_safe_witness :
  exists r, cli_unfsg [65; 28; 66; 67; 0; 0; 0] 1 5 2 3 [1; 2; 3; 4; 5; 6] = Ok r.
Proof.
  destruct (cli_unfsg_safe [65; 28; 66; 67; 0; 0; 0] [1; 2; 3; 4; 5; 6] 1 5 2 3) as (r & H & _);
    [lia|lia|cbn; lia|lia|cbn; lia|]. by exists r.
Defined.
End PackFacts.
