(* ===== verification/PackRound.v ===== *)
(** * What the decompressor computes

    The stream format of [cli_unfsg] as a reference encoder: a list of tokens
    (literals, short and long matches) is laid out as bits and bytes, and the
    bits are collected in tag bytes the way the bit reader fetches them.
    [expand] is the text that the tokens stand for.  Unpacking the encoding of a
    list of tokens gives that text. *)
From stdpp Require Import base numbers list list_numbers.
From Stdlib Require Import ZArith Lia Bool.
From S2P Require Import Prelude PackLibs PackFacts.

Local Open Scope Z_scope.

Module PackRound.
Import PackLibs PackFacts.

(** ** Bits and bytes *)

Inductive item := Bit (b : bool) | Byte (c : Z).

Definition bits_of (its : list item) : list bool :=
  omap (fun i => match i with Bit b => Some b | Byte _ => None end) its.

(** The first [n] bits of a list, the most significant first. *)
Fixpoint bval (n : nat) (bs : list bool) : Z :=
  match n with
  | O => 0
  | S n => match bs with [] => 0 | b :: bs => Z.b2z b * 2 ^ Z.of_nat n + bval n bs end
  end.

(** A tag byte is written where the first of its eight bits is read; [k] bits of
    the last tag byte are still unread. *)
Fixpoint pack (k : nat) (its : list item) : list Z :=
  match its with
  | [] => []
  | Byte c :: its => c :: pack k its
  | Bit b :: its' => match k with O => bval 8 (bits_of its) :: pack 7 its' | S k => pack k its' end
  end.

(** The marker byte of the reader: the unread bits, a one and zeros. *)
Definition marker (k : nat) (bs : list bool) : Z :=
  bval k bs * 2 ^ (8 - Z.of_nat k) + 2 ^ (7 - Z.of_nat k).

(** ** Tokens *)

Inductive token :=
  | Lit (c : Z)                 (** one byte *)
  | Near (d : Z)                (** one byte from at most 15 back, or a zero *)
  | Short (d : Z) (long : bool) (** two or three bytes from at most 127 back *)
  | Again (len : Z)             (** a match at the last distance *)
  | Far (d len : Z).            (** a match at any distance *)

(** A number of at least 2: the bits below the highest, each followed by a bit
    that says whether another comes. *)
Fixpoint gamma_bits (p : positive) (more : bool) (acc : list item) : list item :=
  match p with
  | xH => acc
  | xO p => gamma_bits p true (Bit false :: Bit more :: acc)
  | xI p => gamma_bits p true (Bit true :: Bit more :: acc)
  end.
Definition gamma (n : Z) : list item := gamma_bits (Z.to_pos n) false [].

Definition nibble (d : Z) : list item := (fun i => Bit (Z.testbit d i)) <$> [3; 2; 1; 0].

Definition far_extra (d : Z) : Z :=
  (if 0x7d00 <=? d then 1 else 0) + (if 0x500 <=? d then 1 else 0) + (if d <=? 0x7f then 2 else 0).

Definition items (lost : Z) (t : token) : list item :=
  match t with
  | Lit c => [Bit false; Byte c]
  | Near d => [Bit true; Bit true; Bit true] ++ nibble d
  | Short d long => [Bit true; Bit true; Bit false; Byte (2 * d + Z.b2z long)]
  | Again len => [Bit true; Bit false] ++ gamma 2 ++ gamma len
  | Far d len => [Bit true; Bit false] ++ gamma (d / 256 + 2 + lost) ++ [Byte (d `mod` 256)] ++ gamma (len - far_extra d)
  end.

(** The state of the loop that a token sets. *)
Definition lost_after (t : token) : Z := match t with Lit _ | Near _ => 1 | _ => 0 end.
Definition old_after (old : Z) (t : token) : Z :=
  match t with Short d _ | Far d _ => d | _ => old end.

Fixpoint stream (lost : Z) (ts : list token) : list item :=
  match ts with
  | [] => [Bit true; Bit true; Bit false; Byte 0]
  | t :: ts => items lost t ++ stream (lost_after t) ts
  end.

(** The first byte of the text precedes the stream. *)
Definition encode (c : Z) (ts : list token) : list Z := c :: pack 0 (stream 1 ts).

(** [n] bytes from [d] back, one at a time. *)
Fixpoint repeat_back (n : nat) (d : Z) (out : list Z) : list Z :=
  match n with
  | O => out
  | S n => repeat_back n d (out ++ [default 0 (bget out (Z.of_nat (length out) - d))])
  end.

Definition emit (old : Z) (t : token) (out : list Z) : list Z :=
  match t with
  | Lit c => out ++ [c]
  | Near d => if d =? 0 then out ++ [0] else repeat_back 1 d out
  | Short d long => repeat_back (Z.to_nat (2 + Z.b2z long)) d out
  | Again len => repeat_back (Z.to_nat len) old out
  | Far d len => repeat_back (Z.to_nat len) d out
  end.

Fixpoint expand (old : Z) (ts : list token) (out : list Z) : list Z :=
  match ts with [] => out | t :: ts => expand (old_after old t) ts (emit old t out) end.

(** The tokens the format can express, at their place: distances reach back into
    the text only, [Again] follows a literal, and lengths have their minimum. *)
Definition token_okb (lost old : Z) (t : token) (out : list Z) : bool :=
  let n := Z.of_nat (length out) in
  match t with
  | Lit c => (0 <=? c) && (c <? 256)
  | Near d => (0 <=? d) && (d <? 16) && (d <=? n)
  | Short d _ => (1 <=? d) && (d <? 128) && (d <=? n)
  | Again len => (lost =? 1) && (1 <=? old) && (old <=? n) && (2 <=? len) && (len <? 2 ^ 31)
  | Far d len => (1 <=? d) && (d <=? n) && (d <? 2 ^ 31) && (2 + far_extra d <=? len) && (len <? 2 ^ 31)
  end.

Fixpoint tokens_okb (lost old : Z) (ts : list token) (out : list Z) : bool :=
  match ts with
  | [] => true
  | t :: ts => token_okb lost old t out && tokens_okb (lost_after t) (old_after old t) ts (emit old t out)
  end.

Definition sample : list token :=
  [Lit 98; Lit 99; Near 3; Near 0; Short 5 true; Lit 7; Again 4; Far 9 300; Lit 1; Near 15; Far 200 40; Far 150 5].
Example sample_ok : tokens_okb 1 0 sample [97] = true.
Proof. vm_compute. reflexivity. Qed.
Example sample_runs :
  let src := encode 97 sample in let out := expand 0 sample [97] in
  cli_unfsg src 0 (Z.of_nat (length src)) 0 (Z.of_nat (length out)) (repeat 0 (length out))
  = Ok (Some (out, Z.of_nat (length src), Z.of_nat (length out))).
Proof. vm_compute. reflexivity. Qed.

(** ** The bit reader reads the items *)

Lemma bval_range n bs : 0 <= bval n bs < 2 ^ Z.of_nat n.
Proof.
  revert bs. induction n as [|n IH]; intros bs; [done|]. cbn [bval].
  rewrite Nat2Z.inj_succ, Z.pow_succ_r by lia. pose proof (pow2_gt0 (Z.of_nat n) ltac:(lia)).
  destruct bs as [|b bs]; [lia|]. specialize (IH bs). destruct b; cbn [Z.b2z]; lia.
Qed.

Lemma top_bit b v : 0 <= v < 128 -> Z.land (Z.shiftr (Z.b2z b * 128 + v) 7) 1 = Z.b2z b.
Proof.
  intros H. rewrite (land_mask 1), Z.shiftr_div_pow2 by lia. change (2 ^ 7) with 128. change (2 ^ 1) with 2.
  rewrite Z.div_add_l, (Z.div_small v) by lia. by destruct b.
Qed.

(** A bit of a marker byte that has one: the bit, and the marker after it. *)
Lemma marker_shift k b bs : (k < 7)%nat ->
  Z.land (marker (S k) (b :: bs)) 0x7f <> 0 /\
  Z.land (Z.shiftr (marker (S k) (b :: bs)) 7) 1 = Z.b2z b /\
  uint 8 (marker (S k) (b :: bs) * 2) = marker k bs.
Proof.
  intros Hk. pose proof (bval_range k bs) as Hv. set (v := bval k bs * 2 ^ (7 - Z.of_nat k) + 2 ^ (6 - Z.of_nat k)).
  assert (marker (S k) (b :: bs) = Z.b2z b * 128 + v /\ marker k bs = 2 * v /\ 0 < v < 128) as (-> & -> & Hr).
  { unfold marker, v. cbn [bval]. set (w := bval k bs) in *. clearbody w. clear v.
    do 7 (destruct k as [|k]; [cbn [Z.of_nat] in *; cbn in *; destruct b; cbn; lia|]). lia. }
  split; [|split].
  - change 127 with (2 ^ 7 - 1). rewrite land_mask by lia. change (2 ^ 7) with 128.
    rewrite Z.add_comm, Z.mod_add, Z.mod_small by lia. lia.
  - apply top_bit. lia.
  - unfold uint. change (2 ^ 8) with 256. replace ((Z.b2z b * 128 + v) * 2) with (2 * v + Z.b2z b * 256) by lia.
    rewrite Z.mod_add, Z.mod_small by lia. done.
Qed.

(** A fresh tag byte: its first bit, and the marker of the other seven. *)
Lemma tag_fetch b bs :
  Z.land (Z.shiftr (bval 8 (b :: bs)) 7) 1 = Z.b2z b /\
  uint 8 (bval 8 (b :: bs) * 2 + 1) = marker 7 bs.
Proof.
  unfold marker. cbn [bval]. fold (bval 7 bs). pose proof (bval_range 7 bs). change (2 ^ Z.of_nat 7) with 128 in *.
  split; [by apply top_bit|]. unfold uint. change (2 ^ 8) with 256. change (2 ^ (8 - _)) with 2. change (2 ^ (7 - _)) with 1.
  replace ((Z.b2z b * 128 + bval 7 bs) * 2 + 1) with (bval 7 bs * 2 + 1 + Z.b2z b * 256) by lia.
  rewrite Z.mod_add, Z.mod_small by lia. done.
Qed.

Definition has_byte (its : list item) : Prop := exists c, Byte c ∈ its.

Lemma has_byte_pack k its : has_byte its -> pack k its <> [].
Proof.
  intros [c Hc]. revert k. induction its as [|[b|c'] its IH]; intros k; [by apply not_elem_of_nil in Hc|cbn..]; [|done].
  destruct k; [done|]. apply IH. by apply elem_of_cons in Hc as [?|?].
Qed.

Lemma has_byte_app a b : has_byte b -> has_byte (a ++ b).
Proof. intros [c Hc]. exists c. apply elem_of_app. auto. Qed.
Lemma has_byte_cons i b : has_byte b -> has_byte (i :: b).
Proof. apply (has_byte_app [i]). Qed.
Lemma has_byte_here c b : has_byte (Byte c :: b).
Proof. exists c. constructor. Qed.
#[local] Hint Resolve has_byte_app has_byte_cons has_byte_here : clam.

(** Reading a bit in the middle of a proof, with an instance [lem] of the lemma
    that the reader reads the next bit. *)
Ltac read_with lem Ha :=
  let b := fresh "b" in let E := fresh "E" in let Hn := fresh "Hat" in
  destruct (lem _ _ _ Ha ltac:(auto with clam)) as (b & E & Hn); rewrite E; clear E Ha; rename Hn into Ha.

Section Reader.
Context (src : list Z) (source ssize : Z).
Hypothesis Hsource : 0 <= source.
Hypothesis Hssize : 0 < ssize < 2 ^ 31.
Hypothesis Hsrc : source + ssize = Z.of_nat (length src).

(** The reader stands before the items [its]. *)
Definition atp (b : Z * Z) (its : list item) : Prop :=
  exists k, (k <= 7)%nat /\ source <= b.1 /\ b.2 = marker k (bits_of its) /\ drop (Z.to_nat b.1) src = pack k its.

Lemma at_cons i c l : source <= i -> drop (Z.to_nat i) src = c :: l ->
  bget src i = Some c /\ drop (Z.to_nat (i + 1)) src = l /\ i + 1 + Z.of_nat (length l) = source + ssize.
Proof.
  intros Hi Hd. assert (length (drop (Z.to_nat i) src) = S (length l)) as Hl by by rewrite Hd.
  rewrite length_drop in Hl. rewrite bget_lookup by lia.
  replace (Z.to_nat (i + 1)) with (S (Z.to_nat i)) by lia.
  rewrite <- (Nat.add_0_r (Z.to_nat i)) at 1. rewrite <- lookup_drop, Hd. split; [done|].
  split; [|lia]. rewrite <- Nat.add_1_r, <- drop_drop, Hd. done.
Qed.

Lemma bit_at b x its : atp b (Bit x :: its) -> has_byte its ->
  exists b', bit src source ssize b = Ok (Some (Z.b2z x, b')) /\ atp b' its.
Proof.
  intros (k & Hk & Hb & Hm & Hd) Hh. unfold bit, doubledl. rewrite (uint_small 32), Hm by lia. cbn [bits_of] in *.
  change (bits_of (Bit x :: its)) with (x :: bits_of its) in *.
  destruct k as [|k]; cbn [pack] in Hd.
  - change (Z.land (marker 0 (x :: bits_of its)) 127 =? 0) with true. cbn iota.
    apply at_cons in Hd as (Hg & Hd & Hl); [|done].
    assert (pack 7 its <> []) as Hn by by apply has_byte_pack.
    assert (length (pack 7 its) <> O) by by intros ?%nil_length_inv.
    destruct ((b.1 <? source) || (source + ssize - 1 <=? b.1)) eqn:E; [lia|].
    unfold rdbyte. rewrite Hg. change (bits_of (Bit x :: its)) with (x :: bits_of its).
    pose proof (bval_range 8 (x :: bits_of its)). rewrite (uint_small 8 (bval _ _)) by done.
    destruct (tag_fetch x (bits_of its)) as [-> ->].
    eexists. split; [done|]. exists 7%nat. cbn [fst snd]. split; [lia|]. split; [lia|]. done.
  - destruct (marker_shift k x (bits_of its)) as (Hz & -> & ->); [lia|].
    destruct (_ =? 0) eqn:E; [lia|]. eexists. split; [done|]. exists k. cbn [fst snd]. split; [lia|]. done.
Qed.

Lemma byte_at b c its : atp b (Byte c :: its) -> 0 <= c < 256 ->
  source <= b.1 < source + ssize /\ rdbyte src b.1 = Ok (Some c) /\ atp (b.1 + 1, b.2) its.
Proof.
  intros (k & Hk & Hb & Hm & Hd) Hc. cbn [pack] in Hd. apply at_cons in Hd as (Hg & Hd & Hl); [|done].
  split; [lia|]. split; [unfold rdbyte; rewrite Hg, (uint_small 8) by lia; done|].
  exists k. cbn [fst snd]. split; [done|]. split; [lia|]. done.
Qed.

Lemma next_byte_at b c its : atp b (Byte c :: its) -> 0 <= c < 256 ->
  exists b', next_byte src source ssize b = Ok (Some (c, b')) /\ atp b' its.
Proof.
  intros Ha Hc. destruct (byte_at b c its Ha Hc) as (Hr & Hg & Hn). unfold next_byte.
  destruct (source + ssize <=? b.1) eqn:E; [lia|]. rewrite Hg. eauto.
Qed.


(** One round of the loop of [size_loop]. *)
Lemma size_step fuel n x more its b : atp b (Bit x :: Bit more :: its) -> has_byte its ->
  exists b', size_loop src source ssize (S fuel) n b =
    (if more then size_loop src source ssize fuel (uint 32 (n * 2 + Z.b2z x)) b'
     else Ok (Some (uint 32 (n * 2 + Z.b2z x), b'))) /\ atp b' its.
Proof.
  intros Ha Hh. cbn [size_loop]. read_with bit_at Ha. cbv iota beta. read_with bit_at Ha. eexists. split; [|exact Ha]. by destruct more.
Qed.

Lemma gamma_more p its b fuel : Z.pos p < 2 ^ 32 -> atp b (gamma_bits p true its) -> has_byte its ->
  exists b', size_loop src source ssize (fuel + (Pos.size_nat p - 1)) 1 b = size_loop src source ssize fuel (Z.pos p) b' /\ atp b' its.
Proof.
  revert its b fuel. induction p as [p IH|p IH|]; intros its b fuel Hp Ha Hh; cbn [gamma_bits] in Ha.
  1,2: destruct (IH _ _ (S fuel) ltac:(lia) Ha ltac:(auto with clam)) as (b1 & E1 & H1);
       destruct (size_step fuel (Z.pos p) _ _ _ _ H1 Hh) as (b2 & E2 & H2);
       exists b2; split; [|done]; rewrite E2, (uint_small 32) in E1 by (cbn; lia); cbn [Pos.size_nat Z.b2z] in *;
       assert (1 <= Pos.size_nat p)%nat by (destruct p; cbn; lia).
  - replace (fuel + (S (Pos.size_nat p) - 1))%nat with (S fuel + (Pos.size_nat p - 1))%nat by lia. rewrite E1. f_equal. lia.
  - replace (fuel + (S (Pos.size_nat p) - 1))%nat with (S fuel + (Pos.size_nat p - 1))%nat by lia. rewrite E1. f_equal. lia.
  - exists b. split; [|done]. cbn. by rewrite Nat.add_0_r.
Qed.

Lemma size_nat_le p : Z.pos p < 2 ^ 32 -> (Pos.size_nat p <= 32)%nat.
Proof.
  assert (forall n p, Z.pos p < 2 ^ Z.of_nat n -> (Pos.size_nat p <= n)%nat) as H; [|intros; by apply (H 32%nat)].
  induction n as [|n IH]; intros q Hq; [lia|].
  rewrite Nat2Z.inj_succ, Z.pow_succ_r in Hq by lia. pose proof (pow2_gt0 (Z.of_nat n) ltac:(lia)).
  destruct q; cbn [Pos.size_nat]; [| |lia]; specialize (IH q ltac:(lia)); lia.
Qed.

Lemma gamma_at fuel n its b : (32 < fuel)%nat -> 2 <= n < 2 ^ 32 -> atp b (gamma n ++ its) -> has_byte its ->
  exists b', size_loop src source ssize fuel 1 b = Ok (Some (n, b')) /\ atp b' its.
Proof.
  intros Hf Hn Ha Hh.
  assert (forall p more acc, gamma_bits p more acc ++ its = gamma_bits p more (acc ++ its)) as Happ.
  { induction p; intros; cbn; rewrite ?IHp; done. }
  unfold gamma in Ha. rewrite Happ in Ha. cbn [app] in Ha.
  assert (forall q x, Z.to_pos n = q -> n = Z.pos q -> (exists r, q = match x with true => xI r | false => xO r end /\
     atp b (gamma_bits r true (Bit x :: Bit false :: its))) ->
     exists b', size_loop src source ssize fuel 1 b = Ok (Some (n, b')) /\ atp b' its) as Hlast.
  { intros q x Hq Hnq (r & Hr & Hat). pose proof (size_nat_le r ltac:(destruct x; lia)).
    replace fuel with (S (fuel - 1 - (Pos.size_nat r - 1)) + (Pos.size_nat r - 1))%nat by lia.
    destruct (gamma_more r _ _ (S (fuel - 1 - (Pos.size_nat r - 1))) ltac:(destruct x; lia) Hat ltac:(auto with clam))
      as (b1 & -> & H1).
    destruct (size_step (fuel - 1 - (Pos.size_nat r - 1)) (Z.pos r) _ _ _ _ H1 Hh) as (b2 & -> & H2).
    exists b2. split; [|done]. rewrite (uint_small 32) by (destruct x; cbn; lia). do 2 f_equal. f_equal. destruct x; cbn; lia. }
  destruct (Z.to_pos n) as [r|r|] eqn:E; [| |lia]; cbn [gamma_bits] in Ha.
  - apply (Hlast (xI r) true); eauto; lia.
  - apply (Hlast (xO r) false); eauto; lia.
Qed.

Lemma near_step fuel n x its b : 0 <= n < 256 -> atp b (Bit x :: its) -> has_byte its ->
  exists b', near_loop src source ssize (S fuel) n b = near_loop src source ssize fuel (n * 2 + Z.b2z x) b' /\ atp b' its.
Proof.
  intros Hn Ha Hh. cbn [near_loop]. destruct (n <? 256) eqn:E; [|lia]. read_with bit_at Ha. exists b0.
  split; [|done]. by rewrite (uint_small 32) by (destruct x; cbn; lia).
Qed.

Lemma nibble_at fuel d its b : (4 < fuel)%nat -> 0 <= d < 16 -> atp b (nibble d ++ its) -> has_byte its ->
  exists b', near_loop src source ssize fuel 0x10 b = Ok (Some (256 + d, b')) /\ atp b' its.
Proof.
  intros Hf Hd Ha Hh. cbn [nibble fmap list_fmap app] in Ha.
  do 5 (destruct fuel as [|fuel]; [lia|]).
  pose proof (byte_forall (fun d => negb (d <? 16) ||
     (((((16 * 2 + Z.b2z (Z.testbit d 3)) * 2 + Z.b2z (Z.testbit d 2)) * 2 + Z.b2z (Z.testbit d 1)) * 2
        + Z.b2z (Z.testbit d 0)) =? 256 + d)) ltac:(vm_compute; reflexivity) d ltac:(lia)) as Hv. cbn beta in Hv.
  assert (forall x, 0 <= Z.b2z x <= 1) as H1 by (intros []; cbn; lia).
  pose proof (H1 (Z.testbit d 3)). pose proof (H1 (Z.testbit d 2)). pose proof (H1 (Z.testbit d 1)). pose proof (H1 (Z.testbit d 0)).
  destruct (near_step (S (S (S (S fuel)))) 16 _ _ _ ltac:(lia) Ha ltac:(auto with clam)) as (? & -> & Ha1).
  destruct (near_step (S (S (S fuel))) (16 * 2 + Z.b2z (Z.testbit d 3)) _ _ _ ltac:(lia) Ha1 ltac:(auto with clam)) as (? & -> & Ha2).
  destruct (near_step (S (S fuel)) ((16 * 2 + Z.b2z (Z.testbit d 3)) * 2 + Z.b2z (Z.testbit d 2)) _ _ _ ltac:(lia) Ha2 ltac:(auto with clam)) as (? & -> & Ha3).
  destruct (near_step (S fuel) (((16 * 2 + Z.b2z (Z.testbit d 3)) * 2 + Z.b2z (Z.testbit d 2)) * 2 + Z.b2z (Z.testbit d 1)) _ _ _ ltac:(lia) Ha3 ltac:(auto with clam)) as (b4 & -> & Ha4).
  cbn [near_loop]. destruct (_ <? 256) eqn:E4; [lia|]. exists b4. split; [|done]. do 3 f_equal. lia.
Qed.
End Reader.

(** ** The text in the destination *)

Lemma repeat_back_len n d out : length (repeat_back n d out) = (length out + n)%nat.
Proof.
  revert out. induction n as [|n IH]; intros out; cbn [repeat_back]; [lia|]. rewrite IH, length_app. cbn. lia.
Qed.

Lemma emit_len lost old t out : token_okb lost old t out = true -> (length out < length (emit old t out))%nat.
Proof.
  intros H. destruct t; cbn [emit token_okb] in *; try case_match; rewrite ?length_app, ?repeat_back_len; cbn; try lia.
  - destruct long; cbn; lia.
  - unfold far_extra in H. repeat case_match; lia.
Qed.

Lemma expand_len lost old ts out : tokens_okb lost old ts out = true -> (length out <= length (expand old ts out))%nat.
Proof.
  revert lost old out. induction ts as [|t ts IH]; intros lost old out H; cbn [expand tokens_okb] in *; [lia|].
  apply andb_true_iff in H as [H1%emit_len H2%IH]. lia.
Qed.

Lemma bget_app_l {A} (l k : list A) i : i < Z.of_nat (length l) -> bget (l ++ k) i = bget l i.
Proof.
  intros Hi. unfold bget. destruct (i <? 0) eqn:E; [done|]. apply lookup_app_l. lia.
Qed.

Lemma bget_snoc {A} (l : list A) x : bget (l ++ [x]) (Z.of_nat (length l)) = Some x.
Proof. rewrite bget_lookup by lia. rewrite Nat2Z.id. apply list_lookup_middle. done. Qed.

(** The text [out] starts at the address [dest]. *)
Definition text (dest : Z) (m out : list Z) : Prop :=
  forall i, 0 <= i < Z.of_nat (length out) -> bget m (dest + i) = bget out i.

Lemma text_snoc dest m out c : 0 <= dest -> text dest m out -> dest + Z.of_nat (length out) < Z.of_nat (length m) ->
  exists m', bset m (dest + Z.of_nat (length out)) c = Some m' /\ text dest m' (out ++ [c]) /\ length m' = length m.
Proof.
  intros Hd Ht Hl. rewrite bset_is_Some by lia. eexists. split; [done|]. split; [|by rewrite length_insert].
  intros i Hi. rewrite length_app in Hi. cbn in Hi.
  destruct (Z.eq_dec i (Z.of_nat (length out))) as [->|Hn].
  - rewrite bget_insert_eq, bget_snoc by lia. done.
  - rewrite bget_insert_ne, bget_app_l by lia. apply Ht. lia.
Qed.

Lemma copy_back_text dest n d m out : 0 <= dest -> text dest m out -> 1 <= d <= Z.of_nat (length out) ->
  dest + Z.of_nat (length out) + Z.of_nat n <= Z.of_nat (length m) ->
  exists m', copy_back n m (dest + Z.of_nat (length out)) d = Some m' /\ text dest m' (repeat_back n d out).
Proof.
  intros Hd. revert m out. induction n as [|n IH]; intros m out Ht Hr Hl; [by exists m|].
  cbn [copy_back repeat_back].
  replace (dest + Z.of_nat (length out) - d) with (dest + (Z.of_nat (length out) - d)) by lia.
  rewrite (Ht (Z.of_nat (length out) - d)) by lia.
  destruct (bget_is_Some out (Z.of_nat (length out) - d)) as [c Hc]; [lia|]. rewrite Hc. cbn [default].
  destruct (text_snoc dest m out c) as (m1 & -> & Ht1 & Hl1); [done|done|lia|].
  destruct (IH m1 (out ++ [c])) as (m2 & E & Ht2); [done|rewrite length_app; cbn; lia..|].
  exists m2. split; [|done]. rewrite <- E, length_app. f_equal. cbn. lia.
Qed.

Section Run.
Context (src : list Z) (source ssize dest dsize : Z) (m0 : list Z).
Hypothesis Hsource : 0 <= source.
Hypothesis Hssize : 0 < ssize < 2 ^ 31.
Hypothesis Hsrc : source + ssize = Z.of_nat (length src).
Hypothesis Hdest : 0 <= dest.
Hypothesis Hdsize : 0 < dsize.
Hypothesis Hm0 : dest + dsize <= Z.of_nat (length m0).

(** The loop stands before the items [its], has produced [out], and its variables
    have the values [old] and [lost]. *)
Record st (s : fsg) (its : list item) (out : list Z) (old lost : Z) : Prop := {
  st_at : atp src source (csrc s, mydl s) its;
  st_dst : cdst s = dest + Z.of_nat (length out);
  st_text : text dest (mem s) out;
  st_len : length (mem s) = length m0;
  st_old : oldback s = old;
  st_lost : lostbit s = lost;
}.

Lemma do_copy_text s its out d old lost n : st s its out old lost -> 1 <= d <= Z.of_nat (length out) -> 0 < n ->
  Z.of_nat (length out) + n <= dsize ->
  exists s', do_copy dest dsize s d n = Ok (Some s') /\ st s' its (repeat_back (Z.to_nat n) d out) old lost.
Proof.
  intros [H1 H2 H3 H4 H5 H6] Hd Hn Hl. unfold do_copy, CLI_ISCONTAINED.
  match goal with |- context [if ?c then _ else _] => assert (c = false) as -> by lia end.
  destruct (copy_back_text dest (Z.to_nat n) d (mem s) out) as (m' & E & Ht); [lia|done|lia|lia|].
  rewrite H2, E. eexists. split; [done|].
  destruct (copy_back_ok (Z.to_nat n) (mem s) (dest + Z.of_nat (length out)) d) as (m2 & E2 & Hl2 & _); [lia..|].
  assert (m2 = m') as -> by congruence.
  constructor; cbn; try done; [|congruence]. rewrite repeat_back_len. lia.
Qed.

Lemma put_text s its its' b out c l old lost : st s its out old lost -> atp src source b its' ->
  Z.of_nat (length out) < dsize ->
  exists s', put s b c l = Ok (Some s') /\ st s' its' (out ++ [c]) old l.
Proof.
  intros [H1 H2 H3 H4 H5 H6] Hb Hl. unfold put. rewrite H2.
  destruct (text_snoc dest (mem s) out c) as (m' & -> & Ht & Hl'); [lia|done|lia|].
  eexists. split; [done|]. destruct b. constructor; cbn; try done; try congruence. rewrite length_app. cbn. lia.
Qed.

#[local] Ltac rbit Ha := read_with (bit_at src source ssize Hsource Hssize Hsrc) Ha.

(** The state after the bits of a match are read. *)
Lemma st_match s its its' b out old lost old' lost' : st s its out old lost -> atp src source b its' ->
  st (Fsg b.1 b.2 (cdst s) (mem s) old' lost') its' out old' lost'.
Proof. intros [H1 H2 H3 H4 H5 H6] Hb. destruct b. by constructor. Qed.

Lemma far_size_extra d n : 0 <= n < 2 ^ 31 -> far_size d n = n + far_extra d.
Proof.
  intros Hn. unfold far_size, far_extra. repeat case_match;
    rewrite ?(uint_small 32 (n + 1)), ?(uint_small 32 (n + 1 + 1)), ?(uint_small 32 (n + 2)) by lia; lia.
Qed.

Lemma short_byte d (long : bool) : 1 <= d < 128 ->
  0 <= 2 * d + Z.b2z long < 256 /\ Z.land (2 * d + Z.b2z long) 1 = Z.b2z long /\
  Z.shiftr (Z.land (2 * d + Z.b2z long) 255) 1 = d.
Proof.
  intros Hd. assert (0 <= Z.b2z long <= 1) as Hl by (destruct long; cbn; lia). split; [lia|].
  change 255 with (2 ^ 8 - 1). rewrite (land_mask 1), (land_mask 8), Z.shiftr_div_pow2 by lia.
  change (2 ^ 8) with 256. change (2 ^ 1) with 2. rewrite (Z.mod_small _ 256) by lia.
  replace (2 * d + Z.b2z long) with (Z.b2z long + d * 2) by lia.
  rewrite Z.mod_add, Z.div_add, Z.mod_small, Z.div_small by lia. lia.
Qed.

(** The branch 16a of the loop on the tokens it serves. *)
Lemma near_round fuel s its0 its d out old lost b : st s its0 out old lost -> (32 < fuel)%nat -> has_byte its ->
  0 <= d < 16 -> d <= Z.of_nat (length out) -> Z.of_nat (length out) < dsize ->
  atp src source b (Bit true :: nibble d ++ its) ->
  exists a, branch_near src source ssize dest dsize fuel s b = Ok (Some a) /\
    match a with
    | Continue s' => d = 0 /\ st s' its (out ++ [0]) old 1
    | Copy s' bb bs => 0 < d /\ bb = d /\ bs = 1 /\ st s' its out old 1
    | Break _ => False
    end.
Proof.
  intros Hs Hf Hh Hd Hn Hl Ha. unfold branch_near. rbit Ha. cbv iota beta. cbn [Z.b2z Z.eqb negb].
  destruct (nibble_at src source ssize Hsource Hssize Hsrc fuel d its _ ltac:(lia) Hd Ha Hh) as (b1 & -> & H1).
  replace (Z.land (256 + d) 255) with d.
  2:{ change 255 with (2 ^ 8 - 1). rewrite land_mask by lia. change (2 ^ 8) with 256.
      rewrite Z.add_comm, <- (Z.mul_1_l 256), Z.mod_add, Z.mod_small by lia. done. }
  destruct (d =? 0) eqn:E.
  - rewrite (st_dst _ _ _ _ _ Hs).
    destruct (dest + dsize <=? _) eqn:E2; [lia|].
    destruct (put_text s its0 its b1 out 0 1 old lost) as (s' & -> & Hs'); [done|done|lia|].
    exists (Continue s'). split; [done|]. split; [lia|done].
  - eexists. split; [done|]. cbn. split; [lia|]. split; [done|]. split; [done|].
    rewrite (st_old _ _ _ _ _ Hs). by eapply st_match.
Qed.

Lemma short_round fuel s its0 its d long out old lost b : st s its0 out old lost -> has_byte its -> 1 <= d < 128 ->
  atp src source b (Bit false :: Byte (2 * d + Z.b2z long) :: its) ->
  exists s', branch_near src source ssize dest dsize fuel s b = Ok (Some (Copy s' d (Z.b2z long + 2))) /\
    st s' its out d 0.
Proof.
  intros Hs Hh Hd Ha. unfold branch_near. rbit Ha. cbv iota beta. cbn [Z.b2z Z.eqb negb].
  destruct (short_byte d long Hd) as (Hr & E1 & E2).
  destruct (next_byte_at src source ssize Hsource Hsrc _ _ _ Ha Hr) as (b1 & -> & H1).
  rewrite E1, E2. destruct (d =? 0) eqn:E; [lia|]. eexists. split; [done|]. by eapply st_match.
Qed.

Lemma end_round fuel s its0 out old lost b : st s its0 out old lost ->
  atp src source b [Bit false; Byte 0] ->
  exists s', branch_near src source ssize dest dsize fuel s b = Ok (Some (Break s')) /\ st s' [] out old lost.
Proof.
  intros Hs Ha. unfold branch_near. rbit Ha. cbv iota beta. cbn [Z.b2z Z.eqb negb].
  destruct (next_byte_at src source ssize Hsource Hsrc _ _ _ Ha ltac:(lia)) as (b1 & -> & H1).
  cbn [Z.land Z.shiftr Z.shiftl Z.eqb]. eexists. split; [done|].
  rewrite (st_old _ _ _ _ _ Hs), (st_lost _ _ _ _ _ Hs). by eapply st_match.
Qed.

Lemma again_round fuel s its0 its len out old b : st s its0 out old 1 -> (32 < fuel)%nat -> has_byte its ->
  2 <= len < 2 ^ 31 -> atp src source b (gamma 2 ++ gamma len ++ its) ->
  exists s', branch_far src source ssize fuel s b = Ok (Some (Copy s' old len)) /\ st s' its out old 0.
Proof.
  intros Hs Hf Hh Hl Ha. unfold branch_far.
  destruct (gamma_at src source ssize Hsource Hssize Hsrc fuel 2 _ b Hf ltac:(lia) Ha ltac:(auto with clam)) as (b1 & -> & H1).
  rewrite (st_lost _ _ _ _ _ Hs), (st_old _ _ _ _ _ Hs). change (uint 32 (2 - 1 - 1) =? 0) with true. cbv iota beta zeta.
  destruct (gamma_at src source ssize Hsource Hssize Hsrc fuel len _ b1 Hf ltac:(lia) H1 Hh) as (b2 & -> & H2).
  eexists. split; [done|]. by eapply st_match.
Qed.

Lemma far_round fuel s its0 its d len out old lost b : st s its0 out old lost -> (32 < fuel)%nat -> has_byte its ->
  0 <= lost <= 1 -> 1 <= d < 2 ^ 31 -> 2 + far_extra d <= len < 2 ^ 31 ->
  atp src source b (gamma (d / 256 + 2 + lost) ++ [Byte (d `mod` 256)] ++ gamma (len - far_extra d) ++ its) ->
  exists s', branch_far src source ssize fuel s b = Ok (Some (Copy s' d len)) /\ st s' its out d 0.
Proof.
  intros Hs Hf Hh Hlost Hd Hl Ha. unfold branch_far.
  assert (0 <= d / 256 < 2 ^ 23) as Hq by (split; [apply Z.div_pos|apply Z.div_lt_upper_bound]; lia).
  assert (0 <= far_extra d) as He by (unfold far_extra; repeat case_match; lia).
  assert (uint 32 (d `mod` 256 + uint 32 (Z.shiftl (d / 256 + 1 - 1) 8)) = d) as Hdist.
  { rewrite Z.shiftl_mul_pow2 by lia. change (2 ^ 8) with 256. rewrite (uint_small 32 (_ * 256)) by lia.
    pose proof (Z.div_mod d 256 ltac:(lia)). rewrite uint_small; lia. }
  destruct (gamma_at src source ssize Hsource Hssize Hsrc fuel (d / 256 + 2 + lost) _ b Hf ltac:(lia) Ha ltac:(auto with clam)) as (b1 & -> & H1).
  rewrite (st_lost _ _ _ _ _ Hs). replace (d / 256 + 2 + lost - 1 - lost) with (d / 256 + 1) by lia.
  rewrite (uint_small 32 (d / 256 + 1)) by lia. destruct (d / 256 + 1 =? 0) eqn:E; [lia|].
  cbn [app] in H1. pose proof (Z.mod_pos_bound d 256 ltac:(lia)).
  destruct (next_byte_at src source ssize Hsource Hsrc _ _ _ H1 ltac:(lia)) as (b2 & -> & H2). cbv iota beta.
  destruct (gamma_at src source ssize Hsource Hssize Hsrc fuel (len - far_extra d) _ b2 Hf ltac:(lia) H2 Hh) as (b3 & -> & H3). cbv iota beta.
  rewrite Hdist. rewrite far_size_extra by lia. replace (len - far_extra d + far_extra d) with len by lia.
  eexists. split; [done|]. by eapply st_match.
Qed.

(** One round of the loop decodes one token. *)
Lemma round_token fuel s t its out old lost : st s (items lost t ++ its) out old lost -> (32 < fuel)%nat ->
  has_byte its -> 0 <= lost <= 1 -> token_okb lost old t out = true -> Z.of_nat (length (emit old t out)) <= dsize ->
  exists s', round src source ssize dest dsize fuel s = Ok (Some (false, s')) /\
    st s' its (emit old t out) (old_after old t) (lost_after t).
Proof.
  intros Hs Hf Hh Hlost Hok Hl. pose proof (emit_len _ _ _ _ Hok) as Hgrow. pose proof (st_at _ _ _ _ _ Hs) as Ha.
  unfold round. destruct t as [c|d|d long|len|d len]; cbn [items app] in Ha; rbit Ha; cbv iota beta;
    cbn [Z.b2z Z.eqb negb]; cbn [token_okb emit old_after lost_after] in *.
  1:{ destruct (byte_at src source ssize Hsource Hsrc _ c its Ha ltac:(lia)) as (Hr & E & H1).
      rewrite (st_dst _ _ _ _ _ Hs).
      match goal with |- context [if ?x then _ else _] => assert (x = false) as -> by lia end.
      rewrite E. destruct (put_text s _ its _ out c 1 old lost Hs H1 ltac:(lia)) as (s' & -> & Hs'). by exists s'. }
  all: rbit Ha; cbv iota beta; cbn [Z.b2z Z.eqb negb].
  - destruct (near_round fuel s _ its d out old lost _ Hs Hf Hh ltac:(lia) ltac:(lia) ltac:(lia) Ha) as ([s'|s'|s' bb bs] & -> & H);
      [destruct H as [-> H]; by exists s'|done|]. destruct H as (H0 & -> & -> & H).
    destruct (d =? 0) eqn:E; [lia|]. rewrite repeat_back_len in Hl.
    destruct (do_copy_text s' its out d old 1 1 H ltac:(lia) ltac:(lia) ltac:(lia)) as (s2 & -> & H2). by exists s2.
  - destruct (short_round fuel s _ its d long out old lost _ Hs Hh ltac:(lia) Ha) as (s' & -> & H).
    assert (0 <= Z.b2z long <= 1) by (destruct long; cbn; lia). rewrite repeat_back_len in Hl.
    destruct (do_copy_text s' its out d d 0 (Z.b2z long + 2) H ltac:(lia) ltac:(lia) ltac:(lia)) as (s2 & -> & H2).
    exists s2. by rewrite (Z.add_comm 2).
  - assert (lost = 1) as -> by lia. rewrite <- app_assoc in Ha. rewrite repeat_back_len in Hl.
    destruct (again_round fuel s _ its len out old _ Hs Hf Hh ltac:(lia) Ha) as (s' & -> & H).
    destruct (do_copy_text s' its out old old 0 len H ltac:(lia) ltac:(lia) ltac:(lia)) as (s2 & -> & H2). by exists s2.
  - rewrite <- app_assoc in Ha. cbn [app] in Ha. rewrite repeat_back_len in Hl.
    destruct (far_round fuel s _ its d len out old lost _ Hs Hf Hh Hlost ltac:(lia) ltac:(lia) Ha) as (s' & -> & H).
    assert (0 <= far_extra d) by (unfold far_extra; repeat case_match; lia).
    destruct (do_copy_text s' its out d d 0 len H ltac:(lia) ltac:(lia) ltac:(lia)) as (s2 & -> & H2). by exists s2.
Qed.

Lemma stream_has_byte lost ts : has_byte (stream lost ts).
Proof. revert lost. induction ts as [|t ts IH]; intros lost; cbn [stream]; auto with clam. Qed.

(** The loop decodes the tokens one by one and stops at the end marker. *)
Lemma loop_tokens fuel n ts s out old lost : sok source ssize dest dsize m0 s ->
  meas source ssize (reader s) < Z.of_nat fuel -> meas source ssize (reader s) < Z.of_nat n -> (32 < fuel)%nat ->
  st s (stream lost ts) out old lost -> 0 <= lost <= 1 -> tokens_okb lost old ts out = true ->
  Z.of_nat (length (expand old ts out)) <= dsize ->
  exists s' old' lost', loop src source ssize dest dsize fuel n s = Ok (Some s') /\ st s' [] (expand old ts out) old' lost'.
Proof.
  revert n s out old lost. induction ts as [|t ts IH]; intros n s out old lost Hk Hf Hn Hf32 Hs Hlost Hok Hl;
    (destruct n as [|n]; [pose proof (meas_nonneg source ssize (reader s) (sok_bits _ _ _ _ _ _ Hk)); lia|]);
    cbn [loop stream expand tokens_okb] in *;
    pose proof (round_ok src source ssize dest dsize Hsource Hssize ltac:(lia) Hdest m0 Hm0 fuel s Hk Hf ltac:(lia)) as Hr.
  - assert (exists s', round src source ssize dest dsize fuel s = Ok (Some (true, s')) /\ st s' [] out old lost) as (s' & E & H).
    { pose proof (st_at _ _ _ _ _ Hs) as Ha. unfold round. rbit Ha. cbv iota beta. cbn [Z.b2z Z.eqb negb]. rbit Ha.
      cbv iota beta. cbn [Z.b2z Z.eqb negb].
      destruct (end_round fuel s _ out old lost _ Hs Ha) as (s' & -> & H). by exists s'. }
    rewrite E. by exists s', old, lost.
  - apply andb_true_iff in Hok as [Hok1 Hok2]. pose proof (expand_len _ _ _ _ Hok2).
    destruct (round_token fuel s t (stream (lost_after t) ts) out old lost Hs Hf32 (stream_has_byte _ _) Hlost Hok1 ltac:(lia))
      as (s1 & E & H1). rewrite E in Hr |- *. cbn in Hr. destruct Hr as [Hk1 Hm1].
    apply IH with (lost := lost_after t); auto; try lia. destruct t; cbn; lia.
Qed.
End Run.

Lemma stream_bit lost ts : exists b its, stream lost ts = Bit b :: its /\ has_byte its.
Proof.
  pose proof stream_has_byte as Hb.
  destruct ts as [|t ts]; [by do 2 eexists; split; [reflexivity|auto with clam]|].
  destruct t; cbn; do 2 eexists; (split; [reflexivity|auto 10 with clam]).
Qed.

Lemma encode_len c ts : (3 <= length (encode c ts))%nat.
Proof.
  unfold encode. destruct (stream_bit 1 ts) as (b & its & -> & Hb). cbn [pack length].
  destruct (pack 7 its) eqn:E; [by apply has_byte_pack in E|]. cbn. lia.
Qed.

(** The text and the rest of the memory, as lists. *)
Lemma text_take m out : text 0 m out -> (length out <= length m)%nat -> take (length out) m = out.
Proof.
  intros Ht Hl. apply list_eq_same_length with (length out); rewrite ?length_take; [lia|lia|].
  intros i x y Hi H1 H2. rewrite lookup_take_lt in H1 by lia.
  specialize (Ht (Z.of_nat i) ltac:(lia)). rewrite !bget_lookup in Ht by lia.
  replace (Z.to_nat (0 + Z.of_nat i)) with i in Ht by lia. rewrite Nat2Z.id in Ht. congruence.
Qed.

Lemma frame_drop {A} (m m0 : list A) n : (forall i, Z.of_nat n <= i -> bget m i = bget m0 i) -> drop n m = drop n m0.
Proof.
  intros H. apply list_eq. intros i. rewrite !lookup_drop. specialize (H (Z.of_nat (n + i)) ltac:(lia)).
  rewrite !bget_lookup, Nat2Z.id in H by lia. done.
Qed.

(** C17. Unpacking inverts packing: [cli_unfsg], given the encoding of a text that
    starts with [c] and continues with the tokens [ts], returns 0 with exactly
    that text at the start of the destination and both end pointers at the ends
    of the stream and of the text, for every list of tokens that reach back into
    the text only, whatever the destination held before. *)
Theorem cli_unfsg_decodes (c : Z) (ts : list token) (m0 : list Z) (dsize : Z) :
  let src := encode c ts in
  let out := expand 0 ts [c] in
  0 <= c < 256 -> tokens_okb 1 0 ts [c] = true -> Z.of_nat (length src) < 2 ^ 31 ->
  Z.of_nat (length out) <= dsize <= Z.of_nat (length m0) ->
  exists m, cli_unfsg src 0 (Z.of_nat (length src)) 0 dsize m0
            = Ok (Some (m, Z.of_nat (length src), Z.of_nat (length out))) /\
    take (length out) m = out /\ drop (length out) m = drop (length out) m0.
Proof.
  intros src out Hc Hok Hlen Hd. pose proof (encode_len c ts) as Hp. fold src in Hp.
  assert (1 <= length out)%nat as Hout by apply (expand_len 1 0 ts [c] Hok).
  set (ssize := Z.of_nat (length src)) in *.
  unfold cli_unfsg. destruct ((ssize <=? 0) || (dsize <=? 0)) eqn:E; [lia|]. unfold unpack.
  assert (rdbyte src 0 = Ok (Some c)) as -> by (unfold rdbyte; change (bget src 0) with (Some c); cbv iota beta; by rewrite (uint_small 8)).
  set (s0 := Fsg 0 128 0 m0 0 1).
  assert (atp src 0 (0 + 1, 128) (stream 1 ts)) as Ha by (exists 0%nat; split; [lia|done]).
  destruct (put_text src 0 0 dsize m0 ltac:(lia) ltac:(lia) s0 (Byte c :: stream 1 ts) (stream 1 ts) (0 + 1, 128) [] c 1 0 1)
    as (s1 & E1 & Hs1); [constructor; try done; [exists 0%nat; split; [lia|done]|intros i Hi; cbn in Hi; lia]|done|cbn; lia|].
  pose proof (put_ok src 0 ssize 0 dsize ltac:(lia) m0 ltac:(lia) s0 (0 + 1, 128) c 1) as Hk.
  rewrite E1 in Hk |- *. cbn [rok] in Hk. destruct Hk as (Hk & Hr & _).
  { constructor; cbn; try done; try lia. }
  { split; cbn; lia. }
  { cbn. lia. }
  assert (meas 0 ssize (reader s1) < 8 * ssize) as Hm.
  { rewrite Hr. unfold meas. cbn [fst snd]. change (pend 128) with 0. lia. }
  cbn [app] in Hs1.
  destruct (loop_tokens src 0 ssize 0 dsize m0 ltac:(lia) ltac:(lia) ltac:(lia) ltac:(lia) ltac:(lia) ltac:(lia)
     (fuel_for ssize) (fuel_for ssize) ts s1 [c] 0 1 Hk) as (s2 & old & lost & E2 & Hs2);
    [unfold fuel_for; lia..|exact Hs1|lia|exact Hok|apply Hd|].
  pose proof (unfsg_loop_ok src 0 ssize 0 dsize ltac:(lia) ltac:(lia) ltac:(lia) ltac:(lia) m0 ltac:(lia)
     (fuel_for ssize) (fuel_for ssize) s1 Hk) as Hk2.
  rewrite E2 in Hk2 |- *. unfold fuel_for in Hk2. specialize (Hk2 ltac:(lia) ltac:(lia) ltac:(lia)). cbn [rok] in Hk2.
  destruct Hs2 as [H1 H2 H3 H4 _ _], Hk2 as [K1 K2 _ _ K5].
  destruct H1 as (k & _ & _ & _ & Hd2). cbn [pack fst] in Hd2. destruct K1 as [K1 _]. cbn [fst] in K1.
  assert (length (drop (Z.to_nat (csrc s2)) src) = O) as Hz by by rewrite Hd2. rewrite length_drop in Hz.
  exists (mem s2). split; [|split].
  - do 2 f_equal. f_equal; [|exact H2]. f_equal. lia.
  - apply text_take; [done|]. rewrite H4. lia.
  - apply frame_drop. intros i Hi. apply K5. fold out in H2. lia.
Qed.

Lemma cli_unfsg_decodes_witness :
  exists m, cli_unfsg (encode 97 sample) 0 (Z.of_nat (length (encode 97 sample))) 0 400 (repeat 5 500)
    = Ok (Some (m, Z.of_nat (length (encode 97 sample)), Z.of_nat (length (expand 0 sample [97])))).
Proof.
  destruct (cli_unfsg_decodes 97 sample (repeat 5 500) 400) as (m & H & _).
  - lia.
  - vm_compute. reflexivity.
  - vm_compute. reflexivity.
  - vm_compute. split; discriminate.
  - by exists m.
Defined.
End PackRound.
