(* ===== verification/Filter.v ===== *)
(** * The prefilter of the pattern matchers (libclamav/filtering.c)

    A shift-or automaton over overlapping two-byte grams.  Every pattern of a
    matcher is merged into it; before a buffer is scanned, the automaton looks for
    a place where some pattern may end.  The two tables of 65536 bytes are maps
    with the value 0xff that [filter_init] stores as the default.  Reads of the
    pattern and of the data outside their lists are [None]. *)
From stdpp Require Import base numbers list list_numbers gmap.
From Stdlib Require Import ZArith Lia Bool.
From S2P Require Import Prelude.

Local Open Scope Z_scope.

Module Filter.

Record filter := mkFilter { B : gmap Z Z; End_ : gmap Z Z }.

Definition filter_init : filter := mkFilter ∅ ∅.

(** [m->B[q]] and [m->end[q]]. *)
Definition Bq (m : filter) (q : Z) : Z := default 0xff (B m !! q).
Definition Eq (m : filter) (q : Z) : Z := default 0xff (End_ m !! q).

Definition MAXSOPATLEN : Z := 8.
Definition MAX_CHOICES : Z := 8.
Definition MAXPATLEN : Z := 255.

Definition filter_isset (m : filter) (pos val : Z) : bool := Z.land (Bq m val) (Z.shiftl 1 pos) =? 0.

Definition filter_set_atpos (m : filter) (pos val : Z) : filter :=
  if negb (filter_isset m pos val) then
    mkFilter (<[val := uint 8 (Z.land (Bq m val) (Z.lnot (Z.shiftl 1 pos)))]> (B m)) (End_ m)
  else m.

Definition filter_end_isset (m : filter) (pos a : Z) : bool := Z.land (Eq m a) (Z.shiftl 1 pos) =? 0.

Definition filter_set_end (m : filter) (pos a : Z) : filter :=
  if negb (filter_end_isset m pos a) then
    mkFilter (B m) (<[a := uint 8 (Z.land (Eq m a) (Z.lnot (Z.shiftl 1 pos)))]> (End_ m))
  else m.

(** [cli_readint16]: a little-endian gram. *)
Definition cli_readint16 (p : list Z) (i : Z) : option Z :=
  let* a := bget p i in
  let* b := bget p (i + 1) in
  Some (Z.lor (uint 8 a) (Z.shiftl (uint 8 b) 8)).

(** The loop [for(k=j;k<len-1 && (k-j < MAXSOPATLEN);k++)] that scores the
    subpattern at [j]: the score, the last gram and the final [k]. *)
Fixpoint score_loop (fuel : nat) (m : filter) (pattern : list Z) (len j k num q : Z) : option (Z * Z * Z) :=
  match fuel with
  | O => None
  | S fuel =>
      if (k <? len - 1) && (k - j <? MAXSOPATLEN) then
        let* q := cli_readint16 pattern k in
        let num := uint 32 (num + (if filter_isset m (k - j) q then 0 else MAXSOPATLEN - (k - j))) in
        let num := if ((k =? j) || (k =? j + 1)) && ((q =? 0) || (q =? 0xffff))
                   then uint 32 (num + (if k =? j then 10000 else 1000)) else num in
        score_loop fuel m pattern len j (uint 8 (k + 1)) num q
      else Some (num, q, k)
  end.

(** The score of the subpattern that starts at [j].  The last adjustment is
    computed in [int] and subtracted from an unsigned number. *)
Definition score (m : filter) (pattern : list Z) (len j q : Z) : option (Z * Z) :=
  let* (num, q, k) := score_loop 10 m pattern len j j MAXSOPATLEN q in
  let num := uint 32 (num + 10 * (if filter_end_isset m (k - j - 1) q then 0 else 1)) in
  let num := uint 32 (num + 5 * (MAXSOPATLEN - (k - j))) in
  let num := if k - j + 1 <? 4 then uint 32 (num + 200) else num in
  Some (uint 32 (num - Z.quot ((2 * MAXSOPATLEN - (k + 1 + j)) * (k - j)) 2), q).

(** The loop over the start [j]: the best start. *)
Fixpoint best_loop (fuel : nat) (m : filter) (pattern : list Z) (len maxlen j best best_pos q : Z) : option Z :=
  match fuel with
  | O => None
  | S fuel =>
      if ((best <? 100) && (j <? MAX_CHOICES)) || (j <? maxlen) then
        if len <? j + 2 then Some best_pos
        else
          let* (num, q) := score m pattern len j q in
          if num <? best then best_loop fuel m pattern len maxlen (uint 8 (j + 1)) num j q
          else best_loop fuel m pattern len maxlen (uint 8 (j + 1)) best best_pos q
      else Some best_pos
  end.

(** The preprocessing loop: the filter, the final [j] and the last gram. *)
Fixpoint set_loop (n : nat) (m : filter) (pattern : list Z) (j q : Z) : option (filter * Z * Z) :=
  match n with
  | O => Some (m, j, q)
  | S n =>
      let* q := cli_readint16 pattern j in
      set_loop n (filter_set_atpos m j q) pattern (j + 1) q
  end.

(** [filter_add_static]: the filter and the returned value. *)
Definition filter_add_static (m : filter) (pattern : list Z) (len : Z) : option (filter * Z) :=
  let len := if MAXPATLEN <? len then MAXPATLEN else len in
  if len <? 2 then Some (m, -1)
  else
    let maxlen := if 4 <? len then (let maxlen := len - 4 in if maxlen =? 1 then 2 else maxlen) else 2 in
    let* best_pos := best_loop 257 m pattern len maxlen 0 0xffffffff 0 0 in
    assert* best_pos <? len - 1 in
    let pattern := drop (Z.to_nat best_pos) pattern in
    let len := len - best_pos in
    let len := if MAXSOPATLEN <? len then MAXSOPATLEN else len in
    let* (m, j, q) := set_loop (Z.to_nat (len - 1)) m pattern 0 0 in
    if negb (j =? 0) then
      let j := j - 1 in
      Some (filter_set_end m j q, j + 2)
    else Some (m, j + 2).

(** The search loop from position [j]: the position where a pattern may end. *)
Fixpoint search_loop (n : nat) (m : filter) (data : list Z) (j state : Z) : option (option Z) :=
  match n with
  | O => Some None
  | S n =>
      let* q0 := cli_readint16 data j in
      let state := Z.lor (uint 8 (Z.shiftl state 1)) (Bq m q0) in
      let match_state_end := Z.lor state (Eq m q0) in
      if negb (match_state_end =? 0xff) then Some (Some j)
      else search_loop n m data (j + 1) state
  end.

(** [filter_search_ext]: [None] inside is -1, otherwise [inf->first_match]. *)
Definition filter_search_ext (m : filter) (data : list Z) (len : Z) : option (option Z) :=
  if len <? 2 then Some None
  else search_loop (Z.to_nat (len - 1)) m data 0 0xff.

Definition filter_search (m : filter) (data : list Z) (len : Z) : option Z :=
  if len <? 2 then Some (-1)
  else
    let* r := search_loop (Z.to_nat (len - 1)) m data 0 0xff in
    match r with
    | Some j => Some (if MAXSOPATLEN <=? j then j - MAXSOPATLEN else 0)
    | None => Some (-1)
    end.

(** A filter with a list of patterns merged into it. *)
Definition add_all (ps : list (list Z)) (m : filter) : option filter :=
  foldl (fun o p => let* m := o in let* (m, _) := filter_add_static m p (Z.of_nat (length p)) in Some m) (Some m) ps.

(** ** The tables only ever lose bits *)

Definition tab_ok (m : filter) : Prop := forall q, 0 <= Bq m q < 256 /\ 0 <= Eq m q < 256.

Definition mle (m m' : filter) : Prop :=
  forall q t, (Z.testbit (Bq m q) t = false -> Z.testbit (Bq m' q) t = false) /\
              (Z.testbit (Eq m q) t = false -> Z.testbit (Eq m' q) t = false).

#[global] Instance mle_preorder : PreOrder mle.
Proof. split; [intros m q t; auto|]. intros a b c H1 H2 q t. specialize (H1 q t). specialize (H2 q t). naive_solver. Qed.

Lemma uint8_land v w : 0 <= v < 256 -> uint 8 (Z.land v w) = Z.land v w /\ 0 <= Z.land v w < 256.
Proof.
  intros Hv. assert (uint 8 (Z.land v w) = Z.land v w) as E.
  { unfold uint. rewrite <- (land_mask 8), <- Z.land_assoc, (Z.land_comm w), Z.land_assoc, (land_mask 8), Z.mod_small by lia. done. }
  split; [done|]. rewrite <- E. apply (uint_range 8). lia.
Qed.

Lemma testbit_clear v p t : 0 <= p ->
  Z.testbit (Z.land v (Z.lnot (Z.shiftl 1 p))) t = Z.testbit v t && negb (t =? p).
Proof.
  intros Hp. destruct (Z.leb_spec 0 t) as [Ht|Ht]; [|by rewrite !Z.testbit_neg_r by lia].
  rewrite Z.land_spec, Z.lnot_spec, Z.shiftl_1_l, Z.pow2_bits_eqb by lia. by rewrite Z.eqb_sym.
Qed.

(** Setting a bit: it is clear afterwards, and nothing else changes. *)
Lemma set_atpos_spec m p v : tab_ok m -> 0 <= p ->
  tab_ok (filter_set_atpos m p v) /\ mle m (filter_set_atpos m p v) /\
  Z.testbit (Bq (filter_set_atpos m p v) v) p = false.
Proof.
  intros Hok Hp. unfold filter_set_atpos, filter_isset. rewrite land_shiftl1_testbit, negb_involutive by lia.
  destruct (Z.testbit (Bq m v) p) eqn:E; [|done].
  destruct (uint8_land (Bq m v) (Z.lnot (Z.shiftl 1 p)) (proj1 (Hok v))) as [-> Hr].
  unfold tab_ok, mle, Bq, Eq in *. cbn [B End_]. split; [|split].
  - intros q. split; [|apply Hok]. destruct (decide (q = v)) as [->|Hn].
    + by rewrite lookup_insert_eq.
    + rewrite lookup_insert_ne by done. apply Hok.
  - intros q t. split; [|done]. destruct (decide (q = v)) as [->|Hn].
    + rewrite lookup_insert_eq. cbn [from_option id]. rewrite testbit_clear by lia. by intros ->.
    + by rewrite lookup_insert_ne by done.
  - rewrite lookup_insert_eq. cbn [from_option id]. rewrite testbit_clear, Z.eqb_refl, andb_false_r by lia. done.
Qed.

Lemma set_end_spec m p v : tab_ok m -> 0 <= p ->
  tab_ok (filter_set_end m p v) /\ mle m (filter_set_end m p v) /\
  Z.testbit (Eq (filter_set_end m p v) v) p = false.
Proof.
  intros Hok Hp. unfold filter_set_end, filter_end_isset. rewrite land_shiftl1_testbit, negb_involutive by lia.
  destruct (Z.testbit (Eq m v) p) eqn:E; [|done].
  destruct (uint8_land (Eq m v) (Z.lnot (Z.shiftl 1 p)) (proj2 (Hok v))) as [-> Hr].
  unfold tab_ok, mle, Bq, Eq in *. cbn [B End_]. split; [|split].
  - intros q. split; [apply Hok|]. destruct (decide (q = v)) as [->|Hn].
    + by rewrite lookup_insert_eq.
    + rewrite lookup_insert_ne by done. apply Hok.
  - intros q t. split; [done|]. destruct (decide (q = v)) as [->|Hn].
    + rewrite lookup_insert_eq. cbn [from_option id]. rewrite testbit_clear by lia. by intros ->.
    + by rewrite lookup_insert_ne by done.
  - rewrite lookup_insert_eq. cbn [from_option id]. rewrite testbit_clear, Z.eqb_refl, andb_false_r by lia. done.
Qed.

(** ** What the filter accepts *)

Lemma readint16_is_Some p i : 0 <= i -> i + 1 < Z.of_nat (length p) -> is_Some (cli_readint16 p i).
Proof.
  intros H1 H2. unfold cli_readint16. destruct (bget_is_Some p i) as [a ->]; [lia|].
  destruct (bget_is_Some p (i + 1)) as [b ->]; [lia|]. by eexists.
Qed.

Lemma readint16_drop p s i : 0 <= s -> 0 <= i -> cli_readint16 (drop (Z.to_nat s) p) i = cli_readint16 p (s + i).
Proof.
  intros. unfold cli_readint16. rewrite !bget_drop by lia. by replace (s + (i + 1)) with (s + i + 1) by lia.
Qed.

(** The automaton has a path for the [n] grams of [p] from position [s] and may
    end after the last. *)
Definition accepts (m : filter) (p : list Z) : Prop :=
  exists s n, 0 <= s /\ 1 <= n <= 7 /\ s + n < Z.of_nat (length p) /\
    (forall t q, 0 <= t < n -> cli_readint16 p (s + t) = Some q -> Z.testbit (Bq m q) t = false) /\
    (forall q, cli_readint16 p (s + n - 1) = Some q -> Z.testbit (Eq m q) (n - 1) = false).

Lemma accepts_mono m m' p : mle m m' -> accepts m p -> accepts m' p.
Proof.
  intros Hle (s & n & Hs & Hn & Hl & HB & HE). exists s, n. split; [done|]. split; [done|]. split; [done|]. split.
  - intros t q Ht Hq. apply Hle. eauto.
  - intros q Hq. apply Hle. eauto.
Qed.

Lemma set_loop_spec n m p j q : tab_ok m -> 0 <= j -> j + Z.of_nat n < Z.of_nat (length p) ->
  exists m' q', set_loop n m p j q = Some (m', j + Z.of_nat n, q') /\ tab_ok m' /\ mle m m' /\
    (forall t x, j <= t < j + Z.of_nat n -> cli_readint16 p t = Some x -> Z.testbit (Bq m' x) t = false) /\
    (n <> O -> cli_readint16 p (j + Z.of_nat n - 1) = Some q').
Proof.
  revert m j q. induction n as [|n IH]; intros m j q Hok Hj Hl.
  { exists m, q. cbn. rewrite Z.add_0_r. repeat split; try done; try apply Hok. intros; lia. }
  cbn [set_loop]. destruct (readint16_is_Some p j) as [x Hx]; [lia|lia|]. rewrite Hx.
  destruct (set_atpos_spec m j x Hok Hj) as (Hok1 & Hle1 & Hbit).
  destruct (IH (filter_set_atpos m j x) (j + 1) x Hok1) as (m' & q' & E & Hok' & Hle' & HB & HE); [lia|lia|].
  exists m', q'. split; [rewrite E; do 3 f_equal; lia|]. split; [done|]. split; [by transitivity (filter_set_atpos m j x)|]. split.
  - intros t y Ht Hy. destruct (Z.eq_dec t j) as [->|Hn]; [|apply HB; [lia|done]].
    assert (y = x) as -> by congruence. by apply Hle'.
  - intros _. destruct n as [|n]; [|replace (j + Z.of_nat (S (S n)) - 1) with (j + 1 + Z.of_nat (S n) - 1) by lia; by apply HE].
    cbn in E. injection E as <- _ <-. by replace (j + Z.of_nat 1 - 1) with j by lia.
Qed.

(** ** The choice of the subpattern *)

Lemma score_loop_ok fuel m p len j k num q : 0 <= j <= k -> k <= 254 -> len <= 255 -> len <= Z.of_nat (length p) ->
  k - j <= 8 -> 8 - (k - j) < Z.of_nat fuel -> is_Some (score_loop fuel m p len j k num q).
Proof.
  revert k num q. induction fuel as [|fuel IH]; intros k num q Hj Hk Hlen Hl H8 Hf; [lia|].
  cbn [score_loop]. unfold MAXSOPATLEN. destruct ((k <? len - 1) && (k - j <? 8)) eqn:E; [|by eexists].
  destruct (readint16_is_Some p k) as [x ->]; [lia|lia|]. rewrite (uint_small 8) by lia. apply IH; lia.
Qed.

Lemma score_ok m p len j q : 0 <= j -> j + 2 <= len -> len <= 255 -> len <= Z.of_nat (length p) -> is_Some (score m p len j q).
Proof.
  intros. unfold score. destruct (score_loop_ok 10 m p len j j MAXSOPATLEN q) as [[[n x] k] ->]; [lia..|]. by eexists.
Qed.

Lemma best_loop_ok fuel m p len maxlen j best bp q : 0 <= j -> 2 <= len <= 255 -> len <= Z.of_nat (length p) ->
  j <= len -> len - j < Z.of_nat fuel -> 0 <= bp < len - 1 ->
  exists r, best_loop fuel m p len maxlen j best bp q = Some r /\ 0 <= r < len - 1.
Proof.
  revert j best bp q. induction fuel as [|fuel IH]; intros j best bp q Hj Hlen Hl Hjl Hf Hbp; [lia|].
  cbn [best_loop]. destruct (_ || _); [|eauto]. destruct (len <? j + 2) eqn:E; [eauto|].
  destruct (score_ok m p len j q) as [[num x] ->]; [lia..|]. rewrite (uint_small 8) by lia.
  destruct (num <? best); apply IH; lia.
Qed.

(** Merging a pattern of at least two bytes makes the filter accept it. *)
Lemma add_static_spec m p : tab_ok m -> (2 <= length p)%nat ->
  exists m' r, filter_add_static m p (Z.of_nat (length p)) = Some (m', r) /\ 2 <= r /\ tab_ok m' /\ mle m m' /\ accepts m' p.
Proof.
  intros Hok Hl. unfold filter_add_static, MAXPATLEN, MAXSOPATLEN.
  set (len := if 255 <? Z.of_nat (length p) then 255 else Z.of_nat (length p)).
  assert (2 <= len <= 255 /\ len <= Z.of_nat (length p)) as [Hlen Hlp] by (unfold len; case_match; lia).
  destruct (len <? 2) eqn:E; [lia|]. set (maxlen := if 4 <? len then _ else _).
  destruct (best_loop_ok 257 m p len maxlen 0 0xffffffff 0 0) as (bp & -> & Hbp); [lia..|].
  destruct (bp <? len - 1) eqn:E2; [|lia].
  set (l2 := if 8 <? len - bp then 8 else len - bp). assert (2 <= l2 <= 8 /\ l2 <= len - bp) as [Hl2 Hl2'] by (unfold l2; case_match; lia).
  destruct (set_loop_spec (Z.to_nat (l2 - 1)) m (drop (Z.to_nat bp) p) 0 0) as (m' & q' & -> & Hok' & Hle & HB & HE);
    [done|lia|rewrite length_drop; lia|].
  rewrite Z2Nat.id in * by lia. rewrite Z.add_0_l in *. destruct (l2 - 1 =? 0) eqn:E3; [lia|]. cbn [negb].
  destruct (set_end_spec m' (l2 - 1 - 1) q') as (Hok2 & Hle2 & Hbit); [done|lia|].
  do 2 eexists. split; [done|]. split; [lia|]. split; [done|]. split; [by transitivity m'|].
  exists bp, (l2 - 1). repeat split; try lia.
  - intros t q Ht Hq. apply Hle2, HB; [lia|]. by rewrite readint16_drop by lia.
  - intros q Hq. specialize (HE ltac:(lia)). rewrite readint16_drop in HE by lia.
    replace (bp + (l2 - 1) - 1) with (bp + (l2 - 1 - 1)) in Hq by lia. congruence.
Qed.

Lemma init_ok : tab_ok filter_init.
Proof. intros q. unfold Bq, Eq, filter_init. cbn. rewrite lookup_empty. cbn. lia. Qed.

Lemma add_all_spec ps m : tab_ok m -> Forall (fun p => (2 <= length p)%nat) ps ->
  exists m', add_all ps m = Some m' /\ tab_ok m' /\ mle m m' /\ Forall (accepts m') ps.
Proof.
  unfold add_all. revert m. induction ps as [|p ps IH]; intros m Hok Hps; cbn [foldl].
  { exists m. by split; [|split; [|split]]. }
  apply Forall_cons in Hps as [Hp Hps]. destruct (add_static_spec m p Hok Hp) as (m1 & r & E & _ & Hok1 & Hle1 & Hacc).
  rewrite E. destruct (IH m1 Hok1 Hps) as (m' & E' & Hok' & Hle' & Hall). exists m'. split; [done|]. split; [done|].
  split; [by transitivity m1|]. constructor; [by eapply accepts_mono|done].
Qed.

(** ** The search *)

(** The bytes [p] are at position [k] of the first [len] bytes of [data]. *)
Definition occurs (data : list Z) (len : Z) (p : list Z) (k : Z) : Prop :=
  0 <= k /\ k + Z.of_nat (length p) <= len /\
  forall i, 0 <= i < Z.of_nat (length p) -> bget data (k + i) = bget p i.

Lemma occurs_gram data len p k i : occurs data len p k -> 0 <= i -> i + 1 < Z.of_nat (length p) ->
  cli_readint16 data (k + i) = cli_readint16 p i.
Proof.
  intros (_ & _ & Ho) H1 H2. unfold cli_readint16. rewrite <- (Ho i) by lia.
  by rewrite <- Z.add_assoc, <- (Ho (i + 1)) by lia.
Qed.

(** One step of the automaton keeps a path alive. *)
Lemma shift_or_bit state b t : 0 <= t < 8 -> (0 < t -> Z.testbit state (t - 1) = false) -> Z.testbit b t = false ->
  Z.testbit (Z.lor (uint 8 (Z.shiftl state 1)) b) t = false.
Proof.
  intros Ht Hs Hb. rewrite Z.lor_spec, Hb, orb_false_r. unfold uint. rewrite Z.mod_pow2_bits_low, Z.shiftl_spec by lia.
  destruct (Z.eq_dec t 0) as [->|Hn]; [by rewrite Z.testbit_neg_r|]. apply Hs. lia.
Qed.

Lemma search_loop_finds n m data j state a l : 0 <= a -> 1 <= l <= 8 -> 0 <= j < a + l ->
  a + l - j <= Z.of_nat n -> a + l < Z.of_nat (length data) ->
  (a < j -> Z.testbit state (j - a - 1) = false) ->
  (forall t q, 0 <= t < l -> cli_readint16 data (a + t) = Some q -> Z.testbit (Bq m q) t = false) ->
  (forall q, cli_readint16 data (a + l - 1) = Some q -> Z.testbit (Eq m q) (l - 1) = false) ->
  exists r, search_loop n m data j state = Some (Some r) /\ 0 <= r < a + l.
Proof.
  intros Ha Hl. revert j state. induction n as [|n IH]; intros j state Hj Hn Hd Hs HB HE; [lia|].
  cbn [search_loop]. destruct (readint16_is_Some data j) as [q Hq]; [lia|lia|]. rewrite Hq.
  set (st := Z.lor _ (Bq m q)).
  assert (a <= j -> Z.testbit st (j - a) = false) as Hst.
  { intros Haj. apply shift_or_bit; [lia|intros; apply Hs; lia|]. apply HB; [lia|]. by replace (a + (j - a)) with j by lia. }
  destruct (negb (Z.lor st (Eq m q) =? 255)) eqn:E; [eexists; split; [done|lia]|].
  destruct (Z.eq_dec j (a + l - 1)) as [->|Hne].
  - exfalso. apply negb_false_iff, Z.eqb_eq in E.
    assert (Z.testbit (Z.lor st (Eq m q)) (l - 1) = false) as Hbit.
    { rewrite Z.lor_spec, (HE q Hq), orb_false_r. replace (l - 1) with (a + l - 1 - a) by lia. apply Hst. lia. }
    rewrite E in Hbit. assert (l - 1 = 0 \/ l - 1 = 1 \/ l - 1 = 2 \/ l - 1 = 3 \/ l - 1 = 4 \/ l - 1 = 5 \/ l - 1 = 6 \/ l - 1 = 7) as Hc by lia.
    by repeat destruct Hc as [Hc|Hc]; rewrite Hc in Hbit.
  - apply IH; auto; [lia..|]. intros Haj. replace (j + 1 - a - 1) with (j - a) by lia. apply Hst. lia.
Qed.

(** The search stays inside the data and its answer inside the buffer. *)
Lemma search_loop_total n m data j state : 0 <= j -> j + Z.of_nat n < Z.of_nat (length data) ->
  exists r, search_loop n m data j state = Some r /\ match r with Some x => j <= x < j + Z.of_nat n | None => True end.
Proof.
  revert j state. induction n as [|n IH]; intros j state Hj Hl; [by exists None|]. cbn [search_loop].
  destruct (readint16_is_Some data j) as [q ->]; [lia|lia|]. destruct (negb _); [exists (Some j); split; [done|lia]|].
  destruct (IH (j + 1) (Z.lor (uint 8 (Z.shiftl state 1)) (Bq m q))) as (r & E & Hr); [lia|lia|].
  exists r. split; [done|]. destruct r; [lia|done].
Qed.

Lemma search_ext_total m data len : len <= Z.of_nat (length data) ->
  exists r, filter_search_ext m data len = Some r /\ match r with Some x => 0 <= x < len - 1 | None => True end.
Proof.
  intros Hl. unfold filter_search_ext. destruct (len <? 2) eqn:E; [by exists None|].
  destruct (search_loop_total (Z.to_nat (len - 1)) m data 0 255) as (r & -> & Hr); [lia|lia|].
  exists r. split; [done|]. destruct r; [lia|done].
Qed.

Lemma search_accepts m data len p k : accepts m p -> occurs data len p k -> len <= Z.of_nat (length data) ->
  exists j, filter_search_ext m data len = Some (Some j) /\ 0 <= j <= k + Z.of_nat (length p) - 2.
Proof.
  intros (s & n & Hs & Hn & Hl & HB & HE) Ho Hlen. pose proof Ho as (Hk & Hkl & _).
  unfold filter_search_ext. destruct (len <? 2) eqn:E; [lia|].
  destruct (search_loop_finds (Z.to_nat (len - 1)) m data 0 255 (k + s) n) as (j & -> & Hj); [lia..| | |].
  - intros t q Ht Hq. apply HB; [lia|]. by rewrite <- Z.add_assoc, (occurs_gram data len p k) in Hq by (done || lia).
  - intros q Hq. apply HE. replace (k + s + n - 1) with (k + (s + n - 1)) in Hq by lia.
    by rewrite (occurs_gram data len p k) in Hq by (done || lia).
  - exists j. split; [done|]. lia.
Qed.

(** The prefilter has no false negatives: in a filter into which a set of
    patterns of at least two bytes was merged, the search reports a match in
    every buffer that contains one of them, at a position no later than the last
    gram of any occurrence, so that nothing before it need be scanned. *)
Theorem filter_no_false_negatives (ps : list (list Z)) (data : list Z) (len : Z) :
  Forall (fun p => (2 <= length p)%nat) ps -> len <= Z.of_nat (length data) ->
  exists m, add_all ps filter_init = Some m /\
    forall p k, p ∈ ps -> occurs data len p k ->
      exists j, filter_search_ext m data len = Some (Some j) /\ 0 <= j <= k + Z.of_nat (length p) - 2.
Proof.
  intros Hps Hlen. destruct (add_all_spec ps filter_init init_ok Hps) as (m & E & _ & _ & Hacc).
  exists m. split; [done|]. intros p k Hp Ho. rewrite Forall_forall in Hacc. eapply search_accepts; eauto.
Qed.

Definition abc : list Z := [97; 98; 99; 100; 101; 102; 103; 104; 105; 106].

Lemma filter_no_false_negatives_witness :
  exists m j, add_all [abc; [1; 2; 3]] filter_init = Some m /\
    filter_search_ext m [9; 1; 2; 3; 4] 5 = Some (Some j) /\ 0 <= j <= 2.
Proof.
  destruct (filter_no_false_negatives [abc; [1; 2; 3]] [9; 1; 2; 3; 4] 5) as (m & E & H).
  - repeat constructor; cbn; lia.
  - cbn. lia.
  - destruct (H [1; 2; 3] 1) as (j & Hj & Hr).
    + right. left.
    + split; [lia|]. split; [cbn; lia|]. intros i Hi. cbn in Hi.
      assert (i = 0 \/ i = 1 \/ i = 2) as [-> | [-> | ->]] by lia; reflexivity.
    + cbn in Hr. exists m, j. split; [done|]. split; [done|]. lia.
Defined.

(** Merging a pattern again: its best subpattern adds nothing to the filter, but
    its score is negative and, being unsigned, becomes the worst instead of the
    best, so that another subpattern is merged. *)
Lemma score_underflow :
  (let* (m, _) := filter_add_static filter_init abc 10 in score m abc 10 0 0) = Some (2 ^ 32 - 9, 26984) /\
  (let* (m, _) := filter_add_static filter_init abc 10 in best_loop 257 m abc 10 6 0 0xffffffff 0 0) = Some 1.
Proof. split; vm_compute; reflexivity. Qed.
End Filter.
