(* ===== verification/CalOff.v ===== *)
(** * Signature offsets (libclamav/matcher.c, [cli_caloff])

    Where in a file a signature may match: the decoding of the offset field of a
    signature, and the computation of offsets that are relative to the end, the
    entry point or the sections of the scanned file.  Strings are lists of
    characters without the terminator.  The parser of executable headers that a
    target uses ([cli_peheader] and the like) is a parameter, its result on the
    scanned file; [None] is an access outside an array or through NULL. *)
From stdpp Require Import base numbers list list_numbers.
From Stdlib Require Import ZArith Lia Bool.
From S2P Require Import Prelude Dlp.

Local Open Scope Z_scope.

Module CalOff.
Import Ctype Errors.

Definition CLI_OFF_ANY : Z := 0xffffffff.
Definition CLI_OFF_NONE : Z := 0xfffffffe.
Definition CLI_OFF_ABSOLUTE : Z := 1.
Definition CLI_OFF_EOF_MINUS : Z := 2.
Definition CLI_OFF_EP_PLUS : Z := 3.
Definition CLI_OFF_EP_MINUS : Z := 4.
Definition CLI_OFF_SL_PLUS : Z := 5.
Definition CLI_OFF_SX_PLUS : Z := 6.
Definition CLI_OFF_VERSION : Z := 7.
Definition CLI_OFF_MACRO : Z := 8.

(** [uint32_t offdata[4]]. *)
Record offdata := OffData { od0 : Z; od1 : Z; od2 : Z; od3 : Z }.
#[global] Instance offdata_eq_dec : EqDecision offdata.
Proof. solve_decision. Defined.

(** The parts of [struct cli_exe_info] that are used: the raw offsets of the
    sections, the entry point and the number of sections. *)
Record exeinfo := ExeInfo { section_raw : list Z; ep : Z; nsections : Z }.

(** [struct cli_target_info]. *)
Record target_info := TargetInfo { fsize : Z; exe : exeinfo; status : Z }.

(** [atoi] (as [strtol] with the result converted) stored in a [uint32_t], and
    [%u] of [sscanf]. *)
Definition atoi (s : list Z) : Z :=
  match scan_d 65 s with
  | Some (v, _) => uint 32 (Z.max (- 2 ^ 63) (Z.min v (2 ^ 63 - 1)))
  | None => 0
  end.
Definition scan_u (s : list Z) : option (Z * list Z) :=
  match scan_d 65 s with
  | Some (v, r) => Some (uint 32 (if 2 ^ 64 <=? Z.abs v then 2 ^ 64 - 1 else v), r)
  | None => None
  end.

(** [strchr(s, c)]: what precedes the first [c] and what follows it. *)
Fixpoint strchr (c : Z) (s : list Z) : option (list Z * list Z) :=
  match s with
  | [] => None
  | x :: s => if x =? c then Some ([], s) else let* (a, b) := strchr c s in Some (x :: a, b)
  end.

(** The formats [S%u+%u] and [$%u$]: the numbers, if all were converted. *)
Definition scan_S (s : list Z) : option (Z * Z) :=
  let* s := scan_lit 83 s in
  let* (n, s) := scan_u s in
  let* s := scan_lit 43 s in
  let* (v, _) := scan_u s in
  Some (n, v).
Definition scan_macro (s : list Z) : option Z :=
  let* s := scan_lit 36 s in
  let* (n, _) := scan_u s in
  Some n.

(** What the decoding leaves in [offdata], [*offset_min] and [*offset_max]. *)
Record decoded := Decoded { ret : Z; data : offdata; off_min : Z; off_max : Z }.

Definition EPplus : list Z := [69; 80; 43].
Definition EPminus : list Z := [69; 80; 45].
Definition SLplus : list Z := [83; 76; 43].
Definition EOFminus : list Z := [69; 79; 70; 45].
Definition VI : list Z := [86; 73].

(** The chain of tests on the copied string [cpy] (the comparison with ["SL+"]
    reads the original [offstr]); [d] is [offdata] with the shift stored. *)
Definition decode_kind (offstr cpy : list Z) (d : offdata) : decoded :=
  let fail d := Decoded CL_EMALFDB d CLI_OFF_NONE CLI_OFF_NONE in
  let ok d := Decoded CL_SUCCESS d CLI_OFF_NONE CLI_OFF_NONE in
  if prefixb EPplus cpy || prefixb EPminus cpy then
    let k := if default 0 (cpy !! 2%nat) =? 43 then CLI_OFF_EP_PLUS else CLI_OFF_EP_MINUS in
    if cli_isnumber (drop 3 cpy) =? 0 then fail (OffData k (od1 d) (od2 d) (od3 d))
    else ok (OffData k (atoi (drop 3 cpy)) (od2 d) (od3 d))
  else if default 0 (cpy !! 0%nat) =? 83 then
    if prefixb SLplus offstr then
      if cli_isnumber (drop 3 cpy) =? 0 then fail (OffData CLI_OFF_SL_PLUS (od1 d) (od2 d) (od3 d))
      else ok (OffData CLI_OFF_SL_PLUS (atoi (drop 3 cpy)) (od2 d) (od3 d))
    else
      match scan_S cpy with
      | Some (n, val) => ok (OffData CLI_OFF_SX_PLUS val (od2 d) n)
      | None => fail d
      end
  else if prefixb EOFminus cpy then
    if cli_isnumber (drop 4 cpy) =? 0 then fail (OffData CLI_OFF_EOF_MINUS (od1 d) (od2 d) (od3 d))
    else ok (OffData CLI_OFF_EOF_MINUS (atoi (drop 4 cpy)) (od2 d) (od3 d))
  else if prefixb VI cpy then ok (OffData CLI_OFF_VERSION (od1 d) (od2 d) (od3 d))
  else if bool_decide (36 ∈ cpy) then
    match scan_macro cpy with
    | None => fail d
    | Some n => if 32 <=? n then fail d else ok (OffData CLI_OFF_MACRO n (od2 d) (od3 d))
    end
  else if cli_isnumber cpy =? 0 then fail (OffData CLI_OFF_ABSOLUTE (od1 d) (od2 d) (od3 d))
  else
    let v := atoi cpy in
    Decoded CL_SUCCESS (OffData CLI_OFF_ABSOLUTE v (od2 d) (od3 d)) v (uint 32 (v + od2 d)).

(** [cli_caloff] with [info == NULL]: the decoding of an offset string. *)
Definition cli_caloff_decode (offstr : option (list Z)) (target : Z) (d : offdata) (mn mx : Z) : decoded :=
  match offstr with
  | None => Decoded CL_ENULLARG d mn mx
  | Some offstr =>
      if bool_decide (offstr = [42]) then
        Decoded CL_SUCCESS (OffData CLI_OFF_ANY (od1 d) (od2 d) (od3 d)) CLI_OFF_ANY CLI_OFF_ANY
      else if 64 <? Z.of_nat (length offstr) then Decoded CL_EMALFDB d mn mx
      else
        let go cpy d :=
          let r := decode_kind offstr cpy d in
          if negb (ret r =? CL_SUCCESS) then r
          else
            let k := od0 (data r) in
            if negb (k =? CLI_OFF_ANY) && negb (k =? CLI_OFF_ABSOLUTE)
               && negb (k =? CLI_OFF_EOF_MINUS) && negb (k =? CLI_OFF_MACRO)
               && (negb (target =? 1) && negb (target =? 6) && negb (target =? 9))
            then Decoded CL_EMALFDB (data r) (off_min r) (off_max r) else r in
        match strchr 44 offstr with
        | Some (cpy, shift) =>
            if cli_isnumber shift =? 0 then Decoded CL_EMALFDB d mn mx
            else go cpy (OffData (od0 d) (od1 d) (atoi shift) (od3 d))
        | None => go offstr (OffData (od0 d) (od1 d) 0 (od3 d))
        end
  end.

(** [cli_caloff] with target information: the result code, the information
    (filled in at the first call) and [*offset_min] and [*offset_max].  [want_max]
    says whether [offset_max] is not NULL. *)
Section Relative.
Context (einfo : option exeinfo) (map_len target : Z).

Definition relative (info : target_info) (d : offdata) (want_max : bool) (mn mx : Z)
    : option (Z * target_info * Z * Z) :=
  let finish mn mx :=
    let mx := if want_max then (if negb (mn =? CLI_OFF_NONE) then uint 32 (mn + od2 d) else CLI_OFF_NONE) else mx in
    Some (CL_SUCCESS, info, mn, mx) in
  if od0 d =? CLI_OFF_EOF_MINUS then finish (uint 32 (fsize info - od1 d)) mx
  else if od0 d =? CLI_OFF_EP_PLUS then finish (uint 32 (ep (exe info) + od1 d)) mx
  else if od0 d =? CLI_OFF_EP_MINUS then finish (uint 32 (ep (exe info) - od1 d)) mx
  else if od0 d =? CLI_OFF_SL_PLUS then
    let* raw := bget (section_raw (exe info)) (nsections (exe info) - 1) in finish (uint 32 (raw + od1 d)) mx
  else if od0 d =? CLI_OFF_SX_PLUS then
    if nsections (exe info) <=? od3 d then finish CLI_OFF_NONE mx
    else let* raw := bget (section_raw (exe info)) (od3 d) in finish (uint 32 (raw + od1 d)) mx
  else if od0 d =? CLI_OFF_VERSION then
    assert* want_max in finish CLI_OFF_ANY CLI_OFF_ANY
  else Some (CL_EARG, info, mn, mx).

Definition none_max (want_max : bool) (mx : Z) : Z := if want_max then CLI_OFF_NONE else mx.

Definition cli_caloff (info : target_info) (d : offdata) (want_max : bool) (mn mx : Z)
    : option (Z * target_info * Z * Z) :=
  if status info =? -1 then Some (CL_SUCCESS, info, CLI_OFF_NONE, none_max want_max mx)
  else if od0 d =? CLI_OFF_EOF_MINUS then
    relative (if fsize info =? 0 then TargetInfo map_len (exe info) (status info) else info) d want_max mn mx
  else if status info =? 0 then
    if negb (target =? 1) && negb (target =? 6) && negb (target =? 9) then Some (CL_EMALFDB, info, mn, mx)
    else
      match einfo with
      | None => Some (CL_SUCCESS, TargetInfo (fsize info) (exe info) (-1), CLI_OFF_NONE, none_max want_max mx)
      | Some e => relative (TargetInfo (fsize info) e 1) d want_max mn mx
      end
  else relative info d want_max mn mx.
End Relative.

Example absolute_range : cli_caloff_decode (Some [49; 50; 44; 53]) 0 (OffData 0 0 0 0) 0 0
  = Decoded CL_SUCCESS (OffData CLI_OFF_ABSOLUTE 12 5 0) 12 17.
Proof. reflexivity. Qed.
Example section_offset : cli_caloff_decode (Some [83; 50; 43; 49; 48]) 1 (OffData 0 0 0 0) 0 0
  = Decoded CL_SUCCESS (OffData CLI_OFF_SX_PLUS 10 0 2) CLI_OFF_NONE CLI_OFF_NONE.
Proof. reflexivity. Qed.

(** [cli_isnumber] does not look at the first character, so that a field which
    is not a number decodes as the absolute offset 0. *)
Lemma caloff_accepts_letters :
  cli_caloff_decode (Some [120; 49; 50]) 0 (OffData 0 0 0 0) 0 0
  = Decoded CL_SUCCESS (OffData CLI_OFF_ABSOLUTE 0 0 0) 0 0.
Proof. reflexivity. Qed.
End CalOff.
