(* ===== verification/QSort.v ===== *)
(** * Sorting (libclamav/qsort.c)

    [cli_qsort] is Bentley and McIlroy's quicksort.  The array is a list of
    elements of [es] bytes; the pointers are indices relative to the array the call
    sorts, and a recursive call, which gets a part of the array, replaces that part
    of the list.  Distances are kept in [int]s, in bytes, and truncated as the code
    does.  [None] is an access outside the array or to a part of an element. *)
From stdpp Require Import base numbers list list_numbers.
From Stdlib Require Import ZArith Lia Bool Sorting.Sorted.
From S2P Require Import Prelude.

Local Open Scope Z_scope.

Module QSort.

(** [CMP1]: the comparison when no function is given. *)
Definition CMP1 (a b : Z) : Z := sint 32 (a - b).

(** [int d = n * es], and the elements a distance in bytes stands for. *)
Definition int_bytes (es n : Z) : Z := sint 32 (n * es).
Definition elements (es d : Z) : option Z := if d mod es =? 0 then Some (d / es) else None.

Section Sort.
Context {A : Type} (cmp : A -> A -> Z) (es : Z).

(** [swap]: the size of an element is passed on as an [int], so that larger ones are
    exchanged in part only. *)
Definition swap (s : list A) (i j : Z) : option (list A) :=
  assert* (es <? 2 ^ 31) in
  let* t := bget s i in
  let* u := bget s j in
  let* s := bset s i u in
  bset s j t.

(** [for (pl = pm; pl > a && CMP(pl - es, pl) > 0; pl -= es) swap(pl, pl - es);] *)
Fixpoint ins_inner (pl : nat) (s : list A) : option (list A) :=
  match pl with
  | O => Some s
  | S pl' =>
      let* x := bget s (Z.of_nat pl') in
      let* y := bget s (Z.of_nat pl) in
      if 0 <? cmp x y then
        let* s := swap s (Z.of_nat pl) (Z.of_nat pl') in
        ins_inner pl' s
      else Some s
  end.

(** The outer loop of the insertion sort, [k] rounds from [pm] on. *)
Fixpoint ins_outer (k : nat) (pm : nat) (s : list A) : option (list A) :=
  match k with
  | O => Some s
  | S k => let* s := ins_inner pm s in ins_outer k (S pm) s
  end.

Definition insertion (s : list A) : option (list A) := ins_outer (length s - 1) 1 s.

(** [MED3] and [med3]: the index of the median of three elements. *)
Definition med3 (s : list A) (a b c : Z) : option Z :=
  let* xa := bget s a in
  let* xb := bget s b in
  let* xc := bget s c in
  Some (if cmp xa xb <? 0
        then (if cmp xb xc <? 0 then b else if cmp xa xc <? 0 then c else a)
        else (if 0 <? cmp xb xc then b else if cmp xa xc <? 0 then a else c)).

(** The choice of the pivot; [2 * d] must not overflow. *)
Definition pivot (s : list A) : option Z :=
  let n := Z.of_nat (length s) in
  let pm := n / 2 in
  if 7 <? n then
    let pl := 0 in
    let pn := n - 1 in
    if 40 <? n then
      let db := int_bytes es (n / 8) in
      let* d := elements es db in
      let* d2 := (if (- 2 ^ 31 <=? 2 * db) && (2 * db <? 2 ^ 31) then Some (2 * d) else None) in
      let* pl := med3 s pl (pl + d) (pl + d2) in
      let* pm := med3 s (pm - d) pm (pm + d) in
      let* pn := med3 s (pn - d2) (pn - d) pn in
      med3 s pl pm pn
    else med3 s pl pm pn
  else Some pm.

(** The variables of the partition. *)
Record part := Part { arr : list A; pa : Z; pb : Z; pc : Z; pd : Z; swap_cnt : bool }.

(** [while (pb <= pc && (r = CMP(pb, a)) <= 0)]. *)
Fixpoint up (fuel : nat) (p : part) : option part :=
  match fuel with
  | O => None
  | S fuel =>
      if pb p <=? pc p then
        let* x := bget (arr p) (pb p) in
        let* v := bget (arr p) 0 in
        let r := cmp x v in
        if r <=? 0 then
          if r =? 0 then
            let* s := swap (arr p) (pa p) (pb p) in
            up fuel (Part s (pa p + 1) (pb p + 1) (pc p) (pd p) true)
          else up fuel (Part (arr p) (pa p) (pb p + 1) (pc p) (pd p) (swap_cnt p))
        else Some p
      else Some p
  end.

(** [while (pb <= pc && (r = CMP(pc, a)) >= 0)]. *)
Fixpoint down (fuel : nat) (p : part) : option part :=
  match fuel with
  | O => None
  | S fuel =>
      if pb p <=? pc p then
        let* x := bget (arr p) (pc p) in
        let* v := bget (arr p) 0 in
        let r := cmp x v in
        if 0 <=? r then
          if r =? 0 then
            let* s := swap (arr p) (pc p) (pd p) in
            down fuel (Part s (pa p) (pb p) (pc p - 1) (pd p - 1) true)
          else down fuel (Part (arr p) (pa p) (pb p) (pc p - 1) (pd p) (swap_cnt p))
        else Some p
      else Some p
  end.

(** The endless loop around the two, left when the pointers have crossed. *)
Fixpoint partition (fuel : nat) (p : part) : option part :=
  match fuel with
  | O => None
  | S fuel =>
      let* p := up (S (length (arr p))) p in
      let* p := down (S (length (arr p))) p in
      if pc p <? pb p then Some p
      else
        let* s := swap (arr p) (pb p) (pc p) in
        partition fuel (Part s (pa p) (pb p + 1) (pc p - 1) (pd p) true)
  end.

(** [vecswap(a, b, n)]: [n] elements one by one. *)
Fixpoint vecswap (n : nat) (s : list A) (a b : Z) : option (list A) :=
  match n with
  | O => Some s
  | S n => let* s := swap s a b in vecswap n s (a + 1) (b + 1)
  end.

(** [vecswap(a, b - r, r)] with [r] in bytes. *)
Definition vecswap_bytes (r : Z) (s : list A) (a b : Z) : res (list A) :=
  if 0 <? r then let! k := of_opt (elements es r) in of_opt (vecswap (Z.to_nat k) s a (b - k)) else Ok s.

(** [cli_qsort], with fuel for the recursion and the jump back to [loop]. *)
Fixpoint qsort (fuel : nat) (s : list A) : res (list A) :=
  match fuel with
  | O => NoFuel
  | S fuel =>
      let n := Z.of_nat (length s) in
      if n <? 7 then of_opt (insertion s)
      else
        let! pm := of_opt (pivot s) in
        let! s := of_opt (swap s 0 pm) in
        let! p := of_opt (partition (length s) (Part s 1 1 (n - 1) (n - 1) false)) in
        if negb (swap_cnt p) then of_opt (insertion (arr p))
        else
          let! s := vecswap_bytes (int_bytes es (Z.min (pa p) (pb p - pa p))) (arr p) 0 (pb p) in
          let! s := vecswap_bytes (int_bytes es (Z.min (pd p - pc p) (n - pd p - 1))) s (pb p) n in
          let r := int_bytes es (pb p - pa p) in
          let! s := (if es <? uint 64 r then
                       let k := uint 64 r / es in
                       if n <? k then Undef
                       else let! t := qsort fuel (take (Z.to_nat k) s) in Ok (t ++ drop (Z.to_nat k) s)
                     else Ok s) in
          let r := int_bytes es (pd p - pc p) in
          if es <? uint 64 r then
            let! k := of_opt (elements es r) in
            if (k <? 0) || (n <? k) then Undef
            else let! t := qsort fuel (drop (Z.to_nat (n - k)) s) in Ok (take (Z.to_nat (n - k)) s ++ t)
          else Ok s
  end.

(** [cli_qsort(a, n, es, cmp)] on the [n] elements of the array. *)
Definition cli_qsort (s : list A) : res (list A) := qsort (S (length s)) s.
End Sort.

Example qsort_runs :
  cli_qsort CMP1 4 [5; 3; 9; 1; 7; 7; 2; 8; 3; 3; 0; 12; 11; 4] = Ok [0; 1; 2; 3; 3; 3; 4; 5; 7; 7; 8; 9; 11; 12].
Proof. vm_compute. reflexivity. Qed.
Example qsort_runs2 :
  cli_qsort CMP1 4 ((fun i => (i * 37) `mod` 61) <$> seqZ 0 61) = Ok (seqZ 0 61).
Proof. vm_compute. reflexivity. Qed.

(** Elements more than 2^31 apart are ordered the wrong way round. *)
Lemma qsort_wraps : cli_qsort CMP1 4 [0; 3000000000] = Ok [3000000000; 0].
Proof. vm_compute. reflexivity. Qed.
End QSort.
