(* ===== verification/QSortFacts.v ===== *)
(** * [cli_qsort] sorts

    The result is a sorted permutation of the array, for every comparison that
    agrees with an order of the elements.  The proofs work with the keys of the
    elements by position. *)
From stdpp Require Import base numbers list list_numbers.
From Stdlib Require Import ZArith Lia Bool Sorting.Sorted.
From S2P Require Import Prelude QSort.

Local Open Scope Z_scope.

Module QSortFacts.
Import QSort.

Section Sort.
Context {A : Type} (cmp : A -> A -> Z) (es : Z) (ord : A -> Z) (D : A -> Prop).
Hypothesis cmp_lt : forall x y, D x -> D y -> cmp x y < 0 <-> ord x < ord y.
Hypothesis cmp_eq : forall x y, D x -> D y -> cmp x y = 0 <-> ord x = ord y.
Hypothesis Hes : 1 <= es < 2 ^ 31.

Abbreviation size s := (Z.of_nat (length s)).

(** The key of the element at a position. *)
Definition key (s : list A) (i : Z) : Z := match bget s i with Some x => ord x | None => 0 end.

Lemma get_key s i : Forall D s -> 0 <= i < size s -> exists x, bget s i = Some x /\ key s i = ord x /\ D x.
Proof.
  intros HD Hi. destruct (bget_is_Some s i Hi) as [x Hx]. exists x. split; [done|]. unfold key. rewrite Hx. split; [done|].
  rewrite bget_lookup in Hx by lia. by eapply Forall_lookup_1 in HD.
Qed.

(** A step that rearranges the array. *)
Record step (s s' : list A) : Prop := {
  st_perm : s' ≡ₚ s;
  st_D : Forall D s';
  st_size : length s' = length s;
}.

Lemma step_refl s : Forall D s -> step s s.
Proof. by constructor. Qed.

Lemma step_trans s1 s2 s3 : step s1 s2 -> step s2 s3 -> step s1 s3.
Proof. intros [P1 _ L1] [P2 D2 L2]. constructor; [by transitivity s2|done|congruence]. Qed.

Lemma swap_spec s i j : Forall D s -> 0 <= i < size s -> 0 <= j < size s ->
  exists s', swap es s i j = Some s' /\ step s s' /\ key s' i = key s j /\ key s' j = key s i /\
    forall k, 0 <= k -> k <> i -> k <> j -> key s' k = key s k.
Proof.
  intros HD Hi Hj. unfold swap. replace (es <? 2 ^ 31) with true by lia. destruct (get_key s i HD Hi) as (x & Hx & _). destruct (get_key s j HD Hj) as (y & Hy & _).
  rewrite Hx, Hy. rewrite bset_is_Some, bset_is_Some by (rewrite ?length_insert; lia). eexists. split; [done|].
  assert (<[Z.to_nat j:=x]> (<[Z.to_nat i:=y]> s) ≡ₚ s) as Hp.
  { rewrite bget_lookup in Hx, Hy by lia. by apply Permutation_insert_swap. }
  split; [constructor; [done|by rewrite Hp|by rewrite !length_insert]|].
  unfold key. rewrite Hx, Hy. split; [|split].
  - destruct (Z.eq_dec i j) as [->|Hn].
    + rewrite bget_insert_eq by (rewrite length_insert; lia). congruence.
    + rewrite bget_insert_ne, bget_insert_eq by (rewrite ?length_insert; lia). done.
  - rewrite bget_insert_eq by (rewrite length_insert; lia). done.
  - intros k Hk Hki Hkj. by rewrite !bget_insert_ne by lia.
Qed.

(** ** Insertion sort *)

Definition incr (hi : Z) (s : list A) : Prop := forall i j, 0 <= i < j -> j < hi -> key s i <= key s j.

Lemma ins_inner_spec pl s hi : Forall D s -> Z.of_nat pl < hi -> hi <= size s ->
  (forall i j, 0 <= i < j -> j < hi -> j <> Z.of_nat pl -> key s i <= key s j) ->
  exists s', ins_inner cmp es pl s = Some s' /\ step s s' /\ incr hi s'.
Proof.
  revert s. induction pl as [|pl IH]; intros s HD Hp Hhi Hs.
  { exists s. split; [done|]. split; [by apply step_refl|]. intros i j Hi Hj. apply Hs; lia. }
  cbn [ins_inner]. destruct (get_key s (Z.of_nat pl) HD) as (x & Hx & Kx & Dx); [lia|].
  destruct (get_key s (Z.of_nat (S pl)) HD) as (y & Hy & Ky & Dy); [lia|]. rewrite Hx, Hy.
  pose proof (cmp_lt x y Dx Dy) as Hlt. pose proof (cmp_eq x y Dx Dy) as Heq.
  destruct (0 <? cmp x y) eqn:E.
  - destruct (swap_spec s (Z.of_nat (S pl)) (Z.of_nat pl) HD) as (s1 & -> & Hst & K1 & K2 & K3); [lia|lia|].
    destruct (IH s1) as (s2 & -> & Hst2 & Hinc); [apply Hst|lia|rewrite (st_size _ _ Hst); lia| |].
    + intros i j Hij Hj Hn. destruct (Z.eq_dec j (Z.of_nat (S pl))) as [->|Hj2].
      * rewrite K1. destruct (Z.eq_dec i (Z.of_nat pl)) as [->|]; [lia|]. rewrite K3 by lia. apply Hs; lia.
      * rewrite (K3 j) by lia. destruct (Z.eq_dec i (Z.of_nat pl)) as [->|Hi1]; [rewrite K2; apply Hs; lia|].
        destruct (Z.eq_dec i (Z.of_nat (S pl))) as [->|Hi2]; [rewrite K1; apply Hs; lia|]. rewrite K3 by lia. apply Hs; lia.
    + exists s2. split; [done|]. split; [by eapply step_trans|done].
  - exists s. split; [done|]. split; [by apply step_refl|]. intros i j Hij Hj.
    destruct (Z.eq_dec j (Z.of_nat (S pl))) as [->|]; [|by apply Hs].
    destruct (Z.eq_dec i (Z.of_nat pl)) as [->|]; [lia|]. specialize (Hs i (Z.of_nat pl)). lia.
Qed.

Lemma ins_outer_spec k pm s : Forall D s -> (1 <= pm)%nat -> (pm + k = length s)%nat -> incr (Z.of_nat pm) s ->
  exists s', ins_outer cmp es k pm s = Some s' /\ step s s' /\ incr (size s') s'.
Proof.
  revert pm s. induction k as [|k IH]; intros pm s HD H1 Hl Hinc; cbn [ins_outer].
  { exists s. split; [done|]. split; [by apply step_refl|]. by replace (size s) with (Z.of_nat pm) by lia. }
  destruct (ins_inner_spec pm s (Z.of_nat pm + 1) HD) as (s1 & -> & Hst & Hi1); [lia|lia| |].
  { intros i j Hij Hj Hn. apply Hinc; lia. }
  destruct (IH (S pm) s1) as (s2 & -> & Hst2 & Hi2); [apply Hst|lia|rewrite (st_size _ _ Hst); lia|by replace (Z.of_nat (S pm)) with (Z.of_nat pm + 1) by lia|].
  exists s2. split; [done|]. split; [by eapply step_trans|done].
Qed.

Lemma insertion_spec s : Forall D s -> exists s', insertion cmp es s = Some s' /\ step s s' /\ incr (size s') s'.
Proof.
  intros HD. unfold insertion. destruct s as [|x s].
  - exists []. split; [done|]. split; [by apply step_refl|]. intros i j Hi Hj. cbn in Hj. lia.
  - apply ins_outer_spec; [done|lia|cbn; lia|]. intros i j Hi Hj. lia.
Qed.

(** ** The pivot *)

Lemma med3_spec s a b c : 0 <= a < size s -> 0 <= b < size s -> 0 <= c < size s ->
  exists m, med3 cmp s a b c = Some m /\ 0 <= m < size s.
Proof.
  intros Ha Hb Hc. unfold med3. destruct (bget_is_Some s a Ha) as [x ->]. destruct (bget_is_Some s b Hb) as [y ->].
  destruct (bget_is_Some s c Hc) as [z ->]. eexists. split; [done|]. repeat case_match; lia.
Qed.

(** Distances are not truncated in arrays of less than 2^31 bytes. *)
Lemma int_bytes_small n : 0 <= n -> n * es < 2 ^ 31 -> int_bytes es n = n * es.
Proof using Hes. intros Hn Hb. unfold int_bytes. apply sint_small; [lia|]. change (2 ^ (32 - 1)) with (2 ^ 31). nia. Qed.

Lemma elements_mul n : elements es (n * es) = Some n.
Proof using Hes. unfold elements. rewrite Z.mod_mul, Z.div_mul by lia. done. Qed.

Lemma vecswap_bytes_small n (s : list A) a b : 0 <= n -> n * es < 2 ^ 31 ->
  vecswap_bytes es (int_bytes es n) s a b = of_opt (vecswap es (Z.to_nat n) s a (b - n)).
Proof using Hes.
  intros Hn Hb. rewrite int_bytes_small by done. unfold vecswap_bytes. rewrite elements_mul. destruct (Z.ltb_spec 0 (n * es)); [done|].
  assert (n = 0) as -> by nia. done.
Qed.

Lemma pivot_spec s : 7 <= size s -> size s * es < 2 ^ 31 -> exists m, pivot cmp es s = Some m /\ 0 <= m < size s.
Proof using Hes.
  intros Hn Hb. unfold pivot. set (n := size s) in *.
  assert (0 <= n / 2 < n) by (split; [apply Z.div_pos|apply Z.div_lt_upper_bound]; lia).
  destruct (7 <? n) eqn:E7; [|eauto]. destruct (40 <? n) eqn:E40; [|by apply med3_spec; fold n; lia].
  pose proof (Z.div_mod n 2 ltac:(lia)). pose proof (Z.mod_pos_bound n 2 ltac:(lia)).
  pose proof (Z.div_mod n 8 ltac:(lia)). pose proof (Z.mod_pos_bound n 8 ltac:(lia)).
  cbv zeta. rewrite int_bytes_small, elements_mul by nia.
  replace ((- 2 ^ 31 <=? 2 * (n / 8 * es)) && (2 * (n / 8 * es) <? 2 ^ 31)) with true by nia.
  destruct (med3_spec s 0 (0 + n / 8) (0 + 2 * (n / 8))) as (pl & -> & Hpl); [fold n; lia..|].
  destruct (med3_spec s (n / 2 - n / 8) (n / 2) (n / 2 + n / 8)) as (pm & -> & Hpm); [fold n; lia..|].
  destruct (med3_spec s (n - 1 - 2 * (n / 8)) (n - 1 - n / 8) (n - 1)) as (pn & -> & Hpn); [fold n; lia..|].
  by apply med3_spec.
Qed.

(** ** The partition *)

(** The ends hold the elements equal to the pivot, then come the smaller ones on
    the left and the greater ones on the right; those from [pb] to [pc] have not
    been looked at. *)
Record pinv (v : Z) (n : nat) (p : part) : Prop := {
  pi_size : length (arr p) = n;
  pi_D : Forall D (arr p);
  pi_bounds : 1 <= pa p <= pb p /\ pb p <= pc p + 1 /\ pc p <= pd p <= Z.of_nat n - 1;
  pi_eq1 : forall i, 0 <= i < pa p -> key (arr p) i = v;
  pi_lt : forall i, pa p <= i < pb p -> key (arr p) i < v;
  pi_gt : forall i, pc p < i <= pd p -> v < key (arr p) i;
  pi_eq2 : forall i, pd p < i < Z.of_nat n -> key (arr p) i = v;
}.

Lemma up_spec v n fuel p : pinv v n p -> pc p - pb p + 1 < Z.of_nat fuel ->
  exists p', up cmp es fuel p = Some p' /\ pinv v n p' /\ step (arr p) (arr p') /\ pc p' = pc p /\ pb p <= pb p' /\
    (pb p' <= pc p' -> v < key (arr p') (pb p')).
Proof.
  revert p. induction fuel as [|fuel IH]; intros p Hp Hf.
  { destruct Hp. lia. }
  pose proof Hp as [Hn HD Hb He1 Hl Hg He2]. cbn [up]. destruct (pb p <=? pc p) eqn:E.
  2:{ exists p. split; [done|]. split; [done|]. split; [by apply step_refl|]. split; [done|]. split; lia. }
  destruct (get_key (arr p) (pb p) HD) as (x & Hx & Kx & Dx); [lia|].
  destruct (get_key (arr p) 0 HD) as (y & Hy & Ky & Dy); [lia|]. rewrite Hx, Hy.
  rewrite (He1 0) in Ky by lia. pose proof (cmp_lt x y Dx Dy) as Hlt. pose proof (cmp_eq x y Dx Dy) as Heq.
  destruct (cmp x y <=? 0) eqn:Er.
  2:{ exists p. split; [done|]. split; [done|]. split; [by apply step_refl|]. split; [done|]. split; [lia|]. intros _. lia. }
  destruct (cmp x y =? 0) eqn:E0.
  - destruct (swap_spec (arr p) (pa p) (pb p) HD) as (s' & -> & Hst & K1 & K2 & K3); [lia|lia|].
    assert (key (arr p) (pb p) = v) as Kv by lia.
    edestruct (IH (Part s' (pa p + 1) (pb p + 1) (pc p) (pd p) true)) as (p' & E' & Hp' & Hst' & Hrest); [|cbn; lia|].
    { constructor; cbn; [rewrite (st_size _ _ Hst); done|apply Hst|lia|..]; intros i Hi.
      - destruct (Z.eq_dec i (pa p)) as [->|]; [congruence|]. rewrite K3 by lia. apply He1. lia.
      - destruct (Z.eq_dec i (pb p)) as [->|]; [rewrite K2; apply Hl; lia|]. rewrite K3 by lia. apply Hl. lia.
      - rewrite K3 by lia. apply Hg. lia.
      - rewrite K3 by lia. apply He2. lia. }
    cbn in Hst', Hrest. exists p'. split; [done|]. split; [done|]. split; [by eapply step_trans|].
    destruct Hrest as (H1 & H2 & H3). split; [done|]. split; [lia|done].
  - edestruct (IH (Part (arr p) (pa p) (pb p + 1) (pc p) (pd p) (swap_cnt p))) as (p' & E' & Hp' & Hst' & Hrest); [|cbn; lia|].
    { constructor; cbn; try done; [lia|]. intros i Hi. destruct (Z.eq_dec i (pb p)) as [->|]; [lia|]. apply Hl. lia. }
    cbn in Hst', Hrest. exists p'. split; [done|]. split; [done|]. split; [done|].
    destruct Hrest as (H1 & H2 & H3). split; [done|]. split; [lia|done].
Qed.

Lemma down_spec v n fuel p : pinv v n p -> pc p - pb p + 1 < Z.of_nat fuel -> (pb p <= pc p -> v < key (arr p) (pb p)) ->
  exists p', down cmp es fuel p = Some p' /\ pinv v n p' /\ step (arr p) (arr p') /\ pb p' = pb p /\ pc p' <= pc p /\
    (pb p' <= pc p' -> v < key (arr p') (pb p') /\ key (arr p') (pc p') < v).
Proof.
  revert p. induction fuel as [|fuel IH]; intros p Hp Hf Hpb.
  { destruct Hp. lia. }
  pose proof Hp as [Hn HD Hb He1 Hl Hg He2]. cbn [down]. destruct (pb p <=? pc p) eqn:E.
  2:{ exists p. split; [done|]. split; [done|]. split; [by apply step_refl|]. split; [done|]. split; lia. }
  specialize (Hpb ltac:(lia)).
  destruct (get_key (arr p) (pc p) HD) as (x & Hx & Kx & Dx); [lia|].
  destruct (get_key (arr p) 0 HD) as (y & Hy & Ky & Dy); [lia|]. rewrite Hx, Hy.
  rewrite (He1 0) in Ky by lia. pose proof (cmp_lt x y Dx Dy) as Hlt. pose proof (cmp_eq x y Dx Dy) as Heq.
  destruct (0 <=? cmp x y) eqn:Er.
  2:{ exists p. split; [done|]. split; [done|]. split; [by apply step_refl|]. split; [done|]. split; [lia|]. intros _. split; [done|lia]. }
  destruct (cmp x y =? 0) eqn:E0.
  - assert (key (arr p) (pc p) = v) as Kv by lia.
    assert (pb p < pc p) as Hlt2 by (destruct (Z.eq_dec (pb p) (pc p)) as [E2|]; [rewrite E2 in Hpb; lia|lia]).
    destruct (swap_spec (arr p) (pc p) (pd p) HD) as (s' & -> & Hst & K1 & K2 & K3); [lia|lia|].
    edestruct (IH (Part s' (pa p) (pb p) (pc p - 1) (pd p - 1) true)) as (p' & E' & Hp' & Hst' & Hrest); [|cbn; lia|..].
    { constructor; cbn; [rewrite (st_size _ _ Hst); done|apply Hst|lia|..]; intros i Hi.
      - rewrite K3 by lia. apply He1. lia.
      - rewrite K3 by lia. apply Hl. lia.
      - destruct (Z.eq_dec i (pc p)) as [->|]; [rewrite K1; apply Hg; lia|]. rewrite K3 by lia. apply Hg. lia.
      - destruct (Z.eq_dec i (pd p)) as [->|]; [congruence|]. rewrite K3 by lia. apply He2. lia. }
    { cbn. intros _. rewrite K3 by lia. done. }
    cbn in Hst', Hrest. exists p'. split; [done|]. split; [done|]. split; [by eapply step_trans|].
    destruct Hrest as (H1 & H2 & H3). split; [done|]. split; [lia|done].
  - edestruct (IH (Part (arr p) (pa p) (pb p) (pc p - 1) (pd p) (swap_cnt p))) as (p' & E' & Hp' & Hst' & Hrest); [|cbn; lia|..].
    { constructor; cbn; try done; [lia|]. intros i Hi. destruct (Z.eq_dec i (pc p)) as [->|]; [lia|]. apply Hg. lia. }
    { cbn. intros _. done. }
    cbn in Hst', Hrest. exists p'. split; [done|]. split; [done|]. split; [done|].
    destruct Hrest as (H1 & H2 & H3). split; [done|]. split; [lia|done].
Qed.

Lemma partition_spec v n fuel p : pinv v n p -> pc p - pb p + 1 < Z.of_nat fuel ->
  exists p', partition cmp es fuel p = Some p' /\ pinv v n p' /\ step (arr p) (arr p') /\ pb p' = pc p' + 1.
Proof.
  revert p. induction fuel as [|fuel IH]; intros p Hp Hf.
  { destruct Hp. lia. }
  pose proof Hp as [Hn HD Hb _ _ _ _]. cbn [partition].
  destruct (up_spec v n (S (length (arr p))) p Hp) as (p1 & -> & Hp1 & Hst1 & Hpc1 & Hpb1 & Hk1); [lia|].
  pose proof Hp1 as [Hn1 HD1 Hb1 _ _ _ _].
  destruct (down_spec v n (S (length (arr p1))) p1 Hp1) as (p2 & -> & Hp2 & Hst2 & Hpb2 & Hpc2 & Hk2); [lia|done|].
  pose proof Hp2 as [Hn2 HD2 Hb2 He1 Hl Hg He2]. destruct (pc p2 <? pb p2) eqn:E.
  - exists p2. split; [done|]. split; [done|]. split; [by eapply step_trans|lia].
  - destruct (Hk2 ltac:(lia)) as [Ka Kb].
    assert (pb p2 < pc p2) as Hlt by (destruct (Z.eq_dec (pb p2) (pc p2)) as [E2|]; [rewrite E2 in Ka; lia|lia]).
    destruct (swap_spec (arr p2) (pb p2) (pc p2) HD2) as (s' & -> & Hst & K1 & K2 & K3); [lia|lia|].
    edestruct (IH (Part s' (pa p2) (pb p2 + 1) (pc p2 - 1) (pd p2) true)) as (p' & E' & Hp' & Hst' & Hrest); [|cbn; lia|..].
    { constructor; cbn; [rewrite (st_size _ _ Hst); done|apply Hst|lia|..]; intros i Hi.
      - rewrite K3 by lia. apply He1. lia.
      - destruct (Z.eq_dec i (pb p2)) as [->|]; [lia|]. rewrite K3 by lia. apply Hl. lia.
      - destruct (Z.eq_dec i (pc p2)) as [->|]; [lia|]. rewrite K3 by lia. apply Hg. lia.
      - rewrite K3 by lia. apply He2. lia. }
    cbn in Hst', Hrest. exists p'. split; [done|]. split; [done|]. split; [|done].
    eapply step_trans; [|exact Hst']. eapply step_trans; [|exact Hst]. by eapply step_trans.
Qed.

(** ** Moving the equal elements to the middle *)

Lemma vecswap_spec k s a b : Forall D s -> 0 <= a -> a + Z.of_nat k <= b -> b + Z.of_nat k <= size s ->
  exists s', vecswap es k s a b = Some s' /\ step s s' /\
    forall i, 0 <= i -> key s' i = if (a <=? i) && (i <? a + Z.of_nat k) then key s (b + (i - a))
                         else if (b <=? i) && (i <? b + Z.of_nat k) then key s (a + (i - b)) else key s i.
Proof.
  revert s a b. induction k as [|k IH]; intros s a b HD Ha Hab Hb; cbn [vecswap].
  { exists s. split; [done|]. split; [by apply step_refl|]. intros i Hi.
    change (Z.of_nat 0) with 0. destruct ((a <=? i) && _) eqn:E1; [lia|]. destruct ((b <=? i) && _) eqn:E2; [lia|]. done. }
  destruct (swap_spec s a b HD) as (s1 & -> & Hst & K1 & K2 & K3); [lia|lia|].
  destruct (IH s1 (a + 1) (b + 1)) as (s2 & -> & Hst2 & K); [apply Hst|lia|lia|rewrite (st_size _ _ Hst); lia|].
  exists s2. split; [done|]. split; [by eapply step_trans|]. intros i Hi. rewrite K, Nat2Z.inj_succ by lia. unfold Z.succ.
  destruct (Z.eq_dec i a) as [->|Hia].
  { repeat (case_match; try lia). rewrite K1. f_equal. lia. }
  destruct (Z.eq_dec i b) as [->|Hib].
  { repeat (case_match; try lia). rewrite K2. f_equal. lia. }
  repeat (case_match; try lia).
  - rewrite K3 by lia. f_equal. lia.
  - rewrite K3 by lia. f_equal. lia.
  - rewrite K3 by lia. done.
Qed.

(** ** Sorted lists *)

Definition sortedl : list A -> Prop := StronglySorted (fun x y => ord x <= ord y).

Lemma key_cons x s i : 0 <= i -> key (x :: s) (i + 1) = key s i.
Proof.
  intros Hi. unfold key. rewrite !bget_lookup by lia. replace (Z.to_nat (i + 1)) with (S (Z.to_nat i)) by lia. done.
Qed.

Lemma key_Forall (P : Z -> Prop) s : (forall i, 0 <= i < size s -> P (key s i)) -> Forall (fun x => P (ord x)) s.
Proof.
  induction s as [|x s IH]; intros H; constructor.
  - apply (H 0). cbn. lia.
  - apply IH. intros i Hi. rewrite <- (key_cons x s i) by lia. apply H. cbn [length]. lia.
Qed.

Lemma incr_sortedl s : incr (size s) s -> sortedl s.
Proof.
  induction s as [|x s IH]; intros H; constructor.
  - apply IH. intros i j Hij Hj. rewrite <- (key_cons x s i), <- (key_cons x s j) by lia. apply H; [lia|cbn [length]; lia].
  - apply (key_Forall (fun k => ord x <= k)). intros i Hi. rewrite <- (key_cons x s i) by lia.
    apply (H 0 (i + 1)); [lia|cbn [length]; lia].
Qed.

Lemma sortedl_short s : (length s <= 1)%nat -> sortedl s.
Proof. destruct s as [|x [|y s]]; cbn; intros; [constructor|by repeat constructor|lia]. Qed.

Lemma sortedl_eq v s : Forall (fun x => ord x = v) s -> sortedl s.
Proof.
  induction 1 as [|x s Hx Hs IH]; constructor; [done|]. eapply Forall_impl; [exact Hs|]. intros y Hy. cbn in Hy. lia.
Qed.

Lemma sortedl_app v s t : sortedl s -> sortedl t -> Forall (fun x => ord x <= v) s -> Forall (fun x => v <= ord x) t ->
  sortedl (s ++ t).
Proof.
  induction 1 as [|x s Hs IH Hx]; cbn; intros Ht Hls Hlt; [done|]. apply Forall_cons in Hls as [Hxv Hls].
  constructor; [by apply IH|]. apply Forall_app. split; [done|]. eapply Forall_impl; [exact Hlt|]. cbn. lia.
Qed.

Lemma key_take n s i : 0 <= i < n -> key (take (Z.to_nat n) s) i = key s i.
Proof. intros Hi. unfold key. rewrite !bget_lookup, lookup_take_lt by lia. done. Qed.

Lemma key_drop n s i : 0 <= n -> 0 <= i -> key (drop (Z.to_nat n) s) i = key s (n + i).
Proof. intros Hn Hi. unfold key. by rewrite bget_drop by lia. Qed.

(** What the array looks like before the recursive calls. *)
Record parted (v L R : Z) (s : list A) : Prop := {
  pt_bounds : 0 <= L /\ 0 <= R /\ L + R < size s;
  pt_lt : forall i, 0 <= i < L -> key s i < v;
  pt_eq : forall i, L <= i < size s - R -> key s i = v;
  pt_gt : forall i, size s - R <= i < size s -> v < key s i;
}.

Lemma middle_spec v n p : pinv v n p -> pb p = pc p + 1 ->
  exists s1 s2, vecswap es (Z.to_nat (Z.min (pa p) (pb p - pa p))) (arr p) 0 (pb p - Z.min (pa p) (pb p - pa p)) = Some s1 /\
    vecswap es (Z.to_nat (Z.min (pd p - pc p) (Z.of_nat n - pd p - 1))) s1 (pb p)
      (Z.of_nat n - Z.min (pd p - pc p) (Z.of_nat n - pd p - 1)) = Some s2 /\
    step (arr p) s2 /\ parted v (pb p - pa p) (pd p - pc p) s2.
Proof.
  intros [Hn HD Hb He1 Hl Hg He2] Hpb. set (r1 := Z.min (pa p) (pb p - pa p)). set (r2 := Z.min (pd p - pc p) (Z.of_nat n - pd p - 1)).
  assert (r1 = Z.min (pa p) (pb p - pa p) /\ r2 = Z.min (pd p - pc p) (Z.of_nat n - pd p - 1)) as [Hr1 Hr2] by done. clearbody r1 r2.
  destruct (vecswap_spec (Z.to_nat r1) (arr p) 0 (pb p - r1) HD) as (s1 & E1 & Hst1 & K1); [lia..|].
  destruct (vecswap_spec (Z.to_nat r2) s1 (pb p) (Z.of_nat n - r2) (st_D _ _ Hst1)) as (s2 & E2 & Hst2 & K2);
    [lia|lia|rewrite (st_size _ _ Hst1); lia|].
  exists s1, s2. split; [done|]. split; [done|]. split; [by eapply step_trans|].
  assert (size s2 = Z.of_nat n) as Hsz by (rewrite (st_size _ _ Hst2), (st_size _ _ Hst1); lia).
  rewrite Z2Nat.id in K1, K2 by lia. constructor; [lia|..]; intros i Hi; rewrite K2 by lia; rewrite ?Hsz in Hi.
  - destruct ((pb p <=? i) && (i <? pb p + r2)) eqn:Ea; [lia|]. destruct ((Z.of_nat n - r2 <=? i) && (i <? Z.of_nat n - r2 + r2)) eqn:Eb; [lia|].
    rewrite K1 by lia. repeat case_match; first [lia|apply Hl; lia].
  - destruct ((pb p <=? i) && (i <? pb p + r2)) eqn:Ea.
    + rewrite K1 by lia. repeat (case_match; try lia). apply He2. lia.
    + destruct ((Z.of_nat n - r2 <=? i) && (i <? Z.of_nat n - r2 + r2)) eqn:Eb; [lia|].
      rewrite K1 by lia. repeat (case_match; try lia); destruct (Z.lt_ge_cases i (pb p)); first [apply He1; lia|apply He2; lia].
  - destruct ((pb p <=? i) && (i <? pb p + r2)) eqn:Ea.
    + lia.
    + destruct ((Z.of_nat n - r2 <=? i) && (i <? Z.of_nat n - r2 + r2)) eqn:Eb; rewrite K1 by lia; repeat (case_match; try lia); apply Hg; lia.
Qed.

(** A list that consists of three parts, the outer ones sorted by themselves. *)
Lemma parted_sort v L R s l' r' : parted v L R s -> Forall D s ->
  l' ≡ₚ take (Z.to_nat L) s -> r' ≡ₚ drop (Z.to_nat (size s - R)) s -> sortedl l' -> sortedl r' ->
  let s' := (l' ++ take (Z.to_nat (size s - R - L)) (drop (Z.to_nat L) s)) ++ r' in step s s' /\ sortedl s'.
Proof.
  intros [Hb Hl He Hg] HD Pl Pr Sl Sr s'. set (m := take (Z.to_nat (size s - R - L)) (drop (Z.to_nat L) s)) in *.
  assert (s = (take (Z.to_nat L) s ++ m) ++ drop (Z.to_nat (size s - R)) s) as Hs.
  { unfold m. rewrite take_take_drop. replace (Z.to_nat L + Z.to_nat (size s - R - L))%nat with (Z.to_nat (size s - R)) by lia.
    by rewrite take_drop. }
  assert (s' ≡ₚ s) as Hp by (rewrite Hs; unfold s'; by rewrite Pl, Pr).
  split; [constructor; [done|by rewrite Hp|by apply Permutation_length]|].
  assert (Forall (fun x => ord x < v) l') as Fl.
  { rewrite Pl. apply (key_Forall (fun k => k < v)). intros i Hi. rewrite length_take in Hi. rewrite key_take by lia. apply Hl. lia. }
  assert (Forall (fun x => ord x = v) m) as Fm.
  { apply (key_Forall (fun k => k = v)). intros i Hi. unfold m in *. rewrite length_take, length_drop in Hi.
    rewrite key_take, key_drop by lia. apply He. lia. }
  assert (Forall (fun x => v < ord x) r') as Fr.
  { rewrite Pr. apply (key_Forall (fun k => v < k)). intros i Hi. rewrite length_drop in Hi. rewrite key_drop by lia. apply Hg. lia. }
  apply (sortedl_app v); [apply (sortedl_app v)|..]; try done; [by eapply sortedl_eq|..].
  - eapply Forall_impl; [exact Fl|]. cbn. lia.
  - eapply Forall_impl; [exact Fm|]. cbn. lia.
  - apply Forall_app. split; (eapply Forall_impl; [eassumption|]); cbn; lia.
  - eapply Forall_impl; [exact Fr|]. cbn. lia.
Qed.

Lemma qsort_spec fuel s : Forall D s -> (length s < fuel)%nat -> size s * es < 2 ^ 31 ->
  exists s', qsort cmp es fuel s = Ok s' /\ step s s' /\ sortedl s'.
Proof using Hes cmp_lt cmp_eq.
  revert s. induction fuel as [|fuel IH]; intros s HD Hf Hsz; [lia|]. cbn [qsort].
  destruct (size s <? 7) eqn:E7.
  { destruct (insertion_spec s HD) as (s' & -> & Hst & Hi). exists s'. split; [done|]. split; [done|]. by apply incr_sortedl. }
  destruct (pivot_spec s) as (pm & -> & Hpm); [lia|done|]. cbn [of_opt].
  destruct (swap_spec s 0 pm HD) as (s0 & -> & Hst0 & _); [lia|lia|]. cbn [of_opt].
  pose proof (st_size _ _ Hst0) as Hl0.
  destruct (partition_spec (key s0 0) (length s) (length s0) (Part s0 1 1 (size s - 1) (size s - 1) false)) as (p & -> & Hp & Hst1 & Hpb).
  { constructor; cbn; try done; [apply Hst0|lia|..]; intros i Hi; try lia. by replace i with 0 by lia. }
  { cbn. lia. }
  cbn [of_opt]. assert (step s (arr p)) as Hst by (by eapply step_trans). destruct (swap_cnt p); cbn [negb].
  2:{ destruct (insertion_spec (arr p) (st_D _ _ Hst)) as (s' & -> & Hst2 & Hi). exists s'. split; [done|].
      split; [by eapply step_trans|]. by apply incr_sortedl. }
  destruct (middle_spec _ _ p Hp Hpb) as (s1 & s2 & E1 & E2 & Hst2 & Hpart).
  pose proof (pt_bounds _ _ _ _ Hpart) as Hbd. pose proof (st_size _ _ Hst) as Hla. pose proof (st_size _ _ Hst2) as Hlb.
  destruct Hp as [_ _ Hpb' _ _ _ _].
  rewrite vecswap_bytes_small, E1 by nia. cbn [of_opt]. rewrite vecswap_bytes_small, E2 by nia. cbn [of_opt]. set (L := pb p - pa p) in *. set (R := pd p - pc p) in *.
  assert (step s s2) as Hs2 by (by eapply step_trans). pose proof (st_size _ _ Hs2) as Hl2. pose proof (st_D _ _ Hs2) as HD2.
  assert (0 <= L * es < 2 ^ 31 /\ 0 <= R * es < 2 ^ 31) as [HbL HbR] by nia.
  rewrite !int_bytes_small, !(uint_small 64) by lia. rewrite elements_mul, !Z.div_mul by lia. cbn [of_opt].
  replace (es <? L * es) with (1 <? L) by nia. replace (es <? R * es) with (1 <? R) by nia.
  replace (size s <? L) with false by lia. replace ((R <? 0) || (size s <? R)) with false by lia.
  assert (exists l', (if 1 <? L then let! t := qsort cmp es fuel (take (Z.to_nat L) s2) in Ok (t ++ drop (Z.to_nat L) s2) else Ok s2)
      = Ok (l' ++ drop (Z.to_nat L) s2) /\ l' ≡ₚ take (Z.to_nat L) s2 /\ sortedl l') as (l' & -> & Pl & Sl).
  { destruct (1 <? L) eqn:EL.
    - destruct (IH (take (Z.to_nat L) s2)) as (t & -> & Ht & Hst'); [by apply Forall_take|rewrite length_take; lia|rewrite length_take; nia|].
      exists t. split; [done|]. split; [apply Ht|done].
    - exists (take (Z.to_nat L) s2). rewrite take_drop. split; [done|]. split; [done|]. apply sortedl_short. rewrite length_take. lia. }
  assert (length l' = Z.to_nat L) as Hll by (rewrite (Permutation_length Pl), length_take; lia).
  set (m := take (Z.to_nat (size s2 - R - L)) (drop (Z.to_nat L) s2)).
  assert (take (Z.to_nat (size s - R)) (l' ++ drop (Z.to_nat L) s2) = l' ++ m /\
          drop (Z.to_nat (size s - R)) (l' ++ drop (Z.to_nat L) s2) = drop (Z.to_nat (size s2 - R)) s2) as [Et Ed].
  { rewrite take_app, drop_app, take_ge, (drop_ge l'), app_nil_l, drop_drop by lia. unfold m. split; do 2 f_equal; lia. }
  assert (l' ++ drop (Z.to_nat L) s2 = (l' ++ m) ++ drop (Z.to_nat (size s2 - R)) s2) as Esame.
  { rewrite <- Et, <- Ed. by rewrite take_drop. }
  assert (exists r', (if 1 <? R then let! t := qsort cmp es fuel (drop (Z.to_nat (size s - R)) (l' ++ drop (Z.to_nat L) s2)) in
        Ok (take (Z.to_nat (size s - R)) (l' ++ drop (Z.to_nat L) s2) ++ t) else Ok (l' ++ drop (Z.to_nat L) s2))
      = Ok ((l' ++ m) ++ r') /\ r' ≡ₚ drop (Z.to_nat (size s2 - R)) s2 /\ sortedl r') as (r' & -> & Pr & Sr).
  { rewrite Et, Ed. destruct (1 <? R) eqn:ER.
    - destruct (IH (drop (Z.to_nat (size s2 - R)) s2)) as (t & -> & Ht & Hst'); [by apply Forall_drop|rewrite length_drop; lia|rewrite length_drop; nia|].
      exists t. split; [done|]. split; [apply Ht|done].
    - exists (drop (Z.to_nat (size s2 - R)) s2). rewrite Esame. split; [done|]. split; [done|]. apply sortedl_short. rewrite length_drop. lia. }
  eexists. split; [done|]. destruct (parted_sort _ _ _ s2 l' r' Hpart HD2 Pl Pr Sl Sr) as [H1 H2].
  split; [by eapply step_trans|done].
Qed.
End Sort.

(** C18. [cli_qsort] sorts: for every array of less than 2^31 bytes and every
    comparison function that agrees with an order on its elements, the sort ends,
    never leaves the array, and leaves a permutation of the elements in ascending
    order. *)
Theorem cli_qsort_sorts {A : Type} (cmp : A -> A -> Z) (es : Z) (ord : A -> Z) (s : list A) :
  1 <= es -> Z.of_nat (length s) * es < 2 ^ 31 ->
  (forall x y, x ∈ s -> y ∈ s -> (cmp x y < 0 <-> ord x < ord y) /\ (cmp x y = 0 <-> ord x = ord y)) ->
  exists s', cli_qsort cmp es s = Ok s' /\ s' ≡ₚ s /\ sortedl ord s'.
Proof.
  intros Hes Hb H. destruct (decide (s = [])) as [->|Hne]; [by exists []; repeat constructor|].
  assert (es < 2 ^ 31) by (destruct s; [done|]; cbn [length] in Hb; nia). destruct (qsort_spec cmp es ord (fun x => x ∈ s)) with (fuel := S (length s)) (s := s) as (s' & E & Hst & Hs); try lia.
  - intros x y Hx Hy. by apply H.
  - intros x y Hx Hy. by apply H.
  - by apply Forall_forall.
  - exists s'. split; [exact E|]. split; [apply Hst|exact Hs].
Qed.

(** The comparison of numbers that are less than 2^31 apart. *)
Lemma CMP1_order x y : 0 <= x < 2 ^ 31 -> 0 <= y < 2 ^ 31 -> (CMP1 x y < 0 <-> x < y) /\ (CMP1 x y = 0 <-> x = y).
Proof. intros Hx Hy. unfold CMP1. rewrite (sint_small 32) by lia. lia. Qed.

Lemma cli_qsort_sorts_witness :
  exists s', cli_qsort CMP1 4 [5; 3; 9; 1; 7; 7; 2; 8] = Ok s' /\ s' ≡ₚ [5; 3; 9; 1; 7; 7; 2; 8].
Proof.
  destruct (cli_qsort_sorts CMP1 4 id [5; 3; 9; 1; 7; 7; 2; 8]) as (s' & E & Hp & _).
  - lia.
  - cbn. lia.
  - assert (Forall (fun x => 0 <= x < 2 ^ 31) [5; 3; 9; 1; 7; 7; 2; 8]) as HF by (repeat (constructor; [lia|]); constructor).
    rewrite Forall_forall in HF. intros x y Hx Hy. apply CMP1_order; by apply HF.
  - exists s'. split; [exact E|exact Hp].
Defined.
End QSortFacts.
