(* ===== verification/Bm.v ===== *)
(** * The Boyer-Moore matcher (libclamav/matcher-bm.c)

    Patterns are hashed by three of their bytes into chains; a scan looks up the
    hash of every three bytes of the buffer.  The two arrays of the matcher are
    maps whose missing entries hold the value [cli_bm_init] stores (shift 1, no
    chain); a chain is the list of its patterns in the order of the [next]
    pointers.  [None] is an access outside an array or buffer. *)
From stdpp Require Import base numbers list list_numbers gmap.
From Stdlib Require Import ZArith Lia Bool.
From S2P Require Import Prelude Dlp Filter CalOff.

Local Open Scope Z_scope.

Module Bm.
Import Errors CalOff.

Definition BM_MIN_LENGTH : Z := 3.
Definition BM_BLOCK_SIZE : Z := 3.
Definition BM_BOUNDARY_EOL : Z := 1.
Definition HASH (a b c : Z) : Z := 211 * a + 37 * b + c.
Definition SIZE : Z := HASH 255 255 255 + 1.

(** [struct cli_bm_patt].  [bytes] is the allocation that holds the whole
    signature; [pattern] points at its byte [prefix_length], and [prefix] at its
    start when [prefix_length] is not 0. *)
Record patt := Patt {
  bytes : list Z;
  prefix_length : Z;
  plength : Z;
  virname : list Z;
  poffdata : offdata;
  offset_min : Z;
  offset_max : Z;
  cnt : Z;
  pattern0 : Z;
  boundary : Z;
  filesize : Z;
}.

#[global] Instance patt_eq_dec : EqDecision patt.
Proof. solve_decision. Defined.

(** What [cli_parse_add] fills in before [cli_bm_addpatt]. *)
Definition new_patt (bytes virname : list Z) (boundary filesize : Z) : patt :=
  Patt bytes 0 (Z.of_nat (length bytes)) virname (OffData 0 0 0 0) 0 0 0 0 boundary filesize.

(** The part of [struct cli_matcher] that the matcher uses. *)
Record matcher := Matcher {
  mtype : Z;
  bm_shift : gmap Z Z;
  bm_suffix : gmap Z (list patt);
  bm_pattab : list patt;
  bm_offmode : bool;
  bm_patterns : Z;
  bm_reloff_num : Z;
  bm_absoff_num : Z;
  mfilter : option Filter.filter;
}.

(** [cli_bm_init] on a fresh matcher; both allocations succeed or CL_EMEM. *)
Definition cli_bm_init (mtype : Z) (offmode : bool) (filter : option Filter.filter) (ok1 ok2 : bool) : Z * option matcher :=
  if negb ok1 then (CL_EMEM, None)
  else if negb ok2 then (CL_EMEM, None)
  else (CL_SUCCESS, Some (Matcher mtype ∅ ∅ [] offmode 0 0 0 filter)).

(** [root->bm_suffix[idx]] and [root->bm_shift[idx]]. *)
Definition suffix_at (root : matcher) (idx : Z) : option (list patt) :=
  if (0 <=? idx) && (idx <? SIZE) then Some (default [] (bm_suffix root !! idx)) else None.
Definition shift_at (root : matcher) (idx : Z) : option Z :=
  if (0 <=? idx) && (idx <? SIZE) then
    Some (default (BM_MIN_LENGTH - BM_BLOCK_SIZE + 1) (bm_shift root !! idx)) else None.

(** The hash of the three bytes at [i], as a [uint16_t]. *)
Definition hash_at (p : list Z) (i : Z) : option Z :=
  let* a := bget p i in
  let* b := bget p (i + 1) in
  let* c := bget p (i + 2) in
  Some (uint 16 (HASH (uint 8 a) (uint 8 b) (uint 8 c))).

(** ** Adding a pattern *)

(** The load-balancing loop: the first block whose chain is empty. *)
Fixpoint balance (fuel : nat) (root : matcher) (pt : list Z) (len i : Z) : option (option Z) :=
  match fuel with
  | O => None
  | S fuel =>
      if i <? len - BM_BLOCK_SIZE + 1 then
        let* idx := hash_at pt i in
        let* chain := suffix_at root idx in
        match chain with
        | [] => Some (Some i)
        | _ => balance fuel root pt len (uint 16 (i + 1))
        end
      else Some None
  end.

(** [while(next) { if(pt[0] >= next->pattern0) break; ... }]: the patterns before
    and from [next] on. *)
Fixpoint chain_split (pt0 : Z) (chain : list patt) : list patt * list patt :=
  match chain with
  | [] => ([], [])
  | p :: rest =>
      if pattern0 p <=? pt0 then ([], chain)
      else let '(a, b) := chain_split pt0 rest in (p :: a, b)
  end.

Definition set_cnt (p : patt) (c : Z) : patt :=
  Patt (bytes p) (prefix_length p) (plength p) (virname p) (poffdata p) (offset_min p) (offset_max p)
       c (pattern0 p) (boundary p) (filesize p).

(** The insertion into a chain; the number of patterns of a chain is kept in the
    pattern at its head. *)
Definition chain_insert (p : patt) (pt0 : Z) (chain : list patt) : list patt :=
  let '(a, b) := chain_split pt0 chain in
  match a with
  | [] =>
      let c := match chain with h :: _ => cnt h | [] => cnt p end in
      set_cnt p (uint 16 (c + 1)) :: chain
  | h :: a => set_cnt h (uint 16 (cnt h + 1)) :: a ++ p :: b
  end.

(** [cli_bm_addpatt].  [ok] says whether the table of patterns can grow.  The
    signature is merged into the filter before it is shortened. *)
Definition cli_bm_addpatt (root : matcher) (p : patt) (offset : list Z) (ok : bool) : option (Z * matcher) :=
  if plength p <? BM_MIN_LENGTH then Some (CL_EMALFDB, root)
  else
    let d := cli_caloff_decode (Some offset) (mtype root) (poffdata p) (offset_min p) (offset_max p) in
    if negb (ret d =? CL_SUCCESS) then Some (ret d, root)
    else
      let k := od0 (data d) in
      let abs := if negb (k =? CLI_OFF_ANY) && (k =? CLI_OFF_ABSOLUTE) then uint 32 (bm_absoff_num root + 1) else bm_absoff_num root in
      let rel := if negb (k =? CLI_OFF_ANY) && negb (k =? CLI_OFF_ABSOLUTE) then uint 32 (bm_reloff_num root + 1) else bm_reloff_num root in
      let* filter :=
        match mfilter root with
        | None => Some None
        | Some f =>
            let* (f, r) := Filter.filter_add_static f (bytes p) (plength p) in
            Some (if r =? -1 then None else Some f)
        end in
      let* i := balance (S (length (bytes p))) root (bytes p) (plength p) 0 in
      let i := default 0 i in
      let* idx := hash_at (bytes p) i in
      let* pt0 := bget (bytes p) i in
      let pt0 := uint 8 pt0 in
      let* shift := shift_at root idx in
      let* chain := suffix_at root idx in
      let p' := Patt (bytes p) i (plength p - i) (virname p) (data d) (off_min d) (off_max d) (cnt p) pt0 (boundary p) (filesize p) in
      let p' := if bm_offmode root && negb (k =? CLI_OFF_ABSOLUTE)
                then Patt (bytes p) i (plength p - i) (virname p) (data d) (bm_patterns root) (off_max d) (cnt p) pt0 (boundary p) (filesize p)
                else p' in
      let shifts := <[idx := Z.min shift (BM_MIN_LENGTH - BM_BLOCK_SIZE)]> (bm_shift root) in
      let suffixes := <[idx := chain_insert p' pt0 chain]> (bm_suffix root) in
      if bm_offmode root then
        if negb ok then
          Some (CL_EMEM, Matcher (mtype root) shifts suffixes [] (bm_offmode root) (bm_patterns root) rel abs filter)
        else
          Some (CL_SUCCESS, Matcher (mtype root) shifts suffixes (bm_pattab root ++ [p']) (bm_offmode root)
                              (uint 32 (bm_patterns root + 1)) rel abs filter)
      else
        Some (CL_SUCCESS, Matcher (mtype root) shifts suffixes (bm_pattab root) (bm_offmode root)
                            (uint 32 (bm_patterns root + 1)) rel abs filter).

(** ** Scanning a buffer *)

(** [struct cli_bm_off]. *)
Record bm_off := BmOff { otab : list Z; offtab : list Z; ocnt : Z; pos : Z }.

Section Scan.
Context (einfo : option exeinfo) (map_len : Z) (root : matcher) (buffer : list Z) (length_ offset : Z).

(** The comparison loop from [start]: whether all bytes agree, the final [j] and
    the final [off]. *)
Fixpoint cmp_loop (n : nat) (pt : list Z) (start j : Z) : option (bool * Z * Z) :=
  match n with
  | O => Some (true, j, start + j)
  | S n =>
      if start + j <? length_ then
        let* a := bget buffer (start + j) in
        let* b := bget pt j in
        if uint 8 a =? uint 8 b then cmp_loop n pt start (j + 1) else Some (false, j, start + j)
      else Some (true, j, start + j)
  end.

(** What the code does with one pattern whose first byte agrees: a match, an
    error code, or the next pattern. *)
Inductive verdict := Match (p : patt) | Error (code : Z) | Next.

(** The test of the offset with [offdata]. *)
Definition offdata_skip (od : option bm_off) (p : patt) (off : Z) : option bool :=
  match od with
  | None => Some false
  | Some od =>
      let at_ := uint 32 (offset + off - prefix_length p) in
      if od0 (poffdata p) =? CLI_OFF_ABSOLUTE then Some (negb (offset_min p =? at_))
      else let* o := bget (otab od) (offset_min p) in Some ((o =? CLI_OFF_NONE) || negb (o =? at_))
  end.

(** The test of the offset of a match without [offdata]. *)
Definition check_offset (p : patt) (info : target_info) (i : Z) : option (verdict * target_info) :=
  let* (r, info, off_min, off_max) :=
    (if negb (od0 (poffdata p) =? CLI_OFF_ABSOLUTE) then cli_caloff einfo map_len (mtype root) info (poffdata p) true 0 0
     else Some (CL_SUCCESS, info, offset_min p, offset_max p)) in
  if negb (r =? CL_SUCCESS) then Some (Error r, info)
  else
    let off := uint 32 (offset + i - prefix_length p - BM_MIN_LENGTH + BM_BLOCK_SIZE) in
    if (off_min =? CLI_OFF_NONE) || (off_max <? off) || (off <? off_min) then Some (Next, info)
    else Some (Match p, info).

(** The test of the last and of the middle byte of the pattern. *)
Definition quick_check (p : patt) (off idxchk : Z) : option bool :=
  let differ k :=
    let* a := bget buffer (off + k) in
    let* b := bget (bytes p) (prefix_length p + k) in
    Some (negb (uint 8 a =? uint 8 b)) in
  let* d := differ idxchk in
  if (d : bool) then Some true else differ (idxchk / 2).

Definition try_patt (od : option bm_off) (p : patt) (info : target_info) (i : Z) : option (verdict * target_info) :=
  let off := i - BM_MIN_LENGTH + BM_BLOCK_SIZE in
  if (length_ <? off + plength p) || (off <? prefix_length p) then Some (Next, info)
  else
    let* skip := offdata_skip od p off in
    if (skip : bool) then Some (Next, info)
    else
      let idxchk := uint 16 (Z.min (plength p) (length_ - off) - 1) in
      let* differs := (if negb (idxchk =? 0) then quick_check p off idxchk else Some false) in
      if (differs : bool) then Some (Next, info)
      else
        let* (found, j, off) := cmp_loop (Z.to_nat (plength p + prefix_length p)) (bytes p) (off - prefix_length p) 0 in
        if (found : bool) && negb (Z.land (boundary p) BM_BOUNDARY_EOL =? 0) && negb (off =? length_) then Some (Next, info)
        else if found && (plength p + prefix_length p =? j) then
          match od with
          | None => if negb (offset_min p =? CLI_OFF_ANY) then check_offset p info i else Some (Match p, info)
          | Some _ => Some (Match p, info)
          end
        else Some (Next, info).

(** The walk along a chain: patterns of another first byte are skipped, and the
    walk ends after the run of patterns with the right one. *)
Fixpoint walk (od : option bm_off) (chain : list patt) (pchain : bool) (prefix : Z) (info : target_info) (i : Z)
    : option (verdict * target_info) :=
  match chain with
  | [] => Some (Next, info)
  | p :: chain =>
      if negb (pattern0 p =? prefix) then
        if pchain then Some (Next, info) else walk od chain pchain prefix info i
      else
        let* (v, info) := try_patt od p info i in
        match v with
        | Next => walk od chain true prefix info i
        | _ => Some (v, info)
        end
  end.

(** [for(; pos < cnt && off >= offtab[pos]; pos++)]. *)
Fixpoint forward (fuel : nat) (od : bm_off) (off p : Z) : option Z :=
  match fuel with
  | O => None
  | S fuel =>
      if p <? ocnt od then
        let* o := bget (offtab od) p in
        if o <=? off then forward fuel od off (p + 1) else Some p
      else Some p
  end.

Definition set_pos (od : bm_off) (p : Z) : bm_off := BmOff (otab od) (offtab od) (ocnt od) p.

(** The advance of [i]: by [shift] (or 1), or to the next offset.  [None] inside
    is the return of CL_CLEAN. *)
Definition advance (od : option bm_off) (i shift : Z) : option (option bm_off * option Z) :=
  match od with
  | None => Some (None, Some (uint 32 (i + shift)))
  | Some d =>
      let off := uint 32 (offset + i - BM_MIN_LENGTH + BM_BLOCK_SIZE) in
      let* p := forward (S (Z.to_nat (ocnt d))) d off (pos d) in
      if p =? ocnt d then Some (Some (set_pos d p), None)
      else
        let* o := bget (offtab d) p in
        if o <=? off then Some (Some (set_pos d p), None)
        else Some (Some (set_pos d p), Some (uint 32 (i + (o - off))))
  end.

(** The loop over the buffer: the result code, the matching pattern, and the
    state of [offdata]. *)
Fixpoint scan_loop (fuel : nat) (od : option bm_off) (info : target_info) (i : Z)
    : res (Z * option patt * option bm_off) :=
  match fuel with
  | O => NoFuel
  | S fuel =>
      if i <? length_ - BM_BLOCK_SIZE + 1 then
        let! idx := of_opt (hash_at buffer i) in
        let! shift := of_opt (shift_at root idx) in
        let next od info shift :=
          let! (od, i) := of_opt (advance od i shift) in
          match i with
          | None => Ok (CL_CLEAN, None, od)
          | Some i => scan_loop fuel od info i
          end in
        if shift =? 0 then
          let! prefix := of_opt (bget buffer (i - BM_MIN_LENGTH + BM_BLOCK_SIZE)) in
          let prefix := uint 8 prefix in
          let! chain := of_opt (suffix_at root idx) in
          match chain with
          | p :: _ =>
              if (cnt p =? 1) && negb (pattern0 p =? prefix) then next od info 1
              else
                let! (v, info) := of_opt (walk od chain false prefix info i) in
                match v with
                | Match p => Ok (CL_VIRUS, Some p, od)
                | Error r => Ok (r, None, od)
                | Next => next od info 1
                end
          | [] => next od info 1
          end
        else next od info shift
      else Ok (CL_CLEAN, None, od)
  end.

(** [for(; pos && offtab[pos] > offset; pos--)]. *)
Fixpoint backward (fuel : nat) (od : bm_off) (p : Z) : option Z :=
  match fuel with
  | O => None
  | S fuel =>
      if p =? 0 then Some p
      else let* o := bget (offtab od) p in if offset <? o then backward fuel od (p - 1) else Some p
  end.

(** The first position to look at with [offdata]; [None] inside: CL_CLEAN. *)
Definition start (d : bm_off) : option (bm_off * option Z) :=
  if ocnt d =? 0 then Some (d, None)
  else
    let p := if pos d =? ocnt d then pos d - 1 else pos d in
    let* p := backward (S (Z.to_nat p)) d p in
    let* o := bget (offtab d) p in
    let p := if o <? offset then p + 1 else p in
    if ocnt d <=? p then Some (set_pos d p, None)
    else let* o := bget (offtab d) p in Some (set_pos d p, Some (uint 32 (o - offset))).

Definition no_info : target_info := TargetInfo 0 (ExeInfo [] 0 0) 0.

Definition cli_bm_scanbuff (od : option bm_off) : res (Z * option patt * option bm_off) :=
  if length_ <? BM_MIN_LENGTH then Ok (CL_CLEAN, None, od)
  else
    let fuel := Z.to_nat length_ in
    match od with
    | None => scan_loop fuel None no_info (BM_MIN_LENGTH - BM_BLOCK_SIZE)
    | Some d =>
        let! (d, i) := of_opt (start d) in
        match i with
        | None => Ok (CL_CLEAN, None, Some d)
        | Some i => scan_loop fuel (Some d) no_info i
        end
    end.
End Scan.
End Bm.
