(* ===== verification/BmFacts.v ===== *)
(** * What the Boyer-Moore matcher finds

    The invariant of the chains, its preservation by [cli_bm_addpatt], and the
    agreement of [cli_bm_scanbuff] with a search for every pattern at every
    position. *)
From stdpp Require Import base numbers list list_numbers gmap.
From Stdlib Require Import ZArith Lia Bool Sorting.Sorted.
From S2P Require Import Prelude Dlp Filter CalOff Bm.

Local Open Scope Z_scope.

Module BmFacts.
Import Errors CalOff Bm.
Abbreviation occurs := Filter.occurs.

Definition is_bytes (l : list Z) : Prop := Forall (fun c => 0 <= c < 256) l.

Lemma is_bytes_get l i c : is_bytes l -> bget l i = Some c -> uint 8 c = c.
Proof.
  intros H Hg. unfold bget in Hg. case_match; [done|]. eapply Forall_lookup_1 in H; [|exact Hg]. by apply (uint_small 8).
Qed.

(** ** One pattern at one position *)

(** The range of file offsets of a match, computed on the scanned file. *)
Definition offset_range (map_len : Z) (p : patt) : Z * Z :=
  if od0 (poffdata p) =? CLI_OFF_ABSOLUTE then (offset_min p, offset_max p)
  else
    let mn := uint 32 (map_len - od1 (poffdata p)) in
    (mn, if negb (mn =? CLI_OFF_NONE) then uint 32 (mn + od2 (poffdata p)) else CLI_OFF_NONE).

(** The offsets signatures of a generic target have: anywhere, absolute, or
    relative to the end of the file. *)
Definition generic (p : patt) : Prop :=
  offset_min p = CLI_OFF_ANY \/ od0 (poffdata p) = CLI_OFF_ABSOLUTE \/ od0 (poffdata p) = CLI_OFF_EOF_MINUS.

Definition in_range (map_len : Z) (p : patt) (o : Z) : Prop :=
  offset_min p = CLI_OFF_ANY \/
  ((offset_range map_len p).1 <> CLI_OFF_NONE /\ (offset_range map_len p).1 <= o <= (offset_range map_len p).2).

(** The pattern matches the buffer at position [k]. *)
Definition matches (map_len : Z) (buffer : list Z) (len offset : Z) (p : patt) (k : Z) : Prop :=
  occurs buffer len (bytes p) k /\
  (Z.land (boundary p) BM_BOUNDARY_EOL <> 0 -> k + Z.of_nat (length (bytes p)) = len) /\
  in_range map_len p (offset + k).

(** A pattern as [cli_bm_addpatt] leaves it in the chain [idx]. *)
Record patt_ok (idx : Z) (p : patt) : Prop := {
  po_prefix : 0 <= prefix_length p;
  po_length : 3 <= plength p;
  po_total : prefix_length p + plength p = Z.of_nat (length (bytes p));
  po_short : plength p < 2 ^ 16;
  po_bytes : is_bytes (bytes p);
  po_hash : hash_at (bytes p) (prefix_length p) = Some idx;
  po_first : bget (bytes p) (prefix_length p) = Some (pattern0 p);
}.

(** The order of a chain. *)
Definition desc (p q : patt) : Prop := pattern0 q <= pattern0 p.

(** The invariant of a matcher: every chain belongs to an entry of shift 0, holds
    patterns of its hash in descending order of their first byte, and has its
    length in the counter of its head. *)
Record chain_ok (idx : Z) (chain : list patt) : Prop := {
  co_patt : Forall (patt_ok idx) chain;
  co_sort : StronglySorted desc chain;
  co_cnt : exists h t, chain = h :: t /\ cnt h = Z.of_nat (length chain);
}.

Record wf (root : matcher) : Prop := {
  wf_chain : forall idx chain, bm_suffix root !! idx = Some chain -> chain_ok idx chain /\ bm_shift root !! idx = Some 0;
  wf_shift : forall idx s, bm_shift root !! idx = Some s -> s = 0;
}.

(** No chain has more than [n] patterns. *)
Definition bounded (n : Z) (root : matcher) : Prop :=
  forall idx chain, bm_suffix root !! idx = Some chain -> Z.of_nat (length chain) <= n.

Definition member (root : matcher) (p : patt) : Prop :=
  exists idx chain, bm_suffix root !! idx = Some chain /\ p ∈ chain.

Lemma hash_at_spec l i : is_bytes l -> 0 <= i -> i + 2 < Z.of_nat (length l) ->
  exists idx, hash_at l i = Some idx /\ 0 <= idx < SIZE.
Proof.
  intros Hb H1 H2. unfold hash_at.
  destruct (bget_is_Some l i) as [a Ha]; [lia|]. destruct (bget_is_Some l (i + 1)) as [b Hbb]; [lia|].
  destruct (bget_is_Some l (i + 2)) as [c Hc]; [lia|]. rewrite Ha, Hbb, Hc. eexists. split; [done|].
  pose proof (fun v => uint_range 8 v ltac:(lia)) as Hu.
  pose proof (Hu a). pose proof (Hu b). pose proof (Hu c). change (2 ^ 8) with 256 in *. unfold HASH, SIZE, HASH in *.
  rewrite (uint_small 16) by (change (2 ^ 16) with 65536; lia). lia.
Qed.

Section Scan.
Context (einfo : option exeinfo) (map_len : Z) (root : matcher) (buffer : list Z) (len offset : Z).
Hypothesis Hbuf : is_bytes buffer.
Hypothesis Hlen : len <= Z.of_nat (length buffer).
Hypothesis Hlen32 : len < 2 ^ 31.
Hypothesis Hoff : 0 <= offset /\ offset + len < 2 ^ 32.

Lemma cmp_loop_spec n pt start j : 0 <= start -> 0 <= j -> is_bytes pt ->
  j + Z.of_nat n <= Z.of_nat (length pt) -> start + j + Z.of_nat n <= len ->
  exists found j', cmp_loop buffer len n pt start j = Some (found, j', start + j') /\
    if found then j' = j + Z.of_nat n /\ forall i, j <= i < j + Z.of_nat n -> bget buffer (start + i) = bget pt i
    else exists i, j <= i < j + Z.of_nat n /\ bget buffer (start + i) <> bget pt i.
Proof.
  intros Hs. revert j. induction n as [|n IH]; intros j Hj Hp Hl Hb.
  { exists true, j. split; [done|]. split; [lia|]. intros; lia. }
  cbn [cmp_loop]. destruct (start + j <? len) eqn:E; [|lia].
  destruct (bget_is_Some buffer (start + j)) as [a Ha]; [lia|]. destruct (bget_is_Some pt j) as [b Hbb]; [lia|].
  rewrite Ha, Hbb, (is_bytes_get _ _ _ Hbuf Ha), (is_bytes_get _ _ _ Hp Hbb).
  destruct (a =? b) eqn:Eab.
  - apply Z.eqb_eq in Eab as ->. destruct (IH (j + 1)) as (f & j' & -> & H); [lia|done|lia|lia|].
    exists f, j'. split; [done|]. destruct f.
    + destruct H as [-> H]. split; [lia|]. intros i Hi. destruct (Z.eq_dec i j) as [->|]; [congruence|]. apply H. lia.
    + destruct H as (i & Hi & H). exists i. split; [lia|done].
  - exists false, j. split; [done|]. exists j. split; [lia|]. rewrite Ha, Hbb. intros [= ->]. lia.
Qed.

Lemma quick_check_spec idx p off k : patt_ok idx p -> 0 <= off -> off + plength p <= len -> 0 <= k < plength p ->
  exists d, quick_check buffer p off k = Some d /\
    (d = true -> exists i, 0 <= i < plength p /\ bget buffer (off + i) <> bget (bytes p) (prefix_length p + i)).
Proof.
  intros Hp Ho Hl Hk. unfold quick_check.
  assert (forall k, 0 <= k < plength p -> exists a b, bget buffer (off + k) = Some a /\
     bget (bytes p) (prefix_length p + k) = Some b /\ uint 8 a = a /\ uint 8 b = b) as Hget.
  { intros k' Hk'. destruct (bget_is_Some buffer (off + k')) as [a Ha]; [lia|].
    destruct (bget_is_Some (bytes p) (prefix_length p + k')) as [b Hb]; [destruct Hp; lia|].
    exists a, b. repeat split; try done; [by eapply is_bytes_get|eapply is_bytes_get, Hb; apply Hp]. }
  assert (0 <= k / 2 < plength p) as Hk2 by (split; [apply Z.div_pos; lia|apply Z.div_lt_upper_bound; lia]).
  destruct (Hget k Hk) as (a & b & Ea & Eb & Ua & Ub). rewrite Ea, Eb, Ua, Ub.
  destruct (a =? b) eqn:E; cbn [negb].
  - destruct (Hget (k / 2) Hk2) as (a2 & b2 & Ea2 & Eb2 & Ua2 & Ub2). rewrite Ea2, Eb2, Ua2, Ub2. eexists. split; [done|].
    intros Hd. exists (k / 2). split; [done|]. rewrite Ea2, Eb2. intros [= ->]. rewrite Z.eqb_refl in Hd. done.
  - exists true. split; [done|]. intros _. exists k. split; [done|]. rewrite Ea, Eb. intros [= ->]. lia.
Qed.

(** What the target information is while only offsets of a generic target are
    computed. *)
Definition info_ok (info : target_info) : Prop := status info = 0 /\ (fsize info = 0 \/ fsize info = map_len).

Lemma check_offset_spec p info i : generic p -> offset_min p <> CLI_OFF_ANY -> info_ok info ->
  0 <= prefix_length p <= i -> i < len ->
  exists v info', check_offset einfo map_len root offset p info i = Some (v, info') /\ info_ok info' /\
    ((v = Match p /\ in_range map_len p (offset + (i - prefix_length p))) \/
     (v = Next /\ ~ in_range map_len p (offset + (i - prefix_length p)))).
Proof.
  intros Hg Hany [Hst Hfs] Hp Hi. unfold check_offset.
  set (o := offset + (i - prefix_length p)). unfold BM_MIN_LENGTH, BM_BLOCK_SIZE.
  assert (exists info', (if negb (od0 (poffdata p) =? CLI_OFF_ABSOLUTE)
       then cli_caloff einfo map_len (mtype root) info (poffdata p) true 0 0
       else Some (CL_SUCCESS, info, offset_min p, offset_max p))
     = Some (CL_SUCCESS, info', (offset_range map_len p).1, (offset_range map_len p).2) /\ info_ok info') as (info' & -> & Hinfo).
  { unfold offset_range. destruct (od0 (poffdata p) =? CLI_OFF_ABSOLUTE) eqn:Eabs; [by exists info|].
    destruct Hg as [?|[Hg|Hg]]; [done|lia|]. unfold cli_caloff. rewrite Hst, Hg. cbn [Z.eqb].
    set (info2 := if fsize info =? 0 then _ else info).
    assert (fsize info2 = map_len /\ status info2 = 0) as [Hf2 Hs2] by (unfold info2; destruct (fsize info =? 0) eqn:E0; cbn; lia).
    exists info2. split; [|split; auto]. unfold relative. rewrite Hg, Hf2. reflexivity. }
  cbv iota beta. cbn [negb Z.eqb CL_SUCCESS]. exists (if ((offset_range map_len p).1 =? CLI_OFF_NONE) || ((offset_range map_len p).2 <? o) || (o <? (offset_range map_len p).1)
          then Next else Match p), info'.
  assert (uint 32 (offset + i - prefix_length p - 3 + 3) = o) as -> by (rewrite uint_small; unfold o; lia).
  split; [by case_match|]. split; [done|]. unfold in_range.
  case_match eqn:E; [right|left]; (split; [done|]); [|right; lia]. intros [?|?]; [done|lia].
Qed.

Abbreviation matches_at p k := (matches map_len buffer len offset p k).

(** The text of the pattern is at the position [k], at the end if it must be. *)
Definition text_at (p : patt) (k : Z) : Prop :=
  occurs buffer len (bytes p) k /\
  (Z.land (boundary p) BM_BOUNDARY_EOL <> 0 -> k + Z.of_nat (length (bytes p)) = len).

(** One pattern is tried by its text and then by its offset. *)
Lemma try_text od idx p info i b : patt_ok idx p -> 0 <= i < len -> offdata_skip offset od p i = Some b ->
  exists t : bool, (t = true <-> text_at p (i - prefix_length p)) /\
    try_patt einfo map_len root buffer len offset od p info i =
      if t && negb b then
        match od with
        | None => if negb (offset_min p =? CLI_OFF_ANY) then check_offset einfo map_len root offset p info i else Some (Match p, info)
        | Some _ => Some (Match p, info)
        end
      else Some (Next, info).
Proof.
  intros Hp Hi Hskip. pose proof Hp as [H0 H3 Ht H16 Hby _ _].
  unfold try_patt, BM_MIN_LENGTH, BM_BLOCK_SIZE. replace (i - 3 + 3) with i by lia. rewrite Hskip.
  set (k := i - prefix_length p). unfold text_at, occurs.
  destruct ((len <? i + plength p) || (i <? prefix_length p)) eqn:E1.
  { exists false. split; [|done]. split; [done|]. lia. }
  rewrite Z.min_l, (uint_small 16) by lia. destruct (plength p - 1 =? 0) eqn:E0; [lia|]. cbn [negb].
  destruct (quick_check_spec idx p i (plength p - 1) Hp) as (d & -> & Hd); [lia..|].
  destruct (cmp_loop_spec (Z.to_nat (plength p + prefix_length p)) (bytes p) k 0) as (f & j & E & H); [lia|lia|done|lia|lia|].
  fold k. rewrite E. clear E. rewrite Z2Nat.id in H by lia. rewrite Z.add_0_l in H.
  assert (forall (x y : option (verdict * target_info)), (if f && negb (Z.land (boundary p) BM_BOUNDARY_EOL =? 0) && negb (k + j =? len) then x else y)
     = (if f && (negb (Z.land (boundary p) BM_BOUNDARY_EOL =? 0) && negb (k + j =? len)) then x else y)) as Hassoc by (intros; by rewrite andb_assoc).
  rewrite Hassoc. clear Hassoc. set (eol := negb (Z.land (boundary p) BM_BOUNDARY_EOL =? 0) && negb (k + j =? len)).
  exists (negb d && f && negb eol). split.
  - split.
    + intros Ht2. destruct d, f; try done. destruct H as [-> Heq]. cbn in Ht2.
      split; [split; [lia|split; [lia|]]; intros i' Hi'; apply Heq; lia|]. intros He. unfold eol in Ht2. lia.
    + intros ((_ & _ & Ho) & He). destruct d.
      * destruct (Hd eq_refl) as (j' & Hj & Hne). exfalso. apply Hne. rewrite <- Ho by lia. f_equal. unfold k. lia.
      * destruct f; cbn.
        -- destruct H as [-> _]. unfold eol. destruct (Z.land (boundary p) BM_BOUNDARY_EOL =? 0) eqn:Eb; [done|].
           specialize (He ltac:(lia)). lia.
        -- destruct H as (j' & Hj & Hne). exfalso. apply Hne, Ho. lia.
  - clearbody eol. assert (f = true -> (plength p + prefix_length p =? j) = true) as Hj.
    { intros ->. destruct H as [-> _]. apply Z.eqb_refl. }
    destruct b, d, f; cbn [andb negb]; try done; rewrite ?Hj by done; by destruct eol.
Qed.

Lemma try_patt_spec idx p info i : patt_ok idx p -> generic p -> info_ok info -> 0 <= i < len ->
  exists v info', try_patt einfo map_len root buffer len offset None p info i = Some (v, info') /\ info_ok info' /\
    ((v = Match p /\ matches_at p (i - prefix_length p)) \/ (v = Next /\ ~ matches_at p (i - prefix_length p))).
Proof.
  intros Hp Hg Hinfo Hi. destruct (try_text None idx p info i false Hp Hi eq_refl) as (t & Ht & ->).
  assert (matches_at p (i - prefix_length p) <-> t = true /\ in_range map_len p (offset + (i - prefix_length p))) as Hm.
  { rewrite Ht. unfold matches, text_at. tauto. }
  destruct t; cbn [andb negb].
  2:{ exists Next, info. split; [done|]. split; [done|]. right. split; [done|]. rewrite Hm. by intros [? _]. }
  destruct (offset_min p =? CLI_OFF_ANY) eqn:Eany; cbn [negb].
  { exists (Match p), info. split; [done|]. split; [done|]. left. split; [done|]. apply Hm. split; [done|]. left. lia. }
  assert (0 <= prefix_length p <= i) by (destruct Ht as [Ht _]; destruct (Ht eq_refl) as ((? & _) & _); destruct Hp; lia).
  destruct (check_offset_spec p info i Hg) as (v & info' & -> & Hi' & Hv); [lia|done|lia|lia|].
  exists v, info'. split; [done|]. split; [done|]. rewrite Hm. destruct Hv as [[-> Hr]|[-> Hr]]; [left; auto|right].
  split; [done|]. by intros [_ ?].
Qed.

(** The walk along a chain, for any way [Q] to decide on one pattern. *)
Lemma walk_spec od idx chain pchain prefix info i (I : target_info -> Prop) (Q : patt -> Prop) :
  (forall p info, p ∈ chain -> I info -> exists v info', try_patt einfo map_len root buffer len offset od p info i = Some (v, info') /\
     I info' /\ ((v = Match p /\ Q p) \/ (v = Next /\ ~ Q p))) ->
  Forall (patt_ok idx) chain -> StronglySorted desc chain -> I info ->
  (pchain = true -> Forall (fun p => pattern0 p <= prefix) chain) ->
  exists v info', walk einfo map_len root buffer len offset od chain pchain prefix info i = Some (v, info') /\ I info' /\
    ((exists p, v = Match p /\ p ∈ chain /\ Q p) \/ (v = Next /\ forall p, p ∈ chain -> pattern0 p = prefix -> ~ Q p)).
Proof.
  intros Htry Hok Hs Hinfo. revert pchain info Hinfo. induction chain as [|p chain IH]; intros pchain info Hinfo Hpc.
  { exists Next, info. split; [done|]. split; [done|]. right. split; [done|]. intros p Hp. by apply not_elem_of_nil in Hp. }
  apply Forall_cons in Hok as [Hokp Hok]. apply StronglySorted_inv in Hs as [Hs Hhd].
  assert (forall q, q ∈ chain -> pattern0 q <= pattern0 p) as Hle by (by rewrite Forall_forall in Hhd).
  specialize (IH (fun q info Hq => Htry q info (list_elem_of_further q p chain Hq)) Hok Hs).
  assert (forall v info', Some (v, info') = Some (v, info') /\ I info' /\
     ((exists q, v = Match q /\ q ∈ chain /\ Q q) \/ (v = Next /\ forall q, q ∈ chain -> pattern0 q = prefix -> ~ Q q)) ->
     (pattern0 p = prefix -> ~ Q p) ->
     (exists q, v = Match q /\ q ∈ p :: chain /\ Q q) \/ (v = Next /\ forall q, q ∈ p :: chain -> pattern0 q = prefix -> ~ Q q)) as Hcons.
  { intros v info' (_ & _ & [(q & -> & Hq & HQ)|[-> Hn]]) Hnp; [left; exists q; split; [done|]; split; [by right|done]|right].
    split; [done|]. intros q [->|Hq]%elem_of_cons Hq0; [by apply Hnp|by apply Hn]. }
  cbn [walk]. destruct (pattern0 p =? prefix) eqn:E; cbn [negb].
  - destruct (Htry p info (list_elem_of_here p chain) Hinfo) as (v & info' & -> & Hi' & [[-> Hm]|[-> Hm]]).
    + exists (Match p), info'. split; [done|]. split; [done|]. left. exists p. split; [done|]. split; [left|done].
    + destruct (IH true info' Hi') as (v & info2 & -> & Hi2 & Hv).
      { intros _. apply Forall_forall. intros q Hq. specialize (Hle q Hq). lia. }
      exists v, info2. split; [done|]. split; [done|]. by apply (Hcons v info2).
  - destruct pchain.
    + exists Next, info. split; [done|]. split; [done|]. right. split; [done|].
      specialize (Hpc eq_refl). apply Forall_cons in Hpc as [Hpp _].
      intros q [->|Hq]%elem_of_cons Hq0; [lia|]. specialize (Hle q Hq). lia.
    + destruct (IH false info Hinfo) as (v & info2 & -> & Hi2 & Hv); [done|].
      exists v, info2. split; [done|]. split; [done|]. apply (Hcons v info2); [done|lia].
Qed.

(** A pattern that stands at [k] is found by the hash of its block. *)
Lemma occurs_hash idx p k : patt_ok idx p -> occurs buffer len (bytes p) k ->
  hash_at buffer (k + prefix_length p) = Some idx /\ bget buffer (k + prefix_length p) = Some (pattern0 p) /\
  0 <= k /\ k + prefix_length p + 2 < len.
Proof.
  intros [H0 H3 Ht H16 Hby Hh Hf] (Hk & Hl & Ho).
  assert (forall j, 0 <= j < 3 -> bget buffer (k + prefix_length p + j) = bget (bytes p) (prefix_length p + j)) as Hb.
  { intros j Hj. rewrite <- Ho by lia. f_equal. lia. }
  split; [|split; [|lia]].
  - rewrite <- Hh. unfold hash_at. pose proof (Hb 0) as B0. rewrite !Z.add_0_r in B0. by rewrite B0, !Hb by lia.
  - pose proof (Hb 0) as B0. rewrite !Z.add_0_r in B0. by rewrite B0 by lia.
Qed.

Hypothesis Hwf : wf root.
Hypothesis Hgen : forall p, member root p -> generic p.

(** What one position of the buffer contributes: the answer, or nothing there. *)
Definition answer_from (i : Z) (r : Z * option patt * option bm_off) : Prop :=
  (exists p k, r = (CL_VIRUS, Some p, None) /\ member root p /\ matches_at p k) \/
  (r = (CL_CLEAN, None, None) /\ forall p k, member root p -> i <= k + prefix_length p -> ~ matches_at p k).

Lemma answer_skip i r : answer_from (i + 1) r ->
  (forall p, member root p -> ~ matches_at p (i - prefix_length p)) -> answer_from i r.
Proof.
  intros [H|[-> H]] Hn; [by left|right]. split; [done|]. intros p k Hp Hi.
  destruct (Z.eq_dec (k + prefix_length p) i) as [<-|]; [|apply H; [done|lia]].
  specialize (Hn p Hp). by replace (k + prefix_length p - prefix_length p) with k in Hn by lia.
Qed.

(** A pattern that matches with its block at [i] is in the chain looked up there. *)
Lemma member_at i idx p : hash_at buffer i = Some idx -> member root p -> matches_at p (i - prefix_length p) ->
  exists chain, bm_suffix root !! idx = Some chain /\ p ∈ chain /\ bget buffer i = Some (pattern0 p).
Proof.
  intros Hh (idx' & chain & Hc & Hp) Hm. destruct (wf_chain root Hwf _ _ Hc) as [[Hok _ _] _].
  rewrite Forall_forall in Hok. destruct (occurs_hash idx' p _ (Hok p Hp) (proj1 Hm)) as (Hh' & Hf & _).
  replace (i - prefix_length p + prefix_length p) with i in * by lia. assert (idx' = idx) as -> by congruence. eauto.
Qed.

Lemma scan_loop_spec fuel info i : info_ok info -> 0 <= i <= len - 2 -> len - i <= Z.of_nat fuel ->
  exists r, scan_loop einfo map_len root buffer len offset fuel None info i = Ok r /\ answer_from i r.
Proof.
  revert info i. induction fuel as [|fuel IH]; intros info i Hinfo Hi Hf; [lia|]. cbn [scan_loop].
  unfold BM_BLOCK_SIZE, BM_MIN_LENGTH. destruct (i <? len - 3 + 1) eqn:Ei.
  2:{ eexists. split; [done|]. right. split; [done|]. intros p k (idx & chain & Hc & Hp) Hk Hm.
      destruct (wf_chain root Hwf _ _ Hc) as [[Hok _ _] _]. rewrite Forall_forall in Hok.
      destruct (occurs_hash idx p k (Hok p Hp) (proj1 Hm)) as (_ & _ & _ & ?). lia. }
  destruct (hash_at_spec buffer i Hbuf) as (idx & Hh & Hidx); [lia|lia|]. rewrite Hh. cbn [of_opt].
  unfold shift_at, suffix_at. destruct ((0 <=? idx) && (idx <? SIZE)) eqn:Er; [|lia]. cbn [of_opt].
  replace (i - 3 + 3) with i by lia. destruct (bget_is_Some buffer i) as [a Ha]; [lia|].
  assert (forall info', info_ok info' -> exists r,
     (let! (od, i') := of_opt (advance offset None i 1) in
      match i' with None => Ok (CL_CLEAN, None, od) | Some i' => scan_loop einfo map_len root buffer len offset fuel od info' i' end) = Ok r
     /\ answer_from (i + 1) r) as Hnext.
  { intros info' Hi'. cbn [advance of_opt]. rewrite (uint_small 32) by lia. apply IH; [done|lia|lia]. }
  destruct (bm_suffix root !! idx) as [chain|] eqn:Ec.
  - destruct (wf_chain root Hwf idx chain Ec) as [[Hok Hsort (h & t & Ht & Hcnt)] Hsh].
    rewrite Hsh. cbn [from_option id Z.eqb]. rewrite Ha. cbn [of_opt from_option id]. rewrite (is_bytes_get _ _ _ Hbuf Ha).
    assert (forall p, member root p -> pattern0 p <> a \/ p ∉ chain -> ~ matches_at p (i - prefix_length p)) as Hother.
    { intros p Hp Hor Hm. destruct (member_at i idx p Hh Hp Hm) as (c & Hc & Hpc & Hf0).
      assert (c = chain) as -> by congruence. assert (pattern0 p = a) by congruence. naive_solver. }
    rewrite Ht in *. rewrite <- Ht in *. destruct chain as [|h' t']; [done|]. injection Ht as -> ->.
    destruct ((cnt h =? 1) && negb (pattern0 h =? a)) eqn:E1.
    + destruct (Hnext info Hinfo) as (r & -> & Hr). exists r. split; [done|]. apply answer_skip; [done|].
      intros p Hp. apply Hother; [done|]. assert (t = []) as -> by (destruct t; [done|cbn in Hcnt; lia]).
      destruct (decide (p = h)) as [->|]; [left; lia|right; set_solver].
    + assert (Forall generic (h :: t)) as Hgc by (apply Forall_forall; intros q Hq; apply Hgen; by exists idx, (h :: t)).
      rewrite Forall_forall in Hgc. pose proof Hok as Hok'. rewrite Forall_forall in Hok'.
      destruct (walk_spec None idx (h :: t) false a info i info_ok (fun p => matches_at p (i - prefix_length p))) as (v & info' & -> & Hi' & Hv);
        [intros q info' Hq Hi'; apply (try_patt_spec idx); auto; lia|done|done|done|done|].
      cbn [of_opt]. destruct Hv as [(p & -> & Hp & Hm)|[-> Hn]].
      * eexists. split; [done|]. left. exists p, (i - prefix_length p). split; [done|]. split; [|done]. by exists idx, (h :: t).
      * destruct (Hnext info' Hi') as (r & -> & Hr). exists r. split; [done|]. apply answer_skip; [done|].
        intros p Hp. destruct (decide (pattern0 p = a)) as [Hp0|]; [|by apply Hother; auto].
        destruct (decide (p ∈ h :: t)) as [Hin|]; [by apply Hn|by apply Hother; auto].
  - assert (forall p, member root p -> ~ matches_at p (i - prefix_length p)) as Hno.
    { intros p Hp Hm. destruct (member_at i idx p Hh Hp Hm) as (c & Hc & _). congruence. }
    destruct (Hnext info Hinfo) as (r & E & Hr). exists r.
    split; [|by apply answer_skip]. destruct (bm_shift root !! idx) as [s|] eqn:Es; cbn [from_option id].
    + rewrite (wf_shift root Hwf idx s Es). cbn [Z.eqb]. rewrite Ha. exact E.
    + exact E.
Qed.

Lemma scanbuff_spec : 0 <= len ->
  exists r, cli_bm_scanbuff einfo map_len root buffer len offset None = Ok r /\ answer_from 0 r.
Proof.
  intros H0. unfold cli_bm_scanbuff, BM_MIN_LENGTH. destruct (len <? 3) eqn:E.
  - eexists. split; [done|]. right. split; [done|]. intros p k (idx & chain & Hc & Hp) Hk Hm.
    destruct (wf_chain root Hwf _ _ Hc) as [[Hok _ _] _]. rewrite Forall_forall in Hok. pose proof (Hok p Hp) as Hpo.
    destruct (occurs_hash idx p k Hpo (proj1 Hm)) as (_ & _ & ? & ?). destruct Hpo. lia.
  - apply scan_loop_spec; [split; cbn; auto|lia|lia].
Qed.
End Scan.

(** ** Adding patterns *)

Lemma chain_split_spec pt0 chain a b : chain_split pt0 chain = (a, b) -> StronglySorted desc chain ->
  chain = a ++ b /\ Forall (fun p => pt0 < pattern0 p) a /\ Forall (fun p => pattern0 p <= pt0) b.
Proof.
  revert a b. induction chain as [|p chain IH]; intros a b E Hs; cbn in E.
  { injection E as <- <-. by repeat split. }
  apply StronglySorted_inv in Hs as [Hs Hp]. destruct (pattern0 p <=? pt0) eqn:El.
  - injection E as <- <-. split; [done|]. split; [done|]. constructor; [lia|]. eapply Forall_impl; [exact Hp|].
    intros q Hq. unfold desc in Hq. lia.
  - destruct (chain_split pt0 chain) as [a' b'] eqn:E'. injection E as <- <-.
    destruct (IH a' b' eq_refl Hs) as (-> & Ha & Hb). split; [done|]. split; [|done]. constructor; [lia|done].
Qed.

(** A pattern without its counter. *)
Definition nocnt (p : patt) : patt := set_cnt p 0.

Lemma patt_ok_cnt idx p c : patt_ok idx p -> patt_ok idx (set_cnt p c).
Proof. intros [? ? ? ? ? ? ?]. by constructor. Qed.

Lemma desc_sorted_app a p b : StronglySorted desc (a ++ b) -> Forall (fun q => pattern0 p < pattern0 q) a ->
  Forall (fun q => pattern0 q <= pattern0 p) b -> StronglySorted desc (a ++ p :: b).
Proof.
  induction a as [|q a IH]; cbn; intros Hs Ha Hb.
  - constructor; [done|]. eapply Forall_impl; [exact Hb|]. done.
  - apply StronglySorted_inv in Hs as [Hs Hq]. apply Forall_cons in Ha as [Hqp Ha]. constructor; [by apply IH|].
    apply Forall_app in Hq as [Hq1 Hq2]. apply Forall_app. split; [done|]. constructor; [unfold desc; lia|done].
Qed.

Lemma sorted_head h h' t : pattern0 h = pattern0 h' -> StronglySorted desc (h :: t) -> StronglySorted desc (h' :: t).
Proof.
  intros E [Hs Hh]%StronglySorted_inv. constructor; [done|]. eapply Forall_impl; [exact Hh|]. unfold desc. intros q Hq. lia.
Qed.

(** The insertion keeps a chain in order and counts the new pattern. *)
Lemma chain_insert_spec idx p chain : patt_ok idx p -> cnt p = 0 -> Z.of_nat (length chain) < 2 ^ 16 - 1 ->
  chain = [] \/ chain_ok idx chain ->
  let chain' := chain_insert p (pattern0 p) chain in
  chain_ok idx chain' /\ length chain' = S (length chain) /\
  forall q, q ∈ nocnt <$> chain' <-> q ∈ nocnt <$> chain \/ q = nocnt p.
Proof.
  intros Hp H0 Hl Hc. cbn zeta. unfold chain_insert. destruct (chain_split (pattern0 p) chain) as [a b] eqn:E.
  assert (Forall (patt_ok idx) chain /\ StronglySorted desc chain) as [Hok Hs].
  { destruct Hc as [->|[? ? _]]; [by split; constructor|done]. }
  destruct (chain_split_spec _ _ _ _ E Hs) as (Hab & Ha & Hb). destruct a as [|h a].
  - cbn in Hab. subst b.
    assert (match chain with h :: _ => cnt h | [] => cnt p end = Z.of_nat (length chain)) as ->.
    { destruct chain as [|h t]; [done|]. destruct Hc as [|[_ _ (h' & t' & [= <- <-] & ->)]]; done. }
    split; [|split].
    + constructor.
      * constructor; [by apply patt_ok_cnt|done].
      * constructor; [done|]. eapply Forall_impl; [exact Hb|]. done.
      * do 2 eexists. split; [done|]. cbn [cnt set_cnt length]. rewrite (uint_small 16); lia.
    + done.
    + intros q. rewrite fmap_cons, elem_of_cons. naive_solver.
  - subst chain. destruct Hc as [|[_ _ (h' & t' & [= <- <-] & Hcnt)]]; [done|]. split; [|split].
    + constructor.
      * apply Forall_cons in Hok as [Hh Hok]. apply Forall_app in Hok as [Hoa Hob].
        constructor; [by apply patt_ok_cnt|]. apply Forall_app. split; [done|]. by constructor.
      * apply (sorted_head h); [done|]. by apply (desc_sorted_app (h :: a)).
      * do 2 eexists. split; [done|]. rewrite Hcnt. cbn [cnt set_cnt length] in *. rewrite !length_app in *. cbn [length] in *.
        rewrite (uint_small 16); lia.
    + cbn [length]. rewrite !length_app. cbn [length]. lia.
    + intros q. rewrite !fmap_cons, !fmap_app, !fmap_cons. change (nocnt (set_cnt h _)) with (nocnt h). set_solver.
Qed.

Lemma balance_spec fuel root pt len i : is_bytes pt -> len <= Z.of_nat (length pt) -> len < 2 ^ 16 -> 0 <= i <= len - 2 ->
  len - 2 - i < Z.of_nat fuel ->
  exists r, balance fuel root pt len i = Some r /\ match r with Some j => 0 <= j <= len - 3 | None => True end.
Proof.
  intros Hb Hl H16. revert i. induction fuel as [|fuel IH]; intros i Hi Hf; [lia|]. cbn [balance]. unfold BM_BLOCK_SIZE.
  destruct (i <? len - 3 + 1) eqn:E; [|by exists None].
  destruct (hash_at_spec pt i Hb) as (idx & -> & Hidx); [lia|lia|]. unfold suffix_at.
  destruct ((0 <=? idx) && (idx <? SIZE)) eqn:E2; [|lia].
  destruct (default [] _); [exists (Some i); split; [done|lia]|]. rewrite (uint_small 16) by lia. apply IH; lia.
Qed.

(** ** Signatures *)

(** A signature as the database gives it. *)
Record sig := Sig { s_bytes : list Z; s_name : list Z; s_offset : list Z; s_boundary : Z; s_filesize : Z }.

Definition s_new (s : sig) : patt := new_patt (s_bytes s) (s_name s) (s_boundary s) (s_filesize s).
Definition s_decoded (target : Z) (s : sig) : decoded := cli_caloff_decode (Some (s_offset s)) target (OffData 0 0 0 0) 0 0.

(** The signature as a pattern that was not shortened. *)
Definition s_patt (target : Z) (s : sig) : patt :=
  let d := s_decoded target s in
  Patt (s_bytes s) 0 (Z.of_nat (length (s_bytes s))) (s_name s) (data d) (off_min d) (off_max d) 0 0 (s_boundary s) (s_filesize s).

(** A signature that is long enough, fits the 16-bit length and has an offset
    that decodes. *)
Record sig_ok (target : Z) (s : sig) : Prop := {
  so_bytes : is_bytes (s_bytes s);
  so_len : 3 <= Z.of_nat (length (s_bytes s)) < 2 ^ 16;
  so_ret : ret (s_decoded target s) = CL_SUCCESS;
}.

(** The pattern [p] stands for the signature [s]: it was shortened and counted. *)
Definition stands_for (target : Z) (s : sig) (p : patt) : Prop :=
  exists i n c f, p = Patt (s_bytes s) i n (s_name s) (data (s_decoded target s)) (off_min (s_decoded target s))
    (off_max (s_decoded target s)) c f (s_boundary s) (s_filesize s).

Lemma stands_matches target s p map_len buffer len offset k : stands_for target s p ->
  matches map_len buffer len offset p k <-> matches map_len buffer len offset (s_patt target s) k.
Proof. intros (i & n & c & f & ->). done. Qed.

Lemma stands_generic target s p : stands_for target s p -> generic p <-> generic (s_patt target s).
Proof. intros (i & n & c & f & ->). done. Qed.

Lemma stands_nocnt target s p q : nocnt p = nocnt q -> stands_for target s p -> stands_for target s q.
Proof.
  intros E (i & n & c & f & ->). destruct q. unfold nocnt, set_cnt in E. cbn in E. injection E as <- <- <- <- <- <- <- <- <- <-.
  do 4 eexists. reflexivity.
Qed.

(** The matcher holds the signatures [ss]: every pattern stands for one of them,
    every one of them has a pattern, and the filter, if any, accepts them. *)
Record holds (root : matcher) (ss : list sig) : Prop := {
  h_wf : wf root;
  h_bound : bounded (Z.of_nat (length ss)) root;
  h_sound : forall p, member root p -> exists s, s ∈ ss /\ stands_for (mtype root) s p;
  h_complete : forall s, s ∈ ss -> exists p, member root p /\ stands_for (mtype root) s p;
  h_filter : forall f, mfilter root = Some f -> Filter.tab_ok f /\ Forall (fun s => Filter.accepts f (s_bytes s)) ss;
}.

Lemma holds_init target fo : (forall f, fo = Some f -> Filter.tab_ok f) ->
  holds (Matcher target ∅ ∅ [] false 0 0 0 fo) [].
Proof.
  intros Hf. constructor.
  - constructor; intros; cbn in *; by rewrite lookup_empty in *.
  - intros idx chain Hc. cbn in Hc. by rewrite lookup_empty in Hc.
  - intros p (idx & chain & Hc & _). cbn in Hc. by rewrite lookup_empty in Hc.
  - intros s Hs. by apply not_elem_of_nil in Hs.
  - intros f Hff. split; [by apply Hf|constructor].
Qed.

(** The filter after a signature was merged into it. *)
Lemma filter_step root s ss :
  (forall f, mfilter root = Some f -> Filter.tab_ok f /\ Forall (fun s => Filter.accepts f (s_bytes s)) ss) ->
  (2 <= length (s_bytes s))%nat ->
  exists fo, (match mfilter root with
        | None => Some None
        | Some f => let* (f, r) := Filter.filter_add_static f (s_bytes s) (Z.of_nat (length (s_bytes s))) in
                    Some (if r =? -1 then None else Some f)
        end) = Some fo /\ (fo = None <-> mfilter root = None) /\
    forall f, fo = Some f -> Filter.tab_ok f /\ Forall (fun s => Filter.accepts f (s_bytes s)) (ss ++ [s]).
Proof.
  intros Hh Hl. destruct (mfilter root) as [f|] eqn:E; [|by exists None].
  destruct (Hh f eq_refl) as [Hok Hacc].
  destruct (Filter.add_static_spec f (s_bytes s) Hok Hl) as (f' & r & -> & Hr & Hok' & Hle & Ha).
  destruct (r =? -1) eqn:Er; [lia|]. exists (Some f'). split; [done|]. split; [done|]. intros ? [= <-].
  split; [done|]. apply Forall_app. split; [|by constructor].
  eapply Forall_impl; [exact Hacc|]. intros q. by apply Filter.accepts_mono.
Qed.

(** Replacing one chain by the chain with a new pattern: the invariant holds, and
    the members are the old ones and the new one, up to the counters. *)
Lemma update_chain root root' n idx p :
  wf root -> bounded n root -> n < 2 ^ 16 - 1 -> patt_ok idx p -> cnt p = 0 ->
  bm_suffix root' = <[idx := chain_insert p (pattern0 p) (default [] (bm_suffix root !! idx))]> (bm_suffix root) ->
  bm_shift root' = <[idx := 0]> (bm_shift root) ->
  wf root' /\ bounded (Z.max n 0 + 1) root' /\
  (forall q, member root' q -> exists q', nocnt q = nocnt q' /\ (member root q' \/ q' = p)) /\
  (forall q, member root q \/ q = p -> exists q', nocnt q' = nocnt q /\ member root' q').
Proof.
  intros [Hwc Hws] Hb Hn Hpo Hc0 Hsuf Hshift. set (chain := default [] (bm_suffix root !! idx)) in *.
  assert (forall q, q ∈ chain -> member root q) as Hold.
  { intros q Hq. unfold chain in Hq. destruct (bm_suffix root !! idx) as [c|] eqn:E; cbn in Hq; [by exists idx, c|by apply not_elem_of_nil in Hq]. }
  assert ((chain = [] \/ chain_ok idx chain) /\ Z.of_nat (length chain) <= Z.max n 0) as [Hchain Hcl].
  { unfold chain. destruct (bm_suffix root !! idx) as [c|] eqn:E; cbn; [|auto with lia].
    split; [right; by apply Hwc|]. specialize (Hb _ _ E). lia. }
  destruct (chain_insert_spec idx p chain Hpo Hc0 ltac:(lia) Hchain) as (Hok' & Hlen' & Hmem').
  split; [|split; [|split]].
  - constructor.
    + intros j c Hj. rewrite Hsuf in Hj. rewrite Hshift. apply lookup_insert_Some in Hj as [[<- <-]|[Hne Hj]].
      * split; [done|]. apply lookup_insert_eq.
      * rewrite lookup_insert_ne by done. by apply Hwc.
    + intros j x Hj. rewrite Hshift in Hj. apply lookup_insert_Some in Hj as [[<- <-]|[Hne Hj]]; [done|by eapply Hws].
  - intros j c Hj. rewrite Hsuf in Hj. apply lookup_insert_Some in Hj as [[<- <-]|[Hne Hj]]; [lia|]. specialize (Hb j c Hj). lia.
  - intros q (j & c & Hj & Hq). rewrite Hsuf in Hj. apply lookup_insert_Some in Hj as [[<- <-]|[Hne Hj]].
    + destruct (proj1 (Hmem' (nocnt q))) as [Hq2|Hq2]; [by apply list_elem_of_fmap_2|..]; [|exists p; auto].
      apply list_elem_of_fmap in Hq2 as (q' & -> & Hq'). exists q'. auto.
    + exists q. split; [done|]. left. by exists j, c.
  - intros q Hq.
    assert (nocnt q ∈ nocnt <$> chain_insert p (pattern0 p) chain \/ exists j c, j <> idx /\ bm_suffix root !! j = Some c /\ q ∈ c)
      as [Hin|(j & c & Hne & Hj & Hqc)].
    { destruct Hq as [(j & c & Hj & Hqc)| ->]; [|left; apply Hmem'; auto].
      destruct (decide (j = idx)) as [->|]; [|right; eauto]. left. apply Hmem'. left. apply list_elem_of_fmap_2.
      unfold chain. by rewrite Hj. }
    + apply list_elem_of_fmap in Hin as (q' & Hqq & Hq'). exists q'. split; [done|].
      exists idx, (chain_insert p (pattern0 p) chain). rewrite Hsuf, lookup_insert_eq. done.
    + exists q. split; [done|]. exists j, c. rewrite Hsuf, lookup_insert_ne by done. done.
Qed.

Lemma holds_insert root root' ss s idx p :
  holds root ss -> Z.of_nat (length ss) < 2 ^ 16 - 1 -> stands_for (mtype root) s p -> patt_ok idx p -> cnt p = 0 ->
  mtype root' = mtype root ->
  bm_suffix root' = <[idx := chain_insert p (pattern0 p) (default [] (bm_suffix root !! idx))]> (bm_suffix root) ->
  bm_shift root' = <[idx := 0]> (bm_shift root) ->
  (forall f, mfilter root' = Some f -> Filter.tab_ok f /\ Forall (fun s => Filter.accepts f (s_bytes s)) (ss ++ [s])) ->
  holds root' (ss ++ [s]).
Proof.
  intros [Hwf Hb Hsnd Hcpl _] Hl Hst Hpo Hc0 Hty Hsuf Hshift Hf.
  destruct (update_chain root root' _ idx p Hwf Hb Hl Hpo Hc0 Hsuf Hshift) as (Hwf' & Hb' & Hback & Hfwd).
  constructor; [done| | | |done].
  - intros j c Hj. specialize (Hb' j c Hj). rewrite length_app. cbn. lia.
  - intros q Hq. rewrite Hty. destruct (Hback q Hq) as (q' & Eq & [Hq'| ->]).
    + destruct (Hsnd q' Hq') as (s' & Hs' & Hst'). exists s'. split; [apply elem_of_app; auto|]. by eapply stands_nocnt.
    + exists s. split; [apply elem_of_app; right; left|]. by eapply stands_nocnt.
  - intros s' Hs'. rewrite Hty. apply elem_of_app in Hs' as [Hs'|Hs'%list_elem_of_singleton].
    + destruct (Hcpl s' Hs') as (q & Hq & Hst'). destruct (Hfwd q (or_introl Hq)) as (q' & Eq & Hq').
      exists q'. split; [done|]. by eapply stands_nocnt.
    + subst s'. destruct (Hfwd p (or_intror eq_refl)) as (q' & Eq & Hq'). exists q'. split; [done|]. by eapply stands_nocnt.
Qed.

(** What [cli_bm_addpatt] does with a valid signature. *)
Lemma addpatt_shape root ss s : wf root -> sig_ok (mtype root) s ->
  (forall f, mfilter root = Some f -> Filter.tab_ok f /\ Forall (fun s => Filter.accepts f (s_bytes s)) ss) ->
  exists idx i f rel abs fo,
    let d := s_decoded (mtype root) s in
    let mn := if bm_offmode root && negb (od0 (data d) =? CLI_OFF_ABSOLUTE) then bm_patterns root else off_min d in
    let p := Patt (s_bytes s) i (Z.of_nat (length (s_bytes s)) - i) (s_name s) (data d) mn (off_max d) 0 f (s_boundary s) (s_filesize s) in
    cli_bm_addpatt root (s_new s) (s_offset s) true = Some (CL_SUCCESS,
      Matcher (mtype root) (<[idx := 0]> (bm_shift root))
        (<[idx := chain_insert p (pattern0 p) (default [] (bm_suffix root !! idx))]> (bm_suffix root))
        (if bm_offmode root then bm_pattab root ++ [p] else bm_pattab root) (bm_offmode root)
        (uint 32 (bm_patterns root + 1)) rel abs fo) /\
    patt_ok idx p /\ (fo = None <-> mfilter root = None) /\
    (forall f, fo = Some f -> Filter.tab_ok f /\ Forall (fun s => Filter.accepts f (s_bytes s)) (ss ++ [s])).
Proof.
  intros Hwf [Hby Hlen Hret] Hfilter. unfold cli_bm_addpatt, s_new, new_patt.
  cbn [plength bytes poffdata offset_min offset_max cnt virname boundary filesize].
  unfold BM_MIN_LENGTH, BM_BLOCK_SIZE. destruct (_ <? 3) eqn:E3; [lia|].
  change (cli_caloff_decode (Some (s_offset s)) (mtype root) (OffData 0 0 0 0) 0 0) with (s_decoded (mtype root) s).
  rewrite Hret. cbn [negb Z.eqb CL_SUCCESS].
  destruct (filter_step root s ss Hfilter) as (fo & -> & Hnone & Hfo); [lia|].
  destruct (balance_spec (S (length (s_bytes s))) root (s_bytes s) (Z.of_nat (length (s_bytes s))) 0 Hby) as (r & -> & Hr); [lia..|].
  set (i := default 0 r). assert (0 <= i <= Z.of_nat (length (s_bytes s)) - 3) as Hi by (unfold i; destruct r; cbn; lia).
  destruct (hash_at_spec (s_bytes s) i Hby) as (idx & Hidx & Hrange); [lia|lia|]. rewrite Hidx.
  destruct (bget_is_Some (s_bytes s) i) as [c0 Hc0]; [lia|]. rewrite Hc0, (is_bytes_get _ _ _ Hby Hc0).
  unfold shift_at, suffix_at. destruct ((0 <=? idx) && (idx <? SIZE)) eqn:Er; [|lia].
  assert (Z.min (default (BM_MIN_LENGTH - BM_BLOCK_SIZE + 1) (bm_shift root !! idx)) (3 - 3) = 0) as Hmin.
  { destruct (bm_shift root !! idx) as [x|] eqn:Ex; cbn; [|done]. by rewrite (wf_shift root Hwf idx x Ex). }
  cbv beta iota zeta. rewrite Hmin. set (k := od0 (data (s_decoded (mtype root) s))).
  exists idx, i, c0, (if negb (k =? CLI_OFF_ANY) && negb (k =? CLI_OFF_ABSOLUTE) then uint 32 (bm_reloff_num root + 1) else bm_reloff_num root),
    (if negb (k =? CLI_OFF_ANY) && (k =? CLI_OFF_ABSOLUTE) then uint 32 (bm_absoff_num root + 1) else bm_absoff_num root), fo. cbn zeta.
  split; [destruct (bm_offmode root), (k =? CLI_OFF_ABSOLUTE); reflexivity|].
  split; [constructor; cbn; try done; lia|]. done.
Qed.

Lemma addpatt_holds root ss s : holds root ss -> bm_offmode root = false -> sig_ok (mtype root) s ->
  Z.of_nat (length ss) < 2 ^ 16 - 1 ->
  exists root', cli_bm_addpatt root (s_new s) (s_offset s) true = Some (CL_SUCCESS, root') /\ holds root' (ss ++ [s]) /\
    mtype root' = mtype root /\ bm_offmode root' = false /\ (mfilter root' = None <-> mfilter root = None).
Proof.
  intros Hh Hoff Hs Hl. destruct (addpatt_shape root ss s (h_wf _ _ Hh) Hs (h_filter _ _ Hh)) as (idx & i & f & rel & abs & fo & E & Hpo & Hn & Hf).
  rewrite Hoff in *. cbn [andb] in *. eexists. split; [exact E|]. split; [|done].
  eapply (holds_insert root _ ss s idx); [done|done| |exact Hpo|done|done|reflexivity|done|exact Hf]. do 4 eexists. reflexivity.
Qed.
End BmFacts.
