(* ===== verification/BmOffset.v ===== *)
(** * The offset mode of the Boyer-Moore matcher

    For large executables the matcher does not look at every position:
    [cli_bm_initoff] computes where in the file each pattern would have to be,
    sorts these positions, and [cli_bm_scanbuff] jumps from one to the next.
    This file has [cli_bm_initoff] and the correctness of the mode. *)
From stdpp Require Import base numbers list list_numbers gmap.
From Stdlib Require Import ZArith Lia Bool Sorting.Sorted.
From S2P Require Import Prelude Dlp Filter CalOff QSort QSortFacts Bm BmFacts.

Local Open Scope Z_scope.

Module BmOffset.
Import Errors CalOff Bm BmFacts.

(** ** Computing the positions *)

Section Init.
Context (einfo : option exeinfo) (map_len target : Z).

(** [data->offtab[data->cnt] = v; if(v >= map->len) continue; data->cnt++;] where
    the table is the list of its first [cnt] entries. *)
Definition push (tab : list Z) (v : Z) : list Z := if map_len <=? v then tab else tab ++ [v].

(** The loop over the patterns: [inl] of an error code, or the two tables. *)
Fixpoint init_loop (ps : list patt) (info : target_info) (otab tab : list Z) : option (Z + list Z * list Z) :=
  match ps with
  | [] => Some (inr (otab, tab))
  | p :: ps =>
      if od0 (poffdata p) =? CLI_OFF_ABSOLUTE then
        init_loop ps info otab (push tab (uint 32 (offset_min p + prefix_length p)))
      else
        let* old := bget otab (offset_min p) in
        let* (r, info, mn, _) := cli_caloff einfo map_len target info (poffdata p) false old 0 in
        let* otab := bset otab (offset_min p) mn in
        if negb (r =? CL_SUCCESS) then Some (inl r)
        else if negb (mn =? CLI_OFF_NONE) && (uint 32 (mn + plength p) <=? fsize info) then
          let v := uint 32 (mn + prefix_length p) in
          if bool_decide (last tab = Some v) then init_loop ps info otab tab
          else init_loop ps info otab (push tab v)
        else init_loop ps info otab tab
  end.

(** [cli_bm_initoff].  [junk] is what the allocated array of offsets holds; [ok1]
    and [ok2] say whether the allocations succeed. *)
Definition cli_bm_initoff (root : matcher) (junk : list Z) (ok1 ok2 : bool) : res (Z * option bm_off) :=
  if bm_patterns root =? 0 then Ok (CL_SUCCESS, Some (BmOff [] [] 0 0))
  else if negb (Alloc.cli_malloc ok1 (bm_patterns root * 4)) then Ok (CL_EMEM, None)
  else if negb (Alloc.cli_malloc ok2 (bm_patterns root * 4)) then Ok (CL_EMEM, None)
  else
    let! r := of_opt (init_loop (take (Z.to_nat (bm_patterns root)) (bm_pattab root)) (TargetInfo map_len (ExeInfo [] 0 0) 0) junk []) in
    match r with
    | inl e => Ok (e, None)
    | inr (otab, tab) =>
        let! sorted := QSort.cli_qsort QSort.CMP1 4 tab in
        Ok (CL_SUCCESS, Some (BmOff otab sorted (Z.of_nat (length sorted)) 0))
    end.
End Init.

(** ** Scanning by positions *)

(** Where in the file a pattern must be. *)
Definition resolved (d : bm_off) (p : patt) : option Z :=
  if od0 (poffdata p) =? CLI_OFF_ABSOLUTE then Some (offset_min p)
  else match bget (otab d) (offset_min p) with
       | Some o => if o =? CLI_OFF_NONE then None else Some o
       | None => None
       end.

(** The tables agree with the matcher: they are sorted, small, and every pattern
    that is not at an absolute offset has an entry. *)
Record tables_ok (root : matcher) (d : bm_off) : Prop := {
  t_cnt : ocnt d = Z.of_nat (length (offtab d));
  t_sorted : StronglySorted Z.le (offtab d);
  t_range : Forall (fun o => 0 <= o < 2 ^ 31) (offtab d);
  t_entry : forall p, member root p -> od0 (poffdata p) <> CLI_OFF_ABSOLUTE -> is_Some (bget (otab d) (offset_min p));
}.

Lemma sorted_lookup (l : list Z) i j a b : StronglySorted Z.le l -> l !! i = Some a -> l !! j = Some b -> (i <= j)%nat -> a <= b.
Proof.
  intros Hs. revert i j. induction Hs as [|x l Hs IH Hx]; intros i j Ha Hb Hij; [by rewrite lookup_nil in Ha|].
  rewrite Forall_forall in Hx. destruct i as [|i], j as [|j]; cbn in Ha, Hb; [|..|lia|].
  - injection Ha as ->. injection Hb as ->. lia.
  - injection Ha as ->. apply Hx. by apply list_elem_of_lookup_2 in Hb.
  - eapply IH; eauto. lia.
Qed.

Section Scan.
Context (einfo : option exeinfo) (map_len : Z) (root : matcher) (buffer : list Z) (len offset : Z).
Hypothesis Hbuf : is_bytes buffer.
Hypothesis Hlen : len <= Z.of_nat (length buffer).
Hypothesis Hlen32 : len < 2 ^ 31.
Hypothesis Hoff : 0 <= offset /\ offset + len < 2 ^ 31.
Hypothesis Hwf : wf root.

(** The pattern is in the buffer, at the place in the file where it must be. *)
Definition placed (d : bm_off) (p : patt) (i : Z) : Prop :=
  resolved d p = Some (offset + i - prefix_length p) /\ text_at buffer len p (i - prefix_length p).

Lemma entry d i o : tables_ok root d -> bget (offtab d) i = Some o -> 0 <= o < 2 ^ 31.
Proof.
  intros Ht Hg. pose proof (bget_Some _ _ _ Hg). rewrite bget_lookup in Hg by lia.
  pose proof (t_range _ _ Ht) as HF. by eapply Forall_lookup_1 in HF.
Qed.

Lemma entry_mono d i j a b : tables_ok root d -> i <= j -> bget (offtab d) i = Some a -> bget (offtab d) j = Some b -> a <= b.
Proof.
  intros Ht Hij Ha Hb. pose proof (bget_Some _ _ _ Ha). rewrite bget_lookup in Ha, Hb by lia.
  eapply sorted_lookup; [apply Ht|exact Ha|exact Hb|lia].
Qed.

Lemma entry_Some d i : tables_ok root d -> 0 <= i < ocnt d -> is_Some (bget (offtab d) i).
Proof. intros Ht Hi. rewrite (t_cnt _ _ Ht) in Hi. by apply bget_is_Some. Qed.

Lemma entry_lt d i o : tables_ok root d -> bget (offtab d) i = Some o -> 0 <= i < ocnt d.
Proof. intros Ht Hg. rewrite (t_cnt _ _ Ht). by eapply bget_Some. Qed.

Lemma try_placed d idx p info i : tables_ok root d -> member root p -> patt_ok idx p -> 0 <= i < len ->
  exists v info', try_patt einfo map_len root buffer len offset (Some d) p info i = Some (v, info') /\ True /\
    ((v = Match p /\ placed d p i) \/ (v = Next /\ ~ placed d p i)).
Proof.
  intros Ht Hm Hp Hi. pose proof Hp as [H0 H3 Htot H16 _ _ _].
  assert (exists b, offdata_skip offset (Some d) p i = Some b /\
    (prefix_length p <= i -> b = false <-> resolved d p = Some (offset + i - prefix_length p))) as (b & Hb & Hres).
  { unfold offdata_skip, resolved. destruct (od0 (poffdata p) =? CLI_OFF_ABSOLUTE) eqn:Ea.
    - eexists. split; [done|]. intros Hpi. rewrite (uint_small 32) by lia. rewrite negb_false_iff, Z.eqb_eq. split; congruence.
    - destruct (t_entry _ _ Ht p Hm ltac:(lia)) as [o ->]. eexists. split; [done|]. intros Hpi. rewrite (uint_small 32) by lia.
      destruct (o =? CLI_OFF_NONE) eqn:En; cbn [orb]; [done|]. rewrite negb_false_iff, Z.eqb_eq. split; congruence. }
  destruct (try_text einfo map_len root buffer len offset Hbuf Hlen (Some d) idx p info i b Hp Hi Hb) as (t & Htxt & ->).
  assert (placed d p i <-> t && negb b = true) as Hpl.
  { unfold placed. rewrite andb_true_iff, negb_true_iff, Htxt. split.
    - intros [Hr Htx]. split; [done|]. apply Hres; [destruct Htx as ((? & _) & _); lia|done].
    - intros [Htx Hbf]. split; [|done]. apply Hres; [destruct Htx as ((? & _) & _); lia|done]. }
  destruct (t && negb b); do 2 eexists; (split; [done|]); (split; [done|]); [left|right]; (split; [done|]); rewrite Hpl; done.
Qed.

Lemma forward_spec d off fuel p : tables_ok root d -> 0 <= p <= ocnt d -> ocnt d - p < Z.of_nat fuel ->
  exists p', forward fuel d off p = Some p' /\ p <= p' <= ocnt d /\
    (forall k o, p <= k < p' -> bget (offtab d) k = Some o -> o <= off) /\
    (forall o, bget (offtab d) p' = Some o -> off < o).
Proof.
  intros Ht. revert p. induction fuel as [|fuel IH]; intros p Hp Hf; [lia|]. cbn [forward].
  destruct (p <? ocnt d) eqn:E.
  2:{ exists p. split; [done|]. split; [lia|]. split; [intros; lia|]. intros o Ho. apply (entry_lt d p o Ht) in Ho. lia. }
  destruct (entry_Some d p Ht) as [o Ho]; [lia|]. rewrite Ho. destruct (o <=? off) eqn:Eo.
  - destruct (IH (p + 1)) as (p' & -> & Hr & H1 & H2); [lia|lia|]. exists p'. split; [done|]. split; [lia|]. split; [|done].
    intros k o' Hk Hg. destruct (Z.eq_dec k p) as [->|]; [assert (o' = o) by congruence; lia|]. apply (H1 k); [lia|done].
  - exists p. split; [done|]. split; [lia|]. split; [intros; lia|]. intros o' Ho'. assert (o' = o) by congruence. lia.
Qed.

(** Where the next buffer can begin after the scan of this one. *)
Definition next_ok (d : bm_off) (o : Z) : Prop :=
  0 <= pos d <= ocnt d /\ (pos d = ocnt d \/ exists x, bget (offtab d) (pos d) = Some x /\ o <= x).

(** The answer for the positions from entry [j] of the table on. *)
Definition off_answer (d : bm_off) (j : Z) (r : Z * option patt * option bm_off) : Prop :=
  (exists p i d', r = (CL_VIRUS, Some p, Some d') /\ member root p /\ placed d p i) \/
  (exists q, r = (CL_CLEAN, None, Some (set_pos d q)) /\ next_ok (set_pos d q) (offset + len - 2) /\
     forall p i k, member root p -> j <= k -> bget (offtab d) k = Some (offset + i) -> ~ placed d p i).

Lemma placed_block d p i : member root p -> placed d p i ->
  exists idx chain, bm_suffix root !! idx = Some chain /\ p ∈ chain /\ hash_at buffer i = Some idx /\
    bget buffer i = Some (pattern0 p) /\ i + 2 < len.
Proof.
  intros (idx & chain & Hc & Hp) [_ [Ho _]]. exists idx, chain. destruct (wf_chain root Hwf _ _ Hc) as [[Hok _ _] _].
  rewrite Forall_forall in Hok. destruct (occurs_hash buffer len idx p _ (Hok p Hp) Ho) as (H1 & H2 & _ & H4).
  replace (i - prefix_length p + prefix_length p) with i in * by lia. done.
Qed.

(** The step to the next entry, when nothing is placed at the current one. *)
Lemma advance_answer fuel d info i shift :
  tables_ok root d -> 0 <= pos d < ocnt d -> bget (offtab d) (pos d) = Some (offset + i) -> 0 <= i < len - 2 ->
  (forall p, member root p -> ~ placed d p i) ->
  (forall d' info' i', tables_ok root d' -> 0 <= pos d' < ocnt d' -> bget (offtab d') (pos d') = Some (offset + i') -> i < i' ->
     exists r, scan_loop einfo map_len root buffer len offset fuel (Some d') info' i' = Ok r /\ off_answer d' (pos d') r) ->
  exists r, (let! (od, i') := of_opt (advance offset (Some d) i shift) in
      match i' with None => Ok (CL_CLEAN, None, od) | Some i' => scan_loop einfo map_len root buffer len offset fuel od info i' end) = Ok r
    /\ off_answer d (pos d) r.
Proof.
  intros Ht Hpos Hcur Hi Hnone IH. unfold advance, BM_MIN_LENGTH, BM_BLOCK_SIZE.
  rewrite (uint_small 32 (offset + i - 3 + 3)) by lia. replace (offset + i - 3 + 3) with (offset + i) by lia.
  destruct (forward_spec d (offset + i) (S (Z.to_nat (ocnt d))) (pos d) Ht) as (p' & -> & Hp' & Hle & Hgt); [lia|lia|].
  assert (forall k p x, member root p -> pos d <= k < p' -> bget (offtab d) k = Some (offset + x) -> ~ placed d p x) as Hskip.
  { intros k p x Hm Hk Hg. pose proof (Hle k _ Hk Hg). pose proof (entry_mono d (pos d) k _ _ Ht ltac:(lia) Hcur Hg).
    replace x with i by lia. by apply Hnone. }
  destruct (p' =? ocnt d) eqn:Ep.
  - eexists. split; [done|]. right. exists p'. split; [done|]. split; [split; cbn; lia|].
    intros p x k Hm Hk Hg. pose proof (entry_lt d k _ Ht Hg). apply (Hskip k); [done|lia|done].
  - destruct (entry_Some d p' Ht) as [o Ho]; [lia|]. rewrite Ho. specialize (Hgt o Ho). pose proof (entry d p' o Ht Ho).
    destruct (o <=? offset + i) eqn:Eo; [lia|]. cbn [of_opt]. rewrite (uint_small 32) by lia.
    destruct (IH (set_pos d p') info (i + (o - (offset + i)))) as (r & -> & Hr);
      [destruct Ht; by constructor|cbn; lia|cbn; rewrite Ho; f_equal; lia|lia|].
    exists r. split; [done|]. destruct Hr as [Hv|(q & -> & Hq & Hn)]; [by left|right]. exists q. split; [done|]. split; [done|].
    intros p x k Hm Hk Hg. destruct (Z.lt_ge_cases k p'); [by apply (Hskip k)|]. by apply (Hn p x k).
Qed.

Lemma scan_loop_placed fuel d info i :
  tables_ok root d -> 0 <= pos d < ocnt d -> bget (offtab d) (pos d) = Some (offset + i) -> 0 <= i ->
  Z.max (len - 2 - i) 0 < Z.of_nat fuel ->
  exists r, scan_loop einfo map_len root buffer len offset fuel (Some d) info i = Ok r /\ off_answer d (pos d) r.
Proof.
  revert d info i. induction fuel as [|fuel IH]; intros d info i Ht Hpos Hcur Hi Hf; [lia|]. cbn [scan_loop].
  unfold BM_BLOCK_SIZE, BM_MIN_LENGTH. destruct (i <? len - 3 + 1) eqn:Ei.
  2:{ eexists. split; [done|]. right. exists (pos d). split; [by destruct d|].
      split; [split; [cbn; lia|right; exists (offset + i); split; [done|lia]]|].
      intros p x k Hm Hk Hg Hpl. destruct (placed_block d p x Hm Hpl) as (_ & _ & _ & _ & _ & _ & Hx).
      pose proof (entry_mono d (pos d) k _ _ Ht Hk Hcur Hg). lia. }
  destruct (hash_at_spec buffer i Hbuf) as (idx & Hh & Hidx); [lia|lia|]. rewrite Hh. cbn [of_opt].
  unfold shift_at, suffix_at. destruct ((0 <=? idx) && (idx <? SIZE)) eqn:Er; [|lia]. cbn [of_opt].
  replace (i - 3 + 3) with i by lia. destruct (bget_is_Some buffer i) as [a Ha]; [lia|].
  assert (forall info' shift, (forall p, member root p -> ~ placed d p i) -> exists r,
     (let! (od, i') := of_opt (advance offset (Some d) i shift) in
      match i' with None => Ok (CL_CLEAN, None, od) | Some i' => scan_loop einfo map_len root buffer len offset fuel od info' i' end) = Ok r
     /\ off_answer d (pos d) r) as Hnext.
  { intros info' shift Hn. apply advance_answer; auto; [lia|]. intros d' info2 i' Ht' Hp' Hc' Hi'. apply IH; auto; lia. }
  destruct (bm_suffix root !! idx) as [chain|] eqn:Ec.
  - destruct (wf_chain root Hwf idx chain Ec) as [[Hok Hsort (h & t & -> & Hcnt)] Hsh].
    rewrite Hsh. cbn [from_option id Z.eqb]. rewrite Ha. cbn [of_opt from_option id]. rewrite (is_bytes_get _ _ _ Hbuf Ha).
    assert (forall p, member root p -> placed d p i -> p ∈ h :: t /\ pattern0 p = a) as Hin.
    { intros p Hp Hm. destruct (placed_block d p i Hp Hm) as (idx' & c & Hc & Hpc & Hh' & Hf0 & _).
      assert (idx' = idx) as -> by congruence. assert (c = h :: t) as -> by congruence. split; [done|congruence]. }
    destruct ((cnt h =? 1) && negb (pattern0 h =? a)) eqn:E1.
    + apply Hnext. intros p Hp Hm. destruct (Hin p Hp Hm) as [Hp1 Hp2].
      assert (t = []) as -> by (destruct t; [done|cbn in Hcnt; lia]). apply list_elem_of_singleton in Hp1 as ->. lia.
    + pose proof Hok as Hok'. rewrite Forall_forall in Hok'.
      destruct (walk_spec einfo map_len root buffer len offset (Some d) idx (h :: t) false a info i (fun _ => True) (fun p => placed d p i))
        as (v & info' & -> & _ & Hv); [|done|done|done|done|].
      { intros q info' Hq _. apply (try_placed d idx); auto; [by exists idx, (h :: t)|lia]. }
      cbn [of_opt]. destruct Hv as [(p & -> & Hp & Hm)|[-> Hn]].
      * eexists. split; [done|]. left. exists p, i, d. split; [done|]. split; [by exists idx, (h :: t)|done].
      * apply Hnext. intros p Hp Hm. destruct (Hin p Hp Hm) as [Hp1 Hp2]. by apply (Hn p).
  - assert (forall p, member root p -> ~ placed d p i) as Hno.
    { intros p Hp Hm. destruct (placed_block d p i Hp Hm) as (idx' & c & Hc & _ & Hh' & _). congruence. }
    destruct (bm_shift root !! idx) as [x|] eqn:Es; cbn [from_option id].
    + rewrite (wf_shift root Hwf idx x Es). cbn [Z.eqb]. rewrite Ha. by apply Hnext.
    + by apply Hnext.
Qed.

Lemma backward_spec d fuel p : tables_ok root d -> 0 <= p < ocnt d -> p < Z.of_nat fuel ->
  exists p', backward offset fuel d p = Some p' /\ 0 <= p' <= p /\
    (forall o, bget (offtab d) p' = Some o -> p' = 0 \/ o <= offset) /\
    (forall k o, p' < k <= p -> bget (offtab d) k = Some o -> offset < o).
Proof.
  intros Ht. revert p. induction fuel as [|fuel IH]; intros p Hp Hf; [lia|]. cbn [backward].
  destruct (p =? 0) eqn:E0; [exists p; split; [done|]; split; [lia|]; split; [intros; lia|intros; lia]|].
  destruct (entry_Some d p Ht) as [o Ho]; [lia|]. rewrite Ho. destruct (offset <? o) eqn:Eo.
  - destruct (IH (p - 1)) as (p' & -> & Hr & H1 & H2); [lia|lia|]. exists p'. split; [done|]. split; [lia|]. split; [done|].
    intros k o' Hk Hg. destruct (Z.eq_dec k p) as [->|]; [assert (o' = o) by congruence; lia|]. apply (H2 k); [lia|done].
  - exists p. split; [done|]. split; [lia|]. split; [|intros; lia]. intros o' Ho'. right. assert (o' = o) by congruence. lia.
Qed.

Lemma start_spec d : tables_ok root d -> next_ok d offset ->
  exists q oi, start offset d = Some (set_pos d q, oi) /\
    match oi with
    | None => q = ocnt d /\ forall k o, bget (offtab d) k = Some o -> o < offset
    | Some i => 0 <= q < ocnt d /\ bget (offtab d) q = Some (offset + i) /\ 0 <= i /\
        forall k o, bget (offtab d) k = Some o -> offset <= o -> exists k', q <= k' /\ bget (offtab d) k' = Some o
    end.
Proof.
  intros Ht [Hp Hr]. unfold start. destruct (ocnt d =? 0) eqn:E0.
  { exists (pos d), None. split; [by destruct d|]. split; [lia|]. intros k o Hg. apply (entry_lt d k o Ht) in Hg. lia. }
  set (p0 := if pos d =? ocnt d then pos d - 1 else pos d).
  assert (0 <= p0 < ocnt d) as Hp0 by (unfold p0; case_match; lia).
  destruct (backward_spec d (S (Z.to_nat p0)) p0 Ht Hp0) as (p1 & -> & Hp1 & H1 & H2); [lia|].
  destruct (entry_Some d p1 Ht) as [o1 Ho1]; [lia|]. rewrite Ho1. specialize (H1 o1 Ho1).
  destruct (o1 <? offset) eqn:Eo.
  - assert (p1 < p0 \/ p1 + 1 = ocnt d) as Hcase.
    { destruct (Z.eq_dec p1 p0) as [->|]; [|lia]. right. unfold p0 in *. destruct (pos d =? ocnt d) eqn:Ep; [lia|].
      destruct Hr as [?|(x & Hx & ?)]; [lia|]. assert (x = o1) by congruence. lia. }
    assert (forall k o, bget (offtab d) k = Some o -> offset <= o -> p1 + 1 <= k) as Hafter.
    { intros k o Hg Hge. destruct (Z.lt_ge_cases p1 k); [lia|]. pose proof (entry_mono d k p1 _ _ Ht ltac:(lia) Hg Ho1). lia. }
    destruct (ocnt d <=? p1 + 1) eqn:Ec.
    + exists (p1 + 1), None. split; [done|]. split; [lia|]. intros k o Hg. destruct (Z.lt_ge_cases o offset); [done|].
      specialize (Hafter k o Hg ltac:(lia)). apply (entry_lt d k o Ht) in Hg. lia.
    + destruct (entry_Some d (p1 + 1) Ht) as [o2 Ho2]; [lia|]. rewrite Ho2. pose proof (entry d _ _ Ht Ho2).
      pose proof (H2 (p1 + 1) o2 ltac:(lia) Ho2). exists (p1 + 1), (Some (o2 - offset)).
      rewrite (uint_small 32) by lia. split; [done|]. split; [lia|]. split; [rewrite Ho2; f_equal; lia|]. split; [lia|].
      intros k o Hg Hge. exists k. split; [by eapply Hafter|done].
  - destruct (ocnt d <=? p1) eqn:Ec; [lia|]. rewrite Ho1. pose proof (entry d _ _ Ht Ho1).
    exists p1, (Some (o1 - offset)). rewrite (uint_small 32) by lia. split; [done|]. split; [lia|].
    split; [rewrite Ho1; f_equal; lia|]. split; [lia|]. intros k o Hg Hge. destruct (Z.lt_ge_cases k p1); [|by exists k].
    exists p1. split; [lia|]. rewrite Ho1. f_equal. pose proof (entry_lt d k o Ht Hg). pose proof (entry_mono d k p1 _ _ Ht ltac:(lia) Hg Ho1). lia.
Qed.

(** The scan of a buffer by positions. *)
Lemma scanbuff_placed d : tables_ok root d -> next_ok d offset -> 0 <= len ->
  exists r, cli_bm_scanbuff einfo map_len root buffer len offset (Some d) = Ok r /\
    ((exists p i d', r = (CL_VIRUS, Some p, Some d') /\ member root p /\ placed d p i) \/
     (exists d', r = (CL_CLEAN, None, Some d') /\
        (3 <= len -> next_ok d' (offset + len - 2) /\ d' = set_pos d (pos d')) /\
        forall p i k, member root p -> bget (offtab d) k = Some (offset + i) -> ~ placed d p i)).
Proof.
  intros Ht Hn H0. unfold cli_bm_scanbuff, BM_MIN_LENGTH. destruct (len <? 3) eqn:E3.
  { eexists. split; [done|]. right. exists d. split; [done|]. split; [intros; lia|]. intros p i k Hm _ Hpl.
    destruct (placed_block d p i Hm Hpl) as (idx & c & Hc & Hpc & _ & Hg & Hx). apply bget_Some in Hg. lia. }
  destruct (start_spec d Ht Hn) as (q & oi & -> & Hq). cbn [of_opt]. destruct oi as [i|].
  2:{ destruct Hq as [-> Hq]. eexists. split; [done|]. right. exists (set_pos d (ocnt d)). split; [done|].
      split; [intros _; split; [split; [cbn; rewrite (t_cnt _ _ Ht); lia|by left]|done]|]. intros p i k Hm Hg Hpl. specialize (Hq k _ Hg).
      destruct (placed_block d p i Hm Hpl) as (_ & _ & _ & _ & _ & Hb & _). apply bget_Some in Hb. lia. }
  destruct Hq as (Hqr & Hcur & Hi & Hall).
  destruct (scan_loop_placed (Z.to_nat len) (set_pos d q) no_info i) as (r & -> & Hr);
    [destruct Ht; by constructor|done|done|done|lia|].
  exists r. split; [done|]. destruct Hr as [Hv|(q' & -> & Hq' & Hno)]; [by left|right]. eexists. split; [done|].
  split; [done|]. intros p x k Hm Hg Hpl. destruct (placed_block d p x Hm Hpl) as (_ & _ & _ & _ & _ & Hb & _). apply bget_Some in Hb.
  destruct (Hall k _ Hg ltac:(lia)) as (k' & Hk' & Hg'). by apply (Hno p x k' Hm Hk' Hg').
Qed.
End Scan.
End BmOffset.
