(* ===== verification/BmOffProps.v ===== *)
(** * The offset mode finds every signature at its place

    Signatures added in offset mode, the positions computed by [cli_bm_initoff]
    and the scan by positions together: a signature is reported exactly when its
    bytes are where its offset says. *)
From stdpp Require Import base numbers list list_numbers gmap.
From Stdlib Require Import ZArith Lia Bool Sorting.Sorted.
From S2P Require Import Prelude Dlp Filter CalOff QSort QSortFacts Bm BmFacts BmOffset.

Local Open Scope Z_scope.

Module BmOffProps.
Import Errors CalOff Bm BmFacts BmOffset.

(** ** Where an offset points *)

(** The file offset that an offset of a signature stands for, in a file of
    [map_len] bytes whose executable header is [e]. *)
Definition place (e : exeinfo) (map_len : Z) (d : offdata) : Z :=
  if od0 d =? CLI_OFF_ABSOLUTE then od1 d
  else if od0 d =? CLI_OFF_EOF_MINUS then uint 32 (map_len - od1 d)
  else if od0 d =? CLI_OFF_EP_PLUS then uint 32 (ep e + od1 d)
  else if od0 d =? CLI_OFF_EP_MINUS then uint 32 (ep e - od1 d)
  else if od0 d =? CLI_OFF_SL_PLUS then uint 32 (default 0 (bget (section_raw e) (nsections e - 1)) + od1 d)
  else if nsections e <=? od3 d then CLI_OFF_NONE
  else uint 32 (default 0 (bget (section_raw e) (od3 d)) + od1 d).

(** The kinds of offsets that [cli_parse_add] leaves to the matcher in this mode: a
    position without a shift, since lines with a floating offset such as "10,5" go to
    the Aho-Corasick matcher. *)
Definition positional (d : offdata) : Prop :=
  (od0 d = CLI_OFF_ABSOLUTE \/ od0 d = CLI_OFF_EOF_MINUS \/ od0 d = CLI_OFF_EP_PLUS \/ od0 d = CLI_OFF_EP_MINUS \/
   od0 d = CLI_OFF_SL_PLUS \/ od0 d = CLI_OFF_SX_PLUS) /\ 0 <= od3 d /\ od2 d = 0.

(** An executable with a section table. *)
Definition exe_ok (e : exeinfo) : Prop := Z.of_nat (length (section_raw e)) = nsections e /\ 1 <= nsections e.

Definition info_of (e : exeinfo) (map_len : Z) (info : target_info) : Prop :=
  fsize info = map_len /\ (status info = 0 \/ status info = 1 /\ exe info = e).

Lemma caloff_place e map_len target info d mn : exe_ok e -> target = 1 \/ target = 6 \/ target = 9 -> positional d ->
  od0 d <> CLI_OFF_ABSOLUTE -> info_of e map_len info ->
  exists info', cli_caloff (Some e) map_len target info d false mn 0 = Some (CL_SUCCESS, info', place e map_len d, 0) /\
    info_of e map_len info'.
Proof.
  intros [Hlen Hn] Ht (Hk & H3 & _) Habs [Hfs Hst]. unfold cli_caloff, place.
  destruct (status info =? -1) eqn:E1; [lia|]. destruct (od0 d =? CLI_OFF_ABSOLUTE) eqn:Ea; [lia|].
  destruct (od0 d =? CLI_OFF_EOF_MINUS) eqn:Ee.
  { assert ((if fsize info =? 0 then TargetInfo map_len (exe info) (status info) else info) = info) as ->.
    { destruct (fsize info =? 0) eqn:E0; [|done]. destruct info; cbn in *. f_equal. lia. }
    exists info. split; [|by split]. unfold relative. rewrite Ee. cbn. by rewrite Hfs. }
  assert (exists info', info_of e map_len info' /\ exe info' = e /\
    (if status info =? 0 then
       if negb (target =? 1) && negb (target =? 6) && negb (target =? 9) then Some (CL_EMALFDB, info, mn, 0)
       else relative (TargetInfo (fsize info) e 1) d false mn 0
     else relative info d false mn 0) = relative info' d false mn 0) as (info' & Hi' & He & ->).
  { destruct (status info =? 0) eqn:E0.
    - assert (negb (target =? 1) && negb (target =? 6) && negb (target =? 9) = false) as -> by lia.
      eexists. split; [|split; [|reflexivity]]; [split; cbn; auto|done].
    - exists info. split; [by split|]. split; [destruct Hst as [?|[_ ?]]; [lia|done]|done]. }
  exists info'. split; [|done]. unfold relative. rewrite He, Ee.
  destruct (od0 d =? CLI_OFF_EP_PLUS) eqn:Eep; [done|]. destruct (od0 d =? CLI_OFF_EP_MINUS) eqn:Eem; [done|].
  destruct (od0 d =? CLI_OFF_SL_PLUS) eqn:Esl.
  { destruct (bget_is_Some (section_raw e) (nsections e - 1)) as [x ->]; [lia|]. done. }
  destruct (od0 d =? CLI_OFF_SX_PLUS) eqn:Esx; [|lia]. destruct (nsections e <=? od3 d) eqn:En; [done|].
  destruct (bget_is_Some (section_raw e) (od3 d)) as [x ->]; [lia|]. done.
Qed.

(** ** The loop of [cli_bm_initoff] *)

Section Init.
Context (e : exeinfo) (map_len target : Z).
Hypothesis He : exe_ok e.
Hypothesis Ht : target = 1 \/ target = 6 \/ target = 9.
Hypothesis Hmap : 0 <= map_len < 2 ^ 31.

(** A pattern of the table at its index: its place is in the array of offsets. *)
Definition indexed (i : Z) (p : patt) : Prop :=
  positional (poffdata p) /\
  (if od0 (poffdata p) =? CLI_OFF_ABSOLUTE then offset_min p = od1 (poffdata p) else offset_min p = i) /\
  0 <= prefix_length p /\ 0 < plength p /\ 0 <= place e map_len (poffdata p).

(** The position that the scan must visit for the pattern. *)
Definition covered (tab : list Z) (p : patt) : Prop :=
  place e map_len (poffdata p) + prefix_length p + plength p <= map_len -> place e map_len (poffdata p) + prefix_length p ∈ tab.

Lemma push_spec tab v : Forall (fun o => 0 <= o < map_len) tab -> 0 <= v ->
  Forall (fun o => 0 <= o < map_len) (push map_len tab v) /\ (forall x, x ∈ tab -> x ∈ push map_len tab v) /\
  (v < map_len -> v ∈ push map_len tab v).
Proof.
  intros Hf Hv. unfold push. destruct (map_len <=? v) eqn:E.
  - split; [done|]. split; [done|lia].
  - split; [apply Forall_app; split; [done|]; constructor; [lia|done]|]. split; [intros; apply elem_of_app; auto|].
    intros _. apply elem_of_app. right. left.
Qed.

Lemma init_loop_spec ps j info ot tab : Z.of_nat (length ps) + j <= Z.of_nat (length ot) -> 0 <= j ->
  (forall k p, ps !! k = Some p -> indexed (j + Z.of_nat k) p) -> info_of e map_len info -> Forall (fun o => 0 <= o < map_len) tab ->
  exists ot' tab', init_loop (Some e) map_len target ps info ot tab = Some (inr (ot', tab')) /\ length ot' = length ot /\
    (forall i, 0 <= i < j -> bget ot' i = bget ot i) /\
    (forall k p, ps !! k = Some p -> od0 (poffdata p) <> CLI_OFF_ABSOLUTE -> bget ot' (j + Z.of_nat k) = Some (place e map_len (poffdata p))) /\
    Forall (fun o => 0 <= o < map_len) tab' /\ (forall x, x ∈ tab -> x ∈ tab') /\ (forall k p, ps !! k = Some p -> covered tab' p).
Proof.
  revert j info ot tab. induction ps as [|p ps IH]; intros j info ot tab Hl Hj Hidx Hinfo Htab; cbn [init_loop].
  { exists ot, tab. split; [done|]. split; [done|]. split; [done|]. split; [intros k p Hk; by rewrite lookup_nil in Hk|].
    split; [done|]. split; [done|]. intros k p Hk. by rewrite lookup_nil in Hk. }
  cbn [length] in Hl. pose proof (Hidx O p eq_refl) as (Hpos & Hmin & Hpl & Hle & Hpla). rewrite Z.add_0_r in Hmin.
  assert (forall k q, ps !! k = Some q -> indexed (j + 1 + Z.of_nat k) q) as Hidx'.
  { intros k q Hk. replace (j + 1 + Z.of_nat k) with (j + Z.of_nat (S k)) by lia. by apply Hidx. }
  (* what is left to show once the pattern itself is dealt with *)
  assert (forall info' ot1 tab1, length ot1 = length ot -> (forall i, 0 <= i < j -> bget ot1 i = bget ot i) ->
     (od0 (poffdata p) <> CLI_OFF_ABSOLUTE -> bget ot1 j = Some (place e map_len (poffdata p))) -> info_of e map_len info' ->
     Forall (fun o => 0 <= o < map_len) tab1 -> (forall x, x ∈ tab -> x ∈ tab1) -> covered tab1 p ->
     exists ot' tab', init_loop (Some e) map_len target ps info' ot1 tab1 = Some (inr (ot', tab')) /\ length ot' = length ot /\
      (forall i, 0 <= i < j -> bget ot' i = bget ot i) /\
      (forall k q, (p :: ps) !! k = Some q -> od0 (poffdata q) <> CLI_OFF_ABSOLUTE -> bget ot' (j + Z.of_nat k) = Some (place e map_len (poffdata q))) /\
      Forall (fun o => 0 <= o < map_len) tab' /\ (forall x, x ∈ tab -> x ∈ tab') /\ (forall k q, (p :: ps) !! k = Some q -> covered tab' q)) as Hrest.
  { intros info' ot1 tab1 Hl1 Hold Hnew Hi' Ht1 Hsub Hcov.
    destruct (IH (j + 1) info' ot1 tab1) as (ot' & tab' & E & Hl' & Hold' & Hent & Htab' & Hsub' & Hcov'); [lia|lia|done|done|done|].
    exists ot', tab'. split; [done|]. split; [lia|]. split; [intros i Hi; rewrite Hold' by lia; by apply Hold|].
    split; [|split; [done|split; [auto|]]].
    - intros [|k] q Hq Hna; cbn in Hq.
      + injection Hq as ->. rewrite Z.add_0_r, Hold' by lia. by apply Hnew.
      + replace (j + Z.of_nat (S k)) with (j + 1 + Z.of_nat k) by lia. by apply Hent.
    - intros [|k] q Hq; cbn in Hq; [injection Hq as ->; intros Hx; by apply Hsub', Hcov|by eapply Hcov']. }
  destruct (od0 (poffdata p) =? CLI_OFF_ABSOLUTE) eqn:Ea.
  - unfold place in Hpla. rewrite Ea in Hpla. rewrite Hmin. destruct (push_spec tab (uint 32 (od1 (poffdata p) + prefix_length p)) Htab) as (H1 & H2 & H3); [apply uint_range; lia|].
    apply Hrest; auto; [intros; lia|]. unfold covered, place. rewrite Ea. intros Hx. rewrite (uint_small 32) in H3 |- * by lia. apply H3. lia.
  - rewrite Hmin. destruct (bget_is_Some ot j) as [old ->]; [lia|].
    destruct (caloff_place e map_len target info (poffdata p) old He Ht Hpos ltac:(lia) Hinfo) as (info' & -> & Hi').
    rewrite bset_is_Some by lia. cbn [negb Z.eqb CL_SUCCESS].
    set (ot1 := <[Z.to_nat j := place e map_len (poffdata p)]> ot). set (mn := place e map_len (poffdata p)) in *.
    assert (length ot1 = length ot) as Hl1 by (unfold ot1; by rewrite length_insert).
    assert (forall i, 0 <= i < j -> bget ot1 i = bget ot i) as Hold by (intros i Hi; unfold ot1; by rewrite bget_insert_ne by lia).
    assert (bget ot1 j = Some mn) as Hnew by (unfold ot1; by rewrite bget_insert_eq by lia).
    destruct Hi' as [Hfs Hst]. rewrite Hfs.
    destruct (negb (mn =? CLI_OFF_NONE) && (uint 32 (mn + plength p) <=? map_len)) eqn:Ec.
    + assert (mn + prefix_length p + plength p <= map_len -> uint 32 (mn + prefix_length p) = mn + prefix_length p) as Hw.
      { intros. rewrite (uint_small 32); lia. }
      destruct (bool_decide (last tab = Some (uint 32 (mn + prefix_length p)))) eqn:El.
      * apply Hrest; auto; [by split|]. intros Hx. apply bool_decide_eq_true in El. fold mn in Hx |- *. rewrite (Hw Hx) in El.
        by apply last_Some_elem_of in El.
      * destruct (push_spec tab (uint 32 (mn + prefix_length p)) Htab) as (H1 & H2 & H3); [apply uint_range; lia|].
        apply Hrest; auto; [by split|]. intros Hx. fold mn in Hx |- *. rewrite (Hw Hx) in H3. rewrite (Hw Hx). apply H3. lia.
    + apply Hrest; auto; [by split|]. intros Hx. exfalso. fold mn in Hx. rewrite (uint_small 32) in Ec by lia. unfold CLI_OFF_NONE in Ec. lia.
Qed.

Lemma push_length tab v : (length (push map_len tab v) <= S (length tab))%nat.
Proof. unfold push. case_match; [lia|]. rewrite length_app. cbn. lia. Qed.

(** Every pattern adds at most one position. *)
Lemma init_loop_length o ps info ot tab ot' tab' : init_loop o map_len target ps info ot tab = Some (inr (ot', tab')) ->
  (length tab' <= length tab + length ps)%nat.
Proof using.
  revert info ot tab. induction ps as [|p ps IH]; intros info ot tab H; cbn [init_loop] in H; [simplify_eq; lia|]. cbn [length].
  repeat case_match; simplify_eq/=; apply IH in H; try lia; (etrans; [exact H|]);
    match goal with |- context [push _ _ ?v] => pose proof (push_length tab v) end; lia.
Qed.
End Init.

(** ** Decoded offsets *)

Lemma scan_u_nonneg s v r : scan_u s = Some (v, r) -> 0 <= v.
Proof. unfold scan_u. destruct (Ctype.scan_d 65 s) as [[x r']|]; intros [= <- <-]. apply uint_range. lia. Qed.

Lemma scan_S_nonneg s n v : scan_S s = Some (n, v) -> 0 <= n.
Proof.
  unfold scan_S. destruct (Ctype.scan_lit 83 s); [|done]. destruct (scan_u l) as [[n' r]|] eqn:E; [|done].
  destruct (Ctype.scan_lit 43 r) as [r2|]; [|done]. destruct (scan_u r2) as [[v' r3]|]; [|done]. intros [= <- <-]. by eapply scan_u_nonneg.
Qed.

Lemma atoi_nonneg s : 0 <= atoi s.
Proof. unfold atoi. destruct (Ctype.scan_d 65 s) as [[x r]|]; [apply uint_range; lia|done]. Qed.

Lemma decode_kind_spec offstr cpy d : 0 <= od3 d ->
  let r := decode_kind offstr cpy d in
  0 <= od3 (data r) /\ (ret r = CL_SUCCESS -> od0 (data r) = CLI_OFF_ABSOLUTE -> off_min r = od1 (data r) /\ 0 <= od1 (data r)).
Proof.
  intros Hd. cbn zeta. unfold decode_kind. pose proof atoi_nonneg as Ha.
  repeat case_match; cbn; (split; [eauto using scan_S_nonneg|]); intros; try done; auto.
Qed.

Lemma decoded_spec target s : ret (s_decoded target s) = CL_SUCCESS ->
  0 <= od3 (data (s_decoded target s)) /\
  (od0 (data (s_decoded target s)) = CLI_OFF_ABSOLUTE -> off_min (s_decoded target s) = od1 (data (s_decoded target s)) /\
     0 <= od1 (data (s_decoded target s))).
Proof.
  unfold s_decoded, cli_caloff_decode. case_bool_decide; [done|]. destruct (64 <? _); [done|].
  destruct (strchr 44 (s_offset s)) as [[cpy shift]|].
  - destruct (Ctype.cli_isnumber shift =? 0); [done|].
    set (d := OffData _ _ _ _). destruct (decode_kind_spec (s_offset s) cpy d) as [H1 H2]; [done|].
    repeat case_match; cbn; intros; try done; auto.
  - set (d := OffData _ _ _ _). destruct (decode_kind_spec (s_offset s) (s_offset s) d) as [H1 H2]; [done|].
    repeat case_match; cbn; intros; try done; auto.
Qed.

(** ** Building a matcher in offset mode *)

Definition stands_off (target i : Z) (s : sig) (p : patt) : Prop :=
  let d := s_decoded target s in
  exists pl n c f, p = Patt (s_bytes s) pl n (s_name s) (data d) (if od0 (data d) =? CLI_OFF_ABSOLUTE then off_min d else i)
    (off_max d) c f (s_boundary s) (s_filesize s).

Record offholds (root : matcher) (ss : list sig) : Prop := {
  oh_wf : wf root;
  oh_bound : bounded (Z.of_nat (length ss)) root;
  oh_mode : bm_offmode root = true;
  oh_patterns : bm_patterns root = Z.of_nat (length ss);
  oh_tab : forall k s, ss !! k = Some s ->
     exists p idx, bm_pattab root !! k = Some p /\ stands_off (mtype root) (Z.of_nat k) s p /\ patt_ok idx p;
  oh_len : length (bm_pattab root) = length ss;
  oh_sound : forall q, member root q -> exists k p, bm_pattab root !! k = Some p /\ nocnt q = nocnt p;
  oh_complete : forall k p, bm_pattab root !! k = Some p -> exists q, member root q /\ nocnt q = nocnt p;
  oh_filter : forall f, mfilter root = Some f -> Filter.tab_ok f /\ Forall (fun s => Filter.accepts f (s_bytes s)) ss;
}.

Lemma addpatt_offholds root ss s : offholds root ss -> sig_ok (mtype root) s -> Z.of_nat (length ss) < 2 ^ 16 - 1 ->
  exists root', cli_bm_addpatt root (s_new s) (s_offset s) true = Some (CL_SUCCESS, root') /\ offholds root' (ss ++ [s]) /\
    mtype root' = mtype root.
Proof.
  intros [Hwf Hb Hmode Hpat Htab Hlen Hsnd Hcpl Hfil] Hs Hl.
  destruct (addpatt_shape root ss s Hwf Hs Hfil) as (idx & i & f & rel & abs & fo & E & Hpo & _ & Hf).
  rewrite Hmode in *. cbn [andb] in *. eexists. split; [exact E|]. split; [|done].
  match type of E with _ = Some (_, ?m) => set (root' := m) in * end. match type of Hpo with patt_ok _ ?q => set (p := q) in * end.
  destruct (update_chain root root' _ idx p Hwf Hb Hl Hpo eq_refl eq_refl eq_refl) as (Hwf' & Hb' & Hback & Hfwd).
  constructor; [done| |done| | | | | |exact Hf].
  - intros j c Hj. specialize (Hb' j c Hj). rewrite length_app. cbn. lia.
  - cbn. rewrite Hpat, length_app, (uint_small 32) by lia. cbn. lia.
  - intros k s' Hk. cbn [bm_pattab root' mtype]. apply lookup_app_Some in Hk as [Hk|[Hge Hk]].
    + destruct (Htab k s' Hk) as (q & idx' & Hq & Hrest). exists q, idx'. split; [|done]. apply lookup_app_l_Some. done.
    + apply list_lookup_singleton_Some in Hk as [Hk0 <-]. exists p, idx. split; [|split; [|done]].
      * rewrite lookup_app_r by lia. rewrite Hlen. by replace (k - length ss)%nat with O by lia.
      * assert (Z.of_nat k = bm_patterns root) as -> by lia. unfold stands_off, p. do 4 eexists. by destruct (od0 _ =? _).
  - cbn. rewrite !length_app, Hlen. done.
  - intros q Hq. destruct (Hback q Hq) as (q' & Eq & [Hq'| ->]).
    + destruct (Hsnd q' Hq') as (k & r & Hk & Er). exists k, r. split; [by apply lookup_app_l_Some|congruence].
    + exists (length (bm_pattab root)), p. split; [|done]. cbn. by apply list_lookup_middle.
  - intros k q Hk. cbn in Hk. apply lookup_app_Some in Hk as [Hk|[Hge Hk]].
    + destruct (Hcpl k q Hk) as (q1 & Hq1 & E1). destruct (Hfwd q1 (or_introl Hq1)) as (q2 & E2 & Hq2). exists q2. split; [done|congruence].
    + apply list_lookup_singleton_Some in Hk as [_ <-]. destruct (Hfwd p (or_intror eq_refl)) as (q2 & E2 & Hq2). by exists q2.
Qed.

(** The matcher of an executable target, with its signatures. *)
Fixpoint add_off (root : matcher) (ss : list sig) : option matcher :=
  match ss with
  | [] => Some root
  | s :: ss =>
      let* (ret, root) := cli_bm_addpatt root (s_new s) (s_offset s) true in
      if ret =? CL_SUCCESS then add_off root ss else None
  end.
Definition load_off (target : Z) (ss : list sig) : option matcher :=
  let* m := (cli_bm_init target true (Some Filter.filter_init) true true).2 in add_off m ss.

Lemma add_off_holds ss root ss0 : offholds root ss0 -> Z.of_nat (length (ss0 ++ ss)) < 2 ^ 16 -> Forall (sig_ok (mtype root)) ss ->
  exists root', add_off root ss = Some root' /\ offholds root' (ss0 ++ ss) /\ mtype root' = mtype root.
Proof.
  revert root ss0. induction ss as [|s ss IH]; intros root ss0 Hr Hn Hok; cbn [add_off].
  { exists root. by rewrite app_nil_r. }
  rewrite length_app in Hn. cbn [length] in Hn. apply Forall_cons in Hok as [Hs Hok].
  destruct (addpatt_offholds root ss0 s Hr Hs ltac:(lia)) as (r1 & -> & Hr1 & Ht1). cbn [Z.eqb CL_SUCCESS].
  rewrite <- Ht1 in Hok. destruct (IH r1 (ss0 ++ [s]) Hr1) as (r' & -> & Hr' & Ht'); [rewrite !length_app; cbn; lia|done|].
  exists r'. rewrite <- app_assoc in Hr'. rewrite Ht'. done.
Qed.

Lemma load_off_holds target ss : Forall (sig_ok target) ss -> Z.of_nat (length ss) < 2 ^ 16 ->
  exists root, load_off target ss = Some root /\ offholds root ss /\ mtype root = target.
Proof.
  intros Hok Hn. unfold load_off. cbn [cli_bm_init negb snd].
  apply (add_off_holds ss (Matcher target ∅ ∅ [] true 0 0 0 (Some Filter.filter_init)) []); [|done|done].
  constructor; [| |done|done| |done| | |].
  - constructor; intros; cbn in *; by rewrite lookup_empty in *.
  - intros idx chain Hc. cbn in Hc. by rewrite lookup_empty in Hc.
  - intros k s Hk. by rewrite lookup_nil in Hk.
  - intros q (idx & chain & Hc & _). cbn in Hc. by rewrite lookup_empty in Hc.
  - intros k p Hk. cbn in Hk. by rewrite lookup_nil in Hk.
  - intros f [= <-]. split; [apply Filter.init_ok|constructor].
Qed.

(** ** The tables and the scan *)

(** The signature is in the file, at the place its offset stands for. *)
Definition in_place (e : exeinfo) (target : Z) (file : list Z) (s : sig) : Prop :=
  let o := place e (Z.of_nat (length file)) (data (s_decoded target s)) in
  occurs file (Z.of_nat (length file)) (s_bytes s) o /\
  (Z.land (s_boundary s) BM_BOUNDARY_EOL <> 0 -> o + Z.of_nat (length (s_bytes s)) = Z.of_nat (length file)).

(** A pattern of the table and what [indexed] says of it. *)
Lemma stands_indexed e target map_len k s p idx : exe_ok e -> sig_ok target s -> positional (data (s_decoded target s)) ->
  stands_off target k s p -> patt_ok idx p -> indexed e map_len k p.
Proof.
  intros [_ He] Hs Hpos (pl & n & c & f & ->) [H1 H2 _ _ _ _ _]. cbn in H1, H2.
  destruct (decoded_spec target s (so_ret _ _ Hs)) as [H3 Habs]. split; [done|]. cbn [poffdata offset_min prefix_length plength].
  split; [|split; [done|split; [lia|]]].
  - destruct (od0 (data (s_decoded target s)) =? CLI_OFF_ABSOLUTE) eqn:Ea; [|done]. apply Habs. lia.
  - unfold place. destruct (od0 (data (s_decoded target s)) =? CLI_OFF_ABSOLUTE) eqn:Ea; [apply Habs; lia|].
    repeat case_match; first [done|apply uint_range; lia].
Qed.

Lemma nocnt_fields p q : nocnt p = nocnt q ->
  (poffdata p = poffdata q /\ offset_min p = offset_min q) /\
  (bytes p = bytes q /\ boundary p = boundary q /\ prefix_length p = prefix_length q /\ virname p = virname q).
Proof.
  intros E. split; [split|split; [|split; [|split]]].
  - exact (f_equal poffdata E).
  - exact (f_equal offset_min E).
  - exact (f_equal bytes E).
  - exact (f_equal boundary E).
  - exact (f_equal prefix_length E).
  - exact (f_equal virname E).
Qed.

Section Tables.
Context (e : exeinfo) (target : Z) (ss : list sig) (root : matcher) (file : list Z).
Let n := Z.of_nat (length file).
Hypothesis He : exe_ok e.
Hypothesis Ht : target = 1 \/ target = 6 \/ target = 9.
Hypothesis Hok : Forall (sig_ok target) ss.
Hypothesis Hpos : Forall (fun s => positional (data (s_decoded target s))) ss.
Hypothesis Hh : offholds root ss.
Hypothesis Htype : mtype root = target.
Hypothesis Hcount : Z.of_nat (length ss) < 2 ^ 16.
Hypothesis Hn : n < 2 ^ 31.

Lemma tab_indexed k p : bm_pattab root !! k = Some p -> exists s idx, ss !! k = Some s /\ s ∈ ss /\ stands_off target (Z.of_nat k) s p /\
  patt_ok idx p /\ indexed e n (Z.of_nat k) p.
Proof.
  intros Hk. destruct (lookup_lt_is_Some_2 ss k) as [s Hs]; [rewrite <- (oh_len _ _ Hh); by eapply lookup_lt_Some|].
  destruct (oh_tab _ _ Hh k s Hs) as (p' & idx & Hp' & Hst & Hpo). rewrite Htype in Hst. assert (p' = p) as -> by congruence.
  pose proof (list_elem_of_lookup_2 _ _ _ Hs) as Hin. rewrite Forall_forall in Hok, Hpos. exists s, idx.
  split; [done|]. split; [done|]. split; [done|]. split; [done|]. by eapply stands_indexed; eauto.
Qed.

Lemma initoff_ok junk : Z.of_nat (length ss) <= Z.of_nat (length junk) ->
  exists d, cli_bm_initoff (Some e) n target root junk true true = Ok (CL_SUCCESS, Some d) /\ tables_ok root d /\ pos d = 0 /\
    (forall k p, bm_pattab root !! k = Some p -> od0 (poffdata p) <> CLI_OFF_ABSOLUTE ->
       bget (otab d) (Z.of_nat k) = Some (place e n (poffdata p))) /\
    (forall k p, bm_pattab root !! k = Some p -> covered e n (offtab d) p).
Proof.
  intros Hj. unfold cli_bm_initoff, Alloc.cli_malloc, Alloc.CLI_MAX_ALLOCATION. rewrite (oh_patterns _ _ Hh).
  assert (forall q, member root q -> exists k p, bm_pattab root !! k = Some p /\ nocnt q = nocnt p) as Hsnd by apply Hh.
  destruct (Z.of_nat (length ss) =? 0) eqn:E0.
  { assert (bm_pattab root = []) as Hnil by (apply nil_length_inv; rewrite (oh_len _ _ Hh); lia).
    exists (BmOff [] [] 0 0). split; [done|]. split; [constructor; cbn; try done; [constructor|]|].
    - intros p Hp. destruct (Hsnd p Hp) as (k & q & Hk & _). by rewrite Hnil, lookup_nil in Hk.
    - split; [done|]. split; intros k p Hk; by rewrite Hnil, lookup_nil in Hk. }
  destruct ((_ =? 0) || (_ <? _)) eqn:Ea; [lia|]. cbn [negb]. rewrite Nat2Z.id, take_ge by (rewrite (oh_len _ _ Hh); lia).
  destruct (init_loop_spec e n target He Ht ltac:(lia) (bm_pattab root) 0 (TargetInfo n (ExeInfo [] 0 0) 0) junk [])
    as (ot & tab & Hil & Hl & _ & Hent & Htab & _ & Hcov); [rewrite (oh_len _ _ Hh); lia|lia| |split; cbn; auto|constructor|].
  { intros k p Hk. rewrite Z.add_0_l. destruct (tab_indexed k p Hk) as (s & idx & _ & _ & _ & _ & Hi). done. }
  rewrite Hil. apply init_loop_length in Hil as Hlt. rewrite (oh_len _ _ Hh) in Hlt. cbn [length] in Hlt.
  cbn [of_opt]. destruct (QSortFacts.qsort_spec QSort.CMP1 4 id (fun x => 0 <= x < 2 ^ 31)) with (fuel := S (length tab)) (s := tab)
    as (sorted & Es & Hst & Hsort); [intros x y Hx Hy; by apply QSortFacts.CMP1_order..|lia| |lia|lia|].
  { eapply Forall_impl; [exact Htab|]. cbn. intros. lia. }
  unfold QSort.cli_qsort. rewrite Es. eexists. split; [done|]. destruct Hst as [Hperm _ _]. split; [|split; [done|split]].
  - constructor; cbn [ocnt offtab otab]; [done|exact Hsort| |].
    + rewrite Hperm. eapply Forall_impl; [exact Htab|]. cbn. intros. lia.
    + intros p Hp Hna. destruct (Hsnd p Hp) as (k & q & Hk & Eq). destruct (tab_indexed k q Hk) as (s & idx & _ & _ & _ & _ & Hi).
      destruct (nocnt_fields _ _ Eq) as [[E1 E2] _].
      destruct Hi as (_ & Hmin & _). rewrite <- E1 in Hmin. destruct (od0 (poffdata p) =? CLI_OFF_ABSOLUTE) eqn:Eab; [lia|].
      rewrite E2, Hmin. specialize (Hent k q Hk). rewrite <- E1, Z.add_0_l in Hent. by rewrite Hent by lia.
  - intros k p Hk Hna. cbn [otab]. rewrite <- (Z.add_0_l (Z.of_nat k)). by apply Hent.
  - intros k p Hk Hx. cbn [offtab]. rewrite Hperm. by apply (Hcov k p).
Qed.

(** A pattern is placed exactly when its signature is. *)
Lemma placed_in_place d k p s q i idx : bm_pattab root !! k = Some p -> stands_off target (Z.of_nat k) s p -> s ∈ ss ->
  patt_ok idx p -> nocnt q = nocnt p ->
  (forall k p, bm_pattab root !! k = Some p -> od0 (poffdata p) <> CLI_OFF_ABSOLUTE ->
       bget (otab d) (Z.of_nat k) = Some (place e n (poffdata p))) ->
  placed file n 0 d q i -> in_place e target file s.
Proof.
  intros Hk Hst Hs Hpo Eq Hent [Hres [Ho He']]. apply nocnt_fields in Eq as ((E1 & E2) & (E3 & E4 & E5 & E6)).
  assert (resolved d q = Some (place e n (poffdata p)) \/ resolved d q = None) as Hr.
  { unfold resolved. rewrite E1, E2. rewrite Forall_forall in Hok, Hpos. specialize (Hok s Hs). specialize (Hpos s Hs).
    pose proof (stands_indexed e target n (Z.of_nat k) s p idx He Hok Hpos Hst Hpo) as (_ & Hmin & _).
    destruct (od0 (poffdata p) =? CLI_OFF_ABSOLUTE) eqn:Ea.
    - left. rewrite Hmin. unfold place. by rewrite Ea.
    - rewrite Hmin, (Hent k p Hk) by lia. destruct (_ =? CLI_OFF_NONE); auto. }
  destruct Hr as [Hr|Hr]; [|congruence]. rewrite Hr in Hres. injection Hres as Hplace.
  destruct Hst as (pl & m & c & f & ->). cbn [poffdata bytes boundary prefix_length] in *.
  rewrite E3 in Ho, He'. rewrite E4 in He'. unfold in_place. fold n. rewrite Hplace, Z.add_0_l. done.
Qed.

Lemma in_place_placed d k p s q : bm_pattab root !! k = Some p -> stands_off target (Z.of_nat k) s p -> s ∈ ss -> nocnt q = nocnt p ->
  indexed e n (Z.of_nat k) p ->
  (forall k p, bm_pattab root !! k = Some p -> od0 (poffdata p) <> CLI_OFF_ABSOLUTE ->
       bget (otab d) (Z.of_nat k) = Some (place e n (poffdata p))) ->
  in_place e target file s -> placed file n 0 d q (place e n (poffdata p) + prefix_length p).
Proof.
  intros Hk Hst Hs Eq Hi Hent [Ho He']. pose proof Ho as (Ho0 & Ho1 & _). apply nocnt_fields in Eq as ((E1 & E2) & (E3 & E4 & E5 & E6)).
  destruct Hi as (_ & Hmin & _). fold n in Ho, He', Ho1.
  assert (poffdata p = data (s_decoded target s) /\ bytes p = s_bytes s /\ boundary p = s_boundary s) as (D1 & D2 & D3)
    by (by destruct Hst as (pl & m & c & f & ->)).
  rewrite <- D1 in *. split.
  - unfold resolved. rewrite E1, E2, E5, Z.add_0_l. replace (place e n (poffdata p) + prefix_length p - prefix_length p) with (place e n (poffdata p)) by lia.
    destruct (od0 (poffdata p) =? CLI_OFF_ABSOLUTE) eqn:Ea; [rewrite Hmin; unfold place; by rewrite Ea|].
    rewrite Hmin, (Hent k p Hk) by lia. destruct (_ =? CLI_OFF_NONE) eqn:En; [unfold CLI_OFF_NONE in En; lia|done].
  - rewrite E5. replace (place e n (poffdata p) + prefix_length p - prefix_length p) with (place e n (poffdata p)) by lia.
    unfold text_at. rewrite E3, E4, D2, D3. done.
Qed.
End Tables.

(** C12. The offset mode of the matcher is exact: for any signatures with absolute
    offsets or offsets relative to the end, the entry point or the sections of an
    executable, without a shift, [cli_bm_initoff] computes and sorts the positions, and the scan
    that jumps from position to position reports a signature whose bytes are at
    its place in the file, and returns CL_CLEAN only if no signature is. *)
Theorem bm_offset_mode (e : exeinfo) (target : Z) (ss : list sig) (file junk : list Z) :
  let n := Z.of_nat (length file) in
  exe_ok e -> target = 1 \/ target = 6 \/ target = 9 -> Forall (sig_ok target) ss ->
  Forall (fun s => positional (data (s_decoded target s))) ss -> Z.of_nat (length ss) < 2 ^ 16 ->
  is_bytes file -> n < 2 ^ 31 -> Z.of_nat (length ss) <= Z.of_nat (length junk) ->
  exists root d x, load_off target ss = Some root /\
    cli_bm_initoff (Some e) n target root junk true true = Ok (CL_SUCCESS, Some d) /\
    cli_bm_scanbuff (Some e) n root file n 0 (Some d) = Ok x /\
    ((exists p s d', x = (CL_VIRUS, Some p, Some d') /\ s ∈ ss /\ virname p = s_name s /\ in_place e target file s) \/
     (exists d', x = (CL_CLEAN, None, Some d') /\ forall s, s ∈ ss -> ~ in_place e target file s)).
Proof.
  intros n He Ht Hok Hpos Hc Hb Hn Hj. destruct (load_off_holds target ss Hok Hc) as (root & El & Hh & Htype).
  destruct (initoff_ok e target ss root file He Ht Hok Hpos Hh Htype Hc Hn junk Hj) as (d & Ed & Htab & Hp0 & Hent & Hcov).
  destruct (scanbuff_placed (Some e) n root file n 0 Hb ltac:(lia) ltac:(lia) (oh_wf _ _ Hh) d Htab) as (x & Ex & Hx).
  { split; [rewrite Hp0, (t_cnt _ _ Htab); lia|]. destruct (offtab d) as [|o l] eqn:Eo; [left; rewrite Hp0, (t_cnt _ _ Htab), Eo; done|].
    right. exists o. rewrite Hp0. split; [done|]. pose proof (t_range _ _ Htab) as HF. rewrite Eo in HF. apply Forall_cons in HF as [HF _]. lia. }
  { lia. }
  exists root, d, x. split; [done|]. split; [done|]. split; [done|]. destruct Hx as [(p & i & d' & -> & Hm & Hpl)|(d' & -> & _ & Hno)].
  - left. destruct (oh_sound _ _ Hh p Hm) as (k & q & Hk & Eq).
    destruct (tab_indexed e target ss root file He Hok Hpos Hh Htype k q Hk) as (s & idx & _ & Hs & Hst & Hpo & _).
    exists p, s, d'. split; [done|]. split; [done|]. split.
    + apply nocnt_fields in Eq as (_ & (_ & _ & _ & ->)). by destruct Hst as (pl & m & c & f & ->).
    + eapply (placed_in_place e target ss root file); eauto.
  - right. exists d'. split; [done|]. intros s Hs Hin. apply list_elem_of_lookup in Hs as [k Hk].
    destruct (oh_tab _ _ Hh k s Hk) as (p & idx & Hp & _). destruct (tab_indexed e target ss root file He Hok Hpos Hh Htype k p Hp) as (s' & idx' & Hk' & Hs & Hst & Hpo & Hi).
    assert (s' = s) as -> by congruence. destruct (oh_complete _ _ Hh k p Hp) as (q & Hm & Eq).
    pose proof (in_place_placed e target ss root file Hn d k p s q Hp Hst Hs Eq Hi Hent Hin) as Hpl.
    destruct Hin as [(Ho0 & Ho1 & _) _]. assert (poffdata p = data (s_decoded target s) /\ bytes p = s_bytes s) as [D1 D2] by (by destruct Hst as (pl & m & c & f & ->)).
    fold n in Ho0, Ho1. rewrite <- D1 in Ho0, Ho1. rewrite <- D2 in Ho1.
    assert (place e n (poffdata p) + prefix_length p ∈ offtab d) as Hcv by (apply (Hcov k p Hp); destruct Hpo; fold n; lia).
    apply list_elem_of_lookup in Hcv as [j Hj']. refine (Hno q _ (Z.of_nat j) Hm _ Hpl). fold n. rewrite bget_lookup, Nat2Z.id by lia. done.
Qed.

Definition sample_exe : exeinfo := ExeInfo [4; 9] 6 2.
Definition o1 : sig := Sig [10; 11; 12] [65] [50] 0 0.
Definition o2 : sig := Sig [20; 21; 22; 23] [66] [69; 80; 43; 49] 0 0.
Definition o3 : sig := Sig [10; 11; 12] [67] [83; 49; 43; 48] 0 0.

Lemma bm_offset_mode_witness :
  exists root d x, load_off 1 [o1; o2; o3] = Some root /\
    cli_bm_initoff (Some sample_exe) 12 1 root [0; 0; 0] true true = Ok (CL_SUCCESS, Some d) /\
    cli_bm_scanbuff (Some sample_exe) 12 root [10; 11; 12; 0; 0; 0; 0; 20; 21; 10; 11; 12] 12 0 (Some d) = Ok x.
Proof.
  destruct (bm_offset_mode sample_exe 1 [o1; o2; o3] [10; 11; 12; 0; 0; 0; 0; 20; 21; 10; 11; 12] [0; 0; 0]) as (root & d & x & H1 & H2 & H3 & _).
  - split; cbn; lia.
  - by left.
  - repeat apply Forall_cons_2; [..|constructor]; (constructor; [repeat (apply Forall_cons_2; [lia|]); constructor|cbn; lia|reflexivity]).
  - constructor; [|constructor; [|constructor; [|constructor]]]; (split; [|split; [vm_compute; discriminate|reflexivity]]).
    + left. reflexivity.
    + right. right. left. reflexivity.
    + do 5 right. reflexivity.
  - cbn. lia.
  - repeat (constructor; [lia|]). constructor.
  - cbn. lia.
  - cbn. lia.
  - exists root, d, x. split; [exact H1|]. split; [exact H2|exact H3].
Defined.

Example offset_run :
  (let* root := load_off 1 [o1; o2; o3] in
   match cli_bm_initoff (Some sample_exe) 12 1 root [0; 0; 0] true true with
   | Ok (_, Some d) =>
       match cli_bm_scanbuff (Some sample_exe) 12 root [10; 11; 12; 0; 0; 0; 0; 20; 21; 10; 11; 12] 12 0 (Some d) with
       | Ok (c, Some p, _) => Some (c, virname p, offtab d)
       | _ => None
       end
   | _ => None
   end) = Some (CL_VIRUS, [67], [2; 7; 9]).
Proof. vm_compute. reflexivity. Qed.

(** When the header of the file cannot be parsed, an offset relative to the end
    of the file is computed or lost depending on whether another relative offset
    was computed before it. *)
Lemma eof_offset_lost :
  let eof := OffData CLI_OFF_EOF_MINUS 3 0 0 in
  let ep_ := OffData CLI_OFF_EP_PLUS 1 0 0 in
  let run d info := cli_caloff None 100 1 info d false 0 0 in
  let info0 := TargetInfo 100 (ExeInfo [] 0 0) 0 in
  (let* (_, _, mn, _) := run eof info0 in Some mn) = Some 97 /\
  (let* (_, info, _, _) := run ep_ info0 in let* (_, _, mn, _) := run eof info in Some mn) = Some CLI_OFF_NONE.
Proof. split; reflexivity. Qed.
End BmOffProps.
