(* ===== verification/MatcherRun.v ===== *)
(** * Running the matchers over buffers and files (libclamav/matcher.c)

    [matcher_run] runs the prefilter, the Boyer-Moore matcher and the
    Aho-Corasick matcher on a buffer; [cli_fmap_scandesc] calls it on the
    overlapping windows of a file for the matcher of the file's type and the
    generic one, and hashes the file on the way.  The Aho-Corasick matcher and
    the progress callback are parameters: theorems hold whatever they return. *)
From stdpp Require Import base numbers list list_numbers gmap.
From Stdlib Require Import ZArith Lia Bool.
From S2P Require Import Prelude Dlp Filter CalOff Bm.

Local Open Scope Z_scope.

Module MatcherRun.
Import Errors CalOff Bm.

Definition SCANBUFF : Z := 131072.
Definition CL_EUSERABORT : Z := 8.
Definition CL_TYPENO : Z := 500.

(** A matcher with the length of its longest pattern (a [uint16_t]). *)
Record root := Root { bm : matcher; maxpatlen : Z; ac_only : bool }.

(** The branch of [cli_parse_add] (readdb.c) that adds a plain signature; [ok]
    says whether the table of patterns can grow. *)
Definition parse_add_bm (r : root) (bytes virname offset : list Z) (ok : bool) : option (Z * root) :=
  let p := Patt bytes 0 (uint 16 (Z.of_nat (length bytes))) virname (OffData 0 0 0 0) 0 0 0 0 0 0 in
  let mx := if maxpatlen r <? plength p then plength p else maxpatlen r in
  let* (ret, m) := cli_bm_addpatt (bm r) p offset ok in
  Some (ret, Root m mx (ac_only r)).

Section Run.
(** [cli_ac_scanbuff] on a buffer: what it returns.  Which matcher it works for
    is the first argument. *)
Context (ac_scan : root -> list Z -> Z -> Z -> Z) (einfo : option exeinfo) (map_len : Z).

(** The start of the part of the buffer that is scanned. *)
Definition filter_pos (r : root) (buffer : list Z) (length_ : Z) : option Z :=
  match mfilter (bm r) with
  | None => Some 0
  | Some f =>
      let* m := Filter.filter_search_ext f buffer length_ in
      let pos := match m with
                 | None => sint 32 (length_ - maxpatlen r - 1)
                 | Some first => sint 32 (first - maxpatlen r - 1)
                 end in
      Some (if pos <? 0 then 0 else pos)
  end.

(** [matcher_run]: the returned code, the matching pattern of the Boyer-Moore
    matcher and the state of [offdata]. *)
Definition matcher_run (r : root) (buffer : list Z) (length_ offset : Z) (od : option bm_off)
    : res (Z * option patt * option bm_off) :=
  let! pos := of_opt (filter_pos r buffer length_) in
  let buffer' := drop (Z.to_nat pos) buffer in
  let length' := uint 32 (length_ - pos) in
  let offset' := uint 32 (offset + pos) in
  let ac od := Ok (ac_scan r buffer' length' offset', None, od) in
  if negb (ac_only r) then
    let! (ret, p, od) :=
      (if bm_offmode (bm r) then cli_bm_scanbuff einfo map_len (bm r) buffer length_ offset od
       else cli_bm_scanbuff einfo map_len (bm r) buffer' length' offset' od) in
    if ret =? CL_VIRUS then Ok (ret, p, od) else ac od
  else ac od.

(** The loop of [cli_fmap_scandesc] over the windows of the file.  [groot] is
    absent in file type mode, [troot] when there is no matcher for the type;
    [need] says whether a window can be mapped, [go] what the progress callback
    answers; [md5] collects the bytes that are hashed.  The result is [inl] of a
    code the function returns at once, or [inr] of the file type found, the
    hashed bytes and the last code when the loop ends. *)
Context (need go : Z -> bool) (groot troot : option root) (file : list Z) (scan_ft hashing : bool).

Definition window_pat : Z :=
  Z.max (match troot with Some t => maxpatlen t | None => 0 end) (match groot with Some g => maxpatlen g | None => 0 end).

(** One window; the middle result is what follows for the loop. *)
Definition window (offset bytes : Z) (toff : option bm_off) (type : Z) (md5 : list Z)
    : res ((Z * option patt) + (option bm_off * Z * list Z)) :=
  let buff := take (Z.to_nat bytes) (drop (Z.to_nat offset) file) in
  let! (ret, p, toff) :=
    match troot with
    | Some t => matcher_run t buff bytes offset toff
    | None => Ok (CL_CLEAN, None, toff)
    end in
  if bool_decide (is_Some troot) && (ret =? CL_VIRUS) then Ok (inl (CL_VIRUS, p))
  else
    match groot with
    | None => Ok (inr (toff, type, md5))
    | Some g =>
        let! (ret, p, _) := matcher_run g buff bytes offset None in
        if ret =? CL_VIRUS then Ok (inl (CL_VIRUS, p))
        else
          let type := if scan_ft && (CL_TYPENO <=? ret) && (type <? ret) then ret else type in
          let skip := if offset =? 0 then 0 else window_pat in
          let md5 := if hashing then md5 ++ take (Z.to_nat (bytes - skip)) (drop (Z.to_nat skip) buff) else md5 in
          Ok (inr (toff, type, md5))
    end.

Fixpoint windows (fuel : nat) (offset : Z) (toff : option bm_off) (type : Z) (md5 : list Z)
    : res ((Z * option patt) + (Z * list Z)) :=
  match fuel with
  | O => NoFuel
  | S fuel =>
      if offset <? map_len then
        let bytes := Z.min (map_len - offset) SCANBUFF in
        if negb (need offset) then Ok (inr (type, md5))
        else if negb (go bytes) then Ok (inl (CL_EUSERABORT, None))
        else
          let! r := window offset bytes toff type md5 in
          match r with
          | inl r => Ok (inl r)
          | inr (toff, type, md5) =>
              if bytes <? SCANBUFF then Ok (inr (type, md5))
              else windows fuel (uint 32 (offset + (bytes - window_pat))) toff type md5
          end
      else Ok (inr (type, md5))
  end.

(** The rounds that are enough: a window is at most 65535 bytes behind the end of
    the last, so that each one advances by more than half a buffer. *)
Definition rounds : nat := S (Z.to_nat (map_len / 65536 + 1)).

(** Whether the matcher of the type scans by offsets. *)
Definition scan_windows (toff : option bm_off) : res ((Z * option patt) + (Z * list Z)) :=
  windows rounds 0 toff CL_CLEAN [].
End Run.
End MatcherRun.
