(* ===== verification/MatcherFacts.v ===== *)
(** * Scanning a buffer and a file is a search for every signature

    The prefilter never hides a match from [matcher_run], and the windows of
    [cli_fmap_scandesc] overlap enough for every match of the file to lie in one
    of them. *)
From stdpp Require Import base numbers list list_numbers gmap.
From Stdlib Require Import ZArith Lia Bool Sorting.Sorted.
From S2P Require Import Prelude Dlp Filter CalOff Bm BmFacts MatcherRun.

Local Open Scope Z_scope.

Module MatcherFacts.
Import Errors CalOff Bm BmFacts MatcherRun.

(** ** Building a matcher *)

(** Signatures added one after the other; the first failure ends the load. *)
Fixpoint add_sigs (r : root) (ss : list sig) : option (Z * root) :=
  match ss with
  | [] => Some (CL_SUCCESS, r)
  | s :: ss =>
      let* (ret, r) := parse_add_bm r (s_bytes s) (s_name s) (s_offset s) true in
      if ret =? CL_SUCCESS then add_sigs r ss else Some (ret, r)
  end.

(** A signature without boundary condition, as the database gives it. *)
Definition plain (s : sig) : Prop := s_boundary s = 0 /\ s_filesize s = 0.

(** A matcher ready to scan for the signatures [ss]. *)
Record ready (r : root) (ss : list sig) : Prop := {
  rd_holds : holds (bm r) ss;
  rd_mode : bm_offmode (bm r) = false;
  rd_max : 0 <= maxpatlen r < 2 ^ 16;
  rd_len : Forall (fun s => Z.of_nat (length (s_bytes s)) <= maxpatlen r) ss;
  rd_bytes : Forall (fun s => (2 <= length (s_bytes s))%nat) ss;
}.

Lemma add_step r ss s : ready r ss -> Z.of_nat (length ss) < 2 ^ 16 - 1 -> sig_ok (mtype (bm r)) s -> plain s ->
  exists r', parse_add_bm r (s_bytes s) (s_name s) (s_offset s) true = Some (CL_SUCCESS, r') /\
    ready r' (ss ++ [s]) /\ mtype (bm r') = mtype (bm r) /\ ac_only r' = ac_only r.
Proof.
  intros [Hh Hm Hx Hl Hb] Hn Hs [Hb0 Hf0]. unfold parse_add_bm. pose proof (so_len _ _ Hs) as Hlen.
  cbn [plength]. rewrite (uint_small 16) by lia.
  destruct (addpatt_holds (bm r) ss s Hh Hm Hs Hn) as (m' & E & Hh' & Ht & Hm' & _).
  unfold s_new, new_patt in E. rewrite Hb0, Hf0 in E. rewrite E. eexists. split; [reflexivity|].
  split; [|by split]. set (mx := if _ <? _ then _ else _).
  assert (maxpatlen r <= mx /\ Z.of_nat (length (s_bytes s)) <= mx /\ mx < 2 ^ 16) as (H1 & H2 & H3).
  { unfold mx. case_match; lia. }
  constructor; cbn; try done; [lia|..]; apply Forall_app; (split; [|constructor; [lia|done]]); [|done].
  eapply Forall_impl; [exact Hl|]. cbn. intros. lia.
Qed.

Lemma add_sigs_ready ss r ss0 : ready r ss0 -> Z.of_nat (length (ss0 ++ ss)) < 2 ^ 16 ->
  Forall (sig_ok (mtype (bm r))) ss -> Forall plain ss ->
  exists r', add_sigs r ss = Some (CL_SUCCESS, r') /\ ready r' (ss0 ++ ss) /\ mtype (bm r') = mtype (bm r) /\ ac_only r' = ac_only r.
Proof.
  revert r ss0. induction ss as [|s ss IH]; intros r ss0 Hr Hn Hok Hp; cbn [add_sigs].
  { exists r. rewrite app_nil_r. done. }
  rewrite length_app in Hn. cbn [length] in Hn.
  apply Forall_cons in Hok as [Hs Hok]. apply Forall_cons in Hp as [Hps Hp].
  destruct (add_step r ss0 s Hr ltac:(lia) Hs Hps) as (r1 & -> & Hr1 & Ht1 & Ha1). cbn [Z.eqb CL_SUCCESS].
  rewrite <- Ht1 in Hok. destruct (IH r1 (ss0 ++ [s]) Hr1) as (r' & -> & Hr' & Ht' & Ha'); [rewrite !length_app; cbn; lia|done|done|].
  exists r'. rewrite <- app_assoc in Hr'. rewrite Ht', Ha'. done.
Qed.

(** A new matcher for a target, with or without a filter. *)
Definition fresh (target : Z) (filtering : bool) : option root :=
  let* m := (cli_bm_init target false (if filtering then Some Filter.filter_init else None) true true).2 in
  Some (Root m 0 false).

(** The matcher of a target with its signatures. *)
Definition load (target : Z) (filtering : bool) (ss : list sig) : option root :=
  let* r := fresh target filtering in
  let* (ret, r) := add_sigs r ss in
  if ret =? CL_SUCCESS then Some r else None.

Record valid (target : Z) (ss : list sig) : Prop := {
  v_ok : Forall (sig_ok target) ss;
  v_plain : Forall plain ss;
  v_generic : Forall (fun s => generic (s_patt target s)) ss;
  v_count : Z.of_nat (length ss) < 2 ^ 16;
}.

Lemma load_ready target filtering ss : valid target ss ->
  exists r, load target filtering ss = Some r /\ ready r ss /\ mtype (bm r) = target /\ ac_only r = false.
Proof.
  intros [Hok Hpl _ Hn]. unfold load.
  assert (exists r0, fresh target filtering = Some r0 /\ ready r0 [] /\ mtype (bm r0) = target /\ ac_only r0 = false)
    as (r0 & -> & Hr0 & Ht0 & Ha0).
  { eexists. split; [reflexivity|]. split; [|done]. constructor; cbn; try done. apply holds_init.
    intros f Hf. destruct filtering; [|done]. injection Hf as <-. apply Filter.init_ok. }
  rewrite <- Ht0 in Hok. destruct (add_sigs_ready ss r0 [] Hr0 Hn Hok Hpl) as (r & -> & Hr & Ht & Ha).
  exists r. split; [done|]. split; [done|]. split; congruence.
Qed.

(** ** The prefilter *)

Section Run.
Context (ac_scan : root -> list Z -> Z -> Z -> Z) (einfo : option exeinfo) (map_len : Z).
Context (r : root) (ss : list sig).
Hypothesis Hr : ready r ss.
Hypothesis Hac : ac_only r = false \/ ss = [].
Hypothesis Hgen : Forall (fun s => generic (s_patt (mtype (bm r)) s)) ss.

Abbreviation sig_matches buffer len offset s k := (matches map_len buffer len offset (s_patt (mtype (bm r)) s) k).

Lemma filter_pos_spec buffer len offset : 0 <= len -> len <= Z.of_nat (length buffer) -> len < 2 ^ 31 ->
  exists pos, filter_pos r buffer len = Some pos /\ 0 <= pos <= len /\
    forall s k, s ∈ ss -> sig_matches buffer len offset s k -> pos <= k.
Proof.
  intros H0 Hlen H31. unfold filter_pos. pose proof (rd_max _ _ Hr) as Hmx.
  destruct (mfilter (bm r)) as [f|] eqn:Ef.
  2:{ exists 0. split; [done|]. split; [lia|]. intros s k _ ((? & _) & _). done. }
  destruct (h_filter _ _ (rd_holds _ _ Hr) f Ef) as [_ Hacc]. rewrite Forall_forall in Hacc.
  pose proof (rd_len _ _ Hr) as Hl. rewrite Forall_forall in Hl.
  destruct (Filter.search_ext_total f buffer len Hlen) as (m & E & Hm). rewrite E.
  set (pos := match m with Some _ => _ | None => _ end).
  exists (if pos <? 0 then 0 else pos). split; [done|].
  assert (pos = match m with Some first => first - maxpatlen r - 1 | None => len - maxpatlen r - 1 end) as Hpos.
  { unfold pos. destruct m; apply (sint_small 32); lia. }
  split; [destruct m; case_match; lia|].
  intros s k Hs (Ho & _). pose proof Ho as (Hk & _).
  destruct (Filter.search_accepts f buffer len (s_bytes s) k (Hacc s Hs) Ho Hlen) as (j & Ej & Hj).
  assert (m = Some j) as -> by congruence. specialize (Hl s Hs). cbn in Hl. case_match; lia.
Qed.

Lemma matches_drop buffer len offset s pos k : 0 <= pos -> 0 <= k ->
  sig_matches (drop (Z.to_nat pos) buffer) (len - pos) (offset + pos) s k <-> sig_matches buffer len offset s (pos + k).
Proof.
  intros Hp Hk. unfold matches, occurs. set (n := Z.of_nat _).
  replace (offset + pos + k) with (offset + (pos + k)) by lia.
  assert (forall i, 0 <= i -> bget (drop (Z.to_nat pos) buffer) (k + i) = bget buffer (pos + k + i)) as Hb.
  { intros i Hi. rewrite bget_drop by lia. f_equal. lia. }
  split; intros ((H1 & H2 & H3) & H4 & H5); (split; [split; [lia|split; [lia|]]|split; [|done]]).
  - intros i Hi. rewrite <- Hb by lia. by apply H3.
  - intros He. specialize (H4 He). lia.
  - intros i Hi. rewrite Hb by lia. by apply H3.
  - intros He. specialize (H4 He). lia.
Qed.

(** What a scan of the buffer answers: a pattern that stands for a signature with
    a match, or, when no signature matches anywhere, what the other matcher says. *)
Definition run_answer (buffer : list Z) (len offset : Z) (x : Z * option patt * option bm_off) : Prop :=
  (exists p s k, x = (CL_VIRUS, Some p, None) /\ s ∈ ss /\ stands_for (mtype (bm r)) s p /\ sig_matches buffer len offset s k) \/
  (exists pos, x = (ac_scan r (drop (Z.to_nat pos) buffer) (len - pos) (offset + pos), None, None) /\ (0 <= pos <= len /\ filter_pos r buffer len = Some pos) /\
     forall s k, s ∈ ss -> ~ sig_matches buffer len offset s k).

Lemma is_bytes_drop n l : is_bytes l -> is_bytes (drop n l).
Proof. apply Forall_drop. Qed.

Lemma matcher_run_spec buffer len offset : is_bytes buffer -> 0 <= len <= Z.of_nat (length buffer) -> len < 2 ^ 31 ->
  0 <= offset -> offset + len < 2 ^ 32 ->
  exists x, matcher_run ac_scan einfo map_len r buffer len offset None = Ok x /\ run_answer buffer len offset x.
Proof.
  intros Hbuf Hlen H31 Ho Hol. unfold matcher_run.
  destruct (filter_pos_spec buffer len offset) as (pos & Epos & Hpos & Hskip); [lia..|]. rewrite Epos. cbn [of_opt].
  rewrite (rd_mode _ _ Hr), !(uint_small 32) by lia. destruct (ac_only r) eqn:Eac; cbn [negb].
  { destruct Hac as [?|Hss]; [done|]. eexists. split; [done|]. right. exists pos. split; [done|]. split; [by split; [lia|]|].
    intros s k Hs. rewrite Hss in Hs. by apply not_elem_of_nil in Hs. }
  pose proof (rd_holds _ _ Hr) as Hh. rewrite Forall_forall in Hgen.
  destruct (scanbuff_spec einfo map_len (bm r) (drop (Z.to_nat pos) buffer) (len - pos) (offset + pos)) as (x & -> & Hx);
    [by apply is_bytes_drop|rewrite length_drop; lia|lia|lia|apply Hh| |lia|].
  { intros p Hp. destruct (h_sound _ _ Hh p Hp) as (s & Hs & Hst). apply (stands_generic _ _ _ Hst). by apply Hgen. }
  destruct Hx as [(p & k & -> & Hp & Hm)|[-> Hn]]; cbn [Z.eqb CL_VIRUS CL_CLEAN].
  - eexists. split; [done|]. left. destruct (h_sound _ _ Hh p Hp) as (s & Hs & Hst).
    exists p, s, (pos + k). split; [done|]. split; [done|]. split; [done|]. apply (stands_matches _ _ _ _ _ _ _ _ Hst) in Hm.
    apply matches_drop; [lia|apply Hm|done].
  - eexists. split; [done|]. right. exists pos. split; [done|]. split; [by split; [lia|]|]. intros s k Hs Hm.
    pose proof (Hskip s k Hs Hm) as Hpk. destruct (h_complete _ _ Hh s Hs) as (p & Hp & Hst).
    apply (Hn p (k - pos) Hp).
    + pose proof Hp as (idx & chain & Hc & Hin). destruct (wf_chain _ (h_wf _ _ Hh) _ _ Hc) as [[Hok _ _] _].
      rewrite Forall_forall in Hok. destruct (Hok p Hin). lia.
    + apply (stands_matches _ _ _ _ _ _ _ _ Hst). apply matches_drop; [lia|lia|]. by replace (pos + (k - pos)) with k by lia.
Qed.
End Run.

(** ** The windows of a file *)

(** A matcher of [cli_fmap_scandesc] with its signatures; a matcher that uses
    the other algorithm only has none here. *)
Definition root_ok (o : option root) (ss : list sig) : Prop :=
  match o with
  | Some r => ready r ss /\ (ac_only r = false \/ ss = []) /\
              Forall (fun s => generic (s_patt (mtype (bm r)) s)) ss /\ Forall plain ss
  | None => ss = []
  end.

(** A signature of one of the two matchers matches the file at [k]. *)
Definition file_match (o : option root) (ss : list sig) (file : list Z) (s : sig) (k : Z) : Prop :=
  exists r, o = Some r /\ s ∈ ss /\
    matches (Z.of_nat (length file)) file (Z.of_nat (length file)) 0 (s_patt (mtype (bm r)) s) k.

Section Windows.
Context (ac_scan : root -> list Z -> Z -> Z -> Z) (einfo : option exeinfo) (go : Z -> bool).
Context (groot troot : option root) (gs ts : list sig) (file : list Z) (scan_ft : bool).
Let map_len := Z.of_nat (length file).
Hypothesis Hg : root_ok groot gs.
Hypothesis Ht : root_ok troot ts.
Hypothesis Hfile : is_bytes file.
Hypothesis Hsize : map_len < 2 ^ 31.

Abbreviation W := (window_pat groot troot).

Lemma W_range : 0 <= W < 2 ^ 16.
Proof.
  unfold window_pat. destruct groot as [g|], troot as [t|]; cbn in *;
    repeat match goal with H : ready _ _ /\ _ |- _ => destruct H as [[_ _ ? _ _] _] end; lia.
Qed.

Lemma plain_window r s offset nb k : plain s -> 0 <= offset -> 0 <= nb -> offset + nb <= map_len -> 0 <= k ->
  k + Z.of_nat (length (s_bytes s)) <= nb ->
  matches map_len (take (Z.to_nat nb) (drop (Z.to_nat offset) file)) nb offset (s_patt (mtype (bm r)) s) k <->
  matches map_len file map_len 0 (s_patt (mtype (bm r)) s) (offset + k).
Proof.
  intros [Hp _] Ho Hb Hm Hk Hl. unfold matches, occurs. cbn [s_patt Bm.bytes boundary]. rewrite Hp, Z.add_0_l.
  assert (forall i, 0 <= i < Z.of_nat (length (s_bytes s)) ->
    bget (take (Z.to_nat nb) (drop (Z.to_nat offset) file)) (k + i) = bget file (offset + k + i)) as Hget.
  { intros i Hi. rewrite !bget_lookup by lia. rewrite lookup_take_lt, lookup_drop by lia. f_equal. lia. }
  split; intros ((H1 & H2 & H3) & _ & H5); (split; [split; [lia|split; [lia|]]|split; [done|done]]); intros i Hi.
  - rewrite <- Hget by done. by apply H3.
  - rewrite Hget by done. by apply H3.
Qed.

(** One matcher on one window. *)
Lemma run_window o ss offset nb : root_ok o ss -> 0 <= offset -> 0 <= nb -> offset + nb <= map_len ->
  forall r, o = Some r ->
  exists c p, matcher_run ac_scan einfo map_len r (take (Z.to_nat nb) (drop (Z.to_nat offset) file)) nb offset None
         = Ok (c, p, None) /\
    ((c = CL_VIRUS /\ exists q s k, p = Some q /\ stands_for (mtype (bm r)) s q /\ file_match o ss file s k) \/
     (p = None /\ forall s k, file_match o ss file s k -> offset <= k -> k + Z.of_nat (length (s_bytes s)) <= offset + nb -> False)).
Proof.
  intros Hok Ho Hb Hm r ->. destruct Hok as (Hr & Hac & Hgen & Hpl). rewrite Forall_forall in Hpl.
  set (buff := take _ _). assert (Z.of_nat (length buff) = nb) as Hl by (unfold buff; rewrite length_take, length_drop; lia).
  destruct (matcher_run_spec ac_scan einfo map_len r ss Hr Hac Hgen buff nb offset) as (x & -> & Hx);
    [by apply Forall_take, Forall_drop|lia..|].
  destruct Hx as [(p & s & k & -> & Hs & Hst & Hmt)|(pos & -> & _ & Hn)].
  - exists CL_VIRUS, (Some p). split; [done|]. left. split; [done|]. exists p, s, (offset + k). split; [done|]. split; [done|].
    exists r. split; [done|]. split; [done|]. pose proof Hmt as ((? & ? & _) & _).
    apply (plain_window r s offset nb k); auto.
  - do 2 eexists. split; [done|]. right. split; [done|]. intros s k (r' & [= <-] & Hs & Hmt) Hk Hk2.
    apply (Hn s (k - offset) Hs). apply plain_window; auto; [lia..|]. by replace (offset + (k - offset)) with k by lia.
Qed.

(** A match reported for the file: a pattern that stands for a signature of one
    of the matchers with a match in the file, or a report of the other matcher. *)
Definition reported (p : option patt) : Prop :=
  p = None \/ exists o ss r q s k, (o = troot /\ ss = ts \/ o = groot /\ ss = gs) /\ o = Some r /\
    p = Some q /\ stands_for (mtype (bm r)) s q /\ file_match o ss file s k.

Definition some_match (s : sig) (k : Z) : Prop := file_match troot ts file s k \/ file_match groot gs file s k.

(** The bytes hashed before the window at [offset]. *)
Definition hashed (offset : Z) : list Z := take (Z.to_nat (if offset =? 0 then 0 else offset + W)) file.

Lemma hash_window offset nb : 0 <= offset -> 0 <= nb -> offset + nb <= map_len -> (offset <> 0 -> W <= nb) ->
  hashed offset ++ take (Z.to_nat (nb - (if offset =? 0 then 0 else W)))
     (drop (Z.to_nat (if offset =? 0 then 0 else W)) (take (Z.to_nat nb) (drop (Z.to_nat offset) file)))
  = take (Z.to_nat (offset + nb)) file.
Proof.
  intros Ho Hb Hm HW. pose proof W_range as Hr. unfold hashed. set (a := if offset =? 0 then 0 else W).
  assert ((if offset =? 0 then 0 else offset + W) = offset + a) as -> by (unfold a; case_match; lia).
  assert (0 <= a <= nb) as Ha by (unfold a; case_match; lia).
  rewrite skipn_firstn_comm, take_take, drop_drop.
  replace (Z.to_nat (offset + nb)) with (Z.to_nat (offset + a) + Z.to_nat (nb - a))%nat by lia.
  rewrite <- take_take_drop. f_equal. rewrite <- Z2Nat.inj_add by lia. f_equal. lia.
Qed.

Lemma window_spec offset nb type : 0 <= offset -> 0 <= nb -> offset + nb <= map_len -> (offset <> 0 -> W <= nb) ->
  is_Some groot ->
  exists x, window ac_scan einfo map_len groot troot file scan_ft true offset nb None type (hashed offset) = Ok x /\
    match x with
    | inl (c, p) => c = CL_VIRUS /\ reported p
    | inr (toff, _, md5) => toff = None /\ md5 = take (Z.to_nat (offset + nb)) file /\
        forall s k, some_match s k -> offset <= k -> k + Z.of_nat (length (s_bytes s)) <= offset + nb -> False
    end.
Proof.
  intros Ho Hb Hm HW [g Eg]. unfold window.
  assert (exists c p, (match troot with
      | Some t => matcher_run ac_scan einfo map_len t (take (Z.to_nat nb) (drop (Z.to_nat offset) file)) nb offset None
      | None => Ok (CL_CLEAN, None, None) end) = Ok (c, p, None) /\
    ((bool_decide (is_Some troot) && (c =? CL_VIRUS) = true /\ reported p) \/
     (bool_decide (is_Some troot) && (c =? CL_VIRUS) = false /\
       forall s k, file_match troot ts file s k -> offset <= k -> k + Z.of_nat (length (s_bytes s)) <= offset + nb -> False)))
    as (c & p & -> & Hc).
  { destruct troot as [t|] eqn:Et.
    - destruct (run_window troot ts offset nb) with (r := t) as (c & p & E & Hc); try done; [by rewrite Et..|].
      exists c, p. split; [done|]. rewrite bool_decide_eq_true_2 by done. cbn [andb].
      destruct Hc as [(-> & q & s & k & -> & Hst & Hf)|(-> & Hn)].
      + left. split; [done|]. right. exists troot, ts, t, q, s, k. rewrite Et in *. auto 10.
      + destruct (c =? CL_VIRUS) eqn:Ec; [left|right]; (split; [done|]); [by left|]. rewrite <- Et. done.
    - exists CL_CLEAN, None. split; [done|]. right. split; [done|]. intros s k (r & Hr & _). done. }
  destruct Hc as [[-> Hrep]|[-> Hnt]]; [eexists; split; [done|]; by split|]. rewrite Eg.
  destruct (run_window groot gs offset nb Hg Ho Hb Hm g Eg) as (c2 & p2 & -> & Hc2).
  destruct Hc2 as [(-> & q & s & k & -> & Hst & Hf)|(-> & Hn)].
  { cbn [Z.eqb CL_VIRUS]. eexists. split; [done|]. split; [done|]. right. exists groot, gs, g, q, s, k. auto 10. }
  destruct (c2 =? CL_VIRUS) eqn:Ec2; [eexists; split; [done|]; split; [done|by left]|].
  eexists. split; [done|]. cbn. split; [done|]. split; [rewrite <- Eg; by apply hash_window|].
  intros s k [Hf|Hf]; [by apply Hnt|by apply Hn].
Qed.

Lemma match_len s k : some_match s k ->
  2 <= Z.of_nat (length (s_bytes s)) <= W /\ k + Z.of_nat (length (s_bytes s)) <= map_len.
Proof.
  intros Hm. assert (exists o ss r, root_ok o ss /\ o = Some r /\ s ∈ ss /\ maxpatlen r <= W /\
    k + Z.of_nat (length (s_bytes s)) <= map_len) as (o & ss & r & Hok & -> & Hs & Hmx & Hl).
  { unfold window_pat. destruct Hm as [(r & E & Hs & (_ & Hl & _) & _)|(r & E & Hs & (_ & Hl & _) & _)].
    - exists troot, ts, r. rewrite E in *. split; [done|]. split; [done|]. split; [done|]. split; [apply Z.le_max_l|exact Hl].
    - exists groot, gs, r. rewrite E in *. split; [done|]. split; [done|]. split; [done|]. split; [apply Z.le_max_r|exact Hl]. }
  destruct Hok as [[_ _ _ Hlen Hby] _]. rewrite Forall_forall in Hlen, Hby.
  specialize (Hlen s Hs). specialize (Hby s Hs). cbn in Hlen, Hby. lia.
Qed.

Lemma windows_spec fuel offset type : is_Some groot -> 0 <= offset <= map_len -> (offset <> 0 -> offset + W <= map_len) ->
  map_len - offset < 65536 * Z.of_nat fuel -> (forall s k, some_match s k -> offset <= k) ->
  exists x, windows ac_scan einfo map_len (fun _ => true) go groot troot file scan_ft true fuel offset None type (hashed offset) = Ok x /\
    match x with
    | inl (c, p) => c = CL_EUSERABORT \/ c = CL_VIRUS /\ reported p
    | inr (_, md5) => md5 = file /\ forall s k, ~ some_match s k
    end.
Proof.
  intros Hgs. revert offset type. induction fuel as [|fuel IH]; intros offset type Ho HW Hf Hinv; [lia|].
  pose proof W_range as Hr. cbn [windows]. destruct (offset <? map_len) eqn:Eo.
  2:{ eexists. split; [done|]. split.
      - unfold hashed. apply take_ge. case_match; lia.
      - intros s k Hm. pose proof (Hinv s k Hm). pose proof (match_len s k Hm). lia. }
  unfold SCANBUFF. set (nb := Z.min (map_len - offset) 131072). cbn [negb].
  assert (nb = Z.min (map_len - offset) 131072) as Hnb by done. clearbody nb.
  destruct (go nb); cbn [negb]; [|eexists; split; [done|]; by left].
  destruct (window_spec offset nb type) as (x & -> & Hx); [lia|lia|lia|intros; lia|done|].
  destruct x as [[c p]|[[toff ty] md5]]; [eexists; split; [done|]; by right|].
  destruct Hx as (-> & -> & Hno).
  destruct (nb <? 131072) eqn:Enb.
  - eexists. split; [done|]. split; [apply take_ge; lia|]. intros s k Hm. pose proof (Hinv s k Hm). pose proof (match_len s k Hm).
    apply (Hno s k Hm); lia.
  - assert (nb = 131072) as Enb2 by lia. rewrite (uint_small 32) by lia.
    replace (take (Z.to_nat (offset + nb)) file) with (hashed (offset + (nb - W))).
    2:{ unfold hashed. destruct (offset + (nb - W) =? 0) eqn:E0; [lia|]. do 2 f_equal. lia. }
    apply IH; [lia|lia|lia|]. intros s k Hm. pose proof (Hinv s k Hm). pose proof (match_len s k Hm).
    destruct (Z.le_gt_cases (offset + (nb - W)) k); [done|]. exfalso. apply (Hno s k Hm); lia.
Qed.
End Windows.
End MatcherFacts.
