(* ===== verification/MatcherProps.v ===== *)
(** * Properties of the matchers

    A database of signatures is loaded through [cli_bm_init], [cli_bm_addpatt] and
    [filter_add_static]; scanning a buffer or a file then agrees with looking for
    every signature at every position. *)
From stdpp Require Import base numbers list list_numbers gmap.
From Stdlib Require Import ZArith Lia Bool.
From S2P Require Import Prelude Dlp Filter CalOff Bm BmFacts MatcherRun MatcherFacts.

Local Open Scope Z_scope.

Module MatcherProps.
Import Errors CalOff Bm BmFacts MatcherRun MatcherFacts.

(** The signature [s] of a target matches the buffer at position [k]; the buffer
    starts at [offset] in a file of [map_len] bytes. *)
Definition sig_at (target map_len : Z) (buffer : list Z) (len offset : Z) (s : sig) (k : Z) : Prop :=
  matches map_len buffer len offset (s_patt target s) k.

(** Boyer-Moore is an exact search: after any valid signatures were added (the
    chains hash three bytes, shorten signatures to balance their load and count
    their members), [cli_bm_scanbuff] returns CL_VIRUS with a signature that
    occurs in the buffer at an offset it allows, and returns CL_CLEAN exactly when
    no signature occurs at an allowed offset anywhere in the buffer. *)
Theorem bm_scan_is_search (target map_len : Z) (einfo : option exeinfo) (ss : list sig) (filtering : bool)
    (buffer : list Z) (len offset : Z) :
  valid target ss -> is_bytes buffer -> 0 <= len <= Z.of_nat (length buffer) -> len < 2 ^ 31 ->
  0 <= offset -> offset + len < 2 ^ 32 ->
  exists r x, load target filtering ss = Some r /\
    cli_bm_scanbuff einfo map_len (bm r) buffer len offset None = Ok x /\
    ((exists p s k, x = (CL_VIRUS, Some p, None) /\ s ∈ ss /\ stands_for target s p /\ sig_at target map_len buffer len offset s k) \/
     (x = (CL_CLEAN, None, None) /\ forall s k, s ∈ ss -> ~ sig_at target map_len buffer len offset s k)).
Proof.
  intros Hv Hb Hl H31 Ho Hol. destruct (load_ready target filtering ss Hv) as (r & E & Hr & Ht & _).
  pose proof (rd_holds _ _ Hr) as Hh. pose proof (v_generic _ _ Hv) as Hgen. rewrite Forall_forall in Hgen.
  destruct (scanbuff_spec einfo map_len (bm r) buffer len offset) as (x & Ex & Hx); [done|lia|lia|lia|apply Hh| |lia|].
  { intros p Hp. destruct (h_sound _ _ Hh p Hp) as (s & Hs & Hst). rewrite Ht in Hst. by apply (stands_generic _ _ _ Hst), Hgen. }
  exists r, x. split; [done|]. split; [done|]. destruct Hx as [(p & k & -> & Hp & Hm)|[-> Hn]]; [left|right].
  - destruct (h_sound _ _ Hh p Hp) as (s & Hs & Hst). rewrite Ht in Hst. exists p, s, k.
    split; [done|]. split; [done|]. split; [done|]. by apply (stands_matches _ _ _ _ _ _ _ _ Hst).
  - split; [done|]. intros s k Hs Hm. destruct (h_complete _ _ Hh s Hs) as (p & Hp & Hst). rewrite Ht in Hst.
    apply (Hn p k Hp); [|by apply (stands_matches _ _ _ _ _ _ _ _ Hst)].
    pose proof Hm as ((? & _) & _). destruct Hp as (idx & chain & Hc & Hin).
    destruct (wf_chain _ (h_wf _ _ Hh) _ _ Hc) as [[Hok _ _] _]. rewrite Forall_forall in Hok. destruct (Hok p Hin). lia.
Qed.

(** Sample signatures: three bytes anywhere, a run at offsets 2 to 5, and one
    that ends seven bytes before the end of the file. *)
Definition s1 : sig := Sig [10; 11; 12; 13] [65] [42] 0 0.
Definition s2 : sig := Sig [10; 11; 12; 10; 11; 12] [66] [50; 44; 51] 0 0.
Definition s3 : sig := Sig [1; 2; 3] [67] [69; 79; 70; 45; 55] 0 0.

Lemma samples_valid target : target = 0 \/ target = 1 -> valid target [s1; s2; s3].
Proof.
  intros Ht. constructor; [..|cbn; lia]; repeat (constructor; [|]); try (by constructor).
  all: try (constructor; [repeat (constructor; [lia|]); constructor|cbn; lia|]).
  all: destruct Ht as [-> | ->]; try reflexivity.
  all: first [by left; reflexivity|by right; left; reflexivity|by right; right; reflexivity].
Qed.

Lemma bm_scan_is_search_witness :
  exists r x, load 0 false [s1; s2; s3] = Some r /\
    cli_bm_scanbuff None 20 (bm r) [0; 10; 11; 12; 10; 11; 12; 10] 8 1 None = Ok x.
Proof.
  destruct (bm_scan_is_search 0 20 None [s1; s2; s3] false [0; 10; 11; 12; 10; 11; 12; 10] 8 1) as (r & x & H1 & H2 & _).
  - apply samples_valid. by left.
  - repeat (constructor; [lia|]). constructor.
  - cbn. lia.
  - lia.
  - lia.
  - lia.
  - exists r, x. split; [exact H1|exact H2].
Defined.

(** The runs of the samples: the second signature is found behind the filter. *)
Example samples_run :
  (let* r := load 0 true [s1; s2; s3] in
   match matcher_run (fun _ _ _ _ => 0) None 20 r [7; 7; 10; 11; 12; 10; 11; 12; 10] 9 0 None with
   | Ok (c, Some p, _) => Some (c, virname p)
   | _ => None
   end) = Some (CL_VIRUS, [66]).
Proof. vm_compute. reflexivity. Qed.


End MatcherProps.
