(* ===== verification/Ac.v ===== *)
(** * The Aho-Corasick trie (libclamav/matcher-ac.c)

    Patterns are entered into a trie by their first static bytes, at most
    [ac_maxdepth] of them; [cli_ac_buildtrie] then turns the trie into an automaton:
    it computes the failure links, appends to the patterns of a node those of its
    failure node, and fills in the missing transitions.

    Nodes and patterns are cells of two tables ([ac_nodetable] with the root in
    front, and [ac_pattable]); pointers are indices of these tables.  The lists of
    patterns are linked by the fields [next] and [next_same] of the cells, and the
    tails of these lists are shared between nodes, as in the C program. *)
From stdpp Require Import base numbers list list_numbers gmap.
From Stdlib Require Import ZArith Lia Bool.
From S2P Require Import Prelude Dlp CalOff.

Local Open Scope Z_scope.

Module Ac.
Import Errors CalOff.

Definition CLI_MATCH_WILDCARD : Z := 0xff00.
Definition CLI_MATCH_CHAR : Z := 0.
Definition CLI_MATCH_IGNORE : Z := 0x100.
Definition CLI_MATCH_SPECIAL : Z := 0x200.
Definition CLI_MATCH_NIBBLE_HIGH : Z := 0x300.
Definition CLI_MATCH_NIBBLE_LOW : Z := 0x400.

Definition AC_SPECIAL_ALT_CHAR : Z := 1.
Definition AC_SPECIAL_ALT_STR : Z := 2.
Definition AC_SPECIAL_LINE_MARKER : Z := 3.
Definition AC_SPECIAL_BOUNDARY : Z := 4.

(** [struct cli_ac_special]: for alternatives of characters [alts] is one string
    of [num] characters, for alternatives of strings it is the list that is linked
    by [next]. *)
Record special := Special { sp_type : Z; negative : bool; num : Z; alts : list (list Z) }.

#[export] Instance special_eq_dec : EqDecision special.
Proof. solve_decision. Defined.

(** What a signature says about a pattern.  Characters are 16 bits wide, the high
    byte says what they match; the fields [length] and [prefix_length] are the
    lengths of [pattern] and [prefix]. *)
Record ac_patt := AcPatt {
  pattern : list Z; prefix : option (list Z);
  mindist : Z; maxdist : Z;
  sigid : Z; parts : Z; partno : Z;
  lsigid : option (Z * Z);               (** [lsigid[1]] and [lsigid[2]] if [lsigid[0]] is set *)
  ch : Z * Z; ch_mindist : Z * Z; ch_maxdist : Z * Z;
  special_table : list special; special_pattern : Z;
  rtype : Z; type : Z;
  off_data : offdata; offset_min : Z; offset_max : Z;
  boundary : Z; virname : list Z }.

Definition length_ (p : ac_patt) : Z := Z.of_nat (length (pattern p)).
Definition prefix_length (p : ac_patt) : Z := Z.of_nat (length (default [] (prefix p))).

(** A pattern in the table, with the fields the matcher sets. *)
Record cell := Cell { patt : ac_patt; next : option nat; next_same : option nat; depth : nat }.

Definition set_next (n : option nat) (c : cell) : cell := Cell (patt c) n (next_same c) (depth c).
Definition set_next_same (n : option nat) (c : cell) : cell := Cell (patt c) (next c) n (depth c).

(** [struct cli_ac_node]: [trans] is NULL or an array of 256 pointers, where an
    absent entry is NULL. *)
Record node := Node { nlist : option nat; trans : option (gmap Z nat); fail : option nat }.

Definition set_list (l : option nat) (n : node) : node := Node l (trans n) (fail n).
Definition set_trans (t : option (gmap Z nat)) (n : node) : node := Node (nlist n) t (fail n).
Definition set_fail (f : option nat) (n : node) : node := Node (nlist n) (trans n) f.

Definition IS_LEAF (n : node) : bool := bool_decide (trans n = None).
Definition IS_FINAL (n : node) : bool := bool_decide (is_Some (nlist n)).

(** The tables; node 0 is [ac_root]. *)
Record ac := MkAc { nodes : list node; cells : list cell; ac_mindepth : Z; ac_maxdepth : Z }.

Definition set_nodes (s : ac) (ns : list node) : ac := MkAc ns (cells s) (ac_mindepth s) (ac_maxdepth s).
Definition set_cells (s : ac) (cs : list cell) : ac := MkAc (nodes s) cs (ac_mindepth s) (ac_maxdepth s).

(** Writing through a pointer to a node or a pattern. *)
Definition upd_node (s : ac) (n : nat) (f : node -> node) : ac := set_nodes s (alter f n (nodes s)).
Definition upd_cell (s : ac) (p : nat) (f : cell -> cell) : ac := set_cells s (alter f p (cells s)).

(** The outcomes of the next allocations; when the list is used up they succeed. *)
Definition alloc (m : list bool) : bool * list bool :=
  match m with [] => (true, []) | b :: m => (b, m) end.

(** [cli_ac_init], without the prefilter. *)
Definition cli_ac_init (mindepth maxdepth : Z) (m : list bool) : Z * option ac :=
  let '(ok, m) := alloc m in
  if negb ok then (CL_EMEM, None)
  else
    let '(ok, m) := alloc m in
    if negb ok then (CL_EMEM, None)
    else (CL_SUCCESS, Some (MkAc [Node None (Some ∅) None] [] mindepth maxdepth)).

(** ** Adding a pattern *)

Definition is_wild (c : Z) : bool := negb (Z.land c CLI_MATCH_WILDCARD =? 0).

(** The number of static characters among the first [n]. *)
Fixpoint static_len (n : nat) (p : list Z) : nat :=
  match n, p with
  | S n, c :: p => if is_wild c then O else S (static_len n p)
  | _, _ => O
  end.

Definition key_len (maxdepth : Z) (p : list Z) : nat :=
  static_len (Z.to_nat (Z.min maxdepth (Z.of_nat (length p)))) p.

(** The loop down the trie along the characters [key], which creates the missing
    nodes.  The result is the code, the nodes and the node reached. *)
Fixpoint descend (key : list Z) (ns : list node) (pt : nat) (m : list bool)
    : option (Z * list node * nat * list bool) :=
  match key with
  | [] => Some (CL_SUCCESS, ns, pt, m)
  | c :: key =>
      let* n := ns !! pt in
      let '(ok, m) := match trans n with Some _ => (true, m) | None => alloc m end in
      if negb ok then Some (CL_EMEM, ns, pt, m)
      else
        let t := default ∅ (trans n) in
        let ns := <[pt := set_trans (Some t) n]> ns in
        match t !! Z.land c 0xff with
        | Some nx => descend key ns nx m
        | None =>
            let '(ok, m) := alloc m in
            if negb ok then Some (CL_EMEM, ns, pt, m)
            else
              let '(ok, m) := if bool_decide (key = []) then (true, m) else alloc m in
              if negb ok then Some (CL_EMEM, ns, pt, m)
              else
                let '(ok, m) := alloc m in
                if negb ok then Some (CL_EMEM, ns, pt, m)
                else
                  let nx := length ns in
                  let new := Node None (if bool_decide (key = []) then None else Some ∅) None in
                  let ns := ns ++ [new] in
                  descend key (alter (set_trans (Some (<[Z.land c 0xff := nx]> t))) pt ns) nx m
        end
  end.

(** Two specials are the same. *)
Definition same_special (a1 a2 : special) : bool :=
  (num a1 =? num a2) && Bool.eqb (negative a1) (negative a2) && (sp_type a1 =? sp_type a2) &&
  (if (sp_type a1 =? AC_SPECIAL_ALT_CHAR) || (sp_type a1 =? AC_SPECIAL_ALT_STR)
   then bool_decide (alts a1 = alts a2) else true).

(** The loop over the specials; its counter has 8 bits. *)
Fixpoint same_specials (fuel : nat) (t1 t2 : list special) (i : Z) : res bool :=
  match fuel with
  | O => NoFuel
  | S fuel =>
      if i <? Z.of_nat (length t1) then
        let! a1 := of_opt (bget t1 i) in
        let! a2 := of_opt (bget t2 i) in
        if same_special a1 a2 then same_specials fuel t1 t2 (uint 8 (i + 1)) else Ok false
      else Ok true
  end.

Definition same_patt (ph new : ac_patt) : res bool :=
  if (length_ ph =? length_ new) && (prefix_length ph =? prefix_length new)
     && (fst (ch ph) =? fst (ch new)) && (snd (ch ph) =? snd (ch new))
     && bool_decide (pattern ph = pattern new)
     && bool_decide (default [] (prefix ph) = default [] (prefix new)) then
    match special_table ph, special_table new with
    | [], [] => Ok true
    | t1, t2 => if bool_decide (length t1 = length t2) then same_specials 257 t1 t2 0 else Ok false
    end
  else Ok false.

(** The walk along the patterns of a node in search of the same one. *)
Fixpoint find_same (fuel : nat) (cs : list cell) (ph : option nat) (new : ac_patt) : res (option nat) :=
  match ph with
  | None => Ok None
  | Some p =>
      match fuel with
      | O => NoFuel
      | S fuel =>
          let! c := of_opt (cs !! p) in
          let! b := same_patt (patt c) new in
          if b then Ok (Some p) else find_same fuel cs (next c) new
      end
  end.

(** The end of [cli_ac_addpatt]: the pattern enters the table and a list. *)
Definition link (s : ac) (pt : nat) (new : ac_patt) (len : nat) : res ac :=
  let! n := of_opt (nodes s !! pt) in
  let id := length (cells s) in
  let! same := find_same (S (length (cells s))) (cells s) (nlist n) new in
  match same with
  | Some ph =>
      let! c := of_opt (cells s !! ph) in
      let cs := alter (set_next_same (Some id)) ph (cells s) in
      Ok (set_cells s (cs ++ [Cell new None (next_same c) len]))
  | None =>
      let s := set_cells s (cells s ++ [Cell new (nlist n) None len]) in
      Ok (upd_node s pt (set_list (Some id)))
  end.

Definition cli_ac_addpatt (s : ac) (new : ac_patt) (m : list bool) : res (Z * ac) :=
  let len := key_len (ac_maxdepth s) (pattern new) in
  if Z.of_nat len <? ac_mindepth s then Ok (CL_EMALFDB, s)
  else
    let! (ret, ns, pt, m) := of_opt (descend (take len (pattern new)) (nodes s) 0%nat m) in
    let s := set_nodes s ns in
    if negb (ret =? CL_SUCCESS) then Ok (ret, s)
    else
      let '(ok, m) := alloc m in
      if negb ok then Ok (CL_EMEM, s)
      else
        let! s := link s pt new len in
        Ok (CL_SUCCESS, s).

(** ** Building the automaton *)

Definition bytes256 : list Z := seqZ 0 256.

(** [while(IS_LEAF(failtarget)) failtarget = failtarget->fail;] *)
Fixpoint fail_leaf (fuel : nat) (ns : list node) (n : nat) : res nat :=
  match fuel with
  | O => NoFuel
  | S fuel =>
      let! x := of_opt (ns !! n) in
      if IS_LEAF x then let! f := of_opt (fail x) in fail_leaf fuel ns f
      else Ok n
  end.

(** [while(IS_LEAF(fail) || !fail->trans[i]) fail = fail->fail;], and
    [fail->trans[i]] of the node where it ends. *)
Fixpoint fail_trans (fuel : nat) (ns : list node) (n : nat) (i : Z) : res nat :=
  match fuel with
  | O => NoFuel
  | S fuel =>
      let! x := of_opt (ns !! n) in
      match trans x ≫= (fun t => t !! i) with
      | Some target => Ok target
      | None => let! f := of_opt (fail x) in fail_trans fuel ns f i
      end
  end.

(** [while(patt->next) patt = patt->next;] *)
Fixpoint last_patt (fuel : nat) (cs : list cell) (p : nat) : res nat :=
  match fuel with
  | O => NoFuel
  | S fuel =>
      let! c := of_opt (cs !! p) in
      match next c with Some q => last_patt fuel cs q | None => Ok p end
  end.

(** The state of a traversal: the tables, the queue and the outcomes of the
    allocations of its cells.  [None] is the return of CL_EMEM. *)
Definition walk_state : Type := ac * list nat * list bool.

Definition bfs_enqueue (w : walk_state) (n : nat) : option walk_state :=
  let '(s, q, m) := w in
  let '(ok, m) := alloc m in
  if ok then Some (s, q ++ [n], m) else None.

(** A loop over the 256 characters. *)
Fixpoint for_bytes (f : Z -> walk_state -> res (option walk_state)) (l : list Z) (w : walk_state)
    : res (option walk_state) :=
  match l with
  | [] => Ok (Some w)
  | i :: l =>
      let! r := f i w in
      match r with Some w => for_bytes f l w | None => Ok None end
  end.

(** [while((node = bfs_dequeue(&bfs, &bfs_last)))]. *)
Fixpoint while_queue (fuel : nat) (f : nat -> walk_state -> res (option walk_state)) (w : walk_state)
    : res (option (ac * list bool)) :=
  let '(s, q, m) := w in
  match q with
  | [] => Ok (Some (s, m))
  | n :: q =>
      match fuel with
      | O => NoFuel
      | S fuel =>
          let! r := f n (s, q, m) in
          match r with Some w => while_queue fuel f w | None => Ok None end
      end
  end.

(** The first loop: the children of the root fail to the root, and the root gets
    itself for the characters it has no child for. *)
Definition root_step (i : Z) (w : walk_state) : res (option walk_state) :=
  let '(s, q, m) := w in
  let! r := of_opt (nodes s !! 0%nat) in
  let! t := of_opt (trans r) in
  match t !! i with
  | None => Ok (Some (upd_node s 0 (set_trans (Some (<[i := 0%nat]> t))), q, m))
  | Some n => Ok (bfs_enqueue (upd_node s n (set_fail (Some 0%nat)), q, m) n)
  end.

(** The child of [n] for the character [i]. *)
Definition fail_step (n : nat) (i : Z) (w : walk_state) : res (option walk_state) :=
  let '(s, q, m) := w in
  let! x := of_opt (nodes s !! n) in
  match trans x ≫= (fun t => t !! i) with
  | None => Ok (Some (s, q, m))
  | Some child =>
      let! f := of_opt (fail x) in
      let! target := fail_trans (length (nodes s)) (nodes s) f i in
      let s := upd_node s child (set_fail (Some target)) in
      let! c := of_opt (nodes s !! child) in
      let! t := of_opt (nodes s !! target) in
      let! s :=
        match nlist c with
        | Some p =>
            let! last := last_patt (length (cells s)) (cells s) p in
            Ok (upd_cell s last (set_next (nlist t)))
        | None => Ok (upd_node s child (set_list (nlist t)))
        end in
      Ok (bfs_enqueue (s, q, m) child)
  end.

(** A node of the first traversal. *)
Definition fail_node (n : nat) (w : walk_state) : res (option walk_state) :=
  let '(s, q, m) := w in
  let! x := of_opt (nodes s !! n) in
  if IS_LEAF x then
    let! f := of_opt (fail x) in
    let! target := fail_leaf (length (nodes s)) (nodes s) f in
    Ok (Some (upd_node s n (set_fail (Some target)), q, m))
  else for_bytes (fail_step n) bytes256 w.

(** The start of the second traversal: the children of the root. *)
Definition root_step2 (i : Z) (w : walk_state) : res (option walk_state) :=
  let '(s, q, m) := w in
  let! r := of_opt (nodes s !! 0%nat) in
  let! t := of_opt (trans r) in
  let! n := of_opt (t !! i) in
  if bool_decide (n = 0%nat) then Ok (Some (s, q, m)) else Ok (bfs_enqueue w n).

(** The transition of [n] for the character [i]. *)
Definition trans_step (n : nat) (i : Z) (w : walk_state) : res (option walk_state) :=
  let '(s, q, m) := w in
  let! x := of_opt (nodes s !! n) in
  let! t := of_opt (trans x) in
  let! keep :=
    match t !! i with
    | None => Ok None
    | Some child =>
        let! c := of_opt (nodes s !! child) in
        Ok (if negb (IS_FINAL c) && IS_LEAF c then None else Some child)
    end in
  match keep with
  | Some child => Ok (bfs_enqueue w child)
  | None =>
      let! f := of_opt (fail x) in
      let! target := fail_trans (length (nodes s)) (nodes s) f i in
      Ok (Some (upd_node s n (set_trans (Some (<[i := target]> t))), q, m))
  end.

Definition trans_node (n : nat) (w : walk_state) : res (option walk_state) :=
  let '(s, q, m) := w in
  let! x := of_opt (nodes s !! n) in
  if IS_LEAF x then Ok (Some w) else for_bytes (trans_step n) bytes256 w.

(** [ac_maketrans]: the automaton, or [None] for CL_EMEM. *)
Definition ac_maketrans (s : ac) (m : list bool) : res (option ac) :=
  let! r := for_bytes root_step bytes256 (s, [], m) in
  match r with
  | None => Ok None
  | Some (s, q, m) =>
      let! r := while_queue (length (nodes s)) fail_node (s, q, m) in
      match r with
      | None => Ok None
      | Some (s, m) =>
          let! r := for_bytes root_step2 bytes256 (s, [], m) in
          match r with
          | None => Ok None
          | Some w =>
              let! r := while_queue (length (nodes s)) trans_node w in
              Ok (fst <$> r)
          end
      end
  end.

Definition cli_ac_buildtrie (s : ac) (m : list bool) : res (Z * option ac) :=
  let! r := ac_maketrans s m in
  match r with
  | Some s => Ok (CL_SUCCESS, Some s)
  | None => Ok (CL_EMEM, None)
  end.

End Ac.
