(* ===== verification/AcMatch.v ===== *)
(** * Matching with the Aho-Corasick automaton (libclamav/matcher-ac.c)

    [ac_findmatch] compares a pattern whose first characters the automaton has
    recognised with the buffer; [cli_ac_scanbuff] runs the automaton over a buffer
    and treats the matches: partial signatures, parts of logical signatures, file
    types, and viruses. *)
From stdpp Require Import base numbers list list_numbers gmap.
From Stdlib Require Import ZArith Lia Bool.
From S2P Require Import Prelude Dlp Hashset CalOff Ac.

Local Open Scope Z_scope.

Module AcMatch.
Import Errors CalOff Ac.

Definition AC_BOUNDARY_LEFT : Z := 1.
Definition AC_BOUNDARY_LEFT_NEGATIVE : Z := 2.
Definition AC_BOUNDARY_RIGHT : Z := 4.
Definition AC_BOUNDARY_RIGHT_NEGATIVE : Z := 8.
Definition AC_LINE_MARKER_LEFT : Z := 16.
Definition AC_LINE_MARKER_LEFT_NEGATIVE : Z := 32.
Definition AC_LINE_MARKER_RIGHT : Z := 64.
Definition AC_LINE_MARKER_RIGHT_NEGATIVE : Z := 128.
Definition SCANBUFF : Z := 131072.

(** The table [boundary]: its entries that are not 0. *)
Definition boundary_of (b : Z) : Z :=
  if (b =? 10) || (b =? 13) || (b =? 34) || (b =? 39) || (b =? 61) || (b =? 62) then 2
  else if (b =? 46) || (b =? 60) || (b =? 64) then 1
  else if (b =? 32) || (b =? 45) || (b =? 47) || (b =? 95) then 3
  else 0.

Section Match.
Context (buffer : list Z) (length_b : Z).

(** The loop over sorted alternatives of characters. *)
Fixpoint alt_char (str : list Z) (b : Z) : bool :=
  match str with
  | [] => false
  | c :: str => if c =? b then true else if b <? c then false else alt_char str b
  end.

(** [memcmp(&buffer[bp], str, len)] is 0. *)
Definition equal_at (bp : Z) (str : list Z) : option bool :=
  assert* (0 <=? bp) && (bp + Z.of_nat (length str) <=? Z.of_nat (length buffer)) in
  Some (bool_decide (take (length str) (drop (Z.to_nat bp) buffer) = str)).

(** The loop over alternatives of strings: the length of the first that matches. *)
Fixpoint alt_str (l : list (list Z)) (bp : Z) : option (option Z) :=
  match l with
  | [] => Some None
  | str :: l =>
      if uint 32 (bp + Z.of_nat (length str)) <=? length_b then
        let* e := equal_at bp str in
        if e then Some (Some (Z.of_nat (length str))) else alt_str l bp
      else alt_str l bp
  end.

(** The case of specials in [AC_MATCH_CHAR]: whether it matches, and [bp]. *)
Definition match_special (sp : special) (b bp : Z) : option (bool * Z) :=
  let neg := negative sp in
  if sp_type sp =? AC_SPECIAL_ALT_CHAR then
    Some (if alt_char (concat (alts sp)) b then negb neg else neg, bp)
  else if sp_type sp =? AC_SPECIAL_ALT_STR then
    let* r := alt_str (alts sp) bp in
    Some (match r with Some n => (negb neg, uint 32 (bp + n - 1)) | None => (neg, bp) end)
  else if sp_type sp =? AC_SPECIAL_LINE_MARKER then
    if b =? 10 then Some (negb neg, bp)
    else if (b =? 13) && (bp + 1 <? length_b) then
      let* c := bget buffer (bp + 1) in
      Some (if c =? 10 then (negb neg, bp + 1) else (neg, bp))
    else Some (neg, bp)
  else if sp_type sp =? AC_SPECIAL_BOUNDARY then
    Some (if negb (boundary_of b =? 0) then negb neg else neg, bp)
  else Some (false, bp).

(** [AC_MATCH_CHAR(p, b)]: whether the character matches, [bp] and
    [specialcnt]. *)
Definition match_char (tab : list special) (p b bp specialcnt : Z) : option (bool * Z * Z) :=
  let wc := Z.land p CLI_MATCH_WILDCARD in
  if wc =? CLI_MATCH_CHAR then Some (uint 8 p =? b, bp, specialcnt)
  else if wc =? CLI_MATCH_IGNORE then Some (true, bp, specialcnt)
  else if wc =? CLI_MATCH_SPECIAL then
    let* sp := bget tab specialcnt in
    let* (m, bp) := match_special sp b bp in
    Some (m, bp, specialcnt + 1)
  else if wc =? CLI_MATCH_NIBBLE_HIGH then Some (Z.land p 0xf0 =? Z.land b 0xf0, bp, specialcnt)
  else if wc =? CLI_MATCH_NIBBLE_LOW then Some (Z.land p 0x0f =? Z.land b 0x0f, bp, specialcnt)
  else Some (false, bp, specialcnt).

(** The loop over the characters of the pattern, or of the prefix, where the
    index is not compared with the length of the buffer ([checked] is false).
    [Some None] is the return of 0. *)
Fixpoint match_loop (checked : bool) (tab : list special) (chars : list Z) (bp specialcnt : Z)
    : option (option (Z * Z)) :=
  match chars with
  | [] => Some (Some (bp, specialcnt))
  | c :: chars =>
      if negb checked || (bp <? length_b) then
        let* b := bget buffer bp in
        let* (m, bp, specialcnt) := match_char tab c b bp specialcnt in
        if m then match_loop checked tab chars (bp + 1) specialcnt else Some None
      else Some (Some (bp, specialcnt))
  end.

(** One of the four tests for the surroundings of the match: [set] and [neg] are
    the flags of the pattern, [here] what the text has. *)
Definition marker_ok (bnd set neg : Z) (here : option bool) : option bool :=
  if negb (Z.land bnd set =? 0) then
    let* h := here in Some (xorb (negb (Z.land bnd neg =? 0)) h)
  else Some true.

(** What stands before [offset] and behind [bp]. *)
Definition before (offset fileoffset : Z) (f : Z -> bool) : option bool :=
  if fileoffset =? 0 then Some true
  else if offset =? 0 then Some false
  else let* b := bget buffer (offset - 1) in Some (f b).

Definition behind (bp : Z) (f : Z -> bool) : option bool :=
  if length_b <=? SCANBUFF then
    if bp =? length_b then Some true
    else let* b := bget buffer bp in Some (f b)
  else Some false.

Definition line_end (bp : Z) (b : Z) : bool :=
  (b =? 10) || ((b =? 13) && (bp + 1 <? length_b) && bool_decide (bget buffer (bp + 1) = Some 10)).

Definition markers (p : ac_patt) (offset fileoffset bp : Z) : option bool :=
  let* ok := marker_ok (boundary p) AC_BOUNDARY_LEFT AC_BOUNDARY_LEFT_NEGATIVE
    (before offset fileoffset (fun b => (boundary_of b =? 1) || (boundary_of b =? 3))) in
  if negb ok then Some false
  else
    let* ok := marker_ok (boundary p) AC_BOUNDARY_RIGHT AC_BOUNDARY_RIGHT_NEGATIVE
      (behind bp (fun b => 2 <=? boundary_of b)) in
    if negb ok then Some false
    else
      let* ok := marker_ok (boundary p) AC_LINE_MARKER_LEFT AC_LINE_MARKER_LEFT_NEGATIVE
        (before offset fileoffset (fun b => b =? 10)) in
      if negb ok then Some false
      else marker_ok (boundary p) AC_LINE_MARKER_RIGHT AC_LINE_MARKER_RIGHT_NEGATIVE (behind bp (line_end bp)).

(** The search for [ch[1]] behind the match and for [ch[0]] before it, over at
    most [n] positions (ranges end at [AC_CH_MAXDIST], 32); [m] is the variable
    [match]. *)
Fixpoint ch_forward (n : nat) (tab : list special) (c bp cnt : Z) (m : bool) : option (bool * Z) :=
  match n with
  | O => Some (m, cnt)
  | S n =>
      if length_b <=? bp then Some (false, cnt)
      else
        let* b := bget buffer bp in
        let* (m, bp, cnt) := match_char tab c b bp cnt in
        if m then Some (true, cnt) else ch_forward n tab c (bp + 1) cnt m
  end.

Fixpoint ch_backward (n : nat) (tab : list special) (c bp cnt : Z) (m : bool) : option bool :=
  match n with
  | O => Some m
  | S n =>
      let* b := bget buffer bp in
      let* (m, bp, cnt) := match_char tab c b bp cnt in
      if m then Some true
      else if bp =? 0 then Some false
      else ch_backward n tab c (bp - 1) cnt m
  end.

Definition is_ignore (c : Z) : bool := negb (Z.land c CLI_MATCH_IGNORE =? 0).
Definition rounds (lo hi : Z) : nat := Z.to_nat (hi - lo + 1).

(** [ac_findmatch]: whether the pattern of a cell matches at [offset], and [end]. *)
Definition ac_findmatch (c : cell) (offset fileoffset : Z) : option (option Z) :=
  let p := patt c in
  let tab := special_table p in
  if (length_b <? uint 32 (offset + length_ p)) || (offset <? prefix_length p) then Some None
  else
    let* r := match_loop true tab (drop (depth c) (pattern p)) (uint 32 (offset + Z.of_nat (depth c))) (special_pattern p) in
    match r with
    | None => Some None
    | Some (bp, cnt) =>
        let* ok := markers p offset fileoffset bp in
        if negb ok then Some None
        else
          let* (ok, cnt) :=
            (if is_ignore (snd (ch p)) then Some (true, cnt)
             else ch_forward (rounds (snd (ch_mindist p)) (snd (ch_maxdist p))) tab (snd (ch p))
                    (uint 32 (bp + snd (ch_mindist p))) cnt true) in
          if negb ok then Some None
          else
            let start := offset - prefix_length p in
            let* r :=
              match prefix p with
              | Some pre => match_loop false tab pre start 0
              | None => Some (Some (start, cnt))
              end in
            match r with
            | None => Some None
            | Some (_, cnt) =>
                let* ok :=
                  (if is_ignore (fst (ch p)) then Some true
                   else if start <? fst (ch_mindist p) + 1 then Some false
                   else ch_backward (rounds (fst (ch_mindist p)) (fst (ch_maxdist p))) tab (fst (ch p))
                          (start - (fst (ch_mindist p) + 1)) cnt true) in
                Some (if ok then Some bp else None)
            end
    end.
End Match.

End AcMatch.
