(* ===== verification/AcScan.v ===== *)
(** * Scanning a buffer with the Aho-Corasick matcher (libclamav/matcher-ac.c)

    The whole of [cli_ac_scanbuff] with the functions it calls: [ac_addtype],
    [lsig_sub_matched], and the life of [struct cli_ac_data]. *)
From stdpp Require Import base numbers list list_numbers gmap.
From Stdlib Require Import ZArith Lia Bool.
From S2P Require Import Prelude Dlp Hashset CalOff Ac AcMatch.

Local Open Scope Z_scope.

Module AcScan.
Import Errors CalOff Ac AcMatch.

Definition AC_SCAN_VIR : Z := 1.
Definition AC_SCAN_FT : Z := 2.
Definition CLI_DEFAULT_AC_TRACKLEN : Z := 8.
Definition MAX_EMBEDDED_OBJ : Z := 10.
Definition CL_TYPE_MSEXE : Z := 506.
Definition CL_TYPE_ZIP : Z := 517.
Definition CL_TYPE_MSOLE2 : Z := 522.
Definition CL_TYPE_SFX : Z := 541.
Definition CL_TYPE_ZIPSFX : Z := 542.
Definition CL_TYPE_IGNORED : Z := 549.

(** [struct cli_ac_data].  The rows of a matrix of [offmatrix] are parts of one
    block; [lsigcnt] and [lsigsuboff] are single blocks with 64 entries for each
    logical signature. *)
Record acdata := AcData {
  offmatrix : gmap Z (list (list Z));
  lsigcnt : list Z; lsigsuboff : list Z;
  rel_offset : list Z; macro_lastmatch : list Z;
  vinfo : HashSet.hashset }.

Definition set_offmatrix (d : acdata) (i : Z) (rows : list (list Z)) : acdata :=
  AcData (<[i := rows]> (offmatrix d)) (lsigcnt d) (lsigsuboff d) (rel_offset d) (macro_lastmatch d) (vinfo d).
Definition set_lsig (d : acdata) (cnt sub : list Z) : acdata :=
  AcData (offmatrix d) cnt sub (rel_offset d) (macro_lastmatch d) (vinfo d).
Definition set_macro (d : acdata) (l : list Z) : acdata :=
  AcData (offmatrix d) (lsigcnt d) (lsigsuboff d) (rel_offset d) l (vinfo d).

(** [cli_ac_initdata]: the data for [lsigs] logical signatures and [reloffsigs]
    patterns with relative offsets; [junk] is what fresh memory holds. *)
Fixpoint init_offsets (n : nat) (junk : list Z) : list Z :=
  match n with
  | O => []
  | S n => CLI_OFF_NONE :: default 0 (junk !! 1%nat) :: init_offsets n (drop 2 junk)
  end.

Definition cli_ac_initdata (partsigs lsigs reloffsigs : Z) (junk : list Z) (m : list bool) : Z * option acdata :=
  let '(ok, m) := if 0 <? reloffsigs then alloc m else (true, m) in
  if negb (Alloc.cli_malloc ok (if 0 <? reloffsigs then uint 32 (reloffsigs * 2) * 4 else 1)) then (CL_EMEM, None)
  else
    let '(ok, m) := if 0 <? partsigs then alloc m else (true, m) in
    if negb (Alloc.cli_calloc ok partsigs 8) then (CL_EMEM, None)
    else
      let '(ok1, m) := if 0 <? lsigs then alloc m else (true, m) in
      let '(ok2, m) := if 0 <? lsigs then alloc m else (true, m) in
      let '(ok3, m) := if 0 <? lsigs then alloc m else (true, m) in
      let '(ok4, m) := if 0 <? lsigs then alloc m else (true, m) in
      let size := if 0 <? lsigs then lsigs * 8 else 1 in
      if negb (Alloc.cli_malloc ok1 size && Alloc.cli_calloc ok2 (lsigs * 64) 4
               && Alloc.cli_malloc ok3 size && Alloc.cli_calloc ok4 (lsigs * 64) 4) then (CL_EMEM, None)
      else
        (CL_SUCCESS, Some (AcData ∅ (replicate (Z.to_nat (lsigs * 64)) 0) (replicate (Z.to_nat (lsigs * 64)) CLI_OFF_NONE)
           (init_offsets (Z.to_nat reloffsigs) junk) (replicate 32 CLI_OFF_NONE) HashSet.cli_hashset_init_noalloc)).

(** What a scan changes: the data, the type found, the types and offsets recorded
    ([ftoffset] may be NULL), the results ([res] may be NULL; pattern and offset)
    and the outcomes of allocations. *)
Record scan := Scan {
  md : acdata; found_type : Z;
  ftoffset : option (list (Z * Z)); results : option (list (nat * Z)); mem : list bool }.

Definition with_md (s : scan) (d : acdata) : scan := Scan d (found_type s) (ftoffset s) (results s) (mem s).

(** A return of a code, with the pattern whose name is reported. *)
Definition stop : Type := Z * option nat.

Section Scan.
Context (root : ac).
(** [tdb.macro_ptids] of each logical signature, and [ctx->engine->maxfiles]. *)
Context (macro_ptids : list (option (list Z))) (maxfiles : option Z).
Context (buffer : list Z) (length_b offset ftype mode : Z).

(** [ac_addtype] on the list of matched types; its length is the counter. *)
Definition ac_addtype (l : list (Z * Z)) (t off : Z) (m : list bool) : Z * list (Z * Z) * list bool :=
  let cnt := Z.of_nat (length l) in
  if (if t =? CL_TYPE_ZIPSFX then
        negb (cnt =? 0) && match maxfiles with Some mx => negb (mx =? 0) && (mx <? cnt) | None => false end
      else negb (cnt =? 0) && (MAX_EMBEDDED_OBJ <=? cnt)) then (CL_SUCCESS, l, m)
  else
    let '(ok, m) := alloc m in
    if ok then (CL_SUCCESS, l ++ [(t, off)], m) else (CL_EMEM, l, m).

Fixpoint add_types (offs : list Z) (l : list (Z * Z)) (t : Z) (m : list bool) : Z * list (Z * Z) * list bool :=
  match offs with
  | [] => (CL_SUCCESS, l, m)
  | o :: offs =>
      let '(ret, l, m) := ac_addtype l t o m in
      if ret =? CL_SUCCESS then add_types offs l t m else (ret, l, m)
  end.

(** [lsig_sub_matched]. *)
Definition lsig_sub_matched (d : acdata) (l1 l2 realoff : Z) : option acdata :=
  let i := 64 * l1 + l2 in
  let* c := bget (lsigcnt d) i in
  let c := if negb (realoff =? CLI_OFF_NONE) then uint 32 (c + 1) else c in
  let* cnt := bset (lsigcnt d) i c in
  let* prev := bget (lsigsuboff d) i in
  if prev =? CLI_OFF_NONE then
    let* sub := bset (lsigsuboff d) i realoff in
    Some (set_lsig d cnt sub)
  else if 1 <? c then
    let d := set_lsig d cnt (lsigsuboff d) in
    let* ptids := bget macro_ptids l1 in
    match ptids with
    | None => Some d
    | Some ids =>
        let* id := bget ids l2 in
        if id =? 0 then Some d
        else
          let* mp := bget (cells root) id in
          let smin := fst (ch_mindist (patt mp)) in
          let smax := fst (ch_maxdist (patt mp)) in
          let* last := bget (macro_lastmatch d) (sigid (patt mp)) in
          if (last =? CLI_OFF_NONE) || (last <? uint 32 (prev + smin)) || (uint 32 (prev + smax) <? last) then
            let* cnt := bset cnt i (uint 32 (c - 1)) in
            let* sub := bset (lsigsuboff d) i realoff in
            Some (set_lsig d cnt sub)
          else
            let* c1 := bget cnt (i + 1) in
            let* cnt := bset cnt (i + 1) (uint 32 (c1 + 1)) in
            let* sub := bset (lsigsuboff d) (i + 1) last in
            Some (set_lsig d cnt sub)
    end
  else Some (set_lsig d cnt (lsigsuboff d)).

(** [cli_ac_chkmacro]: the loop over the parts of a logical signature. *)
Fixpoint cli_ac_chkmacro (n : nat) (d : acdata) (l1 i : Z) : option acdata :=
  match n with
  | O => Some d
  | S n => let* d := lsig_sub_matched d l1 i CLI_OFF_NONE in cli_ac_chkmacro n d l1 (i + 1)
  end.

(** Whether [realoff] is an offset at which the pattern may stand. *)
Definition offset_ok (d : acdata) (p : ac_patt) (realoff : Z) : option bool :=
  if offset_min p =? CLI_OFF_NONE then Some false
  else if od0 (off_data p) =? CLI_OFF_ABSOLUTE then
    Some (negb ((offset_max p <? realoff) || (realoff <? offset_min p)))
  else
    let* mn := bget (rel_offset d) (offset_min p) in
    if mn =? CLI_OFF_NONE then Some false
    else
      let* mx := bget (rel_offset d) (offset_max p) in
      Some (negb ((mx <? realoff) || (realoff <? mn))).

(** A pattern with an offset that is not that of a later part. *)
Definition has_offset (p : ac_patt) : bool :=
  negb (offset_min p =? CLI_OFF_ANY) && ((sigid p =? 0) || (partno p =? 1)).

(** The test made before the pattern is compared. *)
Definition skip_early (d : acdata) (c : cell) (bp : Z) : option bool :=
  let p := patt c in
  if negb (od0 (off_data p) =? CLI_OFF_VERSION) && negb (od0 (off_data p) =? CLI_OFF_MACRO)
     && bool_decide (next_same c = None) && has_offset p then
    let* ok := offset_ok d p (uint 32 (offset + bp - prefix_length p)) in Some (negb ok)
  else Some false.

(** A match that makes a file type: [offs] are the offsets to record. *)
Definition take_type (s : scan) (p : ac_patt) (offs : list Z) : scan * option stop * bool :=
  let rt := (rtype p =? 0) || (ftype =? rtype p) in
  if (type p =? CL_TYPE_IGNORED) && rt then (s, Some (CL_TYPE_IGNORED, None), false)
  else if ((found_type s <? type p) || (CL_TYPE_SFX <=? type p) || (type p =? CL_TYPE_MSEXE)) && rt then
    let t := type p in
    match ftoffset s with
    | Some l =>
        let cnt := Z.of_nat (length l) in
        if ((cnt =? 0) || (cnt <? MAX_EMBEDDED_OBJ) || (t =? CL_TYPE_ZIPSFX))
           && ((CL_TYPE_SFX <=? t)
               || (((ftype =? CL_TYPE_MSEXE) || (ftype =? CL_TYPE_ZIP) || (ftype =? CL_TYPE_MSOLE2)) && (t =? CL_TYPE_MSEXE)))
        then
          let '(ret, l, m) := add_types offs l t (mem s) in
          (Scan (md s) t (Some l) (results s) m, if ret =? CL_SUCCESS then None else Some (CL_EMEM, None), true)
        else (Scan (md s) t (ftoffset s) (results s) (mem s), None, true)
    | None => (Scan (md s) t None (results s) (mem s), None, true)
    end
  else (s, None, false).

(** A match of a virus signature or of a part of a logical signature. *)
Definition take_virus (s : scan) (id : nat) (p : ac_patt) (realoff : Z) : option (scan * option stop) :=
  match lsigid p with
  | Some (l1, l2) =>
      let* d := lsig_sub_matched (md s) l1 l2 realoff in
      Some (with_md s d, None)
  | None =>
      match results s with
      | Some l =>
          let '(ok, m) := alloc (mem s) in
          if ok then Some (Scan (md s) (found_type s) (ftoffset s) (Some ((id, realoff) :: l)) m, None)
          else Some (Scan (md s) (found_type s) (ftoffset s) (results s) m, Some (CL_EMEM, None))
      | None => Some (s, Some (CL_VIRUS, Some id))
      end
  end.

(** The offsets of the previous part that are tracked: up to [-1]. *)
Fixpoint tracked (l : list Z) : list Z :=
  match l with
  | [] => []
  | v :: l => if v =? -1 then [] else v :: tracked l
  end.

Definition near (p : ac_patt) (realoff v : Z) : bool :=
  let dist := uint 32 (realoff - v) in
  negb (negb (maxdist p =? 0) && (maxdist p <? dist)) && negb (negb (mindist p =? 0) && (dist <? mindist p)).

Definition fresh_rows (n : Z) : list (list Z) := replicate (Z.to_nat n) (0 :: replicate 8 (-1)).

(** [offmatrix[i][0] %= TRACKLEN; offmatrix[i][0]++; offmatrix[i][offmatrix[i][0]] = v]:
    the rows and the position written. *)
Definition track (rows : list (list Z)) (i v : Z) : option (list (list Z) * Z) :=
  let* row := bget rows i in
  let* k := bget row 0 in
  let k := Z.rem k CLI_DEFAULT_AC_TRACKLEN + 1 in
  let* row := bset row 0 k in
  let* row := bset row k v in
  let* rows := bset rows i row in
  Some (rows, k).

(** A match of a part of a partial signature. *)
Definition take_part (s : scan) (id : nat) (p : ac_patt) (realoff matchend : Z) : option (scan * option stop) :=
  let sid := sigid p - 1 in
  let om := offmatrix (md s) !! sid in
  let* idle :=
    (if partno p =? 1 then Some false
     else match om with
          | None => Some true
          | Some rows =>
              let* row := bget rows (partno p - 2) in
              let* k := bget row 0 in Some (k =? 0)
          end) in
  if idle then Some (s, None)
  else
    let '(ok1, m1) := alloc (mem s) in
    let '(ok2, m2) := alloc m1 in
    let fresh := bool_decide (om = None) in
    if fresh && negb (Alloc.cli_malloc ok1 (parts p * 8)) then
      Some (Scan (md s) (found_type s) (ftoffset s) (results s) m1, Some (CL_EMEM, None))
    else if fresh && negb (Alloc.cli_malloc ok2 (parts p * (CLI_DEFAULT_AC_TRACKLEN + 1) * 4)) then
      Some (Scan (md s) (found_type s) (ftoffset s) (results s) m2, Some (CL_EMEM, None))
    else
      let rows := default (fresh_rows (parts p)) om in
      let s := Scan (set_offmatrix (md s) sid rows) (found_type s) (ftoffset s) (results s)
                 (if fresh then m2 else mem s) in
      let* found :=
        (if partno p =? 1 then Some false
         else let* row := bget rows (partno p - 2) in Some (existsb (near p realoff) (tracked (drop 1 row)))) in
      if (partno p =? 1) || (found && negb (partno p =? parts p)) then
        let* (rows, k) := track rows (partno p - 1) (sint 32 (offset + matchend)) in
        let* rows :=
          (if partno p =? 1 then
             let* row := bget rows (parts p - 1) in
             let* row := bset row k (sint 32 realoff) in
             bset rows (parts p - 1) row
           else Some rows) in
        Some (with_md s (set_offmatrix (md s) sid rows), None)
      else if found && (partno p =? parts p) then
        if negb (type p =? 0) then
          let* row0 := bget rows 0 in
          let* rowl := bget rows (parts p - 1) in
          let offs := take (length (tracked (drop 1 row0))) (drop 1 rowl) in
          let '(s, r, taken) := take_type s p offs in
          Some (if taken && bool_decide (r = None)
                then with_md s (set_offmatrix (md s) sid (fresh_rows (parts p))) else s, r)
        else take_virus s id p realoff
      else Some (s, None).

(** The body of the loop over patterns with the same text; [head] is the one
    whose list this is. *)
Definition take_match (s : scan) (head : ac_patt) (id : nat) (p : ac_patt) (bp matchend : Z)
    : res (scan * option stop) :=
  if (negb (type p =? 0) && (Z.land mode AC_SCAN_FT =? 0)) || ((type p =? 0) && (Z.land mode AC_SCAN_VIR =? 0)) then Ok (s, None)
  else
    let realoff := uint 32 (offset + bp - prefix_length p) in
    let! go :=
      (if od0 (off_data p) =? CLI_OFF_VERSION then
         let! b := HashSet.cli_hashset_contains_maybe_noalloc (vinfo (md s)) realoff in Ok (Some b)
       else if od0 (off_data p) =? CLI_OFF_MACRO then Ok None
       else if has_offset p then let! b := of_opt (offset_ok (md s) p realoff) in Ok (Some b)
       else Ok (Some true)) in
    match go with
    | None =>
        let! l := of_opt (bset (macro_lastmatch (md s)) (od1 (off_data head)) realoff) in
        Ok (with_md s (set_macro (md s) l), None)
    | Some false => Ok (s, None)
    | Some true =>
        of_opt
          (if negb (sigid p =? 0) then take_part s id p realoff matchend
           else if negb (type p =? 0) then
             let '(s, r, _) := take_type s p [realoff] in Some (s, r)
           else take_virus s id p realoff)
    end.

(** The loop over [next_same]. *)
Fixpoint same_loop (fuel : nat) (s : scan) (head : ac_patt) (pt : option nat) (bp matchend : Z)
    : res (scan * option stop) :=
  match pt with
  | None => Ok (s, None)
  | Some id =>
      match fuel with
      | O => NoFuel
      | S fuel =>
          let! c := of_opt (cells root !! id) in
          let! (s, r) := take_match s head id (patt c) bp matchend in
          match r with
          | Some r => Ok (s, Some r)
          | None => same_loop fuel s head (next_same c) bp matchend
          end
      end
  end.

(** The loop over the patterns of a node, when the byte [i] was read. *)
Fixpoint patt_loop (fuel : nat) (s : scan) (p : option nat) (i : Z) : res (scan * option stop) :=
  match p with
  | None => Ok (s, None)
  | Some id =>
      match fuel with
      | O => NoFuel
      | S fuel =>
          let! c := of_opt (cells root !! id) in
          let bp := uint 32 (i + 1 - Z.of_nat (depth c)) in
          let! skip := of_opt (skip_early (md s) c bp) in
          if skip then patt_loop fuel s (next c) i
          else
            let! m := of_opt (ac_findmatch buffer length_b c bp (uint 32 (offset + bp - prefix_length (patt c)))) in
            match m with
            | Some matchend =>
                let! (s, r) := same_loop (S (length (cells root))) s (patt c) (Some id) bp matchend in
                match r with
                | Some r => Ok (s, Some r)
                | None => patt_loop fuel s (next c) i
                end
            | None => patt_loop fuel s (next c) i
            end
      end
  end.

(** The loop over the buffer, from the byte [i]; [n] bytes are left. *)
Fixpoint scan_loop (n : nat) (s : scan) (current : nat) (i : Z) : res (scan * option stop) :=
  match n with
  | O => Ok (s, None)
  | S n =>
      let! b := of_opt (bget buffer i) in
      let! x := of_opt (nodes root !! current) in
      let! t := of_opt (trans x) in
      let! current := of_opt (t !! b) in
      let! x := of_opt (nodes root !! current) in
      if IS_FINAL x then
        let! current := (if IS_LEAF x then of_opt (fail x) else Ok current) in
        let! (s, r) := patt_loop (S (length (cells root))) s (nlist x) i in
        match r with
        | Some r => Ok (s, Some r)
        | None => scan_loop n s current (i + 1)
        end
      else scan_loop n s current (i + 1)
  end.

(** [cli_ac_scanbuff] with [mdata] present: the code, the pattern reported and
    what has changed. *)
Definition cli_ac_scanbuff (s : scan) : res (Z * option nat * scan) :=
  let! (s, r) := scan_loop (Z.to_nat length_b) (Scan (md s) CL_CLEAN (ftoffset s) (results s) (mem s)) 0 0 in
  match r with
  | Some (code, p) => Ok (code, p, s)
  | None => Ok (if negb (Z.land mode AC_SCAN_FT =? 0) then found_type s else CL_CLEAN, None, s)
  end.
End Scan.

End AcScan.
