(* ===== verification/AcWords.v ===== *)
(** * Longest suffixes in a set of words

    The states of the Aho-Corasick automaton are the words of the trie.  After a
    text the automaton is in the longest suffix of the text that is a word; this
    file has the arithmetic of these suffixes, without any reference to nodes. *)
From stdpp Require Import base numbers list list_numbers.
From Stdlib Require Import ZArith Lia Bool.
From S2P Require Import Prelude.

Module AcWords.

Abbreviation word := (list Z).

(** The longest suffix of [w] in [W]. *)
Fixpoint lsuf (W : list word) (w : word) : word :=
  if bool_decide (w ∈ W) then w
  else match w with [] => [] | _ :: w => lsuf W w end.

Section Longest.
Context (W : list word) (nil_in : [] ∈ W).

Lemma lsuf_in w : lsuf W w ∈ W.
Proof using nil_in. induction w as [|c w IH]; cbn; case_bool_decide; done. Qed.

Lemma lsuf_suffix w : lsuf W w `suffix_of` w.
Proof.
  induction w as [|c w IH]; cbn; case_bool_decide; [done..|]. by apply suffix_cons_r.
Qed.

Lemma lsuf_longest w u : u `suffix_of` w -> u ∈ W -> u `suffix_of` lsuf W w.
Proof.
  induction w as [|c w IH]; cbn; intros Hs Hu; case_bool_decide as Hw; [done|done|done|].
  apply IH; [|done]. destruct u as [|a u]; [by exists w; rewrite app_nil_r|].
  apply suffix_cons_inv in Hs as [E|Hs]; [|done]. by rewrite E in Hu.
Qed.

Lemma lsuf_id w : w ∈ W -> lsuf W w = w.
Proof. intros H. destruct w; cbn; by rewrite bool_decide_true by done. Qed.

Lemma lsuf_cons c w : c :: w ∉ W -> lsuf W (c :: w) = lsuf W w.
Proof. intros H. cbn. by rewrite bool_decide_false by done. Qed.

Lemma lsuf_tail w : w ∉ W -> lsuf W w = lsuf W (tail w).
Proof using nil_in. destruct w; [done|]. apply lsuf_cons. Qed.

Lemma lsuf_length w : (length (lsuf W w) <= length w)%nat.
Proof. apply suffix_length, lsuf_suffix. Qed.

(** A word with the properties of the longest suffix is it. *)
Lemma lsuf_unique w v : v `suffix_of` w -> v ∈ W ->
  (forall u, u `suffix_of` w -> u ∈ W -> u `suffix_of` v) -> lsuf W w = v.
Proof using nil_in.
  intros Hs Hv Hm. apply (anti_symm suffix); [apply Hm; [apply lsuf_suffix|apply lsuf_in]|by apply lsuf_longest].
Qed.
End Longest.

(** The words [D] have continuations: a word that ends a longer one is in it. *)
Section Step.
Context (W D : list word).
Record branching : Prop := {
  nil_W : [] ∈ W;
  nil_D : [] ∈ D;
  D_sub w : w ∈ D -> w ∈ W;
  D_parent w c : w ++ [c] ∈ W -> w ∈ D }.
Context (HB : branching).

Lemma lsuf_sub w : lsuf D (lsuf W w) = lsuf D w.
Proof using HB.
  symmetry. apply lsuf_unique; [apply HB| | |].
  - etrans; apply lsuf_suffix.
  - apply lsuf_in, HB.
  - intros u Hu Hin. apply lsuf_longest; [|done]. apply lsuf_longest; [done|by apply HB].
Qed.

(** Only the longest suffix with continuations matters for the next state. *)
Lemma lsuf_step_D w c : lsuf W (lsuf D w ++ [c]) = lsuf W (w ++ [c]).
Proof using HB.
  symmetry. apply lsuf_unique; [apply HB| | |].
  - etrans; [apply lsuf_suffix|]. apply suffix_app, lsuf_suffix.
  - apply lsuf_in, HB.
  - intros u Hu Hin. apply lsuf_longest; [|done]. destruct u as [|x u _] using rev_ind; [apply suffix_nil|].
    pose proof (suffix_snoc_inv_1 _ _ _ _ Hu) as ->. apply suffix_app, lsuf_longest; [|by eapply HB].
    by apply suffix_snoc_inv_2 in Hu.
Qed.

Lemma lsuf_step_W w c : lsuf W (lsuf W w ++ [c]) = lsuf W (w ++ [c]).
Proof using HB. rewrite <- lsuf_step_D, lsuf_sub. apply lsuf_step_D. Qed.

Lemma tail_app_one (w : word) (c : Z) : w <> [] -> tail (w ++ [c]) = tail w ++ [c].
Proof using. destruct w; done. Qed.

(** The failure state of a word does the same as the word for a character the
    word does not continue with. *)
Lemma lsuf_fail w c : w <> [] -> w ++ [c] ∉ W -> lsuf W (tail w ++ [c]) = lsuf W (w ++ [c]).
Proof using HB. intros Hw Hc. rewrite (lsuf_tail W (nil_W HB) (w ++ [c])) by done. by rewrite tail_app_one. Qed.
End Step.

(** ** Lists that are collected along the suffixes *)
Section Full.
Context {A : Type} (own : word -> list A).

Fixpoint full (w : word) : list A :=
  own w ++ match w with [] => [] | _ :: w => full w end.

Lemma full_cons c w : full (c :: w) = own (c :: w) ++ full w.
Proof. done. Qed.

Lemma full_tail w : w <> [] -> full w = own w ++ full (tail w).
Proof. by destruct w. Qed.

Lemma elem_of_full p w : p ∈ full w <-> exists u, u `suffix_of` w /\ p ∈ own u.
Proof.
  induction w as [|c w IH].
  - cbn. rewrite app_nil_r. split; [by exists []|]. intros (u & Hu & Hp). by rewrite (suffix_nil_inv _ Hu) in Hp.
  - rewrite full_cons, elem_of_app, IH. split.
    + intros [Hp|(u & Hu & Hp)]; [by exists (c :: w)|]. exists u. split; [by apply suffix_cons_r|done].
    + intros (u & Hu & Hp). destruct u as [|a u]; [right; exists []; split; [apply suffix_nil|done]|].
      apply suffix_cons_inv in Hu as [E|Hu]; [left; by rewrite <- E|right; by exists (a :: u)].
Qed.

(** Words that own nothing contribute nothing. *)
Lemma full_lsuf W w : (forall u, u ∉ W -> own u = []) -> full (lsuf W w) = full w.
Proof.
  intros H. induction w as [|c w IH]; cbn [lsuf]; case_bool_decide as Hw; [done..|].
  rewrite IH, full_cons, (H (c :: w)) by done. done.
Qed.
End Full.

(** ** The depth of a word is bounded by the number of words *)
Lemma take_in_prefixes (W : list word) :
  (forall w c, w ++ [c] ∈ W -> w ∈ W) -> forall w k, w ∈ W -> take k w ∈ W.
Proof.
  intros H w. induction w as [|c w IH] using rev_ind; intros k Hw; [by rewrite take_nil|].
  destruct (decide (length (w ++ [c]) <= k)%nat) as [Hk|Hk]; [by rewrite take_ge|].
  rewrite length_app in Hk. cbn in Hk. rewrite take_app_le by lia. apply IH. by eapply H.
Qed.

Lemma word_depth (W : list word) w :
  (forall w c, w ++ [c] ∈ W -> w ∈ W) -> w ∈ W -> (length w < length W)%nat.
Proof.
  intros H Hw. set (l := (fun k => take k w) <$> seq 0 (S (length w))).
  assert (length l = S (length w)) as Hl by (unfold l; by rewrite length_fmap, length_seq).
  assert (NoDup l) as Hnd.
  { unfold l. apply NoDup_fmap_2_strong; [|apply NoDup_seq]. intros i j Hi Hj E.
    apply elem_of_seq in Hi, Hj. apply (f_equal length) in E. rewrite !length_take in E. lia. }
  assert (length l <= length W)%nat; [|lia].
  apply submseteq_length, NoDup_submseteq; [done|].
  intros x (k & -> & _)%list_elem_of_fmap. by apply take_in_prefixes.
Qed.

End AcWords.
