(* ===== verification/AcBfs.v ===== *)
(** * Breadth-first traversal of a trie

    The nodes of a trie are numbered, and [P] gives the word of each of them.  This
    file shows that the queue of [ac_maketrans] takes the nodes in the order of
    their depth: when a node is dequeued, all nodes that are not deeper have been
    enqueued and all that are higher have been treated. *)
From stdpp Require Import base numbers list list_numbers gmap.
From Stdlib Require Import ZArith Lia Bool Sorted.
From S2P Require Import Prelude Dlp CalOff Ac AcWords.

Local Open Scope Z_scope.

Module AcBfs.
Import Ac AcWords.

(** The words of a trie: they are closed under prefixes, and node 0 is the root. *)
Record tree (P : list word) : Prop := {
  tree_root : P !! 0%nat = Some [];
  tree_nodup : NoDup P;
  tree_closed w c : w ++ [c] ∈ P -> w ∈ P;
  tree_byte w c : w ++ [c] ∈ P -> 0 <= c < 256 }.

Section Tree.
Context (P : list word) (HT : tree P).

Definition idx (w : word) : option nat := fst <$> list_find (fun x => x = w) P.

Lemma idx_spec w m : idx w = Some m <-> P !! m = Some w.
Proof using HT.
  unfold idx. rewrite fmap_Some. split.
  - intros ([i x] & (Hi & -> & _)%list_find_Some & ->). done.
  - intros Hm. destruct (list_find_elem_of (fun x => x = w) P w) as [[i x] Hf]; [by eapply list_elem_of_lookup_2|done|].
    exists (i, x). split; [done|]. apply list_find_Some in Hf as (Hi & -> & _). cbn.
    by eapply NoDup_lookup; [apply (tree_nodup P HT)| |].
Qed.

Lemma idx_None w : idx w = None <-> w ∉ P.
Proof using HT.
  rewrite eq_None_not_Some. split; intros H Hin; apply H.
  - apply list_elem_of_lookup in Hin as [m Hm]. exists m. by apply idx_spec.
  - destruct Hin as [m Hm]. apply idx_spec in Hm. by eapply list_elem_of_lookup_2.
Qed.

Lemma word_inj n m w : P !! n = Some w -> P !! m = Some w -> n = m.
Proof using HT. intros. by eapply NoDup_lookup; [apply (tree_nodup P HT)| |]. Qed.

Definition depth_of (n : nat) : nat := length (default [] (P !! n)).

(** The children of a node, in the order of their characters. *)
Definition children (n : nat) : list nat :=
  match P !! n with
  | Some w => omap (fun i => idx (w ++ [i])) bytes256
  | None => []
  end.

Lemma elem_of_children n w m : P !! n = Some w ->
  m ∈ children n <-> exists c, P !! m = Some (w ++ [c]).
Proof using HT.
  intros Hw. unfold children. rewrite Hw, list_elem_of_omap. split.
  - intros (c & _ & H). exists c. by apply idx_spec.
  - intros (c & H). exists c. split; [|by apply idx_spec].
    apply elem_of_seqZ. assert (w ++ [c] ∈ P) as Hin by by eapply list_elem_of_lookup_2.
    pose proof (tree_byte P HT _ _ Hin). lia.
Qed.

Lemma NoDup_omap_inj {A B} (f : A -> option B) (l : list A) :
  (forall x y b, f x = Some b -> f y = Some b -> x = y) -> NoDup l -> NoDup (omap f l).
Proof.
  intros Hf. induction 1 as [|x l Hx Hl IH]; cbn; [constructor|].
  destruct (f x) as [b|] eqn:E; [|done]. constructor; [|done].
  rewrite list_elem_of_omap. intros (y & Hy & E'). by rewrite (Hf _ _ _ E E') in Hx.
Qed.

Lemma NoDup_children n : NoDup (children n).
Proof using HT.
  unfold children. destruct (P !! n) as [w|]; [|constructor]. apply NoDup_omap_inj; [|apply NoDup_seqZ].
  intros x y b Hx%idx_spec Hy%idx_spec. rewrite Hx in Hy. injection Hy as Hy. by apply app_inj_2 in Hy as [_ [= ->]].
Qed.

(** The traversal: [dn] are the nodes treated, [q] is the queue. *)
Record bfs (dn q : list nat) : Prop := {
  bfs_sorted : StronglySorted (fun n m => depth_of n <= depth_of m)%nat (dn ++ q);
  bfs_nodup : NoDup (dn ++ q);
  bfs_in n w c : P !! n = Some (w ++ [c]) ->
    n ∈ dn ++ q <-> w = [] \/ exists k, k ∈ dn /\ P !! k = Some w;
  bfs_valid n : n ∈ dn ++ q -> exists w c, P !! n = Some (w ++ [c]) }.

Lemma SSorted_const (l : list nat) (f : nat -> nat) k :
  Forall (fun n => f n = k) l -> StronglySorted (fun n m => f n <= f m)%nat l.
Proof.
  induction 1 as [|n l Hn Hl IH]; constructor; [done|]. eapply Forall_impl; [exact Hl|]. cbn. intros. lia.
Qed.

Lemma SSorted_app (l1 l2 : list nat) (f : nat -> nat) :
  StronglySorted (fun n m => f n <= f m)%nat l1 -> StronglySorted (fun n m => f n <= f m)%nat l2 ->
  (forall n m, n ∈ l1 -> m ∈ l2 -> (f n <= f m)%nat) -> StronglySorted (fun n m => f n <= f m)%nat (l1 ++ l2).
Proof.
  intros H1 H2 H. induction H1 as [|n l1 H1 IH Hn]; cbn; [done|]. constructor.
  - apply IH. intros a b Ha Hb. apply H; [by right|done].
  - apply Forall_app. split; [done|]. apply Forall_forall. intros m Hm. apply H; [by left|done].
Qed.

Lemma SSorted_app_le (l1 l2 : list nat) (f : nat -> nat) n m :
  StronglySorted (fun n m => f n <= f m)%nat (l1 ++ l2) -> n ∈ l1 -> m ∈ l2 -> (f n <= f m)%nat.
Proof.
  induction l1 as [|a l1 IH]; cbn; [by intros _ H%elem_of_nil|]. intros [Hs Ha]%StronglySorted_inv Hn Hm.
  apply elem_of_cons in Hn as [->|Hn]; [|by apply IH]. rewrite Forall_forall in Ha. apply Ha, elem_of_app. by right.
Qed.

Lemma depth_of_word n w : P !! n = Some w -> depth_of n = length w.
Proof. unfold depth_of. by intros ->. Qed.

Lemma children_depth n w : P !! n = Some w -> Forall (fun m => depth_of m = S (length w)) (children n).
Proof using HT.
  intros Hw. apply Forall_forall. intros m Hm. apply (elem_of_children n w) in Hm as (c & Hm); [|done].
  rewrite (depth_of_word _ _ Hm), length_app. cbn. lia.
Qed.

Lemma bfs_start : bfs [] (children 0).
Proof using HT.
  pose proof (tree_root P HT) as H0. split; cbn.
  - eapply SSorted_const. by apply children_depth.
  - apply NoDup_children.
  - intros n w c Hn. rewrite (elem_of_children 0 []) by done. split.
    + intros (c' & Hc). rewrite Hc in Hn. injection Hn as Hn. left. by apply (app_inj_2 [] w [c']) in Hn as [<- _].
    + intros [->|(k & Hk & _)]; [by exists c|by apply elem_of_nil in Hk].
  - intros n Hn. apply (elem_of_children 0 []) in Hn as (c & Hn); [|done]. by exists [], c.
Qed.

(** Everything known is at most one level below the head of the queue. *)
Lemma bfs_depth dn n q m : bfs dn (n :: q) -> m ∈ dn ++ n :: q -> (depth_of m <= S (depth_of n))%nat.
Proof using HT.
  intros HB Hm. destruct (bfs_valid _ _ HB m Hm) as (w & c & Hw).
  rewrite (depth_of_word _ _ Hw), length_app. cbn. destruct (proj1 (bfs_in _ _ HB m w c Hw) Hm) as [E|(k & Hk & Hkw)]; [subst w; cbn; lia|].
  pose proof (SSorted_app_le dn (n :: q) depth_of k n (bfs_sorted _ _ HB) Hk ltac:(left)) as Hle.
  rewrite (depth_of_word _ _ Hkw) in Hle. lia.
Qed.

Lemma bfs_step dn n q : bfs dn (n :: q) -> bfs (dn ++ [n]) (q ++ children n).
Proof using HT.
  intros HB. assert (n ∈ dn ++ n :: q) as Hn by (apply elem_of_app; right; left).
  destruct (bfs_valid _ _ HB n Hn) as (w & c & Hw).
  assert ((dn ++ [n]) ++ q ++ children n = (dn ++ n :: q) ++ children n) as E by by rewrite <- !app_assoc.
  split; rewrite ?E.
  - apply SSorted_app; [apply HB|eapply SSorted_const; by apply children_depth|].
    intros a b Ha Hb. pose proof (bfs_depth _ _ _ _ HB Ha) as Hd. pose proof (children_depth n _ Hw) as Hc.
    rewrite Forall_forall in Hc. rewrite (Hc b Hb). by rewrite (depth_of_word _ _ Hw) in Hd.
  - apply NoDup_app. split; [apply HB|]. split; [|apply NoDup_children].
    intros m Hm Hc. apply (elem_of_children n _ _ Hw) in Hc as (c' & Hc). destruct (proj1 (bfs_in _ _ HB m (w ++ [c]) c' Hc) Hm) as [H|(k & Hk & Hkw)].
    + by destruct w.
    + rewrite (word_inj _ _ _ Hkw Hw) in Hk. pose proof (bfs_nodup _ _ HB) as Hnd. apply NoDup_app in Hnd as (_ & Hd & _).
      apply (Hd n Hk). left.
  - intros m u c' Hm. rewrite elem_of_app, (bfs_in _ _ HB m u c' Hm), (elem_of_children n _ _ Hw). split.
    + intros [[->|(k & Hk & Hu)]|(c2 & H2)]; [by left|right; exists k; split; [apply elem_of_app; by left|done]|].
      right. exists n. split; [apply elem_of_app; right; left|]. rewrite H2 in Hm. injection Hm as Hm.
      apply (app_inj_2 (w ++ [c]) u [c2]) in Hm as [<- _]; done.
    + intros [->|(k & [Hk|Hk%list_elem_of_singleton]%elem_of_app & Hu)]; [by left; left|left; right; by exists k|].
      subst k. right. exists c'. rewrite Hw in Hu. by injection Hu as ->.
  - intros m [Hm|Hm]%elem_of_app; [by apply HB|].
    apply (elem_of_children n _ _ Hw) in Hm as (c2 & H2). by exists (w ++ [c]), c2.
Qed.

(** The nodes above the head of the queue are treated, and those of its depth are
    known. *)
Lemma bfs_above dn n q m u : bfs dn (n :: q) -> P !! m = Some u -> u <> [] -> (length u < depth_of n)%nat -> m ∈ dn.
Proof using HT.
  intros HB. revert m. induction u as [|c u IH] using rev_ind; intros m Hm Hu Hd; [done|].
  rewrite length_app in Hd. cbn in Hd.
  assert (m ∈ dn ++ n :: q) as Hk.
  { apply (bfs_in _ _ HB m u c Hm). destruct (decide (u = [])) as [->|Hne]; [by left|right].
    assert (u ∈ P) as [k Hk]%list_elem_of_lookup by (eapply (tree_closed P HT), list_elem_of_lookup_2; done).
    exists k. split; [apply (IH k); [done|done|lia]|done]. }
  apply elem_of_app in Hk as [Hk|Hk]; [done|]. exfalso. pose proof (bfs_sorted _ _ HB) as Hs.
  apply elem_of_cons in Hk as [->|Hk].
  - rewrite (depth_of_word _ _ Hm), length_app in Hd. cbn in Hd. lia.
  - replace (dn ++ n :: q) with ((dn ++ [n]) ++ q) in Hs by by rewrite <- app_assoc.
    pose proof (SSorted_app_le _ _ depth_of n m Hs ltac:(apply elem_of_app; right; left) Hk) as Hle.
    rewrite (depth_of_word m _ Hm), length_app in Hle. cbn in Hle. lia.
Qed.

Lemma bfs_known dn n q m u : bfs dn (n :: q) -> P !! m = Some u -> u <> [] -> (length u <= depth_of n)%nat -> m ∈ dn ++ n :: q.
Proof using HT.
  intros HB Hm Hu Hd. destruct u as [|c u _] using rev_ind; [done|]. rewrite length_app in Hd. cbn in Hd.
  apply (bfs_in _ _ HB m u c Hm). destruct (decide (u = [])) as [->|Hne]; [by left|right].
  assert (u ∈ P) as [k Hk]%list_elem_of_lookup by (eapply (tree_closed P HT), list_elem_of_lookup_2; done).
  exists k. split; [by apply (bfs_above dn n q k u); [done..|lia]|done].
Qed.

(** When the queue is empty every node was treated. *)
Lemma bfs_end dn m u : bfs dn [] -> P !! m = Some u -> u <> [] -> m ∈ dn.
Proof using HT.
  intros HB. revert m. induction u as [|c u IH] using rev_ind; intros m Hm Hu; [done|].
  rewrite <- (app_nil_r dn). apply (bfs_in _ _ HB m u c Hm). destruct (decide (u = [])) as [->|Hne]; [by left|right].
  assert (u ∈ P) as [k Hk]%list_elem_of_lookup by (eapply (tree_closed P HT), list_elem_of_lookup_2; done).
  exists k. split; [by apply IH|done].
Qed.

Lemma bfs_count dn q : bfs dn q -> (length dn + length q < length P)%nat.
Proof using HT.
  intros HB. assert (NoDup (0%nat :: dn ++ q)) as Hnd.
  { constructor; [|apply HB]. intros (w & c & Hw)%(bfs_valid _ _ HB). rewrite (tree_root P HT) in Hw. by destruct w. }
  assert (0%nat :: dn ++ q ⊆+ seq 0 (length P)) as Hsub.
  { apply NoDup_submseteq; [done|]. intros m Hm. apply elem_of_seq. split; [lia|]. cbn.
    apply elem_of_cons in Hm as [->|Hm]; [by eapply lookup_lt_Some, tree_root|].
    apply (bfs_valid _ _ HB) in Hm as (w & c & Hw). by eapply lookup_lt_Some. }
  apply submseteq_length in Hsub. rewrite length_seq in Hsub. cbn in Hsub. rewrite length_app in Hsub. lia.
Qed.

(** A loop over the queue keeps an invariant of the tables and ends. *)
Lemma while_queue_spec (f : nat -> walk_state -> res (option walk_state)) (Inv : list nat -> list nat -> ac -> Prop) :
  (forall dn n q s m, bfs dn (n :: q) -> Inv dn (n :: q) s ->
    f n (s, q, m) = Ok None \/
    exists s' m', f n (s, q, m) = Ok (Some (s', q ++ children n, m')) /\ Inv (dn ++ [n]) (q ++ children n) s') ->
  forall fuel dn q s m, bfs dn q -> Inv dn q s -> (length P <= fuel + length dn + 1)%nat ->
    while_queue fuel f (s, q, m) = Ok None \/
    exists s' m' dn', while_queue fuel f (s, q, m) = Ok (Some (s', m')) /\ bfs dn' [] /\ Inv dn' [] s'.
Proof using HT.
  intros Hf fuel. induction fuel as [|fuel IH]; intros dn q s m HB HI Hfuel; pose proof (bfs_count _ _ HB) as Hc.
  - destruct q as [|n q]; [right; by exists s, m, dn|]. cbn in Hc. lia.
  - destruct q as [|n q]; [right; by exists s, m, dn|]. cbn [while_queue].
    destruct (Hf dn n q s m HB HI) as [->|(s' & m' & -> & HI')]; [by left|].
    apply (IH (dn ++ [n])); [by apply bfs_step|done|rewrite length_app; cbn; lia].
Qed.

End Tree.
End AcBfs.
