(* ===== verification/AcChain.v ===== *)
(** * Linked lists of patterns

    The patterns of a node are linked by [next], those with the same text by
    [next_same].  [chain] relates the head of such a list to the numbers of its
    patterns, and the lemmas say what an assignment to a link does to it. *)
From stdpp Require Import base numbers list list_numbers gmap.
From Stdlib Require Import ZArith Lia Bool.
From S2P Require Import Prelude Dlp CalOff Ac.

Local Open Scope Z_scope.

Module AcChain.
Import Ac.

Fixpoint chain (link : cell -> option nat) (cs : list cell) (h : option nat) (l : list nat) : Prop :=
  match l with
  | [] => h = None
  | p :: l => h = Some p /\ exists c, cs !! p = Some c /\ chain link cs (link c) l
  end.

Lemma chain_det link cs h l1 l2 : chain link cs h l1 -> chain link cs h l2 -> l1 = l2.
Proof.
  revert h l2. induction l1 as [|p l1 IH]; intros h [|q l2]; cbn; [done| | |].
  - by intros -> [[=] _].
  - by intros [-> _] [=].
  - intros [-> (c & Hc & H1)] [[= <-] (c' & Hc' & H2)]. f_equal. rewrite Hc in Hc'. injection Hc' as <-. by eapply IH.
Qed.

Lemma chain_lookup link cs h l p : chain link cs h l -> p ∈ l -> is_Some (cs !! p).
Proof.
  revert h. induction l as [|q l IH]; intros h H Hp; [by apply elem_of_nil in Hp|].
  destruct H as [_ (c & Hc & H)]. apply elem_of_cons in Hp as [->|Hp]; [by exists c|by eapply IH].
Qed.

Lemma chain_length link cs h l : chain link cs h l -> NoDup l -> (length l <= length cs)%nat.
Proof.
  intros H Hnd. rewrite <- (length_seq (length cs) 0). apply submseteq_length, NoDup_submseteq; [done|].
  intros p Hp. apply elem_of_seq. destruct (chain_lookup _ _ _ _ _ H Hp) as [c Hc]. apply lookup_lt_Some in Hc. lia.
Qed.

(** A change of the table that keeps the links of the list. *)
Lemma chain_mono link cs cs' h l :
  (forall p c, p ∈ l -> cs !! p = Some c -> exists c', cs' !! p = Some c' /\ link c' = link c) ->
  chain link cs h l -> chain link cs' h l.
Proof.
  revert h. induction l as [|p l IH]; intros h Hext; cbn; [done|]. intros [-> (c & Hc & H)]. split; [done|].
  destruct (Hext p c ltac:(left) Hc) as (c' & Hc' & El). exists c'. split; [done|]. rewrite El.
  apply IH; [|done]. intros q d Hq. apply Hext. by right.
Qed.

Lemma chain_alter link g cs p h l : p ∉ l -> chain link cs h l -> chain link (alter g p cs) h l.
Proof.
  intros Hp. apply chain_mono. intros q c Hq Hc. exists c. split; [|done].
  rewrite list_lookup_alter_ne; [done|]. by intros ->.
Qed.

Lemma chain_alter_same link g cs p h l : (forall c, link (g c) = link c) ->
  chain link cs h l -> chain link (alter g p cs) h l.
Proof.
  intros Hg. apply chain_mono. intros q c Hq Hc. destruct (decide (p = q)) as [->|Hne].
  - exists (g c). rewrite list_lookup_alter_eq, Hc. done.
  - exists c. by rewrite list_lookup_alter_ne.
Qed.

Lemma chain_snoc link cs d h l : chain link cs h l -> chain link (cs ++ [d]) h l.
Proof.
  apply chain_mono. intros q c Hq Hc. exists c. split; [|done]. rewrite lookup_app_l; [done|]. by eapply lookup_lt_Some.
Qed.

(** The last pattern of a list, and the list after another one is appended. *)
Lemma last_patt_spec fuel cs h l p : chain next cs (Some h) (l ++ [p]) -> (length l < fuel)%nat ->
  last_patt fuel cs h = Ok p.
Proof.
  revert fuel h. induction l as [|q l IH]; intros [|fuel] h Hc Hf; cbn in Hf; try lia; cbn in Hc |- *.
  - destruct Hc as [[= ->] (c & -> & Hn)]. cbn. by rewrite Hn.
  - destruct Hc as [[= ->] (c & -> & Hn)]. cbn. destruct (next c) as [r|] eqn:E; [apply IH; [done|lia]|]. destruct l; by destruct Hn.
Qed.

Lemma chain_append cs h l p h' l' : chain next cs h (l ++ [p]) -> p ∉ l -> p ∉ l' -> chain next cs h' l' ->
  chain next (alter (set_next h') p cs) h ((l ++ [p]) ++ l').
Proof.
  revert h. induction l as [|q l IH]; intros h; cbn.
  - intros [-> (c & Hc & _)] _ Hp H'. split; [done|]. exists (set_next h' c). rewrite list_lookup_alter_eq, Hc.
    split; [done|]. cbn. by apply chain_alter.
  - intros [-> (c & Hc & Hn)] Hp Hp' H'. split; [done|]. exists c. split; [|apply IH; [done| |done..]].
    + rewrite list_lookup_alter_ne; [done|]. intros ->. apply Hp. left.
    + intros Hin. apply Hp. by right.
Qed.

(** What the traversals leave unchanged in the table of patterns. *)
Definition same_cell (c c' : cell) : Prop := patt c' = patt c /\ next_same c' = next_same c /\ depth c' = depth c.
Definition same_cells (cs cs' : list cell) : Prop := Forall2 same_cell cs cs'.

#[export] Instance same_cell_equiv : PreOrder same_cell.
Proof. split; [done|]. intros a b c (H1 & H2 & H3) (H4 & H5 & H6). repeat split; congruence. Qed.

#[export] Instance same_cells_equiv : PreOrder same_cells.
Proof. split; [intros l|intros l1 l2 l3]; unfold same_cells; [reflexivity|apply transitivity]. Qed.

Lemma same_cells_next cs p h : same_cells cs (alter (set_next h) p cs).
Proof.
  apply Forall2_same_length_lookup_2; [by rewrite length_alter|]. intros i c c' Hc Hc'.
  destruct (decide (p = i)) as [->|Hne].
  - rewrite list_lookup_alter_eq, Hc in Hc'. by injection Hc' as <-.
  - rewrite list_lookup_alter_ne, Hc in Hc' by done. by injection Hc' as <-.
Qed.

Lemma same_cells_chain cs cs' h l : same_cells cs cs' -> chain next_same cs h l -> chain next_same cs' h l.
Proof.
  intros H. apply chain_mono. intros p c Hp Hc. destruct (Forall2_lookup_l _ _ _ _ _ H Hc) as (c' & Hc' & E).
  exists c'. split; [done|apply E].
Qed.

End AcChain.
