(* ===== verification/AcBuild.v ===== *)
(** * The construction of the automaton

    [ac_maketrans] on a trie.  [P] gives the word of each node, [D] the words whose
    nodes have a table of transitions, [own] the patterns that end at a word.  After
    the first traversal a node fails to its longest proper suffix in the trie (with
    continuations, if the node is a leaf) and has the patterns of all suffixes of
    its word; after the second the transitions are those of the automaton. *)
From stdpp Require Import base numbers list list_numbers gmap.
From Stdlib Require Import ZArith Lia Bool.
From S2P Require Import Prelude Dlp CalOff Ac AcWords AcBfs AcChain.

Local Open Scope Z_scope.

Module AcBuild.
Import Errors Ac AcWords AcBfs AcChain.

Lemma elem_of_bytes i : i ∈ bytes256 <-> 0 <= i < 256.
Proof. unfold bytes256. rewrite elem_of_seqZ. lia. Qed.

Lemma NoDup_bytes : NoDup bytes256.
Proof. apply NoDup_seqZ. Qed.

#[local] Opaque bytes256.

Definition kid (x : node) (c : Z) : option nat := trans x ≫= (fun t => t !! c).

Section Build.
Context (P D : list word) (own : word -> list nat).

(** The words and the lists of patterns of a trie. *)
Record dict : Prop := {
  d_tree : tree P;
  d_branch : branching P D;
  d_out w : w ∉ P -> own w = [];
  d_nil : own [] = [];
  d_disj p w v : p ∈ own w -> p ∈ own v -> w = v;
  d_nodup w : NoDup (own w);
  d_leaf w : w ∈ P -> w ∉ D -> own w <> [] }.
Context (HD : dict).

(** Nodes that stand for the words. *)
Record shape (ns : list node) : Prop := {
  sh_len : length ns = length P;
  sh_leaf n x w : ns !! n = Some x -> P !! n = Some w -> w ∈ D <-> IS_LEAF x = false }.

(** The trie before the construction. *)
Record trie (s : ac) : Prop := {
  tr_shape : shape (nodes s);
  tr_kid n x w c : nodes s !! n = Some x -> P !! n = Some w -> kid x c = idx P (w ++ [c]);
  tr_list n x w : nodes s !! n = Some x -> P !! n = Some w -> chain next (cells s) (nlist x) (own w) }.

(** ** The first traversal *)

(** The children of the root are completed for the characters in [done_]. *)
Definition kid_ok (done_ : list Z) (n : nat) (x : node) (w : word) : Prop :=
  forall c, kid x c = (if bool_decide (n = 0%nat /\ c ∈ done_) then Some (default 0%nat (idx P [c])) else idx P (w ++ [c])).

Definition fail_word (dn : list nat) (n : nat) (w : word) : word :=
  if bool_decide (n ∈ dn /\ w ∉ D) then lsuf D (tail w) else lsuf P (tail w).

Record pass1 (done_ : list Z) (dn k : list nat) (s0 s : ac) : Prop := {
  p1_shape : shape (nodes s);
  p1_kid n x w : nodes s !! n = Some x -> P !! n = Some w -> kid_ok done_ n x w;
  p1_fail n x w : nodes s !! n = Some x -> P !! n = Some w -> n ∈ k ->
    exists f, fail x = Some f /\ P !! f = Some (fail_word dn n w);
  p1_list n x w : nodes s !! n = Some x -> P !! n = Some w ->
    chain next (cells s) (nlist x) (if bool_decide (n ∈ k) then full own w else own w);
  p1_cells : same_cells (cells s0) (cells s);
  p1_depths : ac_mindepth s = ac_mindepth s0 /\ ac_maxdepth s = ac_maxdepth s0 }.

Lemma shape_node ns n w : shape ns -> P !! n = Some w -> exists x, ns !! n = Some x.
Proof. intros Hs Hw. apply lookup_lt_is_Some. rewrite (sh_len _ Hs). by eapply lookup_lt_Some. Qed.

Lemma shape_word ns n x : shape ns -> ns !! n = Some x -> exists w, P !! n = Some w.
Proof. intros Hs Hw. apply lookup_lt_is_Some. rewrite <- (sh_len _ Hs). by eapply lookup_lt_Some. Qed.

Lemma lookup_alter_node (ns : list node) (n m : nat) (g : node -> node) x : alter g n ns !! m = Some x ->
  exists y, ns !! m = Some y /\ x = if bool_decide (m = n) then g y else y.
Proof.
  case_bool_decide as E.
  - subst m. rewrite list_lookup_alter_eq, fmap_Some. intros (y & -> & ->). by exists y.
  - rewrite list_lookup_alter_ne by done. intros ->. by exists x.
Qed.

(** A change of a node that keeps its being a leaf or not. *)
Lemma shape_alter ns (n : nat) (g : node -> node) : (forall x, IS_LEAF (g x) = IS_LEAF x) -> shape ns -> shape (alter g n ns).
Proof.
  intros Hg [H1 H2]. split; [by rewrite length_alter|]. intros m x w (y & Hy & ->)%lookup_alter_node Hw.
  rewrite (H2 m y w Hy Hw). case_bool_decide; [by rewrite Hg|done].
Qed.

Lemma word_len n w : P !! n = Some w -> (length w < length P)%nat.
Proof using HD.
  intros Hw. apply word_depth; [intros; by eapply (tree_closed P (d_tree HD))|by eapply list_elem_of_lookup_2].
Qed.

(** The loops along the failure links.  Each link must lead to a shorter word that
    goes on as the word does. *)
Lemma fail_trans_spec ns c fuel n w :
  shape ns ->
  (forall m y v, ns !! m = Some y -> P !! m = Some v -> (length v <= length w)%nat ->
    (exists t, kid y c = Some t /\ P !! t = Some (lsuf P (v ++ [c]))) \/
    (kid y c = None /\ exists f u, fail y = Some f /\ P !! f = Some u /\ (length u < length v)%nat /\
      lsuf P (u ++ [c]) = lsuf P (v ++ [c]))) ->
  P !! n = Some w -> (length w < fuel)%nat ->
  exists t, fail_trans fuel ns n c = Ok t /\ P !! t = Some (lsuf P (w ++ [c])).
Proof.
  intros Hs. revert n w. induction fuel as [|fuel IH]; intros n w Hstep Hn Hf; [lia|].
  destruct (shape_node ns n w Hs Hn) as [x Hx]. cbn. rewrite Hx. cbn.
  destruct (Hstep n x w Hx Hn ltac:(lia)) as [(t & Hk & Ht)|(Hk & f & u & Hfl & Hu & Hlt & E)].
  - fold (kid x c). rewrite Hk. by exists t.
  - fold (kid x c). rewrite Hk, Hfl. cbn. rewrite <- E. apply IH; [|done|lia].
    intros m y v Hm Hv Hl. apply (Hstep m y v Hm Hv). lia.
Qed.

Lemma fail_leaf_spec ns fuel n w :
  shape ns ->
  (forall m y v, ns !! m = Some y -> P !! m = Some v -> v ∉ D -> (length v <= length w)%nat ->
    exists f u, fail y = Some f /\ P !! f = Some u /\ (length u < length v)%nat /\ lsuf D u = lsuf D v) ->
  P !! n = Some w -> (length w < fuel)%nat ->
  exists t, fail_leaf fuel ns n = Ok t /\ P !! t = Some (lsuf D w).
Proof.
  intros Hs. revert n w. induction fuel as [|fuel IH]; intros n w Hstep Hn Hf; [lia|].
  destruct (shape_node ns n w Hs Hn) as [x Hx]. cbn. rewrite Hx. cbn.
  destruct (decide (w ∈ D)) as [HwD|HwD].
  - rewrite (proj1 (sh_leaf _ Hs n x w Hx Hn) HwD). exists n. split; [done|]. by rewrite lsuf_id.
  - destruct (IS_LEAF x) eqn:El; [|by rewrite (sh_leaf _ Hs n x w Hx Hn) in HwD].
    destruct (Hstep n x w Hx Hn HwD ltac:(lia)) as (f & u & Hfl & Hu & Hlt & E). rewrite Hfl. cbn. rewrite <- E.
    apply IH; [|done|lia]. intros m y v Hm Hv HvD Hl. apply (Hstep m y v Hm Hv HvD). lia.
Qed.

(** What a failure link set so far is good for. *)
Lemma fail_word_short dn n w : w <> [] -> (length (fail_word dn n w) < length w)%nat.
Proof.
  intros Hw. assert (length (tail w) < length w)%nat by (destruct w; [done|cbn; lia]).
  unfold fail_word. case_bool_decide; [pose proof (lsuf_length D (tail w))|pose proof (lsuf_length P (tail w))]; lia.
Qed.

Lemma fail_word_trans dn n w c : w <> [] -> w ++ [c] ∉ P -> lsuf P (fail_word dn n w ++ [c]) = lsuf P (w ++ [c]).
Proof using HD.
  intros Hw Hc. rewrite <- (lsuf_fail P D (d_branch HD) w c) by done. unfold fail_word.
  case_bool_decide; [apply (lsuf_step_D P D), HD|apply (lsuf_step_W P D), HD].
Qed.

Lemma fail_word_leaf dn n w : w ∉ D -> w <> [] -> lsuf D (fail_word dn n w) = lsuf D w.
Proof using HD.
  intros Hw Hne. rewrite (lsuf_tail D (nil_D P D (d_branch HD)) w) by done. unfold fail_word. case_bool_decide.
  - apply lsuf_id, lsuf_in, HD.
  - apply (lsuf_sub P D), HD.
Qed.

(** *** The loops over the 256 characters *)
Lemma for_bytes_spec (f : Z -> walk_state -> res (option walk_state)) (I : list Z -> list nat -> ac -> Prop) q s m :
  (forall l1 i l2 q s m, bytes256 = l1 ++ i :: l2 -> I l1 q s ->
    f i (s, q, m) = Ok None \/ exists s' q' m', f i (s, q, m) = Ok (Some (s', q', m')) /\ I (l1 ++ [i]) q' s') ->
  I [] q s ->
  for_bytes f bytes256 (s, q, m) = Ok None \/
  exists s' q' m', for_bytes f bytes256 (s, q, m) = Ok (Some (s', q', m')) /\ I bytes256 q' s'.
Proof.
  intros Hf HI. assert (forall l2 l1 q s m, bytes256 = l1 ++ l2 -> I l1 q s ->
    for_bytes f l2 (s, q, m) = Ok None \/
    exists s' q' m', for_bytes f l2 (s, q, m) = Ok (Some (s', q', m')) /\ I bytes256 q' s') as H.
  { clear q s m HI. induction l2 as [|i l2 IH]; intros l1 q s m E HI.
    - right. exists s, q, m. rewrite app_nil_r in E. by rewrite E.
    - cbn. destruct (Hf l1 i l2 q s m E HI) as [->|(s' & q' & m' & -> & HI')]; [by left|].
      apply (IH (l1 ++ [i])); [|done]. rewrite E, <- app_assoc. done. }
  by apply (H bytes256 []).
Qed.

Lemma bytes256_split l1 i l2 : bytes256 = l1 ++ i :: l2 -> 0 <= i < 256 /\ i ∉ l1.
Proof.
  intros E. assert (i ∈ bytes256) as Hi by (rewrite E; apply elem_of_app; right; left).
  apply elem_of_bytes in Hi. split; [lia|]. pose proof NoDup_bytes as Hnd.
  rewrite E in Hnd. apply NoDup_app in Hnd as (_ & Hd & _). intros Hin. apply (Hd i Hin). left.
Qed.

(** The nodes that are enqueued for the characters [l] of the node of [w]. *)
Definition kids_of (w : word) (l : list Z) : list nat := omap (fun i => idx P (w ++ [i])) l.

Lemma kids_of_snoc w l i : kids_of w (l ++ [i]) = kids_of w l ++ match idx P (w ++ [i]) with Some n => [n] | None => [] end.
Proof. unfold kids_of. rewrite omap_app. cbn. by destruct (idx P (w ++ [i])). Qed.

Lemma bfs_enqueue_spec s q m n : bfs_enqueue (s, q, m) n = None \/ exists m', bfs_enqueue (s, q, m) n = Some (s, q ++ [n], m').
Proof. unfold bfs_enqueue. destruct (alloc m) as [[|] m']; [right; by exists m'|by left]. Qed.

Lemma kid_trans x t c : trans x = Some t -> kid x c = t !! c.
Proof. unfold kid. by intros ->. Qed.

Lemma root_node ns : shape ns -> exists r t, ns !! 0%nat = Some r /\ trans r = Some t.
Proof using HD.
  intros Hs. pose proof (tree_root P (d_tree HD)) as H0. destruct (shape_node ns _ _ Hs H0) as [r Hr].
  exists r. destruct (trans r) as [t|] eqn:E; [by exists t|]. exfalso.
  pose proof (proj1 (sh_leaf _ Hs 0%nat r [] Hr H0) (nil_D P D (d_branch HD))) as Hl.
  unfold IS_LEAF in Hl. by rewrite E in Hl.
Qed.

Lemma fail_word_one dn n c : [c] ∈ D \/ n ∉ dn -> fail_word dn n [c] = [].
Proof using HD.
  intros H. unfold fail_word. case_bool_decide as E; [destruct E, H; done|]. apply lsuf_id, HD.
Qed.

(** A state in which the failure link of [child] was set and the lists are right. *)
Lemma pass1_extend done_ dn k s0 s s' child t v : pass1 done_ dn k s0 s ->
  P !! child = Some v -> child ∉ dn -> P !! t = Some (lsuf P (tail v)) ->
  length (nodes s') = length (nodes s) ->
  (forall m y, nodes s' !! m = Some y -> exists y0, nodes s !! m = Some y0 /\ trans y = trans y0 /\
    fail y = if bool_decide (m = child) then Some t else fail y0) ->
  (forall m y u, nodes s' !! m = Some y -> P !! m = Some u ->
    chain next (cells s') (nlist y) (if bool_decide (m ∈ k ++ [child]) then full own u else own u)) ->
  same_cells (cells s) (cells s') -> ac_mindepth s' = ac_mindepth s /\ ac_maxdepth s' = ac_maxdepth s ->
  pass1 done_ dn (k ++ [child]) s0 s'.
Proof.
  intros HI Hch Hdn Ht Hlen Hns Hls Hcs [Hd1 Hd2]. split.
  - split; [rewrite Hlen; apply HI|]. intros m y u (y0 & Hy & Et & _)%Hns Hu.
    rewrite (sh_leaf _ (p1_shape _ _ _ _ _ HI) m y0 u Hy Hu). unfold IS_LEAF. by rewrite Et.
  - intros m y u (y0 & Hy & Et & _)%Hns Hu c. unfold kid. rewrite Et. by apply (p1_kid _ _ _ _ _ HI m y0 u).
  - intros m y u (y0 & Hy & _ & ->)%Hns Hu Hm. destruct (decide (m = child)) as [->|Hne].
    + rewrite bool_decide_true by done. exists t. split; [done|]. rewrite Hch in Hu. injection Hu as <-.
      unfold fail_word. rewrite bool_decide_false; [done|]. by intros [? _].
    + rewrite bool_decide_false by done. apply (p1_fail _ _ _ _ _ HI m y0 u); [done..|].
      by apply elem_of_app in Hm as [Hm|Hm%list_elem_of_singleton].
  - done.
  - etrans; [apply HI|done].
  - destruct (p1_depths _ _ _ _ _ HI). by rewrite Hd1, Hd2.
Qed.

Lemma bool_decide_snoc (k : list nat) m n : m <> n -> bool_decide (m ∈ k ++ [n]) = bool_decide (m ∈ k).
Proof. intros. apply bool_decide_ext. rewrite elem_of_app, list_elem_of_singleton. tauto. Qed.

Lemma bool_decide_last (k : list nat) n : bool_decide (n ∈ k ++ [n]) = true.
Proof. apply bool_decide_true, elem_of_app. right. by left. Qed.

(** The root is completed for one more character. *)
Lemma pass1_done l1 i dn k s0 s : pass1 l1 dn k s0 s ->
  (forall r, nodes s !! 0%nat = Some r -> kid r i = Some (default 0%nat (idx P [i]))) -> pass1 (l1 ++ [i]) dn k s0 s.
Proof using HD.
  intros HI Hr. split; try apply HI. intros m y u Hy Hu c. pose proof (p1_kid _ _ _ _ _ HI m y u Hy Hu c) as ->.
  destruct (decide (m = 0%nat /\ c = i)) as [[-> ->]|Hne].
  - pose proof (p1_kid _ _ _ _ _ HI 0%nat y u Hy Hu i) as E. rewrite (Hr y Hy) in E. rewrite <- E.
    rewrite bool_decide_true; [done|]. split; [done|]. apply elem_of_app. right. by left.
  - rewrite (bool_decide_ext (m = 0%nat /\ c ∈ l1 ++ [i]) (m = 0%nat /\ c ∈ l1)); [done|].
    rewrite elem_of_app, list_elem_of_singleton. tauto.
Qed.

Lemma root_step_spec s0 l1 i l2 q s m : bytes256 = l1 ++ i :: l2 ->
  q = kids_of [] l1 /\ pass1 l1 [] q s0 s ->
  root_step i (s, q, m) = Ok None \/
  exists s' q' m', root_step i (s, q, m) = Ok (Some (s', q', m')) /\ q' = kids_of [] (l1 ++ [i]) /\ pass1 (l1 ++ [i]) [] q' s0 s'.
Proof using HD.
  intros Hb [Hq HI]. destruct (bytes256_split _ _ _ Hb) as [Hi Hnin]. rewrite kids_of_snoc, <- Hq. cbn [app].
  pose proof (tree_root P (d_tree HD)) as H0.
  destruct (root_node _ (p1_shape _ _ _ _ _ HI)) as (r & t & Hr & Ht). unfold root_step. rewrite Hr. cbn [of_opt]. rewrite Ht. cbn [of_opt].
  pose proof (p1_kid _ _ _ _ _ HI 0%nat r [] Hr H0 i) as Hk. rewrite (kid_trans _ _ _ Ht) in Hk.
  rewrite bool_decide_false in Hk by (intros [_ ?]; done). cbn [app] in Hk. rewrite Hk.
  destruct (idx P [i]) as [n|] eqn:Ei.
  - assert (P !! n = Some [i]) as Hn by (by apply (idx_spec P (d_tree HD)) in Ei).
    assert (n <> 0%nat) as Hn0 by (intros ->; by rewrite H0 in Hn).
    destruct (bfs_enqueue_spec (upd_node s n (set_fail (Some 0%nat))) q m n) as [->|(m' & ->)]; [by left|right].
    eexists _, _, m'. split; [done|]. split; [done|]. apply pass1_done.
    + apply (pass1_extend _ _ _ _ s _ n 0%nat [i]); try done; cbn.
      * apply not_elem_of_nil.
      * by destruct (bool_decide ([] ∈ P)).
      * by rewrite length_alter.
      * intros k x (y & Hy & ->)%lookup_alter_node. exists y. by destruct (bool_decide (k = n)).
      * intros k x w (y & Hy & ->)%lookup_alter_node Hw. pose proof (p1_list _ _ _ _ _ HI k y w Hy Hw) as Hl.
        destruct (decide (k = n)) as [->|Hkn].
        { rewrite bool_decide_last, (bool_decide_true (n = n)) by done. rewrite Hn in Hw. injection Hw as <-.
          cbn [full nlist set_fail] in *. rewrite (d_nil HD), !app_nil_r in *. by destruct (bool_decide _). }
        rewrite bool_decide_snoc, (bool_decide_false (k = n)) by done. exact Hl.
    + cbn. intros x (y & Hy & ->)%lookup_alter_node. rewrite bool_decide_false by done. rewrite Hr in Hy. injection Hy as <-.
      by rewrite (kid_trans _ _ _ Ht), Hk, Ei.
  - right. eexists _, q, m. split; [done|]. split; [by rewrite app_nil_r|]. split; cbn.
    + split; [rewrite length_alter; apply HI|]. intros k x w (y & Hy & ->)%lookup_alter_node Hw.
      rewrite (sh_leaf _ (p1_shape _ _ _ _ _ HI) k y w Hy Hw). case_bool_decide as E; [|done]. subst k.
      rewrite Hr in Hy. injection Hy as <-. unfold IS_LEAF. by rewrite Ht.
    + intros k x w (y & Hy & ->)%lookup_alter_node Hw c.
      pose proof (p1_kid _ _ _ _ _ HI k y w Hy Hw c) as Hkc.
      destruct (decide (k = 0%nat)) as [E|E]; [rewrite (bool_decide_true (k = 0%nat)) by done|rewrite (bool_decide_false (k = 0%nat)) by done].
      * subst k. rewrite Hr in Hy. injection Hy as <-. rewrite H0 in Hw. injection Hw as <-.
        unfold kid. cbn. destruct (decide (c = i)) as [->|Hci].
        { rewrite lookup_insert_eq. rewrite bool_decide_true; [by rewrite Ei|]. split; [done|]. apply elem_of_app. right. by left. }
        rewrite lookup_insert_ne by done. rewrite (kid_trans _ _ _ Ht) in Hkc. rewrite Hkc.
        rewrite (bool_decide_ext (0%nat = 0%nat /\ c ∈ l1 ++ [i]) (0%nat = 0%nat /\ c ∈ l1)); [done|].
        rewrite elem_of_app, list_elem_of_singleton. tauto.
      * rewrite Hkc, !bool_decide_false; [done|by intros [? _]..].
    + intros k x w (y & Hy & ->)%lookup_alter_node Hw Hk'.
      destruct (p1_fail _ _ _ _ _ HI k y w Hy Hw Hk') as (f & Hf & Hfw). exists f. split; [by case_bool_decide|done].
    + intros k x w (y & Hy & ->)%lookup_alter_node Hw. pose proof (p1_list _ _ _ _ _ HI k y w Hy Hw) as Hl.
      by destruct (bool_decide (k = 0%nat)).
    + apply HI.
    + apply HI.
Qed.

(** *** The children of a node *)

(** The transition of a node whose failure links are known, or its link. *)
Lemma pass1_kid_or_fail dn k s0 s c b : pass1 bytes256 dn k s0 s -> 0 <= c < 256 ->
  (forall m u, P !! m = Some u -> u <> [] -> (length u <= b)%nat -> m ∈ k) ->
  forall m y v, nodes s !! m = Some y -> P !! m = Some v -> (length v <= b)%nat ->
    (exists t, kid y c = Some t /\ P !! t = Some (lsuf P (v ++ [c]))) \/
    (kid y c = None /\ exists f u, fail y = Some f /\ P !! f = Some u /\ (length u < length v)%nat /\
      lsuf P (u ++ [c]) = lsuf P (v ++ [c])).
Proof using HD.
  intros HI Hc Hk m y v Hm Hv Hl. pose proof (d_tree HD) as HT. pose proof (p1_kid _ _ _ _ _ HI m y v Hm Hv c) as Ek.
  destruct (decide (v = [])) as [->|Hne].
  - assert (m = 0%nat) as -> by by apply (word_inj P HT m 0%nat []); [|apply (tree_root P HT)].
    rewrite bool_decide_true in Ek by (split; [done|]; by apply elem_of_bytes). left. eexists. split; [exact Ek|]. cbn [app].
    destruct (idx P [c]) as [t|] eqn:E; cbn [from_option default].
    + apply (idx_spec P HT) in E. rewrite lsuf_id; [done|by eapply list_elem_of_lookup_2].
    + apply (idx_None P HT) in E. rewrite lsuf_cons, lsuf_id; [apply (tree_root P HT)|apply HD|done].
  - rewrite bool_decide_false in Ek by (intros [-> _]; rewrite (tree_root P HT) in Hv; by injection Hv as <-).
    destruct (idx P (v ++ [c])) as [t|] eqn:E.
    + left. exists t. split; [done|]. apply (idx_spec P HT) in E. rewrite lsuf_id; [done|by eapply list_elem_of_lookup_2].
    + right. split; [done|]. apply (idx_None P HT) in E.
      destruct (p1_fail _ _ _ _ _ HI m y v Hm Hv (Hk m v Hv Hne Hl)) as (f & Hf & Hfw).
      exists f, (fail_word dn m v). split; [done|]. split; [done|].
      split; [by apply fail_word_short|by apply fail_word_trans].
Qed.

(** The patterns of [w] are in no list of a known node, before [w] is known. *)
Lemma own_not_in_full p w u : p ∈ own w -> (length u <= length w)%nat -> u <> w -> p ∉ full own u.
Proof using HD.
  intros Hp Hl Hne Hin. apply elem_of_full in Hin as (v & Hv & Hpv). rewrite (d_disj HD _ _ _ Hpv Hp) in Hv.
  apply Hne. destruct Hv as [k ->]. rewrite length_app in Hl. destruct k; [done|cbn in Hl; lia].
Qed.

(** Setting the failure link and the list of a node that becomes known. *)
Lemma pass1_child dn k s0 s child t v : pass1 bytes256 dn k s0 s ->
  P !! child = Some v -> v <> [] -> child ∉ k -> (forall m, m ∈ dn -> m ∈ k) ->
  (forall m u, m ∈ k -> P !! m = Some u -> (length u <= length v)%nat) ->
  P !! t = Some (lsuf P (tail v)) -> (t <> 0%nat -> t ∈ k) ->
  exists s',
    (let s1 := upd_node s child (set_fail (Some t)) in
     let! c := of_opt (nodes s1 !! child) in
     let! x := of_opt (nodes s1 !! t) in
     match nlist c with
     | Some p =>
         let! last := last_patt (length (cells s1)) (cells s1) p in
         Ok (upd_cell s1 last (set_next (nlist x)))
     | None => Ok (upd_node s1 child (set_list (nlist x)))
     end) = Ok s' /\ pass1 bytes256 dn (k ++ [child]) s0 s'.
Proof using HD.
  intros HI Hch Hv Hnk Hdn Hdeep Ht Htk. pose proof (d_tree HD) as HT.
  destruct (shape_node _ _ _ (p1_shape _ _ _ _ _ HI) Hch) as [c Hc].
  destruct (shape_node _ _ _ (p1_shape _ _ _ _ _ HI) Ht) as [x Hx].
  assert (length (lsuf P (tail v)) < length v)%nat as Hshort.
  { pose proof (lsuf_length P (tail v)). destruct v; [done|]. cbn in *. lia. }
  assert (t <> child) as Htc by (intros ->; rewrite Hch in Ht; injection Ht as Ht; rewrite <- Ht in Hshort; lia).
  cbn [upd_node set_nodes nodes cells]. rewrite list_lookup_alter_eq, Hc, list_lookup_alter_ne, Hx by done.
  cbn [of_opt fmap option_fmap option_map set_fail nlist].
  pose proof (p1_list _ _ _ _ _ HI child c v Hc Hch) as Lc. rewrite bool_decide_false in Lc by done.
  assert (chain next (cells s) (nlist x) (full own (tail v))) as Lt.
  { rewrite <- (full_lsuf own P (tail v) (d_out HD)). pose proof (p1_list _ _ _ _ _ HI t x _ Hx Ht) as L.
    case_bool_decide as Hin; [done|]. destruct (decide (t = 0%nat)) as [->|Hne]; [|by destruct Hin; apply Htk].
    rewrite (tree_root P HT) in Ht. injection Ht as Ht. rewrite <- Ht in L |- *. cbn [full]. by rewrite (d_nil HD) in *. }
  assert (forall m y u, nodes s !! m = Some y -> P !! m = Some u -> m <> child ->
    forall p, p ∈ own v -> p ∉ if bool_decide (m ∈ k) then full own u else own u) as Hother.
  { intros m y u Hm Hu Hne p Hp. assert (u <> v) as Huv by (intros ->; by apply Hne, (word_inj P HT _ _ v)).
    case_bool_decide as Hmk; [by apply (own_not_in_full p v); [|eapply Hdeep|]|]. intros Hin. apply Huv. by eapply (d_disj HD). }
  destruct (own v) as [|p0 l0 _] eqn:Eo using rev_ind.
  - rewrite Lc. eexists. split; [done|]. apply (pass1_extend _ _ _ _ s _ child t v); try done; cbn.
    + by intros ?%Hdn.
    + by rewrite !length_alter.
    + intros m y (y1 & (y0 & Hy & ->)%lookup_alter_node & ->)%lookup_alter_node. exists y0. by destruct (bool_decide (m = child)).
    + intros m y u (y1 & (y0 & Hy & ->)%lookup_alter_node & ->)%lookup_alter_node Hu. destruct (decide (m = child)) as [->|Hne].
      * rewrite bool_decide_last, !bool_decide_true by done. cbn. rewrite Hch in Hu. injection Hu as <-. by rewrite full_tail, Eo.
      * rewrite bool_decide_snoc, !bool_decide_false by done. by apply HI.
  - destruct (nlist c) as [h|] eqn:Eh; [|destruct l0; by destruct Lc].
    pose proof (d_nodup HD v) as Hnd. rewrite Eo in Hnd. pose proof (chain_length _ _ _ _ Lc Hnd) as Hlen. rewrite length_app in Hlen. cbn in Hlen.
    rewrite (last_patt_spec _ _ h l0 p0); [|done|lia]. eexists. split; [done|].
    apply NoDup_app in Hnd as (_ & Hd & _). assert (p0 ∉ l0) as Hpl by (intros Hin; apply (Hd p0 Hin); by left).
    assert (p0 ∈ l0 ++ [p0]) as Hp0 by (apply elem_of_app; right; by left).
    apply (pass1_extend _ _ _ _ s _ child t v); try done; cbn.
    + by intros ?%Hdn.
    + by rewrite length_alter.
    + intros m y (y0 & Hy & ->)%lookup_alter_node. exists y0. by destruct (bool_decide (m = child)).
    + intros m y u (y0 & Hy & ->)%lookup_alter_node Hu. destruct (decide (m = child)) as [->|Hne].
      * rewrite bool_decide_last, !bool_decide_true by done. rewrite Hch in Hu. injection Hu as <-.
        rewrite Hc in Hy. injection Hy as <-. cbn. rewrite Eh, full_tail, Eo by done. apply chain_append; [done..| |done].
        destruct v as [|a v]; [done|]. apply (own_not_in_full p0 (a :: v)); [by rewrite Eo|cbn; lia|].
        intros E%(f_equal length). cbn in E. lia.
      * rewrite bool_decide_snoc, !bool_decide_false by done. apply chain_alter; [by apply (Hother m y0 u)|by apply HI].
    + apply same_cells_next.
Qed.

Lemma fail_step_spec dn k s0 s n w i q m : pass1 bytes256 dn k s0 s ->
  P !! n = Some w -> w <> [] -> n ∈ k -> 0 <= i < 256 -> (forall m, m ∈ dn -> m ∈ k) ->
  (forall m u, P !! m = Some u -> u <> [] -> (length u <= length w)%nat -> m ∈ k) ->
  (forall m u, m ∈ k -> P !! m = Some u -> (length u <= S (length w))%nat) ->
  (forall child, idx P (w ++ [i]) = Some child -> child ∉ k) ->
  fail_step n i (s, q, m) = Ok None \/
  exists s' m', fail_step n i (s, q, m) = Ok (Some (s', q ++ kids_of w [i], m')) /\
    pass1 bytes256 dn (k ++ kids_of w [i]) s0 s'.
Proof using HD.
  intros HI Hn Hw Hnk Hi Hdn Hknown Hdeep Hfresh. pose proof (d_tree HD) as HT.
  destruct (shape_node _ _ _ (p1_shape _ _ _ _ _ HI) Hn) as [x Hx]. unfold fail_step. rewrite Hx. cbn [of_opt].
  fold (kid x i). pose proof (p1_kid _ _ _ _ _ HI n x w Hx Hn i) as Ek.
  rewrite bool_decide_false in Ek by (intros [-> _]; rewrite (tree_root P HT) in Hn; by injection Hn as <-).
  rewrite Ek. unfold kids_of. cbn [omap list_omap]. destruct (idx P (w ++ [i])) as [child|] eqn:Ei.
  2:{ right. exists s, m. by rewrite !app_nil_r. }
  apply (idx_spec P HT) in Ei as Hch.
  destruct (p1_fail _ _ _ _ _ HI n x w Hx Hn Hnk) as (f & Hf & Hfw). rewrite Hf. cbn [of_opt].
  assert (length (fail_word dn n w) < length w)%nat as Hshort by by apply fail_word_short.
  destruct (fail_trans_spec (nodes s) i (length (nodes s)) f (fail_word dn n w)) as (t & Et & Ht); [apply HI| |done| |].
  { eapply pass1_kid_or_fail; [done|done|]. intros m' u Hm' Hu Hl. apply (Hknown m' u); [done..|lia]. }
  { rewrite (sh_len _ (p1_shape _ _ _ _ _ HI)). pose proof (word_len n w Hn). lia. }
  rewrite Et.
  assert (lsuf P (fail_word dn n w ++ [i]) = lsuf P (tail (w ++ [i]))) as Elsuf.
  { rewrite tail_app_one by done. unfold fail_word. case_bool_decide; [apply (lsuf_step_D P D), HD|apply (lsuf_step_W P D), HD]. }
  rewrite Elsuf in Ht.
  destruct (pass1_child dn k s0 s child t (w ++ [i]) HI Hch) as (s' & Es & HI'); [by destruct w|by apply Hfresh|done| |done| |].
  { intros m' u Hm' Hu. rewrite length_app. cbn. pose proof (Hdeep m' u Hm' Hu). lia. }
  { intros Ht0. apply (Hknown t _ Ht); [|].
    - intros E. rewrite E in Ht. by apply Ht0, (word_inj P HT _ _ [] Ht), (tree_root P HT).
    - pose proof (lsuf_length P (tail (w ++ [i]))) as Hl. rewrite tail_app_one, length_app in Hl by done.
      rewrite tail_app_one by done. destruct w; [done|]. cbn in *. lia. }
  cbn beta zeta in Es.
  set (s1 := upd_node s child (set_fail (Some t))) in *.
  destruct (nodes s1 !! child) as [c|]; [|done]. cbn [of_opt] in Es |- *.
  destruct (nodes s1 !! t) as [y|]; [|done]. cbn [of_opt] in Es |- *. rewrite Es.
  destruct (bfs_enqueue_spec s' q m child) as [->|(m' & ->)]; [by left|right]. by exists s', m'.
Qed.

Lemma app_shuffle {A} (l q k : list A) (n : A) : (l ++ [n]) ++ q ++ k = (l ++ n :: q) ++ k.
Proof. by rewrite <- !app_assoc. Qed.

(** A leaf of the queue: its link is moved on to a node with transitions. *)
Lemma fail_node_leaf s0 dn n q s w x : bfs P dn (n :: q) -> pass1 bytes256 dn (dn ++ n :: q) s0 s ->
  P !! n = Some w -> nodes s !! n = Some x -> w ∉ D ->
  exists f t, fail x = Some f /\ fail_leaf (length (nodes s)) (nodes s) f = Ok t /\
    pass1 bytes256 (dn ++ [n]) (dn ++ n :: q) s0 (upd_node s n (set_fail (Some t))).
Proof using HD.
  intros HB HI Hn Hx HwD. pose proof (d_tree HD) as HT. assert (n ∈ dn ++ n :: q) as Hnk by (apply elem_of_app; right; left).
  assert (forall v, v ∉ D -> v <> []) as Hne by (intros v Hv ->; apply Hv, (nil_D P D), HD).
  destruct (p1_fail _ _ _ _ _ HI n x w Hx Hn Hnk) as (f & Hf & Hfw).
  pose proof (fail_word_short dn n w (Hne w HwD)) as Hshort. pose proof (word_len n w Hn) as Hlen.
  destruct (fail_leaf_spec (nodes s) (length (nodes s)) f (fail_word dn n w)) as (t & Et & Ht); [apply HI| |done| |].
  { intros m y v Hm Hv HvD Hl. destruct (p1_fail _ _ _ _ _ HI m y v Hm Hv) as (g & Hg & Hgw).
    - apply (bfs_known P HT _ _ _ _ v HB); [done|by apply Hne|]. rewrite (depth_of_word P n w) by done. lia.
    - exists g, (fail_word dn m v). split; [done|]. split; [done|].
      split; [by apply fail_word_short, Hne|by apply fail_word_leaf; [|apply Hne]]. }
  { rewrite (sh_len _ (p1_shape _ _ _ _ _ HI)). lia. }
  exists f, t. split; [done|]. split; [done|]. rewrite fail_word_leaf, (lsuf_tail D (nil_D P D (d_branch HD))) in Ht by auto.
  split; cbn.
  - apply shape_alter; [done|apply HI].
  - intros m y u (y0 & Hy & ->)%lookup_alter_node Hu c. pose proof (p1_kid _ _ _ _ _ HI m y0 u Hy Hu c) as H.
    by destruct (bool_decide (m = n)).
  - intros m y u (y0 & Hy & ->)%lookup_alter_node Hu Hm. destruct (decide (m = n)) as [->|Hmn].
    + rewrite bool_decide_true by done. exists t. split; [done|]. rewrite Hn in Hu. injection Hu as <-. unfold fail_word.
      rewrite bool_decide_true; [done|]. split; [|done]. apply elem_of_app. right. by left.
    + rewrite bool_decide_false by done. destruct (p1_fail _ _ _ _ _ HI m y0 u Hy Hu Hm) as (g & Hg & Hgw).
      exists g. split; [done|]. rewrite Hgw. unfold fail_word. f_equal.
      rewrite (bool_decide_ext (m ∈ dn ++ [n] /\ u ∉ D) (m ∈ dn /\ u ∉ D)); [done|].
      rewrite elem_of_app, list_elem_of_singleton. tauto.
  - intros m y u (y0 & Hy & ->)%lookup_alter_node Hu. pose proof (p1_list _ _ _ _ _ HI m y0 u Hy Hu) as H.
    by destruct (bool_decide (m = n)).
  - apply HI.
  - apply HI.
Qed.

Lemma children_leaf n w : P !! n = Some w -> w ∉ D -> children P n = [].
Proof using HD.
  intros Hn Hw. apply elem_of_nil_inv. intros m Hm. apply (elem_of_children P (d_tree HD) n w) in Hm as (c & Hc); [|done].
  apply Hw. eapply (D_parent P D (d_branch HD)). by eapply list_elem_of_lookup_2.
Qed.

(** A node of the queue. *)
Lemma fail_node_spec s0 dn n q s m : bfs P dn (n :: q) -> pass1 bytes256 dn (dn ++ n :: q) s0 s ->
  fail_node n (s, q, m) = Ok None \/
  exists s' m', fail_node n (s, q, m) = Ok (Some (s', q ++ children P n, m')) /\
    pass1 bytes256 (dn ++ [n]) ((dn ++ [n]) ++ q ++ children P n) s0 s'.
Proof using HD.
  intros HB HI. pose proof (d_tree HD) as HT. assert (n ∈ dn ++ n :: q) as Hnk by (apply elem_of_app; right; left).
  destruct (bfs_valid _ _ _ HB n Hnk) as (w' & c' & Hn). set (w := w' ++ [c']) in *. assert (w <> []) as Hw by by destruct w'.
  destruct (shape_node _ _ _ (p1_shape _ _ _ _ _ HI) Hn) as [x Hx]. unfold fail_node. rewrite Hx. cbn [of_opt].
  destruct (decide (w ∈ D)) as [HwD|HwD].
  - rewrite (proj1 (sh_leaf _ (p1_shape _ _ _ _ _ HI) n x w Hx Hn) HwD).
    assert (children P n = kids_of w bytes256) as Ech by (unfold children, kids_of; rewrite Hn; reflexivity).
    pose proof (bfs_nodup _ _ _ (bfs_step P HT _ _ _ HB)) as Hnd. rewrite Ech in Hnd |- *.
    destruct (for_bytes_spec (fail_step n)
      (fun l q' s => q' = q ++ kids_of w l /\ pass1 bytes256 dn ((dn ++ n :: q) ++ kids_of w l) s0 s) q s m) as [->|(s' & q' & m' & -> & -> & HI')].
    + intros l1 i l2 q' s1 m1 Hb [-> HI1]. destruct (bytes256_split _ _ _ Hb) as [Hi _].
      destruct (fail_step_spec dn ((dn ++ n :: q) ++ kids_of w l1) s0 s1 n w i (q ++ kids_of w l1) m1) as [->|(s' & m' & -> & HI')].
      * done.
      * done.
      * done.
      * apply elem_of_app; by left.
      * done.
      * intros a Ha. do 2 (apply elem_of_app; left). done.
      * intros a u Ha Hu Hl. apply elem_of_app. left. apply (bfs_known P HT _ _ _ _ u HB); [done..|]. by rewrite (depth_of_word P n w).
      * intros a u [Ha|Ha]%elem_of_app Hu.
        { pose proof (bfs_depth P HT _ _ _ _ HB Ha) as Hd. by rewrite (depth_of_word P a u), (depth_of_word P n w) in Hd. }
        unfold kids_of in Ha. rewrite list_elem_of_omap in Ha. destruct Ha as (b & _ & Hab%(idx_spec P HT)).
        rewrite Hu in Hab. injection Hab as ->. rewrite length_app. cbn. lia.
      * intros child Ech' Hin. rewrite Hb in Hnd. unfold kids_of in Hnd. rewrite omap_app in Hnd. cbn in Hnd. rewrite Ech' in Hnd.
        rewrite app_shuffle, app_assoc in Hnd.
        apply NoDup_app in Hnd as (_ & Hdd & _). apply (Hdd child Hin). left.
      * by left.
      * right. exists s', (q ++ kids_of w (l1 ++ [i])), m'. unfold kids_of in *. rewrite omap_app, !app_assoc in *. done.
    + split; [by rewrite app_nil_r|]. by rewrite app_nil_r.
    + by left.
    + right. exists s', m'. split; [done|]. rewrite app_shuffle.
      split; try apply HI'. intros a y u Hy Hu Ha. destruct (p1_fail _ _ _ _ _ HI' a y u Hy Hu Ha) as (f & Hf & Hfw).
      exists f. split; [done|]. rewrite Hfw. unfold fail_word. rewrite (bool_decide_ext (a ∈ dn ++ [n] /\ u ∉ D) (a ∈ dn /\ u ∉ D)); [done|].
      rewrite elem_of_app, list_elem_of_singleton. split; [|tauto]. intros [[?| ->] Hu']; [done|]. rewrite Hn in Hu. by injection Hu as <-.
  - destruct (IS_LEAF x) eqn:El; [|by rewrite (sh_leaf _ (p1_shape _ _ _ _ _ HI) n x w Hx Hn) in HwD].
    destruct (fail_node_leaf s0 dn n q s w x HB HI Hn Hx HwD) as (f & t & Ef & Et & HI'). rewrite Ef. cbn [of_opt]. rewrite Et. right.
    eexists _, m. rewrite (children_leaf n w Hn HwD), app_nil_r, <- app_assoc. split; [done|]. exact HI'.
Qed.

End Build.
End AcBuild.
