(* ===== verification/AcTrans.v ===== *)
(** * The transitions of the automaton

    The second traversal of [ac_maketrans], and the result of both: every node with
    transitions has one for each character, to the longest suffix that is a word. *)
From stdpp Require Import base numbers list list_numbers gmap.
From Stdlib Require Import ZArith Lia Bool.
From S2P Require Import Prelude Dlp CalOff Ac AcWords AcBfs AcChain AcBuild.

Local Open Scope Z_scope.

Module AcTrans.
Import Errors Ac AcWords AcBfs AcChain AcBuild.

#[local] Opaque bytes256.

Section Trans.
Context (P D : list word) (own : word -> list nat) (HD : dict P D own).

(** The state between the traversals. *)
Record linked (s0 s : ac) : Prop := {
  ln_shape : shape P D (nodes s);
  ln_kid n x w : nodes s !! n = Some x -> P !! n = Some w -> kid_ok P bytes256 n x w;
  ln_fail n x w : nodes s !! n = Some x -> P !! n = Some w -> w <> [] ->
    exists f, fail x = Some f /\ P !! f = Some (lsuf (if bool_decide (w ∈ D) then P else D) (tail w));
  ln_list n x w : nodes s !! n = Some x -> P !! n = Some w -> chain next (cells s) (nlist x) (full own w);
  ln_cells : same_cells (cells s0) (cells s);
  ln_depths : ac_mindepth s = ac_mindepth s0 /\ ac_maxdepth s = ac_maxdepth s0 }.

Lemma pass1_linked dn s0 s : bfs P dn [] -> pass1 P D own bytes256 dn (dn ++ []) s0 s -> linked s0 s.
Proof using HD.
  rewrite app_nil_r. intros HB HI. split; try apply HI.
  - intros n x w Hx Hw Hne. pose proof (bfs_end P (d_tree _ _ _ HD) dn n w HB Hw Hne) as Hin.
    destruct (p1_fail _ _ _ _ _ _ _ _ HI n x w Hx Hw Hin) as (f & Hf & E). exists f. split; [done|]. rewrite E. unfold fail_word.
    destruct (decide (w ∈ D)); [rewrite bool_decide_false, bool_decide_true; [done..|tauto]|].
    by rewrite bool_decide_true, bool_decide_false.
  - intros n x w Hx Hw. pose proof (p1_list _ _ _ _ _ _ _ _ HI n x w Hx Hw) as Hl.
    destruct (decide (w = [])) as [->|Hne].
    + cbn [full]. rewrite (d_nil _ _ _ HD) in *. cbn [full] in Hl. rewrite (d_nil _ _ _ HD) in Hl. by destruct (bool_decide _).
    + rewrite bool_decide_true in Hl; [done|]. by apply (bfs_end P (d_tree _ _ _ HD) dn n w).
Qed.

(** The first traversal as a whole. *)
Lemma fail_pass s0 m : trie P D own s0 ->
  (let! r := for_bytes root_step bytes256 (s0, [], m) in
   match r with
   | None => Ok None
   | Some (s, q, m) => while_queue (length (nodes s)) fail_node (s, q, m)
   end) = Ok None \/
  exists s m', (let! r := for_bytes root_step bytes256 (s0, [], m) in
   match r with
   | None => Ok None
   | Some (s, q, m) => while_queue (length (nodes s)) fail_node (s, q, m)
   end) = Ok (Some (s, m')) /\ linked s0 s.
Proof using HD.
  intros HI. pose proof (d_tree _ _ _ HD) as HT.
  destruct (for_bytes_spec root_step (fun l q s => q = kids_of P [] l /\ pass1 P D own l [] q s0 s) [] s0 m)
    as [->|(s & q & m1 & -> & -> & H1)].
  - intros l1 i l2 q s m1 Hb H. by apply (root_step_spec P D own HD s0 l1 i l2).
  - split; [done|]. split.
    + apply HI.
    + intros n x w Hx Hw c. rewrite bool_decide_false by (intros [_ Hc]; by apply elem_of_nil in Hc). by apply (tr_kid _ _ _ _ HI n x w c).
    + intros n x w _ _ Hn. by apply elem_of_nil in Hn.
    + intros n x w Hx Hw. rewrite bool_decide_false by apply not_elem_of_nil. by apply (tr_list _ _ _ _ HI n x w).
    + done.
    + done.
  - by left.
  - assert (kids_of P [] bytes256 = children P 0) as E by (unfold children, kids_of; rewrite (tree_root P HT); reflexivity).
    rewrite E in *.
    destruct (while_queue_spec P HT fail_node (fun dn q s => pass1 P D own bytes256 dn (dn ++ q) s0 s))
      with (fuel := length (nodes s)) (dn := @nil nat) (q := children P 0) (s := s) (m := m1) as [->|(s' & m' & dn & -> & HB & H')].
    + intros dn n q s' m' HB Hs. by apply (fail_node_spec P D own HD s0 dn n q s' m').
    + by apply bfs_start.
    + exact H1.
    + rewrite (sh_len _ _ _ (p1_shape _ _ _ _ _ _ _ _ H1)). lia.
    + by left.
    + right. exists s', m'. split; [done|]. by apply (pass1_linked dn).
Qed.

(** ** The second traversal *)
Definition auto_kid (x : node) (w : word) (c : Z) : Prop :=
  exists t, kid x c = Some t /\ P !! t = Some (lsuf P (w ++ [c])).

Lemma idx_auto_kid x w c t : kid x c = idx P (w ++ [c]) -> idx P (w ++ [c]) = Some t -> auto_kid x w c.
Proof using HD.
  intros Hk Ht. exists t. split; [congruence|]. apply (idx_spec P (d_tree _ _ _ HD)) in Ht.
  rewrite lsuf_id; [done|by eapply list_elem_of_lookup_2].
Qed.

(** [F n c]: the transition of the node [n] for [c] is that of the automaton. *)
Record pass2 (F : nat -> Z -> Prop) (s1 s : ac) : Prop := {
  p2_len : length (nodes s) = length (nodes s1);
  p2_same n x : nodes s !! n = Some x -> exists x1, nodes s1 !! n = Some x1 /\
    nlist x = nlist x1 /\ fail x = fail x1 /\ IS_LEAF x = IS_LEAF x1;
  p2_cells : cells s = cells s1 /\ ac_mindepth s = ac_mindepth s1 /\ ac_maxdepth s = ac_maxdepth s1;
  p2_done n x w c : nodes s !! n = Some x -> P !! n = Some w -> w ∈ D -> 0 <= c < 256 -> F n c -> auto_kid x w c;
  p2_todo n x w c : nodes s !! n = Some x -> P !! n = Some w -> ~ F n c -> kid x c = idx P (w ++ [c]) }.

Lemma pass2_shape F s0 s1 s : linked s0 s1 -> pass2 F s1 s -> shape P D (nodes s).
Proof.
  intros HL HI. split; [rewrite (p2_len _ _ _ HI); apply HL|]. intros n x w Hx Hw. destruct (p2_same _ _ _ HI n x Hx) as (x1 & Hx1 & _ & _ & El).
  rewrite El. by apply (sh_leaf _ _ _ (ln_shape _ _ HL) n x1 w).
Qed.

Lemma pass2_ext F G s1 s : (forall n c, F n c <-> G n c) -> pass2 F s1 s -> pass2 G s1 s.
Proof.
  intros E HI. split; try apply HI.
  - intros n x w c Hx Hw HwD Hc HG. apply (p2_done _ _ _ HI n x w c); try done. by apply E.
  - intros n x w c Hx Hw HG. apply (p2_todo _ _ _ HI n x w c); try done. by rewrite E.
Qed.

(** A leaf of the trie has patterns. *)
Lemma leaf_final s0 s1 n x w : linked s0 s1 -> nodes s1 !! n = Some x -> P !! n = Some w -> w ∉ D -> IS_FINAL x = true.
Proof using HD.
  intros HL Hx Hw HwD. apply bool_decide_eq_true. pose proof (ln_list _ _ HL n x w Hx Hw) as Hl.
  destruct (nlist x) as [p|]; [by exists p|]. exfalso.
  apply (d_leaf _ _ _ HD w); [by eapply list_elem_of_lookup_2|done|].
  destruct w; cbn [full] in Hl; (destruct (own _); [done|by destruct Hl]).
Qed.

(** Missing transitions follow the failure link. *)
Lemma fail_trans_pass2 F s0 s1 s n x w i : linked s0 s1 -> pass2 F s1 s ->
  nodes s !! n = Some x -> P !! n = Some w -> w ∈ D -> w <> [] -> 0 <= i < 256 -> w ++ [i] ∉ P ->
  (forall m v c, P !! m = Some v -> (length v < length w)%nat -> F m c) ->
  exists f t, fail x = Some f /\ fail_trans (length (nodes s)) (nodes s) f i = Ok t /\ P !! t = Some (lsuf P (w ++ [i])).
Proof using HD.
  intros HL HI Hx Hw HwD Hne Hi Hout HF. pose proof (d_branch _ _ _ HD) as HB.
  destruct (p2_same _ _ _ HI n x Hx) as (x1 & Hx1 & _ & Ef & _).
  destruct (ln_fail _ _ HL n x1 w Hx1 Hw Hne) as (f & Hf & Hfw). rewrite bool_decide_true in Hfw by done.
  assert (length (lsuf P (tail w)) < length w)%nat as Hshort.
  { pose proof (lsuf_length P (tail w)). destruct w; [done|]. cbn in *. lia. }
  destruct (fail_trans_spec P D (nodes s) i (length (nodes s)) f (lsuf P (tail w))) as (t & Et & Ht).
  - by eapply pass2_shape.
  - intros m y v Hm Hv Hl. destruct (decide (v ∈ D)) as [HvD|HvD].
    + left. apply (p2_done _ _ _ HI m y v i); [done..|]. apply (HF m v i); [done|lia].
    + right. destruct (p2_same _ _ _ HI m y Hm) as (y1 & Hy1 & _ & Efy & El). split.
      { unfold kid. destruct (trans y) eqn:E; [|done]. exfalso. apply HvD.
        apply (sh_leaf _ _ _ (pass2_shape _ _ _ _ HL HI) m y v Hm Hv). unfold IS_LEAF. by rewrite E. }
      assert (v <> []) as Hvn by (intros ->; apply HvD, HB).
      destruct (ln_fail _ _ HL m y1 v Hy1 Hv Hvn) as (g & Hg & Hgw). rewrite bool_decide_false in Hgw by done.
      exists g, (lsuf D (tail v)). split; [congruence|]. split; [done|]. split.
      * pose proof (lsuf_length D (tail v)). destruct v; [done|]. cbn in *. lia.
      * rewrite (lsuf_step_D P D HB). apply (lsuf_fail P D HB); [done|]. intros Hin. apply HvD. by eapply HB.
  - done.
  - rewrite (sh_len _ _ _ (pass2_shape _ _ _ _ HL HI)). pose proof (word_len P D own HD n w Hw). lia.
  - exists f, t. split; [congruence|]. split; [done|]. rewrite Ht, (lsuf_step_W P D HB). f_equal. by apply (lsuf_fail P D HB).
Qed.

(** One transition of the node [n], with the characters [l1] done. *)
Lemma trans_step_spec (F : nat -> Z -> Prop) s0 s1 s n x w i q m : linked s0 s1 -> pass2 F s1 s ->
  nodes s !! n = Some x -> P !! n = Some w -> w ∈ D -> w <> [] -> 0 <= i < 256 -> ~ F n i ->
  (forall m v c, P !! m = Some v -> (length v < length w)%nat -> F m c) ->
  trans_step n i (s, q, m) = Ok None \/
  exists s' m', trans_step n i (s, q, m) = Ok (Some (s', q ++ kids_of P w [i], m')) /\
    pass2 (fun k c => F k c \/ (k = n /\ c = i)) s1 s'.
Proof using HD.
  intros HL HI Hx Hw HwD Hne Hi Hnot HF. pose proof (d_tree _ _ _ HD) as HT.
  assert (IS_LEAF x = false) as Hnl by by apply (sh_leaf _ _ _ (pass2_shape _ _ _ _ HL HI) n x w).
  destruct (trans x) as [t|] eqn:Et; [|unfold IS_LEAF in Hnl; by rewrite Et in Hnl].
  unfold trans_step. rewrite Hx. cbn [of_opt]. rewrite Et. cbn [of_opt].
  pose proof (p2_todo _ _ _ HI n x w i Hx Hw Hnot) as Hk. pose proof Hk as Hk'. rewrite (kid_trans _ _ _ Et) in Hk. rewrite Hk.
  unfold kids_of. cbn [omap list_omap]. destruct (idx P (w ++ [i])) as [child|] eqn:Ei.
  - apply (idx_spec P HT) in Ei as Hch. destruct (shape_node P D _ _ _ (pass2_shape _ _ _ _ HL HI) Hch) as [c Hc]. rewrite Hc. cbn [of_opt].
    assert (negb (IS_FINAL c) && IS_LEAF c = false) as ->.
    { destruct (decide (w ++ [i] ∈ D)) as [Hin|Hin].
      - rewrite (proj1 (sh_leaf _ _ _ (pass2_shape _ _ _ _ HL HI) child c _ Hc Hch) Hin). apply andb_false_r.
      - destruct (p2_same _ _ _ HI child c Hc) as (c1 & Hc1 & Enl & _). unfold IS_FINAL. rewrite Enl.
        pose proof (leaf_final s0 s1 child c1 _ HL Hc1 Hch Hin) as Hfin. unfold IS_FINAL in Hfin. by rewrite Hfin. }
    destruct (bfs_enqueue_spec s q m child) as [->|(m' & ->)]; [by left|right]. exists s, m'. split; [done|].
    split; try apply HI.
    + intros k y v c' Hy Hv HvD Hc' [H|[-> ->]]; [by apply (p2_done _ _ _ HI k y v c')|].
      rewrite Hx in Hy. injection Hy as <-. rewrite Hw in Hv. injection Hv as <-. by apply (idx_auto_kid x w i child); rewrite ?Ei.
    + intros k y v c' Hy Hv H. apply (p2_todo _ _ _ HI k y v c'); tauto.
  - apply (idx_None P HT) in Ei as Hout.
    destruct (fail_trans_pass2 F s0 s1 s n x w i HL HI Hx Hw HwD Hne Hi Hout HF) as (f & t' & Hf & Eft & Ht'). rewrite Hf. cbn [of_opt]. rewrite Eft.
    right. eexists _, m. split; [by rewrite app_nil_r|]. split; cbn.
    + rewrite length_alter. apply HI.
    + intros k y (y0 & Hy & ->)%lookup_alter_node. destruct (p2_same _ _ _ HI k y0 Hy) as (y1 & Hy1 & E1 & E2 & E3). exists y1. split; [done|].
      case_bool_decide as E; [|done]. subst k. rewrite Hx in Hy. injection Hy as <-. cbn. split; [done|]. split; [done|]. rewrite <- E3. unfold IS_LEAF. by rewrite Et.
    + apply HI.
    + intros k y v c' (y0 & Hy & ->)%lookup_alter_node Hv HvD Hc' H. case_bool_decide as E.
      * subst k. rewrite Hx in Hy. injection Hy as <-. rewrite Hw in Hv. injection Hv as <-. destruct (decide (c' = i)) as [->|Hci].
        { exists t'. split; [|done]. unfold kid. cbn. apply lookup_insert_eq. }
        destruct (p2_done _ _ _ HI n x w c' Hx Hw HwD Hc') as (t2 & H1 & H2); [tauto|]. exists t2. split; [|done].
        unfold kid in *. cbn. rewrite Et in H1. cbn in H1. by rewrite lookup_insert_ne.
      * apply (p2_done _ _ _ HI k y0 v c'); [done..|]. tauto.
    + intros k y v c' (y0 & Hy & ->)%lookup_alter_node Hv H. assert (~ F k c') as H' by tauto. case_bool_decide as E.
      * subst k. rewrite Hx in Hy. injection Hy as <-. pose proof (p2_todo _ _ _ HI n x v c' Hx Hv H') as E.
        unfold kid in *. cbn. rewrite Et in E. cbn in E. rewrite lookup_insert_ne; [done|]. intros ->. tauto.
      * by apply (p2_todo _ _ _ HI k y0 v c').
Qed.

(** A node of the queue of the second traversal. *)
Lemma trans_node_spec s0 s1 dn n q s m : linked s0 s1 -> bfs P dn (n :: q) -> pass2 (fun k _ => k ∈ 0%nat :: dn) s1 s ->
  trans_node n (s, q, m) = Ok None \/
  exists s' m', trans_node n (s, q, m) = Ok (Some (s', q ++ children P n, m')) /\ pass2 (fun k _ => k ∈ 0%nat :: dn ++ [n]) s1 s'.
Proof using HD.
  intros HL HB HI. pose proof (d_tree _ _ _ HD) as HT. assert (n ∈ dn ++ n :: q) as Hnk by (apply elem_of_app; right; left).
  destruct (bfs_valid _ _ _ HB n Hnk) as (w' & c' & Hn). set (w := w' ++ [c']) in *. assert (w <> []) as Hw by by destruct w'.
  destruct (shape_node P D _ _ _ (pass2_shape _ _ _ _ HL HI) Hn) as [x Hx]. unfold trans_node. rewrite Hx. cbn [of_opt].
  assert (forall k, k ∈ 0%nat :: dn ++ [n] <-> k ∈ 0%nat :: dn \/ k = n) as Hin.
  { intros k. rewrite !elem_of_cons, elem_of_app, list_elem_of_singleton. tauto. }
  destruct (decide (w ∈ D)) as [HwD|HwD].
  - rewrite (proj1 (sh_leaf _ _ _ (pass2_shape _ _ _ _ HL HI) n x w Hx Hn) HwD).
    assert (children P n = kids_of P w bytes256) as -> by (unfold children, kids_of; rewrite Hn; reflexivity).
    assert (n ∉ 0%nat :: dn) as Hfresh.
    { intros [->|Hd]%elem_of_cons; [rewrite (tree_root P HT) in Hn; by destruct w'|].
      pose proof (bfs_nodup _ _ _ HB) as Hnd. apply NoDup_app in Hnd as (_ & Hdd & _). apply (Hdd n Hd). left. }
    destruct (for_bytes_spec (trans_step n)
      (fun l q' s => q' = q ++ kids_of P w l /\ pass2 (fun k c => k ∈ 0%nat :: dn \/ (k = n /\ c ∈ l)) s1 s) q s m)
      as [->|(s' & q' & m' & -> & -> & HI')].
    + intros l1 i l2 q' s' m' Hb [-> H1]. destruct (bytes256_split _ _ _ Hb) as [Hi Hnin].
      destruct (shape_node P D _ _ _ (pass2_shape _ _ _ _ HL H1) Hn) as [x' Hx'].
      destruct (trans_step_spec _ s0 s1 s' n x' w i (q ++ kids_of P w l1) m' HL H1 Hx' Hn HwD Hw Hi) as [->|(s2 & m2 & -> & H2)].
      * intros [?|[_ ?]]; done.
      * intros k v c Hv Hl. left. destruct (decide (v = [])) as [->|Hvn].
        { apply elem_of_cons. left. apply (word_inj P HT _ _ []); [done|apply (tree_root P HT)]. }
        apply elem_of_cons. right. apply (bfs_above P HT _ _ _ _ v HB); [done..|]. by rewrite (depth_of_word P n w).
      * by left.
      * right. exists s2, (q ++ kids_of P w (l1 ++ [i])), m2. split; [|split; [done|]].
        { unfold kids_of. rewrite omap_app, app_assoc. reflexivity. }
        eapply pass2_ext; [|exact H2]. intros k c. cbn. rewrite elem_of_app, list_elem_of_singleton. tauto.
    + split; [by rewrite app_nil_r|]. eapply pass2_ext; [|exact HI]. intros k c. cbn. split; [by left|].
      intros [?|[_ Hc]]; [done|by apply elem_of_nil in Hc].
    + by left.
    + right. exists s', m'. split; [done|]. split; try apply HI'.
      * intros k y v c Hy Hv HvD Hc HF. apply (p2_done _ _ _ HI' k y v c); [done..|].
        apply Hin in HF as [?| ->]; [by left|right]. split; [done|]. by apply elem_of_bytes.
      * intros k y v c Hy Hv HF. apply (p2_todo _ _ _ HI' k y v c); [done..|]. rewrite Hin in HF. tauto.
  - destruct (IS_LEAF x) eqn:El; [|by rewrite (sh_leaf _ _ _ (pass2_shape _ _ _ _ HL HI) n x w Hx Hn) in HwD].
    right. exists s, m. rewrite (children_leaf P D own HD n w Hn HwD), app_nil_r. split; [done|]. split; try apply HI.
    + intros k y v c Hy Hv HvD Hc HF. apply Hin in HF as [?| ->]; [by apply (p2_done _ _ _ HI k y v c)|].
      rewrite Hn in Hv. by injection Hv as <-.
    + intros k y v c Hy Hv HF. apply (p2_todo _ _ _ HI k y v c); [done..|]. rewrite Hin in HF. tauto.
Qed.

(** ** The automaton *)
Record automaton (s0 s : ac) : Prop := {
  a_shape : shape P D (nodes s);
  a_trans n x w c : nodes s !! n = Some x -> P !! n = Some w -> w ∈ D -> 0 <= c < 256 -> auto_kid x w c;
  a_fail n x w : nodes s !! n = Some x -> P !! n = Some w -> w ∉ D ->
    exists f, fail x = Some f /\ P !! f = Some (lsuf D (tail w));
  a_list n x w : nodes s !! n = Some x -> P !! n = Some w -> chain next (cells s) (nlist x) (full own w);
  a_cells : same_cells (cells s0) (cells s);
  a_depths : ac_mindepth s = ac_mindepth s0 /\ ac_maxdepth s = ac_maxdepth s0 }.

Lemma pass2_start s0 s1 : linked s0 s1 -> pass2 (fun k _ => k ∈ [0%nat]) s1 s1.
Proof using HD.
  intros HL. pose proof (d_tree _ _ _ HD) as HT. split; [done| |done| |].
  - intros n x Hx. by exists x.
  - intros n x w c Hx Hw _ Hc ->%list_elem_of_singleton. rewrite (tree_root P HT) in Hw. injection Hw as <-.
    pose proof (ln_kid _ _ HL 0%nat x [] Hx (tree_root P HT) c) as Hk.
    rewrite bool_decide_true in Hk by (split; [done|by apply elem_of_bytes]). eexists. split; [exact Hk|]. cbn [app].
    destruct (idx P [c]) as [t|] eqn:E; cbn [default from_option].
    + apply (idx_spec P HT) in E. rewrite lsuf_id; [done|by eapply list_elem_of_lookup_2].
    + apply (idx_None P HT) in E. rewrite lsuf_cons, lsuf_id; [apply (tree_root P HT)|apply (d_branch _ _ _ HD)|done].
  - intros n x w c Hx Hw Hn. rewrite (ln_kid _ _ HL n x w Hx Hw c). rewrite bool_decide_false; [done|].
    intros [-> _]. apply Hn. by left.
Qed.

Lemma root_step2_spec s0 s1 l1 i l2 q m : linked s0 s1 -> bytes256 = l1 ++ i :: l2 -> q = kids_of P [] l1 ->
  root_step2 i (s1, q, m) = Ok None \/
  exists q' m', root_step2 i (s1, q, m) = Ok (Some (s1, q', m')) /\ q' = kids_of P [] (l1 ++ [i]).
Proof using HD.
  intros HL Hb ->. destruct (bytes256_split _ _ _ Hb) as [Hi _]. pose proof (d_tree _ _ _ HD) as HT.
  destruct (root_node P D own HD _ (ln_shape _ _ HL)) as (r & t & Hr & Ht). unfold root_step2. rewrite Hr. cbn [of_opt]. rewrite Ht. cbn [of_opt].
  pose proof (ln_kid _ _ HL 0%nat r [] Hr (tree_root P HT) i) as Hk. rewrite (kid_trans _ _ _ Ht) in Hk.
  rewrite bool_decide_true in Hk by (split; [done|by apply elem_of_bytes]). rewrite Hk. cbn [of_opt].
  rewrite kids_of_snoc. cbn [app]. destruct (idx P [i]) as [n|] eqn:E; cbn [default from_option]; unfold id.
  - apply (idx_spec P HT) in E. rewrite bool_decide_false by (intros ->; by rewrite (tree_root P HT) in E).
    destruct (bfs_enqueue_spec s1 (kids_of P [] l1) m n) as [->|(m' & ->)]; [by left|right]. by eexists _, m'.
  - right. eexists _, m. split; [reflexivity|]. by rewrite app_nil_r.
Qed.

Theorem ac_maketrans_spec s0 m : trie P D own s0 ->
  ac_maketrans s0 m = Ok None \/ exists s, ac_maketrans s0 m = Ok (Some s) /\ automaton s0 s.
Proof using HD.
  intros HI. pose proof (d_tree _ _ _ HD) as HT. unfold ac_maketrans. pose proof (fail_pass s0 m HI) as HP.
  destruct (for_bytes root_step bytes256 (s0, [], m)) as [[[[s q] m1]|]| |];
    [|by left|by destruct HP as [HP|(? & ? & HP & _)]|by destruct HP as [HP|(? & ? & HP & _)]].
  destruct HP as [->|(s1 & m2 & -> & HL)]; [by left|].
  destruct (for_bytes_spec root_step2 (fun l q s => s = s1 /\ q = kids_of P [] l) [] s1 m2) as [->|(s' & q' & m' & -> & -> & ->)].
  - intros l1 i l2 q' s' m' Hb [-> Hq]. destruct (root_step2_spec s0 s1 l1 i l2 q' m' HL Hb Hq) as [->|(q2 & m3 & -> & E)]; [by left|].
    right. by exists s1, q2, m3.
  - done.
  - by left.
  - assert (kids_of P [] bytes256 = children P 0) as -> by (unfold children, kids_of; rewrite (tree_root P HT); reflexivity).
    destruct (while_queue_spec P HT trans_node (fun dn q s => pass2 (fun k _ => k ∈ 0%nat :: dn) s1 s))
      with (fuel := length (nodes s1)) (dn := @nil nat) (q := children P 0) (s := s1) (m := m') as [->|(s2 & m2' & dn & -> & HB & H2)].
    + intros dn n q2 s2 m3 HB Hs. by apply (trans_node_spec s0 s1 dn n q2 s2 m3).
    + by apply bfs_start.
    + by eapply pass2_start.
    + rewrite (sh_len _ _ _ (ln_shape _ _ HL)). lia.
    + by left.
    + right. exists s2. split; [done|]. destruct (p2_cells _ _ _ H2) as (Ec & E1 & E2).
      assert (forall n w, P !! n = Some w -> n ∈ 0%nat :: dn) as Hall.
      { intros n w Hw. destruct (decide (w = [])) as [->|Hne].
        - apply elem_of_cons. left. apply (word_inj P HT _ _ []); [done|apply (tree_root P HT)].
        - apply elem_of_cons. right. by apply (bfs_end P HT dn n w). }
      split.
      * by eapply pass2_shape.
      * intros n x w c Hx Hw HwD Hc. apply (p2_done _ _ _ H2 n x w c); [done..|]. by eapply Hall.
      * intros n x w Hx Hw HwD. destruct (p2_same _ _ _ H2 n x Hx) as (x1 & Hx1 & _ & Ef & _).
        destruct (ln_fail _ _ HL n x1 w Hx1 Hw) as (f & Hf & E); [intros ->; apply HwD, (d_branch _ _ _ HD)|].
        rewrite bool_decide_false in E by done. exists f. split; [congruence|done].
      * intros n x w Hx Hw. destruct (p2_same _ _ _ H2 n x Hx) as (x1 & Hx1 & El & _ & _). rewrite Ec, El. by apply (ln_list _ _ HL n x1 w).
      * rewrite Ec. apply HL.
      * rewrite E1, E2. apply HL.
Qed.

End Trans.
End AcTrans.
