(* ===== verification/AcAdd.v ===== *)
(** * Adding patterns to the trie

    [cli_ac_addpatt] keeps the nodes a trie: the words are those of the nodes
    created so far, and a pattern is entered at the node of its first static
    characters, in the list of the node or behind a pattern with the same text. *)
From stdpp Require Import base numbers list list_numbers gmap.
From Stdlib Require Import ZArith Lia Bool.
From S2P Require Import Prelude Dlp CalOff Ac AcWords AcBfs AcChain AcBuild.

Local Open Scope Z_scope.

Module AcAdd.
Import Errors Ac AcWords AcBfs AcChain AcBuild.

(** ** Nodes and words *)
Record wf (P D : list word) (ns : list node) : Prop := {
  wf_tree : tree P;
  wf_branch : branching P D;
  wf_shape : shape P D ns;
  wf_kid n x w c : ns !! n = Some x -> P !! n = Some w -> kid x c = idx P (w ++ [c]) }.

Lemma land_byte c : 0 <= Z.land c 0xff < 256.
Proof.
  change 0xff with (Z.ones 8). rewrite Z.land_ones by lia. apply Z.mod_pos_bound. lia.
Qed.

(** A node gets an empty table of transitions if it has none. *)
Lemma wf_open P D ns n x w : wf P D ns -> ns !! n = Some x -> P !! n = Some w ->
  wf P (w :: D) (<[n := set_trans (Some (default ∅ (trans x))) x]> ns).
Proof.
  intros [HT HB HS HK] Hx Hw. split; [done| | |].
  - split; [apply HB|right; apply HB| |intros u c Hu; right; by eapply HB].
    intros u [->|Hu]%elem_of_cons; [by eapply list_elem_of_lookup_2|by apply HB].
  - split; [rewrite length_insert; apply HS|]. intros m y u [(-> & <- & _)|(Hne & Hy)]%list_lookup_insert_Some Hu.
    + rewrite Hw in Hu. injection Hu as <-. split; [done|]. intros _. by left.
    + rewrite elem_of_cons, (sh_leaf _ _ _ HS m y u Hy Hu). split; [|by right]. intros [->|?]; [|done].
      by destruct Hne; apply (word_inj P HT n m w).
  - intros m y u c [(-> & <- & _)|(Hne & Hy)]%list_lookup_insert_Some Hu; [|by apply (HK m y u)].
    rewrite Hw in Hu. injection Hu as <-. rewrite <- (HK m x w c Hx Hw). unfold kid. cbn. by destruct (trans x); cbn; rewrite ?lookup_empty.
Qed.

Lemma idx_snoc P v u : tree (P ++ [v]) -> tree P -> idx (P ++ [v]) u = if decide (u = v) then Some (length P) else idx P u.
Proof.
  intros HT' HT. destruct (decide (u = v)) as [->|Hne].
  - apply (idx_spec _ HT'). rewrite lookup_app_r, Nat.sub_diag by lia. done.
  - destruct (idx P u) as [n|] eqn:E.
    + apply (idx_spec _ HT'). apply (idx_spec _ HT) in E. rewrite lookup_app_l; [done|by eapply lookup_lt_Some].
    + apply (idx_None _ HT'). apply (idx_None _ HT) in E. rewrite elem_of_app, list_elem_of_singleton. tauto.
Qed.

Lemma tree_snoc P w c : tree P -> w ∈ P -> w ++ [c] ∉ P -> 0 <= c < 256 -> tree (P ++ [w ++ [c]]).
Proof.
  intros HT Hw Hn Hc. split.
  - rewrite lookup_app_l; [apply HT|]. by eapply lookup_lt_Some, HT.
  - apply NoDup_app. split; [apply HT|]. split; [|apply NoDup_singleton]. intros u Hu ->%list_elem_of_singleton. done.
  - intros u a [Hu|E%list_elem_of_singleton]%elem_of_app; apply elem_of_app; left; [by eapply HT|].
    by apply app_inj_2 in E as [-> _].
  - intros u a [Hu|E%list_elem_of_singleton]%elem_of_app; [by eapply HT|]. apply app_inj_2 in E as [_ E]; [|done]. by injection E as ->.
Qed.

(** A new child of a node with a table. *)
Lemma wf_child P D ns n x t w c (more : bool) : wf P D ns -> ns !! n = Some x -> P !! n = Some w -> trans x = Some t ->
  t !! c = None -> 0 <= c < 256 ->
  wf (P ++ [w ++ [c]]) (if more then (w ++ [c]) :: D else D)
     (alter (set_trans (Some (<[c := length ns]> t))) n (ns ++ [Node None (if more then Some ∅ else None) None])).
Proof.
  intros [HT HB HS HK] Hx Hw Ht Hc Hb. assert (w ++ [c] ∉ P) as Hout.
  { apply (idx_None P HT). rewrite <- (HK n x w c Hx Hw). unfold kid. by rewrite Ht. }
  assert (w ∈ P) as Hin by by eapply list_elem_of_lookup_2. pose proof (tree_snoc P w c HT Hin Hout Hb) as HT'.
  assert (w ∈ D) as HwD by (apply (sh_leaf _ _ _ HS n x w); [done..|]; unfold IS_LEAF; by rewrite Ht).
  assert (length ns = length P) as Hlen by apply HS. pose proof (lookup_lt_Some _ _ _ Hx) as Hnlt.
  assert (forall u, u ∈ (if more then (w ++ [c]) :: D else D) <-> u ∈ D \/ (more = true /\ u = w ++ [c])) as HD'.
  { intros u. destruct more; [rewrite elem_of_cons|]; naive_solver. }
  assert (forall m y u, alter (set_trans (Some (<[c := length ns]> t))) n (ns ++ [Node None (if more then Some ∅ else None) None]) !! m = Some y ->
    (P ++ [w ++ [c]]) !! m = Some u ->
    (m = n /\ u = w /\ y = set_trans (Some (<[c := length ns]> t)) x) \/
    (m <> n /\ ns !! m = Some y /\ P !! m = Some u) \/
    (m = length P /\ u = w ++ [c] /\ y = Node None (if more then Some ∅ else None) None)) as Hcase.
  { intros m y u (y0 & Hy & ->)%lookup_alter_node Hu. destruct (decide (m = n)) as [->|Hne].
    - left. rewrite lookup_app_l in Hy by done. rewrite lookup_app_l in Hu by lia. rewrite Hx in Hy. injection Hy as <-.
      rewrite Hw in Hu. injection Hu as <-. by rewrite bool_decide_true.
    - right. rewrite bool_decide_false by done. apply lookup_app_Some in Hy as [Hy|[Hge Hy]].
      + left. split; [done|]. split; [done|]. apply lookup_lt_Some in Hy. by rewrite lookup_app_l in Hu by lia.
      + right. apply list_lookup_singleton_Some in Hy as [Hm <-]. assert (m = length P) as -> by lia.
        rewrite lookup_app_r, Nat.sub_diag in Hu by lia. by injection Hu as <-. }
  split; [done| | |].
  - split.
    + apply elem_of_app; left; apply HB.
    + apply HD'. left. apply HB.
    + intros u [Hu|[_ ->]]%HD'; apply elem_of_app; [left; by apply HB|right; by left].
    + intros u a [Hu|E%list_elem_of_singleton]%elem_of_app; apply HD'; left; [by eapply HB|]. by apply app_inj_2 in E as [-> _].
  - split; [rewrite length_alter, !length_app; cbn; lia|]. intros m y u Hy Hu. rewrite HD'.
    destruct (Hcase m y u Hy Hu) as [(-> & -> & ->)|[(Hne & Hy' & Hu')|(-> & -> & ->)]].
    + split; [done|by left].
    + rewrite <- (sh_leaf _ _ _ HS m y u Hy' Hu'). split; [|by left]. intros [?|[_ ->]]; [done|].
      by destruct Hout; eapply list_elem_of_lookup_2.
    + unfold IS_LEAF. cbn. destruct more; cbn; split; try done; [by right|]. intros [Hu'|[? _]]; [|done].
      by destruct Hout; apply HB.
  - intros m y u a Hy Hu. rewrite idx_snoc by done.
    destruct (Hcase m y u Hy Hu) as [(-> & -> & ->)|[(Hne & Hy' & Hu')|(-> & -> & ->)]].
    + unfold kid. cbn. destruct (decide (a = c)) as [->|Hac].
      * rewrite lookup_insert_eq, decide_True by done. by rewrite Hlen.
      * rewrite lookup_insert_ne, decide_False by (done || intros E; by apply app_inj_2 in E as [_ [= ->]]).
        rewrite <- (HK n x w a Hx Hw). unfold kid. by rewrite Ht.
    + rewrite decide_False; [by apply (HK m y u)|]. intros E. apply app_inj_2 in E as [-> _]; [|done].
      by destruct Hne; apply (word_inj P HT m n w).
    + rewrite decide_False.
      * transitivity (@None nat); [unfold kid; cbn; destruct more; cbn; [apply lookup_empty|done]|].
        symmetry. apply (idx_None P HT). intros Hc'. by apply Hout, (tree_closed P HT _ a).
      * intros E. apply app_inj_2 in E as [E _]; [|done]. apply (f_equal length) in E. rewrite length_app in E. cbn in E. lia.
Qed.

(** What a walk down the trie along [key] from the word [w] does. *)
Record extended (P D : list word) (ns : list node) (w key : word) (P' D' : list word) (ns' : list node) (pt' : nat) : Prop := {
  ex_wf : wf P' D' ns';
  ex_prefix : P `prefix_of` P';
  ex_target : P' !! pt' = Some (w ++ key);
  ex_leaf u : u ∈ P' -> u ∉ D' -> (u ∈ P /\ u ∉ D) \/ u = w ++ key;
  ex_list i x' : ns' !! i = Some x' -> nlist x' = (x ← ns !! i; nlist x) }.

Definition key_word (key : list Z) : word := (fun c => Z.land c 0xff) <$> key.

Lemma prefix_lookup_word (P P' : list word) i w : P `prefix_of` P' -> P !! i = Some w -> P' !! i = Some w.
Proof. intros H Hi. by eapply prefix_lookup_Some. Qed.

(** A step of the walk in front of the rest of it. *)
Lemma extended_cons P D ns w c key P1 D1 ns1 P' D' ns' pt' :
  P `prefix_of` P1 -> (forall u, u ∈ P1 -> u ∉ D1 -> (u ∈ P /\ u ∉ D) \/ (key = [] /\ u = w ++ [c])) ->
  (forall i x', ns1 !! i = Some x' -> nlist x' = (x ← ns !! i; nlist x)) -> (length ns <= length ns1)%nat ->
  extended P1 D1 ns1 (w ++ [c]) key P' D' ns' pt' -> extended P D ns w (c :: key) P' D' ns' pt'.
Proof.
  intros Hp Hl Hn Hlen [H1 H2 H3 H4 H5]. split; [done|by etrans|by rewrite H3, <- app_assoc| |].
  - intros u Hu HuD. destruct (H4 u Hu HuD) as [[Hu1 HuD1]| ->]; [|right; by rewrite <- app_assoc].
    destruct (Hl u Hu1 HuD1) as [?|[-> ->]]; [by left|by right].
  - intros i x' Hx'. rewrite (H5 i x' Hx'). destruct (ns1 !! i) as [x1|] eqn:E; [by apply Hn|]. cbn.
    rewrite lookup_ge_None_2; [done|]. apply lookup_ge_None_1 in E. lia.
Qed.

Lemma descend_spec key : forall ns pt m P D w, wf P D ns -> P !! pt = Some w ->
  exists r ns' pt' m', descend key ns pt m = Some (r, ns', pt', m') /\
    (r = CL_EMEM \/ r = CL_SUCCESS /\ exists P' D', extended P D ns w (key_word key) P' D' ns' pt').
Proof.
  induction key as [|c key IH]; intros ns pt m P D w HW Hw.
  - cbn. eexists _, _, _, _. split; [done|]. right. split; [done|]. exists P, D. split; [done|done|by rewrite app_nil_r| |].
    + intros u Hu HuD. by left.
    + by intros i x' ->.
  - destruct (shape_node P D ns pt w (wf_shape _ _ _ HW) Hw) as [n Hn]. cbn [descend]. rewrite Hn.
    destruct (match trans n with Some _ => (true, m) | None => alloc m end) as [[|] m1]; [|eexists _, _, _, _; split; [done|by left]]. cbn [negb].
    set (t := default ∅ (trans n)). set (ns1 := <[pt := set_trans (Some t) n]> ns).
    pose proof (wf_open P D ns pt n w HW Hn Hw) as HW1. fold t ns1 in HW1.
    assert (ns1 !! pt = Some (set_trans (Some t) n)) as Hn1 by (apply list_lookup_insert_eq; by eapply lookup_lt_Some).
    set (b := Z.land c 0xff). pose proof (wf_kid _ _ _ HW1 pt _ w b Hn1 Hw) as Hk. unfold kid in Hk. cbn in Hk.
    assert (forall i x', ns1 !! i = Some x' -> nlist x' = (x ← ns !! i; nlist x)) as Hl1.
    { intros i x' [(<- & <- & _)|(_ & ->)]%list_lookup_insert_Some; [by rewrite Hn|done]. }
    change (key_word (c :: key)) with (b :: key_word key).
    destruct (t !! b) as [nx|] eqn:Eb.
    + symmetry in Hk. apply (idx_spec P (wf_tree _ _ _ HW)) in Hk.
      destruct (IH ns1 nx m1 P (w :: D) (w ++ [b]) HW1 Hk) as (r & ns' & pt' & m' & -> & H). eexists _, _, _, _. split; [done|].
      destruct H as [->|[-> (P' & D' & HE)]]; [by left|right]. split; [done|]. exists P', D'.
      eapply extended_cons; [done| |exact Hl1|unfold ns1; by rewrite length_insert|exact HE].
      intros u Hu HuD. left. split; [done|]. intros HuD'. apply HuD. by right.
    + destruct (alloc m1) as [[|] m2]; [|eexists _, _, _, _; split; [done|by left]]. cbn [negb].
      destruct (if bool_decide (key = []) then (true, m2) else alloc m2) as [[|] m3]; [|eexists _, _, _, _; split; [done|by left]]. cbn [negb].
      destruct (alloc m3) as [[|] m4]; [|eexists _, _, _, _; split; [done|by left]]. cbn [negb].
      pose proof (wf_child P (w :: D) ns1 pt _ t w b (negb (bool_decide (key = []))) HW1 Hn1 Hw eq_refl Eb (land_byte c)) as HW2.
      replace (if negb (bool_decide (key = [])) then Some (∅ : gmap Z nat) else None)
        with (if bool_decide (key = []) then None else Some (∅ : gmap Z nat)) in HW2 by by destruct (bool_decide (key = [])).
      set (ns2 := alter _ pt (ns1 ++ _)) in HW2 |- *.
      assert (length ns1 = length P) as Hlen by apply HW1.
      destruct (IH ns2 (length ns1) m4 (P ++ [w ++ [b]]) _ (w ++ [b]) HW2) as (r & ns' & pt' & m' & E & H).
      { rewrite lookup_app_r, Hlen, Nat.sub_diag by lia. done. }
      rewrite E. eexists _, _, _, _. split; [done|].
      destruct H as [->|[-> (P' & D' & HE)]]; [by left|right]. split; [done|]. exists P', D'.
      eapply extended_cons; [by eexists| | | |exact HE].
      * intros u [Hu| ->%list_elem_of_singleton]%elem_of_app HuD.
        { left. split; [done|]. intros HuD'. apply HuD. destruct (negb _); [right|]; by right. }
        right. split; [|done]. destruct key; [done|]. destruct HuD. by left.
      * intros i x' (y & Hy & ->)%lookup_alter_node. transitivity (nlist y); [by destruct (bool_decide (i = pt))|].
        apply lookup_app_Some in Hy as [Hy|[Hge Hy]]; [by apply Hl1|].
        apply list_lookup_singleton_Some in Hy as [_ <-]. rewrite lookup_ge_None_2; [done|]. unfold ns1 in Hge. by rewrite length_insert in Hge.
      * unfold ns2, ns1. rewrite length_alter, length_app, length_insert. lia.
Qed.

(** ** Patterns with the same text *)

(** The counter of [same_specials] is wide enough. *)
Definition few (p : ac_patt) : Prop := (length (special_table p) <= 255)%nat.

Lemma same_specials_total t1 t2 : length t1 = length t2 -> (length t1 <= 255)%nat ->
  forall fuel i, (length t1 < fuel + i)%nat -> (i <= length t1)%nat -> exists b, same_specials fuel t1 t2 (Z.of_nat i) = Ok b.
Proof.
  intros Hl H255. induction fuel as [|fuel IH]; intros i Hf Hi; [lia|]. cbn [same_specials].
  destruct (Z.ltb_spec (Z.of_nat i) (Z.of_nat (length t1))) as [Hlt|Hge]; [|by exists true].
  rewrite !bget_lookup, Nat2Z.id by lia.
  destruct (lookup_lt_is_Some_2 t1 i ltac:(lia)) as [a1 ->]. destruct (lookup_lt_is_Some_2 t2 i ltac:(lia)) as [a2 ->]. cbn [of_opt].
  destruct (same_special a1 a2); [|by exists false]. rewrite (uint_small 8) by (change (2 ^ 8) with 256; lia).
  replace (Z.of_nat i + 1) with (Z.of_nat (S i)) by lia. apply IH; lia.
Qed.

Lemma same_patt_total p q : few p -> exists b, same_patt p q = Ok b.
Proof.
  unfold few, same_patt. intros H. destruct (_ && _); [|by exists false].
  assert (exists b, (if bool_decide (length (special_table p) = length (special_table q))
    then same_specials 257 (special_table p) (special_table q) 0 else Ok false) = Ok b) as [b Hb].
  { case_bool_decide as E; [|by exists false]. apply (same_specials_total _ _ E H 257 0%nat); lia. }
  destruct (special_table p), (special_table q); by eexists.
Qed.

Lemma find_same_spec cs new fuel : forall h l, chain next cs h l -> (length l <= fuel)%nat ->
  (forall p c, p ∈ l -> cs !! p = Some c -> few (patt c)) ->
  find_same fuel cs h new = Ok None \/
  exists p c, find_same fuel cs h new = Ok (Some p) /\ p ∈ l /\ cs !! p = Some c /\ same_patt (patt c) new = Ok true.
Proof.
  induction fuel as [|fuel IH]; intros h l Hc Hl Hfew; (destruct l as [|p l]; cbn in Hc; [subst h; by left|]); cbn in Hl; [lia|].
  destruct Hc as [-> (c & Hp & Hc)]. cbn [find_same]. rewrite Hp. cbn [of_opt].
  destruct (same_patt_total (patt c) new) as [b Hb]; [apply (Hfew p c); [by left|done]|]. rewrite Hb.
  destruct b; [right; exists p, c; split; [done|]; split; [left|by split]|].
  destruct (IH (next c) l Hc ltac:(lia)) as [->|(q & cq & -> & Hq & Hcq)]; [intros; apply (Hfew p0); [by right|done]|by left|].
  right. exists q, cq. split; [done|]. split; [by right|done].
Qed.

(** ** A trie that holds the patterns [ps] *)
Record rep (ps : list ac_patt) (P D : list word) (own : word -> list nat) (grp : nat -> list nat) (s : ac) : Prop := {
  r_dict : dict P D own;
  r_trie : trie P D own s;
  r_patts : patt <$> cells s = ps;
  r_few : Forall few ps;
  r_depth i c : cells s !! i = Some c -> depth c = key_len (ac_maxdepth s) (pattern (patt c));
  r_own p w : p ∈ own w -> exists c, cells s !! p = Some c /\ w = key_word (take (depth c) (pattern (patt c)));
  r_chain p w : p ∈ own w -> chain next_same (cells s) (Some p) (p :: grp p) /\ NoDup (p :: grp p);
  r_same p w i cp ci : p ∈ own w -> i ∈ grp p -> cells s !! p = Some cp -> cells s !! i = Some ci ->
    same_patt (patt cp) (patt ci) = Ok true;
  r_heads p w q u : p ∈ own w -> q ∈ own u -> p ∉ grp q;
  r_all i : (i < length (cells s))%nat -> exists p w, p ∈ own w /\ i ∈ p :: grp p;
  r_min : 1 <= ac_mindepth s }.

Lemma rep_trie_wf ps P D own grp s : rep ps P D own grp s -> wf P D (nodes s).
Proof.
  intros H. split; [apply (r_dict _ _ _ _ _ _ H)|apply (r_dict _ _ _ _ _ _ H)|apply (r_trie _ _ _ _ _ _ H)|].
  intros n x w c Hx Hw. by apply (tr_kid _ _ _ _ (r_trie _ _ _ _ _ _ H) n x w c).
Qed.

Lemma own_lt ps P D own grp s p w : rep ps P D own grp s -> p ∈ own w -> (p < length (cells s))%nat.
Proof. intros H Hp. destruct (r_own _ _ _ _ _ _ H p w Hp) as (c & Hc & _). by eapply lookup_lt_Some. Qed.

Lemma grp_lt ps P D own grp s p w i : rep ps P D own grp s -> p ∈ own w -> i ∈ p :: grp p -> (i < length (cells s))%nat.
Proof.
  intros H Hp Hi. destruct (r_chain _ _ _ _ _ _ H p w Hp) as [Hc _].
  destruct (chain_lookup _ _ _ _ _ Hc Hi) as [c E]. by eapply lookup_lt_Some.
Qed.

(** The nodes after a walk, with the lists of the patterns so far. *)
Lemma extended_trie ps P D own grp s k P' D' ns' pt' : rep ps P D own grp s ->
  extended P D (nodes s) [] k P' D' ns' pt' -> trie P' D' own (set_nodes s ns').
Proof.
  intros H HE. pose proof (ex_wf _ _ _ _ _ _ _ _ _ HE) as HW. split; cbn; [apply HW|apply HW|].
  intros n x w Hx Hw. rewrite (ex_list _ _ _ _ _ _ _ _ _ HE n x Hx).
  assert (length (nodes s) = length P) as Hlen by apply (r_trie _ _ _ _ _ _ H).
  destruct (nodes s !! n) as [y|] eqn:E; cbn.
  - destruct (lookup_lt_is_Some_2 P n) as [v Hv]; [rewrite <- Hlen; by eapply lookup_lt_Some|].
    pose proof (prefix_lookup_word _ _ _ _ (ex_prefix _ _ _ _ _ _ _ _ _ HE) Hv) as Hv'. rewrite Hw in Hv'. injection Hv' as <-.
    by apply (tr_list _ _ _ _ (r_trie _ _ _ _ _ _ H) n y w).
  - rewrite (d_out _ _ _ (r_dict _ _ _ _ _ _ H) w); [done|]. intros [j Hj]%list_elem_of_lookup.
    pose proof (prefix_lookup_word _ _ _ _ (ex_prefix _ _ _ _ _ _ _ _ _ HE) Hj) as Hj'.
    rewrite (word_inj P' (wf_tree _ _ _ HW) _ _ _ Hw Hj') in E. apply lookup_lt_Some in Hj. apply lookup_ge_None_1 in E. lia.
Qed.

Lemma dict_extend P D own ns k P' D' ns' pt' (own' : word -> list nat) : dict P D own ->
  extended P D ns [] k P' D' ns' pt' -> k <> [] -> (forall u, u <> k -> own' u = own u) -> own' k <> [] -> NoDup (own' k) ->
  (forall p u, p ∈ own' k -> p ∈ own u -> u = k) -> dict P' D' own'.
Proof.
  intros HD HE Hk Hown Hne Hnd Hdisj. pose proof (ex_wf _ _ _ _ _ _ _ _ _ HE) as HW.
  pose proof (ex_target _ _ _ _ _ _ _ _ _ HE) as Ht. cbn in Ht. split; [apply HW|apply HW| | | | |].
  - intros u Hu. assert (u <> k) as Huk by (intros ->; apply Hu; by eapply list_elem_of_lookup_2). rewrite Hown by done.
    apply (d_out _ _ _ HD). intros [j Hj]%list_elem_of_lookup. apply Hu.
    eapply list_elem_of_lookup_2. exact (prefix_lookup_word _ _ _ _ (ex_prefix _ _ _ _ _ _ _ _ _ HE) Hj).
  - rewrite Hown by done. apply (d_nil _ _ _ HD).
  - intros p u v Hu Hv. destruct (decide (u = k)) as [->|Huk], (decide (v = k)) as [->|Hvk]; rewrite ?Hown in * by done.
    + done.
    + symmetry. by eapply Hdisj.
    + by eapply Hdisj.
    + by eapply (d_disj _ _ _ HD).
  - intros u. destruct (decide (u = k)) as [->|Huk]; [done|]. rewrite Hown by done. apply (d_nodup _ _ _ HD).
  - intros u Hu HuD. destruct (decide (u = k)) as [->|Huk]; [done|]. rewrite Hown by done.
    destruct (ex_leaf _ _ _ _ _ _ _ _ _ HE u Hu HuD) as [[Hu1 HuD1]| ->]; [by apply (d_leaf _ _ _ HD)|done].
Qed.

Section Add.
Context (ps : list ac_patt) (P D : list word) (own : word -> list nat) (grp : nat -> list nat) (s : ac).
Context (HR : rep ps P D own grp s) (new : ac_patt) (Hfew : few new).
Context (P' D' : list word) (ns' : list node) (pt' : nat).
Abbreviation len := (key_len (ac_maxdepth s) (pattern new)).
Abbreviation k := (key_word (take len (pattern new))).
Abbreviation id := (length (cells s)).
Context (HE : extended P D (nodes s) [] k P' D' ns' pt') (Hk : k <> []).

Lemma id_fresh p w : p ∈ own w -> p <> id /\ id ∉ p :: grp p.
Proof using HR.
  intros Hp. pose proof (own_lt _ _ _ _ _ _ _ _ HR Hp). split; [lia|]. intros Hi.
  pose proof (grp_lt _ _ _ _ _ _ _ _ _ HR Hp Hi). lia.
Qed.

(** The pattern is the first of its text. *)
Lemma rep_head x : ns' !! pt' = Some x ->
  rep (ps ++ [new]) P' D' (fun u => if decide (u = k) then id :: own u else own u) (fun p => if decide (p = id) then [] else grp p)
    (upd_node (set_cells (set_nodes s ns') (cells s ++ [Cell new (nlist x) None len])) pt' (set_list (Some id))).
Proof using HR Hfew HE Hk.
  intros Hx. pose proof (extended_trie _ _ _ _ _ _ _ _ _ _ _ HR HE) as HTr. pose proof (ex_target _ _ _ _ _ _ _ _ _ HE) as Ht. cbn in Ht.
  assert (forall p w, p ∈ (if decide (w = k) then id :: own w else own w) -> (p = id /\ w = k) \/ (p <> id /\ p ∈ own w)) as Hin.
  { intros p w. destruct (decide (w = k)) as [->|]; [intros [->|Hp]%elem_of_cons; [by left|]|intros Hp]; right; (split; [by eapply id_fresh|done]). }
  assert ((cells s ++ [Cell new (nlist x) None len]) !! id = Some (Cell new (nlist x) None len)) as Hid.
  { rewrite lookup_app_r, Nat.sub_diag by lia. done. }
  split; cbn [upd_node set_nodes set_cells nodes cells ac_maxdepth ac_mindepth].
  - eapply dict_extend; [apply HR|exact HE|done| | | |].
    + intros u Hu. by rewrite decide_False.
    + by rewrite decide_True.
    + rewrite decide_True by done. constructor; [intros Hp; by destruct (id_fresh _ _ Hp)|apply HR].
    + intros p u Hp Hu. destruct (Hin p k Hp) as [[-> _]|[_ Hp']]; [by destruct (id_fresh _ _ Hu)|]. by eapply (d_disj _ _ _ (r_dict _ _ _ _ _ _ HR)).
  - split; cbn.
    + apply shape_alter; [done|]. apply HTr.
    + intros n y w c (y0 & Hy & ->)%lookup_alter_node Hw. rewrite <- (tr_kid _ _ _ _ HTr n y0 w c Hy Hw). by destruct (bool_decide _).
    + intros n y w (y0 & Hy & ->)%lookup_alter_node Hw. pose proof (tr_list _ _ _ _ HTr n y0 w Hy Hw) as Hl. cbn in Hl.
      destruct (decide (n = pt')) as [->|Hne].
      * rewrite Ht in Hw. injection Hw as <-. rewrite Hx in Hy. injection Hy as <-. rewrite bool_decide_true, decide_True by done.
        split; [done|]. eexists. split; [exact Hid|]. by apply chain_snoc.
      * rewrite bool_decide_false, decide_False; [by apply chain_snoc| |done].
        intros ->. by destruct Hne; apply (word_inj P' (wf_tree _ _ _ (ex_wf _ _ _ _ _ _ _ _ _ HE)) _ _ k).
  - rewrite fmap_app. cbn. by rewrite (r_patts _ _ _ _ _ _ HR).
  - apply Forall_app. split; [apply HR|by constructor].
  - intros i c [Hc|[_ Hc]]%lookup_app_Some; [by apply (r_depth _ _ _ _ _ _ HR i)|].
    apply list_lookup_singleton_Some in Hc as [_ <-]. done.
  - intros p w [[-> ->]|[_ Hp]]%Hin.
    + eexists. split; [exact Hid|done].
    + destruct (r_own _ _ _ _ _ _ HR p w Hp) as (c & Hc & E). exists c. split; [|done]. rewrite lookup_app_l; [done|by eapply lookup_lt_Some].
  - intros p w [[-> ->]|[Hne Hp]]%Hin.
    + rewrite decide_True by done. split; [|apply NoDup_singleton]. split; [done|]. eexists. split; [exact Hid|done].
    + rewrite decide_False by done. destruct (r_chain _ _ _ _ _ _ HR p w Hp). split; [by apply chain_snoc|done].
  - intros p w i cp ci [[-> ->]|[Hne Hp]]%Hin; [rewrite decide_True by done; by intros Hi%elem_of_nil|]. rewrite decide_False by done.
    intros Hi Hcp Hci. rewrite lookup_app_l in Hcp by by eapply (own_lt _ _ _ _ _ _ _ _ HR).
    rewrite lookup_app_l in Hci by (eapply (grp_lt _ _ _ _ _ _ _ _ _ HR Hp); by right). by eapply (r_same _ _ _ _ _ _ HR).
  - intros p w q u Hp [[-> ->]|[Hne Hq]]%Hin; [rewrite decide_True by done; apply not_elem_of_nil|]. rewrite decide_False by done.
    apply Hin in Hp as [[-> _]|[_ Hp]]; [|by eapply (r_heads _ _ _ _ _ _ HR)]. intros Hi. destruct (id_fresh _ _ Hq) as [_ Hf]. apply Hf. by right.
  - intros i. rewrite length_app. cbn. intros Hi. destruct (decide (i = id)) as [->|Hne].
    + exists id, k. rewrite !decide_True by done. split; by left.
    + destruct (r_all _ _ _ _ _ _ HR i ltac:(lia)) as (p & w & Hp & Hi'). exists p, w. rewrite (decide_False (P := p = id)) by by eapply id_fresh.
      split; [|done]. destruct (decide (w = k)); [by right|done].
  - apply HR.
Qed.

(** There is one with the same text. *)
Lemma rep_same ph c : ph ∈ own k -> cells s !! ph = Some c -> same_patt (patt c) new = Ok true ->
  rep (ps ++ [new]) P' D' own (fun p => if decide (p = ph) then id :: grp p else grp p)
    (set_cells (set_nodes s ns') (alter (set_next_same (Some id)) ph (cells s) ++ [Cell new None (next_same c) len])).
Proof using HR Hfew HE Hk.
  intros Hph Hc Hsame. pose proof (extended_trie _ _ _ _ _ _ _ _ _ _ _ HR HE) as HTr.
  assert (forall i d, alter (set_next_same (Some id)) ph (cells s) !! i = Some d ->
    exists d0, cells s !! i = Some d0 /\ patt d = patt d0 /\ depth d = depth d0 /\ next d = next d0) as Halt.
  { intros i d. destruct (decide (ph = i)) as [<-|Hne].
    - rewrite list_lookup_alter_eq, Hc. intros [= <-]. by exists c.
    - rewrite list_lookup_alter_ne by done. intros ->. by exists d. }
  assert (forall i d0, cells s !! i = Some d0 -> exists d, (alter (set_next_same (Some id)) ph (cells s) ++ [Cell new None (next_same c) len]) !! i = Some d /\
    patt d = patt d0 /\ depth d = depth d0) as Hold.
  { intros i d0 Hd. rewrite lookup_app_l by (rewrite length_alter; by eapply lookup_lt_Some).
    destruct (decide (ph = i)) as [<-|Hne]; [rewrite list_lookup_alter_eq, Hd; by eexists|rewrite list_lookup_alter_ne by done; by exists d0]. }
  assert (forall i d, (alter (set_next_same (Some id)) ph (cells s) ++ [Cell new None (next_same c) len]) !! i = Some d ->
    (i = id /\ d = Cell new None (next_same c) len) \/ exists d0, cells s !! i = Some d0 /\ patt d = patt d0 /\ depth d = depth d0) as Hnew.
  { intros i d [Hd|[Hge Hd]]%lookup_app_Some; [right; destruct (Halt i d Hd) as (d0 & ? & ? & ? & ?); by exists d0|left].
    rewrite length_alter in *. apply list_lookup_singleton_Some in Hd as [? <-]. split; [lia|done]. }
  split; cbn [set_nodes set_cells nodes cells ac_maxdepth ac_mindepth].
  - eapply dict_extend; [apply HR|exact HE|done|done| |apply HR|].
    + intros E. rewrite E in Hph. by apply elem_of_nil in Hph.
    + intros p u Hp Hu. by eapply (d_disj _ _ _ (r_dict _ _ _ _ _ _ HR)).
  - split; cbn; [apply HTr|apply HTr|]. intros n y w Hy Hw. apply chain_snoc, chain_alter_same; [done|]. by apply (tr_list _ _ _ _ HTr n y w).
  - rewrite fmap_app, <- (r_patts _ _ _ _ _ _ HR). cbn. f_equal. apply list_eq. intros i. rewrite !list_lookup_fmap.
    destruct (decide (ph = i)) as [<-|Hne]; [by rewrite list_lookup_alter_eq, Hc|by rewrite list_lookup_alter_ne].
  - apply Forall_app. split; [apply HR|by constructor].
  - intros i d [[_ ->]|(d0 & Hd & Ep & Ed)]%Hnew; [done|]. rewrite Ed, Ep. by apply (r_depth _ _ _ _ _ _ HR i).
  - intros p w Hp. destruct (r_own _ _ _ _ _ _ HR p w Hp) as (d0 & Hd & E). destruct (Hold p d0 Hd) as (d & Hd' & Ep & Ed).
    exists d. split; [done|]. by rewrite Ep, Ed.
  - intros p w Hp. destruct (r_chain _ _ _ _ _ _ HR p w Hp) as [Hch Hnd]. destruct (decide (p = ph)) as [->|Hne].
    + destruct Hch as [_ (c' & Hc' & Hch)]. rewrite Hc in Hc'. injection Hc' as <-. split.
      * split; [done|]. exists (set_next_same (Some id) c). split; [|split; [done|]].
        { rewrite lookup_app_l by (rewrite length_alter; by eapply lookup_lt_Some). by rewrite list_lookup_alter_eq, Hc. }
        eexists. rewrite lookup_app_r by by rewrite length_alter. rewrite length_alter, Nat.sub_diag. split; [done|]. cbn.
        apply chain_snoc, chain_alter; [|done]. apply NoDup_cons in Hnd. apply Hnd.
      * apply NoDup_cons in Hnd as [Hn1 Hn2]. destruct (id_fresh _ _ Hph) as [Hf1 Hf2]. apply NoDup_cons. split.
        { intros [E|?]%elem_of_cons; done. }
        constructor; [|done]. intros Hi. apply Hf2. by right.
    + split; [|done]. apply chain_snoc, chain_alter; [|done].
      intros [->|Hi]%elem_of_cons; [done|]. by eapply (r_heads _ _ _ _ _ _ HR ph k p w).
  - intros p w i cp ci Hp Hi Hcp Hci. destruct (Hnew p cp Hcp) as [[-> _]|(d0 & Hd & Ep & _)]; [by destruct (id_fresh _ _ Hp)|]. rewrite Ep.
    destruct (decide (p = ph)) as [->|Hne].
    + rewrite Hc in Hd. injection Hd as <-. apply elem_of_cons in Hi as [->|Hi].
      * destruct (Hnew id ci Hci) as [[_ ->]|(d1 & Hd1 & _ & _)]; [done|]. apply lookup_lt_Some in Hd1. lia.
      * destruct (Hnew i ci Hci) as [[-> _]|(d1 & Hd1 & E1 & _)]; [destruct (id_fresh _ _ Hph) as [_ Hf]; destruct Hf; by right|].
        rewrite E1. by eapply (r_same _ _ _ _ _ _ HR).
    + destruct (Hnew i ci Hci) as [[-> _]|(d1 & Hd1 & E1 & _)]; [destruct (id_fresh _ _ Hp) as [_ Hf]; destruct Hf; by right|].
      rewrite E1. by eapply (r_same _ _ _ _ _ _ HR).
  - intros p w q u Hp Hq. destruct (decide (q = ph)) as [->|Hne]; [|by eapply (r_heads _ _ _ _ _ _ HR)].
    intros [->|Hi]%elem_of_cons; [by destruct (id_fresh _ _ Hp)|]. by eapply (r_heads _ _ _ _ _ _ HR p w ph u).
  - intros i. rewrite length_app, length_alter. cbn. intros Hi. destruct (decide (i = id)) as [->|Hne].
    + exists ph, k. rewrite decide_True by done. split; [done|]. right. by left.
    + destruct (r_all _ _ _ _ _ _ HR i ltac:(lia)) as (p & w & Hp & Hi'). exists p, w. split; [done|].
      destruct (decide (p = ph)); [|done]. apply elem_of_cons in Hi' as [->|Hi']; [by left|by right; right].
  - apply HR.
Qed.
End Add.

(** ** [cli_ac_addpatt] *)
Lemma static_len_le n p : (static_len n p <= n)%nat /\ (static_len n p <= length p)%nat.
Proof. revert p. induction n as [|n IH]; intros [|c p]; cbn; [lia..|]. destruct (is_wild c); cbn; [lia|]. specialize (IH p). lia. Qed.

Lemma key_len_le mx p : (key_len mx p <= length p)%nat.
Proof. apply static_len_le. Qed.

Lemma cli_ac_addpatt_spec ps P D own grp s new m : rep ps P D own grp s -> few new ->
  exists r s', cli_ac_addpatt s new m = Ok (r, s') /\
    (r = CL_EMEM \/ (r = CL_EMALFDB /\ s' = s /\ Z.of_nat (key_len (ac_maxdepth s) (pattern new)) < ac_mindepth s) \/
     (r = CL_SUCCESS /\ ac_mindepth s <= Z.of_nat (key_len (ac_maxdepth s) (pattern new)) /\
      ac_mindepth s' = ac_mindepth s /\ ac_maxdepth s' = ac_maxdepth s /\
      exists P' D' own' grp', rep (ps ++ [new]) P' D' own' grp' s')).
Proof.
  intros HR Hnew. unfold cli_ac_addpatt. set (len := key_len (ac_maxdepth s) (pattern new)).
  destruct (Z.ltb_spec (Z.of_nat len) (ac_mindepth s)) as [Hlt|Hge]; [eexists _, _; split; [done|]; right; by left|].
  pose proof (tree_root P (d_tree _ _ _ (r_dict _ _ _ _ _ _ HR))) as H0.
  destruct (descend_spec (take len (pattern new)) (nodes s) 0%nat m P D [] (rep_trie_wf _ _ _ _ _ _ HR) H0)
    as (r & ns' & pt' & m' & -> & H). cbn [of_opt].
  destruct H as [->|[-> (P' & D' & HE)]]; [eexists _, _; split; [done|by left]|]. cbn [Z.eqb CL_SUCCESS negb].
  destruct (alloc m') as [[|] m2]; [|eexists _, _; split; [done|by left]]. cbn [negb].
  assert (key_word (take len (pattern new)) <> []) as Hk.
  { intros E%(f_equal length). unfold key_word in E. rewrite length_fmap, length_take in E. cbn in E.
    pose proof (key_len_le (ac_maxdepth s) (pattern new)) as Hkl. fold len in Hkl. pose proof (r_min _ _ _ _ _ _ HR). lia. }
  pose proof (ex_wf _ _ _ _ _ _ _ _ _ HE) as HW. pose proof (ex_target _ _ _ _ _ _ _ _ _ HE) as Ht. cbn in Ht.
  destruct (shape_node P' D' ns' pt' _ (wf_shape _ _ _ HW) Ht) as [x Hx]. unfold link. cbn [set_nodes nodes cells]. rewrite Hx. cbn [of_opt].
  pose proof (tr_list _ _ _ _ (extended_trie _ _ _ _ _ _ _ _ _ _ _ HR HE) pt' x _ Hx Ht) as Hl. cbn in Hl.
  pose proof (chain_length _ _ _ _ Hl (d_nodup _ _ _ (r_dict _ _ _ _ _ _ HR) _)) as Hlen.
  destruct (find_same_spec (cells s) new (S (length (cells s))) (nlist x) _ Hl ltac:(lia)) as [->|(ph & c & -> & Hph & Hc & Hsame)].
  - intros p c Hp Hc. pose proof (r_few _ _ _ _ _ _ HR) as Hf. rewrite <- (r_patts _ _ _ _ _ _ HR), Forall_fmap in Hf.
    by eapply Forall_lookup_1 in Hf.
  - eexists _, _. split; [done|]. right. right. split; [done|]. split; [done|]. split; [done|]. split; [done|].
    eexists _, _, _, _. by apply (rep_head _ _ _ _ _ _ HR new Hnew P' D' ns' pt' HE Hk).
  - rewrite Hc. cbn [of_opt]. eexists _, _. split; [done|]. right. right. split; [done|]. split; [done|]. split; [done|]. split; [done|].
    eexists _, _, _, _. by apply (rep_same _ _ _ _ _ _ HR new Hnew P' D' ns' pt' HE Hk).
Qed.

(** A matcher that was initialised and to which patterns were added; patterns that
    are too short are refused. *)
Inductive loaded (mindepth maxdepth : Z) : list ac_patt -> ac -> Prop :=
| loaded_init m s : cli_ac_init mindepth maxdepth m = (CL_SUCCESS, Some s) -> loaded mindepth maxdepth [] s
| loaded_add ps s p m s' : loaded mindepth maxdepth ps s -> few p ->
    cli_ac_addpatt s p m = Ok (CL_SUCCESS, s') -> loaded mindepth maxdepth (ps ++ [p]) s'
| loaded_skip ps s p m s' : loaded mindepth maxdepth ps s -> few p ->
    cli_ac_addpatt s p m = Ok (CL_EMALFDB, s') -> loaded mindepth maxdepth ps s'.

Lemma rep_init mindepth maxdepth : 1 <= mindepth ->
  rep [] [[]] [[]] (fun _ => []) (fun _ => []) (MkAc [Node None (Some ∅) None] [] mindepth maxdepth).
Proof.
  intros Hmin. split; cbn; try done; try (intros; by match goal with H : _ ∈ [] |- _ => apply elem_of_nil in H end).
  - split; try done.
    + split; [done|apply NoDup_singleton| |]; intros w c E%list_elem_of_singleton; by destruct w.
    + split; [by left|by left|done|]. intros w c E%list_elem_of_singleton; by destruct w.
    + intros p w v H. by apply elem_of_nil in H.
    + intros w. constructor.
  - split; cbn.
    + split; [done|]. intros [|n] x w [= <-] [= <-]. split; [done|]. by left.
    + intros [|n] x w c [= <-] [= <-]. unfold kid. cbn. rewrite lookup_empty. symmetry. unfold idx. cbn. done.
    + intros [|n] x w [= <-] [= <-]. done.
  - lia.
Qed.

Lemma loaded_rep mindepth maxdepth ps s : 1 <= mindepth -> loaded mindepth maxdepth ps s ->
  ac_mindepth s = mindepth /\ ac_maxdepth s = maxdepth /\ exists P D own grp, rep ps P D own grp s.
Proof.
  intros Hmin. induction 1 as [m s E|ps s p m s' _ (<- & <- & P & D & own & grp & HR) Hp E|ps s p m s' _ IH Hp E].
  - unfold cli_ac_init in E. destruct (alloc m) as [[|] m1]; [|done]. cbn in E. destruct (alloc m1) as [[|] m2]; [|done]. cbn in E.
    injection E as <-. split; [done|]. split; [done|]. eexists _, _, _, _. by apply rep_init.
  - destruct (cli_ac_addpatt_spec _ _ _ _ _ _ p m HR Hp) as (r & s2 & E' & H). rewrite E in E'. injection E' as <- <-.
    destruct H as [?|[[? _]|(_ & _ & E1 & E2 & H)]]; [done|done|]. rewrite E1, E2. by split.
  - destruct IH as (<- & <- & P & D & own & grp & HR).
    destruct (cli_ac_addpatt_spec _ _ _ _ _ _ p m HR Hp) as (r & s2 & E' & H). rewrite E in E'. injection E' as <- <-.
    destruct H as [?|[(_ & -> & _)|[? _]]]; [done| |done]. split; [done|]. split; [done|]. by exists P, D, own, grp.
Qed.

End AcAdd.
