(* ===== verification/AcSearch.v ===== *)
(** * What a scan with the Aho-Corasick matcher finds

    Plain patterns are virus signatures of static characters, nibbles and bytes
    that are ignored, at any position or at absolute offsets.  For them
    [ac_findmatch] compares character by character, and a scan goes through all
    patterns whose first characters end at the byte just read. *)
From stdpp Require Import base numbers list list_numbers gmap.
From Stdlib Require Import ZArith Lia Bool.
From S2P Require Import Prelude Dlp Hashset CalOff Ac AcWords AcBfs AcChain AcBuild AcTrans AcAdd AcMatch AcScan.

Local Open Scope Z_scope.

Module AcSearch.
Import Errors CalOff Ac AcWords AcBfs AcChain AcBuild AcTrans AcAdd AcMatch AcScan.

(** ** Characters and texts *)

(** The bytes a character of a pattern stands for. *)
Definition char_ok (c b : Z) : bool :=
  let wc := Z.land c CLI_MATCH_WILDCARD in
  if wc =? CLI_MATCH_CHAR then uint 8 c =? b
  else if wc =? CLI_MATCH_IGNORE then true
  else if wc =? CLI_MATCH_NIBBLE_HIGH then Z.land c 0xf0 =? Z.land b 0xf0
  else if wc =? CLI_MATCH_NIBBLE_LOW then Z.land c 0x0f =? Z.land b 0x0f
  else false.

Definition no_special (c : Z) : Prop := Z.land c CLI_MATCH_WILDCARD <> CLI_MATCH_SPECIAL.

(** The characters stand in the buffer at the position [k]. *)
Fixpoint text_match (buffer : list Z) (k : Z) (chars : list Z) : bool :=
  match chars with
  | [] => true
  | c :: chars => match bget buffer k with Some b => char_ok c b | None => false end && text_match buffer (k + 1) chars
  end.

Lemma text_match_app buffer k l1 l2 :
  text_match buffer k (l1 ++ l2) = text_match buffer k l1 && text_match buffer (k + Z.of_nat (length l1)) l2.
Proof.
  revert k. induction l1 as [|c l1 IH]; intros k; cbn [text_match app length]; [by replace (k + Z.of_nat 0) with k by lia|].
  rewrite IH, andb_assoc. do 2 f_equal. lia.
Qed.

Lemma text_match_bound buffer k l : text_match buffer k l = true -> l <> [] ->
  0 <= k /\ k + Z.of_nat (length l) <= Z.of_nat (length buffer).
Proof.
  revert k. induction l as [|c l IH]; intros k H Hne; [done|]. cbn in H. apply andb_true_iff in H as [Hb H].
  destruct (bget buffer k) as [b|] eqn:E; [|done]. apply bget_Some in E. destruct l as [|d l]; [cbn; lia|].
  apply IH in H; [|done]. cbn in *. lia.
Qed.

Lemma match_char_plain buffer len tab c b bp cnt : no_special c -> match_char buffer len tab c b bp cnt = Some (char_ok c b, bp, cnt).
Proof.
  intros Hc. unfold match_char, char_ok. cbv zeta. unfold no_special in Hc.
  destruct (_ =? CLI_MATCH_CHAR); [done|]. destruct (_ =? CLI_MATCH_IGNORE); [done|].
  destruct (Z.eqb_spec (Z.land c CLI_MATCH_WILDCARD) CLI_MATCH_SPECIAL); [done|].
  destruct (_ =? CLI_MATCH_NIBBLE_HIGH); [done|]. by destruct (_ =? CLI_MATCH_NIBBLE_LOW).
Qed.

Lemma match_loop_plain buffer checked tab chars : forall k cnt, Forall no_special chars -> 0 <= k ->
  k + Z.of_nat (length chars) <= Z.of_nat (length buffer) ->
  match_loop buffer (Z.of_nat (length buffer)) checked tab chars k cnt =
  Some (if text_match buffer k chars then Some (k + Z.of_nat (length chars), cnt) else None).
Proof.
  induction chars as [|c chars IH]; intros k cnt HF Hk Hl; cbn [match_loop text_match length].
  - by replace (k + Z.of_nat 0) with k by lia.
  - apply Forall_cons in HF as [Hc HF]. cbn [length] in Hl.
    assert (negb checked || (k <? Z.of_nat (length buffer)) = true) as -> by (rewrite orb_true_iff; right; lia).
    destruct (bget_is_Some buffer k ltac:(lia)) as [b Hb]. rewrite Hb, match_char_plain by done.
    destruct (char_ok c b); cbn [andb]; [|done]. rewrite IH by (done || lia). by replace (k + 1 + Z.of_nat (length chars)) with (k + Z.of_nat (S (length chars))) by lia.
Qed.

(** ** Plain patterns *)
Record plain (p : ac_patt) : Prop := {
  pl_chars : Forall no_special (default [] (prefix p) ++ pattern p);
  pl_table : special_table p = [];
  pl_virus : type p = 0 /\ sigid p = 0 /\ lsigid p = None;
  pl_boundary : boundary p = 0;
  pl_ch : is_ignore (fst (ch p)) = true /\ is_ignore (snd (ch p)) = true;
  pl_offset : offset_min p = CLI_OFF_ANY \/ od0 (off_data p) = CLI_OFF_ABSOLUTE;
  pl_kind : od0 (off_data p) <> CLI_OFF_VERSION /\ od0 (off_data p) <> CLI_OFF_MACRO;
  pl_length : length_ p < 65536 }.

(** The text of a pattern, and the offsets it may have. *)
Definition text_of (p : ac_patt) : list Z := default [] (prefix p) ++ pattern p.

Definition offset_fits (p : ac_patt) (off : Z) : bool :=
  (offset_min p =? CLI_OFF_ANY) ||
  (negb (offset_min p =? CLI_OFF_NONE) && (offset_min p <=? off) && (off <=? offset_max p)).

Section Buffer.
Context (buffer : list Z).
Abbreviation len := (Z.of_nat (length buffer)).
Context (Hlen : len <= 2 ^ 31).

(** A pattern stands at [bp] behind its prefix. *)
Definition stands (p : ac_patt) (d : nat) (bp : Z) : bool :=
  (bp + length_ p <=? len) && (prefix_length p <=? bp) &&
  text_match buffer (bp + Z.of_nat d) (drop d (pattern p)) && text_match buffer (bp - prefix_length p) (default [] (prefix p)).

Lemma ac_findmatch_plain c bp fo : plain (patt c) -> 0 <= bp -> bp <= len -> (depth c <= length (pattern (patt c)))%nat ->
  exists e, ac_findmatch buffer len c bp fo = Some (if stands (patt c) (depth c) bp then Some e else None).
Proof using Hlen.
  intros [Hch Htab Hv Hbd [Hc0 Hc1] Hoff Hkind Hplen] Hbp Hbl Hd. destruct c as [p nx ns d]. cbn [patt depth] in *.
  set (q := p) in *. apply Forall_app in Hch as [Hpre Hpat]. unfold ac_findmatch, stands. cbn [patt depth].
  fold q. change (2 ^ 31) with 2147483648 in Hlen. unfold length_ in *.
  rewrite uint_small by (change (2 ^ 32) with 4294967296; lia).
  exists (bp + Z.of_nat (length (pattern q))).
  destruct (Z.ltb_spec len (bp + Z.of_nat (length (pattern q)))), (Z.leb_spec (bp + Z.of_nat (length (pattern q))) len); try lia; cbn [orb andb]; [done|].
  destruct (Z.ltb_spec bp (prefix_length q)), (Z.leb_spec (prefix_length q) bp); try lia; cbn [orb andb]; [done|].
  rewrite uint_small by (change (2 ^ 32) with 4294967296; lia).
  rewrite match_loop_plain; [|by apply Forall_drop|lia|rewrite length_drop; lia].
  destruct (text_match buffer (bp + Z.of_nat d) (drop d (pattern q))); cbn [andb]; [|done].
  unfold markers, marker_ok. rewrite Hbd, Z.land_0_l. cbn [Z.eqb negb]. rewrite Hc1. cbn [negb].
  rewrite Hc0. unfold prefix_length in *. rewrite length_drop.
  replace (bp + Z.of_nat d + Z.of_nat (length (pattern q) - d)) with (bp + Z.of_nat (length (pattern q))) by lia.
  destruct (prefix q) as [pre|] eqn:Epre; cbn [default from_option length] in *; unfold id in *.
  - rewrite match_loop_plain; [|done|lia|lia]. by destruct (text_match buffer _ pre).
  - done.
Qed.
End Buffer.

(** ** Runs of the automaton *)

(** A step of the automaton: the node reached and the state for the next byte. *)
Definition visit (s : ac) (current : nat) (b : Z) : option (node * nat) :=
  let* x := nodes s !! current in
  let* t := trans x in
  let* cur := t !! b in
  let* y := nodes s !! cur in
  if IS_FINAL y && IS_LEAF y then let* f := fail y in Some (y, f) else Some (y, cur).

Lemma visit_spec P D own s0 s cur t b : dict P D own -> automaton P D own s0 s -> P !! cur = Some (lsuf D t) -> 0 <= b < 256 ->
  exists y cur', visit s cur b = Some (y, cur') /\ chain next (cells s) (nlist y) (full own (t ++ [b])) /\ P !! cur' = Some (lsuf D (t ++ [b])).
Proof.
  intros HD HA Hcur Hb. pose proof (d_branch _ _ _ HD) as HB.
  destruct (shape_node P D _ _ _ (a_shape _ _ _ _ _ HA) Hcur) as [x Hx]. unfold visit. rewrite Hx.
  destruct (a_trans _ _ _ _ _ HA cur x _ b Hx Hcur (lsuf_in D (nil_D _ _ HB) t) Hb) as (n & Hk & Hn). unfold kid in Hk.
  destruct (trans x) as [tr|]; [|done]. cbn in Hk. rewrite Hk. rewrite (lsuf_step_D P D HB) in Hn.
  destruct (shape_node P D _ _ _ (a_shape _ _ _ _ _ HA) Hn) as [y Hy]. rewrite Hy.
  pose proof (a_list _ _ _ _ _ HA n y _ Hy Hn) as Hl. rewrite (full_lsuf own P _ (d_out _ _ _ HD)) in Hl.
  pose proof (lsuf_sub P D HB (t ++ [b])) as Esub. set (w := lsuf P (t ++ [b])) in *.
  destruct (decide (w ∈ D)) as [HwD|HwD].
  - rewrite (proj1 (sh_leaf _ _ _ (a_shape _ _ _ _ _ HA) n y w Hy Hn) HwD), andb_false_r. exists y, n. split; [done|]. split; [done|].
    by rewrite <- Esub, lsuf_id.
  - destruct (IS_LEAF y) eqn:El; [|by rewrite (sh_leaf _ _ _ (a_shape _ _ _ _ _ HA) n y w Hy Hn) in HwD].
    assert (IS_FINAL y = true) as ->.
    { pose proof (a_list _ _ _ _ _ HA n y w Hy Hn) as Hlw. apply bool_decide_eq_true. destruct (nlist y) as [p|]; [by exists p|]. exfalso.
      apply (d_leaf _ _ _ HD w); [by eapply list_elem_of_lookup_2|done|].
      destruct w; cbn [full] in Hlw; (destruct (own _); [done|by destruct Hlw]). }
    destruct (a_fail _ _ _ _ _ HA n y w Hy Hn HwD) as (f & Hf & Hfw). cbn [andb]. rewrite Hf. exists y, f. split; [done|]. split; [done|].
    rewrite Hfw, <- Esub. f_equal. symmetry. apply lsuf_tail; [apply HB|done].
Qed.

(** The run over a text: the node its last byte leads to. *)
Fixpoint run (s : ac) (cur : nat) (t : list Z) : option (node * nat) :=
  match t with
  | [] => let* x := nodes s !! cur in Some (x, cur)
  | [b] => visit s cur b
  | b :: t => let* (_, cur) := visit s cur b in run s cur t
  end.

Lemma run_spec P D own s0 s t1 t2 cur : dict P D own -> automaton P D own s0 s -> P !! cur = Some (lsuf D t1) ->
  Forall (fun b => 0 <= b < 256) t2 -> t2 <> [] ->
  exists x cur', run s cur t2 = Some (x, cur') /\ chain next (cells s) (nlist x) (full own (t1 ++ t2)) /\ P !! cur' = Some (lsuf D (t1 ++ t2)).
Proof.
  intros HD HA. revert t1 cur. induction t2 as [|b t2 IH]; intros t1 cur Hcur HF Hne; [done|]. apply Forall_cons in HF as [Hb HF].
  destruct (visit_spec P D own s0 s cur t1 b HD HA Hcur Hb) as (y & cur' & Hv & Hl & Hc). destruct t2 as [|b2 t2]; [by exists y, cur'|].
  cbn [run]. rewrite Hv. destruct (IH (t1 ++ [b]) cur' Hc HF) as (x & cur2 & E & Hl2 & Hc2); [done|]. exists x, cur2.
  rewrite <- app_assoc in Hl2, Hc2. done.
Qed.

(** The loop of [cli_ac_scanbuff] makes the steps of the automaton. *)
Lemma scan_loop_visit root mp mf buffer len offset ftype mode n st cur i b x cur' :
  bget buffer i = Some b -> visit root cur b = Some (x, cur') ->
  scan_loop root mp mf buffer len offset ftype mode (S n) st cur i =
  let! (st, r) := patt_loop root mp mf buffer len offset ftype mode (S (length (cells root))) st (nlist x) i in
  match r with
  | Some r => Ok (st, Some r)
  | None => scan_loop root mp mf buffer len offset ftype mode n st cur' (i + 1)
  end.
Proof.
  intros Hb Hv. cbn [scan_loop]. rewrite Hb. cbn [of_opt]. unfold visit in Hv.
  destruct (nodes root !! cur) as [y|]; [|done]. cbn [of_opt]. destruct (trans y) as [t|]; [|done]. cbn [of_opt].
  destruct (t !! b) as [c|]; [|done]. cbn [of_opt]. destruct (nodes root !! c) as [z|]; [|done]. cbn [of_opt].
  destruct (IS_FINAL z) eqn:Ef; cbn [andb] in Hv.
  - destruct (IS_LEAF z); [destruct (fail z) as [f|]; [|done]|]; injection Hv as <- <-; reflexivity.
  - injection Hv as <- <-. apply bool_decide_eq_false in Ef. destruct (nlist z) as [p|]; [by destruct Ef; exists p|]. reflexivity.
Qed.

(** ** Patterns in the lists of a node *)
Section Patterns.
Context (root : ac) (mp : list (option (list Z))) (mf : option Z).
Context (buffer : list Z) (offset ftype mode : Z).
Abbreviation len := (Z.of_nat (length buffer)).
Context (Hlen : len <= 2 ^ 31) (Hoff : 0 <= offset /\ offset + len < 2 ^ 32).
Context (Hmode : Z.land mode AC_SCAN_VIR <> 0).
Context (st : scan) (Hres : results st = None).

Definition real_offset (c : cell) (i : Z) : Z := offset + (i + 1 - Z.of_nat (depth c)) - prefix_length (patt c).

(** The pattern of the cell stands where the byte [i] is the last of its key, at an
    offset it may have. *)
Definition hit (c : cell) (i : Z) : bool :=
  stands buffer (patt c) (depth c) (i + 1 - Z.of_nat (depth c)) && offset_fits (patt c) (real_offset c i).

Lemma offset_ok_plain p off : plain p -> offset_min p <> CLI_OFF_ANY -> offset_ok (md st) p off = Some (offset_fits p off).
Proof using.
  clear Hlen Hoff.
  intros Hp Hany. unfold offset_ok, offset_fits. destruct (Z.eqb_spec (offset_min p) CLI_OFF_ANY); [done|]. cbn [orb].
  destruct (pl_offset _ Hp) as [?| ->]; [done|]. destruct (offset_min p =? CLI_OFF_NONE); [done|]. cbn [negb andb]. rewrite Z.eqb_refl. f_equal.
  destruct (Z.ltb_spec (offset_max p) off), (Z.leb_spec off (offset_max p)); try lia;
    destruct (Z.ltb_spec off (offset_min p)), (Z.leb_spec (offset_min p) off); cbn; lia.
Qed.

Lemma take_match_plain head id p bp e : plain p ->
  take_match root mp mf offset ftype mode st head id p bp e =
  Ok (st, if offset_fits p (uint 32 (offset + bp - prefix_length p)) then Some (CL_VIRUS, Some id) else None).
Proof using Hmode Hres.
  clear Hlen Hoff.
  intros Hp. destruct (pl_virus _ Hp) as (Ht & Hs & Hl). destruct (pl_kind _ Hp) as [Hv Hm]. unfold take_match. rewrite Ht, Hs.
  cbn [Z.eqb negb andb orb]. destruct (Z.eqb_spec (Z.land mode AC_SCAN_VIR) 0); [done|].
  set (off := uint 32 (offset + bp - prefix_length p)).
  destruct (Z.eqb_spec (od0 (off_data p)) CLI_OFF_VERSION); [done|]. destruct (Z.eqb_spec (od0 (off_data p)) CLI_OFF_MACRO); [done|].
  unfold has_offset. rewrite Hs. cbn [Z.eqb orb]. rewrite andb_true_r. unfold take_virus. rewrite Hl, Hres.
  destruct (Z.eqb_spec (offset_min p) CLI_OFF_ANY) as [E|E]; cbn [negb].
  - cbn [of_opt]. unfold offset_fits. by rewrite E, Z.eqb_refl.
  - rewrite offset_ok_plain by done. cbn [of_opt]. by destruct (offset_fits p off).
Qed.

(** The cells a loop goes through hold plain patterns. *)
Definition all_plain (l : list nat) : Prop := forall id, id ∈ l -> exists c, cells root !! id = Some c /\ plain (patt c).

Lemma same_loop_plain head bp e fuel : forall pt l, chain next_same (cells root) pt l -> all_plain l -> (length l <= fuel)%nat ->
  exists r, same_loop root mp mf offset ftype mode fuel st head pt bp e = Ok (st, r) /\
    ((r = None /\ forall id c, id ∈ l -> cells root !! id = Some c -> offset_fits (patt c) (uint 32 (offset + bp - prefix_length (patt c))) = false) \/
     exists id c, r = Some (CL_VIRUS, Some id) /\ id ∈ l /\ cells root !! id = Some c /\
       offset_fits (patt c) (uint 32 (offset + bp - prefix_length (patt c))) = true).
Proof using Hmode Hres.
  clear Hlen Hoff.
  induction fuel as [|fuel IH]; intros pt l Hc Hp Hf; (destruct l as [|id l]; cbn in Hc; [subst pt; exists None; split; [done|left]; split; [done|]; intros ? ? H; by apply elem_of_nil in H|]); cbn in Hf; [lia|].
  destruct Hc as [-> (c & Hid & Hc)]. cbn [same_loop]. rewrite Hid. cbn [of_opt].
  destruct (Hp id ltac:(left)) as (c' & Hid' & Hpl). rewrite Hid in Hid'. injection Hid' as <-. rewrite take_match_plain by done.
  destruct (offset_fits _ _) eqn:E.
  - eexists. split; [done|]. right. exists id, c. split; [done|]. split; [left|done].
  - destruct (IH (next_same c) l Hc) as (r & -> & H); [intros k Hk; apply Hp; by right|lia|]. exists r. split; [done|].
    destruct H as [[-> H]|(id2 & c2 & -> & Hid2 & Hc2)]; [left|right; exists id2, c2; split; [done|]; split; [by right|done]].
    split; [done|]. intros id2 c2 [->|Hid2]%elem_of_cons Hc2; [by rewrite Hid in Hc2; injection Hc2 as <-|by apply (H id2)].
Qed.

(** The patterns behind the head [h] of a list have its text. *)
Record group_ok (h : nat) (g : list nat) (c : cell) : Prop := {
  g_cell : cells root !! h = Some c;
  g_chain : chain next_same (cells root) (Some h) (h :: g);
  g_nodup : NoDup (h :: g);
  g_plain : all_plain (h :: g);
  g_text id ci : id ∈ g -> cells root !! id = Some ci ->
    pattern (patt ci) = pattern (patt c) /\ default [] (prefix (patt ci)) = default [] (prefix (patt c)) /\ depth ci = depth c }.

Lemma group_stands h g c id ci i : group_ok h g c -> id ∈ h :: g -> cells root !! id = Some ci ->
  depth ci = depth c /\ prefix_length (patt ci) = prefix_length (patt c) /\
  stands buffer (patt ci) (depth ci) i = stands buffer (patt c) (depth c) i.
Proof.
  intros HG [->|Hid]%elem_of_cons Hci; [rewrite (g_cell _ _ _ HG) in Hci; by injection Hci as <-|].
  destruct (g_text _ _ _ HG id ci Hid Hci) as (E1 & E2 & E3). unfold stands, prefix_length, length_. by rewrite E1, E2, E3.
Qed.

Lemma stands_prefix p d bp : stands buffer p d bp = true -> prefix_length p <= bp.
Proof. unfold stands. rewrite !andb_true_iff. lia. Qed.

(** The offset that is computed with 32 bits. *)
Lemma real_offset_uint c i : 0 <= i < len -> Z.of_nat (depth c) <= i + 1 ->
  prefix_length (patt c) <= i + 1 - Z.of_nat (depth c) ->
  uint 32 (offset + uint 32 (i + 1 - Z.of_nat (depth c)) - prefix_length (patt c)) = real_offset c i.
Proof using Hoff Hlen.
  intros Hi Hd Hp. change (2 ^ 31) with 2147483648 in Hlen. change (2 ^ 32) with 4294967296 in Hoff. unfold real_offset, prefix_length in *.
  rewrite (uint_small 32 (i + 1 - _)) by (change (2 ^ 32) with 4294967296; lia). apply uint_small. change (2 ^ 32) with 4294967296. lia.
Qed.

(** The test before the comparison rejects only what cannot be a hit. *)
Lemma skip_early_plain h g c i : group_ok h g c -> 0 <= i < len -> Z.of_nat (depth c) <= i + 1 ->
  exists b, skip_early offset (md st) c (uint 32 (i + 1 - Z.of_nat (depth c))) = Some b /\
    (b = true -> forall id ci, id ∈ h :: g -> cells root !! id = Some ci -> hit ci i = false).
Proof using Hoff Hlen.
  intros HG Hi Hd. destruct (g_plain _ _ _ HG h ltac:(left)) as (c' & Hc & Hpl). rewrite (g_cell _ _ _ HG) in Hc. injection Hc as <-.
  destruct (pl_kind _ Hpl) as [Hv Hm]. destruct (pl_virus _ Hpl) as (_ & Hs & _). unfold skip_early.
  destruct (Z.eqb_spec (od0 (off_data (patt c))) CLI_OFF_VERSION), (Z.eqb_spec (od0 (off_data (patt c))) CLI_OFF_MACRO); try done. cbn [negb andb].
  case_bool_decide as Hns; cbn [andb]; [|by exists false]. unfold has_offset. rewrite Hs. cbn [Z.eqb orb]. rewrite andb_true_r.
  destruct (Z.eqb_spec (offset_min (patt c)) CLI_OFF_ANY) as [|Hany]; cbn [negb]; [by exists false|].
  rewrite offset_ok_plain by done. eexists. split; [done|]. intros Hfit%negb_true_iff id ci Hid Hci.
  assert (g = []) as ->.
  { pose proof (g_chain _ _ _ HG) as (_ & c2 & Hc2 & Hch). rewrite (g_cell _ _ _ HG) in Hc2. injection Hc2 as <-. rewrite Hns in Hch.
    destruct g; [done|by destruct Hch]. }
  apply list_elem_of_singleton in Hid as ->. rewrite (g_cell _ _ _ HG) in Hci. injection Hci as <-. unfold hit.
  destruct (stands buffer (patt c) (depth c) (i + 1 - Z.of_nat (depth c))) eqn:E; [|done]. apply stands_prefix in E.
  by rewrite real_offset_uint in Hfit.
Qed.

Lemma patt_loop_plain (grp : nat -> list nat) i fuel : 0 <= i < len -> forall p l, chain next (cells root) p l -> (length l <= fuel)%nat ->
  (forall h, h ∈ l -> exists c, group_ok h (grp h) c /\ Z.of_nat (depth c) <= i + 1 /\ (depth c <= length (pattern (patt c)))%nat) ->
  exists r, patt_loop root mp mf buffer len offset ftype mode fuel st p i = Ok (st, r) /\
    ((r = None /\ forall h id ci, h ∈ l -> id ∈ h :: grp h -> cells root !! id = Some ci -> hit ci i = false) \/
     exists h id ci, r = Some (CL_VIRUS, Some id) /\ h ∈ l /\ id ∈ h :: grp h /\ cells root !! id = Some ci /\ hit ci i = true).
Proof using Hmode Hres Hoff Hlen.
  intros Hi. induction fuel as [|fuel IH]; intros p l Hc Hf HG; (destruct l as [|h l]; cbn in Hc;
    [subst p; exists None; split; [done|left]; split; [done|]; intros ? ? ? H; by apply elem_of_nil in H|]); cbn in Hf; [lia|].
  destruct Hc as [-> (c & Hh & Hc)]. cbn [patt_loop]. rewrite Hh. cbn [of_opt].
  destruct (HG h ltac:(left)) as (c' & Hgrp & Hd & Hdl). pose proof (g_cell _ _ _ Hgrp) as Hh'. rewrite Hh in Hh'. injection Hh' as <-.
  destruct (IH (next c) l Hc ltac:(lia)) as (r & Er & Hr); [intros k Hk; apply HG; by right|].
  assert (forall q, (forall id ci, id ∈ h :: grp h -> cells root !! id = Some ci -> hit ci i = false) -> q = Ok (st, r) ->
    exists r, q = Ok (st, r) /\
    ((r = None /\ forall h0 id ci, h0 ∈ h :: l -> id ∈ h0 :: grp h0 -> cells root !! id = Some ci -> hit ci i = false) \/
     exists h0 id ci, r = Some (CL_VIRUS, Some id) /\ h0 ∈ h :: l /\ id ∈ h0 :: grp h0 /\ cells root !! id = Some ci /\ hit ci i = true)) as Hgo.
  { intros q Hno ->. exists r. split; [done|]. destruct Hr as [[-> Hr]|(h0 & id & ci & -> & Hh0 & Hr)]; [left|right].
    - split; [done|]. intros h0 id ci [->|Hh0]%elem_of_cons; [by apply Hno|by apply Hr].
    - exists h0, id, ci. split; [done|]. split; [by right|done]. }
  destruct (skip_early_plain h (grp h) c i Hgrp Hi Hd) as (b & -> & Hskip). cbn [of_opt].
  destruct b; [apply Hgo; [by apply Hskip|done]|].
  pose proof Hlen as Hlen'. change (2 ^ 31) with 2147483648 in Hlen'.
  assert (uint 32 (i + 1 - Z.of_nat (depth c)) = i + 1 - Z.of_nat (depth c)) as Ebp by (apply uint_small; change (2 ^ 32) with 4294967296; lia).
  destruct (g_plain _ _ _ Hgrp h ltac:(left)) as (c' & Hc' & Hpl). rewrite Hh in Hc'. injection Hc' as <-.
  destruct (ac_findmatch_plain buffer Hlen c (i + 1 - Z.of_nat (depth c)) (uint 32 (offset + uint 32 (i + 1 - Z.of_nat (depth c)) - prefix_length (patt c))) Hpl
    ltac:(lia) ltac:(lia) Hdl) as (e & Ef). rewrite Ebp in Ef |- *. rewrite Ef. cbn [of_opt].
  destruct (stands buffer (patt c) (depth c) (i + 1 - Z.of_nat (depth c))) eqn:Est.
  - pose proof (chain_length _ _ _ _ (g_chain _ _ _ Hgrp) (g_nodup _ _ _ Hgrp)) as Hgl.
    destruct (same_loop_plain (patt c) (i + 1 - Z.of_nat (depth c)) e (S (length (cells root))) (Some h) _ (g_chain _ _ _ Hgrp) (g_plain _ _ _ Hgrp) ltac:(lia))
      as (r' & Es & Hs). rewrite Es. pose proof (stands_prefix _ _ _ Est) as Hpre.
    assert (forall id ci, id ∈ h :: grp h -> cells root !! id = Some ci ->
      hit ci i = offset_fits (patt ci) (uint 32 (offset + (i + 1 - Z.of_nat (depth c)) - prefix_length (patt ci)))) as Hhit.
    { intros id ci Hid Hci. destruct (group_stands h (grp h) c id ci (i + 1 - Z.of_nat (depth ci)) Hgrp Hid Hci) as (E1 & E2 & E3).
      unfold hit. rewrite E3, E1, Est. cbn [andb]. f_equal. rewrite <- (real_offset_uint ci i) by (rewrite ?E1, ?E2; done). by rewrite E1, Ebp. }
    destruct Hs as [[-> Hs]|(id & ci & -> & Hid & Hci & Hfit)].
    + apply Hgo; [|done]. intros id ci Hid Hci. rewrite (Hhit id ci Hid Hci). by apply (Hs id).
    + eexists. split; [done|]. right. exists h, id, ci. split; [done|]. split; [left|]. split; [done|]. split; [done|]. by rewrite (Hhit id ci).
  - apply Hgo; [|done]. intros id ci Hid Hci. destruct (group_stands h (grp h) c id ci (i + 1 - Z.of_nat (depth ci)) Hgrp Hid Hci) as (E1 & _ & E3).
    unfold hit. by rewrite E3, E1, Est.
Qed.

End Patterns.

End AcSearch.
