(* ===== verification/AcProps.v ===== *)
(** * Properties of the Aho-Corasick matcher

    The automaton that is built from any patterns recognises their keys, and a scan
    for plain patterns is an exact search. *)
From stdpp Require Import base numbers list list_numbers gmap.
From Stdlib Require Import ZArith Lia Bool.
From S2P Require Import Prelude Dlp Hashset CalOff Ac AcWords AcBfs AcChain AcBuild AcTrans AcAdd AcMatch AcScan AcSearch.

Local Open Scope Z_scope.

Module AcProps.
Import Errors CalOff Ac AcWords AcBfs AcChain AcBuild AcTrans AcAdd AcMatch AcScan AcSearch.

#[local] Opaque bytes256.

(** The characters by which a pattern is entered. *)
Definition key_of (maxdepth : Z) (p : ac_patt) : word := key_word (take (key_len maxdepth (pattern p)) (pattern p)).

(** ** Keys and the text read *)
Lemma char_ok_static c b : is_wild c = false -> char_ok c b = (Z.land c 0xff =? b).
Proof.
  unfold is_wild, char_ok. intros H. apply negb_false_iff in H. cbv zeta. change CLI_MATCH_CHAR with 0. rewrite H.
  unfold uint. change 0xff with (Z.ones 8). by rewrite Z.land_ones by lia.
Qed.

Lemma static_take n p : Forall (fun c => is_wild c = false) (take (static_len n p) p).
Proof.
  revert p. induction n as [|n IH]; intros [|c p]; cbn; [constructor..|]. destruct (is_wild c) eqn:E; cbn; [constructor|]. by constructor.
Qed.

Lemma text_match_static buffer l : forall k, 0 <= k -> Forall (fun c => is_wild c = false) l ->
  text_match buffer k l = true <-> take (length l) (drop (Z.to_nat k) buffer) = key_word l.
Proof.
  induction l as [|c l IH]; intros k Hk HF; [by rewrite take_0|]. apply Forall_cons in HF as [Hc HF]. cbn [text_match length].
  rewrite andb_true_iff, (IH (k + 1)) by (done || lia). replace (Z.to_nat (k + 1)) with (S (Z.to_nat k)) by lia.
  rewrite bget_lookup by lia. change (key_word (c :: l)) with (Z.land c 0xff :: key_word l).
  destruct (buffer !! Z.to_nat k) as [b|] eqn:E.
  - rewrite (drop_S buffer b (Z.to_nat k) E). cbn [take]. rewrite char_ok_static, Z.eqb_eq by done. split; [by intros [-> ->]|by intros [= -> ->]].
  - apply lookup_ge_None_1 in E. rewrite (drop_ge buffer (Z.to_nat k)) by done. rewrite take_nil. by split; [intros [? _]|].
Qed.

Lemma length_key_word l : length (key_word l) = length l.
Proof. apply length_fmap. Qed.

(** The key ends the first [n] bytes exactly if it stands before the position [n]. *)
Lemma key_suffix buffer l n : (n <= length buffer)%nat -> Forall (fun c => is_wild c = false) l ->
  key_word l `suffix_of` take n buffer <-> (length l <= n)%nat /\ text_match buffer (Z.of_nat n - Z.of_nat (length l)) l = true.
Proof.
  intros Hn HF. split.
  - intros [t Ht]. pose proof (f_equal length Ht) as El. rewrite length_app, length_key_word, length_take in El. split; [lia|].
    apply text_match_static; [lia|done|]. replace (Z.to_nat (Z.of_nat n - Z.of_nat (length l))) with (length t) by lia.
    replace (length l) with (n - length t)%nat at 1 by lia. rewrite take_drop_commute. replace (length t + (n - length t))%nat with n by lia.
    rewrite Ht. by rewrite drop_app_length.
  - intros [Hl Ht]. apply text_match_static in Ht; [|lia|done]. replace (Z.to_nat (Z.of_nat n - Z.of_nat (length l))) with (n - length l)%nat in Ht by lia.
    exists (take (n - length l) buffer). rewrite <- Ht. replace n with ((n - length l) + length l)%nat at 1 by lia. by rewrite take_take_drop.
Qed.

(** ** The tables after the construction *)
Section Engine.
Context (ps : list ac_patt) (P D : list word) (own : word -> list nat) (grp : nat -> list nat) (s0 s : ac).
Context (HR : rep ps P D own grp s0) (HA : automaton P D own s0 s).
Abbreviation mx := (ac_maxdepth s0).

Lemma engine_cell i c : cells s !! i = Some c -> ps !! i = Some (patt c) /\ depth c = key_len mx (pattern (patt c)).
Proof using HR HA.
  intros Hc. destruct (Forall2_lookup_r _ _ _ _ _ (a_cells _ _ _ _ _ HA) Hc) as (c0 & Hc0 & Ep & _ & Ed).
  rewrite Ep, Ed. split; [|by apply (r_depth _ _ _ _ _ _ HR i)]. rewrite <- (r_patts _ _ _ _ _ _ HR), list_lookup_fmap, Hc0. done.
Qed.

Lemma engine_patt i p : ps !! i = Some p -> exists c, cells s !! i = Some c /\ patt c = p.
Proof using HR HA.
  rewrite <- (r_patts _ _ _ _ _ _ HR), list_lookup_fmap. intros (c0 & Hc0 & ->)%fmap_Some.
  destruct (Forall2_lookup_l _ _ _ _ _ (a_cells _ _ _ _ _ HA) Hc0) as (c & Hc & Ep & _). by exists c.
Qed.

Lemma engine_own h w : h ∈ own w -> exists c, cells s !! h = Some c /\ w = key_of mx (patt c) /\
  chain next_same (cells s) (Some h) (h :: grp h) /\ NoDup (h :: grp h).
Proof using HR HA.
  intros Hh. destruct (r_own _ _ _ _ _ _ HR h w Hh) as (c0 & Hc0 & Ew).
  destruct (Forall2_lookup_l _ _ _ _ _ (a_cells _ _ _ _ _ HA) Hc0) as (c & Hc & Ep & Ens & Ed). exists c. split; [done|].
  destruct (r_chain _ _ _ _ _ _ HR h w Hh) as [Hch Hnd]. split; [|split; [|done]].
  - destruct (engine_cell h c Hc) as [_ Ed']. unfold key_of. rewrite <- Ed', Ed, Ep. exact Ew.
  - by eapply same_cells_chain; [apply (a_cells _ _ _ _ _ HA)|].
Qed.

Lemma same_patt_text p q : same_patt p q = Ok true -> pattern p = pattern q /\ default [] (prefix p) = default [] (prefix q).
Proof.
  unfold same_patt. destruct (_ && _) eqn:E; [|done]. intros _. rewrite !andb_true_iff, !bool_decide_eq_true in E. naive_solver.
Qed.

(** The patterns of a group have the text of its head. *)
Lemma engine_group h w id c ci : h ∈ own w -> id ∈ h :: grp h -> cells s !! h = Some c -> cells s !! id = Some ci ->
  pattern (patt ci) = pattern (patt c) /\ default [] (prefix (patt ci)) = default [] (prefix (patt c)) /\ depth ci = depth c.
Proof using HR HA.
  intros Hh [->|Hid]%elem_of_cons Hc Hci; [rewrite Hc in Hci; by injection Hci as <-|].
  destruct (engine_cell _ _ Hc) as [Hp Ed]. destruct (engine_cell _ _ Hci) as [Hpi Edi]. rewrite <- (r_patts _ _ _ _ _ _ HR), list_lookup_fmap in Hp, Hpi.
  apply fmap_Some in Hp as (c0 & Hc0 & Ep). apply fmap_Some in Hpi as (ci0 & Hci0 & Epi).
  pose proof (r_same _ _ _ _ _ _ HR h w id c0 ci0 Hh Hid Hc0 Hci0) as E. rewrite <- Ep, <- Epi in E. apply same_patt_text in E as [E1 E2].
  split; [done|]. split; [done|]. by rewrite Edi, Ed, E1.
Qed.

(** The lists along a text are those of the patterns whose keys end it. *)
Lemma engine_full t id p : ps !! id = Some p ->
  key_of mx p `suffix_of` t <-> exists h, h ∈ full own t /\ id ∈ h :: grp h.
Proof using HR HA.
  intros Hp. destruct (engine_patt id p Hp) as (ci & Hci & Epi). split.
  - intros Hs. pose proof (f_equal length (r_patts _ _ _ _ _ _ HR)) as El. rewrite length_fmap in El.
    destruct (r_all _ _ _ _ _ _ HR id) as (h & w & Hh & Hid); [rewrite El; by eapply lookup_lt_Some|].
    exists h. split; [|done]. apply elem_of_full. exists w. split; [|done].
    destruct (engine_own h w Hh) as (c & Hc & -> & _). destruct (engine_group h _ id c ci Hh Hid Hc Hci) as (E1 & _ & _).
    unfold key_of in *. by rewrite <- E1, Epi.
  - intros (h & Hh & Hid). apply elem_of_full in Hh as (w & Hw & Hh). destruct (engine_own h w Hh) as (c & Hc & -> & _).
    destruct (engine_group h _ id c ci Hh Hid Hc Hci) as (E1 & _ & _). unfold key_of in *. by rewrite <- Epi, E1.
Qed.

Lemma engine_root : P !! 0%nat = Some (lsuf D []).
Proof using HR.
  rewrite lsuf_id; [apply (tree_root P (d_tree _ _ _ (r_dict _ _ _ _ _ _ HR)))|apply (d_branch _ _ _ (r_dict _ _ _ _ _ _ HR))].
Qed.
End Engine.

(** The construction on a loaded matcher. *)
Lemma buildtrie_automaton mindepth maxdepth ps s0 m : 1 <= mindepth -> loaded mindepth maxdepth ps s0 ->
  cli_ac_buildtrie s0 m = Ok (CL_EMEM, None) \/
  exists s P D own grp, cli_ac_buildtrie s0 m = Ok (CL_SUCCESS, Some s) /\ ac_maxdepth s0 = maxdepth /\
    rep ps P D own grp s0 /\ automaton P D own s0 s.
Proof.
  intros Hmin HL. destruct (loaded_rep _ _ _ _ Hmin HL) as (_ & Emx & P & D & own & grp & HR). unfold cli_ac_buildtrie.
  destruct (ac_maketrans_spec P D own (r_dict _ _ _ _ _ _ HR) s0 m (r_trie _ _ _ _ _ _ HR)) as [->|(s & -> & HA)]; [by left|].
  right. by exists s, P, D, own, grp.
Qed.

(** ** Scanning *)

(** The pattern stands at the position [k] of the buffer, at an offset it may have. *)
Definition occurs (buffer : list Z) (offset : Z) (p : ac_patt) (k : Z) : bool :=
  text_match buffer k (text_of p) && offset_fits p (offset + k).

Section Scan.
Context (ps : list ac_patt) (P D : list word) (own : word -> list nat) (grp : nat -> list nat) (s0 s : ac).
Context (HR : rep ps P D own grp s0) (HA : automaton P D own s0 s) (Hplain : Forall plain ps).
Context (mp : list (option (list Z))) (mf : option Z) (buffer : list Z) (offset ftype mode : Z).
Abbreviation len := (Z.of_nat (length buffer)).
Abbreviation mx := (ac_maxdepth s0).
Context (Hbytes : Forall (fun b => 0 <= b < 256) buffer).
Context (Hlen : len <= 2 ^ 31) (Hoff : 0 <= offset /\ offset + len < 2 ^ 32) (Hmode : Z.land mode AC_SCAN_VIR <> 0).
Context (st : scan) (Hres : results st = None).

(** The pattern of the cell is found when the byte [j] is read. *)
Definition found (j : Z) (id : nat) (c : cell) : Prop :=
  cells s !! id = Some c /\ key_of mx (patt c) `suffix_of` take (Z.to_nat (j + 1)) buffer /\ hit buffer offset c j = true.

Lemma engine_plain id c : cells s !! id = Some c -> plain (patt c).
Proof using HR HA Hplain. intros [Hp _]%(engine_cell _ _ _ _ _ _ _ HR HA). by eapply Forall_lookup_1. Qed.

Lemma engine_group_ok h w c : h ∈ own w -> cells s !! h = Some c -> group_ok s h (grp h) c.
Proof using HR HA Hplain.
  intros Hh Hc. destruct (engine_own _ _ _ _ _ _ _ HR HA h w Hh) as (c' & _ & _ & Hch & Hnd). split; [done|done|done| |].
  - intros id Hid. destruct (chain_lookup _ _ _ _ _ Hch Hid) as [ci Hci]. exists ci. split; [done|]. by eapply engine_plain.
  - intros id ci Hid Hci. apply (engine_group _ _ _ _ _ _ _ HR HA h w id c ci Hh); [by right|done|done].
Qed.

Lemma scan_loop_plain n : forall cur i, 0 <= i -> i + Z.of_nat n = len -> P !! cur = Some (lsuf D (take (Z.to_nat i) buffer)) ->
  exists r, scan_loop s mp mf buffer len offset ftype mode n st cur i = Ok (st, r) /\
    ((r = None /\ forall j id c, i <= j < len -> ~ found j id c) \/
     exists j id c, r = Some (CL_VIRUS, Some id) /\ i <= j < len /\ found j id c).
Proof using HR HA Hplain Hbytes Hlen Hoff Hmode Hres.
  induction n as [|n IH]; intros cur i Hi En Hcur.
  - exists None. split; [done|]. left. split; [done|]. intros; lia.
  - destruct (bget_is_Some buffer i ltac:(lia)) as [b Hb]. pose proof Hb as Hb'. rewrite bget_lookup in Hb' by lia.
    assert (0 <= b < 256) as Hbb by by eapply Forall_lookup_1 in Hbytes.
    destruct (visit_spec P D own s0 s cur _ b (r_dict _ _ _ _ _ _ HR) HA Hcur Hbb) as (x & cur' & Hv & Hl & Hc').
    assert (take (Z.to_nat i) buffer ++ [b] = take (Z.to_nat (i + 1)) buffer) as Et.
    { replace (Z.to_nat (i + 1)) with (S (Z.to_nat i)) by lia. by rewrite (take_S_r _ _ b). }
    rewrite Et in Hl, Hc'. rewrite (scan_loop_visit _ _ _ _ _ _ _ _ _ _ _ _ b x cur' Hb Hv).
    assert (NoDup (full own (take (Z.to_nat (i + 1)) buffer))) as Hnd.
    { clear -HR. generalize (take (Z.to_nat (i + 1)) buffer) as t. induction t as [|a t IHt]; [cbn; rewrite app_nil_r; apply (d_nodup _ _ _ (r_dict _ _ _ _ _ _ HR))|].
      rewrite full_cons. apply NoDup_app. split; [apply (d_nodup _ _ _ (r_dict _ _ _ _ _ _ HR))|]. split; [|done].
      intros p Hp. apply (own_not_in_full P D own (r_dict _ _ _ _ _ _ HR) p (a :: t)); [done|cbn; lia|].
      intros E%(f_equal length). cbn in E. lia. }
    pose proof (chain_length _ _ _ _ Hl Hnd) as Hcl.
    destruct (patt_loop_plain s mp mf buffer offset ftype mode Hlen Hoff Hmode st Hres grp i (S (length (cells s))) ltac:(lia) (nlist x) _ Hl ltac:(lia))
      as (r & -> & Hr).
    { intros h (w & Hw & Hh)%elem_of_full. destruct (engine_own _ _ _ _ _ _ _ HR HA h w Hh) as (c & Hc & -> & _).
      exists c. split; [by eapply engine_group_ok|]. destruct (engine_cell _ _ _ _ _ _ _ HR HA h c Hc) as [_ ->].
      pose proof (key_len_le mx (pattern (patt c))). split; [|lia]. apply suffix_length in Hw. unfold key_of in Hw.
      rewrite length_key_word, !length_take in Hw. lia. }
    destruct Hr as [[-> Hno]|(h & id & ci & -> & Hh & Hid & Hci & Hhit)].
    + destruct (IH cur' (i + 1) ltac:(lia) ltac:(lia) Hc') as (r & -> & Hr). exists r. split; [done|].
      destruct Hr as [[-> Hr]|(j & id & c & -> & Hj & Hf)]; [left|right; exists j, id, c; split; [done|]; split; [lia|done]].
      split; [done|]. intros j id c Hj Hf. destruct (decide (j = i)) as [->|Hne]; [|by apply (Hr j id c); [lia|]].
      destruct Hf as (Hc & Hk & Hh). destruct (engine_cell _ _ _ _ _ _ _ HR HA id c Hc) as [Hp _].
      apply (engine_full _ _ _ _ _ _ _ HR HA _ id _ Hp) in Hk as (h & Hh1 & Hid). by rewrite (Hno h id c Hh1 Hid Hc) in Hh.
    + eexists. split; [done|]. right. exists i, id, ci. split; [done|]. split; [lia|]. split; [done|]. split; [|done].
      destruct (engine_cell _ _ _ _ _ _ _ HR HA id ci Hci) as [Hp _]. apply (engine_full _ _ _ _ _ _ _ HR HA _ id _ Hp). by exists h.
Qed.

(** Being found at some byte is standing at some position. *)
Lemma found_occurs id c : cells s !! id = Some c -> 1 <= ac_mindepth s0 -> ac_mindepth s0 <= Z.of_nat (key_len mx (pattern (patt c))) ->
  (exists j, 0 <= j < len /\ found j id c) <-> exists k, occurs buffer offset (patt c) k = true.
Proof using HR HA.
  intros Hc Hmin Hkl. destruct (engine_cell _ _ _ _ _ _ _ HR HA id c Hc) as [Hp Hd]. set (p := patt c) in *. set (d := depth c) in *.
  assert (Forall (fun a => is_wild a = false) (take d (pattern p))) as Hst by (rewrite Hd; apply static_take).
  pose proof (key_len_le mx (pattern p)) as Hle. rewrite <- Hd in Hle, Hkl.
  assert (length (take d (pattern p)) = d) as Hld by (rewrite length_take; lia).
  assert (forall bp, text_match buffer (bp - prefix_length p) (text_of p) =
    text_match buffer (bp - prefix_length p) (default [] (prefix p)) &&
    (text_match buffer bp (take d (pattern p)) && text_match buffer (bp + Z.of_nat d) (drop d (pattern p)))) as Htext.
  { intros bp. unfold text_of. rewrite text_match_app. f_equal. unfold prefix_length. rewrite <- (take_drop d (pattern p)) at 1. rewrite text_match_app, Hld.
    f_equal; f_equal; lia. }
  unfold found, key_of, hit, stands, occurs, real_offset. fold p d. rewrite <- Hd. split.
  - intros (j & Hj & _ & Hk & Hh). apply key_suffix in Hk as [Hk1 Hk2]; [|lia|done]. rewrite Hld in Hk1, Hk2.
    replace (Z.of_nat (Z.to_nat (j + 1)) - Z.of_nat d) with (j + 1 - Z.of_nat d) in Hk2 by lia.
    rewrite !andb_true_iff in Hh. destruct Hh as [[[[_ Hh2] Hh3] Hh4] Hfit].
    exists (j + 1 - Z.of_nat d - prefix_length p). rewrite Htext, Hh4, Hk2, Hh3. cbn [andb].
    by replace (offset + (j + 1 - Z.of_nat d - prefix_length p)) with (offset + (j + 1 - Z.of_nat d) - prefix_length p) by lia.
  - intros (k & [Ht Hfit]%andb_true_iff). replace k with ((k + prefix_length p) - prefix_length p) in Ht by lia.
    rewrite Htext in Ht. set (bp := k + prefix_length p) in *. rewrite !andb_true_iff in Ht. destruct Ht as (Hpre & Hkey & Hrest).
    assert (0 <= bp /\ bp + Z.of_nat d <= len) as Hb1.
    { rewrite <- Hld. apply (text_match_bound buffer bp _ Hkey). intros E. rewrite E in Hld. cbn in Hld. lia. }
    assert (bp + length_ p <= len) as Hb2.
    { unfold length_. destruct (decide (drop d (pattern p) = [])) as [E|E].
      - apply (f_equal length) in E. rewrite length_drop in E. cbn in E. lia.
      - pose proof (text_match_bound buffer _ _ Hrest E) as H. rewrite length_drop in H. lia. }
    assert (prefix_length p <= bp) as Hb3.
    { unfold prefix_length. destruct (default [] (prefix p)) as [|a l] eqn:E; [cbn; lia|].
      destruct (text_match_bound buffer _ _ Hpre ltac:(done)) as [H _]. unfold prefix_length in H. rewrite E in H. lia. }
    exists (bp + Z.of_nat d - 1). split; [lia|]. split; [done|]. split.
    + apply key_suffix; [lia|done|]. rewrite Hld. split; [lia|].
      by replace (Z.of_nat (Z.to_nat (bp + Z.of_nat d - 1 + 1)) - Z.of_nat d) with bp by lia.
    + replace (bp + Z.of_nat d - 1 + 1 - Z.of_nat d) with bp by lia. rewrite !andb_true_iff.
      split; [split; [split; [split; lia|done]|done]|]. replace (offset + bp - prefix_length p) with (offset + k) by lia. done.
Qed.
End Scan.

(** Every pattern that was added has a key of at least [mindepth] characters. *)
Lemma loaded_keys mindepth maxdepth ps s : 1 <= mindepth -> loaded mindepth maxdepth ps s ->
  Forall (fun p => mindepth <= Z.of_nat (key_len maxdepth (pattern p))) ps.
Proof.
  intros Hmin HL. induction HL as [m s E|ps s p m s' HL IH Hp E|ps s p m s' HL IH Hp E]; [constructor| |done].
  apply Forall_app. split; [done|]. constructor; [|constructor].
  destruct (loaded_rep _ _ _ _ Hmin HL) as (E1 & E2 & P & D & own & grp & HR).
  destruct (cli_ac_addpatt_spec _ _ _ _ _ _ p m HR Hp) as (r & s2 & E' & H). rewrite E in E'. injection E' as <- <-.
  destruct H as [?|[[? _]|(_ & Hk & _)]]; [done|done|]. by rewrite E1, E2 in Hk.
Qed.

(** A scan is a search for the patterns. *)
Lemma scan_search mindepth maxdepth ps s0 m s mp mf buffer offset ftype mode st :
  1 <= mindepth -> loaded mindepth maxdepth ps s0 -> cli_ac_buildtrie s0 m = Ok (CL_SUCCESS, Some s) -> Forall plain ps ->
  Forall (fun b => 0 <= b < 256) buffer -> Z.of_nat (length buffer) <= 2 ^ 31 ->
  0 <= offset -> offset + Z.of_nat (length buffer) < 2 ^ 32 -> Z.land mode AC_SCAN_VIR <> 0 -> results st = None ->
  exists code id st', cli_ac_scanbuff s mp mf buffer (Z.of_nat (length buffer)) offset ftype mode st = Ok (code, id, st') /\
    ((code = CL_VIRUS /\ exists i p k, id = Some i /\ ps !! i = Some p /\ occurs buffer offset p k = true) \/
     (code = CL_CLEAN /\ id = None /\ forall i p k, ps !! i = Some p -> occurs buffer offset p k = false)).
Proof.
  intros Hmin HL HB Hplain Hbytes Hlen Hoff1 Hoff2 Hmode Hres.
  destruct (buildtrie_automaton _ _ _ _ m Hmin HL) as [E|(s' & P & D & own & grp & E & Emx & HR & HA)]; rewrite HB in E; [done|].
  injection E as <-. pose proof (loaded_keys _ _ _ _ Hmin HL) as Hkeys. destruct (loaded_rep _ _ _ _ Hmin HL) as (Emn & _ & _).
  set (st0 := Scan (md st) CL_CLEAN (ftoffset st) (results st) (mem st)).
  assert (forall id c, cells s !! id = Some c ->
    (exists j, 0 <= j < Z.of_nat (length buffer) /\ found s0 s buffer offset j id c) <-> exists k, occurs buffer offset (patt c) k = true) as Hiff.
  { intros id c Hc. apply (found_occurs _ _ _ _ _ _ _ HR HA); [done|lia|].
    destruct (engine_cell _ _ _ _ _ _ _ HR HA id c Hc) as [Hp _]. rewrite Emn, Emx. by eapply Forall_lookup_1 in Hkeys. }
  destruct (scan_loop_plain _ _ _ _ _ _ _ HR HA Hplain mp mf buffer offset ftype mode Hbytes Hlen ltac:(done) Hmode st0 Hres
    (length buffer) 0%nat 0 ltac:(lia) ltac:(lia) (engine_root _ _ _ _ _ _ HR)) as (r & Er & Hr).
  unfold cli_ac_scanbuff. fold st0. rewrite Nat2Z.id, Er.
  destruct Hr as [[-> Hno]|(j & id & c & -> & Hj & Hf)].
  - eexists _, None, st0. split; [done|]. right. split; [by destruct (negb _)|]. split; [done|]. intros i p k Hp.
    destruct (engine_patt _ _ _ _ _ _ _ HR HA i p Hp) as (c & Hc & <-). apply not_true_iff_false. intros Hk.
    destruct (proj2 (Hiff i c Hc)) as (j & Hj & Hf); [by exists k|]. by apply (Hno j i c).
  - eexists _, _, st0. split; [done|]. left. split; [done|]. destruct (proj1 (Hiff id c (proj1 Hf))) as (k & Hk); [by exists j|].
    exists id, (patt c), k. split; [done|]. split; [|done]. apply (engine_cell _ _ _ _ _ _ _ HR HA id c), Hf.
Qed.

(** ** The theorems *)

(** C6. The automaton is correct.  Whatever patterns were added to a matcher,
    [cli_ac_buildtrie] ends, without an access outside its tables and unless memory
    is short with an automaton: after any text the list of the node reached, with
    the patterns linked by [next_same], has exactly the patterns whose key (the
    first static characters) ends the text.  Links, transitions and the sharing of
    lists between nodes are thus right for every set of patterns. *)
Theorem ac_automaton_correct mindepth maxdepth ps s0 m : 1 <= mindepth -> loaded mindepth maxdepth ps s0 ->
  cli_ac_buildtrie s0 m = Ok (CL_EMEM, None) \/
  exists s, cli_ac_buildtrie s0 m = Ok (CL_SUCCESS, Some s) /\
    forall t, Forall (fun b => 0 <= b < 256) t -> t <> [] ->
      exists x cur l, run s 0 t = Some (x, cur) /\ chain next (cells s) (nlist x) l /\
        forall id p, ps !! id = Some p ->
          key_of maxdepth p `suffix_of` t <-> exists h g, h ∈ l /\ chain next_same (cells s) (Some h) g /\ id ∈ g.
Proof.
  intros Hmin HL. destruct (buildtrie_automaton _ _ _ _ m Hmin HL) as [->|(s & P & D & own & grp & -> & <- & HR & HA)]; [by left|right].
  exists s. split; [done|]. intros t Ht Hne.
  destruct (run_spec P D own s0 s [] t 0%nat (r_dict _ _ _ _ _ _ HR) HA (engine_root _ _ _ _ _ _ HR) Ht Hne) as (x & cur & Hrun & Hl & _).
  exists x, cur, (full own t). split; [done|]. split; [done|]. intros id p Hp. rewrite (engine_full _ _ _ _ _ _ _ HR HA t id p Hp). split.
  - intros (h & Hh & Hid). exists h, (h :: grp h). split; [done|]. split; [|done]. apply elem_of_full in Hh as (w & _ & Hh).
    destruct (engine_own _ _ _ _ _ _ _ HR HA h w Hh) as (_ & _ & _ & Hch & _). exact Hch.
  - intros (h & g & Hh & Hg & Hid). exists h. split; [done|]. apply elem_of_full in Hh as (w & _ & Hh).
    destruct (engine_own _ _ _ _ _ _ _ HR HA h w Hh) as (_ & _ & _ & Hch & _). by rewrite <- (chain_det _ _ _ _ _ Hg Hch).
Qed.

(** C7. Scanning is searching.  For plain patterns (virus signatures of characters,
    nibbles and ignored bytes, at any position or at absolute offsets) a scan with
    the automaton ends without an access outside its tables or the buffer, and
    returns CL_VIRUS with a pattern that stands in the buffer at an offset it may
    have, or CL_CLEAN if no pattern does at any position. *)
Theorem ac_scan_is_search mindepth maxdepth ps s0 m s mp mf buffer offset ftype mode st :
  1 <= mindepth -> loaded mindepth maxdepth ps s0 -> cli_ac_buildtrie s0 m = Ok (CL_SUCCESS, Some s) -> Forall plain ps ->
  Forall (fun b => 0 <= b < 256) buffer -> Z.of_nat (length buffer) <= 2 ^ 31 ->
  0 <= offset -> offset + Z.of_nat (length buffer) < 2 ^ 32 -> Z.land mode AC_SCAN_VIR <> 0 -> results st = None ->
  exists code id st', cli_ac_scanbuff s mp mf buffer (Z.of_nat (length buffer)) offset ftype mode st = Ok (code, id, st') /\
    ((code = CL_VIRUS /\ exists i p k, id = Some i /\ ps !! i = Some p /\ occurs buffer offset p k = true) \/
     (code = CL_CLEAN /\ id = None /\ forall i p k, ps !! i = Some p -> occurs buffer offset p k = false)).
Proof. apply scan_search. Qed.

(** ** Examples *)
Definition sig (chars : list Z) (pre : option (list Z)) (off mn mxo : Z) : ac_patt :=
  AcPatt chars pre 0 0 0 0 0 None (CLI_MATCH_IGNORE, CLI_MATCH_IGNORE) (0, 0) (0, 0) [] 0 0 0 (OffData off mn 0 0) mn mxo 0 [].

(** abcd; bc?e with any third byte; cab only at offset 1; abcd again, at offset 2. *)
Definition ex_patts : list ac_patt :=
  [sig [97; 98; 99; 100] None CLI_OFF_ANY CLI_OFF_ANY CLI_OFF_ANY;
   sig [98; 99; 0x100; 101] None CLI_OFF_ANY CLI_OFF_ANY CLI_OFF_ANY;
   sig [99; 97; 98] None CLI_OFF_ABSOLUTE 1 1;
   sig [97; 98; 99; 100] None CLI_OFF_ABSOLUTE 2 2].

(** Adding one pattern after the other, as a database is read. *)
Fixpoint load (s : ac) (ps : list ac_patt) : option ac :=
  match ps with
  | [] => Some s
  | p :: ps =>
      match cli_ac_addpatt s p [] with
      | Ok (code, s) => if code =? CL_SUCCESS then load s ps else None
      | _ => None
      end
  end.

Lemma load_loaded mindepth maxdepth ps s0 qs s :
  loaded mindepth maxdepth ps s0 -> Forall few qs -> load s0 qs = Some s -> loaded mindepth maxdepth (ps ++ qs) s.
Proof.
  revert ps s0. induction qs as [|q qs IH]; intros ps s0 HL Hf; cbn.
  - intros [= <-]. by rewrite app_nil_r.
  - inversion Hf as [|? ? Hq Hqs]; subst. destruct (cli_ac_addpatt s0 q []) as [[code s1]| |] eqn:E; try done.
    destruct (Z.eqb_spec code CL_SUCCESS) as [->|]; [|done]. intros H. change (q :: qs) with ([q] ++ qs). rewrite app_assoc.
    apply (IH _ s1); [by eapply loaded_add|done|done].
Qed.

Definition ex_init : ac := MkAc [Node None (Some ∅) None] [] 2 3.
Definition ex_trie : ac := Eval vm_compute in default ex_init (load ex_init ex_patts).

(** The automaton of a trie, where there is memory for it. *)
Definition built (s : ac) : ac := match cli_ac_buildtrie s [] with Ok (_, Some s) => s | _ => s end.
Definition is_built (s : ac) : bool := match cli_ac_buildtrie s [] with Ok (code, Some _) => code =? CL_SUCCESS | _ => false end.

Lemma built_ok s : is_built s = true -> cli_ac_buildtrie s [] = Ok (CL_SUCCESS, Some (built s)).
Proof.
  unfold is_built, built. destruct (cli_ac_buildtrie s []) as [[code [s'|]]| |]; try done. by intros ->%Z.eqb_eq.
Qed.

Definition ex_auto : ac := built ex_trie.
Definition ex_data : acdata := AcData ∅ [] [] [] [] HashSet.cli_hashset_init_noalloc.
Definition ex_scan : scan := Scan ex_data 0 None None [].

Lemma ex_loaded : loaded 2 3 ex_patts ex_trie.
Proof.
  apply (load_loaded 2 3 [] ex_init); [by apply (loaded_init 2 3 [])|by repeat (constructor; [unfold few; cbn; lia|])|by vm_compute].
Qed.

Lemma ac_automaton_correct_witness :
  cli_ac_buildtrie ex_trie [] = Ok (CL_SUCCESS, Some ex_auto) /\
  (cli_ac_buildtrie ex_trie [] = Ok (CL_EMEM, None) \/
   exists s, cli_ac_buildtrie ex_trie [] = Ok (CL_SUCCESS, Some s) /\
    forall t, Forall (fun b => 0 <= b < 256) t -> t <> [] ->
      exists x cur l, run s 0 t = Some (x, cur) /\ chain next (cells s) (nlist x) l /\
        forall id p, ex_patts !! id = Some p ->
          key_of 3 p `suffix_of` t <-> exists h g, h ∈ l /\ chain next_same (cells s) (Some h) g /\ id ∈ g).
Proof. split; [by apply built_ok; vm_compute|]. apply (ac_automaton_correct 2 3 ex_patts ex_trie []); [lia|apply ex_loaded]. Defined.

Lemma ex_plain : Forall plain ex_patts.
Proof.
  repeat (constructor; [split; [repeat constructor; vm_compute; discriminate| | | | | | |]; vm_compute; repeat split; auto; discriminate|]).
  constructor.
Qed.

Lemma ac_scan_is_search_witness :
  exists code id st', cli_ac_scanbuff ex_auto [] None [120; 97; 98; 99; 100] 5 0 0 AC_SCAN_VIR ex_scan = Ok (code, id, st') /\
    ((code = CL_VIRUS /\ exists i p k, id = Some i /\ ex_patts !! i = Some p /\ occurs [120; 97; 98; 99; 100] 0 p k = true) \/
     (code = CL_CLEAN /\ id = None /\ forall i p k, ex_patts !! i = Some p -> occurs [120; 97; 98; 99; 100] 0 p k = false)).
Proof.
  apply (ac_scan_is_search 2 3 ex_patts ex_trie [] ex_auto [] None [120; 97; 98; 99; 100] 0 0 AC_SCAN_VIR ex_scan);
    [lia|apply ex_loaded|by apply built_ok; vm_compute|apply ex_plain|repeat constructor; lia|vm_compute; discriminate|lia|vm_compute; reflexivity|
     vm_compute; discriminate|reflexivity].
Defined.

(** The scans of the example: abcd is found after one other byte; only the pattern of
    three characters at offset 1; that one is not found elsewhere. *)
Example ex_scan_results :
  (let go b := match cli_ac_scanbuff ex_auto [] None b (Z.of_nat (length b)) 0 0 AC_SCAN_VIR ex_scan with
     | Ok (code, id, _) => Some (code, id) | _ => None end in
   (go [120; 97; 98; 99; 100], go [120; 99; 97; 98], go [120; 120; 99; 97; 98])) =
  (Some (CL_VIRUS, Some 0%nat), Some (CL_VIRUS, Some 2%nat), Some (CL_CLEAN, None)).
Proof. by vm_compute. Qed.

(** ** Patterns that are merged *)
Definition ex_bounded : ac_patt :=
  AcPatt [97; 98; 99; 100] None 0 0 0 0 0 None (CLI_MATCH_IGNORE, CLI_MATCH_IGNORE) (0, 0) (0, 0) [] 0 0 0
    (OffData CLI_OFF_ANY CLI_OFF_ANY 0 0) CLI_OFF_ANY CLI_OFF_ANY AC_BOUNDARY_LEFT [].

Definition ex_found (ps : list ac_patt) (b : list Z) : option (Z * option nat) :=
  match load ex_init ps with
  | Some s =>
      match cli_ac_buildtrie s [] with
      | Ok (_, Some s) =>
          match cli_ac_scanbuff s [] None b (Z.of_nat (length b)) 0 0 AC_SCAN_VIR ex_scan with
          | Ok (code, id, _) => Some (code, id)
          | _ => None
          end
      | _ => None
      end
  | None => None
  end.

(** [cli_ac_addpatt] links patterns of one text by [next_same] and compares neither the
    boundary flags nor the distances of [ch]: the second pattern is then only tried
    where the first one matches.  abcd without a boundary is found in "zabcd" when it
    was added first, and missed when the pattern with a left boundary was. *)
Lemma boundary_hides_pattern :
  let p := sig [97; 98; 99; 100] None CLI_OFF_ANY CLI_OFF_ANY CLI_OFF_ANY in
  occurs [122; 97; 98; 99; 100] 0 p 1 = true /\
  ex_found [p; ex_bounded] [122; 97; 98; 99; 100] = Some (CL_VIRUS, Some 0%nat) /\
  ex_found [ex_bounded; p] [122; 97; 98; 99; 100] = Some (CL_CLEAN, None).
Proof. by vm_compute. Qed.

End AcProps.
