(* ===== verification/LSig.v ===== *)
(** * Logical signatures (libclamav/matcher-ac.c, matcher.c)

    A logical signature combines the counts of its parts by an expression such as
    [(0&1)>2,1|3=0].  [cli_ac_chklsig] evaluates the text itself: it looks for the
    operator at which to split, and calls itself on both sides.  With [parse_only]
    (no counts) it returns the largest index used.  [cli_lsig_eval] evaluates all
    signatures of a matcher after a file was scanned. *)
From stdpp Require Import base numbers list list_numbers gmap.
From Stdlib Require Import ZArith Lia Bool.
From S2P Require Import Prelude Dlp Hashset CalOff Ac AcMatch AcScan.

Local Open Scope Z_scope.

Module LSig.
Import Errors Ctype CalOff Ac AcScan.

(** The character at a position of a C string; its terminator is 0. *)
Definition chr (t : list Z) (i : Z) : option Z :=
  if i =? Z.of_nat (length t) then Some 0 else bget t i.

(** The string that starts at a position. *)
Definition str_from (t : list Z) (i : Z) : list Z := drop (Z.to_nat i) t.

(** The variables of the scan for operators.  [modval1] is not initialised. *)
Record lx := Lx {
  pth : Z; op : Z; opoff : Z; op1 : Z; op1off : Z; mod_ : Z; modoff : Z;
  blkend : Z; blkmod : Z; modval1 : option Z; modval2 : Z }.

Definition lx0 : lx := Lx 0 0 0 0 0 0 0 0 0 None 0.

Definition set_pth (x : lx) (p : Z) : lx :=
  Lx p (op x) (opoff x) (op1 x) (op1off x) (mod_ x) (modoff x) (blkend x) (blkmod x) (modval1 x) (modval2 x).
Definition set_op (x : lx) (c i : Z) : lx :=
  Lx (pth x) c i (op1 x) (op1off x) (mod_ x) (modoff x) (blkend x) (blkmod x) (modval1 x) (modval2 x).
Definition set_op1 (x : lx) (c i : Z) : lx :=
  Lx (pth x) (op x) (opoff x) c i (mod_ x) (modoff x) (blkend x) (blkmod x) (modval1 x) (modval2 x).
Definition set_mod (x : lx) (c i : Z) : lx :=
  Lx (pth x) (op x) (opoff x) (op1 x) (op1off x) c i (blkend x) (blkmod x) (modval1 x) (modval2 x).
Definition set_blk (x : lx) (e m : Z) : lx :=
  Lx (pth x) (op x) (opoff x) (op1 x) (op1off x) (mod_ x) (modoff x) e m (modval1 x) (modval2 x).
Definition set_modval (x : lx) (v1 v2 : Z) : lx :=
  Lx (pth x) (op x) (opoff x) (op1 x) (op1off x) (mod_ x) (modoff x) (blkend x) (blkmod x) (Some v1) v2.

Definition is_modchar (c : Z) : bool := (c =? 62) || (c =? 60) || (c =? 61).

(** The switch on a character; [None] is the return of -1.  The case of the closing
    parenthesis falls through to that of the modifiers. *)
Definition ops_char (c i : Z) (x : lx) : option lx :=
  if c =? 40 then Some (set_pth x (uint 32 (pth x + 1)))
  else if c =? 41 then
    if pth x =? 0 then None else Some (set_mod (set_pth x (pth x - 1)) c i)
  else if is_modchar c then Some (set_mod x c i)
  else if (c =? 38) || (c =? 124) || (c =? 0) then
    if pth x =? 0 then Some (set_op x c i)
    else if pth x =? 1 then Some (set_op1 x c i)
    else Some x
  else Some x.

Section Chk.
Context (t : list Z).

(** [sscanf(s, "%u,%u", ...)], and [sscanf(s, "%u", ...)] if that did not convert
    two numbers: the first number, and the second if there is one. *)
Definition scan_uu (s : list Z) : option (Z * option Z) :=
  match scan_u s with
  | None => None
  | Some (v1, r) => Some (v1, match scan_lit 44 r with
                              | Some r => match scan_u r with Some (v2, _) => Some v2 | None => None end
                              | None => None
                              end)
  end.

(** The loop behind the numbers of a modifier. *)
Fixpoint skip_nums (n : nat) (a len i : Z) : option Z :=
  match n with
  | O => Some i
  | S n =>
      if i + 1 <? len then
        let* c := chr t (a + i + 1) in
        if isdigit c || (c =? 44) then skip_nums n a len (i + 1) else Some i
      else Some i
  end.

(** The end of a block at [i]: a modifier is read.  [Ok None] is the return of -1. *)
Definition block_end (a len i : Z) (x : lx) : res (option (Z * lx)) :=
  let! c := of_opt (chr t (a + i + 1)) in
  if is_modchar c then
    match scan_uu (str_from t (a + i + 2)) with
    | None => Ok None
    | Some (v1, v2) =>
        let x := set_modval (set_blk x i c) v1 (default (modval2 x) v2) in
        let! i := of_opt (skip_nums (Z.to_nat len) a len (i + 2)) in
        Ok (Some (i, x))
    end
  else Ok (Some (i, set_blk x i (blkmod x))).

(** The loop over the characters of the expression from [a] to [e]. *)
Fixpoint ops_loop (n : nat) (a e i : Z) (x : lx) : res (option lx) :=
  let len := e - a in
  if i <? len then
    match n with
    | O => NoFuel
    | S n =>
        let! c := of_opt (chr t (a + i)) in
        match ops_char c i x with
        | None => Ok None
        | Some x =>
            if negb (op x =? 0) then Ok (Some x)
            else if negb (op1 x =? 0) && (pth x =? 0) then
              let! r := block_end a len i x in
              match r with
              | None => Ok None
              | Some (i, x) => if a + i + 1 =? e then Ok (Some x) else ops_loop n a e (i + 1) (set_blk x (blkend x) 0)
              end
            else ops_loop n a e (i + 1) x
        end
    end
  else Ok (Some x).

(** A comparison of a count with the number of a modifier. *)
Definition mod_holds (m val num : Z) : bool :=
  if m =? 61 then val =? num
  else if m =? 60 then val <? num
  else if m =? 62 then num <? val
  else false.

(** What a call returns, with [*cnt] and [*ids]. *)
Definition answer : Type := Z * Z * Z.

Context (lsigcnt : option (list Z)).

(** An expression without an operator: an index, perhaps with a modifier. *)
Definition chk_leaf (a : Z) (x : lx) (cnt ids : Z) : res answer :=
  match scan_u (str_from t a) with
  | None => Ok (-1, cnt, ids)
  | Some (id, _) =>
      let! val := match lsigcnt with None => Ok id | Some cs => of_opt (bget cs id) end in
      let found :=
        if id <? 64 then Ok (1, uint 32 (cnt + val), Z.lor ids (Z.shiftl 1 id)) else Undef in
      if negb (mod_ x =? 0) then
        match scan_u (str_from t (a + modoff x + 1)) with
        | None => Ok (-1, cnt, ids)
        | Some (num, _) =>
            match lsigcnt with
            | None => Ok (sint 32 val, cnt, ids)
            | Some _ => if mod_holds (mod_ x) val num then found else Ok (0, cnt, ids)
            end
        end
      else
        match lsigcnt with
        | None => Ok (sint 32 val, cnt, ids)
        | Some _ => if negb (val =? 0) then found else Ok (0, cnt, ids)
        end
  end.

(** The number of bits that are set; [tids] has 64 bits. *)
Fixpoint popcount (n : nat) (tids : Z) : Z :=
  match n with
  | O => 0
  | S n => if tids =? 0 then 0 else Z.land tids 1 + popcount n (Z.shiftr tids 1)
  end.

(** The end of a call that has both sides. *)
Definition chk_join (o : Z) (x : lx) (lval lcnt lids rval rcnt rids cnt ids : Z) : res answer :=
  match lsigcnt with
  | None => Ok (if (o =? 38) || (o =? 124) then Z.max lval rval else -1, cnt, ids)
  | Some _ =>
      if negb ((o =? 38) || (o =? 124)) then Ok (-1, cnt, ids)
      else
        let ret := if o =? 38 then negb (lval =? 0) && negb (rval =? 0) else negb (lval =? 0) || negb (rval =? 0) in
        let tcnt := if ret then uint 32 (lcnt + rcnt) else 0 in
        let tids := if ret then Z.lor lids rids else 0 in
        if blkmod x =? 0 then
          Ok (if ret then (1, uint 32 (cnt + tcnt), Z.lor ids tids) else (0, cnt, ids))
        else
          let! num := of_opt (modval1 x) in
          if negb (mod_holds (blkmod x) tcnt num) then Ok (0, cnt, ids)
          else if negb (modval2 x =? 0) && (popcount 64 tids <? modval2 x) then Ok (0, cnt, ids)
          else Ok (1, uint 32 (cnt + tcnt), ids)
  end.

(** [cli_ac_chklsig] on the text from [a] to [e]. *)
Fixpoint cli_ac_chklsig (fuel : nat) (a e cnt ids : Z) : res answer :=
  match fuel with
  | O => NoFuel
  | S fuel =>
      let len := e - a in
      let! r := ops_loop (Z.to_nat len) a e 0 lx0 in
      match r with
      | None => Ok (-1, cnt, ids)
      | Some x =>
          if negb (pth x =? 0) then Ok (-1, cnt, ids)
          else if (op x =? 0) && (op1 x =? 0) then
            let! c := of_opt (chr t a) in
            if c =? 40 then cli_ac_chklsig fuel (a + 1) (e - 1) cnt ids
            else chk_leaf a x cnt ids
          else
            let '(o, off, lstart, rend) :=
              if op x =? 0 then (op1 x, op1off x, a + 1, a + blkend x) else (op x, opoff x, a, e) in
            if off =? 0 then Ok (-1, cnt, ids)
            else if off + 1 =? len then Ok (-1, cnt, ids)
            else
              let! (lval, lcnt, lids) := cli_ac_chklsig fuel lstart (a + off) 0 0 in
              if lval =? -1 then Ok (-1, cnt, ids)
              else
                let! (rval, rcnt, rids) := cli_ac_chklsig fuel (a + off + 1) rend 0 0 in
                if rval =? -1 then Ok (-1, cnt, ids)
                else chk_join o x lval lcnt lids rval rcnt rids cnt ids
      end
  end.
End Chk.

(** A call on a whole string. *)
Definition chklsig (t : list Z) (lsigcnt : option (list Z)) : res answer :=
  cli_ac_chklsig t lsigcnt (S (length t)) 0 (Z.of_nat (length t)) 0 0.

(** ** All signatures of a matcher *)

(** [struct cli_ac_lsig] with the attributes of its target description: ranges that
    are absent are not tested. *)
Record lsig := Lsig {
  logic : list Z; subsigs : nat; container : option Z; filesize : option (Z * Z);
  ep_range : option (Z * Z); nos_range : option (Z * Z); icons : bool; bc_idx : Z }.

Definition in_range (r : option (Z * Z)) (v : Z) : bool :=
  match r with None => true | Some (lo, hi) => (lo <=? v) && (v <=? hi) end.

Section Eval.
Context (root : ac) (type_ : Z) (macro_ptids : list (option (list Z))).
(** The container and the length of the file, what the parser of its executable
    header gives, whether its icon is in the groups of a signature, and what the
    bytecode of a signature returns for its counts and offsets. *)
Context (container_type map_len : Z) (einfo : option exeinfo) (matchicon : nat -> Z) (runlsig : nat -> acdata -> Z).

(** The attributes of a signature whose expression holds. *)
Definition attributes (s : lsig) : bool :=
  match container s with Some c => c =? container_type | None => true end &&
  in_range (filesize s) map_len &&
  (if bool_decide (is_Some (ep_range s)) || bool_decide (is_Some (nos_range s)) then
     if (type_ =? 1) || (type_ =? 6) || (type_ =? 9) then
       match einfo with
       | None => false
       | Some x => in_range (ep_range s) (ep x) && in_range (nos_range s) (nsections x)
       end
     else false
   else true).

Fixpoint lsig_loop (l : list lsig) (i : nat) (d : acdata) : res (Z * option nat * acdata) :=
  match l with
  | [] => Ok (CL_CLEAN, None, d)
  | s :: l =>
      let! d := of_opt (cli_ac_chkmacro root macro_ptids (subsigs s) d (Z.of_nat i) 0) in
      let! (ret, _, _) := chklsig (logic s) (Some (drop (64 * i) (AcScan.lsigcnt d))) in
      if (ret =? 1) && attributes s then
        if icons s then
          if matchicon i =? CL_VIRUS then Ok (CL_VIRUS, Some i, d) else lsig_loop l (S i) d
        else if bc_idx s =? 0 then Ok (CL_VIRUS, Some i, d)
        else if runlsig i d =? CL_VIRUS then Ok (CL_VIRUS, None, d)
        else lsig_loop l (S i) d
      else lsig_loop l (S i) d
  end.

(** [cli_lsig_eval]: the code, the signature whose name is reported and the data.
    Bytecode reports a name of its own. *)
Definition cli_lsig_eval (lsigs : list lsig) (d : acdata) : res (Z * option nat * acdata) := lsig_loop lsigs 0 d.
End Eval.

End LSig.
