(* ===== verification/LSigFacts.v ===== *)
(** * Logical expressions: syntax, meaning, and how their text is scanned

    The grammar of the expressions of logical signatures, their printed form and
    their meaning, and what the loop of [cli_ac_chklsig] finds in the text. *)
From stdpp Require Import base numbers list list_numbers gmap.
From Stdlib Require Import ZArith Lia Bool.
From S2P Require Import Prelude Dlp CalOff LSig.

Local Open Scope Z_scope.

Module LSigFacts.
Import Ctype CalOff LSig.

(** ** Syntax *)
Inductive bop := And | Or.
Inductive cmp := CEq | CLt | CGt.

(** Numbers are kept as they are written.  A term is an index with an optional
    comparison, a term in parentheses, or two operands in parentheses with an
    optional comparison of their count and a least number of different parts; an
    expression is a chain of terms, which groups to the right at the top and
    within parentheses at its last operator. *)
Inductive term :=
| TSub (id : list Z) (m : option (cmp * list Z))
| TPar (p : term)
| TBlk (l : expr) (o : bop) (r : term) (m : option (cmp * list Z * option (list Z)))
with expr :=
| ETerm (p : term)
| EBin (p : term) (o : bop) (r : expr).

Scheme term_ind' := Induction for term Sort Prop
  with expr_ind' := Induction for expr Sort Prop.
Combined Scheme term_expr_ind from term_ind', expr_ind'.

Definition op_char (o : bop) : Z := match o with And => 38 | Or => 124 end.
Definition cmp_char (c : cmp) : Z := match c with CEq => 61 | CLt => 60 | CGt => 62 end.

Definition print_mod (m : option (cmp * list Z)) : list Z :=
  match m with None => [] | Some (c, n) => cmp_char c :: n end.
Definition print_blkmod (m : option (cmp * list Z * option (list Z))) : list Z :=
  match m with
  | None => []
  | Some (c, n, None) => cmp_char c :: n
  | Some (c, n, Some k) => cmp_char c :: n ++ 44 :: k
  end.

Fixpoint print_term (p : term) : list Z :=
  match p with
  | TSub id m => id ++ print_mod m
  | TPar p => 40 :: print_term p ++ [41]
  | TBlk l o r m => 40 :: print l ++ op_char o :: print_term r ++ 41 :: print_blkmod m
  end
with print (e : expr) : list Z :=
  match e with
  | ETerm p => print_term p
  | EBin p o r => print_term p ++ op_char o :: print r
  end.

(** ** Numbers *)
Definition num_value (s : list Z) : Z := foldl (fun a c => a * 10 + (c - 48)) 0 s.

(** A numeral that a 32-bit variable holds. *)
Record numeral (s : list Z) : Prop := {
  nu_digits : Forall (fun c => isdigit c = true) s;
  nu_length : (1 <= length s <= 64)%nat;
  nu_small : num_value s < 2 ^ 32 }.

Lemma isdigit_range c : isdigit c = true <-> 48 <= c <= 57.
Proof. unfold isdigit. rewrite andb_true_iff, !Z.leb_le. lia. Qed.

Lemma num_value_acc s : forall a, 0 <= a -> Forall (fun c => isdigit c = true) s ->
  0 <= foldl (fun a c => a * 10 + (c - 48)) a s.
Proof.
  induction s as [|c s IH]; intros a Ha Hs; cbn; [lia|]. inversion Hs as [|? ? Hc Hs']; subst. apply isdigit_range in Hc. apply IH; [lia|done].
Qed.

Lemma num_value_nonneg s : Forall (fun c => isdigit c = true) s -> 0 <= num_value s.
Proof. apply num_value_acc. lia. Qed.

(** The text behind a numeral does not continue it. *)
Definition ends (s : list Z) : Prop := match s with [] => True | c :: _ => isdigit c = false /\ c <> 44 end.

Lemma scan_digits_num s rest : ends rest \/ (exists r, rest = 44 :: r) -> Forall (fun c => isdigit c = true) s ->
  forall w acc, (length s <= w)%nat -> scan_digits w (s ++ rest) acc = (foldl (fun a c => a * 10 + (c - 48)) acc s, length s, rest).
Proof.
  intros Hr. induction s as [|c s IH]; intros Hs w acc Hw.
  - cbn. destruct w; [done|]. destruct Hr as [Hr|(r & ->)]; [|done]. destruct rest as [|c rest]; [done|]. cbn in *. by destruct Hr as [-> _].
  - inversion Hs as [|? ? Hc Hs']; subst. destruct w; cbn in Hw; [lia|]. cbn. rewrite Hc, IH by (done || lia). done.
Qed.

Lemma scan_u_num s rest : numeral s -> ends rest \/ (exists r, rest = 44 :: r) -> scan_u (s ++ rest) = Some (num_value s, rest).
Proof.
  intros [Hd Hl Hv] Hr. unfold scan_u, scan_d. destruct s as [|c s]; [cbn in Hl; lia|].
  pose proof Hd as Hd'. inversion Hd' as [|? ? Hc _]; subst. apply isdigit_range in Hc.
  cbn [app skip_space]. replace (isspace c) with false by (unfold isspace; symmetry; apply orb_false_intro; [lia|]; apply andb_false_iff; lia).
  destruct (Z.eqb_spec c 45); [lia|]. destruct (Z.eqb_spec c 43); [lia|].
  change (c :: s ++ rest) with ((c :: s) ++ rest). rewrite scan_digits_num by (done || cbn in *; lia).
  cbn [length]. pose proof (num_value_nonneg _ Hd). unfold num_value in *.
  rewrite Z.abs_eq by lia. change (2 ^ 64) with 18446744073709551616. change (2 ^ 32) with 4294967296 in Hv.
  destruct (Z.leb_spec 18446744073709551616 (foldl (fun a c => a * 10 + (c - 48)) 0 (c :: s))); [lia|].
  by rewrite uint_small by (change (2 ^ 32) with 4294967296; lia).
Qed.

(** ** Well-formed expressions *)
Definition wf_mod (m : option (cmp * list Z)) : Prop := match m with None => True | Some (_, n) => numeral n end.
Definition wf_blkmod (m : option (cmp * list Z * option (list Z))) : Prop :=
  match m with None => True | Some (_, n, k) => numeral n /\ match k with None => True | Some k => numeral k end end.
Fixpoint wf_term (p : term) : Prop :=
  match p with
  | TSub id m => numeral id /\ num_value id < 64 /\ wf_mod m
  | TPar p => wf_term p
  | TBlk l _ r m => wf l /\ wf_term r /\ wf_blkmod m
  end
with wf (e : expr) : Prop :=
  match e with
  | ETerm p => wf_term p
  | EBin p _ r => wf_term p /\ wf r
  end.

(** ** Meaning *)

(** Whether the expression holds, the matches counted and the parts that matched. *)
Record verdict := Verdict { holds : bool; total : Z; parts : gset Z }.
Definition no : verdict := Verdict false 0 ∅.

Definition cmp_holds (c : cmp) (v n : Z) : bool :=
  match c with CEq => v =? n | CLt => v <? n | CGt => n <? v end.

Definition join (o : bop) (l r : verdict) : verdict :=
  if match o with And => holds l && holds r | Or => holds l || holds r end
  then Verdict true (uint 32 (total l + total r)) (parts l ∪ parts r) else no.

(** A comparison replaces what is known of the parts by the comparison alone. *)
Definition constrain (m : option (cmp * list Z * option (list Z))) (v : verdict) : verdict :=
  match m with
  | None => v
  | Some (c, n, k) =>
      if cmp_holds c (total v) (num_value n) &&
         match k with None => true | Some k => num_value k <=? Z.of_nat (size (parts v)) end
      then Verdict true (total v) ∅ else no
  end.

Section Eval.
Context (cnts : list Z).
Definition count (id : Z) : Z := default 0 (bget cnts id).

Definition eval_sub (id : Z) (m : option (cmp * list Z)) : verdict :=
  if match m with None => negb (count id =? 0) | Some (c, n) => cmp_holds c (count id) (num_value n) end
  then Verdict true (count id) {[id]} else no.

Fixpoint eval_term (p : term) : verdict :=
  match p with
  | TSub id m => eval_sub (num_value id) m
  | TPar p => eval_term p
  | TBlk l o r m => constrain m (join o (eval l) (eval_term r))
  end
with eval (e : expr) : verdict :=
  match e with
  | ETerm p => eval_term p
  | EBin p o r => join o (eval_term p) (eval r)
  end.
End Eval.

(** The largest index. *)
Fixpoint top_term (p : term) : Z :=
  match p with TSub id _ => num_value id | TPar p => top_term p | TBlk l _ r _ => Z.max (top l) (top_term r) end
with top (e : expr) : Z :=
  match e with ETerm p => top_term p | EBin p _ r => Z.max (top_term p) (top r) end.

(** ** The text of terms below the top *)

(** The characters [w] from index [i] on, while the loop neither finds an operator
    at the top nor the end of a block. *)
Fixpoint steps (w : list Z) (i : Z) (x : lx) : option lx :=
  match w with
  | [] => Some x
  | c :: w =>
      let* x := ops_char c i x in
      if negb (op x =? 0) || (negb (op1 x =? 0) && (pth x =? 0)) then None else steps w (i + 1) x
  end.

Lemma steps_app w1 w2 i x : steps (w1 ++ w2) i x = (let* y := steps w1 i x in steps w2 (i + Z.of_nat (length w1)) y).
Proof.
  revert i x. induction w1 as [|c w1 IH]; intros i x; cbn [steps app length]; [by rewrite Z.add_0_r|].
  destruct (ops_char c i x) as [y|]; [|done]. destruct (_ || _); [done|]. rewrite IH.
  by replace (i + 1 + Z.of_nat (length w1)) with (i + Z.of_nat (S (length w1))) by lia.
Qed.

Lemma chr_app t pre w post j : t = pre ++ w ++ post -> (j < length w)%nat -> chr t (Z.of_nat (length pre) + Z.of_nat j) = w !! j.
Proof.
  intros -> Hj. unfold chr, bget. rewrite !length_app.
  destruct (Z.eqb_spec (Z.of_nat (length pre) + Z.of_nat j) (Z.of_nat (length pre + (length w + length post)))); [lia|].
  destruct (Z.ltb_spec (Z.of_nat (length pre) + Z.of_nat j) 0); [lia|].
  replace (Z.to_nat (Z.of_nat (length pre) + Z.of_nat j)) with (length pre + j)%nat by lia.
  rewrite lookup_app_r by lia. replace (length pre + j - length pre)%nat with j by lia. by rewrite lookup_app_l.
Qed.

Lemma ops_loop_steps t a e w : forall pre post n i x y, t = pre ++ w ++ post -> a + i = Z.of_nat (length pre) ->
  a + i + Z.of_nat (length w) <= e -> (length w <= n)%nat -> steps w i x = Some y ->
  ops_loop t n a e i x = ops_loop t (n - length w) a e (i + Z.of_nat (length w)) y.
Proof.
  induction w as [|c w IH]; intros pre post n i x y Ht Ha He Hn Hs; cbn [length steps] in *.
  - injection Hs as <-. by rewrite Nat.sub_0_r, Z.add_0_r.
  - destruct n as [|n]; [lia|]. cbn [ops_loop]. destruct (Z.ltb_spec i (e - a)) as [_|]; [|lia].
    pose proof (chr_app t pre (c :: w) post 0 Ht ltac:(cbn; lia)) as Hc. rewrite Z.add_0_r, <- Ha in Hc. rewrite Hc. change ((c :: w) !! 0%nat) with (Some c). cbn [of_opt].
    destruct (ops_char c i x) as [x'|]; [|done]. destruct (negb (op x' =? 0)); [done|]. cbn [orb] in Hs.
    destruct (negb (op1 x' =? 0) && (pth x' =? 0)); [done|].
    rewrite (IH (pre ++ [c]) post n (i + 1) x' y); [|by rewrite Ht, <- app_assoc|rewrite length_app; cbn; lia|lia|lia|done].
    cbn [Nat.sub]. by replace (i + 1 + Z.of_nat (length w)) with (i + Z.of_nat (S (length w))) by lia.
Qed.

(** Computes the fields of a state that is given by its fields. *)
Ltac fields := unfold set_pth, set_op, set_op1, set_mod, set_blk, set_modval in *;
  cbn [pth op opoff op1 op1off mod_ modoff blkend blkmod modval1 modval2] in *.

(** Characters that do not end the loop. *)
Definition quiet (x : lx) : Prop := op x = 0 /\ (op1 x = 0 \/ 1 <= pth x).

Lemma quiet_test x : quiet x -> negb (op x =? 0) || (negb (op1 x =? 0) && (pth x =? 0)) = false.
Proof.
  intros [-> H]. cbn. destruct H as [-> |H]; [done|]. destruct (Z.eqb_spec (pth x) 0); [lia|]. apply andb_false_r.
Qed.

Lemma steps_cons c w i x y : ops_char c i x = Some y -> quiet y -> steps (c :: w) i x = steps w (i + 1) y.
Proof. intros E Hq. cbn. by rewrite E, quiet_test. Qed.

Lemma ops_char_plain c i x : isdigit c = true \/ c = 44 -> ops_char c i x = Some x.
Proof.
  intros H. assert (48 <= c <= 57 \/ c = 44) as Hc by (destruct H as [H%isdigit_range|]; [by left|by right]).
  unfold ops_char, is_modchar. repeat (match goal with |- context [?u =? ?v] => destruct (Z.eqb_spec u v); [lia|] end). done.
Qed.

Lemma steps_plain w i x : Forall (fun c => isdigit c = true \/ c = 44) w -> quiet x -> steps w i x = Some x.
Proof.
  intros Hw Hq. revert i. induction Hw as [|c w Hc Hw IH]; intros i; [done|].
  rewrite (steps_cons _ _ _ _ x); [apply IH|by apply ops_char_plain|done].
Qed.

Lemma plain_num s : numeral s -> Forall (fun c => isdigit c = true \/ c = 44) s.
Proof. intros [Hd _ _]. eapply Forall_impl; [exact Hd|]. by left. Qed.

Lemma ops_char_cmp c i x : ops_char (cmp_char c) i x = Some (set_mod x (cmp_char c) i).
Proof. by destruct c. Qed.

Lemma quiet_mod x m k : quiet x -> quiet (set_mod x m k).
Proof. done. Qed.

Lemma set_mod_id x : set_mod x (mod_ x) (modoff x) = x.
Proof. by destruct x. Qed.

Lemma steps_mod w c i x : Forall (fun c => isdigit c = true \/ c = 44) w -> quiet x ->
  steps (cmp_char c :: w) i x = Some (set_mod x (cmp_char c) i).
Proof. intros Hw Hq. erewrite steps_cons; [by apply steps_plain|apply ops_char_cmp|by apply quiet_mod]. Qed.

(** The index and the comparison of a part. *)
Lemma steps_sub id m i x : numeral id -> wf_mod m -> quiet x ->
  steps (id ++ print_mod m) i x =
  Some (match m with None => x | Some (c, _) => set_mod x (cmp_char c) (i + Z.of_nat (length id)) end).
Proof.
  intros Hid Hm Hq. rewrite steps_app, steps_plain by (done || by apply plain_num). destruct m as [[c n]|]; cbn [print_mod]; [|done].
  rewrite steps_mod by (done || by apply plain_num). done.
Qed.

Lemma plain_blkmod n (k : option (list Z)) : numeral n -> match k with None => True | Some k => numeral k end ->
  Forall (fun c => isdigit c = true \/ c = 44) (n ++ match k with None => [] | Some k => 44 :: k end).
Proof.
  intros Hn Hk. apply Forall_app. split; [by apply plain_num|]. destruct k; [|constructor]. constructor; [by right|by apply plain_num].
Qed.

Lemma print_blkmod_eq m : print_blkmod m =
  match m with None => [] | Some (c, n, k) => cmp_char c :: n ++ match k with None => [] | Some k => 44 :: k end end.
Proof. destruct m as [[[c n] [k|]]|]; cbn; [done|by rewrite app_nil_r|done]. Qed.

Lemma steps_blkmod m i x : wf_blkmod m -> quiet x -> exists c k, steps (print_blkmod m) i x = Some (set_mod x c k).
Proof.
  intros Hm Hq. rewrite print_blkmod_eq. destruct m as [[[c n] k]|].
  - destruct Hm as [Hn Hk]. eexists _, _. apply steps_mod; [by apply plain_blkmod|done].
  - exists (mod_ x), (modoff x). by rewrite set_mod_id.
Qed.

(** Parentheses inside others. *)
Lemma steps_open w i x : op x = 0 -> 0 <= pth x -> pth x + 1 < 2 ^ 32 -> steps (40 :: w) i x = steps w (i + 1) (set_pth x (pth x + 1)).
Proof.
  intros Ho Hp Hb. apply steps_cons; [|split; [done|right; cbn [set_pth pth]; lia]].
  unfold ops_char. cbn [Z.eqb Pos.eqb]. by rewrite uint_small by lia.
Qed.

Lemma steps_close w i x : op x = 0 -> 2 <= pth x -> steps (41 :: w) i x = steps w (i + 1) (set_mod (set_pth x (pth x - 1)) 41 i).
Proof.
  intros Ho Hp. apply steps_cons; [|split; [done|right; cbn [set_pth set_mod pth]; lia]].
  unfold ops_char. cbn [Z.eqb Pos.eqb]. destruct (Z.eqb_spec (pth x) 0); [lia|]. done.
Qed.

Lemma steps_op o w i x : op x = 0 -> 1 <= pth x ->
  steps (op_char o :: w) i x = steps w (i + 1) (if pth x =? 1 then set_op1 x (op_char o) i else x).
Proof.
  intros Ho Hp. apply steps_cons; [|destruct (pth x =? 1); split; (done || by right)].
  unfold ops_char. destruct (Z.eqb_spec (pth x) 0); [lia|]. destruct (pth x =? 1); by destruct o.
Qed.

(** Terms inside parentheses leave everything but the last modifier; chains may
    also leave an operator if they are directly inside. *)
Lemma steps_deep :
  (forall p, wf_term p -> forall i x, op x = 0 -> 1 <= pth x -> pth x + Z.of_nat (length (print_term p)) < 2 ^ 32 ->
     exists c k, steps (print_term p) i x = Some (set_mod x c k)) /\
  (forall e, wf e -> forall i x, op x = 0 -> 1 <= pth x -> pth x + Z.of_nat (length (print e)) < 2 ^ 32 ->
     exists o f c k, steps (print e) i x = Some (set_mod (set_op1 x o f) c k) /\ (1 < pth x -> o = op1 x /\ f = op1off x)).
Proof.
  apply term_expr_ind.
  - intros id m (Hid & _ & Hm) i x Ho Hp Hb. cbn [print_term]. rewrite steps_sub by (done || (split; [done|by right])).
    destruct m as [[c n]|]; [by eexists _, _|]. exists (mod_ x), (modoff x). by rewrite set_mod_id.
  - intros p IH Hw i x Ho Hp Hb. cbn [print_term length] in *. rewrite length_app in Hb. cbn [length] in Hb.
    rewrite steps_open by (done || lia).
    destruct (IH Hw (i + 1) (set_pth x (pth x + 1))) as (c & k & E); [done|cbn [set_pth pth]; lia|cbn [set_pth pth]; lia|].
    rewrite steps_app, E. rewrite steps_close by (done || (cbn [set_mod set_pth pth]; lia)).
    eexists _, _. cbn [steps]. unfold set_mod, set_pth. cbn. by replace (pth x + 1 - 1) with (pth x) by lia.
  - intros l IHl o r IHr m (Hl & Hr & Hm) i [p q1 q2 q3 q4 q5 q6 q7 q8 q9 q10] Ho Hp Hb.
    cbn [op pth print_term length] in *. subst q1. rewrite length_app in Hb. cbn [length] in Hb.
    rewrite length_app in Hb. cbn [length] in Hb. rewrite steps_open by (done || (cbn [pth]; lia)).
    destruct (IHl Hl (i + 1) (Lx (p + 1) 0 q2 q3 q4 q5 q6 q7 q8 q9 q10)) as (o' & f & c & k & E & Ek); [done|cbn [pth]; lia..|].
    destruct Ek as [-> ->]; [cbn [pth]; lia|]. fields.
    rewrite steps_app, E. rewrite steps_op by (done || (cbn [pth]; lia)). cbn [pth]. destruct (Z.eqb_spec (p + 1) 1); [lia|].
    match goal with |- context [steps _ ?j ?y] => destruct (IHr Hr j y) as (c' & k' & E'); [done|cbn [pth]; lia..|] end.
    fields.
    rewrite steps_app, E'. rewrite steps_close by (done || (cbn [pth]; lia)).
    fields. replace (p + 1 - 1) with p by lia.
    match goal with |- context [steps (print_blkmod m) ?j ?z] =>
      destruct (steps_blkmod m j z Hm) as (c2 & k2 & E2); [split; [done|right; cbn [pth]; lia]|rewrite E2] end.
    by eexists _, _.
  - intros p IH Hw i x Ho Hp Hb. cbn [print] in *. destruct (IH Hw i x Ho Hp Hb) as (c & k & E).
    exists (op1 x), (op1off x), c, k. split; [|done]. rewrite E. by destruct x.
  - intros p IHp o r IHr [Hwp Hwr] i x Ho Hp Hb. cbn [print] in *. rewrite length_app in Hb. cbn [length] in Hb.
    destruct (IHp Hwp i x Ho Hp ltac:(lia)) as (c & k & E). rewrite steps_app, E, steps_op by (done || (cbn [set_mod pth]; lia)).
    match goal with |- context [steps (print r) ?j ?y] => destruct (IHr Hwr j y) as (o' & f & c' & k' & E' & Ek);
      [by destruct (_ =? _)|destruct (_ =? _); cbn [set_mod set_op1 pth]; lia|destruct (_ =? _); cbn [set_mod set_op1 pth]; lia|rewrite E'; clear E'] end.
    cbn [set_mod pth] in *. destruct (Z.eqb_spec (pth x) 1).
    + eexists _, _, _, _. split; [cbn; reflexivity|lia].
    + eexists _, _, _, _. split; [cbn; reflexivity|exact Ek].
Qed.

End LSigFacts.
