(* ===== verification/LSigProps.v ===== *)
(** * Logical signatures are evaluated as they are meant

    [cli_ac_chklsig] on the text of any expression returns its meaning. *)
From stdpp Require Import base numbers list list_numbers gmap.
From Stdlib Require Import ZArith Lia Bool.
From S2P Require Import Prelude Dlp CalOff LSig LSigFacts.

Local Open Scope Z_scope.

Module LSigProps.
Import Ctype CalOff LSig LSigFacts.

(** ** Blocks and their modifiers *)
Definition modchar (m : option (cmp * list Z * option (list Z))) : Z := match m with None => 0 | Some (c, _, _) => cmp_char c end.
Definition modnum (m : option (cmp * list Z * option (list Z))) : option Z := match m with None => None | Some (_, n, _) => Some (num_value n) end.
Definition modmin (m : option (cmp * list Z * option (list Z))) : Z := match m with Some (_, _, Some k) => num_value k | _ => 0 end.

Lemma is_modchar_cmp c : is_modchar (cmp_char c) = true.
Proof. by destruct c. Qed.

Lemma str_from_app t pre w : t = pre ++ w -> str_from t (Z.of_nat (length pre)) = w.
Proof. intros ->. unfold str_from. by rewrite Nat2Z.id, drop_app_length. Qed.

Lemma scan_uu_mod n k post : numeral n -> match k with None => True | Some k => numeral k end -> ends post ->
  scan_uu (n ++ match k with None => [] | Some k => 44 :: k end ++ post) = Some (num_value n, option_map num_value k).
Proof.
  intros Hn Hk Hp. unfold scan_uu. destruct k as [k|].
  - cbn [app]. rewrite scan_u_num by (done || (right; by eexists)). cbn [scan_lit Z.eqb Pos.eqb]. by rewrite scan_u_num by (done || by left).
  - cbn [app]. rewrite scan_u_num by (done || by left). destruct post as [|c post]; [done|]. cbn. destruct Hp as [_ Hp].
    by destruct (Z.eqb_spec c 44).
Qed.

Lemma skip_nums_spec t a len w : forall pre post n i, t = pre ++ w ++ post -> a + i + 1 = Z.of_nat (length pre) ->
  Forall (fun c => isdigit c = true \/ c = 44) w -> ends post -> i + 1 + Z.of_nat (length w) <= len -> a + len <= Z.of_nat (length t) ->
  (length w <= n)%nat -> skip_nums t n a len i = Some (i + Z.of_nat (length w)).
Proof.
  induction w as [|c w IH]; intros pre post n i Ht Ha Hw Hp Hl Hlt Hn; cbn [length] in *.
  - rewrite Z.add_0_r. destruct n as [|n]; cbn; [done|]. destruct (Z.ltb_spec (i + 1) len); [|done].
    destruct post as [|c post]; [subst t; rewrite length_app in Hlt; cbn in Hlt; lia|].
    pose proof (chr_app t pre [c] post 0 Ht ltac:(cbn; lia)) as Hc. rewrite Z.add_0_r, <- Ha in Hc. rewrite Hc. change ([c] !! 0%nat) with (Some c). cbv beta iota.
    destruct Hp as [-> Hne]. by destruct (Z.eqb_spec c 44).
  - destruct n as [|n]; [lia|]. cbn. destruct (Z.ltb_spec (i + 1) len); [|lia].
    pose proof (chr_app t pre (c :: w) post 0 Ht ltac:(cbn; lia)) as Hc. rewrite Z.add_0_r, <- Ha in Hc. rewrite Hc. change ((c :: w) !! 0%nat) with (Some c). cbv beta iota.
    inversion Hw as [|? ? Hcc Hw']; subst. replace (isdigit c || (c =? 44)) with true by (symmetry; apply orb_true_iff; rewrite Z.eqb_eq; done).
    rewrite (IH (pre ++ [c]) post); [|by rewrite <- app_assoc|rewrite length_app; cbn; lia|done|done|lia|done|lia].
    f_equal. lia.
Qed.

(** What the loop does at the closing parenthesis of a block. *)
Lemma block_end_spec t a len i m x : forall pre post, t = pre ++ print_blkmod m ++ post -> a + i + 1 = Z.of_nat (length pre) ->
  wf_blkmod m -> ends post -> (post = [] \/ exists c r, post = c :: r /\ is_modchar c = false) ->
  i + 1 + Z.of_nat (length (print_blkmod m)) <= len -> a + len <= Z.of_nat (length t) -> 0 <= i -> modval2 x = 0 -> blkmod x = 0 -> modval1 x = None ->
  block_end t a len i x =
  Ok (Some (i + Z.of_nat (length (print_blkmod m)),
    Lx (pth x) (op x) (opoff x) (op1 x) (op1off x) (mod_ x) (modoff x) i (modchar m) (modnum m) (modmin m))).
Proof.
  intros pre post Ht Ha Hm Hp Hend Hl Hlt Hi H2 Hb H1. unfold block_end. rewrite print_blkmod_eq in *. destruct m as [[[c n] k]|].
  - destruct Hm as [Hn Hk]. set (ns := n ++ match k with None => [] | Some k => 44 :: k end) in *.
    pose proof (chr_app t pre (cmp_char c :: ns) post 0 Ht ltac:(cbn; lia)) as Hc. rewrite Z.add_0_r, <- Ha in Hc. rewrite Hc.
    change ((cmp_char c :: ns) !! 0%nat) with (Some (cmp_char c)). cbn [of_opt]. rewrite is_modchar_cmp.
    replace (a + i + 2) with (Z.of_nat (length (pre ++ [cmp_char c]))) by (rewrite length_app; cbn; lia).
    rewrite (str_from_app _ _ (ns ++ post)) by (rewrite Ht, <- app_assoc; done). unfold ns at 1. rewrite <- app_assoc, scan_uu_mod by done.
    destruct ns as [|d ns'] eqn:Ens.
    { destruct Hn as [_ Hn _]. unfold ns in Ens. apply app_eq_nil in Ens as [-> _]. cbn in Hn. lia. }
    pose proof (plain_blkmod n k Hn Hk) as Hpl. fold ns in Hpl. rewrite Ens in Hpl. inversion Hpl; subst.
    cbn [length] in *. rewrite (skip_nums_spec _ _ _ ns' (pre ++ [cmp_char c; d]) post); [|by rewrite <- app_assoc|rewrite length_app; cbn; lia|done|done|lia|done|lia].
    cbn [of_opt]. unfold set_modval, set_blk. cbn. rewrite H2. f_equal. f_equal. f_equal; [lia|]. by destruct k.
  - cbn [app length] in *. rewrite Z.add_0_r.
    assert (exists c, chr t (a + i + 1) = Some c /\ is_modchar c = false) as (c & -> & Hc).
    { destruct Hend as [-> |(c & r & -> & Hc)].
      - exists 0. split; [|done]. unfold chr. rewrite Ha, Ht. rewrite app_nil_r. by rewrite Z.eqb_refl.
      - exists c. split; [|done]. pose proof (chr_app t pre [c] r 0 Ht ltac:(cbn; lia)) as E. by rewrite Z.add_0_r, <- Ha in E. }
    cbn [of_opt]. rewrite Hc. unfold set_blk. cbn. by rewrite Hb, H1, H2.
Qed.

(** ** The loop on a term at the top *)

(** What may follow an operand. *)
Definition follows (s : list Z) : Prop := match s with [] => True | c :: _ => c = 38 \/ c = 124 \/ c = 41 end.

Lemma follows_ends s : follows s -> ends s /\ (s = [] \/ exists c r, s = c :: r /\ is_modchar c = false).
Proof.
  destruct s as [|c s]; [split; [done|by left]|]. intros H.
  split; [|right; exists c, s; split; [done|]]; by destruct H as [-> |[-> | ->]].
Qed.

Abbreviation zlen w := (Z.of_nat (length w)).

(** The variables behind a term. *)
Definition term_state (p : term) : lx :=
  match p with
  | TSub id None => lx0
  | TSub id (Some (c, _)) => set_mod lx0 (cmp_char c) (zlen id)
  | TPar p => set_mod lx0 41 (zlen (print_term p) + 1)
  | TBlk l o r m => let j := zlen (print l) + zlen (print_term r) + 2 in
      Lx 0 0 0 (op_char o) (zlen (print l) + 1) 41 j j (modchar m) (modnum m) (modmin m)
  end.

Lemma ops_loop_end t n a e i x : e - a <= i -> ops_loop t n a e i x = Ok (Some x).
Proof. intros H. destruct n; cbn [ops_loop]; destruct (Z.ltb_spec i (e - a)); (done || lia). Qed.

Lemma ops_loop_char t n a e c pre post i x : t = pre ++ c :: post -> a + i = zlen pre -> i < e - a ->
  ops_loop t (S n) a e i x =
  match ops_char c i x with
  | None => Ok None
  | Some x =>
      if negb (op x =? 0) then Ok (Some x)
      else if negb (op1 x =? 0) && (pth x =? 0) then
        let! r := block_end t a (e - a) i x in
        match r with
        | None => Ok None
        | Some (i, x) => if a + i + 1 =? e then Ok (Some x) else ops_loop t n a e (i + 1) (set_blk x (blkend x) 0)
        end
      else ops_loop t n a e (i + 1) x
  end.
Proof.
  intros Ht Ha Hi. cbn [ops_loop]. destruct (Z.ltb_spec i (e - a)); [|lia].
  pose proof (chr_app t pre [c] post 0 Ht ltac:(cbn; lia)) as Hc. rewrite Z.add_0_r, <- Ha in Hc. rewrite Hc. done.
Qed.

(** At the operator behind a term the loop stops. *)
Lemma ops_loop_op t n a e o pre post i x : t = pre ++ op_char o :: post -> a + i = zlen pre -> i < e - a -> pth x = 0 ->
  ops_loop t (S n) a e i x = Ok (Some (set_op x (op_char o) i)).
Proof. intros Ht Ha Hi Hp. erewrite ops_loop_char by done. unfold ops_char. rewrite Hp. by destruct o. Qed.

Lemma steps_sub0 id m : numeral id -> wf_mod m -> steps (print_term (TSub id m)) 0 lx0 = Some (term_state (TSub id m)).
Proof. intros Hi Hm. cbn [print_term]. rewrite steps_sub by (done || (split; [done|by left])). by destruct m as [[c n]|]. Qed.

Lemma steps_par0 p : wf_term p -> zlen (print_term p) + 1 < 2 ^ 32 -> steps (print_term (TPar p)) 0 lx0 = Some (term_state (TPar p)).
Proof.
  intros Hw Hl. cbn [print_term]. rewrite steps_open by (done || (cbn [lx0 pth]; lia)).
  destruct (proj1 steps_deep p Hw (0 + 1) (set_pth lx0 1)) as (c & k & E); [done|done|cbn [set_pth pth]; lia|].
  rewrite steps_app. change (set_pth lx0 (pth lx0 + 1)) with (set_pth lx0 1). rewrite E. erewrite steps_cons; [|done|by split; [|left]].
  cbn [steps]. unfold term_state, lx0. fields. f_equal. f_equal. lia.
Qed.

Lemma steps_blk0 l o r : wf l -> wf_term r -> zlen (print l) + zlen (print_term r) + 2 < 2 ^ 32 ->
  exists c k, steps (40 :: print l ++ op_char o :: print_term r) 0 lx0 = Some (Lx 1 0 0 (op_char o) (zlen (print l) + 1) c k 0 0 None 0).
Proof.
  intros Hl Hr Hb. rewrite steps_open by (done || (cbn [lx0 pth]; lia)).
  destruct (proj2 steps_deep l Hl (0 + 1) (set_pth lx0 1)) as (o' & f & c & k & E & _); [done|done|cbn [set_pth pth]; lia|].
  rewrite steps_app. change (set_pth lx0 (pth lx0 + 1)) with (set_pth lx0 1). rewrite E. unfold lx0. fields.
  rewrite steps_op by done. fields. cbn [Z.eqb Pos.eqb].
  match goal with |- context [steps _ ?j ?y] => destruct (proj1 steps_deep r Hr j y) as (c' & k' & E'); [done|cbn [pth]; lia..|] end.
  fields. exists c', k'. rewrite E'. f_equal. f_equal. lia.
Qed.

(** The loop behind a term that is the whole text, and behind one that an
    operator follows. *)
Lemma loop_term p t a e : wf_term p -> forall pre post n, t = pre ++ print_term p ++ post -> a = zlen pre -> follows post ->
  a + zlen (print_term p) <= e -> e <= zlen t -> zlen (print_term p) < 2 ^ 32 ->
  (a + zlen (print_term p) = e -> (length (print_term p) <= n)%nat -> ops_loop t n a e 0 lx0 = Ok (Some (term_state p))) /\
  (forall o post', post = op_char o :: post' -> a + zlen (print_term p) < e -> (length (print_term p) < n)%nat ->
     ops_loop t n a e 0 lx0 = Ok (Some (set_op (set_blk (term_state p) (blkend (term_state p)) 0) (op_char o) (zlen (print_term p))))).
Proof.
  intros Hw pre post n Ht Ha Hf He Het Hb.
  assert (steps (print_term p) 0 lx0 = Some (term_state p) -> blkmod (term_state p) = 0 -> pth (term_state p) = 0 ->
    (a + zlen (print_term p) = e -> (length (print_term p) <= n)%nat -> ops_loop t n a e 0 lx0 = Ok (Some (term_state p))) /\
    (forall o post', post = op_char o :: post' -> a + zlen (print_term p) < e -> (length (print_term p) < n)%nat ->
     ops_loop t n a e 0 lx0 = Ok (Some (set_op (set_blk (term_state p) (blkend (term_state p)) 0) (op_char o) (zlen (print_term p)))))) as Hgen.
  { intros Hs Hbm Hp0. split.
    - intros He' Hn. rewrite (ops_loop_steps _ _ _ (print_term p) pre post n 0 lx0 _ Ht) by (done || lia). apply ops_loop_end. lia.
    - intros o post' -> He' Hn. rewrite (ops_loop_steps _ _ _ (print_term p) pre _ n 0 lx0 _ Ht) by (done || lia).
      destruct (n - length (print_term p))%nat as [|n'] eqn:En; [lia|].
      rewrite (ops_loop_op _ _ _ _ o (pre ++ print_term p) post'); [|by rewrite <- app_assoc|rewrite length_app; lia|lia|done].
      do 2 f_equal. destruct (term_state p). cbn in Hbm. by subst. }
  destruct p as [id m|p|l o r m].
  - destruct Hw as (Hid & _ & Hm). apply Hgen; [by apply steps_sub0|by destruct m as [[? ?]|]|by destruct m as [[? ?]|]].
  - cbn [wf_term] in Hw. apply Hgen; [|done..]. apply steps_par0; [done|]. cbn [print_term length] in Hb. rewrite length_app in Hb. cbn in Hb. lia.
  - clear Hgen. destruct Hw as (Hl & Hr & Hm). cbn [print_term] in *. set (w := 40 :: print l ++ op_char o :: print_term r).
    assert (40 :: print l ++ op_char o :: print_term r ++ 41 :: print_blkmod m = w ++ 41 :: print_blkmod m) as Ew.
    { unfold w. cbn [app]. f_equal. rewrite <- app_assoc. done. }
    rewrite Ew in *. rewrite length_app in *. cbn [length] in *.
    assert (zlen w = zlen (print l) + zlen (print_term r) + 2) as Elw by (unfold w; cbn [length]; rewrite length_app; cbn [length]; lia).
    destruct (steps_blk0 l o r Hl Hr ltac:(lia)) as (c & k & Es). fold w in Es. clearbody w.
    assert (forall n', (length w < n)%nat -> (n - length w = S n')%nat ->
      ops_loop t n a e 0 lx0 =
      if a + (zlen w + zlen (print_blkmod m)) + 1 =? e then Ok (Some (term_state (TBlk l o r m)))
      else ops_loop t n' a e (zlen w + zlen (print_blkmod m) + 1) (set_blk (term_state (TBlk l o r m)) (zlen w) 0)) as Hgo.
    { intros n' Hn En. rewrite <- app_assoc in Ht. rewrite (ops_loop_steps _ _ _ w pre _ n 0 lx0 _ Ht) by (done || lia). rewrite En.
      erewrite (ops_loop_char _ _ _ _ 41 (pre ++ w)); [|by rewrite Ht, <- app_assoc; cbn [app]|rewrite length_app; lia|lia].
      unfold ops_char. fields. cbn [Z.eqb Pos.eqb]. change (1 - 1) with 0. cbn [negb Z.eqb]. replace (negb (op_char o =? 0)) with true by (by destruct o). cbn [andb].
      destruct (follows_ends _ Hf) as [Hf1 Hf2].
      rewrite (block_end_spec t a (e - a) (0 + zlen w) m _ (pre ++ w ++ [41]) post); [|by rewrite Ht, <- !app_assoc|
        rewrite !length_app; cbn [length]; lia|done|done|done|lia|lia|lia|done..].
      cbn [modval2 blkmod modval1 blkend]. fields. unfold term_state. rewrite <- Elw, !Z.add_0_l. by destruct o. }
    split.
    + intros He' Hn. rewrite (Hgo (n - length w - 1)%nat) by lia. destruct (Z.eqb_spec (a + (zlen w + zlen (print_blkmod m)) + 1) e); [done|lia].
    + intros o' post' Hpost He' Hn. rewrite (Hgo (n - length w - 1)%nat) by lia. destruct (Z.eqb_spec (a + (zlen w + zlen (print_blkmod m)) + 1) e); [lia|].
      destruct (n - length w - 1)%nat as [|n'] eqn:En; [lia|].
      rewrite (ops_loop_op _ _ _ _ o' (pre ++ w ++ 41 :: print_blkmod m) post'); [|by rewrite Ht, Hpost, <- !app_assoc|rewrite !length_app; cbn [length]; lia|lia|done].
      do 2 f_equal. cbn [term_state set_blk set_op]. unfold set_blk, set_op. cbn. rewrite Elw. f_equal; lia.
Qed.

(** ** One call on each form of text *)
Section Calls.
Context (t : list Z) (cs : option (list Z)).

(** A call for both sides. *)
Definition call_both (fuel : nat) (o : Z) (x : lx) (l1 l2 r1 r2 cnt ids : Z) : res answer :=
  let! (lval, lcnt, lids) := cli_ac_chklsig t cs fuel l1 l2 0 0 in
  if lval =? -1 then Ok (-1, cnt, ids)
  else
    let! (rval, rcnt, rids) := cli_ac_chklsig t cs fuel r1 r2 0 0 in
    if rval =? -1 then Ok (-1, cnt, ids) else chk_join cs o x lval lcnt lids rval rcnt rids cnt ids.

Context (pre post : list Z) (fuel : nat) (cnt ids : Z) (Hf : follows post).

Lemma call_sub id m : wf_term (TSub id m) -> t = pre ++ print_term (TSub id m) ++ post -> zlen (print_term (TSub id m)) < 2 ^ 32 ->
  cli_ac_chklsig t cs (S fuel) (zlen pre) (zlen pre + zlen (print_term (TSub id m))) cnt ids =
  chk_leaf t cs (zlen pre) (term_state (TSub id m)) cnt ids.
Proof using Hf.
  intros Hw Ht Hb. cbn [cli_ac_chklsig].
  rewrite (proj1 (loop_term _ t (zlen pre) (zlen pre + zlen (print_term (TSub id m))) Hw pre post _ Ht eq_refl Hf ltac:(lia)
    ltac:(rewrite Ht, !length_app; lia) Hb)) by lia.
  replace (pth (term_state (TSub id m))) with 0 by (by destruct m as [[? ?]|]).
  replace (op (term_state (TSub id m))) with 0 by (by destruct m as [[? ?]|]).
  replace (op1 (term_state (TSub id m))) with 0 by (by destruct m as [[? ?]|]). cbn [negb Z.eqb andb].
  destruct Hw as ([Hd Hl _] & _). destruct id as [|d id]; [cbn in Hl; lia|]. inversion Hd as [|? ? Hdd _]; subst.
  pose proof (chr_app _ pre (print_term (TSub (d :: id) m)) post 0 eq_refl ltac:(cbn; lia)) as Hc. rewrite Z.add_0_r in Hc. rewrite Hc.
  cbn [print_term app of_opt]. change ((d :: id ++ print_mod m) !! 0%nat) with (Some d). cbn [of_opt].
  apply isdigit_range in Hdd. by destruct (Z.eqb_spec d 40); [lia|].
Qed.

Lemma call_par p : wf_term p -> t = pre ++ print_term (TPar p) ++ post -> zlen (print_term (TPar p)) < 2 ^ 32 ->
  cli_ac_chklsig t cs (S fuel) (zlen pre) (zlen pre + zlen (print_term (TPar p))) cnt ids =
  cli_ac_chklsig t cs fuel (zlen pre + 1) (zlen pre + 1 + zlen (print_term p)) cnt ids.
Proof using Hf.
  intros Hw Ht Hb. cbn [cli_ac_chklsig].
  rewrite (proj1 (loop_term (TPar p) t (zlen pre) (zlen pre + zlen (print_term (TPar p))) Hw pre post _ Ht eq_refl Hf ltac:(lia)
    ltac:(rewrite Ht, !length_app; lia) Hb)) by lia.
  cbn [term_state set_mod lx0 pth op op1 negb Z.eqb andb].
  pose proof (chr_app _ pre (print_term (TPar p)) post 0 Ht ltac:(cbn; lia)) as Hc. rewrite Z.add_0_r in Hc. rewrite Hc.
  cbn [print_term]. change ((40 :: print_term p ++ [41]) !! 0%nat) with (Some 40). cbn [of_opt Z.eqb Pos.eqb].
  f_equal. cbn [length]. rewrite length_app. cbn [length]. lia.
Qed.

Lemma call_blk l o r m : wf_term (TBlk l o r m) -> t = pre ++ print_term (TBlk l o r m) ++ post -> zlen (print_term (TBlk l o r m)) < 2 ^ 32 ->
  cli_ac_chklsig t cs (S fuel) (zlen pre) (zlen pre + zlen (print_term (TBlk l o r m))) cnt ids =
  call_both fuel (op_char o) (term_state (TBlk l o r m)) (zlen pre + 1) (zlen pre + 1 + zlen (print l))
    (zlen pre + 1 + zlen (print l) + 1) (zlen pre + 1 + zlen (print l) + 1 + zlen (print_term r)) cnt ids.
Proof using Hf.
  intros Hw Ht Hb. cbn [cli_ac_chklsig].
  rewrite (proj1 (loop_term _ t (zlen pre) (zlen pre + zlen (print_term (TBlk l o r m))) Hw pre post _ Ht eq_refl Hf ltac:(lia)
    ltac:(rewrite Ht, !length_app; lia) Hb)) by lia.
  unfold call_both. cbn [term_state pth op op1 op1off blkend negb Z.eqb andb].
  replace (op_char o =? 0) with false by (by destruct o).
  assert (zlen (print_term (TBlk l o r m)) = zlen (print l) + zlen (print_term r) + 3 + zlen (print_blkmod m)) as El.
  { cbn [print_term length]. rewrite !length_app. cbn [length]. rewrite !length_app. cbn [length]. lia. }
  destruct (Z.eqb_spec (zlen (print l) + 1) 0); [lia|].
  destruct (Z.eqb_spec (zlen (print l) + 1 + 1) (zlen pre + zlen (print_term (TBlk l o r m)) - zlen pre)); [lia|].
  replace (zlen pre + (zlen (print l) + 1)) with (zlen pre + 1 + zlen (print l)) by lia.
  by replace (zlen pre + (zlen (print l) + zlen (print_term r) + 2)) with (zlen pre + 1 + zlen (print l) + 1 + zlen (print_term r)) by lia.
Qed.

Lemma print_term_nonempty p : wf_term p -> (1 <= length (print_term p))%nat.
Proof using. destruct p; cbn; [intros ([_ ? _] & _); rewrite length_app; lia|lia..]. Qed.

Lemma print_nonempty e : wf e -> (1 <= length (print e))%nat.
Proof using. destruct e; cbn [print wf]; [apply print_term_nonempty|]. intros [Hp _]. rewrite length_app. cbn. lia. Qed.

Lemma call_bin p o r : wf (EBin p o r) -> t = pre ++ print (EBin p o r) ++ post -> zlen (print (EBin p o r)) < 2 ^ 32 ->
  exists x, blkmod x = 0 /\ cli_ac_chklsig t cs (S fuel) (zlen pre) (zlen pre + zlen (print (EBin p o r))) cnt ids =
  call_both fuel (op_char o) x (zlen pre) (zlen pre + zlen (print_term p))
    (zlen pre + zlen (print_term p) + 1) (zlen pre + zlen (print_term p) + 1 + zlen (print r)) cnt ids.
Proof using Hf.
  intros [Hp Hr] Ht Hb. pose proof (print_term_nonempty p Hp). pose proof (print_nonempty r Hr).
  cbn [print] in *. rewrite length_app in Hb |- *. cbn [length] in *.
  rewrite <- app_assoc in Ht. cbn [app] in Ht.
  eexists (set_op (set_blk (term_state p) (blkend (term_state p)) 0) (op_char o) (zlen (print_term p))). split; [done|]. cbn [cli_ac_chklsig].
  erewrite (proj2 (loop_term p t (zlen pre) _ Hp pre _ _ Ht eq_refl ltac:(by destruct o; cbn; auto) _ _ ltac:(lia)) o);
    [|done|lia|lia]. Unshelve. 2: lia. 2: { rewrite Ht, !length_app. cbn [length]. rewrite length_app. lia. }
  unfold call_both. cbn [set_op set_blk pth op opoff].
  replace (pth (term_state p)) with 0 by (by destruct p as [? [[? ?]|]| |]). cbn [negb Z.eqb].
  replace (op_char o =? 0) with false by (by destruct o). cbn [andb].
  destruct (Z.eqb_spec (zlen (print_term p)) 0); [lia|].
  match goal with |- context [?u =? ?v - ?w] => destruct (Z.eqb_spec u (v - w)); [lia|] end.
  by replace (zlen pre + zlen (print_term p) + 1 + zlen (print r)) with (zlen pre + Z.of_nat (length (print_term p) + S (length (print r)))) by lia.
Qed.
End Calls.

(** ** Sets of parts as words *)

(** The 64-bit word [m] has the bits of the set [s]. *)
Definition mask_of (m : Z) (s : gset Z) : Prop :=
  0 <= m < 2 ^ 64 /\ forall i, i ∈ s <-> 0 <= i < 64 /\ Z.testbit m i = true.

Lemma mask_empty : mask_of 0 ∅.
Proof. split; [done|]. intros i. rewrite Z.testbit_0_l. set_solver. Qed.

Lemma mask_single i : 0 <= i < 64 -> mask_of (Z.shiftl 1 i) {[i]}.
Proof.
  intros Hi. rewrite Z.shiftl_1_l. split; [split; [apply Z.pow_nonneg; lia|apply Z.pow_lt_mono_r; lia]|].
  intros j. rewrite elem_of_singleton. split.
  - intros ->. split; [done|]. apply Z.pow2_bits_true. lia.
  - intros [Hj H]. destruct (Z.eq_dec i j); [done|]. rewrite Z.pow2_bits_false in H by lia. done.
Qed.

Lemma mask_lor m1 m2 s1 s2 : mask_of m1 s1 -> mask_of m2 s2 -> mask_of (Z.lor m1 m2) (s1 ∪ s2).
Proof.
  intros [H1 B1] [H2 B2]. split.
  - assert (0 <= Z.lor m1 m2) as Hn by (apply Z.lor_nonneg; lia). split; [done|].
    assert (Z.lor m1 m2 = Z.land (Z.lor m1 m2) (Z.ones 64)) as ->; [|rewrite Z.land_ones by lia; by apply Z.mod_pos_bound].
    rewrite Z.land_lor_distr_l, !Z.land_ones, !Z.mod_small by lia. done.
  - intros i. rewrite elem_of_union, B1, B2, Z.lor_spec, orb_true_iff. tauto.
Qed.

Lemma filter_shift m l : Forall (fun i => 0 <= i) l ->
  filter (fun i => Z.testbit m i = true) (Z.add 1 <$> l) = Z.add 1 <$> filter (fun i => Z.testbit (Z.shiftr m 1) i = true) l.
Proof.
  induction 1 as [|i l Hi Hl IH]; [done|]. cbn [fmap list_fmap]. rewrite !filter_cons, IH. rewrite Z.shiftr_spec, (Z.add_comm i) by done.
  by destruct (decide _).
Qed.

(** The loop counts the bits. *)
Lemma popcount_bits n m : 0 <= m < 2 ^ Z.of_nat n ->
  popcount n m = zlen (filter (fun i => Z.testbit m i = true) (seqZ 0 (Z.of_nat n))).
Proof.
  revert m. induction n as [|n IH]; intros m Hm; [done|]. cbn [popcount].
  rewrite seqZ_cons by lia. replace (Z.pred (Z.of_nat (S n))) with (Z.of_nat n) by lia. change (Z.succ 0) with (1 + 0).
  rewrite <- fmap_add_seqZ, filter_cons, filter_shift.
  2: { apply Forall_forall. intros i Hi%elem_of_seqZ. lia. }
  assert (0 <= Z.shiftr m 1 < 2 ^ Z.of_nat n) as Hs.
  { rewrite Z.shiftr_div_pow2 by lia. change (2 ^ 1) with 2. rewrite Nat2Z.inj_succ, Z.pow_succ_r in Hm by lia.
    split; [apply Z.div_pos; lia|]. apply Z.div_lt_upper_bound; lia. }
  specialize (IH _ Hs). destruct (Z.eqb_spec m 0) as [-> |Hne].
  - rewrite Z.testbit_0_l. destruct (decide (false = true)); [done|]. rewrite length_fmap, <- IH. by destruct n.
  - change (Z.land m 1) with (Z.land m (Z.ones 1)). rewrite Z.land_ones, IH by lia. change (2 ^ 1) with 2. rewrite <- Z.bit0_mod.
    destruct (Z.testbit m 0); destruct (decide _); try done; cbn [length Z.b2z]; rewrite length_fmap; lia.
Qed.

Lemma popcount_size m s : mask_of m s -> popcount 64 m = Z.of_nat (size s).
Proof.
  intros [Hm B]. rewrite popcount_bits by done. f_equal.
  assert (s = list_to_set (filter (fun i => Z.testbit m i = true) (seqZ 0 64))) as ->.
  { apply set_eq. intros i. rewrite elem_of_list_to_set, list_elem_of_filter, elem_of_seqZ, B. split; intros [? ?]; (split; [done|lia]) || (split; [lia|done]). }
  rewrite size_list_to_set; [done|]. apply NoDup_filter, NoDup_seqZ.
Qed.

(** ** Meaning of the answers *)

(** The counts of the parts, as the scan leaves them. *)
Definition counts_ok (cnts : list Z) : Prop := (64 <= length cnts)%nat /\ Forall (fun c => 0 <= c < 2 ^ 32) cnts.

Lemma count_range cnts id : counts_ok cnts -> 0 <= count cnts id < 2 ^ 32.
Proof.
  intros [_ H]. unfold count, bget. destruct (id <? 0); [done|]. destruct (cnts !! Z.to_nat id) eqn:E; [|done]. by eapply Forall_lookup_1 in H.
Qed.

Lemma total_range cnts : counts_ok cnts -> (forall p, 0 <= total (eval_term cnts p) < 2 ^ 32) /\ (forall e, 0 <= total (eval cnts e) < 2 ^ 32).
Proof.
  intros Hc. assert (forall o l r, 0 <= total (join o l r) < 2 ^ 32) as Hj.
  { intros o l r. unfold join. destruct (match o with And => _ | Or => _ end); [|done]. apply uint_range. lia. }
  apply term_expr_ind; cbn [eval_term eval]; [|done| |done|by intros].
  - intros id m. unfold eval_sub. destruct (match m with Some _ => _ | None => _ end); [|done]. by apply count_range.
  - intros l _ o r _ [[[c n] k]|]; cbn [constrain]; [|apply Hj]. destruct (_ && _); [|done]. apply Hj.
Qed.

Lemma mod_holds_cmp c v n : mod_holds (cmp_char c) v n = cmp_holds c v n.
Proof. by destruct c. Qed.

(** What a call has to answer for a verdict. *)
Definition answers (v : verdict) (cnt ids : Z) (r : res answer) : Prop :=
  exists mk, mask_of mk (parts v) /\ r = Ok (Z.b2z (holds v), uint 32 (cnt + total v), Z.lor ids mk).

Lemma answers_no cnt ids : 0 <= cnt < 2 ^ 32 -> answers no cnt ids (Ok (0, cnt, ids)).
Proof. intros H. exists 0. split; [apply mask_empty|]. cbn. by rewrite Z.add_0_r, uint_small, Z.lor_0_r by done. Qed.

Lemma ends_mod m post : follows post -> wf_mod m -> ends (print_mod m ++ post).
Proof. intros Hp Hm. destruct m as [[c n]|]; cbn; [by destruct c|]. by apply follows_ends. Qed.

Lemma leaf_texts t pre post id m : wf_term (TSub id m) -> follows post -> t = pre ++ print_term (TSub id m) ++ post ->
  scan_u (str_from t (zlen pre)) = Some (num_value id, print_mod m ++ post) /\
  match m with
  | None => mod_ (term_state (TSub id m)) = 0
  | Some (c, n) => mod_ (term_state (TSub id m)) = cmp_char c /\
      scan_u (str_from t (zlen pre + modoff (term_state (TSub id m)) + 1)) = Some (num_value n, post)
  end.
Proof.
  intros (Hid & _ & Hm) Hf Ht. cbn [print_term] in Ht. split.
  - rewrite (str_from_app t pre (id ++ print_mod m ++ post)) by (by rewrite Ht, <- app_assoc).
    by rewrite scan_u_num by (done || (left; by apply ends_mod)).
  - destruct m as [[c n]|]; [|done]. split; [done|]. cbn [term_state set_mod modoff].
    replace (zlen pre + zlen id + 1) with (zlen (pre ++ id ++ [cmp_char c])) by (rewrite !length_app; cbn; lia).
    rewrite (str_from_app t _ (n ++ post)) by (rewrite Ht; cbn [print_mod]; by rewrite <- !app_assoc).
    by rewrite scan_u_num by (done || (left; by apply follows_ends)).
Qed.

Lemma leaf_answers t cnts pre post id m cnt ids : wf_term (TSub id m) -> follows post -> t = pre ++ print_term (TSub id m) ++ post ->
  counts_ok cnts -> 0 <= cnt < 2 ^ 32 ->
  answers (eval_term cnts (TSub id m)) cnt ids (chk_leaf t (Some cnts) (zlen pre) (term_state (TSub id m)) cnt ids).
Proof.
  intros Hw Hf Ht Hc Hcnt. destruct (leaf_texts t pre post id m Hw Hf Ht) as [H1 H2]. destruct Hw as ([Hd _ _] & Hid & Hm).
  pose proof (num_value_nonneg _ Hd) as H0. unfold chk_leaf. rewrite H1.
  assert (bget cnts (num_value id) = Some (count cnts (num_value id))) as Hg.
  { unfold count. destruct (bget_is_Some cnts (num_value id)) as [v ->]; [destruct Hc; lia|done]. }
  rewrite Hg. cbn [of_opt]. destruct (Z.ltb_spec (num_value id) 64) as [_|]; [|lia].
  assert (answers (Verdict true (count cnts (num_value id)) {[num_value id]}) cnt ids
    (Ok (1, uint 32 (cnt + count cnts (num_value id)), Z.lor ids (Z.shiftl 1 (num_value id))))) as Hyes.
  { exists (Z.shiftl 1 (num_value id)). split; [apply mask_single; lia|done]. }
  cbn [eval_term]. unfold eval_sub. destruct m as [[c n]|].
  - destruct H2 as [-> H2]. rewrite H2. replace (negb (cmp_char c =? 0)) with true by (by destruct c). rewrite mod_holds_cmp.
    destruct (cmp_holds c _ _); [done|by apply answers_no].
  - rewrite H2. cbn [negb Z.eqb]. destruct (negb _); [done|by apply answers_no].
Qed.

(** Joining two answers. *)
Lemma join_answers cnts o x l r cnt ids lm rm : mask_of lm (parts l) -> mask_of rm (parts r) -> 0 <= cnt < 2 ^ 32 ->
  0 <= total l < 2 ^ 32 -> 0 <= total r < 2 ^ 32 ->
  forall m, wf_blkmod m -> blkmod x = modchar m -> modval1 x = modnum m -> modval2 x = modmin m ->
  answers (constrain m (join o l r)) cnt ids
    (chk_join (Some cnts) (op_char o) x (Z.b2z (holds l)) (total l) lm (Z.b2z (holds r)) (total r) rm cnt ids).
Proof.
  intros Hl Hr Hcnt Htl Htr m Hm E1 E2 E3. unfold chk_join. replace ((op_char o =? 38) || (op_char o =? 124)) with true by (by destruct o).
  cbn [negb]. set (b := if op_char o =? 38 then _ else _).
  assert (b = match o with And => holds l && holds r | Or => holds l || holds r end) as Eb by (unfold b; by destruct o, (holds l), (holds r)).
  clearbody b. subst b. set (v := join o l r).
  set (b := match o with And => _ | Or => _ end).
  assert (v = if b then Verdict true (uint 32 (total l + total r)) (parts l ∪ parts r) else no) as Ev by done.
  assert (mask_of (if b then Z.lor lm rm else 0) (parts v)) as Hmk.
  { rewrite Ev. destruct b; [by apply mask_lor|apply mask_empty]. }
  assert (total v = if b then uint 32 (total l + total r) else 0) as Et by (rewrite Ev; by destruct b).
  assert (holds v = b) as Eh by (rewrite Ev; by destruct b).
  clearbody v. destruct m as [[[c n] k]|]; cbn [modchar modnum modmin constrain] in *.
  - destruct Hm as [Hn Hk]. rewrite E1. replace (cmp_char c =? 0) with false by (by destruct c). rewrite E2. cbn [of_opt].
    rewrite mod_holds_cmp, <- Et. destruct (cmp_holds c (total v) (num_value n)); cbn [negb andb]; [|by apply answers_no].
    rewrite E3. assert (answers (Verdict true (total v) ∅) cnt ids (Ok (1, uint 32 (cnt + total v), ids))) as Hyes.
    { exists 0. split; [apply mask_empty|]. cbn. by rewrite Z.lor_0_r. }
    destruct k as [k|]; cbn [negb Z.eqb andb]; [|done].
    rewrite (popcount_size _ _ Hmk). pose proof (num_value_nonneg _ (nu_digits _ Hk)).
    destruct (Z.eqb_spec (num_value k) 0), (Z.leb_spec (num_value k) (Z.of_nat (size (parts v)))),
      (Z.ltb_spec (Z.of_nat (size (parts v))) (num_value k)); cbn [negb andb]; try lia; (done || by apply answers_no).
  - rewrite E1. cbn [Z.eqb]. exists (if b then Z.lor lm rm else 0). split; [done|]. rewrite Eh, Et.
    destruct b; [done|]. cbn. by rewrite Z.add_0_r, uint_small, Z.lor_0_r.
Qed.

Lemma both_answers t cnts fuel o x l1 l2 r1 r2 cnt ids l r m :
  answers l 0 0 (cli_ac_chklsig t (Some cnts) fuel l1 l2 0 0) -> answers r 0 0 (cli_ac_chklsig t (Some cnts) fuel r1 r2 0 0) ->
  0 <= cnt < 2 ^ 32 -> 0 <= total l < 2 ^ 32 -> 0 <= total r < 2 ^ 32 ->
  wf_blkmod m -> blkmod x = modchar m -> modval1 x = modnum m \/ m = None -> modval2 x = modmin m \/ m = None ->
  answers (constrain m (join o l r)) cnt ids (call_both t (Some cnts) fuel (op_char o) x l1 l2 r1 r2 cnt ids).
Proof.
  intros (lm & Hlm & El) (rm & Hrm & Er) Hcnt Hl Hr Hm E1 E2 E3. unfold call_both. rewrite El, Er, !Z.add_0_l, !uint_small, !Z.lor_0_l by done.
  destruct (Z.eqb_spec (Z.b2z (holds l)) (-1)); [by destruct (holds l)|]. destruct (Z.eqb_spec (Z.b2z (holds r)) (-1)); [by destruct (holds r)|].
  destruct m as [m|].
  - destruct E2 as [E2|]; [|done]. destruct E3 as [E3|]; [|done]. by apply join_answers.
  - pose proof (join_answers cnts o (Lx 0 0 0 0 0 0 0 0 0 None 0) l r cnt ids lm rm Hlm Hrm Hcnt Hl Hr None I eq_refl eq_refl eq_refl) as H.
    unfold chk_join in *. rewrite E1. exact H.
Qed.

(** Induction over the calls: what holds of the answers for single parts, and is kept
    when the answers of both sides are put together, holds of all expressions. *)
Lemma call_ind t cs (At : term -> Z -> Z -> res answer -> Prop) (Ae : expr -> Z -> Z -> res answer -> Prop) :
  (forall id m pre post cnt ids, wf_term (TSub id m) -> follows post -> t = pre ++ print_term (TSub id m) ++ post -> 0 <= cnt < 2 ^ 32 ->
     At (TSub id m) cnt ids (chk_leaf t cs (zlen pre) (term_state (TSub id m)) cnt ids)) ->
  (forall p cnt ids r, At p cnt ids r -> At (TPar p) cnt ids r) ->
  (forall l o r m fuel l1 l2 r1 r2 cnt ids, wf_blkmod m -> 0 <= cnt < 2 ^ 32 ->
     Ae l 0 0 (cli_ac_chklsig t cs fuel l1 l2 0 0) -> At r 0 0 (cli_ac_chklsig t cs fuel r1 r2 0 0) ->
     At (TBlk l o r m) cnt ids (call_both t cs fuel (op_char o) (term_state (TBlk l o r m)) l1 l2 r1 r2 cnt ids)) ->
  (forall p cnt ids r, At p cnt ids r -> Ae (ETerm p) cnt ids r) ->
  (forall p o r x fuel l1 l2 r1 r2 cnt ids, blkmod x = 0 -> 0 <= cnt < 2 ^ 32 ->
     At p 0 0 (cli_ac_chklsig t cs fuel l1 l2 0 0) -> Ae r 0 0 (cli_ac_chklsig t cs fuel r1 r2 0 0) ->
     Ae (EBin p o r) cnt ids (call_both t cs fuel (op_char o) x l1 l2 r1 r2 cnt ids)) ->
  (forall p, wf_term p -> forall pre post fuel cnt ids, follows post -> t = pre ++ print_term p ++ post -> zlen (print_term p) < 2 ^ 32 ->
     (length (print_term p) < fuel)%nat -> 0 <= cnt < 2 ^ 32 ->
     At p cnt ids (cli_ac_chklsig t cs fuel (zlen pre) (zlen pre + zlen (print_term p)) cnt ids)) /\
  (forall e, wf e -> forall pre post fuel cnt ids, follows post -> t = pre ++ print e ++ post -> zlen (print e) < 2 ^ 32 ->
     (length (print e) < fuel)%nat -> 0 <= cnt < 2 ^ 32 ->
     Ae e cnt ids (cli_ac_chklsig t cs fuel (zlen pre) (zlen pre + zlen (print e)) cnt ids)).
Proof.
  intros Hsub Hpar Hblk Hterm Hbin. apply term_expr_ind.
  - intros id m Hw pre post [|fuel] cnt ids Hf Ht Hb Hfu Hcnt; [lia|]. rewrite (call_sub _ _ pre post) by done. by eapply Hsub.
  - intros p IH Hw pre post [|fuel] cnt ids Hf Ht Hb Hfu Hcnt; [lia|]. rewrite (call_par _ _ pre post) by done. cbn [print_term length] in *.
    rewrite length_app in *. cbn [length] in *. replace (zlen pre + 1) with (zlen (pre ++ [40])) by (rewrite length_app; cbn; lia).
    apply Hpar, (IH Hw _ (41 :: post)); [by right; right|by rewrite Ht, <- !app_assoc; cbn [app]; rewrite <- app_assoc|lia|lia|done].
  - intros l IHl o r IHr m Hw pre post [|fuel] cnt ids Hf Ht Hb Hfu Hcnt; [lia|]. rewrite (call_blk _ _ pre post) by done.
    destruct Hw as (Hl & Hr & Hm). cbn [print_term length] in *. rewrite !length_app in *. cbn [length] in *. rewrite !length_app in *. cbn [length] in *.
    apply Hblk; [done|done| |].
    + replace (zlen pre + 1) with (zlen (pre ++ [40])) by (rewrite length_app; cbn; lia).
      apply (IHl Hl _ (op_char o :: print_term r ++ 41 :: print_blkmod m ++ post)); [by destruct o; cbn; auto| |lia|lia|done].
      rewrite Ht, <- !app_assoc. cbn [app]. rewrite <- !app_assoc. cbn [app]. by rewrite <- !app_assoc.
    + replace (zlen pre + 1 + zlen (print l) + 1) with (zlen (pre ++ 40 :: print l ++ [op_char o])) by (rewrite length_app; cbn [length]; rewrite length_app; cbn; lia).
      apply (IHr Hr _ (41 :: print_blkmod m ++ post)); [by right; right| |lia|lia|done].
      rewrite Ht, <- !app_assoc. cbn [app]. rewrite <- !app_assoc. cbn [app]. rewrite <- !app_assoc. done.
  - intros p IH Hw pre post fuel cnt ids Hf Ht Hb Hfu Hcnt. apply Hterm. by apply (IH Hw pre post).
  - intros p IHp o r IHr Hw pre post [|fuel] cnt ids Hf Ht Hb Hfu Hcnt; [lia|].
    destruct (call_bin t cs pre post fuel cnt ids Hf p o r Hw Ht Hb) as (x & Ex & ->). destruct Hw as [Hp Hr].
    cbn [print length] in *. rewrite !length_app in *. cbn [length] in *. apply Hbin; [done|done| |].
    + apply (IHp Hp _ (op_char o :: print r ++ post)); [by destruct o; cbn; auto|by rewrite Ht, <- app_assoc|lia|lia|done].
    + replace (zlen pre + zlen (print_term p) + 1) with (zlen (pre ++ print_term p ++ [op_char o])) by (rewrite !length_app; cbn; lia).
      apply (IHr Hr _ post); [done|by rewrite Ht, <- !app_assoc|lia|lia|done].
Qed.

(** Any text of an expression gives its verdict. *)
Lemma call_answers t cnts e : counts_ok cnts -> wf e -> t = print e -> zlen t < 2 ^ 32 -> answers (eval cnts e) 0 0 (chklsig t (Some cnts)).
Proof.
  intros Hc Hw -> Hb. destruct (total_range cnts Hc) as [Htt Hte].
  apply (proj2 (call_ind (print e) (Some cnts) (fun p => answers (eval_term cnts p)) (fun e => answers (eval cnts e))
    ltac:(intros; by eapply leaf_answers) ltac:(done) ltac:(intros; cbn [eval_term]; apply both_answers; (done || by left)) ltac:(done)
    ltac:(intros p o r *; intros; cbn [eval]; apply (both_answers _ _ _ _ _ _ _ _ _ _ _ _ _ None); (done || by right))) e Hw [] []);
    [done|by rewrite app_nil_r|done|lia|done].
Qed.

(** With [parse_only] the answer is the largest index. *)
Definition tops (v : Z) (cnt ids : Z) (r : res answer) : Prop := 0 <= v < 64 /\ r = Ok (v, cnt, ids).

Lemma leaf_tops t pre post id m cnt ids : wf_term (TSub id m) -> follows post -> t = pre ++ print_term (TSub id m) ++ post ->
  tops (top_term (TSub id m)) cnt ids (chk_leaf t None (zlen pre) (term_state (TSub id m)) cnt ids).
Proof.
  intros Hw Hf Ht. destruct (leaf_texts t pre post id m Hw Hf Ht) as [H1 H2]. destruct Hw as ([Hd _ _] & Hid & Hm).
  pose proof (num_value_nonneg _ Hd) as H0. split; [done|]. unfold chk_leaf. rewrite H1.
  rewrite sint_small by (change (2 ^ (32 - 1)) with 2147483648; lia). cbn [top_term].
  destruct m as [[c n]|]; [|by rewrite H2]. destruct H2 as [-> ->]. by destruct (negb _).
Qed.

Lemma both_tops t fuel o x l1 l2 r1 r2 cnt ids vl vr :
  tops vl 0 0 (cli_ac_chklsig t None fuel l1 l2 0 0) -> tops vr 0 0 (cli_ac_chklsig t None fuel r1 r2 0 0) ->
  tops (Z.max vl vr) cnt ids (call_both t None fuel (op_char o) x l1 l2 r1 r2 cnt ids).
Proof.
  intros [Hvl El] [Hvr Er]. split; [lia|]. unfold call_both. rewrite El, Er.
  destruct (Z.eqb_spec vl (-1)); [lia|]. destruct (Z.eqb_spec vr (-1)); [lia|]. cbn [chk_join]. by destruct o.
Qed.

Lemma call_tops t e : wf e -> t = print e -> zlen t < 2 ^ 32 -> tops (top e) 0 0 (chklsig t None).
Proof.
  intros Hw -> Hb.
  apply (proj2 (call_ind (print e) None (fun p => tops (top_term p)) (fun e => tops (top e))
    ltac:(intros; by eapply leaf_tops) ltac:(done) ltac:(intros; by apply both_tops) ltac:(done) ltac:(intros; by apply both_tops)) e Hw [] []);
    [done|by rewrite app_nil_r|done|lia|done].
Qed.

(** ** The documented meaning

    A signature that matches contributes its matches and itself; a block that does
    not hold contributes nothing (A=0 is the negation of a block: one that does not
    hold generates no matches); a comparison of a block counts all its matches and,
    behind a comma, all its signatures that match. *)
Definition mean_join (o : bop) (l r : verdict) : verdict :=
  if match o with And => holds l && holds r | Or => holds l || holds r end
  then Verdict true (total l + total r) (parts l ∪ parts r) else no.

Definition mean_block (m : option (cmp * list Z * option (list Z))) (v : verdict) : verdict :=
  match m with
  | None => v
  | Some (c, n, k) =>
      if cmp_holds c (total v) (num_value n) &&
         match k with None => true | Some k => num_value k <=? Z.of_nat (size (parts v)) end
      then Verdict true (total v) (parts v) else no
  end.

Definition mean_sub (cnts : list Z) (id : Z) (m : option (cmp * list Z)) : verdict :=
  if match m with None => negb (count cnts id =? 0) | Some (c, n) => cmp_holds c (count cnts id) (num_value n) end
  then Verdict true (count cnts id) (if count cnts id =? 0 then ∅ else {[id]}) else no.

Fixpoint mean_term (cnts : list Z) (p : term) : verdict :=
  match p with
  | TSub id m => mean_sub cnts (num_value id) m
  | TPar p => mean_term cnts p
  | TBlk l o r m => mean_block m (mean_join o (meaning cnts l) (mean_term cnts r))
  end
with meaning (cnts : list Z) (e : expr) : verdict :=
  match e with
  | ETerm p => mean_term cnts p
  | EBin p o r => mean_join o (mean_term cnts p) (meaning cnts r)
  end.

(** An expression without comparisons; and one in which a number of different
    signatures is asked for of such blocks only. *)
Fixpoint uncompared_term (p : term) : bool :=
  match p with
  | TSub _ m => match m with None => true | _ => false end
  | TPar p => uncompared_term p
  | TBlk l _ r m => uncompared l && uncompared_term r && match m with None => true | _ => false end
  end
with uncompared (e : expr) : bool :=
  match e with
  | ETerm p => uncompared_term p
  | EBin p _ r => uncompared_term p && uncompared r
  end.

Fixpoint flat_term (p : term) : bool :=
  match p with
  | TSub _ _ => true
  | TPar p => flat_term p
  | TBlk l _ r m => flat l && flat_term r && match m with Some (_, _, Some _) => uncompared l && uncompared_term r | _ => true end
  end
with flat (e : expr) : bool :=
  match e with
  | ETerm p => flat_term p
  | EBin p _ r => flat_term p && flat r
  end.

Section Meaning.
Context (cnts : list Z) (M : Z) (HM : forall id, 0 <= count cnts id <= M).

Lemma mean_join_bound o l r a b : 0 <= total l <= a -> 0 <= total r <= b -> 0 <= total (mean_join o l r) <= a + b.
Proof. intros. unfold mean_join. destruct o; destruct (_ : bool); cbn; lia. Qed.

Lemma mean_block_bound m v a : 0 <= total v <= a -> 0 <= total (mean_block m v) <= a.
Proof. intros. unfold mean_block. destruct m as [[[c n] k]|]; [|done]. destruct (_ && _); cbn; lia. Qed.

(** The matches counted are at most [M] per character of the text. *)
Lemma mean_bound : (forall p, wf_term p -> 0 <= total (mean_term cnts p) <= M * zlen (print_term p)) /\
  (forall e, wf e -> 0 <= total (meaning cnts e) <= M * zlen (print e)).
Proof using HM.
  assert (0 <= M) as HM0 by (specialize (HM 0); lia).
  apply term_expr_ind; cbn [wf_term wf mean_term meaning print_term print].
  - intros id m (Hid & _). rewrite length_app. pose proof (nu_length _ Hid). specialize (HM (num_value id)).
    unfold mean_sub. destruct (_ : bool); cbn; nia.
  - intros p IH Hp. cbn [length]. rewrite length_app. cbn. specialize (IH Hp). nia.
  - intros l IHl o r IHr m (Hl & Hr & _). specialize (IHl Hl). specialize (IHr Hr).
    cbn [length]. rewrite length_app. cbn [length]. rewrite length_app. cbn [length].
    pose proof (mean_block_bound m _ _ (mean_join_bound o _ _ _ _ IHl IHr)). nia.
  - done.
  - intros p IHp o r IHr [Hp Hr]. specialize (IHp Hp). specialize (IHr Hr). rewrite length_app. cbn [length].
    pose proof (mean_join_bound o _ _ _ _ IHp IHr). nia.
Qed.

Lemma join_meaning o l l' r r' : holds l = holds l' -> total l = total l' -> holds r = holds r' -> total r = total r' ->
  0 <= total l' + total r' < 2 ^ 32 ->
  holds (join o l r) = holds (mean_join o l' r') /\ total (join o l r) = total (mean_join o l' r').
Proof.
  intros E1 E2 E3 E4 Hb. unfold join, mean_join. rewrite E1, E2, E3, E4, uint_small by done. destruct o; by case_match.
Qed.

(** The counts of [cli_ac_chklsig] are those that are meant. *)
Lemma eval_meaning :
  (forall p, wf_term p -> flat_term p = true -> M * zlen (print_term p) < 2 ^ 32 ->
    holds (eval_term cnts p) = holds (mean_term cnts p) /\ total (eval_term cnts p) = total (mean_term cnts p) /\
    (uncompared_term p = true -> eval_term cnts p = mean_term cnts p)) /\
  (forall e, wf e -> flat e = true -> M * zlen (print e) < 2 ^ 32 ->
    holds (eval cnts e) = holds (meaning cnts e) /\ total (eval cnts e) = total (meaning cnts e) /\
    (uncompared e = true -> eval cnts e = meaning cnts e)).
Proof using HM.
  assert (0 <= M) as HM0 by (specialize (HM 0); lia). destruct mean_bound as [HB1 HB2].
  assert (forall o l r, 0 <= total l + total r < 2 ^ 32 -> join o l r = mean_join o l r) as Hj.
  { intros o l r Hb. unfold join, mean_join. by rewrite uint_small. }
  apply term_expr_ind; cbn [wf_term wf mean_term meaning eval_term eval print_term print flat_term flat uncompared_term uncompared].
  - intros id m _ _ _. unfold eval_sub, mean_sub. destruct m as [[c n]|].
    + by destruct (cmp_holds _ _ _).
    + by destruct (count cnts _ =? 0).
  - intros p IH Hp Hf Hb. cbn [length] in Hb. rewrite length_app in Hb. cbn in Hb. apply IH; [done|done|nia].
  - intros l IHl o r IHr m (Hl & Hr & _) [[Hfl Hfr]%andb_true_iff Hm]%andb_true_iff Hb.
    cbn [length] in Hb. rewrite length_app in Hb. cbn [length] in Hb. rewrite length_app in Hb. cbn [length] in Hb.
    pose proof (HB2 l Hl). pose proof (HB1 r Hr).
    destruct (IHl Hl Hfl ltac:(nia)) as (El1 & El2 & El3). destruct (IHr Hr Hfr ltac:(nia)) as (Er1 & Er2 & Er3).
    assert (0 <= total (meaning cnts l) + total (mean_term cnts r) < 2 ^ 32) as Hs by nia.
    destruct (join_meaning o _ _ _ _ El1 El2 Er1 Er2 Hs) as [Ej1 Ej2].
    assert (uncompared l && uncompared_term r = true -> join o (eval cnts l) (eval_term cnts r) = mean_join o (meaning cnts l) (mean_term cnts r)) as Heq.
    { intros [Hu1 Hu2]%andb_true_iff. rewrite (El3 Hu1), (Er3 Hu2). by apply Hj. }
    unfold constrain, mean_block. destruct m as [[[c n] k]|].
    + rewrite andb_false_r. destruct k as [k|]; [rewrite (Heq Hm)|rewrite Ej2]; (split; [|split; [|discriminate]]); by case_match.
    + rewrite andb_true_r. done.
  - done.
  - intros p IHp o r IHr [Hp Hr] [Hfp Hfr]%andb_true_iff Hb. rewrite length_app in Hb. cbn [length] in Hb.
    pose proof (HB1 p Hp). pose proof (HB2 r Hr).
    destruct (IHp Hp Hfp ltac:(nia)) as (El1 & El2 & El3). destruct (IHr Hr Hfr ltac:(nia)) as (Er1 & Er2 & Er3).
    assert (0 <= total (mean_term cnts p) + total (meaning cnts r) < 2 ^ 32) as Hs by nia.
    destruct (join_meaning o _ _ _ _ El1 El2 Er1 Er2 Hs) as [Ej1 Ej2]. split; [done|]. split; [done|].
    intros [Hu1 Hu2]%andb_true_iff. rewrite (El3 Hu1), (Er3 Hu2). by apply Hj.
Qed.
End Meaning.

(** C8. Logical expressions are evaluated as the manual says.  For every expression
    over indices, comparisons, blocks and chains in which a number of different
    signatures is asked for only of blocks without inner comparisons,
    [cli_ac_chklsig] on its text returns whether the expression holds of the counts
    and how many matches contributed (as long as their sum does not overflow),
    without comparisons also which signatures; in [parse_only] mode it returns the
    largest index, for all expressions.  The text is split at operators found by
    counting parentheses, and never left. *)
Theorem chklsig_evaluates e cnts M : wf e -> counts_ok cnts -> (forall id, count cnts id <= M) -> M * zlen (print e) < 2 ^ 32 ->
  zlen (print e) < 2 ^ 32 ->
  (flat e = true -> exists ids, (uncompared e = true -> mask_of ids (parts (meaning cnts e))) /\
     chklsig (print e) (Some cnts) = Ok (Z.b2z (holds (meaning cnts e)), total (meaning cnts e), ids)) /\
  chklsig (print e) None = Ok (top e, 0, 0).
Proof.
  intros Hw Hc HM Hbm Hb. split; [|by apply call_tops]. intros Hf.
  assert (forall id, 0 <= count cnts id <= M) as HM' by (intros id; pose proof (count_range cnts id Hc); specialize (HM id); lia).
  destruct (proj2 (eval_meaning cnts M HM') e Hw Hf Hbm) as (E1 & E2 & E3).
  destruct (call_answers _ cnts e Hc Hw eq_refl Hb) as (mk & Hmk & E). exists mk. split.
  - intros Hu. by rewrite <- (E3 Hu).
  - rewrite E, <- E1, <- E2, Z.add_0_l, Z.lor_0_l, uint_small by (by apply total_range). done.
Qed.

(** (((0|1)=5,2|2)>0&1)&3>6 *)
Definition ex_expr : expr :=
  EBin (TBlk (ETerm (TBlk (ETerm (TBlk (ETerm (TSub [48] None)) Or (TSub [49] None) (Some (CEq, [53], Some [50])))) Or (TSub [50] None) (Some (CGt, [48], None))))
    And (TSub [49] None) None) And (ETerm (TSub [51] (Some (CGt, [54])))).
Definition ex_counts : list Z := [3; 2; 0; 7] ++ replicate 60 0.

Lemma ex_counts_ok : counts_ok ex_counts.
Proof. split; [cbn; lia|]. by repeat (constructor; [lia|]). Qed.

Lemma ex_numeral c : isdigit c = true -> numeral [c].
Proof. intros H. split; [by constructor|cbn; lia|]. apply isdigit_range in H. cbn. lia. Qed.

Lemma chklsig_evaluates_witness :
  (flat ex_expr = true -> exists ids, (uncompared ex_expr = true -> mask_of ids (parts (meaning ex_counts ex_expr))) /\
    chklsig (print ex_expr) (Some ex_counts) = Ok (1, 14, ids)) /\
  chklsig (print ex_expr) None = Ok (3, 0, 0).
Proof.
  apply (chklsig_evaluates ex_expr ex_counts 7); [|apply ex_counts_ok| |vm_compute; reflexivity|vm_compute; reflexivity].
  - cbn. repeat split; cbn; try lia; by repeat constructor.
  - intros id. unfold count, bget. destruct (id <? 0); [cbn; lia|]. destruct (ex_counts !! Z.to_nat id) as [c|] eqn:E; [|cbn; lia].
    revert E. generalize (Z.to_nat id). intros n. do 4 (destruct n as [|n]; [cbn; intros [= <-]; lia|]).
    cbn -[replicate]. intros [-> _]%lookup_replicate. cbn. lia.
Defined.

(** The same operators group differently in parentheses: "0&1|2" is 0&(1|2), but
    "(0&1|2)" is (0&1)|2. *)
Lemma grouping_differs :
  chklsig [48; 38; 49; 124; 50] (Some ([0; 0; 1] ++ replicate 61 0)) = Ok (0, 0, 0) /\
  chklsig [40; 48; 38; 49; 124; 50; 41] (Some ([0; 0; 1] ++ replicate 61 0)) = Ok (1, 1, 4).
Proof. by vm_compute. Qed.

(** The parts of a block with a comparison are not handed on: in "((0&1)>1&2)>2,3"
    three parts match three times in all, but only one is counted as different. *)
Lemma compared_parts_lost :
  chklsig [40; 40; 48; 38; 49; 41; 62; 49; 38; 50; 41; 62; 50; 44; 51] (Some ([1; 1; 1] ++ replicate 61 0)) = Ok (0, 0, 0) /\
  chklsig [40; 40; 48; 38; 49; 41; 38; 50; 41; 62; 50; 44; 51] (Some ([1; 1; 1] ++ replicate 61 0)) = Ok (1, 3, 0).
Proof. by vm_compute. Qed.

(** A signature that does not match is counted as one that does when it is asked not
    to: "(0=0&1)>0,2" holds when only signature 1 matches. *)
Lemma absent_part_counted :
  chklsig [40; 48; 61; 48; 38; 49; 41; 62; 48; 44; 50] (Some ([0; 1] ++ replicate 62 0)) = Ok (1, 1, 0).
Proof. by vm_compute. Qed.

(** A comparison of a single index in parentheses is refused: "(0)>1". *)
Lemma compared_parenthesis_refused : chklsig [40; 48; 41; 62; 49] None = Ok (-1, 0, 0).
Proof. by vm_compute. Qed.

End LSigProps.
