(* ===== verification/LSigTotal.v ===== *)
(** * The check of logical expressions ends on every text

    A database may have any text in the place of an expression; the loader calls
    [cli_ac_chklsig] with [parse_only] on it. *)
From stdpp Require Import base numbers list list_numbers gmap.
From Stdlib Require Import ZArith Lia Bool.
From S2P Require Import Prelude Dlp CalOff LSig.

Local Open Scope Z_scope.

Module LSigTotal.
Import Ctype CalOff LSig.

Section Total.
Context (t : list Z).
Abbreviation zlen w := (Z.of_nat (length w)).
Hypothesis Hlen : zlen t < 2 ^ 32.

Lemma chr_total i : 0 <= i <= zlen t -> exists c, chr t i = Some c.
Proof using.
  clear Hlen. intros Hi. unfold chr. destruct (Z.eqb_spec i (zlen t)); [by eexists|]. apply bget_is_Some. lia.
Qed.

Lemma skip_nums_total n a len i : 0 <= a -> 0 <= i -> a + len <= zlen t -> exists j, skip_nums t n a len i = Some j /\ i <= j.
Proof using.
  clear Hlen. intros Ha Hi Hl. revert i Hi. induction n as [|n IH]; intros i Hi; cbn; [exists i; split; [done|lia]|].
  destruct (Z.ltb_spec (i + 1) len); [|exists i; split; [done|lia]].
  destruct (chr_total (a + i + 1) ltac:(lia)) as [c ->]. destruct (_ || _); [|exists i; split; [done|lia]].
  destruct (IH (i + 1) ltac:(lia)) as (j & E & Hj). exists j. split; [done|lia].
Qed.

Lemma block_end_total a len i x : 0 <= a -> 0 <= i < len -> a + len <= zlen t ->
  exists r, block_end t a len i x = Ok r /\
    match r with
    | None => True
    | Some (j, y) => i <= j /\ blkend y = i /\ op y = op x /\ op1 y = op1 x /\ op1off y = op1off x /\ pth y = pth x
    end.
Proof using.
  clear Hlen. intros Ha Hi Hl. unfold block_end. destruct (chr_total (a + i + 1) ltac:(lia)) as [c ->]. cbn [of_opt].
  destruct (is_modchar c); [|eexists; split; [done|]; cbn; repeat split; lia].
  destruct (scan_uu _) as [[v1 v2]|]; [|by eexists]. destruct (skip_nums_total (Z.to_nat len) a len (i + 2)) as (j & -> & Hj); [lia..|].
  cbn [of_opt]. eexists. split; [done|]. cbn. repeat split; lia.
Qed.

(** The variables of the loop at [i], and at its end. *)
Record walk (a e i : Z) (x : lx) : Prop := {
  w_op : op x = 0;
  w_pth : 0 <= pth x <= i;
  w_op1 : op1 x <> 0 -> 0 <= op1off x < i /\ chr t (a + op1off x) <> Some 40;
  w_blk : op1 x <> 0 -> pth x = 0 -> op1off x < blkend x < e - a /\ chr t (a + blkend x) <> Some 40;
  w_last : op1 x = 0 -> i <= e - a /\ (0 < i -> pth x = 0 -> chr t (a + i - 1) <> Some 40) }.

Definition found (a e : Z) (x : lx) : Prop :=
  (op x <> 0 /\ 0 <= opoff x < e - a /\ chr t (a + opoff x) <> Some 40) \/
  (op x = 0 /\ op1 x <> 0 /\ 0 <= op1off x < blkend x /\ chr t (a + op1off x) <> Some 40 /\ blkend x < e - a /\ chr t (a + blkend x) <> Some 40) \/
  (op x = 0 /\ op1 x = 0 /\ (0 < e - a -> chr t (e - 1) <> Some 40)).

(** The comparisons that remain after a character. *)
Ltac walk_char Ho1 := right; cbn; repeat split; try lia;
  try (let H1 := fresh in let H2 := fresh in destruct (Ho1 ltac:(done)) as [H1 H2]; first [exact H2 | lia]); intros; destruct (Ho1 ltac:(done)); lia.

Lemma ops_char_walk a e i x c y : walk a e i x -> i < e - a -> e - a <= zlen t -> chr t (a + i) = Some c -> ops_char c i x = Some y ->
  (op y <> 0 /\ opoff y = i /\ c <> 40) \/
  (op y = 0 /\ 0 <= pth y <= i + 1 /\ (op1 y <> 0 -> 0 <= op1off y < i + 1 /\ chr t (a + op1off y) <> Some 40) /\
   (op1 y <> 0 -> pth y = 0 -> op1off y < i) /\ (pth y = 0 -> c <> 40)).
Proof using Hlen.
  intros [Hop Hp Ho1 _ _] Hi He Hc. unfold ops_char. destruct (Z.eqb_spec c 40) as [-> |Hne].
  { intros [= <-]. rewrite uint_small by lia. walk_char Ho1. }
  assert (chr t (a + i) <> Some 40) as Hne' by (rewrite Hc; congruence). destruct (Z.eqb_spec c 41).
  { destruct (Z.eqb_spec (pth x) 0); [done|]. intros [= <-]. walk_char Ho1. }
  destruct (is_modchar c); [intros [= <-]; walk_char Ho1|].
  destruct ((c =? 38) || (c =? 124) || (c =? 0)); [|intros [= <-]; walk_char Ho1].
  destruct (Z.eqb_spec (pth x) 0).
  - intros [= <-]. destruct (Z.eq_dec c 0) as [-> |]; [|by left]. walk_char Ho1.
  - destruct (Z.eqb_spec (pth x) 1); intros [= <-]; [|walk_char Ho1]. right. cbn. repeat split; (done || lia).
Qed.

Lemma ops_loop_total a e : 0 <= a -> e <= zlen t -> forall n i x, walk a e i x -> 0 <= i -> e - a - i <= Z.of_nat n ->
  exists r, ops_loop t n a e i x = Ok r /\ match r with None => True | Some y => pth y = 0 -> found a e y end.
Proof using Hlen.
  intros Ha He. induction n as [|n IH]; intros i x HW Hi Hn; cbn [ops_loop]; destruct (Z.ltb_spec i (e - a)) as [Hlt|Hge]; try lia.
  1,3: (eexists; split; [done|]; intros Hp0; destruct HW as [Hop Hp Ho1 Hb Hl]; destruct (Z.eq_dec (op1 x) 0) as [E|E];
    [right; right; destruct (Hl E) as [? Hl2]; repeat split; try done; intros; replace (e - 1) with (a + i - 1) by lia; apply Hl2; (done || lia)|
     right; left; destruct (Hb E Hp0) as [? ?]; destruct (Ho1 E); repeat split; (done || lia)]).
  destruct (chr_total (a + i) ltac:(lia)) as [c Ec]. rewrite Ec. cbn [of_opt].
  destruct (ops_char c i x) as [y|] eqn:Ey; [|by eexists].
  destruct (ops_char_walk _ _ _ _ _ _ HW Hlt ltac:(lia) Ec Ey) as [(Hop & Hoff & Hc)|(Hop & Hp & Ho1 & Hob & Hc)].
  { destruct (Z.eqb_spec (op y) 0); [done|]. cbn [negb]. eexists. split; [done|]. intros _. left. rewrite Hoff, Ec. repeat split; [done|lia|lia|congruence]. }
  rewrite Hop. cbn [Z.eqb negb]. destruct (Z.eqb_spec (op1 y) 0) as [E1|E1]; cbn [negb andb].
  { apply IH; [|lia|lia]. constructor; [done|lia|done|done|]. intros _. split; [lia|]. intros _ Hp0.
    replace (a + (i + 1) - 1) with (a + i) by lia. rewrite Ec. intros [= ->]. by apply Hc. }
  destruct (Z.eqb_spec (pth y) 0) as [Ep|Ep].
  - destruct (block_end_total a (e - a) i y Ha ltac:(lia) ltac:(lia)) as (r & -> & Hr). destruct r as [[j z]|]; [|by eexists].
    destruct Hr as (Hj & Hz1 & Hz2 & Hz3 & Hz4 & Hz5). destruct (Ho1 E1). specialize (Hob E1 Ep).
    assert (chr t (a + i) <> Some 40) as Hne by (rewrite Ec; intros [= ->]; by apply Hc).
    destruct (Z.eqb_spec (a + j + 1) e).
    + eexists. split; [done|]. intros _. right. left. rewrite Hz1, Hz2, Hz3, Hz4. repeat split; (done || lia).
    + apply IH; [|lia|lia]. constructor; cbn; rewrite ?Hz1, ?Hz2, ?Hz3, ?Hz4, ?Hz5; try done; try lia; intros; split; (done || lia).
  - apply IH; [|lia|lia]. constructor; [done|lia|done|done|]. lia.
Qed.

(** A call without counts returns, on any part of the text that is not followed by
    an opening parenthesis. *)
Lemma chk_leaf_total a x cnt ids : exists r, chk_leaf t None a x cnt ids = Ok r.
Proof using.
  unfold chk_leaf. destruct (scan_u _) as [[id s]|]; [|by eexists]. destruct (negb _); [|by eexists]. destruct (scan_u _) as [[? ?]|]; by eexists.
Qed.

Lemma call_total fuel : forall a e cnt ids, 0 <= a <= e -> e <= zlen t -> chr t e <> Some 40 -> e - a < Z.of_nat fuel ->
  exists r, cli_ac_chklsig t None fuel a e cnt ids = Ok r.
Proof using Hlen.
  induction fuel as [|fuel IH]; intros a e cnt ids Ha He Hne Hfu; [lia|]. cbn [cli_ac_chklsig].
  destruct (ops_loop_total a e ltac:(lia) He (Z.to_nat (e - a)) 0 lx0) as (r & -> & Hr); [|lia|lia|].
  { constructor; cbn; try done; lia. }
  destruct r as [x|]; [|by eexists]. destruct (Z.eqb_spec (pth x) 0) as [Ep|]; cbn [negb]; [|by eexists].
  destruct (Hr Ep) as [(Hop & Hoff & Hc)|[(Hop & Hop1 & Hoff & Hc & Hblk & Hbc)|(Hop & Hop1 & Hlast)]].
  - destruct (Z.eqb_spec (op x) 0); [done|]. cbn [andb]. destruct (Z.eqb_spec (opoff x) 0); [by eexists|].
    destruct (Z.eqb_spec (opoff x + 1) (e - a)); [by eexists|].
    destruct (IH a (a + opoff x) 0 0) as [[[lv lc] li] ->]; [lia|lia|done|lia|]. destruct (lv =? -1); [by eexists|].
    destruct (IH (a + opoff x + 1) e 0 0) as [[[rv rc] ri] ->]; [lia|lia|done|lia|]. destruct (rv =? -1); [by eexists|]. by eexists.
  - rewrite Hop. cbn [Z.eqb andb]. destruct (Z.eqb_spec (op1 x) 0); [done|]. cbn [andb]. destruct (Z.eqb_spec (op1off x) 0); [by eexists|].
    destruct (Z.eqb_spec (op1off x + 1) (e - a)); [by eexists|].
    destruct (IH (a + 1) (a + op1off x) 0 0) as [[[lv lc] li] ->]; [lia|lia|done|lia|]. destruct (lv =? -1); [by eexists|].
    destruct (IH (a + op1off x + 1) (a + blkend x) 0 0) as [[[rv rc] ri] ->]; [lia|lia|done|lia|]. destruct (rv =? -1); [by eexists|]. by eexists.
  - rewrite Hop, Hop1. cbn [Z.eqb andb]. destruct (chr_total a ltac:(lia)) as [c Ec]. rewrite Ec. cbn [of_opt].
    destruct (Z.eqb_spec c 40) as [-> |]; [|apply chk_leaf_total].
    destruct (Z.eq_dec a e) as [-> |]; [done|]. destruct (Z.eq_dec (a + 1) e) as [<- |].
    { exfalso. apply Hlast; [lia|]. by replace (a + 1 - 1) with a by lia. }
    apply IH; [lia|lia| |lia]. apply Hlast. lia.
Qed.
End Total.

(** The check of a logical expression ends: whatever text a database has in its
    place, [cli_ac_chklsig] in [parse_only] mode returns, reads nothing outside the
    string, and recurses no deeper than its length. *)
Theorem chklsig_total t : Z.of_nat (length t) < 2 ^ 32 -> exists ret cnt ids, chklsig t None = Ok (ret, cnt, ids).
Proof.
  intros Hlen. destruct (call_total t Hlen (S (length t)) 0 (Z.of_nat (length t)) 0 0) as [[[ret cnt] ids] E]; [lia|lia| |lia|by eexists _, _, _].
  unfold chr. by rewrite Z.eqb_refl.
Qed.

(** "(0&1)>2,)(|": a text that is not an expression. *)
Lemma chklsig_total_witness : exists ret cnt ids, chklsig [40; 48; 38; 49; 41; 62; 50; 44; 41; 40; 124] None = Ok (ret, cnt, ids).
Proof. apply (chklsig_total [40; 48; 38; 49; 41; 62; 50; 44; 41; 40; 124]). vm_compute. reflexivity. Defined.

(** The check looks at the largest index as an [int]: a negative index passes as
    small next to another one, and its evaluation then reads outside the counts
    ("-6|0"). *)
Lemma negative_index_escapes :
  chklsig [45; 54; 124; 48] None = Ok (0, 0, 0) /\ chklsig [45; 54; 124; 48] (Some (replicate 64 1)) = Undef.
Proof. split; [by vm_compute|]. lazy. reflexivity. Qed.

End LSigTotal.
