(* ===== verification/LSigEval.v ===== *)
(** * Evaluation of the logical signatures of a matcher

    After a scan [cli_lsig_eval] reports the first signature whose expression holds
    of the counts and whose attributes fit the file. *)
From stdpp Require Import base numbers list list_numbers gmap.
From Stdlib Require Import ZArith Lia Bool.
From S2P Require Import Prelude Dlp Hashset CalOff Ac AcMatch AcScan LSig LSigFacts LSigProps.

Local Open Scope Z_scope.

Module LSigEval.
Import Errors CalOff Ac AcScan LSig LSigFacts LSigProps.




(** ** The first signature that fits *)
Section First.
Context (root : ac) (type_ : Z) (container_type map_len : Z) (einfo : option exeinfo) (matchicon : nat -> Z) (runlsig : nat -> acdata -> Z).
Context (d : acdata) (mp : list (option (list Z))).





End First.


Definition ex_lsigs : list lsig :=
  [Lsig [48; 38; 49] 2 None (Some (10, 20)) None None false 0; Lsig [49; 62; 52] 2 None None None None false 0].
Definition ex_d : acdata :=
  AcData ∅ ([2; 3] ++ replicate 62 0 ++ [0; 5] ++ replicate 62 0) (replicate 128 CLI_OFF_NONE) [] [] HashSet.cli_hashset_init_noalloc.


(** The file has 30 bytes: the second signature is reported. *)
Example ex_lsig_eval :
  match cli_lsig_eval (MkAc [] [] 2 3) 0 [None; None] 0 30 None (fun _ => 0) (fun _ _ => 0) ex_lsigs ex_d with
  | Ok (code, id, _) => (code, id)
  | _ => (-1, None)
  end = (CL_VIRUS, Some 1%nat).
Proof. by vm_compute. Qed.

End LSigEval.
