(* ===== verification/FilterAc.v ===== *)
(** * Patterns with wildcards in the prefilter (libclamav/filtering.c)

    [filter_add_acpatt] merges a pattern of the Aho-Corasick matcher into the
    prefilter.  Characters become sets, given by a range and a step or by an
    alternative; a part of the pattern is chosen by a score, and the two-byte grams of
    neighbouring sets are entered.  [None] is an access outside an array or an
    assertion that fails. *)
From stdpp Require Import base numbers list list_numbers gmap.
From Stdlib Require Import ZArith Lia Bool.
From S2P Require Import Prelude Dlp Filter CalOff Ac.

Local Open Scope Z_scope.

Module FilterAc.
Import Filter Ac.

(** [struct char_spec]. *)
Record char_spec := CharSpec { alt : option special; start : Z; end_ : Z; step : Z; neg : bool }.

Definition spec_ith_char (s : char_spec) (i : Z) : option Z :=
  match alt s with
  | Some a =>
      assert* sp_type a =? 1 in
      assert* i <? num a in
      let* str := head (alts a) in
      bget str i
  | None => Some (uint 8 i)
  end.

(** The values of [k] in [for(k=spec->start;k <= spec->end;k += spec->step)]. *)
Fixpoint k_loop (n : nat) (s : char_spec) (k : Z) : list Z :=
  match n with
  | O => []
  | S n => if k <=? end_ s then k :: k_loop n s (k + step s) else []
  end.
Definition ks (s : char_spec) : list Z := k_loop 256 s (start s).

(** [SPEC_FOREACH]: the grams of the loops over [cc0] and [cc1].  The inner variable
    is not set back when the outer loop goes on. *)
Section Foreach.
Context (neg0 neg1 : bool) (c0 c1 c1end : Z).
Fixpoint inner_loop (n : nat) (cc0 cc1 : Z) : list Z :=
  match n with
  | O => []
  | S n =>
      let rest := inner_loop n cc0 (cc1 + 1) in
      if (neg0 && (cc0 =? c0)) || (neg1 && (cc1 =? c1)) then rest
      else uint 16 (Z.lor cc0 (Z.shiftl cc1 8)) :: rest
  end.
Fixpoint outer_loop (n : nat) (cc0 cc1 : Z) : list Z :=
  match n with
  | O => []
  | S n => inner_loop (Z.to_nat (c1end - cc1 + 1)) cc0 cc1 ++ outer_loop n (cc0 + 1) (Z.max cc1 (c1end + 1))
  end.
End Foreach.

Definition foreach (s0 : char_spec) (k0 : Z) (s1 : char_spec) (k1 : Z) : option (list Z) :=
  let* c0 := spec_ith_char s0 k0 in
  let* c1 := spec_ith_char s1 k1 in
  let c0end := if neg s0 then 255 else c0 in
  let c1end := if neg s1 then 255 else c1 in
  let cc0 := if neg s0 then 0 else c0 in
  let cc1 := if neg s1 then 0 else c1 in
  Some (outer_loop (neg s0) (neg s1) c0 c1 c1end (Z.to_nat (c0end - cc0 + 1)) cc0 cc1).

(** The grams of two neighbouring characters, in the order of the loops. *)
Definition pair_grams (s0 s1 : char_spec) : option (list Z) :=
  foldr (fun k0 o => let* r := o in
    let* l := foldr (fun k1 o => let* r := o in let* l := foreach s0 k0 s1 k1 in Some (l ++ r)) (Some []) (ks s1) in
    Some (l ++ r)) (Some []) (ks s0).

(** [enum badness]. *)
Inductive badness := reject | avoid_first | avoid_anywhere | dontlike | acceptable | like.
Definition rank (b : badness) : Z :=
  match b with reject => 0 | avoid_first => 1 | avoid_anywhere => 2 | dontlike => 3 | acceptable => 4 | like => 5 end.
Definition is_bad (b : badness) (r : badness) : bool := rank b =? rank r.
Definition bmin (a b : badness) : badness := if rank a <? rank b then a else b.

(** The number of values that are set, for [num_introduced]. *)
Definition count_set (f : Z -> bool) (l : list Z) : Z := Z.of_nat (length (base.filter (fun a => f a = true) l)).

(** [get_score]: the score and the score as the end. *)
Definition get_score (b : badness) (i : Z) (m : filter) (s0 s1 : char_spec) : option (Z * Z) :=
  assert* negb (is_bad b reject) in
  let base := match b with
    | reject => - 0x7fffff
    | avoid_first => if i =? 0 then - 0x700000 else 0
    | avoid_anywhere => if i =? 0 then - 0x720000 else - 0x1000
    | dontlike => 0
    | acceptable => 0x200
    | like => 0x201
    end in
  if base <? 0 then Some (base, base)
  else
    let* l := pair_grams s0 s1 in
    let score := base - count_set (filter_isset m i) l in
    let score_end := base - count_set (filter_end_isset m i) l in
    Some (score, if is_bad b avoid_first && negb (i =? 0) then score_end - 0x1000 else score_end).

(** [struct choice] and [add_choice]. *)
Record choice := Choice { cbase : badness; begin : Z; clen : Z }.

(** The index of the choice to be replaced. *)
Fixpoint worst (l : list choice) (j : nat) (b : badness) (i_neg : option (nat * badness)) : option nat :=
  match l with
  | [] => fst <$> i_neg
  | c :: l =>
      let better := (rank (cbase c) <? rank b) && match i_neg with None => true | Some (_, w) => rank (cbase c) <? rank w end in
      worst l (S j) b (if better then Some (j, cbase c) else i_neg)
  end.

Definition add_choice (choices : list choice) (i ie : Z) (b : badness) : option (list choice) :=
  let cnt := Z.of_nat (length choices) in
  assert* ie <? MAXPATLEN in
  if ie <? i + 1 then Some choices
  else if MAX_CHOICES <=? cnt then Some choices
  else
    let i_neg := if (1 <? rank b) && (Z.shiftr MAX_CHOICES 1 <=? cnt) then worst choices 0 b None else None in
    let c := Choice b i (ie - i + 1) in
    Some (match i_neg with Some j => <[j := c]> choices | None => choices ++ [c] end).

Definition spec_iter (s : char_spec) : option Z :=
  assert* negb (step s =? 0) in
  let count := uint 32 (1 + end_ s - start s) / step s in
  Some (sint 32 (if neg s then count * 254 else count)).

(** The character at [i] of prefix and pattern. *)
Definition pat_char (p : ac_patt) (i : Z) : option Z :=
  if i <? prefix_length p then bget (default [] (prefix p)) i else bget (pattern p) (i - prefix_length p).

(** The first loop: the characters before the first wildcard. *)
Fixpoint static_loop (n : nat) (p : ac_patt) (i : Z) : option (list Z) :=
  match n with
  | O => Some []
  | S n =>
      let* c := pat_char p i in
      if negb (Z.land c CLI_MATCH_WILDCARD =? CLI_MATCH_CHAR) then Some []
      else let* l := static_loop n p (i + 1) in Some (uint 8 c :: l)
  end.

(** The specials at the start that are skipped: the index and the special after them. *)
Fixpoint skip_specials (n : nat) (p : ac_patt) (i altcnt : Z) : option (Z * Z) :=
  match n with
  | O => None
  | S n =>
      let* c := bget (pattern p) i in
      if Z.land c CLI_MATCH_WILDCARD =? CLI_MATCH_SPECIAL then
        let* a := bget (special_table p) altcnt in
        if sp_type a =? 1 then Some (i, altcnt) else skip_specials n p (i + 1) (altcnt + 1)
      else Some (i, altcnt)
  end.

(** The sets of the characters; [Some None] is the return of -1 for an unknown
    wildcard.  A special other than an alternative of characters ends the loop. *)
Fixpoint specs_loop (n : nat) (p : ac_patt) (i altcnt : Z) : option (option (list char_spec)) :=
  match n with
  | O => Some (Some [])
  | S n =>
      let* c := pat_char p i in
      let wc := Z.land c CLI_MATCH_WILDCARD in
      let next s altcnt := let* r := specs_loop n p (i + 1) altcnt in Some (let* l := r in Some (s :: l)) in
      if wc =? CLI_MATCH_CHAR then next (CharSpec None (uint 8 c) (uint 8 c) 1 false) altcnt
      else if wc =? CLI_MATCH_IGNORE then next (CharSpec None 0 0xff 1 false) altcnt
      else if wc =? CLI_MATCH_SPECIAL then
        let* a := bget (special_table p) altcnt in
        if sp_type a =? 1 then next (CharSpec (Some a) 0 (uint 8 (num a - 1)) 1 (negative a)) (altcnt + 1)
        else Some (Some [])
      else if wc =? CLI_MATCH_NIBBLE_HIGH then
        next (CharSpec None (Z.land c 0xf0) (Z.lor (Z.land c 0xf0) 0x0f) 1 false) altcnt
      else if wc =? CLI_MATCH_NIBBLE_LOW then
        next (CharSpec None (Z.land c 0xf) (Z.lor 0xf0 (Z.land c 0xf)) 0x10 false) altcnt
      else Some None
  end.

(** The loops that look at the values of two characters: a [break] leaves the inner
    one. *)
Fixpoint look_inner (s0 s1 : char_spec) (k0 : Z) (l : list Z) (st : badness * bool) : option (badness * bool) :=
  match l with
  | [] => Some st
  | k1 :: l =>
      let '(scor, binary) := st in
      let* c0 := spec_ith_char s0 k0 in
      let* c1 := spec_ith_char s1 k1 in
      if neg s0 || neg s1 then Some (avoid_anywhere, binary)
      else if ((c0 =? 0) && (c1 =? 0)) || ((c0 =? 0xff) && (c1 =? 0xff)) then Some (avoid_first, binary)
      else if c0 =? c1 then Some (dontlike, binary)
      else
        let bin c := (c <? 32) || (127 <? c) in
        look_inner s0 s1 k0 l (scor, binary || (bin c0 && bin c1))
  end.

Definition pair_badness (s0 s1 : char_spec) : option badness :=
  let* n0 := spec_iter s0 in
  let* n1 := spec_iter s1 in
  let num_iter := sint 32 (n0 * n1) in
  if 0x100 <=? num_iter then Some (if num_iter =? 0x10000 then reject else avoid_anywhere)
  else
    let* (scor, binary) :=
      foldl (fun o k0 => let* st := o in look_inner s0 s1 k0 (ks s1) st) (Some (acceptable, false)) (ks s0) in
    Some (if is_bad scor acceptable && binary then like else scor).

Fixpoint badness_loop (specs : list char_spec) : option (list badness) :=
  match specs with
  | s0 :: ((s1 :: _) as l) => let* b := pair_badness s0 s1 in let* bs := badness_loop l in Some (b :: bs)
  | _ => Some []
  end.

Section Choices.
Context (bad : list badness) (j : Z).

(** [while ((kend > i+3) && char_badness[kend-1] == reject) kend--;] *)
Fixpoint trim (n : nat) (i kend : Z) : option Z :=
  match n with
  | O => Some kend
  | S n =>
      if i + 3 <? kend then
        let* b := bget bad (kend - 1) in
        if is_bad b reject then trim n i (kend - 1) else Some kend
      else Some kend
  end.

(** The loop over [k]: the end, the worst character and the first bad one. *)
Fixpoint range_loop (n : nat) (i k kend : Z) (base0 : badness) (ki : option Z) : option (Z * badness * option Z) :=
  match n with
  | O => Some (kend, base0, ki)
  | S n =>
      if k <? kend then
        let* b := bget bad k in
        if rank b <? rank acceptable then
          if is_bad b reject then Some (k, base0, ki)
          else
            let b := if is_bad b avoid_first && negb (k =? i) then dontlike else b in
            let b := if (k =? i) && is_bad b avoid_anywhere then avoid_first else b in
            range_loop n i (k + 1) kend (bmin base0 b) (match ki with None => Some k | _ => ki end)
        else range_loop n i (k + 1) kend (bmin base0 b) ki
      else Some (kend, base0, ki)
  end.

(** The loop that collects the choices. *)
Fixpoint choices_loop (n : nat) (i : Z) (choices : list choice) : option (list choice) :=
  match n with
  | O => Some choices
  | S n =>
      let cnt := Z.of_nat (length choices) in
      if (i <? j - 1) && (cnt <? MAX_CHOICES) then
        let kend := Z.min (j - 1) (Z.land (i + MAXSOPATLEN) (Z.lnot 1)) in
        assert* kend - 1 <? j - 1 in
        let* b := bget bad i in
        if is_bad b reject then choices_loop n (i + 1) choices
        else if (is_bad b avoid_anywhere || is_bad b avoid_first) && (0 <? cnt) then choices_loop n (i + 1) choices
        else
          let* kend := trim (Z.to_nat MAXPATLEN) i kend in
          let* (kend, base0, ki) := range_loop (Z.to_nat MAXPATLEN) i i kend like None in
          let* choices := add_choice choices i kend base0 in
          let i := match ki with Some k => if i <? k then k else i | None => i end in
          choices_loop n (i + 1) choices
      else Some choices
  end.

(** The best part so far: score, begin and length. *)
Record best := Best { bscore : Z; bbegin : Z; blen : Z }.

(** The score of one choice, from the character [k] on. *)
Fixpoint score_chars (n : nat) (m : filter) (specs : list char_spec) (i k kend score : Z) (b : best) : option best :=
  match n with
  | O => Some b
  | S n =>
      if k <? kend - 1 then
        let p := k - i in
        assert* k <? j in
        let* c := bget bad k in
        let* s0 := bget specs k in
        let* s1 := bget specs (k + 1) in
        let* (iscore, score_end) := get_score c p m s0 s1 in
        let '(iscore, score_end) := if p <? 6 then (iscore * (6 - p), score_end * (6 - p)) else (iscore, score_end) in
        let score := score + iscore in
        if bscore b <? score + score_end then
          assert* i + (p + 2) <=? j in
          score_chars n m specs i (k + 1) kend score (Best (score + score_end) i (p + 2))
        else score_chars n m specs i (k + 1) kend score b
      else Some b
  end.

Definition score_choices (m : filter) (specs : list char_spec) (choices : list choice) : option best :=
  foldl (fun o c => let* b := o in
    score_chars (Z.to_nat MAXPATLEN) m specs (begin c) (begin c) (begin c + clen c) 0 b)
    (Some (Best (- 0x7fffffff) 0 0)) choices.
End Choices.

(** The grams of the chosen part are entered at their positions. *)
Fixpoint enter_loop (n : nat) (m : filter) (specs : list char_spec) (first i : Z) : option filter :=
  match n with
  | O => Some m
  | S n =>
      let* s0 := bget specs (first + i) in
      let* s1 := bget specs (first + i + 1) in
      let* l := pair_grams s0 s1 in
      enter_loop n (foldl (fun m a => filter_set_atpos m i a) m l) specs first (i + 1)
  end.

Definition enter (m : filter) (specs : list char_spec) (b : best) : option (filter * Z) :=
  let* m := enter_loop (Z.to_nat (blen b - 1)) m specs (bbegin b) 0 in
  let j := blen b - 2 in
  let* s0 := bget specs (bbegin b + j) in
  let* s1 := bget specs (bbegin b + j + 1) in
  let* l := pair_grams s0 s1 in
  Some (foldl (fun m a => filter_set_end m j a) m l, j + 2).

(** [filter_add_acpatt]: the filter and the returned value. *)
Definition filter_add_acpatt (m : filter) (p : ac_patt) : option (filter * Z) :=
  let j := Z.min (prefix_length p + length_ p) MAXPATLEN in
  let* patc := static_loop (Z.to_nat j) p 0 in
  if Z.of_nat (length patc) =? j then filter_add_static m patc j
  else
    let* (i, altcnt) := (if prefix_length p =? 0 then skip_specials (S (length (pattern p))) p 0 0 else Some (0, 0)) in
    let* specs := specs_loop (Z.to_nat (j - i)) p i altcnt in
    match specs with
    | None => Some (m, -1)
    | Some specs =>
        let j := Z.of_nat (length specs) in
        if j <? 2 then Some (m, -1)
        else
          let* bad := badness_loop specs in
          let* choices := choices_loop bad j (Z.to_nat j) 0 [] in
          let* b := score_choices bad j m specs choices in
          if bscore b <=? - 0x7fffffff then Some (m, -1)
          else if Z.of_nat (length choices) =? 0 then Some (m, -1)
          else
            assert* 2 <=? blen b in
            enter m specs b
    end.

End FilterAc.
