(* ===== verification/FilterAcFacts.v ===== *)
(** * The prefilter misses no pattern with wildcards

    For patterns of characters, nibbles and ignored bytes. *)
From stdpp Require Import base numbers list list_numbers gmap.
From Stdlib Require Import ZArith Lia Bool.
From S2P Require Import Prelude Dlp Filter CalOff Hashset Ac AcMatch AcScan AcWords AcBfs AcChain AcBuild AcTrans AcAdd AcSearch FilterAc.

Local Open Scope Z_scope.

Module FilterAcFacts.
Import Filter Ac AcSearch FilterAc.

(** ** Grams of neighbouring sets *)

(** The set has the byte [b]. *)
Definition spec_has (s : char_spec) (b : Z) : Prop := neg s = false /\ exists k, k ∈ ks s /\ spec_ith_char s k = Some b.
(** Every value the loops look at is inside its alternative. *)
Definition spec_ok (s : char_spec) : Prop := step s <> 0 /\ forall k, k ∈ ks s -> is_Some (spec_ith_char s k).

Definition gram (b0 b1 : Z) : Z := Z.lor b0 (Z.shiftl b1 8).

Lemma gram_range b0 b1 : 0 <= b0 < 256 -> 0 <= b1 < 256 -> 0 <= gram b0 b1 < 2 ^ 16.
Proof.
  intros H0 H1. unfold gram. assert (0 <= Z.shiftl b1 8) as Hs by (apply Z.shiftl_nonneg; lia).
  split; [apply Z.lor_nonneg; lia|]. assert (Z.lor b0 (Z.shiftl b1 8) = b0 + Z.shiftl b1 8) as ->.
  { rewrite <- Z.lxor_lor, <- Z.add_nocarry_lxor; [done|..]; apply Z.bits_inj'; intros n Hn; rewrite Z.land_spec, Z.bits_0;
      (destruct (Z.lt_ge_cases n 8); [by rewrite Z.shiftl_spec_low, andb_false_r|]);
      (rewrite (Z.bits_above_log2 b0), ?andb_false_l; [done|lia|]); (destruct (Z.eq_dec b0 0) as [-> |]; [cbn; lia|]);
      (apply Z.log2_lt_pow2; [lia|]); (assert (2 ^ 8 <= 2 ^ n) by (apply Z.pow_le_mono_r; lia); lia). }
  rewrite Z.shiftl_mul_pow2 by lia. change (2 ^ 8) with 256. change (2 ^ 16) with 65536. lia.
Qed.

Lemma foreach_has s0 k0 s1 k1 b0 b1 : neg s0 = false -> neg s1 = false -> spec_ith_char s0 k0 = Some b0 -> spec_ith_char s1 k1 = Some b1 ->
  0 <= b0 < 256 -> 0 <= b1 < 256 -> exists l, foreach s0 k0 s1 k1 = Some l /\ gram b0 b1 ∈ l.
Proof.
  intros N0 N1 E0 E1 H0 H1. unfold foreach. rewrite E0, E1, N0, N1. eexists. split; [done|].
  replace (b0 - b0 + 1) with 1 by lia. change (Z.to_nat 1) with 1%nat. cbn [outer_loop]. replace (b1 - b1 + 1) with 1 by lia.
  change (Z.to_nat 1) with 1%nat. cbn [inner_loop andb orb]. rewrite uint_small by (by apply gram_range). left.
Qed.

Lemma foreach_total s0 k0 s1 k1 : is_Some (spec_ith_char s0 k0) -> is_Some (spec_ith_char s1 k1) -> is_Some (foreach s0 k0 s1 k1).
Proof. intros [c0 E0] [c1 E1]. unfold foreach. rewrite E0, E1. by eexists. Qed.

(** Collecting the results of a loop whose steps succeed. *)
Lemma foldr_collect {A B} (f : A -> option (list B)) l : (forall k, k ∈ l -> is_Some (f k)) ->
  exists r, foldr (fun k o => let* r := o in let* x := f k in Some (x ++ r)) (Some []) l = Some r /\
    forall k x y, k ∈ l -> f k = Some x -> y ∈ x -> y ∈ r.
Proof.
  induction l as [|k l IH]; intros H; cbn [foldr]; [exists []; split; [done|intros k x y Hk; by apply elem_of_nil in Hk]|].
  destruct IH as (r & -> & Hr); [intros; apply H; by right|]. destruct (H k ltac:(left)) as [x Ex]. rewrite Ex.
  eexists. split; [done|]. intros k' x' y Hk' Ex' Hy. apply elem_of_cons in Hk' as [-> |Hk']; apply elem_of_app; [left; congruence|right; eauto].
Qed.

Lemma pair_grams_spec s0 s1 : spec_ok s0 -> spec_ok s1 ->
  exists l, pair_grams s0 s1 = Some l /\ forall b0 b1, spec_has s0 b0 -> spec_has s1 b1 -> 0 <= b0 < 256 -> 0 <= b1 < 256 -> gram b0 b1 ∈ l.
Proof.
  intros [_ H0] [_ H1]. unfold pair_grams.
  set (f := fun k0 => foldr (fun k1 o => let* r := o in let* l := foreach s0 k0 s1 k1 in Some (l ++ r)) (Some []) (ks s1)).
  assert (forall k0, k0 ∈ ks s0 -> exists r, f k0 = Some r /\ forall k1 x y, k1 ∈ ks s1 -> foreach s0 k0 s1 k1 = Some x -> y ∈ x -> y ∈ r) as Hf.
  { intros k0 Hk0. apply (foldr_collect (fun k1 => foreach s0 k0 s1 k1)). intros k1 Hk1. by apply foreach_total; [apply H0|apply H1]. }
  destruct (foldr_collect f (ks s0)) as (r & Er & Hr); [intros k Hk; destruct (Hf k Hk) as (r & -> & _); by eexists|].
  exists r. split; [exact Er|]. intros b0 b1 [N0 (k0 & Hk0 & E0)] [N1 (k1 & Hk1 & E1)] Hb0 Hb1.
  destruct (Hf k0 Hk0) as (r0 & Er0 & Hr0). destruct (foreach_has s0 k0 s1 k1 b0 b1) as (l & El & Hl); [done..|].
  eapply Hr; [done|done|]. by eapply Hr0.
Qed.

(** ** The sets of plain characters *)
Definition spec_of (c : Z) : char_spec :=
  let wc := Z.land c CLI_MATCH_WILDCARD in
  if wc =? CLI_MATCH_CHAR then CharSpec None (uint 8 c) (uint 8 c) 1 false
  else if wc =? CLI_MATCH_IGNORE then CharSpec None 0 0xff 1 false
  else if wc =? CLI_MATCH_NIBBLE_HIGH then CharSpec None (Z.land c 0xf0) (Z.lor (Z.land c 0xf0) 0x0f) 1 false
  else CharSpec None (Z.land c 0xf) (Z.lor 0xf0 (Z.land c 0xf)) 0x10 false.

Definition known (c : Z) : Prop :=
  let wc := Z.land c CLI_MATCH_WILDCARD in
  wc = CLI_MATCH_CHAR \/ wc = CLI_MATCH_IGNORE \/ wc = CLI_MATCH_NIBBLE_HIGH \/ wc = CLI_MATCH_NIBBLE_LOW.

Lemma spec_of_ok c : spec_ok (spec_of c).
Proof.
  unfold spec_of. split; [|intros k _]; repeat (destruct (_ =? _)); cbn; (done || by eexists).
Qed.

Lemma k_loop_elem n s q : forall k, 0 < step s -> (q < n)%nat -> k + step s * Z.of_nat q <= end_ s -> k + step s * Z.of_nat q ∈ k_loop n s k.
Proof.
  revert q. induction n as [|n IH]; intros q k Hs Hq He; [lia|]. cbn [k_loop]. destruct (Z.leb_spec k (end_ s)); [|lia].
  destruct q as [|q]; [rewrite Z.mul_0_r, Z.add_0_r; left|]. right.
  replace (k + step s * Z.of_nat (S q)) with (k + step s + step s * Z.of_nat q) by lia. apply IH; [done|lia|lia].
Qed.

Lemma ks_elem s b : alt s = None -> 0 < step s -> 0 <= b < 256 -> start s <= b <= end_ s -> (b - start s) mod step s = 0 -> 0 <= start s ->
  b ∈ ks s /\ spec_ith_char s b = Some b.
Proof.
  intros Ha Hs Hb Hr Hm H0. split.
  - pose proof (Z.div_mod (b - start s) (step s) ltac:(lia)) as Hd. rewrite Hm, Z.add_0_r in Hd.
    assert (0 <= (b - start s) / step s < 256) as Hq.
    { split; [apply Z.div_pos; lia|]. apply Z.div_lt_upper_bound; [lia|]. nia. }
    pose proof (k_loop_elem 256 s (Z.to_nat ((b - start s) / step s)) (start s) Hs ltac:(lia)) as H. rewrite Z2Nat.id in H by lia.
    replace (start s + step s * ((b - start s) / step s)) with b in H by lia. apply H. lia.
  - unfold spec_ith_char. rewrite Ha. by rewrite uint_small.
Qed.

Lemma nibbles b : 0 <= b < 256 -> Z.land b 0xf0 = 16 * (b / 16) /\ Z.land b 0xf = b mod 16.
Proof.
  intros Hb. assert (Z.land b 0xf = b mod 16) as E by (change 0xf with (Z.ones 4); by rewrite Z.land_ones by lia). split; [|done].
  assert (Z.land b 0xf0 = Z.shiftl (Z.shiftr b 4) 4) as ->.
  { change 0xf0 with (Z.shiftl (Z.ones 4) 4). apply Z.bits_inj'. intros n Hn. rewrite Z.land_spec. destruct (Z.lt_ge_cases n 4).
    - by rewrite !Z.shiftl_spec_low, andb_false_r by lia.
    - rewrite !Z.shiftl_spec, Z.shiftr_spec by lia. replace (n - 4 + 4) with n by lia. destruct (Z.lt_ge_cases n 8).
      + by rewrite Z.ones_spec_low, andb_true_r by lia.
      + rewrite (Z.bits_above_log2 b); [done|lia|]. destruct (Z.eq_dec b 0) as [-> |]; [cbn; lia|]. apply Z.log2_lt_pow2; [lia|].
        assert (2 ^ 8 <= 2 ^ n) by (apply Z.pow_le_mono_r; lia). lia. }
  rewrite Z.shiftl_mul_pow2, Z.shiftr_div_pow2 by lia. change (2 ^ 4) with 16. lia.
Qed.

Lemma lor_add a b : Z.land a b = 0 -> Z.lor a b = a + b.
Proof. intros H. by rewrite <- Z.lxor_lor, <- Z.add_nocarry_lxor. Qed.

Lemma char_ok_spec c b : char_ok c b = true -> 0 <= b < 256 -> known c /\ spec_has (spec_of c) b.
Proof.
  intros H Hb. unfold char_ok in H. unfold known, spec_of. cbv zeta in *.
  destruct (Z.eqb_spec (Z.land c CLI_MATCH_WILDCARD) CLI_MATCH_CHAR) as [|_].
  { split; [by left|]. split; [done|]. apply Z.eqb_eq in H. subst b. eexists. apply ks_elem; cbn; (done || lia || by rewrite Z.sub_diag). }
  destruct (Z.eqb_spec (Z.land c CLI_MATCH_WILDCARD) CLI_MATCH_IGNORE) as [|_].
  { split; [by right; left|]. split; [done|]. eexists. apply ks_elem; cbn; (done || lia || by rewrite Z.mod_1_r). }
  destruct (nibbles b Hb) as [Hh Hl].
  destruct (Z.eqb_spec (Z.land c CLI_MATCH_WILDCARD) CLI_MATCH_NIBBLE_HIGH) as [|_].
  { split; [by right; right; left|]. split; [done|]. apply Z.eqb_eq in H. rewrite Hh in H. rewrite H. eexists b.
    pose proof (Z.div_mod b 16 ltac:(lia)) as Hd. pose proof (Z.mod_pos_bound b 16 ltac:(lia)) as Hm. pose proof (Z.div_pos b 16 ltac:(lia) ltac:(lia)).
    assert (Z.lor (16 * (b / 16)) 15 = 16 * (b / 16) + 15) as Elor.
    { apply lor_add. change 15 with (Z.ones 4). rewrite Z.land_ones by lia. change (2 ^ 4) with 16. rewrite Z.mul_comm. by apply Z.mod_mul. }
    apply ks_elem; cbn [alt start end_ step]; (done || lia || by rewrite Z.mod_1_r). }
  destruct (Z.eqb_spec (Z.land c CLI_MATCH_WILDCARD) CLI_MATCH_NIBBLE_LOW) as [|_]; [|done].
  split; [by right; right; right|]. split; [done|]. apply Z.eqb_eq in H. rewrite Hl in H. rewrite H. eexists b.
  pose proof (Z.div_mod b 16 ltac:(lia)) as Hd. pose proof (Z.mod_pos_bound b 16 ltac:(lia)) as Hm.
  assert (b / 16 < 16) by (apply Z.div_lt_upper_bound; lia).
  assert (Z.lor 240 (b mod 16) = 240 + b mod 16) as Elor.
  { apply lor_add. rewrite Z.land_comm. destruct (nibbles (b mod 16) ltac:(lia)) as [-> _]. by rewrite Z.div_small by lia. }
  apply ks_elem; cbn [alt start end_ step]; try done; try lia.
  replace (b - b mod 16) with (b / 16 * 16) by lia. by apply Z.mod_mul.
Qed.

(** ** The choice of a part *)
Section Choose.
Context (bad : list badness) (j : Z).
Hypothesis Hj : 2 <= j <= 255.
Hypothesis Hbad : Z.of_nat (length bad) = j - 1.

(** A part of the pattern with at most eight grams, none of which is rejected. *)
Record part_ok (i ie : Z) : Prop := {
  po_begin : 0 <= i < ie;
  po_end : ie <= j - 1 /\ ie <= i + 8;
  po_good : forall k, i <= k < ie -> exists b, bget bad k = Some b /\ is_bad b reject = false }.

Lemma bad_get k : 0 <= k < j - 1 -> exists b, bget bad k = Some b.
Proof using Hbad. intros Hk. apply bget_is_Some. lia. Qed.

Lemma trim_ok n i : forall kend, 0 <= i -> kend <= j - 1 -> exists k, trim bad n i kend = Some k /\ k <= kend /\ (i < kend -> i < k).
Proof using Hbad.
  induction n as [|n IH]; intros kend Hi Hk; cbn [trim]; [exists kend; split; [done|lia]|].
  destruct (Z.ltb_spec (i + 3) kend); [|exists kend; split; [done|lia]].
  destruct (bad_get (kend - 1)) as [b ->]; [lia|]. destruct (is_bad b reject); [|exists kend; split; [done|lia]].
  destruct (IH (kend - 1) Hi ltac:(lia)) as (k & -> & H1 & H2). exists k. split; [done|lia].
Qed.

Lemma range_loop_ok n i kend : 0 <= i -> kend <= j - 1 -> forall k base ki, i <= k <= kend -> kend - k <= Z.of_nat n ->
  (forall k', i <= k' < k -> exists b, bget bad k' = Some b /\ is_bad b reject = false) ->
  exists e b k', range_loop bad n i k kend base ki = Some (e, b, k') /\ k <= e <= kend /\
    (forall k', i <= k' < e -> exists b, bget bad k' = Some b /\ is_bad b reject = false).
Proof using Hbad.
  intros Hi He. induction n as [|n IH]; intros k base ki Hk Hn Hg; cbn [range_loop].
  - assert (k = kend) as -> by lia. eexists _, _, _. split; [done|]. split; [lia|done].
  - destruct (Z.ltb_spec k kend) as [Hlt|]; [|assert (k = kend) as -> by lia; eexists _, _, _; split; [done|]; split; [lia|done]].
    destruct (bad_get k ltac:(lia)) as [b Eb]. rewrite Eb.
    assert (is_bad b reject = false -> forall k', i <= k' < k + 1 -> exists b, bget bad k' = Some b /\ is_bad b reject = false) as Hg'.
    { intros Hb k' Hk'. destruct (Z.eq_dec k' k) as [-> |]; [by exists b|]. apply Hg. lia. }
    destruct (is_bad b reject) eqn:Er.
    + assert ((rank b <? rank acceptable) = true) as -> by (by destruct b). eexists _, _, _. split; [done|]. split; [lia|done].
    + destruct (rank b <? rank acceptable); [destruct (IH (k + 1) (bmin base (if (k =? i) && is_bad (if is_bad b avoid_first && negb (k =? i) then dontlike else b) avoid_anywhere
        then avoid_first else if is_bad b avoid_first && negb (k =? i) then dontlike else b)) (match ki with None => Some k | _ => ki end)) as (e & b' & k' & E & H1 & H2)|
       destruct (IH (k + 1) (bmin base b) ki) as (e & b' & k' & E & H1 & H2)]; try lia; try (by apply Hg'); (exists e, b', k'; split; [exact E|split; [lia|done]]).
Qed.

Definition choice_ok (c : choice) : Prop := part_ok (begin c) (begin c + clen c - 1).

Lemma add_choice_ok cs i ie b : Forall choice_ok cs -> ie <= j - 1 -> (i < ie -> part_ok i ie) ->
  exists cs', add_choice cs i ie b = Some cs' /\ Forall choice_ok cs'.
Proof using Hj.
  intros Hcs Hie Hp. unfold add_choice, MAXPATLEN. destruct (Z.ltb_spec ie 255); [|lia]. destruct (Z.ltb_spec ie (i + 1)); [by eexists|].
  destruct (_ <=? _); [by eexists|]. eexists. split; [done|].
  assert (choice_ok (Choice b i (ie - i + 1))) as Hc.
  { unfold choice_ok. cbn [begin clen]. replace (i + (ie - i + 1) - 1) with ie by lia. apply Hp. lia. }
  match goal with |- context [match ?x with Some _ => _ | None => _ end] => destruct x as [k|] end; [by apply Forall_insert|]. apply Forall_app. split; [done|by constructor].
Qed.

Lemma choices_loop_ok n : forall i cs, 0 <= i -> Forall choice_ok cs -> exists cs', choices_loop bad j n i cs = Some cs' /\ Forall choice_ok cs'.
Proof using Hj Hbad.
  induction n as [|n IH]; intros i cs Hi Hcs; cbn [choices_loop]; [by eexists|].
  destruct (Z.ltb_spec i (j - 1)) as [Hlt|]; cbn [andb]; [|by eexists]. destruct (_ <? MAX_CHOICES); [|by eexists].
  set (kend := Z.min (j - 1) (Z.land (i + MAXSOPATLEN) (Z.lnot 1))). destruct (Z.ltb_spec (kend - 1) (j - 1)); [|lia].
  assert (i < kend /\ kend <= i + 8) as [Hk1 Hk2].
  { assert (Z.land (i + 8) (Z.lnot 1) = i + 8 - (i + 8) mod 2) as E.
    { rewrite <- Z.ldiff_land. change 1 with (Z.ones 1). rewrite Z.ldiff_ones_r by lia. rewrite Z.shiftl_mul_pow2, Z.shiftr_div_pow2 by lia.
      change (2 ^ 1) with 2. pose proof (Z.div_mod (i + 8) 2). lia. }
    pose proof (Z.mod_pos_bound (i + 8) 2 ltac:(lia)). unfold kend, MAXSOPATLEN. rewrite E. lia. }
  destruct (bad_get i ltac:(lia)) as [b Eb]. rewrite Eb. destruct (is_bad b reject); [apply IH; [lia|done]|].
  destruct (_ && (0 <? _)); [apply IH; [lia|done]|].
  destruct (trim_ok (Z.to_nat MAXPATLEN) i kend Hi ltac:(lia)) as (k2 & -> & H1 & H2).
  destruct (range_loop_ok (Z.to_nat MAXPATLEN) i k2 Hi ltac:(lia) i like None) as (e & b' & ki & -> & H3 & H4); [lia|unfold MAXPATLEN; lia|intros; lia|].
  destruct (add_choice_ok cs i e b' Hcs ltac:(lia)) as (cs' & -> & Hcs'); [intros; split; [lia|lia|done]|].
  apply IH; [|done]. destruct ki as [k|]; [|lia]. destruct (Z.ltb_spec i k); lia.
Qed.

Context (m : filter) (specs : list char_spec).
Hypothesis Hspecs : Z.of_nat (length specs) = j.
Hypothesis Hok : Forall spec_ok specs.

Lemma spec_get k : 0 <= k < j -> exists s, bget specs k = Some s /\ spec_ok s.
Proof using Hspecs Hok.
  clear Hj Hbad. intros Hk. destruct (bget_is_Some specs k) as [s E]; [lia|]. exists s. split; [done|]. unfold bget in E. destruct (k <? 0); [done|].
  by eapply Forall_lookup_1 in Hok.
Qed.

(** The best part is a part, once there is a score. *)
Definition best_ok (b : best) : Prop := bscore b = - 0x7fffffff \/ (2 <= blen b <= 9 /\ 0 <= bbegin b /\ bbegin b + blen b <= j).

Lemma get_score_total b i s0 s1 : is_bad b reject = false -> spec_ok s0 -> spec_ok s1 -> exists r, get_score b i m s0 s1 = Some r.
Proof using.
  intros Hb H0 H1. unfold get_score. rewrite Hb. cbn [negb]. destruct (_ <? 0); [by eexists|].
  destruct (pair_grams_spec s0 s1 H0 H1) as (l & -> & _). by eexists.
Qed.

Lemma score_chars_ok n c : choice_ok c -> forall k score b, begin c <= k -> best_ok b ->
  exists b', score_chars bad j n m specs (begin c) k (begin c + clen c) score b = Some b' /\ best_ok b'.
Proof using Hj Hbad Hspecs Hok.
  intros [Hb He Hg]. induction n as [|n IH]; intros k score b Hk Hb0; cbn [score_chars]; [by eexists|].
  destruct (Z.ltb_spec k (begin c + clen c - 1)) as [Hlt|]; [|by eexists]. destruct (Z.ltb_spec k j); [|lia].
  destruct (Hg k ltac:(lia)) as (bd & -> & Hbd). destruct (spec_get k ltac:(lia)) as (s0 & -> & H0). destruct (spec_get (k + 1) ltac:(lia)) as (s1 & -> & H1).
  destruct (get_score_total bd (k - begin c) s0 s1 Hbd H0 H1) as ([isc se] & ->).
  match goal with |- context [if k - begin c <? 6 then ?u else ?v] => destruct (if k - begin c <? 6 then u else v) as [isc' se'] end. destruct (_ <? _); [|apply IH; [lia|done]].
  destruct (Z.leb_spec (begin c + (k - begin c + 2)) j); [|lia]. apply IH; [lia|]. right. cbn. lia.
Qed.

Lemma score_choices_ok cs : Forall choice_ok cs -> exists b, score_choices bad j m specs cs = Some b /\ best_ok b.
Proof using Hj Hbad Hspecs Hok.
  intros Hcs. unfold score_choices. assert (best_ok (Best (- 0x7fffffff) 0 0)) as H0 by (by left). revert H0.
  generalize (Best (- 0x7fffffff) 0 0). induction Hcs as [|c cs Hc Hcs IH]; intros b Hb; cbn [foldl]; [by eexists|].
  destruct (score_chars_ok (Z.to_nat MAXPATLEN) c Hc (begin c) 0 b ltac:(lia) Hb) as (b' & -> & Hb'). by apply IH.
Qed.
End Choose.

(** ** Badness and sets are defined *)
Lemma look_inner_total s0 s1 k0 l st : is_Some (spec_ith_char s0 k0) -> (forall k, k ∈ l -> is_Some (spec_ith_char s1 k)) ->
  is_Some (look_inner s0 s1 k0 l st).
Proof.
  intros [c0 E0]. revert st. induction l as [|k l IH]; intros [sc bi] H; cbn [look_inner]; [by eexists|].
  rewrite E0. destruct (H k ltac:(left)) as [c1 ->]. repeat (match goal with |- is_Some (if ?b then _ else _) => destruct b; [by eexists|] end).
  apply IH. intros; apply H. by right.
Qed.

Lemma pair_badness_total s0 s1 : spec_ok s0 -> spec_ok s1 -> is_Some (pair_badness s0 s1).
Proof.
  intros [N0 H0] [N1 H1]. unfold pair_badness, spec_iter. destruct (Z.eqb_spec (step s0) 0); [done|]. destruct (Z.eqb_spec (step s1) 0); [done|].
  cbn [negb]. destruct (_ <=? _); [by eexists|].
  assert (forall l st, (forall k, k ∈ l -> is_Some (spec_ith_char s0 k)) ->
    is_Some (foldl (fun o k0 => let* st := o in look_inner s0 s1 k0 (ks s1) st) (Some st) l)) as Hf.
  { intros l. induction l as [|k l IH]; intros st Hl; cbn [foldl]; [by eexists|].
    destruct (look_inner_total s0 s1 k (ks s1) st) as [st' ->]; [apply Hl; left|done|]. apply IH. intros; apply Hl. by right. }
  destruct (Hf (ks s0) (acceptable, false) H0) as [[sc bi] ->]. by eexists.
Qed.

Lemma badness_loop_total specs : Forall spec_ok specs -> exists bs, badness_loop specs = Some bs /\ length bs = (length specs - 1)%nat.
Proof.
  induction specs as [|s0 specs IH]; intros H; [by exists []|]. apply Forall_cons in H as [H0 H]. destruct specs as [|s1 specs]; [by exists []|].
  cbn [badness_loop]. pose proof H as H'. apply Forall_cons in H' as [H1 _]. destruct (pair_badness_total s0 s1 H0 H1) as [b ->].
  destruct (IH H) as (bs & E & Hl). cbn [badness_loop] in E. rewrite E. exists (b :: bs). split; [done|]. cbn in *. lia.
Qed.

(** ** Entering the grams *)
Lemma set_atpos_all i l : forall m, tab_ok m -> 0 <= i ->
  let m' := foldl (fun m a => filter_set_atpos m i a) m l in
  tab_ok m' /\ mle m m' /\ forall a, a ∈ l -> Z.testbit (Bq m' a) i = false.
Proof.
  induction l as [|a l IH]; intros m Hm Hi; cbn; [split; [done|]; split; [done|]; intros a Ha; by apply elem_of_nil in Ha|].
  destruct (set_atpos_spec m i a Hm Hi) as (H1 & H2 & H3). destruct (IH _ H1 Hi) as (H4 & H5 & H6).
  split; [done|]. split; [by transitivity (filter_set_atpos m i a)|]. intros a' [-> |Ha]%elem_of_cons; [by apply H5|by apply H6].
Qed.

Lemma set_end_all i l : forall m, tab_ok m -> 0 <= i ->
  let m' := foldl (fun m a => filter_set_end m i a) m l in
  tab_ok m' /\ mle m m' /\ forall a, a ∈ l -> Z.testbit (Eq m' a) i = false.
Proof.
  induction l as [|a l IH]; intros m Hm Hi; cbn; [split; [done|]; split; [done|]; intros a Ha; by apply elem_of_nil in Ha|].
  destruct (set_end_spec m i a Hm Hi) as (H1 & H2 & H3). destruct (IH _ H1 Hi) as (H4 & H5 & H6).
  split; [done|]. split; [by transitivity (filter_set_end m i a)|]. intros a' [-> |Ha]%elem_of_cons; [by apply H5|by apply H6].
Qed.

(** The bytes of two neighbouring sets. *)
Definition both (specs : list char_spec) (i b0 b1 : Z) : Prop :=
  exists s0 s1, bget specs i = Some s0 /\ bget specs (i + 1) = Some s1 /\ spec_has s0 b0 /\ spec_has s1 b1 /\ 0 <= b0 < 256 /\ 0 <= b1 < 256.

Section Enter.
Context (specs : list char_spec).
Hypothesis Hok : Forall spec_ok specs.

Lemma grams_get i : 0 <= i -> i + 1 < Z.of_nat (length specs) ->
  exists s0 s1 l, bget specs i = Some s0 /\ bget specs (i + 1) = Some s1 /\ pair_grams s0 s1 = Some l /\
    forall b0 b1, both specs i b0 b1 -> gram b0 b1 ∈ l.
Proof using Hok.
  intros Hi Hl. destruct (spec_get (Z.of_nat (length specs)) specs eq_refl Hok i) as (s0 & E0 & H0); [lia|].
  destruct (spec_get (Z.of_nat (length specs)) specs eq_refl Hok (i + 1)) as (s1 & E1 & H1); [lia|].
  destruct (pair_grams_spec s0 s1 H0 H1) as (l & El & Hg). exists s0, s1, l. repeat split; try done.
  intros b0 b1 (s0' & s1' & F0 & F1 & ? & ? & ? & ?). apply Hg; congruence.
Qed.

Lemma enter_loop_spec n first : 0 <= first -> forall m i, tab_ok m -> 0 <= i -> first + i + Z.of_nat n < Z.of_nat (length specs) ->
  exists m', enter_loop n m specs first i = Some m' /\ tab_ok m' /\ mle m m' /\
    forall t b0 b1, i <= t < i + Z.of_nat n -> both specs (first + t) b0 b1 -> Z.testbit (Bq m' (gram b0 b1)) t = false.
Proof using Hok.
  intros Hf. induction n as [|n IH]; intros m i Hm Hi Hl; cbn [enter_loop]; [exists m; split; [done|]; split; [done|]; split; [done|lia]|].
  destruct (grams_get (first + i)) as (s0 & s1 & l & -> & -> & -> & Hg); [lia|lia|].
  destruct (set_atpos_all i l m Hm Hi) as (H1 & H2 & H3).
  destruct (IH _ (i + 1) H1 ltac:(lia) ltac:(lia)) as (m' & -> & H4 & H5 & H6). exists m'. split; [done|]. split; [done|].
  split; [by etransitivity|]. intros t b0 b1 Ht Hb. destruct (Z.eq_dec t i) as [-> |]; [|apply H6; [lia|done]]. by apply H5, H3, Hg.
Qed.

Lemma enter_spec m b : tab_ok m -> 2 <= blen b -> 0 <= bbegin b -> bbegin b + blen b <= Z.of_nat (length specs) ->
  exists m', enter m specs b = Some (m', blen b) /\ tab_ok m' /\ mle m m' /\
    (forall t b0 b1, 0 <= t < blen b - 1 -> both specs (bbegin b + t) b0 b1 -> Z.testbit (Bq m' (gram b0 b1)) t = false) /\
    (forall b0 b1, both specs (bbegin b + (blen b - 2)) b0 b1 -> Z.testbit (Eq m' (gram b0 b1)) (blen b - 2) = false).
Proof using Hok.
  intros Hm Hl Hb He. unfold enter.
  destruct (enter_loop_spec (Z.to_nat (blen b - 1)) (bbegin b) Hb m 0 Hm ltac:(lia)) as (m1 & -> & H1 & H2 & H3); [lia|].
  destruct (grams_get (bbegin b + (blen b - 2))) as (s0 & s1 & l & -> & -> & -> & Hg); [lia|lia|].
  destruct (set_end_all (blen b - 2) l m1 H1 ltac:(lia)) as (H4 & H5 & H6). eexists. split; [do 2 f_equal; lia|]. split; [done|].
  split; [by transitivity m1|]. split; [|intros b0 b1 Hbb; by apply H6, Hg].
  intros t b0 b1 Ht Hbb. apply H5, H3; [lia|done].
Qed.
End Enter.

(** ** What the filter finds *)

(** The automaton has a path for some grams of every text the characters stand for. *)
Definition finds (m : filter) (chars : list Z) : Prop :=
  exists s n, 0 <= s /\ 1 <= n <= 8 /\ s + n < Z.of_nat (length chars) /\
    forall t c0 c1 b0 b1, 0 <= t < n -> bget chars (s + t) = Some c0 -> bget chars (s + t + 1) = Some c1 ->
      char_ok c0 b0 = true -> char_ok c1 b1 = true -> 0 <= b0 < 256 -> 0 <= b1 < 256 ->
      Z.testbit (Bq m (gram b0 b1)) t = false /\ (t = n - 1 -> Z.testbit (Eq m (gram b0 b1)) t = false).

Lemma finds_mono m m' chars : mle m m' -> finds m chars -> finds m' chars.
Proof.
  intros Hle (s & n & Hs & Hn & Hl & H). exists s, n. split; [done|]. split; [done|]. split; [done|].
  intros t c0 c1 b0 b1 Ht E0 E1 K0 K1 R0 R1. destruct (H t c0 c1 b0 b1 Ht E0 E1 K0 K1 R0 R1) as [H1 H2].
  split; [by apply Hle|]. intros Et. by apply Hle, H2.
Qed.

Lemma text_match_get buffer chars : forall k i c, 0 <= i -> text_match buffer k chars = true -> bget chars i = Some c ->
  exists b, bget buffer (k + i) = Some b /\ char_ok c b = true.
Proof.
  induction chars as [|x chars IH]; intros k i c Hi Hm Hc; [by apply bget_Some in Hc as [_ ?]; cbn in *; lia|].
  cbn [text_match] in Hm. apply andb_true_iff in Hm as [Hx Hm]. destruct (Z.eq_dec i 0) as [-> |Hne].
  - unfold bget in Hc at 1. cbn in Hc. injection Hc as <-. rewrite Z.add_0_r. destruct (bget buffer k) as [b|]; [by exists b|done].
  - destruct (IH (k + 1) (i - 1) c) as (b & Eb & Hb); [lia|done| |exists b; split; [by replace (k + i) with (k + 1 + (i - 1)) by lia|done]].
    unfold bget in *. destruct (Z.ltb_spec i 0), (Z.ltb_spec (i - 1) 0); try lia.
    by replace (Z.to_nat i) with (S (Z.to_nat (i - 1))) in Hc by lia.
Qed.

(** Where the characters stand in the data, the search finds a place. *)
Lemma search_finds m data len chars k : finds m chars -> Forall (fun b => 0 <= b < 256) data -> len <= Z.of_nat (length data) ->
  0 <= k -> k + Z.of_nat (length chars) <= len -> text_match data k chars = true ->
  exists j, filter_search_ext m data len = Some (Some j) /\ 0 <= j <= k + Z.of_nat (length chars) - 2.
Proof.
  intros (s & n & Hs & Hn & Hl & H) Hd Hlen Hk Hkl Hm. unfold filter_search_ext. destruct (Z.ltb_spec len 2); [lia|].
  assert (forall t q, 0 <= t < n -> cli_readint16 data (k + s + t) = Some q ->
    Z.testbit (Bq m q) t = false /\ (t = n - 1 -> Z.testbit (Eq m q) t = false)) as Hg.
  { intros t q Ht Hq. destruct (bget_is_Some chars (s + t) ltac:(lia)) as [c0 E0]. destruct (bget_is_Some chars (s + t + 1) ltac:(lia)) as [c1 E1].
    destruct (text_match_get data chars k (s + t) c0 ltac:(lia) Hm E0) as (b0 & F0 & K0).
    destruct (text_match_get data chars k (s + t + 1) c1 ltac:(lia) Hm E1) as (b1 & F1 & K1).
    assert (forall i b, bget data i = Some b -> 0 <= b < 256) as Hr.
    { intros i b Eb. unfold bget in Eb. destruct (i <? 0); [done|]. by eapply Forall_lookup_1 in Hd. }
    unfold cli_readint16 in Hq. replace (k + s + t) with (k + (s + t)) in Hq by lia. rewrite F0 in Hq.
    replace (k + (s + t) + 1) with (k + (s + t + 1)) in Hq by lia. rewrite F1 in Hq. injection Hq as <-.
    pose proof (Hr _ _ F0). pose proof (Hr _ _ F1). rewrite !uint_small by done. by apply (H t c0 c1 b0 b1). }
  destruct (search_loop_finds (Z.to_nat (len - 1)) m data 0 255 (k + s) n) as (j & -> & Hj); [lia..| | |].
  - intros t q Ht Hq. by apply (Hg t q).
  - intros q Hq. replace (k + s + n - 1) with (k + s + (n - 1)) in Hq by lia. apply (Hg (n - 1) q); [lia|done|done].
  - exists j. split; [done|]. lia.
Qed.

(** ** Patterns without specials *)
Lemma pat_char_text p i : 0 <= i -> pat_char p i = bget (text_of p) i.
Proof.
  intros Hi. unfold pat_char, text_of, prefix_length. destruct (Z.ltb_spec i (Z.of_nat (length (default [] (prefix p))))).
  - unfold bget. destruct (Z.ltb_spec i 0); [lia|]. rewrite lookup_app_l by lia. done.
  - unfold bget. destruct (Z.ltb_spec i 0); [lia|]. destruct (Z.ltb_spec (i - Z.of_nat (length (default [] (prefix p)))) 0); [lia|].
    rewrite lookup_app_r by lia. f_equal. lia.
Qed.

Lemma static_loop_spec p n : forall i, 0 <= i -> i + Z.of_nat n <= Z.of_nat (length (text_of p)) ->
  exists l, static_loop n p i = Some l /\ (length l <= n)%nat /\ l = uint 8 <$> take (length l) (drop (Z.to_nat i) (text_of p)) /\
    Forall (fun c => Z.land c CLI_MATCH_WILDCARD = CLI_MATCH_CHAR) (take (length l) (drop (Z.to_nat i) (text_of p))).
Proof.
  induction n as [|n IH]; intros i Hi Hl; cbn [static_loop]; [exists []; done|]. rewrite pat_char_text by done.
  destruct (bget_is_Some (text_of p) i ltac:(lia)) as [c Ec]. rewrite Ec.
  destruct (Z.eqb_spec (Z.land c CLI_MATCH_WILDCARD) CLI_MATCH_CHAR) as [Hc|]; cbn [negb]; [|exists []; split; [done|]; split; [cbn; lia|done]].
  destruct (IH (i + 1) ltac:(lia) ltac:(lia)) as (l & -> & Hn & El & HF). exists (uint 8 c :: l). split; [done|]. split; [cbn; lia|].
  rewrite (drop_bget _ _ _ Hi Ec). cbn [length take fmap list_fmap]. split; [by f_equal|by constructor].
Qed.

Lemma specs_loop_plain p n : Forall no_special (text_of p) -> forall i, 0 <= i -> i + Z.of_nat n <= Z.of_nat (length (text_of p)) ->
  exists r, specs_loop n p i 0 = Some r /\
    match r with
    | None => True
    | Some l => l = spec_of <$> take n (drop (Z.to_nat i) (text_of p))
    end.
Proof.
  intros HF. induction n as [|n IH]; intros i Hi Hl; cbn [specs_loop]; [by eexists|]. rewrite pat_char_text by done.
  destruct (bget_is_Some (text_of p) i ltac:(lia)) as [c Ec]. rewrite Ec. rewrite (drop_bget _ _ _ Hi Ec). cbn [take fmap list_fmap].
  destruct (IH (i + 1) ltac:(lia) ltac:(lia)) as (r & -> & Hr).
  assert (no_special c) as Hc by (unfold bget in Ec; destruct (i <? 0); [done|]; by eapply Forall_lookup_1 in HF).
  unfold no_special in Hc. unfold spec_of. cbv zeta.
  repeat (match goal with |- context [if ?u =? ?v then _ else _] => destruct (Z.eqb_spec u v) end); try done;
    (destruct r as [l|]; eexists; (split; [done|]); [by subst l|done]) || by eexists.
Qed.

Lemma bget_take {A} (l : list A) n i : 0 <= i < Z.of_nat n -> bget (take n l) i = bget l i.
Proof. intros Hi. unfold bget. destruct (i <? 0); [done|]. by rewrite lookup_take_lt by lia. Qed.

Lemma bget_map {A B} (f : A -> B) l i : bget (f <$> l) i = f <$> bget l i.
Proof. unfold bget. destruct (i <? 0); [done|]. apply list_lookup_fmap. Qed.

Lemma char_ok_static_byte c b : Z.land c CLI_MATCH_WILDCARD = CLI_MATCH_CHAR -> char_ok c b = true -> b = uint 8 c.
Proof. intros Hc. unfold char_ok. cbv zeta. rewrite Hc. cbn. by intros ->%Z.eqb_eq. Qed.

(** A static start of the pattern. *)
Lemma accepts_finds m chars n : (n <= length chars)%nat -> Forall (fun c => Z.land c CLI_MATCH_WILDCARD = CLI_MATCH_CHAR) (take n chars) ->
  accepts m (uint 8 <$> take n chars) -> finds m chars.
Proof.
  intros Hn HF (s & l & Hs & Hl & Hsl & HB & HE). rewrite length_fmap, length_take in Hsl. exists s, l. split; [done|]. split; [lia|]. split; [lia|].
  intros t c0 c1 b0 b1 Ht E0 E1 K0 K1 R0 R1.
  assert (forall i c, 0 <= i < Z.of_nat n -> bget chars i = Some c -> Z.land c CLI_MATCH_WILDCARD = CLI_MATCH_CHAR) as Hst.
  { intros i c Hi Hc. rewrite <- (bget_take chars n i Hi) in Hc. unfold bget in Hc. destruct (i <? 0); [done|]. by eapply Forall_lookup_1 in HF. }
  pose proof (char_ok_static_byte c0 b0 (Hst (s + t) c0 ltac:(lia) E0) K0) as ->.
  pose proof (char_ok_static_byte c1 b1 (Hst (s + t + 1) c1 ltac:(lia) E1) K1) as ->.
  assert (cli_readint16 (uint 8 <$> take n chars) (s + t) = Some (gram (uint 8 c0) (uint 8 c1))) as Hg.
  { unfold cli_readint16. rewrite !bget_map, !bget_take by lia. rewrite E0, E1. cbn [fmap option_fmap option_map]. by rewrite !uint_uint by lia. }
  split; [by apply HB|]. intros ->. replace (s + (l - 1)) with (s + l - 1) in Hg by lia. by apply HE.
Qed.

(** A chosen part. *)
Lemma both_chars chars n i c0 c1 b0 b1 : 0 <= i -> i + 1 < Z.of_nat n -> bget chars i = Some c0 -> bget chars (i + 1) = Some c1 ->
  char_ok c0 b0 = true -> char_ok c1 b1 = true -> 0 <= b0 < 256 -> 0 <= b1 < 256 -> both (spec_of <$> take n chars) i b0 b1.
Proof.
  intros Hi Hn E0 E1 K0 K1 R0 R1. exists (spec_of c0), (spec_of c1). rewrite !bget_map, !bget_take, E0, E1 by lia.
  split; [done|]. split; [done|]. split; [by apply char_ok_spec|]. split; [by apply char_ok_spec|]. done.
Qed.

(** Merging a pattern makes the filter find it, or is refused and changes nothing. *)
Lemma add_acpatt_spec m p : tab_ok m -> Forall no_special (text_of p) -> pattern p <> [] ->
  exists m' r, filter_add_acpatt m p = Some (m', r) /\ tab_ok m' /\ mle m m' /\ ((r = -1 /\ m' = m) \/ (2 <= r /\ finds m' (text_of p))).
Proof.
  intros Hm HF Hne. unfold filter_add_acpatt, MAXPATLEN.
  assert (prefix_length p + length_ p = Z.of_nat (length (text_of p))) as El by (unfold prefix_length, length_, text_of; rewrite length_app; lia).
  rewrite El. set (j := Z.min (Z.of_nat (length (text_of p))) 255).
  assert (0 <= j <= Z.of_nat (length (text_of p)) /\ j <= 255) as Hjb by lia. clearbody j.
  destruct (static_loop_spec p (Z.to_nat j) 0 ltac:(lia) ltac:(lia)) as (l & -> & Hll & Epat & Hst). change (Z.to_nat 0) with 0%nat in *. rewrite drop_0 in *.
  destruct (Z.eqb_spec (Z.of_nat (length l)) j) as [Ej|Hnj].
  - destruct (Z.ltb_spec j 2) as [H2|H2].
    + exists m, (-1). unfold filter_add_static, MAXPATLEN. destruct (Z.ltb_spec 255 j); [lia|]. destruct (Z.ltb_spec j 2); [|lia].
      split; [done|]. split; [done|]. split; [done|by left].
    + rewrite <- Ej. destruct (add_static_spec m l Hm ltac:(lia)) as (m' & r & -> & Hr & H3 & H4 & H5). exists m', r.
      split; [done|]. split; [done|]. split; [done|]. right. split; [done|]. rewrite Epat in H5. by eapply accepts_finds; [|done|done]; lia.
  - assert ((if prefix_length p =? 0 then skip_specials (S (length (pattern p))) p 0 0 else Some (0, 0)) = Some (0, 0)) as ->.
    { destruct (Z.eqb_spec (prefix_length p) 0) as [Hp|]; [|done]. unfold prefix_length in Hp. cbn [skip_specials].
      assert (text_of p = pattern p) as Et by (unfold text_of; by destruct (default [] (prefix p))).
      destruct (pattern p) as [|c pt] eqn:Ept; [done|]. change (bget (c :: pt) 0) with (Some c). cbv iota. rewrite Et in HF. apply Forall_cons in HF as [Hc _]. unfold no_special in Hc.
      by destruct (Z.eqb_spec (Z.land c CLI_MATCH_WILDCARD) CLI_MATCH_SPECIAL). }
    rewrite Z.sub_0_r. destruct (specs_loop_plain p (Z.to_nat j) HF 0 ltac:(lia) ltac:(lia)) as (r & -> & Hr). change (Z.to_nat 0) with 0%nat in Hr. rewrite drop_0 in Hr.
    destruct r as [specs|]; [|exists m, (-1); split; [done|]; split; [done|]; split; [done|by left]].
    assert (Z.of_nat (length specs) = j) as Els by (subst specs; rewrite length_fmap, length_take; lia). rewrite Els.
    destruct (Z.ltb_spec j 2); [exists m, (-1); split; [done|]; split; [done|]; split; [done|by left]|].
    assert (Forall spec_ok specs) as Hok by (subst specs; apply Forall_fmap, Forall_true; intros; apply spec_of_ok).
    destruct (badness_loop_total specs Hok) as (bad & -> & Hlb).
    destruct (choices_loop_ok bad j ltac:(lia) ltac:(lia) (Z.to_nat j) 0 [] ltac:(lia) ltac:(constructor)) as (cs & -> & Hcs).
    destruct (score_choices_ok bad j ltac:(lia) ltac:(lia) m specs Els Hok cs Hcs) as (b & -> & Hb).
    destruct (Z.leb_spec (bscore b) (-2147483647)); [exists m, (-1); split; [done|]; split; [done|]; split; [done|by left]|].
    destruct (Z.of_nat (length cs) =? 0); [exists m, (-1); split; [done|]; split; [done|]; split; [done|by left]|].
    destruct Hb as [Hb|(Hb1 & Hb2 & Hb3)]; [lia|]. destruct (Z.leb_spec 2 (blen b)); [|lia].
    destruct (enter_spec specs Hok m b Hm ltac:(lia) Hb2 ltac:(lia)) as (m' & -> & H3 & H4 & H5 & H6). exists m', (blen b).
    split; [done|]. split; [done|]. split; [done|]. right. split; [lia|]. exists (bbegin b), (blen b - 1). split; [done|]. split; [lia|]. split; [lia|].
    intros t c0 c1 b0 b1 Ht E0 E1 K0 K1 R0 R1.
    assert (both specs (bbegin b + t) b0 b1) as Hbo by (subst specs; apply (both_chars _ _ _ c0 c1); (done || lia)).
    split; [by apply H5|]. intros ->. replace (blen b - 1 - 1) with (blen b - 2) in * by lia. by apply H6.
Qed.

(** A filter with a list of patterns merged into it; a pattern that is refused makes
    the matcher do without a filter. *)
Fixpoint add_patts (ps : list ac_patt) (m : filter) : option (option filter) :=
  match ps with
  | [] => Some (Some m)
  | p :: ps => let* (m, r) := filter_add_acpatt m p in if r =? -1 then Some None else add_patts ps m
  end.

Lemma add_patts_spec ps : forall m, tab_ok m -> Forall (fun p => Forall no_special (text_of p) /\ pattern p <> []) ps ->
  exists o, add_patts ps m = Some o /\
    match o with None => True | Some m' => tab_ok m' /\ mle m m' /\ Forall (fun p => finds m' (text_of p)) ps end.
Proof.
  induction ps as [|p ps IH]; intros m Hm HF; cbn [add_patts]; [by eexists|]. apply Forall_cons in HF as [[H1 H2] HF].
  destruct (add_acpatt_spec m p Hm H1 H2) as (m1 & r & -> & Hm1 & Hle1 & Hr). destruct (Z.eqb_spec r (-1)); [by eexists|].
  destruct Hr as [[? _]|[_ Hf]]; [done|]. destruct (IH m1 Hm1 HF) as (o & -> & Ho). eexists. split; [done|]. destruct o as [m'|]; [|done].
  destruct Ho as (Hm' & Hle' & Hfs). split; [done|]. split; [by transitivity m1|]. constructor; [by eapply finds_mono|done].
Qed.

(** C15. The prefilter misses no pattern of characters, nibbles and ignored bytes (the
    patterns have no alternatives): any such patterns are merged into a filter, the
    choice of their parts stays inside the pattern, and if the filter accepted all of
    them, the search reports a place in every buffer in which one of them stands, not
    behind its last two bytes. *)
Theorem filter_acpatt_no_false_negatives (ps : list ac_patt) (data : list Z) (len : Z) :
  Forall (fun p => Forall no_special (text_of p) /\ pattern p <> []) ps -> Forall (fun b => 0 <= b < 256) data -> len <= Z.of_nat (length data) ->
  exists o, add_patts ps filter_init = Some o /\ forall m p k, o = Some m -> p ∈ ps -> 0 <= k -> k + Z.of_nat (length (text_of p)) <= len ->
    text_match data k (text_of p) = true ->
    exists j, filter_search_ext m data len = Some (Some j) /\ 0 <= j <= k + Z.of_nat (length (text_of p)) - 2.
Proof.
  intros HF Hd Hlen. destruct (add_patts_spec ps filter_init init_ok HF) as (o & E & Ho). exists o. split; [done|].
  intros m p k -> Hp Hk Hkl Hm. destruct Ho as (_ & _ & Hfs). rewrite Forall_forall in Hfs. by apply search_finds; [apply Hfs|..].
Qed.

(** ** Examples *)
Definition chars_patt (chars : list Z) (specials : list special) : ac_patt :=
  AcPatt chars None 0 0 0 0 0 None (CLI_MATCH_IGNORE, CLI_MATCH_IGNORE) (0, 0) (0, 0) specials 0 0 0 (CalOff.OffData 0 0 0 0) 0 0 0 [].

(** 61 62 ?? 64 6? ?5 *)
Definition ex_p1 : ac_patt := chars_patt [0x61; 0x62; 0x100; 0x64; 0x360; 0x405] [].

Lemma filter_acpatt_no_false_negatives_witness :
  exists o, add_patts [ex_p1] filter_init = Some o /\ forall m p k, o = Some m -> p ∈ [ex_p1] -> 0 <= k -> k + Z.of_nat (length (text_of p)) <= 8 ->
    text_match [0; 0x61; 0x62; 9; 0x64; 0x6a; 0x55; 1] k (text_of p) = true ->
    exists j, filter_search_ext m [0; 0x61; 0x62; 9; 0x64; 0x6a; 0x55; 1] 8 = Some (Some j) /\ 0 <= j <= k + Z.of_nat (length (text_of p)) - 2.
Proof.
  apply (filter_acpatt_no_false_negatives [ex_p1] [0; 0x61; 0x62; 9; 0x64; 0x6a; 0x55; 1] 8); [|repeat constructor; lia|cbn; lia].
  repeat constructor; vm_compute; discriminate.
Defined.

Example ex_p1_merged :
  (let* o := add_patts [ex_p1] filter_init in
   let* m := o in
   Some (filter_search_ext m [0; 0x61; 0x62; 9; 0x64; 0x6a; 0x55; 1] 8, filter_search_ext m [0; 0x61; 0x63; 9; 0x64; 0x6a; 0x55; 1] 8)) =
  Some (Some (Some 1), Some None).
Proof. by vm_compute. Qed.

(** The loops over the values of a negated alternative share their inner variable, so
    that only grams with the first value are entered: 61 !(62|..) 63 stands in
    "axc", but the filter rejects it. *)
Lemma negated_alternative_missed :
  let p := chars_patt [0x61; 0x200; 0x63] [Special AC_SPECIAL_ALT_CHAR true 2 [[0x62; 0x64]]] in
  match filter_add_acpatt filter_init p with
  | Some (m, r) => r = 3 /\ filter_search_ext m [0x61; 0x78; 0x63; 0; 0; 0] 6 = Some None
  | None => False
  end.
Proof. vm_compute. split; reflexivity. Qed.

End FilterAcFacts.
