(* ===== verification/AddSig.v ===== *)
(** * Reading signatures with wildcards (libclamav/matcher-ac.c, str.c, mpool.c)

    [cli_ac_addsig] reads the hexadecimal text of a signature, with nibbles and bytes
    that are ignored, characters at a distance in square brackets, and alternatives,
    boundaries and line markers in parentheses; it enters the pattern into the
    prefilter, cuts it at the static characters by which the automaton finds it and
    adds it to the matcher.  Strings are lists without their terminator. *)
From stdpp Require Import base numbers list list_numbers gmap.
From Stdlib Require Import ZArith Lia Bool.
From S2P Require Import Prelude Dlp StrSearch Filter CalOff QSort Hashset Ac AcMatch FilterAc.

Local Open Scope Z_scope.

Module AddSig.
Import Errors Ctype StrSearch CalOff Ac AcMatch FilterAc.

(** ** Steps that may return an error code *)

(** The outcomes of allocations are threaded; [inl] is a return of a code. *)
Definition M (A : Type) : Type := list bool -> res ((Z + A) * list bool).
Definition give {A} (a : A) : M A := fun m => Ok (inr a, m).
Definition fail_with {A} (code : Z) : M A := fun m => Ok (inl code, m).
Definition bindM {A B} (c : M A) (f : A -> M B) : M B := fun m =>
  let! (r, m) := c m in
  match r with
  | inl code => Ok (inl code, m)
  | inr a => f a m
  end.
Notation "'let^' x ':=' c 'in' k" := (bindM c (fun x => k)) (at level 10, x pattern, c at level 100, k at level 200) : clam_scope.

(** An allocation whose failure returns [code]. *)
Definition need_mem (code : Z) : M unit := fun m => let '(ok, m) := alloc m in Ok (if ok then inr tt else inl code, m).
(** A value that exists, or the return of [code]. *)
Definition need {A} (code : Z) (o : option A) : M A := match o with Some a => give a | None => fail_with code end.
(** A computation without allocations, and an access that must be inside. *)
Definition run {A} (r : res A) : M A := fun m => let! a := r in Ok (inr a, m).

(** ** Hexadecimal texts (str.c) *)
(** A pair of characters; [None] is the return of 0. *)
Definition hex_pair (a b : Z) : option Z :=
  if (a =? 63) && (b =? 63) then Some CLI_MATCH_IGNORE
  else if b =? 63 then
    if 0 <=? cli_hex2int a then Some (Z.lor (Z.shiftl (cli_hex2int a) 4) CLI_MATCH_NIBBLE_HIGH) else None
  else if a =? 63 then
    if 0 <=? cli_hex2int b then Some (Z.lor (cli_hex2int b) CLI_MATCH_NIBBLE_LOW) else None
  else if a =? 40 then Some CLI_MATCH_SPECIAL
  else if (0 <=? cli_hex2int a) && (0 <=? cli_hex2int b) then Some (Z.shiftl (cli_hex2int a) 4 + cli_hex2int b)
  else None.

Fixpoint cli_realhex2ui (hex : list Z) : option (list Z) :=
  match hex with
  | [] => Some []
  | a :: b :: hex => let* v := hex_pair a b in let* l := cli_realhex2ui hex in Some (v :: l)
  | [_] => None
  end.

(** [cli_hex2ui] and [cli_mpool_hex2ui]; the array has one more element, which is 0.
    NULL makes the callers return [code]. *)
Definition cli_hex2ui (code : Z) (hex : list Z) : M (list Z) :=
  if negb (Z.of_nat (length hex) mod 2 =? 0) then fail_with code
  else
    let^ _ := need_mem code in
    need code (cli_realhex2ui hex).

Fixpoint cli_hex2str_to (hex : list Z) : option (list Z) :=
  match hex with
  | [] => Some []
  | a :: b :: hex =>
      if (0 <=? cli_hex2int a) && (0 <=? cli_hex2int b) then
        let* l := cli_hex2str_to hex in Some (uint 8 (Z.shiftl (cli_hex2int a) 4 + cli_hex2int b) :: l)
      else None
  | [_] => None
  end.

(** [cli_mpool_hex2str] does not test the result of its allocation. *)
Definition cli_mpool_hex2str (code : Z) (hex : list Z) : M (list Z) :=
  if negb (Z.of_nat (length hex) mod 2 =? 0) then fail_with code
  else fun m =>
    let '(ok, m) := alloc m in
    if ok then need code (cli_hex2str_to hex) m else Undef.

(** [cli_strtok] with one delimiter: the loop to the field, and the field; [None] is
    NULL. *)
Fixpoint tok_skip (delim : Z) (line : list Z) (counter fieldno : Z) (skipping : bool) : list Z :=
  match line with
  | [] => []
  | c :: l =>
      if skipping && (c =? delim) then tok_skip delim l counter fieldno true
      else if counter =? fieldno then line
      else if c =? delim then tok_skip delim l (counter + 1) fieldno true
      else tok_skip delim l counter fieldno false
  end.
Fixpoint tok_word (delim : Z) (line : list Z) : list Z :=
  match line with
  | [] => []
  | c :: l => if c =? delim then [] else c :: tok_word delim l
  end.
Definition cli_strtok (delim : Z) (line : list Z) (fieldno : Z) (m : list bool) : option (list Z) * list bool :=
  match tok_word delim (tok_skip delim line 0 fieldno false) with
  | [] => (None, m)
  | w => let '(ok, m) := alloc m in (if ok then Some w else None, m)
  end.

(** A field that must exist. *)
Definition need_field (code : Z) (delim : Z) (line : list Z) (fieldno : Z) : M (list Z) := fun m =>
  let '(o, m) := cli_strtok delim line fieldno m in need code o m.

(** [strstr(s, " (Clam)")]: what precedes it. *)
Definition clam_suffix : list Z := [32; 40; 67; 108; 97; 109; 41].
Fixpoint before_clam (s : list Z) : option (list Z) :=
  match s with
  | [] => None
  | c :: l => if prefixb clam_suffix s then Some [] else let* p := before_clam l in Some (c :: p)
  end.

(** [cli_mpool_virname]: NULL makes the caller return CL_EMEM. *)
Definition cli_mpool_virname (virname : list Z) (official : bool) : M (list Z) :=
  let virname := default virname (before_clam virname) in
  match virname with
  | [] => fail_with CL_EMEM
  | _ =>
      let^ _ := need_mem CL_EMEM in
      give (if official then virname else virname ++ [46; 85; 78; 79; 70; 70; 73; 67; 73; 65; 76])
  end.

(** ** Characters at a distance: [ [n1-n2] ] *)
Definition AC_CH_MAXDIST : Z := 32.
Record chs := Chs { c_ch : Z * Z; c_min : Z * Z; c_max : Z * Z }.

(** [sscanf(pt, "%u-%u", &n1, &n2) == 2] *)
Definition scan_range (s : list Z) : option (Z * Z) :=
  let* (n1, s) := scan_u s in
  let* s := scan_lit 45 s in
  let* (n2, _) := scan_u s in
  Some (n1, n2).

(** One round of the loop: [None] leaves it; otherwise the text that is left, the
    characters and the index. *)
Definition bracket (i : Z) (hex : list Z) (c : chs) : M (option (list Z * chs * Z)) :=
  match strchr 91 hex with
  | None => give None
  | Some (hex, pt) =>
      let^ (pt, pt2) := need CL_EMALFDB (strchr 93 pt) in
      let^ (n1, n2) := need CL_EMALFDB (scan_range pt) in
      if (n2 <? n1) || (AC_CH_MAXDIST <? n2) then fail_with CL_EMALFDB
      else if (Z.of_nat (length hex) =? 2) then
        if negb (i =? 0) then fail_with CL_EMALFDB
        else
          let^ dec := cli_hex2ui CL_EMALFDB hex in
          give (Some (pt2, Chs (default 0 (head dec), snd (c_ch c)) (n1, snd (c_min c)) (n2, snd (c_max c)), i))
      else if (Z.of_nat (length pt2) =? 2) then
        let^ dec := cli_hex2ui CL_EMALFDB pt2 in
        give (Some (hex, Chs (fst (c_ch c), default 0 (head dec)) (fst (c_min c), n1) (fst (c_max c), n2), 1))
      else fail_with CL_EMALFDB
  end.

Definition brackets (hexsig : list Z) (c : chs) : M (list Z * chs) :=
  let^ _ := need_mem CL_EMEM in
  let^ r := bracket 0 hexsig c in
  let^ (hex, c) :=
    match r with
    | None => give (hexsig, c)
    | Some (hex, c, i) =>
        if i =? 0 then
          let^ r := bracket 1 hex c in
          give (match r with None => (hex, c) | Some (hex, c, _) => (hex, c) end)
        else give (hex, c)
    end in
  let^ _ := need_mem CL_EMEM in
  give (hex, c).

(** ** Blocks in parentheses *)

(** The parts of the pattern the blocks set: the text with "()" in the place of the
    specials, the flags and the table. *)
Record blocks := Blocks { b_hex : list Z; b_boundary : Z; b_table : list special }.

Definition flag (neg : bool) (f fneg : Z) (b : Z) : Z := let b := Z.lor b f in if neg then Z.lor b fneg else b.

(** [qcompare]. *)
Definition qcompare (a b : Z) : Z := a - b.

(** The alternatives of a block: the loop over the fields. *)
Fixpoint fields (n : nat) (pt : list Z) (i : Z) (alt_char : bool) : M (list (list Z)) :=
  match n with
  | O => give []
  | S n =>
      let^ h := need_field CL_EMALFDB 124 pt i in
      let^ c := cli_mpool_hex2str CL_EMALFDB h in
      let^ _ := (if negb alt_char && negb (i =? 0) then need_mem CL_EMEM else give tt) in
      let^ l := fields n pt (i + 1) alt_char in
      give (c :: l)
  end.

(** The index of the first loop has 16 bits: it does not end on a block of more than
    65535 characters. *)
Definition alternatives (pt : list Z) (neg : bool) : M special :=
  if 65535 <? Z.of_nat (length pt) then fun _ => NoFuel else
  let num := uint 16 (Z.of_nat (length (filter (fun c => c = 124) pt))) in
  if num =? 0 then fail_with CL_EMALFDB
  else
    let num := uint 16 (num + 1) in
    if 3 * num - 1 =? uint 16 (Z.of_nat (length pt)) then
      let^ _ := need_mem CL_EMEM in
      let^ l := fields (Z.to_nat num) pt 0 true in
      let^ str := run (QSort.cli_qsort qcompare 1 ((fun c => default 0 (head c)) <$> l)) in
      give (Special AC_SPECIAL_ALT_CHAR neg num [str])
    else
      let^ l := fields (Z.to_nat num) pt 0 false in
      give (Special AC_SPECIAL_ALT_STR neg num l).

(** The text without a last exclamation mark. *)
Definition cut_mark (s : list Z) : list Z * bool :=
  match last s with
  | Some 33 => (take (length s - 1) s, true)
  | _ => (s, false)
  end.

(** The loop over the blocks; [first] says whether [start] is the start of the text. *)
Fixpoint block_loop (n : nat) (start : list Z) (first : bool) (b : blocks) : M blocks :=
  match n with
  | O => fun _ => NoFuel
  | S n =>
      match strchr 40 start with
      | None => give (Blocks (b_hex b ++ start) (b_boundary b) (b_table b))
      | Some (pre, pt) =>
          let^ _ := need_mem CL_EMEM in
          let '(text, neg) := cut_mark pre in
          let hex := b_hex b ++ text in
          let^ (pt, rest) := need CL_EMALFDB (strchr 41 pt) in
          if bool_decide (pt = []) then fail_with CL_EMALFDB
          else
            let boundary_left := first && bool_decide (pre = []) in
            let skip f fneg := block_loop n rest false (Blocks hex (flag neg f fneg (b_boundary b)) (b_table b)) in
            let special sp :=
              let^ _ := need_mem CL_EMEM in
              let^ sp := sp in
              block_loop n rest false (Blocks (hex ++ [40; 41]) (b_boundary b) (b_table b ++ [sp])) in
            if bool_decide (pt = [66]) then
              if bool_decide (rest = []) then skip AC_BOUNDARY_RIGHT AC_BOUNDARY_RIGHT_NEGATIVE
              else if boundary_left then skip AC_BOUNDARY_LEFT AC_BOUNDARY_LEFT_NEGATIVE
              else special (give (Special AC_SPECIAL_BOUNDARY neg 0 []))
            else if bool_decide (pt = [76]) then
              if bool_decide (rest = []) then skip AC_LINE_MARKER_RIGHT AC_LINE_MARKER_RIGHT_NEGATIVE
              else if boundary_left then skip AC_LINE_MARKER_LEFT AC_LINE_MARKER_LEFT_NEGATIVE
              else special (give (Special AC_SPECIAL_LINE_MARKER neg 0 []))
            else special (alternatives pt neg)
      end
  end.

(** ** The static part *)
Record pick := Pick { plen : Z; ppos : Z; nzplen : Z; nzpos : Z }.

Section Static.
Context (pat : list Z) (length_ mindepth maxdepth : Z).

(** The array of the characters, with its last element. *)
Definition pat_at (i : Z) : option Z := bget (pat ++ [0]) i.

Definition nonzero_at (i : Z) : option bool :=
  let* a := pat_at i in
  if negb (a =? 0) then Some true else let* b := pat_at (i + 1) in Some (negb (b =? 0)).

(** The first loop: [wprefix] and [zprefix]. *)
Fixpoint prefix_loop (n : nat) (i : Z) (zprefix : bool) : option (bool * bool) :=
  match n with
  | O => Some (false, zprefix)
  | S n =>
      if (i <? maxdepth) && (i <? length_) then
        let* c := pat_at i in
        if is_wild c then Some (true, zprefix) else prefix_loop n (i + 1) (zprefix && (c =? 0))
      else Some (false, zprefix)
  end.

Fixpoint pick_inner (n : nat) (i j : Z) (p : pick) : option pick :=
  match n with
  | O => Some p
  | S n =>
      if (j <? i + maxdepth) && (j <? length_) then
        let* c := pat_at j in
        if is_wild c then Some p
        else
          let p := if plen p <=? j - i + 1 then Pick (j - i + 1) i (nzplen p) (nzpos p) else p in
          let* nz := nonzero_at (ppos p) in
          if nz then
            if maxdepth <=? plen p then Some p
            else
              let p := if (mindepth <=? plen p) && (nzplen p <? plen p) then Pick (plen p) (ppos p) (plen p) (ppos p) else p in
              pick_inner n i (j + 1) p
          else pick_inner n i (j + 1) p
      else Some p
  end.

Fixpoint pick_outer (n : nat) (i pend : Z) (p : pick) : option pick :=
  match n with
  | O => Some p
  | S n =>
      if i <? pend then
        let* p := pick_inner (Z.to_nat maxdepth) i i p in
        let* stop := (if maxdepth <=? plen p then nonzero_at (ppos p) else Some false) in
        if stop then Some p else pick_outer n (i + 1) pend p
      else Some p
  end.

(** Where the pattern is cut: [None] if it starts with static characters, [Some None]
    if it has no static part. *)
Definition cut_at : option (option (option Z)) :=
  let* (wprefix, zprefix) := prefix_loop (Z.to_nat maxdepth) 0 true in
  if wprefix || zprefix then
    let pend := uint 16 (length_ - mindepth + 1) in
    let* p := pick_outer (Z.to_nat pend) 0 pend (Pick 0 0 0 0) in
    let* nz := nonzero_at (ppos p) in
    let p := if negb nz && negb (nzplen p =? 0) then Pick (nzplen p) (nzpos p) (nzplen p) (nzpos p) else p in
    Some (Some (if plen p <? mindepth then None else Some (ppos p)))
  else Some None.
End Static.

(** ** Adding the signature *)

(** The parts of a matcher that change; [sr_reloff] lists the patterns with relative
    offsets ([None] is an entry that was never written), [sr_names] the names of
    logical signatures. *)
Record sigroot := SigRoot {
  sr_ac : ac; sr_type : Z; sr_filter : option Filter.filter; sr_maxpatlen : Z; sr_reloff : list (option nat); sr_names : gmap Z (list Z) }.

Record sigargs := SigArgs {
  a_virname : list Z; a_hexsig : list Z; a_sigid : Z; a_parts : Z; a_partno : Z; a_rtype : Z; a_type : Z;
  a_mindist : Z; a_maxdist : Z; a_offset : list Z; a_lsigid : option (Z * Z); a_official : bool }.

(** The text is read: the pattern before it is cut, with [length]. *)
Definition read_sig (mindepth : Z) (g : sigargs) : M (list Z * chs * blocks * Z) :=
  let hexsig := a_hexsig g in
  if Z.of_nat (length hexsig) / 2 <? mindepth then fail_with CL_EMALFDB
  else
    let^ _ := need_mem CL_EMEM in
    let c := Chs (CLI_MATCH_IGNORE, CLI_MATCH_IGNORE) (0, 0) (0, 0) in
    let^ (hex, c) := (if bool_decide (91 ∈ hexsig) then let^ (hex, c) := brackets hexsig c in give (Some hex, c) else give (None, c)) in
    let^ b :=
      (if bool_decide (40 ∈ hexsig) then
         let^ hexcpy := (match hex with Some hex => give hex | None => let^ _ := need_mem CL_EMEM in give hexsig end) in
         let^ _ := need_mem CL_EMEM in
         block_loop (S (length hexcpy)) hexcpy true (Blocks [] 0 [])
       else give (Blocks (default hexsig hex) 0 [])) in
    let^ pat := cli_hex2ui CL_EMALFDB (b_hex b) in
    give (pat, c, b, uint 16 (Z.of_nat (length (b_hex b)) / 2)).

Definition set_offsets (mn mx : Z) (c : cell) : cell :=
  let p := patt c in
  Cell (AcPatt (pattern p) (prefix p) (mindist p) (maxdist p) (sigid p) (parts p) (partno p) (lsigid p) (ch p) (ch_mindist p) (ch_maxdist p)
    (special_table p) (special_pattern p) (rtype p) (type p) (off_data p) mn mx (boundary p) (virname p)) (next c) (next_same c) (depth c).

(** The pattern made of what was read. *)
Definition make_patt (g : sigargs) (pat : list Z) (c : chs) (b : blocks) (cut : option Z) (virname : list Z) (d : offdata) (mn mx : Z) : ac_patt :=
  let pre := match cut with Some k => take (Z.to_nat k) pat | None => [] end in
  AcPatt (match cut with Some k => drop (Z.to_nat k) pat | None => pat end) (match cut with Some _ => Some pre | None => None end)
    (a_mindist g) (a_maxdist g) (a_sigid g) (a_parts g) (a_partno g) (a_lsigid g) (c_ch c) (c_min c) (c_max c)
    (b_table b) (Z.of_nat (length (filter (fun x => Z.land x CLI_MATCH_WILDCARD = CLI_MATCH_SPECIAL) pre)))
    (a_rtype g) (a_type g) d mn mx (b_boundary b) virname.

(** The prefilter: a pattern it cannot take makes the matcher drop it. *)
Definition enter_filter (f : option Filter.filter) (p : ac_patt) : option (option Filter.filter) :=
  match f with
  | None => Some None
  | Some f => let* (f, r) := filter_add_acpatt f p in Some (if r =? -1 then None else Some f)
  end.

(** [realloc_ok] is the outcome of the last allocation, of the table of relative
    offsets: when it fails the table is lost, but not its length. *)
Definition cli_ac_addsig (realloc_ok : bool) (root : sigroot) (g : sigargs) (m : list bool) : res (Z * sigroot) :=
  let s := sr_ac root in
  let! (r, m) := read_sig (ac_mindepth s) g m in
  match r with
  | inl code => Ok (code, root)
  | inr (pat, c, b, len) =>
      let! f := of_opt (enter_filter (sr_filter root) (make_patt g pat c b None (a_virname g) (OffData 0 0 0 0) 0 0)) in
      let root := SigRoot s (sr_type root) f (sr_maxpatlen root) (sr_reloff root) (sr_names root) in
      let! cut := of_opt (cut_at pat len (ac_mindepth s) (ac_maxdepth s)) in
      match cut with
      | Some None => Ok (CL_EMALFDB, root)
      | _ =>
          let cut := match cut with Some k => k | None => None end in
          let mx := if sr_maxpatlen root <? len then len else sr_maxpatlen root in
          let root := SigRoot s (sr_type root) f mx (sr_reloff root) (sr_names root) in
          let! (r, m) := cli_mpool_virname (a_virname g) (a_official g) m in
          match r with
          | inl code => Ok (code, root)
          | inr name =>
              let names := match a_lsigid g with Some (l1, _) => <[l1 := name]> (sr_names root) | None => sr_names root end in
              let root := SigRoot s (sr_type root) f mx (sr_reloff root) names in
              let d := cli_caloff_decode (Some (a_offset g)) (sr_type root) (OffData 0 0 0 0) 0 0 in
              if negb (ret d =? CL_SUCCESS) then Ok (ret d, root)
              else
                let! (code, s) := cli_ac_addpatt s (make_patt g pat c b cut name (data d) (off_min d) (off_max d)) m in
                let root := SigRoot s (sr_type root) f mx (sr_reloff root) names in
                if negb (code =? CL_SUCCESS) then Ok (code, root)
                else
                  let k := od0 (data d) in
                  if negb (k =? CLI_OFF_ANY) && negb (k =? CLI_OFF_ABSOLUTE) && negb (k =? CLI_OFF_MACRO) then
                    if negb realloc_ok then
                      Ok (CL_EMEM, SigRoot s (sr_type root) f mx (replicate (length (sr_reloff root)) None) names)
                    else
                    let id := (length (cells s) - 1)%nat in
                    let n := Z.of_nat (length (sr_reloff root)) in
                    Ok (CL_SUCCESS, SigRoot (upd_cell s id (set_offsets (n * 2) (n * 2 + 1))) (sr_type root) f mx (sr_reloff root ++ [Some id]) names)
                  else Ok (CL_SUCCESS, root)
          end
      end
  end.

End AddSig.
