(* ===== verification/AddSigFacts.v ===== *)
(** * What a signature text means

    The syntax of signature texts as data, how they are printed, and what pattern
    [cli_ac_addsig] reads from the printed text. *)
From stdpp Require Import base numbers list list_numbers gmap sorting.
From Stdlib Require Import ZArith Lia Bool.
From S2P Require Import Prelude Dlp StrSearch Filter CalOff QSort QSortFacts Hashset Ac AcMatch FilterAc AddSig.

Local Open Scope Z_scope.

Module AddSigFacts.
Import Errors Ctype StrSearch CalOff Ac AcMatch FilterAc QSortFacts AddSig.

(** A step that succeeds. *)
Lemma bind_ok {A B} (c : M A) (f : A -> M B) (a : A) m m' : c m = Ok (inr a, m') -> bindM c f m = f a m'.
Proof. intros H. unfold bindM. by rewrite H. Qed.
Lemma bind_mem {B} code (f : unit -> M B) : bindM (need_mem code) f [] = f tt [].
Proof. done. Qed.

(** ** Characters *)

(** Static bytes, ignored bytes, nibbles and specials. *)
Definition valid (c : Z) : bool :=
  ((0 <=? c) && (c <? 0x100)) || (c =? CLI_MATCH_IGNORE)
  || ((CLI_MATCH_NIBBLE_HIGH <=? c) && (c <? CLI_MATCH_NIBBLE_HIGH + 256) && (c mod 16 =? 0))
  || ((CLI_MATCH_NIBBLE_LOW <=? c) && (c <? CLI_MATCH_NIBBLE_LOW + 16)).

Definition digit (v : Z) : Z := if v <? 10 then 48 + v else 87 + v.

Definition print_char (c : Z) : list Z :=
  let hi := digit (Z.land c 0xff / 16) in
  let lo := digit (c mod 16) in
  let wc := Z.land c CLI_MATCH_WILDCARD in
  if wc =? CLI_MATCH_CHAR then [hi; lo]
  else if wc =? CLI_MATCH_IGNORE then [63; 63]
  else if wc =? CLI_MATCH_NIBBLE_HIGH then [hi; 63]
  else if wc =? CLI_MATCH_NIBBLE_LOW then [63; lo]
  else [40; 41].
Definition print_chars (l : list Z) : list Z := concat (print_char <$> l).

Definition hexish (c : Z) : bool := (0 <=? cli_hex2int c) || (c =? 63).

Lemma check_codes (P : Z -> bool) n c : forallb P (seqZ 0 n) = true -> 0 <= c < n -> P c = true.
Proof. intros H Hc. rewrite forallb_forall in H. apply H. apply list_elem_of_In, elem_of_seqZ. lia. Qed.

Lemma valid_range c : valid c = true -> 0 <= c < 0x500.
Proof.
  unfold valid. change CLI_MATCH_IGNORE with 256. change CLI_MATCH_NIBBLE_HIGH with 768. change CLI_MATCH_NIBBLE_LOW with 1024.
  rewrite !orb_true_iff, !andb_true_iff. lia.
Qed.

Lemma hex_pair_print c : valid c = true \/ c = CLI_MATCH_SPECIAL ->
  exists a b, print_char c = [a; b] /\ hex_pair a b = Some c /\ (valid c = true -> hexish a = true /\ hexish b = true).
Proof.
  intros H. pose (P c := match print_char c with
    | [a; b] => bool_decide (hex_pair a b = Some c) && (negb (valid c) || (hexish a && hexish b)) | _ => false end || negb (valid c || (c =? CLI_MATCH_SPECIAL))).
  assert (P c = true) as HP.
  { apply (check_codes P 0x500); [by vm_compute|]. destruct H as [H|H]; [by apply valid_range|subst c; vm_compute; split; congruence]. }
  unfold P in HP. assert (valid c || (c =? CLI_MATCH_SPECIAL) = true) as Hv by (destruct H as [-> | ->]; [done|by rewrite orb_true_r]).
  rewrite Hv, orb_false_r in HP. destruct (print_char c) as [|a [|b [|]]]; try done. apply andb_true_iff in HP as [E1 E2].
  apply bool_decide_eq_true in E1. exists a, b. split; [done|]. split; [done|]. intros Hc. rewrite Hc in E2. cbn in E2. by apply andb_true_iff in E2.
Qed.

Definition readable (c : Z) : Prop := valid c = true \/ c = CLI_MATCH_SPECIAL.

Lemma print_chars_app l1 l2 : print_chars (l1 ++ l2) = print_chars l1 ++ print_chars l2.
Proof. unfold print_chars. by rewrite fmap_app, concat_app. Qed.

Lemma length_print l : Forall readable l -> length (print_chars l) = (2 * length l)%nat.
Proof.
  induction 1 as [|c l Hc Hl IH]; [done|]. unfold print_chars in *. cbn [fmap list_fmap concat]. rewrite length_app, IH.
  destruct (hex_pair_print c Hc) as (a & b & -> & _). cbn. lia.
Qed.

Lemma realhex2ui_print l : Forall readable l -> cli_realhex2ui (print_chars l) = Some l.
Proof.
  induction 1 as [|c l Hc Hl IH]; [done|]. destruct (hex_pair_print c Hc) as (a & b & E & Eh & _). unfold print_chars in *.
  cbn [fmap list_fmap concat]. rewrite E. cbn [app cli_realhex2ui]. by rewrite Eh, IH.
Qed.

Lemma hex2ui_print code l : Forall readable l -> cli_hex2ui code (print_chars l) [] = Ok (inr l, []).
Proof.
  intros H. unfold cli_hex2ui. rewrite length_print by done. rewrite Nat2Z.inj_mul, Z.mul_comm, Z.mod_mul by done. cbn.
  by rewrite realhex2ui_print.
Qed.

Lemma print_hexish l : Forall (fun c => valid c = true) l -> Forall (fun x => hexish x = true) (print_chars l).
Proof.
  induction 1 as [|c l Hc Hl IH]; [constructor|]. destruct (hex_pair_print c (or_introl Hc)) as (a & b & E & _ & Hh).
  destruct (Hh Hc). unfold print_chars in *. cbn [fmap list_fmap concat]. rewrite E. by repeat constructor.
Qed.

Lemma not_hexish_out x l : hexish x = false -> Forall (fun x => hexish x = true) l -> x ∉ l.
Proof. intros Hx H Hin. rewrite Forall_forall in H. rewrite (H x Hin) in Hx. done. Qed.

(** ** Bytes in alternatives *)
Definition byte (b : Z) : Prop := 0 <= b < 256.

Lemma byte_valid b : byte b -> valid b = true.
Proof. intros Hb. unfold valid. unfold byte in Hb. rewrite !orb_true_iff, !andb_true_iff. left. left. left. lia. Qed.

Lemma hex2str_print l : Forall byte l -> cli_hex2str_to (print_chars l) = Some l.
Proof.
  induction 1 as [|c l Hc Hl IH]; [done|].
  pose (P c := match print_char c with
    | [a; b] => (0 <=? cli_hex2int a) && (0 <=? cli_hex2int b) && (uint 8 (Z.shiftl (cli_hex2int a) 4 + cli_hex2int b) =? c) | _ => false end).
  assert (P c = true) as HP by (apply (check_codes P 256); [by vm_compute|exact Hc]). unfold P in HP.
  unfold print_chars in *. cbn [fmap list_fmap concat]. destruct (print_char c) as [|a [|b [|]]]; try done.
  apply andb_true_iff in HP as [E1 E2%Z.eqb_eq]. cbn [app cli_hex2str_to]. by rewrite E1, IH, E2.
Qed.

Lemma bytes_readable l : Forall byte l -> Forall readable l.
Proof. intros H. eapply Forall_impl; [exact H|]. intros b Hb. left. by apply byte_valid. Qed.

Lemma mpool_hex2str_print code l : Forall byte l -> cli_mpool_hex2str code (print_chars l) [] = Ok (inr l, []).
Proof.
  intros H. unfold cli_mpool_hex2str. rewrite length_print by (by apply bytes_readable). rewrite Nat2Z.inj_mul, Z.mul_comm, Z.mod_mul by done.
  cbn. by rewrite hex2str_print.
Qed.

(** ** Texts with separators *)
Lemma strchr_app c a b : c ∉ a -> strchr c (a ++ c :: b) = Some (a, b).
Proof.
  induction a as [|x a IH]; intros H; cbn; [by rewrite Z.eqb_refl|]. apply not_elem_of_cons in H as [H1 H2].
  destruct (Z.eqb_spec x c); [congruence|]. by rewrite IH.
Qed.
Lemma strchr_none c a : c ∉ a -> strchr c a = None.
Proof.
  induction a as [|x a IH]; intros H; cbn; [done|]. apply not_elem_of_cons in H as [H1 H2].
  destruct (Z.eqb_spec x c); [congruence|]. by rewrite IH.
Qed.

(** The strings with bars between them. *)
Fixpoint join (ws : list (list Z)) : list Z :=
  match ws with
  | [] => []
  | w :: ws => w ++ match ws with [] => [] | _ => 124 :: join ws end
  end.

(** A word of a field. *)
Definition word_ok (w : list Z) : Prop := w <> [] /\ 124 ∉ w.

Lemma tok_skip_word w rest c f : 124 ∉ w -> c <> f -> tok_skip 124 (w ++ 124 :: rest) c f false = tok_skip 124 rest (c + 1) f true.
Proof.
  intros Hw Hc. induction w as [|x w IH]; cbn [app tok_skip].
  - cbn. destruct (Z.eqb_spec c f); [congruence|done].
  - apply not_elem_of_cons in Hw as [H1 H2]. cbn [andb]. destruct (Z.eqb_spec c f); [congruence|]. destruct (Z.eqb_spec x 124); [congruence|]. by apply IH.
Qed.

Lemma tok_skip_start ws c f b : Forall word_ok ws -> c <> f -> tok_skip 124 (join ws) c f b = tok_skip 124 (join ws) c f false.
Proof.
  intros [|w ws' [Hne Hw] _] Hc; [done|]. destruct w as [|x w]; [done|]. apply not_elem_of_cons in Hw as [H1 _]. cbn.
  destruct (Z.eqb_spec x 124); [congruence|]. by rewrite andb_false_r.
Qed.

Lemma tok_skip_here w l c : word_ok w -> tok_skip 124 (w ++ l) c c true = w ++ l.
Proof.
  intros [Hne Hw]. destruct w as [|x w]; [done|]. apply not_elem_of_cons in Hw as [H1 _]. cbn.
  destruct (Z.eqb_spec x 124); [congruence|]. by rewrite Z.eqb_refl.
Qed.

Lemma tok_skip_join ws i c b : Forall word_ok ws -> (i < length ws)%nat -> (i = 0%nat -> b = true \/ c = 0) ->
  tok_skip 124 (join ws) c (c + Z.of_nat i) b = join (drop i ws).
Proof.
  revert ws c b. induction i as [|i IH]; intros ws c b HF Hi Hb.
  - rewrite Z.add_0_r, drop_0. destruct ws as [|w ws]; [done|]. inversion HF as [|? ? [Hne Hw] _]; subst. destruct w as [|x w]; [done|].
    apply not_elem_of_cons in Hw as [H1 _]. cbn. destruct (Z.eqb_spec x 124); [congruence|]. by rewrite Z.eqb_refl, andb_false_r.
  - rewrite tok_skip_start by (done || lia). destruct ws as [|w ws]; [cbn in Hi; lia|]. inversion HF as [|? ? [Hne Hw] HF']; subst.
    destruct ws as [|w2 ws]; [cbn in Hi; lia|]. cbn [join drop]. change (w2 ++ _) with (join (w2 :: ws)). rewrite tok_skip_word by (done || lia).
    replace (c + Z.of_nat (S i)) with (c + 1 + Z.of_nat i) by lia. apply IH; [done|cbn in *; lia|by left].
Qed.

Lemma tok_word_join w ws : 124 ∉ w -> tok_word 124 (join (w :: ws)) = w.
Proof.
  cbn [join]. set (r := match ws with [] => _ | _ => _ end). assert (tok_word 124 r = []) as Hr by (unfold r; by destruct ws).
  clearbody r. intros H. induction w as [|x w IH]; cbn; [done|]. apply not_elem_of_cons in H as [H1 H2].
  destruct (Z.eqb_spec x 124); [congruence|]. by rewrite IH.
Qed.

Lemma strtok_join code ws i w : Forall word_ok ws -> ws !! i = Some w -> need_field code 124 (join ws) (Z.of_nat i) [] = Ok (inr w, []).
Proof.
  intros HF Hi. unfold need_field, cli_strtok. pose proof (lookup_lt_Some _ _ _ Hi) as Hl. assert (word_ok w) as [Hne Hw] by (by eapply Forall_lookup_1).
  pose proof (tok_skip_join ws i 0 false HF Hl (fun _ => or_intror eq_refl)) as E. rewrite Z.add_0_l in E. rewrite E, (drop_S _ w) by done.
  rewrite tok_word_join by done. by destruct w.
Qed.

Lemma join_hexish ws : Forall (Forall (fun x => hexish x = true)) ws -> Forall (fun x => hexish x = true \/ x = 124) (join ws).
Proof.
  induction 1 as [|w ws Hw Hws IH]; [constructor|]. cbn. apply Forall_app. split; [eapply Forall_impl; [exact Hw|]; by left|].
  destruct ws; [constructor|]. constructor; [by right|done].
Qed.

Lemma join_bars ws : Forall word_ok ws -> length (filter (fun c => c = 124) (join ws)) = (length ws - 1)%nat.
Proof.
  induction 1 as [|w ws [Hne Hw] Hws IH]; [done|]. cbn [join length]. rewrite filter_app, length_app.
  assert (filter (fun c => c = 124) w = []) as ->.
  { clear -Hw. induction w as [|x w IH]; [done|]. apply not_elem_of_cons in Hw as [H1 H2]. rewrite filter_cons_False by congruence. by apply IH. }
  destruct ws as [|w2 ws]; [done|]. rewrite filter_cons_True by done. cbn [length] in *. lia.
Qed.

Lemma length_join ws : ws <> [] -> length (join ws) = (sum_list (length <$> ws) + length ws - 1)%nat.
Proof.
  induction ws as [|w ws IH]; intros Hne; [done|]. cbn [join fmap list_fmap sum_list length]. rewrite length_app.
  destruct ws as [|w2 ws]; [cbn; lia|]. cbn [length]. rewrite IH by done. cbn [length fmap list_fmap sum_list]. unfold id. lia.
Qed.

(** ** The syntax of signature texts *)
Inductive block := BWord | BLine | BAlts (l : list (list Z)).
Record piece := Piece { p_text : list Z; p_neg : bool; p_block : block }.
(** Pieces with a block each, and the text behind the last block. *)
Record sigtext := SigText { pieces : list piece; rest : list Z }.

Definition print_block (b : block) : list Z :=
  match b with BWord => [66] | BLine => [76] | BAlts l => join (print_chars <$> l) end.
Definition print_piece (p : piece) : list Z :=
  print_chars (p_text p) ++ (if p_neg p then [33] else []) ++ 40 :: print_block (p_block p) ++ [41].
Definition print_sig (t : sigtext) : list Z := concat (print_piece <$> pieces t) ++ print_chars (rest t).

Definition text_ok (l : list Z) : Prop := Forall (fun c => valid c = true) l.
Definition block_ok (b : block) : Prop :=
  match b with
  | BAlts l => (2 <= length l)%nat /\ Forall (fun w => w <> [] /\ Forall byte w) l /\ Z.of_nat (length (print_block b)) <= 65535
  | _ => True
  end.
Definition piece_ok (p : piece) : Prop := text_ok (p_text p) /\ block_ok (p_block p).
Definition sig_ok (t : sigtext) : Prop := Forall piece_ok (pieces t) /\ text_ok (rest t).

(** What a text means: the characters, the flags of boundaries and line markers, and
    the table of specials. *)
Record meaning := Meaning { m_pat : list Z; m_bnd : Z; m_tab : list special }.

Definition single (w : list Z) : bool := (length w =? 1)%nat.
Definition special_of (neg : bool) (b : block) : special :=
  match b with
  | BWord => Special AC_SPECIAL_BOUNDARY neg 0 []
  | BLine => Special AC_SPECIAL_LINE_MARKER neg 0 []
  | BAlts l =>
      if forallb single l then Special AC_SPECIAL_ALT_CHAR neg (Z.of_nat (length l)) [merge_sort Z.le (concat l)]
      else Special AC_SPECIAL_ALT_STR neg (Z.of_nat (length l)) l
  end.

(** Words and line markers at the ends become flags: the flag and its negation on the
    left and on the right. *)
Definition flags_of (b : block) : option ((Z * Z) * (Z * Z)) :=
  match b with
  | BWord => Some ((AC_BOUNDARY_LEFT, AC_BOUNDARY_LEFT_NEGATIVE), (AC_BOUNDARY_RIGHT, AC_BOUNDARY_RIGHT_NEGATIVE))
  | BLine => Some ((AC_LINE_MARKER_LEFT, AC_LINE_MARKER_LEFT_NEGATIVE), (AC_LINE_MARKER_RIGHT, AC_LINE_MARKER_RIGHT_NEGATIVE))
  | BAlts _ => None
  end.

Definition add_special (p : piece) (m : meaning) : meaning :=
  Meaning (m_pat m ++ p_text p ++ [CLI_MATCH_SPECIAL]) (m_bnd m) (m_tab m ++ [special_of (p_neg p) (p_block p)]).

Definition mean_piece (first last : bool) (p : piece) (m : meaning) : meaning :=
  match flags_of (p_block p) with
  | Some ((l, ln), (r, rn)) =>
      if last then Meaning (m_pat m ++ p_text p) (flag (p_neg p) r rn (m_bnd m)) (m_tab m)
      else if first && bool_decide (p_text p = []) && negb (p_neg p) then Meaning (m_pat m) (flag false l ln (m_bnd m)) (m_tab m)
      else add_special p m
  | None => add_special p m
  end.

Fixpoint mean (first : bool) (ps : list piece) (rst : list Z) (m : meaning) : meaning :=
  match ps with
  | [] => Meaning (m_pat m ++ rst) (m_bnd m) (m_tab m)
  | p :: ps => mean false ps rst (mean_piece first (bool_decide (ps = []) && bool_decide (rst = [])) p m)
  end.
Definition meaning_of (t : sigtext) : meaning := mean true (pieces t) (rest t) (Meaning [] 0 []).

(** ** Reading alternatives *)
Definition word_of (w : list Z) : Prop := w <> [] /\ Forall byte w.

Lemma words_ok l : Forall word_of l -> Forall word_ok (print_chars <$> l).
Proof.
  intros H. apply Forall_fmap. eapply Forall_impl; [exact H|]. intros w [Hne Hb]. cbn. split.
  - intros E%(f_equal length). rewrite length_print in E by (by apply bytes_readable). destruct w; [done|cbn in E; lia].
  - apply not_hexish_out; [done|]. apply print_hexish. eapply Forall_impl; [exact Hb|]. apply byte_valid.
Qed.

Lemma fields_join n : forall l i ac, Forall word_of l -> (i + n <= length l)%nat ->
  fields n (join (print_chars <$> l)) (Z.of_nat i) ac [] = Ok (inr (take n (drop i l)), []).
Proof.
  induction n as [|n IH]; intros l i ac HF Hn; cbn [fields]; [done|].
  destruct (lookup_lt_is_Some_2 l i ltac:(lia)) as [w Hw]. assert (word_of w) as [_ Hb] by (by eapply Forall_lookup_1).
  unfold bindM at 1. rewrite (strtok_join _ _ _ (print_chars w)); [|by apply words_ok|by rewrite list_lookup_fmap, Hw]. cbn.
  unfold bindM at 1. rewrite mpool_hex2str_print by done. cbn. unfold bindM at 1.
  assert ((if negb ac && negb (Z.of_nat i =? 0) then need_mem CL_EMEM else give tt) [] = Ok (inr tt, [])) as -> by (by destruct (_ && _)).
  cbn. unfold bindM at 1. replace (Z.of_nat i + 1) with (Z.of_nat (S i)) by lia. rewrite IH by (done || lia). cbn.
  by rewrite (drop_S l w i) by done.
Qed.

Lemma all_single l : Forall word_of l -> (sum_list (length <$> l) =? length l)%nat = forallb single l /\ (length l <= sum_list (length <$> l))%nat.
Proof.
  induction 1 as [|w l [Hne _] Hl [IH1 IH2]]; [done|].
  destruct w as [|x w]; [done|]. change (sum_list (length <$> (x :: w) :: l)) with (S (length w) + sum_list (length <$> l))%nat.
  cbn [length forallb]. unfold single at 1. rewrite <- IH1. cbn [length].
  set (k := sum_list (length <$> l)) in *. split; [|lia].
  destruct (Nat.eqb_spec (S (length w)) 1), (Nat.eqb_spec k (length l)), (Nat.eqb_spec (S (length w) + k) (S (length l))); (done || lia).
Qed.

Lemma heads_concat l : forallb single l = true -> (fun c => default 0 (head c)) <$> l = concat l.
Proof.
  induction l as [|w l IH]; [done|]. cbn. intros [Hw Hl]%andb_true_iff. unfold single in Hw. rewrite IH by done.
  destruct w as [|x [|]]; done.
Qed.

Lemma concat_size (l : list (list Z)) : length (concat l) = sum_list (length <$> l).
Proof. induction l as [|w l IH]; [done|]. cbn [concat]. rewrite length_app, IH. done. Qed.

Lemma sortedl_strongly s : sortedl id s -> StronglySorted Z.le s.
Proof. induction 1; constructor; [done|]. eapply Forall_impl; [done|]. done. Qed.

Lemma qsort_bytes l : Z.of_nat (length l) < 2 ^ 31 -> QSort.cli_qsort qcompare 1 l = Ok (merge_sort Z.le l).
Proof.
  intros Hb. destruct (qsort_spec qcompare 1 id (fun _ => True)) with (fuel := S (length l)) (s := l) as (s & E & Hst & Hs);
    [intros x y _ _; unfold qcompare, id; lia..|lia|by apply Forall_true|lia|lia|]. unfold QSort.cli_qsort. rewrite E. pose proof (st_perm _ _ _ Hst) as Hp.
  f_equal. apply (StronglySorted_unique Z.le); [by apply sortedl_strongly|by apply (StronglySorted_merge_sort Z.le)|].
  by rewrite Hp, merge_sort_Permutation.
Qed.

Lemma alternatives_spec l neg : block_ok (BAlts l) -> alternatives (print_block (BAlts l)) neg [] = Ok (inr (special_of neg (BAlts l)), []).
Proof.
  intros (H2 & HF & Hlen). cbn [print_block] in *. assert (Forall word_of l) as HW by done. pose proof (words_ok l HW) as HK.
  unfold alternatives. destruct (Z.ltb_spec 65535 (Z.of_nat (length (join (print_chars <$> l))))); [lia|].
  rewrite join_bars by done. assert (print_chars <$> l <> []) as Hne by (by destruct l; [cbn in H2; lia|]).
  pose proof (length_join (print_chars <$> l) Hne) as EL. rewrite length_fmap in *. destruct (all_single l HW) as [Hsg Hle].
  assert (sum_list (length <$> (print_chars <$> l)) = (2 * sum_list (length <$> l))%nat) as ES.
  { clear -HW. induction HW as [|w l [_ Hb] _ IH]; [done|]. change (sum_list (length <$> (print_chars <$> w :: l)))
      with (length (print_chars w) + sum_list (length <$> (print_chars <$> l)))%nat. rewrite IH, length_print by (by apply bytes_readable).
    change (sum_list (length <$> w :: l)) with (length w + sum_list (length <$> l))%nat. lia. }
  rewrite ES in EL. rewrite !uint_small by (change (2 ^ 16) with 65536; lia).
  destruct (Z.eqb_spec (Z.of_nat (length l - 1)) 0); [lia|]. replace (Z.of_nat (length l - 1) + 1) with (Z.of_nat (length l)) by lia.
  rewrite Nat2Z.id. cbn [special_of]. destruct (Nat.eqb_spec (sum_list (length <$> l)) (length l)) as [Es|Es].
  - rewrite <- Hsg. destruct (Z.eqb_spec (3 * Z.of_nat (length l) - 1) (Z.of_nat (length (join (print_chars <$> l))))); [|lia].
    rewrite bind_mem, (bind_ok _ _ l [] []); [|pose proof (fields_join (length l) l 0 true HW ltac:(lia)) as EF; by rewrite drop_0, take_ge in EF by lia].
    rewrite (bind_ok _ _ (merge_sort Z.le (concat l)) [] []); [done|]. unfold run. rewrite heads_concat, qsort_bytes; [done| |done].
    rewrite concat_size, Es. lia.
  - rewrite <- Hsg. destruct (Z.eqb_spec (3 * Z.of_nat (length l) - 1) (Z.of_nat (length (join (print_chars <$> l))))); [lia|].
    rewrite (bind_ok _ _ l [] []); [done|]. pose proof (fields_join (length l) l 0 false HW ltac:(lia)) as EF. by rewrite drop_0, take_ge in EF by lia.
Qed.

(** ** Reading blocks *)
Definition enc (m : meaning) : blocks := Blocks (print_chars (m_pat m)) (m_bnd m) (m_tab m).

Lemma text_hexish l : text_ok l -> Forall (fun x => hexish x = true) (print_chars l).
Proof. apply print_hexish. Qed.

Lemma cut_mark_print l (neg : bool) : text_ok l -> cut_mark (print_chars l ++ (if neg then [33] else [])) = (print_chars l, neg).
Proof.
  intros H. unfold cut_mark. destruct neg.
  - rewrite last_snoc. rewrite length_app. cbn [length]. by rewrite take_app_length' by lia.
  - rewrite app_nil_r. destruct (last (print_chars l)) as [x|] eqn:E; [|done]. destruct (decide (x = 33)) as [-> |Hx].
    + apply last_Some in E as [l' E]. pose proof (text_hexish l H) as HF. rewrite E in HF. apply Forall_app in HF as [_ HF].
      by inversion HF.
    + destruct x as [|p|p]; [done| |done]. by do 6 (destruct p as [p|p|]; try done).
Qed.

Lemma block_text b : block_ok b -> (41 ∉ print_block b) /\ (40 ∉ print_block b) /\ (91 ∉ print_block b) /\ print_block b <> [].
Proof.
  destruct b as [| |l]; cbn [print_block]; [intros _..|].
  1, 2: repeat split; try done; by intros H%list_elem_of_singleton.
  intros (H2 & HF & _). assert (Forall (fun x => hexish x = true \/ x = 124) (join (print_chars <$> l))) as HJ.
  { apply join_hexish, Forall_fmap. eapply Forall_impl; [exact HF|]. intros w [_ Hb]. cbn. apply print_hexish.
    eapply Forall_impl; [exact Hb|]. apply byte_valid. }
  repeat split; try (intros Hin; rewrite Forall_forall in HJ; by destruct (HJ _ Hin)).
  intros E%(f_equal length). rewrite length_join in E by (by destruct l; [cbn in H2; lia|]). rewrite length_fmap in E. cbn in E. lia.
Qed.

Lemma alts_no_marker l : block_ok (BAlts l) -> print_block (BAlts l) <> [66] /\ print_block (BAlts l) <> [76].
Proof.
  intros (H2 & HF & _). pose proof (join_bars _ (words_ok l HF)) as HB. rewrite length_fmap in HB. cbn [print_block].
  split; intros E; rewrite E, filter_cons_False in HB by done; cbn in HB; lia.
Qed.

Lemma print_cons p ps rst : print_sig (SigText (p :: ps) rst) =
  (print_chars (p_text p) ++ (if p_neg p then [33] else [])) ++ 40 :: print_block (p_block p) ++ 41 :: print_sig (SigText ps rst).
Proof.
  unfold print_sig, print_piece. cbn [pieces AddSigFacts.rest fmap list_fmap concat]. rewrite <- !app_assoc. cbn. by rewrite <- !app_assoc.
Qed.

Lemma print_nil l : Forall readable l -> print_chars l = [] <-> l = [].
Proof.
  intros H. split; [|by intros ->]. intros E%(f_equal length). rewrite length_print in E by done. destruct l; [done|cbn in E; lia].
Qed.

Lemma text_readable l : text_ok l -> Forall readable l.
Proof. intros H. eapply Forall_impl; [exact H|]. intros c Hc. by left. Qed.

Lemma print_sig_nil ps rst : text_ok rst -> bool_decide (print_sig (SigText ps rst) = []) = bool_decide (ps = []) && bool_decide (rst = []).
Proof.
  intros Hr. destruct ps as [|p ps].
  - unfold print_sig. cbn [pieces AddSigFacts.rest fmap list_fmap concat app]. rewrite (bool_decide_eq_true_2 (@nil piece = [])) by done. cbn [andb].
    apply bool_decide_ext, print_nil, text_readable, Hr.
  - rewrite (bool_decide_eq_false_2 (p :: ps = [])), bool_decide_eq_false_2; [done| |done].
    rewrite print_cons. intros E%(f_equal length). rewrite length_app in E. cbn in E. lia.
Qed.

Lemma enc_special p m : Blocks ((print_chars (m_pat m) ++ print_chars (p_text p)) ++ [40; 41]) (m_bnd m) (m_tab m ++ [special_of (p_neg p) (p_block p)]) =
  enc (add_special p m).
Proof. unfold enc, add_special. cbn [m_pat m_bnd m_tab]. by rewrite !print_chars_app, <- app_assoc. Qed.

Lemma enc_text p m b : Blocks (print_chars (m_pat m) ++ print_chars (p_text p)) b (m_tab m) = enc (Meaning (m_pat m ++ p_text p) b (m_tab m)).
Proof. unfold enc. cbn [m_pat m_bnd m_tab]. by rewrite print_chars_app. Qed.

(** A marker on the left has no text before it and no exclamation mark. *)
Lemma left_text (first : bool) p f fneg m : first && bool_decide (p_text p = []) && negb (p_neg p) = true ->
  Meaning (m_pat m ++ p_text p) (flag (p_neg p) f fneg (m_bnd m)) (m_tab m) = Meaning (m_pat m) (flag false f fneg (m_bnd m)) (m_tab m).
Proof.
  intros [[_ E%bool_decide_eq_true]%andb_true_iff Hn]%andb_true_iff. rewrite E, app_nil_r. by destruct (p_neg p).
Qed.

Lemma block_loop_spec n : forall ps rst first m, (length ps < n)%nat -> Forall piece_ok ps -> text_ok rst ->
  block_loop n (print_sig (SigText ps rst)) first (enc m) [] = Ok (inr (enc (mean first ps rst m)), []).
Proof.
  induction n as [|n IH]; intros ps rst first m Hn HF Hr; [lia|]. cbn [block_loop]. destruct ps as [|p ps].
  - change (print_sig (SigText [] rst)) with (print_chars rst). rewrite strchr_none by (apply not_hexish_out; [done|by apply text_hexish]).
    unfold give, enc. cbn [b_hex b_boundary b_table mean m_pat m_bnd m_tab]. by rewrite print_chars_app.
  - apply Forall_cons in HF as [Hp HF]. pose proof Hp as [Ht Hb]. destruct (block_text _ Hb) as (B1 & B2 & _ & B3).
    rewrite print_cons, strchr_app.
    2: { intros [Hin|Hin]%elem_of_app; [by apply (not_hexish_out 40 _ eq_refl (text_hexish _ Ht))|destruct (p_neg p); [|by apply elem_of_nil in Hin]].
         by apply list_elem_of_singleton in Hin. }
    rewrite bind_mem, cut_mark_print by done. rewrite (bind_ok _ _ (print_block (p_block p), print_sig (SigText ps rst)) [] []);
      [|unfold need; by rewrite strchr_app].
    rewrite (bool_decide_eq_false_2 (print_block (p_block p) = [])) by done. rewrite print_sig_nil by done.
    assert (bool_decide (print_chars (p_text p) ++ (if p_neg p then [33] else []) = []) = bool_decide (p_text p = []) && negb (p_neg p)) as Eleft.
    { destruct (p_neg p); cbn [negb].
      - rewrite andb_false_r. apply bool_decide_eq_false_2. intros E%app_nil. by destruct E.
      - rewrite app_nil_r, andb_true_r. apply bool_decide_ext, print_nil, text_readable, Ht. }
    rewrite Eleft, andb_assoc. clear Eleft. cbn [enc b_hex b_boundary b_table mean].
    assert (forall m', block_loop n (print_sig (SigText ps rst)) false (enc m') [] = Ok (inr (enc (mean false ps rst m')), [])) as IH'
      by (intros m'; apply IH; [cbn in Hn; lia|done|done]).
    unfold mean_piece. destruct (p_block p) as [| |l] eqn:Eb; cbn [print_block flags_of].
    + rewrite bool_decide_eq_true_2 by done. destruct (_ && _) eqn:Eend; [by rewrite enc_text, IH'|].
      destruct (first && _ && _) eqn:El; [by rewrite enc_text, IH', (left_text _ _ _ _ _ El)|].
      rewrite bind_mem, (bind_ok _ _ _ [] [] eq_refl). rewrite <- IH', <- enc_special, Eb. done.
    + rewrite bool_decide_eq_false_2, bool_decide_eq_true_2 by done. destruct (_ && _) eqn:Eend; [by rewrite enc_text, IH'|].
      destruct (first && _ && _) eqn:El; [by rewrite enc_text, IH', (left_text _ _ _ _ _ El)|].
      rewrite bind_mem, (bind_ok _ _ _ [] [] eq_refl). rewrite <- IH', <- enc_special, Eb. done.
    + destruct (alts_no_marker l Hb) as [N1 N2]. rewrite (bool_decide_eq_false_2 _ N1), (bool_decide_eq_false_2 _ N2).
      rewrite bind_mem, (bind_ok _ _ _ [] [] (alternatives_spec l (p_neg p) Hb)). rewrite <- IH', <- enc_special, Eb. done.
Qed.

(** ** Reading a text *)
Lemma mean_readable : forall ps first rst m, Forall readable (m_pat m) -> Forall piece_ok ps -> text_ok rst ->
  Forall readable (m_pat (mean first ps rst m)).
Proof.
  induction ps as [|p ps IH]; intros first rst m Hm HF Hr; cbn [mean].
  - cbn [m_pat]. apply Forall_app. split; [done|by apply text_readable].
  - apply Forall_cons in HF as [[Ht _] HF]. apply text_readable in Ht. apply IH; [|done|done].
    assert (Forall readable (m_pat (add_special p m))) as Hs.
    { cbn. rewrite !Forall_app. split; [done|]. split; [done|]. constructor; [by right|constructor]. }
    unfold mean_piece. destruct (flags_of _) as [[[l ln] [r rn]]|]; [|done]. destruct (_ && _); [cbn; by apply Forall_app|].
    by destruct (first && _ && _).
Qed.

Lemma print_sig_chars t x : sig_ok t -> x ∈ print_sig t -> hexish x = true \/ x ∈ [33; 40; 41] \/ exists p, p ∈ pieces t /\ x ∈ print_block (p_block p).
Proof.
  intros [HF Hr] Hx. unfold print_sig in Hx. apply elem_of_app in Hx as [Hx|Hx].
  - apply list_elem_of_In, in_concat in Hx as (l & Hl%list_elem_of_In & Hx%list_elem_of_In). apply list_elem_of_fmap in Hl as (p & -> & Hp).
    rewrite Forall_forall in HF. destruct (HF p Hp) as [Ht _]. unfold print_piece in Hx. rewrite !elem_of_app, elem_of_cons, elem_of_app in Hx.
    pose proof (text_hexish _ Ht) as Hh. rewrite Forall_forall in Hh.
    destruct Hx as [Hx|[Hx|[Hx|[Hx|Hx]]]]; [left; by apply Hh| |subst x; right; left; set_solver|right; right; by exists p|].
    + destruct (p_neg p); [apply list_elem_of_singleton in Hx as ->; right; left; set_solver|by apply elem_of_nil in Hx].
    + apply list_elem_of_singleton in Hx as ->. right. left. set_solver.
  - left. pose proof (text_hexish _ Hr) as Hh. rewrite Forall_forall in Hh. by apply Hh.
Qed.

Lemma no_bracket t : sig_ok t -> 91 ∉ print_sig t.
Proof.
  intros Hok Hin. destruct (print_sig_chars t 91 Hok Hin) as [H|[H|(p & Hp & Hx)]]; [done|set_solver|].
  destruct Hok as [HF _]. rewrite Forall_forall in HF. destruct (HF p Hp) as [_ Hb]. by destruct (block_text _ Hb) as (_ & _ & B & _).
Qed.

Lemma length_pieces ps rst : (length ps <= length (print_sig (SigText ps rst)))%nat.
Proof. induction ps as [|p ps IH]; [cbn; lia|]. rewrite print_cons, !length_app. cbn [length]. rewrite length_app. cbn [length]. lia. Qed.

(** What [read_sig] makes of a text it does not refuse as too short. *)
Lemma read_sig_spec mindepth g t : sig_ok t -> a_hexsig g = print_sig t -> mindepth <= Z.of_nat (length (print_sig t)) / 2 ->
  Z.of_nat (length (m_pat (meaning_of t))) < 65536 ->
  read_sig mindepth g [] = Ok (inr (m_pat (meaning_of t), Chs (CLI_MATCH_IGNORE, CLI_MATCH_IGNORE) (0, 0) (0, 0),
    enc (meaning_of t), Z.of_nat (length (m_pat (meaning_of t)))), []).
Proof.
  intros Hok Hg Hmin Hlen. pose proof Hok as [HF Hr]. unfold read_sig. rewrite Hg.
  destruct (Z.ltb_spec (Z.of_nat (length (print_sig t)) / 2) mindepth); [lia|]. rewrite bind_mem.
  rewrite (bool_decide_eq_false_2 _ (no_bracket t Hok)). rewrite (bind_ok _ _ (None, Chs (CLI_MATCH_IGNORE, CLI_MATCH_IGNORE) (0, 0) (0, 0)) [] [] eq_refl).
  assert (Forall readable (m_pat (meaning_of t))) as HR by (by apply mean_readable).
  rewrite (bind_ok _ _ (enc (meaning_of t)) [] []).
  - rewrite (bind_ok _ _ (m_pat (meaning_of t)) [] []) by (by apply hex2ui_print). unfold give. cbn [enc b_hex].
    rewrite length_print by done. rewrite Nat2Z.inj_mul, Z.mul_comm, Z.div_mul, uint_small by (done || (change (2 ^ 16) with 65536; lia)). done.
  - destruct t as [ps rst]. destruct (bool_decide_reflect (40 ∈ print_sig (SigText ps rst))) as [Hin|Hin].
    + rewrite (bind_ok _ _ (print_sig (SigText ps rst)) [] [] eq_refl), bind_mem. change (Blocks [] 0 []) with (enc (Meaning [] 0 [])).
      apply block_loop_spec; [|done|done]. pose proof (length_pieces ps rst). lia.
    + destruct ps as [|p ps]; [done|]. destruct Hin. rewrite print_cons. apply elem_of_app. right. left.
Qed.

(** ** The theorem *)

(** C13. Signature texts are read as they are meant.  For every text of characters
    (bytes, nibbles, ignored bytes) with blocks in parentheses between them (word
    boundaries, line markers, alternatives, each possibly negated), reading its
    printed form gives the characters with a special in the place of each block, the
    flags of the blocks at the ends, and the table of the others, with alternatives
    of single bytes sorted; texts that are too short are refused. *)
Theorem signature_text_roundtrip (mindepth : Z) (g : sigargs) (t : sigtext) :
  sig_ok t -> a_hexsig g = print_sig t -> Z.of_nat (length (m_pat (meaning_of t))) < 65536 ->
  read_sig mindepth g [] =
    Ok (if Z.of_nat (length (print_sig t)) / 2 <? mindepth then (inl CL_EMALFDB, [])
        else (inr (m_pat (meaning_of t), Chs (CLI_MATCH_IGNORE, CLI_MATCH_IGNORE) (0, 0) (0, 0),
                Blocks (print_chars (m_pat (meaning_of t))) (m_bnd (meaning_of t)) (m_tab (meaning_of t)),
                Z.of_nat (length (m_pat (meaning_of t)))), [])).
Proof.
  intros Hok Hg Hlen. destruct (Z.ltb_spec (Z.of_nat (length (print_sig t)) / 2) mindepth) as [Hs|Hs].
  - unfold read_sig. rewrite Hg. by destruct (Z.ltb_spec (Z.of_nat (length (print_sig t)) / 2) mindepth); [|lia].
  - by apply read_sig_spec.
Qed.

(** ** Examples *)

(** 61!(B)62??(63|64)(65|6667)6?(L): a negated word boundary, an ignored byte, two blocks of alternatives, a
    nibble, and a line marker at the end. *)
Definition ex_text : sigtext :=
  SigText [Piece [0x61] true BWord; Piece [0x62; 0x100] false (BAlts [[0x64]; [0x63]]); Piece [] false (BAlts [[0x65]; [0x66; 0x67]]);
    Piece [0x360] false BLine] [].

Example ex_text_printed :
  print_sig ex_text = [54; 49; 33; 40; 66; 41; 54; 50; 63; 63; 40; 54; 52; 124; 54; 51; 41; 40; 54; 53; 124; 54; 54; 54; 55; 41; 54; 63; 40; 76; 41] /\
  meaning_of ex_text = Meaning [0x61; 0x200; 0x62; 0x100; 0x200; 0x200; 0x360] AC_LINE_MARKER_RIGHT
    [Special AC_SPECIAL_BOUNDARY true 0 []; Special AC_SPECIAL_ALT_CHAR false 2 [[0x63; 0x64]]; Special AC_SPECIAL_ALT_STR false 2 [[0x65]; [0x66; 0x67]]].
Proof. by vm_compute. Qed.

Definition args_of (name hexsig offset : list Z) : sigargs := SigArgs name hexsig 0 0 0 0 0 0 0 offset None true.

Lemma text_okb l : forallb valid l = true -> text_ok l.
Proof. intros H. apply Forall_forall. intros c Hc. rewrite forallb_forall in H. apply H. by apply list_elem_of_In. Qed.

Lemma ex_text_ok : sig_ok ex_text.
Proof.
  split; [|by apply text_okb]. cbn [pieces ex_text]. rewrite !Forall_cons. unfold piece_ok. cbn [p_text p_block block_ok].
  split_and!; try (by apply text_okb); try done; try (by vm_compute); try (cbn; lia).
  all: repeat constructor; (done || unfold byte; lia).
Qed.

Lemma signature_text_roundtrip_witness :
  read_sig 2 (args_of [65] (print_sig ex_text) [42]) [] =
    Ok (if Z.of_nat (length (print_sig ex_text)) / 2 <? 2 then (inl CL_EMALFDB, [])
        else (inr (m_pat (meaning_of ex_text), Chs (CLI_MATCH_IGNORE, CLI_MATCH_IGNORE) (0, 0) (0, 0),
                Blocks (print_chars (m_pat (meaning_of ex_text))) (m_bnd (meaning_of ex_text)) (m_tab (meaning_of ex_text)),
                Z.of_nat (length (m_pat (meaning_of ex_text)))), [])).
Proof. apply (signature_text_roundtrip 2 (args_of [65] (print_sig ex_text) [42]) ex_text); [apply ex_text_ok|reflexivity|vm_compute; reflexivity]. Defined.

End AddSigFacts.
