(* ===== verification/AddSigCut.v ===== *)
(** * Where a pattern is cut

    [cli_ac_addsig] looks for a run of static characters by which the automaton can
    find the pattern; what precedes it becomes the prefix. *)
From stdpp Require Import base numbers list list_numbers gmap.
From Stdlib Require Import ZArith Lia Bool.
From S2P Require Import Prelude Dlp CalOff Ac AcMatch AddSig.

Local Open Scope Z_scope.

Module AddSigCut.
Import Ac AcMatch AddSig.

(** The pattern has [n] static characters at [i]. *)
Definition run_at (pat : list Z) (i n : Z) : Prop :=
  0 <= i /\ i + n <= Z.of_nat (length pat) /\ forall j, i <= j < i + n -> exists c, bget pat j = Some c /\ is_wild c = false.

Lemma run_take pat i n m : run_at pat i n -> m <= n -> run_at pat i m.
Proof. intros (H1 & H2 & H3) Hm. split; [done|]. split; [lia|]. intros j Hj. apply H3. lia. Qed.

Section Cut.
Context (pat : list Z) (mindepth maxdepth : Z).
Abbreviation len := (Z.of_nat (length pat)).
Context (Hmin : 1 <= mindepth) (Hmax : mindepth <= maxdepth) (Hne : 1 <= len) (Hlen : len < 65536).

Lemma pat_at_spec i : 0 <= i < len -> pat_at pat i = bget pat i /\ is_Some (bget pat i).
Proof using Hmin Hmax Hne Hlen.
  intros Hi. unfold pat_at. split; [|by apply bget_is_Some]. unfold bget. destruct (Z.ltb_spec i 0); [lia|]. apply lookup_app_l. lia.
Qed.

Lemma pat_at_some i : 0 <= i <= len -> is_Some (pat_at pat i).
Proof using Hmin Hmax Hne Hlen.
  intros Hi. unfold pat_at. apply bget_is_Some. rewrite length_app. cbn. lia.
Qed.

Lemma nonzero_at_total i : 0 <= i < len -> is_Some (nonzero_at pat i).
Proof using Hmin Hmax Hne Hlen.
  intros Hi. unfold nonzero_at. destruct (pat_at_some i ltac:(lia)) as [a ->]. destruct (negb (a =? 0)); [by eexists|].
  destruct (pat_at_some (i + 1) ltac:(lia)) as [b ->]. by eexists.
Qed.

(** The state of the search: both parts that were picked are static. *)
Record pick_ok (p : pick) : Prop := {
  pk_run : run_at pat (ppos p) (plen p);
  pk_pos : 0 <= ppos p < len;
  pk_nz : nzplen p = 0 \/ (mindepth <= nzplen p /\ run_at pat (nzpos p) (nzplen p) /\ nzpos p < len);
  pk_len : 0 <= plen p }.

Lemma run_snoc i j c : run_at pat i (j - i) -> i <= j -> j < len -> bget pat j = Some c -> is_wild c = false -> run_at pat i (j + 1 - i).
Proof using Hmin Hmax Hne Hlen.
  intros (H1 & H2 & H3) Hij Hj Hc Hw. split; [done|]. split; [lia|]. intros k Hk. destruct (Z.eq_dec k j) as [->|]; [by exists c|]. apply H3. lia.
Qed.

Lemma pick_inner_spec n : forall i j p, 0 <= i -> i <= j -> i < len -> j <= len -> i + maxdepth - j <= Z.of_nat n -> j <= i + maxdepth ->
  run_at pat i (j - i) -> pick_ok p -> j - i <= plen p ->
  exists p', pick_inner pat len mindepth maxdepth n i j p = Some p' /\ pick_ok p' /\ plen p <= plen p' /\
    forall k, run_at pat i k -> k <= maxdepth -> k <= plen p'.
Proof using Hmin Hmax Hne Hlen.
  induction n as [|n IH]; intros i j p Hi Hij Hil Hjl Hn Hjm Hrun Hp Hpl; cbn [pick_inner].
  { exists p. split; [done|]. split; [done|]. split; [lia|]. intros k _ Hk. lia. }
  destruct (Z.ltb_spec j (i + maxdepth)); cbn [andb].
  2: { exists p. split; [done|]. split; [done|]. split; [lia|]. intros k _ Hk. lia. }
  destruct (Z.ltb_spec j len).
  2: { exists p. split; [done|]. split; [done|]. split; [lia|]. intros k (_ & Hk & _) _. lia. }
  destruct (pat_at_spec j ltac:(lia)) as [-> [c Hc]]. rewrite Hc. destruct (is_wild c) eqn:Ew.
  { exists p. split; [done|]. split; [done|]. split; [lia|]. intros k (_ & _ & Hk) _. destruct (Z.le_gt_cases k (j - i)); [lia|].
    destruct (Hk j ltac:(lia)) as (c' & Hc' & Hw). congruence. }
  pose proof (run_snoc i j c Hrun Hij ltac:(lia) Hc Ew) as Hrun'.
  set (q := if plen p <=? j - i + 1 then _ else p).
  assert (pick_ok q /\ plen p <= plen q /\ j + 1 - i <= plen q) as (Hq & Hle & Hge).
  { unfold q. destruct Hp as [P1 P2 P3 P4]. destruct (Z.leb_spec (plen p) (j - i + 1)).
    - cbn. split; [|lia]. split; cbn; [by replace (j - i + 1) with (j + 1 - i) by lia|lia|done|lia].
    - split; [by split|lia]. }
  clearbody q. destruct (nonzero_at_total (ppos q) (pk_pos q Hq)) as [nz ->].
  assert (forall q', pick_ok q' -> plen q' = plen q -> exists p', pick_inner pat len mindepth maxdepth n i (j + 1) q' = Some p' /\ pick_ok p' /\ plen p <= plen p' /\
    forall k, run_at pat i k -> k <= maxdepth -> k <= plen p') as Hgo.
  { intros q' Hq' E. destruct (IH i (j + 1) q') as (p' & Ep & H1 & H2 & H3); [lia..|done|done|lia|]. exists p'. split; [done|]. split; [done|]. split; [lia|done]. }
  destruct nz; [|by apply Hgo]. destruct (Z.leb_spec maxdepth (plen q)).
  { exists q. split; [done|]. split; [done|]. split; [lia|]. intros k _ Hk. lia. }
  apply Hgo; [|by destruct (_ && _)]. destruct (_ && _) eqn:E; [|done]. apply andb_true_iff in E as [E _].
  destruct Hq as [Q1 Q2 Q3 Q4]. split; cbn; [done|done| |done]. right. split; [lia|]. split; [done|lia].
Qed.

Lemma pick_outer_spec n : forall i pend p, 0 <= i -> pend - i <= Z.of_nat n -> pick_ok p ->
  exists p', pick_outer pat len mindepth maxdepth n i pend p = Some p' /\ pick_ok p' /\ plen p <= plen p' /\
    forall i' k, i <= i' < pend -> run_at pat i' k -> k <= maxdepth -> k <= plen p'.
Proof using Hmin Hmax Hne Hlen.
  induction n as [|n IH]; intros i pend p Hi Hn Hp; cbn [pick_outer].
  { exists p. split; [done|]. split; [done|]. split; [lia|]. intros i' k Hi'. lia. }
  destruct (Z.ltb_spec i pend); [|exists p; split; [done|]; split; [done|]; split; [lia|intros i' k Hi'; lia]].
  assert (exists p1, pick_inner pat len mindepth maxdepth (Z.to_nat maxdepth) i i p = Some p1 /\ pick_ok p1 /\ plen p <= plen p1 /\
    forall k, run_at pat i k -> k <= maxdepth -> k <= plen p1) as (p1 & -> & Hp1 & Hle & Hk1).
  { destruct (Z.lt_ge_cases i len) as [Hil|Hil].
    - apply pick_inner_spec; [lia..| |done|destruct Hp; lia]. split; [lia|]. split; [lia|]. intros j Hj. lia.
    - exists p. split; [|split; [done|split; [lia|]]].
      + destruct (Z.to_nat maxdepth); [done|]. cbn. destruct (Z.ltb_spec i len); [lia|]. by rewrite andb_false_r.
      + intros k (_ & Hk & _) _. destruct Hp. lia. }
  assert (exists stop, (if maxdepth <=? plen p1 then nonzero_at pat (ppos p1) else Some false) = Some stop /\ (stop = true -> maxdepth <= plen p1)) as (stop & -> & Hstop).
  { destruct (Z.leb_spec maxdepth (plen p1)); [|by eexists]. destruct (nonzero_at_total (ppos p1) (pk_pos p1 Hp1)) as [b ->]. by eexists. }
  destruct stop.
  { exists p1. split; [done|]. split; [done|]. split; [done|]. intros i' k _ _ Hk. specialize (Hstop eq_refl). lia. }
  destruct (IH (i + 1) pend p1 ltac:(lia) ltac:(lia) Hp1) as (p2 & -> & Hp2 & Hle2 & Hk2). exists p2. split; [done|]. split; [done|]. split; [lia|].
  intros i' k Hi' Hr Hk. destruct (Z.eq_dec i' i) as [->|]; [specialize (Hk1 k Hr Hk); lia|]. apply (Hk2 i'); (done || lia).
Qed.

Lemma prefix_loop_spec n : forall i z, 0 <= i <= Z.min maxdepth len -> Z.min maxdepth len - i <= Z.of_nat n -> run_at pat 0 i ->
  exists w z', prefix_loop pat len maxdepth n i z = Some (w, z') /\ (w = false -> run_at pat 0 (Z.min maxdepth len)).
Proof using Hmin Hmax Hne Hlen.
  induction n as [|n IH]; intros i z Hi Hn Hr; cbn [prefix_loop].
  { eexists _, _. split; [done|]. intros _. apply (run_take _ _ i); [done|lia]. }
  destruct (Z.ltb_spec i maxdepth); cbn [andb]; [destruct (Z.ltb_spec i len)|].
  - destruct (pat_at_spec i ltac:(lia)) as [-> [c Hc]]. rewrite Hc. destruct (is_wild c) eqn:Ew; [by eexists _, _|].
    apply IH; [lia|lia|]. rewrite <- (Z.sub_0_r (i + 1)). apply (run_snoc 0 i c); [by rewrite Z.sub_0_r|lia|lia|done|done].
  - eexists _, _. split; [done|]. intros _. apply (run_take _ _ i); [done|lia].
  - eexists _, _. split; [done|]. intros _. apply (run_take _ _ i); [done|lia].
Qed.

(** The cut: nothing is cut off if the pattern starts with static characters; otherwise
    [mindepth] static characters stand where it is cut, and it is refused only if the
    pattern has them nowhere. *)
Lemma cut_at_spec : exists r, cut_at pat len mindepth maxdepth = Some r /\
  match r with
  | None => run_at pat 0 (Z.min maxdepth len)
  | Some None => forall i, ~ run_at pat i mindepth
  | Some (Some k) => k < len /\ run_at pat k mindepth
  end.
Proof using Hmin Hmax Hne Hlen.
  assert (run_at pat 0 0) as H0 by (split; [done|]; split; [lia|]; intros j Hj; lia). unfold cut_at.
  destruct (prefix_loop_spec (Z.to_nat maxdepth) 0 true ltac:(lia) ltac:(lia) H0) as (w & z & -> & Hw).
  destruct (w || z) eqn:Ewz.
  2: { eexists. split; [done|]. destruct w; [done|]. by apply Hw. }
  set (pend := uint 16 _). assert (forall i, run_at pat i mindepth -> i < pend) as Hpend.
  { intros i (H1 & H2 & _). unfold pend. rewrite uint_small by (change (2 ^ 16) with 65536; lia). lia. }
  assert (0 <= pend) as Hp0 by (unfold pend; apply Z.mod_pos_bound; lia).
  destruct (pick_outer_spec (Z.to_nat pend) 0 pend (Pick 0 0 0 0) ltac:(lia) ltac:(lia)) as (p & -> & Hp & _ & Hk);
    [split; cbn; (done || lia || by left)|].
  destruct (nonzero_at_total (ppos p) (pk_pos p Hp)) as [nz ->]. eexists. split; [done|]. destruct Hp as [P1 P2 P3 P4].
  destruct (negb nz && negb (nzplen p =? 0)) eqn:Enz; cbn [plen ppos].
  - apply andb_true_iff in Enz as [_ Enz]. destruct P3 as [P3|(P3 & P5 & P6)]; [rewrite P3 in Enz; done|].
    destruct (Z.ltb_spec (nzplen p) mindepth); [lia|]. split; [done|]. apply (run_take _ _ (nzplen p)); [done|lia].
  - destruct (Z.ltb_spec (plen p) mindepth).
    + intros i Hr. specialize (Hk i mindepth). pose proof (Hpend i Hr). destruct Hr as [Hi Hr']. specialize (Hk ltac:(lia) (conj Hi Hr') Hmax). lia.
    + split; [lia|]. apply (run_take _ _ (plen p)); [done|lia].
Qed.
End Cut.

(** The part by which a pattern is found.  [cli_ac_addsig] never reads outside the
    pattern while it looks for static characters, refuses a pattern only if it has
    no [mindepth] static characters in a row, and cuts other patterns at [mindepth]
    static characters, or not at all if they start with them. *)
Theorem cut_finds_static_part (chars : list Z) (mindepth maxdepth : Z) :
  1 <= mindepth <= maxdepth -> 1 <= Z.of_nat (length chars) < 65536 ->
  exists r, cut_at chars (Z.of_nat (length chars)) mindepth maxdepth = Some r /\
    match r with
    | None => run_at chars 0 (Z.min maxdepth (Z.of_nat (length chars)))
    | Some None => forall i, ~ run_at chars i mindepth
    | Some (Some k) => k < Z.of_nat (length chars) /\ run_at chars k mindepth
    end.
Proof. intros Hd Hl. apply cut_at_spec; lia. Qed.

Definition ex_chars : list Z := [0x61; 0x100; 0; 0; 0; 0x62; 0x63; 0x350].

Lemma cut_finds_static_part_witness :
  cut_at ex_chars 8 2 3 = Some (Some (Some 4)) /\
  exists r, cut_at ex_chars (Z.of_nat (length ex_chars)) 2 3 = Some r /\
    match r with
    | None => run_at ex_chars 0 (Z.min 3 (Z.of_nat (length ex_chars)))
    | Some None => forall i, ~ run_at ex_chars i 2
    | Some (Some k) => k < Z.of_nat (length ex_chars) /\ run_at ex_chars k 2
    end.
Proof. split; [by vm_compute|]. apply (cut_finds_static_part ex_chars 2 3); [lia|cbn; lia]. Defined.

End AddSigCut.
