(* ===== verification/AddSigProps.v ===== *)
(** * From signature texts to what is found

    A text that is added to a matcher becomes a pattern with the same characters, the
    prefilter takes it, and a scan finds the texts that stand in the buffer. *)
From stdpp Require Import base numbers list list_numbers gmap.
From Stdlib Require Import ZArith Lia Bool.
From S2P Require Import Prelude Dlp Filter CalOff Hashset Ac AcMatch AcScan AcWords AcBfs AcChain AcBuild AcTrans AcAdd AcSearch AcProps FilterAc FilterAcFacts AddSig AddSigFacts AddSigCut.

Local Open Scope Z_scope.

Module AddSigProps.
Import Errors CalOff Ac AcMatch AcScan AcAdd AcSearch AcProps FilterAc FilterAcFacts AddSig AddSigFacts AddSigCut.

(** ** Adding a pattern when memory suffices *)
Lemma descend_mem key : forall ns pt r ns' pt' m', descend key ns pt [] = Some (r, ns', pt', m') -> r = CL_SUCCESS /\ m' = [].
Proof.
  induction key as [|c key IH]; intros ns pt r ns' pt' m'; cbn [descend]; [by intros [= <- <- <- <-]|].
  destruct (ns !! pt) as [n|]; [|done]. assert (match trans n with Some _ => (true, []) | None => alloc [] end = (true, @nil bool)) as -> by (by destruct (trans n)).
  cbn [negb]. destruct (_ !! _) as [nx|]; [apply IH|]. cbn [alloc negb]. destruct (bool_decide (key = [])); cbn [negb alloc]; apply IH.
Qed.

Lemma addpatt_mem s p s' : cli_ac_addpatt s p [] = Ok (CL_EMEM, s') -> False.
Proof.
  unfold cli_ac_addpatt. destruct (_ <? _); [done|]. destruct (descend _ _ _ _) as [[[[r ns'] pt'] m']|] eqn:E; [|done].
  apply descend_mem in E as [-> ->]. cbn [of_opt]. cbn [Z.eqb CL_SUCCESS negb alloc]. by destruct (link _ _ _ _).
Qed.

(** ** Static characters *)
Lemma static_len_ge m : forall n p, (m <= n)%nat -> (m <= length p)%nat -> Forall (fun c => is_wild c = false) (take m p) -> (m <= static_len n p)%nat.
Proof.
  induction m as [|m IH]; intros n p Hn Hp HF; [lia|]. destruct n as [|n]; [lia|]. destruct p as [|c p]; [cbn in Hp; lia|].
  cbn [take] in HF. apply Forall_cons in HF as [Hc HF]. cbn [static_len]. rewrite Hc. cbn in Hp. specialize (IH n p ltac:(lia) ltac:(lia) HF). lia.
Qed.

Lemma run_key chars k n maxdepth : run_at chars k n -> 0 <= n <= maxdepth ->
  n <= Z.of_nat (key_len maxdepth (drop (Z.to_nat k) chars)).
Proof.
  intros (H1 & H2 & H3) Hn. unfold key_len. rewrite length_drop.
  pose proof (static_len_ge (Z.to_nat n) (Z.to_nat (Z.min maxdepth (Z.of_nat (length chars - Z.to_nat k)))) (drop (Z.to_nat k) chars)) as H.
  rewrite length_drop in H. enough (Z.to_nat n <= static_len (Z.to_nat (Z.min maxdepth (Z.of_nat (length chars - Z.to_nat k)))) (drop (Z.to_nat k) chars))%nat by lia.
  apply H; [lia|lia|]. apply Forall_lookup_2. intros i c Hc. apply lookup_take_Some in Hc as [Hc Hi]. rewrite lookup_drop in Hc.
  destruct (H3 (k + Z.of_nat i) ltac:(lia)) as (c' & Hc' & Hw). rewrite bget_lookup in Hc' by lia.
  replace (Z.to_nat (k + Z.of_nat i)) with (Z.to_nat k + i)%nat in Hc' by lia. congruence.
Qed.

Lemma valid_no_special c : valid c = true -> no_special c.
Proof.
  intros Hv. pose (P c := negb (valid c) || negb (Z.land c CLI_MATCH_WILDCARD =? CLI_MATCH_SPECIAL)).
  assert (P c = true) as HP by (apply (check_codes P 0x500); [by vm_compute|by apply valid_range]). unfold P in HP. rewrite Hv in HP. cbn in HP.
  unfold no_special. destruct (Z.eqb_spec (Z.land c CLI_MATCH_WILDCARD) CLI_MATCH_SPECIAL); done.
Qed.

(** ** Plain texts *)

(** What the offset of a signature is decoded to. *)
Definition offset_of (target : Z) (g : sigargs) : decoded := cli_caloff_decode (Some (a_offset g)) target (OffData 0 0 0 0) 0 0.

(** A virus signature whose text is that of [chars], with an offset that needs no
    information about the file. *)
Record plain_text (target : Z) (g : sigargs) (chars : list Z) : Prop := {
  pt_text : a_hexsig g = print_chars chars;
  pt_ok : text_ok chars;
  pt_len : Z.of_nat (length chars) < 65536;
  pt_virus : a_type g = 0 /\ a_sigid g = 0 /\ a_lsigid g = None;
  pt_name : default (a_virname g) (before_clam (a_virname g)) <> [];
  pt_ret : ret (offset_of target g) = CL_SUCCESS;
  pt_kind : od0 (data (offset_of target g)) = CLI_OFF_ABSOLUTE \/
    (od0 (data (offset_of target g)) = CLI_OFF_ANY /\ off_min (offset_of target g) = CLI_OFF_ANY) }.

(** The pattern of a plain text. *)
Record pattern_of (target : Z) (g : sigargs) (chars : list Z) (p : ac_patt) : Prop := {
  po_plain : plain p;
  po_text : text_of p = chars;
  po_min : offset_min p = off_min (offset_of target g);
  po_max : offset_max p = off_max (offset_of target g) }.

Lemma read_plain target g chars mindepth : plain_text target g chars -> mindepth <= Z.of_nat (length chars) ->
  read_sig mindepth g [] = Ok (inr (chars, Chs (CLI_MATCH_IGNORE, CLI_MATCH_IGNORE) (0, 0) (0, 0), Blocks (print_chars chars) 0 [],
    Z.of_nat (length chars)), []).
Proof.
  intros [Ht Hok Hlen _ _ _ _] Hmin. apply (read_sig_spec mindepth g (SigText [] chars)); [by split|done| |done].
  change (print_sig (SigText [] chars)) with (print_chars chars). rewrite length_print by (by apply text_readable).
  rewrite Nat2Z.inj_mul, Z.mul_comm, Z.div_mul by done. done.
Qed.

Lemma text_of_make g chars c b k name d mn mx : text_of (make_patt g chars c b k name d mn mx) = chars.
Proof. unfold text_of, make_patt. cbn. destruct k as [k|]; cbn; [apply take_drop|done]. Qed.

Lemma make_plain target g chars k : plain_text target g chars ->
  forall name, pattern_of target g chars (make_patt g chars (Chs (CLI_MATCH_IGNORE, CLI_MATCH_IGNORE) (0, 0) (0, 0)) (Blocks (print_chars chars) 0 []) k name
    (data (offset_of target g)) (off_min (offset_of target g)) (off_max (offset_of target g))).
Proof.
  intros [_ Hok Hlen (Hv1 & Hv2 & Hv3) _ _ Hkind] name. set (p := make_patt _ _ _ _ _ _ _ _ _).
  assert (text_of p = chars) as Et by apply text_of_make. split; [|done|done|done]. split; try done.
  - fold (text_of p). rewrite Et. eapply Forall_impl; [exact Hok|]. apply valid_no_special.
  - destruct Hkind as [H|[_ H]]; [by right|by left].
  - cbn [p make_patt off_data]. destruct Hkind as [-> |[-> _]]; done.
  - assert (length_ p <= Z.of_nat (length (text_of p))) as H by (unfold length_, text_of; rewrite length_app; lia). rewrite Et in H. lia.
Qed.

Lemma virname_ok virname off : default virname (before_clam virname) <> [] -> exists n, cli_mpool_virname virname off [] = Ok (inr n, []).
Proof. unfold cli_mpool_virname. destruct (default _ _); [done|]. intros _. by eexists. Qed.

(** What the prefilter is after a text. *)
Definition filter_has (f f' : option Filter.filter) (chars : list Z) : Prop :=
  match f, f' with
  | None, o => o = None
  | Some f, Some f' => Filter.tab_ok f -> Filter.tab_ok f' /\ Filter.mle f f' /\ finds f' chars
  | Some _, None => True
  end.

Lemma enter_filter_spec f p chars : (forall f0, f = Some f0 -> Filter.tab_ok f0) -> Forall no_special chars -> text_of p = chars -> pattern p <> [] ->
  exists f', enter_filter f p = Some f' /\ filter_has f f' chars.
Proof.
  intros Hf Hn Et Hp. destruct f as [f|]; cbn [enter_filter]; [|by eexists]. rewrite <- Et in Hn.
  destruct (add_acpatt_spec f p (Hf f eq_refl) Hn Hp) as (f' & r & -> & H1 & H2 & H3). eexists. split; [done|].
  destruct (Z.eqb_spec r (-1)); [done|]. cbn. intros _. destruct H3 as [[? _]|[_ H3]]; [done|]. by rewrite <- Et.
Qed.

(** The same, where the pattern is added. *)
Lemma addpatt_cut mindepth maxdepth ps s p : 1 <= mindepth -> loaded mindepth maxdepth ps s -> plain p ->
  mindepth <= Z.of_nat (key_len maxdepth (pattern p)) ->
  exists s', cli_ac_addpatt s p [] = Ok (CL_SUCCESS, s') /\ loaded mindepth maxdepth (ps ++ [p]) s'.
Proof.
  intros Hmin HL Hp Hk. assert (few p) as Hf by (unfold few; rewrite (pl_table _ Hp); cbn; lia).
  destruct (loaded_rep _ _ _ _ Hmin HL) as (E1 & E2 & P & D & own & grp & HR).
  destruct (cli_ac_addpatt_spec _ _ _ _ _ _ p [] HR Hf) as (r & s' & E & [-> |[(-> & _ & H)|(-> & H)]]).
  - by apply addpatt_mem in E.
  - rewrite E1, E2 in H. lia.
  - exists s'. split; [done|]. by eapply loaded_add.
Qed.

Lemma addsig_plain mindepth maxdepth ps root g chars :
  1 <= mindepth <= maxdepth -> loaded mindepth maxdepth ps (sr_ac root) -> plain_text (sr_type root) g chars ->
  (forall f, sr_filter root = Some f -> Filter.tab_ok f) ->
  exists code root', cli_ac_addsig true root g [] = Ok (code, root') /\ sr_type root' = sr_type root /\ sr_reloff root' = sr_reloff root /\
    (code = CL_SUCCESS /\ (exists i, run_at chars i mindepth) /\ filter_has (sr_filter root) (sr_filter root') chars /\
      sr_maxpatlen root' = Z.max (sr_maxpatlen root) (Z.of_nat (length chars)) /\
      (exists p, pattern_of (sr_type root) g chars p /\ loaded mindepth maxdepth (ps ++ [p]) (sr_ac root')) \/
     code = CL_EMALFDB /\ (forall i, ~ run_at chars i mindepth) /\ sr_ac root' = sr_ac root).
Proof.
  intros [Hmin Hmax] HL HT Hfil. pose proof HT as [Ht Hok Hlen Hv Hname Hret Hkind].
  destruct (loaded_rep _ _ _ _ Hmin HL) as (E1 & E2 & _). unfold cli_ac_addsig. rewrite E1, E2.
  destruct (Z.lt_ge_cases (Z.of_nat (length chars)) mindepth) as [Hs|Hs].
  { eexists _, root. split; [|split; [done|]; split; [done|]; right; split; [done|]; split; [|done]; intros i (H1 & H2 & _); lia].
    unfold read_sig. rewrite Ht, length_print by (by apply text_readable). rewrite Nat2Z.inj_mul, Z.mul_comm, Z.div_mul by done.
    by destruct (Z.ltb_spec (Z.of_nat (length chars)) mindepth); [|lia]. }
  rewrite (read_plain _ _ _ _ HT Hs). destruct (cut_at_spec chars mindepth maxdepth Hmin Hmax ltac:(lia) Hlen) as (r & Er & Hr).
  assert (chars <> []) as Hne by (intros ->; cbn in Hs; lia).
  destruct (enter_filter_spec (sr_filter root) (make_patt g chars (Chs (CLI_MATCH_IGNORE, CLI_MATCH_IGNORE) (0, 0) (0, 0)) (Blocks (print_chars chars) 0 [])
    None (a_virname g) (OffData 0 0 0 0) 0 0) chars Hfil) as (f' & Ef & Hf'); [eapply Forall_impl; [exact Hok|]; apply valid_no_special|done|done|].
  cbn beta iota. rewrite Ef. cbn [of_opt]. rewrite Er. cbn [of_opt].
  destruct (decide (r = Some None)) as [-> |Hrn].
  { eexists _, _. split; [reflexivity|]. split; [done|]. split; [done|]. right. by split. }
  set (k := match r with Some k => k | None => None end).
  assert (exists i, run_at chars i mindepth /\ mindepth <= Z.of_nat (key_len maxdepth (drop (Z.to_nat (default 0 k)) chars))) as (i & Hi & Hkey).
  { destruct r as [[k'|]|]; [|done|]; cbn in k, Hr |- *.
    - exists k'. split; [apply Hr|]. apply run_key; [apply Hr|lia].
    - exists 0. assert (run_at chars 0 mindepth) as H by (apply (run_take _ _ _ _ Hr); lia). split; [done|]. by apply (run_key chars 0); [|lia]. }
  set (name := a_virname g) in *. destruct (virname_ok name (a_official g) Hname) as (nm & Enm). destruct Hv as (_ & _ & Hl).
  pose proof (make_plain (sr_type root) g chars k HT nm) as HP. set (p := make_patt g chars _ _ k nm _ _ _) in HP.
  destruct (addpatt_cut mindepth maxdepth ps (sr_ac root) p Hmin HL (po_plain _ _ _ _ HP)) as (s' & Ep & HL').
  { unfold p, make_patt. cbn [pattern]. destruct k as [k'|]; cbn [default from_option] in Hkey; [done|]. by rewrite drop_0 in Hkey. }
  assert (forall T (a b : T), match r with Some None => a | _ => b end = b) as Er' by (intros T a b; by destruct r as [[|]|]).
  rewrite Er'. fold k. rewrite Enm. rewrite Hl. cbn [sr_type sr_names sr_filter]. fold (offset_of (sr_type root) g). rewrite Hret. cbn [Z.eqb CL_SUCCESS negb].
  fold p. rewrite Ep. cbn [Z.eqb CL_SUCCESS negb].
  assert (negb (od0 (data (offset_of (sr_type root) g)) =? CLI_OFF_ANY) && negb (od0 (data (offset_of (sr_type root) g)) =? CLI_OFF_ABSOLUTE) = false) as ->
    by (destruct Hkind as [-> |[-> _]]; done).
  cbn [andb]. eexists _, _. split; [reflexivity|]. split; [done|]. split; [done|]. left. split; [done|]. split; [by exists i|]. split; [done|].
  split; [cbn [sr_maxpatlen]; destruct (Z.ltb_spec (sr_maxpatlen root) (Z.of_nat (length chars))); lia|]. exists p. by split.
Qed.

(** ** The theorems *)

(** C14. Adding a text.  For a matcher with any patterns and a plain text (characters
    without blocks, at any position or at absolute offsets) [cli_ac_addsig] succeeds
    if and only if the text has [mindepth] static characters in a row.  Then the
    matcher has one more pattern, with the characters and offsets of the text, and
    the prefilter, unless it is given up, lets the text and all it let pass before;
    otherwise the patterns are as before. *)
Theorem addsig_adds_pattern (mindepth maxdepth : Z) (ps : list ac_patt) (root : sigroot) (g : sigargs) (chars : list Z) :
  1 <= mindepth <= maxdepth -> loaded mindepth maxdepth ps (sr_ac root) -> plain_text (sr_type root) g chars ->
  (forall f, sr_filter root = Some f -> Filter.tab_ok f) ->
  exists code root', cli_ac_addsig true root g [] = Ok (code, root') /\
    (code = CL_SUCCESS <-> exists i, run_at chars i mindepth) /\
    (code = CL_SUCCESS -> filter_has (sr_filter root) (sr_filter root') chars /\
      exists p, pattern_of (sr_type root) g chars p /\ loaded mindepth maxdepth (ps ++ [p]) (sr_ac root')) /\
    (code <> CL_SUCCESS -> code = CL_EMALFDB /\ sr_ac root' = sr_ac root).
Proof.
  intros Hd HL HT Hf. destruct (addsig_plain mindepth maxdepth ps root g chars Hd HL HT Hf)
    as (code & root' & E & _ & _ & [(-> & Hr & H1 & _ & H2)|(-> & Hno & H)]); eexists _, root'; (split; [exact E|]).
  - split; [done|]. split; [by split|done].
  - split; [split; [done|intros [i Hi]; by destruct (Hno i)]|]. by split.
Qed.

(** ** Examples *)

Definition ex_plain_chars : list Z := [0x100; 0x61; 0x62; 0x63; 0x40a].
Definition ex_root : sigroot := SigRoot AcProps.ex_init 0 (Some Filter.filter_init) 0 [] ∅.

Lemma ex_plain_text : plain_text 0 (args_of [65] (print_chars ex_plain_chars) [42]) ex_plain_chars.
Proof. split; try done; [by apply text_okb|by right]. Qed.

Lemma addsig_adds_pattern_witness :
  exists code root', cli_ac_addsig true ex_root (args_of [65] (print_chars ex_plain_chars) [42]) [] = Ok (code, root') /\
    (code = CL_SUCCESS <-> exists i, run_at ex_plain_chars i 2) /\
    (code = CL_SUCCESS -> filter_has (sr_filter ex_root) (sr_filter root') ex_plain_chars /\
      exists p, pattern_of (sr_type ex_root) (args_of [65] (print_chars ex_plain_chars) [42]) ex_plain_chars p /\ loaded 2 3 ([] ++ [p]) (sr_ac root')) /\
    (code <> CL_SUCCESS -> code = CL_EMALFDB /\ sr_ac root' = sr_ac ex_root).
Proof.
  apply (addsig_adds_pattern 2 3 [] ex_root); [lia|by apply (loaded_init 2 3 [])|apply ex_plain_text|].
  intros f [= <-]. apply Filter.init_ok.
Defined.

End AddSigProps.
