(* ===== verification/ParseAdd.v ===== *)
(** * Adding a signature of the database (libclamav/readdb.c)

    [cli_parse_add] takes the text of a signature apart and gives it to a matcher:
    texts with gaps become partial signatures of the Aho-Corasick matcher, texts with
    wildcards one of its patterns, and plain texts patterns of the Boyer-Moore
    matcher.  Both work on one [struct cli_matcher]. *)
From stdpp Require Import base numbers list list_numbers gmap.
From Stdlib Require Import ZArith Lia Bool.
From S2P Require Import Prelude Dlp Filter CalOff Bm MatcherRun Ac AddSig.

Local Open Scope Z_scope.

Module ParseAdd.
Import Errors Ctype CalOff Bm MatcherRun Ac AddSig.

(** A [struct cli_matcher] with both matchers; the prefilter and the length of the
    longest pattern, which they share, are in [m_bm]. *)
Record mroot := MRoot { m_bm : root; m_ac : ac; m_reloff : list (option nat); m_names : gmap Z (list Z); m_partsigs : Z }.

Definition set_filter (m : matcher) (f : option Filter.filter) : matcher :=
  Matcher (mtype m) (bm_shift m) (bm_suffix m) (bm_pattab m) (bm_offmode m) (bm_patterns m) (bm_reloff_num m) (bm_absoff_num m) f.

(** The part of the matcher [cli_ac_addsig] works on, and what it leaves. *)
Definition ac_part (r : mroot) : sigroot :=
  SigRoot (m_ac r) (mtype (bm (m_bm r))) (mfilter (bm (m_bm r))) (maxpatlen (m_bm r)) (m_reloff r) (m_names r).
Definition with_ac (r : mroot) (s : sigroot) : mroot :=
  MRoot (Root (set_filter (bm (m_bm r)) (sr_filter s)) (sr_maxpatlen s) (ac_only (m_bm r))) (sr_ac s) (sr_reloff s) (sr_names s) (m_partsigs r).
Definition with_bm (r : mroot) (b : root) : mroot := MRoot b (m_ac r) (m_reloff r) (m_names r) (m_partsigs r).
Definition new_partsig (r : mroot) : mroot := MRoot (m_bm r) (m_ac r) (m_reloff r) (m_names r) (uint 32 (m_partsigs r + 1)).

Definition add_ac (ok : bool) (m : list bool) (r : mroot) (g : sigargs) : res (Z * mroot) :=
  let! (code, s) := cli_ac_addsig ok (ac_part r) g m in Ok (code, with_ac r s).

(** ** Distances *)

(** [sscanf(hexsig, "${%u-%u}%u$", ...)]: the numbers, if all were converted. *)
Definition scan_macro_sig (s : list Z) : option (Z * Z * Z) :=
  let* s := scan_lit 36 s in
  let* s := scan_lit 123 s in
  let* (smin, s) := scan_u s in
  let* s := scan_lit 45 s in
  let* (smax, s) := scan_u s in
  let* s := scan_lit 125 s in
  let* (tid, _) := scan_u s in
  Some (smin, smax, tid).

(** [!cli_isnumber(n) || (dist = atoi(n)) < 0]; [None] is an error. *)
Definition distance (n : list Z) : option Z :=
  if cli_isnumber n =? 0 then None
  else let v := sint 32 (atoi n) in if v <? 0 then None else Some v.

(** A field of a range, which may be absent. *)
Definition range_field (pt : list Z) (i : Z) (m : list bool) : option Z * list bool :=
  let '(n, m) := cli_strtok 45 pt i m in (match n with Some n => distance n | None => Some 0 end, m).

(** The text between braces: [mindist] and [maxdist]. *)
Definition distances (pt : list Z) (m : list bool) : option (Z * Z) * list bool :=
  if negb (bool_decide (45 ∈ pt)) then (let* d := distance pt in Some (d, d), m)
  else
    let '(mn, m) := range_field pt 0 m in
    match mn with
    | None => (None, m)
    | Some mn =>
        let '(mx, m) := range_field pt 1 m in
        match mx with
        | None => (None, m)
        | Some mx =>
            let '(n, m) := cli_strtok 45 pt 2 m in
            (match n with Some _ => None | None => Some (mn, mx) end, m)
        end
    end.

(** The loop to the next separator: what precedes it, whether it is an asterisk, and
    what follows. *)
Fixpoint next_gap (start : list Z) : option (list Z * bool * list Z) :=
  match start with
  | [] => None
  | c :: l =>
      if c =? 123 then Some ([], false, l)
      else if c =? 42 then Some ([], true, l)
      else let* (a, b, r) := next_gap l in Some (c :: a, b, r)
  end.

Section Add.
(** The outcomes of the allocations of the function and of its calls, by the number
    of the part, and the arguments. *)
Context (mems : nat -> list bool) (oks : nat -> bool).
Context (virname hexsig offset : list Z) (rtype_ type_ : Z) (lsigid_ : option (Z * Z)) (official : bool).

Definition part_args (text : list Z) (id parts_ i mn mx : Z) : sigargs :=
  SigArgs virname text id (uint 16 parts_) (uint 16 i) rtype_ type_ (uint 32 mn) (uint 32 mx) offset lsigid_ official.

(** Texts with braces: the parts from the [i]-th on; [n] of them are left.  The
    result says whether there was an error.  The parts are counted by their
    separators, so that one is always found before the last part. *)
Fixpoint brace_parts (n : nat) (i : nat) (parts_ : Z) (start : list Z) (mn mx : Z) (m : list bool) (r : mroot) : res (bool * mroot) :=
  match n with
  | O => Ok (false, r)
  | S n =>
      let last := Z.of_nat i =? parts_ in
      let! (text, asterisk, pt) := (if last then Ok (start, false, []) else of_opt (next_gap start)) in
      let! (code, r) := add_ac (oks i) (mems i) r (part_args text (m_partsigs r) parts_ (Z.of_nat i) mn mx) in
      if negb (code =? CL_SUCCESS) then Ok (true, r)
      else if last then Ok (false, r)
      else if asterisk then brace_parts n (S i) parts_ pt 0 0 m r
      else
        match strchr 125 pt with
        | None => Ok (true, r)
        | Some (pt, start) =>
            let '(d, m) := distances pt m in
            match d with
            | None => Ok (true, r)
            | Some (mn, mx) => brace_parts n (S i) parts_ start mn mx m r
            end
        end
  end.

(** Texts with asterisks. *)
Fixpoint star_parts (n : nat) (i : nat) (parts_ : Z) (m : list bool) (r : mroot) : res (Z * mroot) :=
  match n with
  | O => Ok (CL_SUCCESS, r)
  | S n =>
      let '(pt, m) := cli_strtok 42 hexsig (Z.of_nat i - 1) m in
      match pt with
      | None => Ok (CL_EMALFDB, r)
      | Some pt =>
          let! (code, r) := add_ac (oks i) (mems i) r (part_args pt (m_partsigs r) parts_ (Z.of_nat i) 0 0) in
          if negb (code =? CL_SUCCESS) then Ok (code, r) else star_parts n (S i) parts_ m r
      end
  end.

(** [parts], with one more than the separators. *)
Definition count_parts (sep : Z -> bool) : Z :=
  let n := Z.of_nat (length (filter (fun c => sep c = true) hexsig)) in if n =? 0 then 0 else n + 1.

(** Macros: a pattern with no characters is prepared, but the test of its allocation
    is inverted, so that the code goes on only without memory, and then reads it. *)
Definition macro (r : mroot) (m : list bool) : res (Z * mroot) :=
  if negb (bool_decide (last hexsig = Some 36)) then Ok (CL_EMALFDB, r)
  else
    match lsigid_ with
    | None => Ok (CL_EMALFDB, r)
    | Some _ =>
        match scan_macro_sig hexsig with
        | None => Ok (CL_EMALFDB, r)
        | Some (_, _, tid) =>
            if 32 <=? tid then Ok (CL_EMALFDB, r)
            else
              let '(ok, m) := alloc m in
              if negb ok then Ok (CL_EMEM, r)
              else let '(ok, m) := alloc m in if ok then Ok (CL_EMEM, r) else Undef
        end
    end.

(** [strstr(s, p) != NULL]. *)
Fixpoint infixb (p s : list Z) : bool :=
  prefixb p s || match s with [] => false | _ :: s => infixb p s end.

(** Whether a text without gaps goes to the Aho-Corasick matcher. *)
Definition goes_to_ac (r : mroot) : bool :=
  ac_only (m_bm r) || negb (type_ =? 0) || bool_decide (is_Some lsigid_)
  || bool_decide (63 ∈ hexsig) || bool_decide (40 ∈ hexsig) || bool_decide (91 ∈ hexsig)
  || (bm_offmode (bm (m_bm r)) && (bool_decide (offset = [42]) || bool_decide (44 ∈ offset)))
  || infixb VI offset || bool_decide (36 ∈ offset).

(** A pattern for the Boyer-Moore matcher. *)
Definition add_bm (r : mroot) : M (Z * mroot) :=
  let^ _ := need_mem CL_EMEM in
  let^ bytes := cli_mpool_hex2str CL_EMALFDB hexsig in
  let^ name := cli_mpool_virname virname official in
  fun m => let '(ok, m) := alloc m in
    let! (code, b) := of_opt (parse_add_bm (m_bm r) bytes name offset ok) in Ok (inr (code, with_bm r b), m).

Definition cli_parse_add (r : mroot) : res (Z * mroot) :=
  let m := mems 0%nat in
  if bool_decide (head hexsig = Some 36) then macro r m
  else if bool_decide (123 ∈ hexsig) then
    let r := new_partsig r in
    let '(ok, m) := alloc m in
    if negb ok then Ok (CL_EMEM, r)
    else
      let n := count_parts (fun c => (c =? 123) || (c =? 42)) in
      let! (error, r) := brace_parts (Z.to_nat n) 1 n hexsig 0 0 m r in
      Ok (if error then CL_EMALFDB else CL_SUCCESS, r)
  else if bool_decide (42 ∈ hexsig) then
    let n := count_parts (fun c => c =? 42) in
    star_parts (Z.to_nat n) 1 n m (new_partsig r)
  else if goes_to_ac r then add_ac (oks 1%nat) (mems 1%nat) r (part_args hexsig 0 0 0 0 0)
  else
    let! (x, _) := add_bm r m in
    match x with
    | inl code => Ok (code, r)
    | inr x => Ok x
    end.
End Add.

(** ** Examples *)

(** 6162{2-5}6364*6566{7}6768: four parts, with the distances before each of them. *)
Definition ex_gaps : list Z :=
  [54; 49; 54; 50; 123; 50; 45; 53; 125; 54; 51; 54; 52; 42; 54; 53; 54; 54; 123; 55; 125; 54; 55; 54; 56].
Definition ex_mroot : option mroot :=
  let* m := (cli_bm_init 0 false None true true).2 in
  let* a := (cli_ac_init 2 3 []).2 in
  Some (MRoot (Root m 0 false) a [] ∅ 0).

Example ex_gap_parts :
  (let* r := ex_mroot in
   match cli_parse_add (fun _ => []) (fun _ => true) [65] ex_gaps [42] 0 0 None true r with
   | Ok (code, r) => Some (code, (fun c => let p := patt c in (pattern p, sigid p, parts p, partno p, mindist p, maxdist p)) <$> cells (m_ac r))
   | _ => None
   end) =
  Some (CL_SUCCESS, [([0x61; 0x62], 1, 4, 1, 0, 0); ([0x63; 0x64], 1, 4, 2, 2, 5); ([0x65; 0x66], 1, 4, 3, 0, 0); ([0x67; 0x68], 1, 4, 4, 7, 7)]).
Proof. by vm_compute. Qed.

(** The test of the allocation in the branch for macros is inverted: no macro is ever
    added. *)
Lemma macro_never_added mems oks virname hexsig offset rtype_ type_ lsigid_ official r r' :
  head hexsig = Some 36 -> cli_parse_add mems oks virname hexsig offset rtype_ type_ lsigid_ official r = Ok (CL_SUCCESS, r') -> False.
Proof.
  intros Hh. unfold cli_parse_add. rewrite bool_decide_eq_true_2 by done. unfold macro.
  destruct (negb _); [done|]. destruct lsigid_; [|done]. destruct (scan_macro_sig _) as [[[? ?] tid]|]; [|done].
  destruct (_ <=? _); [done|]. destruct (alloc _) as [[|] m]; [|done]. cbn [negb]. by destruct (alloc m) as [[|] ?].
Qed.

End ParseAdd.
