(* ===== verification/Database.v ===== *)
(** * From the signatures of a database to what a scan reports

    Lines of a database are added by [cli_parse_add] to the Boyer-Moore or to the
    Aho-Corasick matcher of one [struct cli_matcher]; [matcher_run] scans a buffer
    with the prefilter and both of them.  Together they search for all lines. *)
From stdpp Require Import base numbers list list_numbers gmap.
From Stdlib Require Import ZArith Lia Bool.
From S2P Require Import Prelude Dlp Filter CalOff Bm BmFacts MatcherRun MatcherFacts Hashset Ac AcMatch AcScan AcWords AcBfs AcChain AcBuild AcTrans AcAdd AcSearch AcProps FilterAc FilterAcFacts AddSig AddSigFacts AddSigCut AddSigProps ParseAdd.

Local Open Scope Z_scope.

Module Database.
Import Errors Ctype CalOff Bm BmFacts MatcherRun MatcherFacts.
Import Ac AcMatch AcScan AcAdd AcSearch AcProps FilterAcFacts AddSig AddSigFacts AddSigCut AddSigProps ParseAdd.
Abbreviation plain_sig := MatcherFacts.plain.
Abbreviation plain_patt := AcSearch.plain.

(** ** Lines *)

(** A line: the name, the characters (bytes, nibbles and ignored bytes) and the
    offset. *)
Record line := Line { l_name : list Z; l_chars : list Z; l_offset : list Z }.

Definition decode (target : Z) (l : line) : decoded := cli_caloff_decode (Some (l_offset l)) target (OffData 0 0 0 0) 0 0.

Definition add_line (r : mroot) (l : line) : res (Z * mroot) :=
  cli_parse_add (fun _ => []) (fun _ => true) (l_name l) (print_chars (l_chars l)) (l_offset l) 0 0 None true r.

(** The lines in their order; the first failure ends the load. *)
Fixpoint add_lines (r : mroot) (ls : list line) : res (Z * mroot) :=
  match ls with
  | [] => Ok (CL_SUCCESS, r)
  | l :: ls => let! (code, r) := add_line r l in if code =? CL_SUCCESS then add_lines r ls else Ok (code, r)
  end.

(** A new matcher for a target. *)
Definition new_root (target mindepth maxdepth : Z) (filtering : bool) : option mroot :=
  let* b := fresh target filtering in
  let* a := (cli_ac_init mindepth maxdepth []).2 in
  Some (MRoot b a [] ∅ 0).

(** A line that can be added: at least three characters, [mindepth] static ones in a
    row, and an offset that says "anywhere" or a position or a range of positions. *)
Record good_line (target mindepth : Z) (l : line) : Prop := {
  gl_ok : text_ok (l_chars l);
  gl_len : 3 <= Z.of_nat (length (l_chars l)) < 2 ^ 16;
  gl_run : exists i, run_at (l_chars l) i mindepth;
  gl_name : default (l_name l) (before_clam (l_name l)) <> [];
  gl_ret : ret (decode target l) = CL_SUCCESS;
  gl_kind : od0 (data (decode target l)) = CLI_OFF_ABSOLUTE \/
    (od0 (data (decode target l)) = CLI_OFF_ANY /\ off_min (decode target l) = CLI_OFF_ANY) }.

(** The line stands at position [k] of a buffer, at an offset it allows. *)
Definition fits (d : decoded) (o : Z) : Prop :=
  off_min d = CLI_OFF_ANY \/ (off_min d <> CLI_OFF_NONE /\ off_min d <= o <= off_max d).
Definition line_at (target : Z) (buffer : list Z) (offset : Z) (l : line) (k : Z) : Prop :=
  text_match buffer k (l_chars l) = true /\ fits (decode target l) (offset + k).

(** What the lines become. *)
Record sig_line (s : BmFacts.sig) (l : line) : Prop := {
  sl_bytes : s_bytes s = l_chars l; sl_byte : Forall byte (s_bytes s); sl_offset : s_offset s = l_offset l; sl_plain : plain_sig s }.
Record patt_line (target : Z) (p : ac_patt) (l : line) : Prop := {
  pl_plain : plain_patt p; pl_text : text_of p = l_chars l;
  pl_min : offset_min p = off_min (decode target l); pl_max : offset_max p = off_max (decode target l) }.

(** ** Both matchers *)
Record engine (target mindepth maxdepth : Z) (r : mroot) (ss : list BmFacts.sig) (ps : list ac_patt) (ls : list line) : Prop := {
  e_ready : ready (m_bm r) ss;
  e_type : mtype (bm (m_bm r)) = target;
  e_only : ac_only (m_bm r) = false \/ ss = [];
  e_gen : Forall (fun s => generic (s_patt target s)) ss;
  e_loaded : loaded mindepth maxdepth ps (m_ac r);
  e_count : (length ss <= length ls)%nat;
  e_ss : Forall (fun s => exists l, l ∈ ls /\ sig_line s l) ss;
  e_ps : Forall (fun p => exists l, l ∈ ls /\ patt_line target p l) ps;
  e_ls : Forall (fun l => (exists s, s ∈ ss /\ sig_line s l) \/ (exists p, p ∈ ps /\ patt_line target p l)) ls;
  e_filter : forall f, mfilter (bm (m_bm r)) = Some f -> Filter.tab_ok f /\ Forall (fun p => finds f (text_of p)) ps;
  e_max : Forall (fun p => Z.of_nat (length (text_of p)) <= maxpatlen (m_bm r)) ps;
  e_rest : m_reloff r = [] /\ m_partsigs r = 0 }.

Lemma print_no l x : text_ok l -> hexish x = false -> x ∉ print_chars l.
Proof. intros Hl Hx. apply not_hexish_out; [done|by apply text_hexish]. Qed.

Lemma bytes_of_text l : text_ok l -> 63 ∉ print_chars l -> Forall byte l.
Proof.
  induction 1 as [|c l Hc Hl IH]; intros H; [constructor|]. unfold print_chars in *. cbn [fmap list_fmap concat] in H.
  apply not_elem_of_app in H as [H1 H2]. constructor; [|by apply IH].
  pose (P c := negb (valid c) || bool_decide (63 ∈ print_char c) || ((0 <=? c) && (c <? 256))).
  assert (P c = true) as HP by (apply (check_codes P 0x500); [by vm_compute|by apply valid_range]). unfold P in HP.
  rewrite Hc, bool_decide_eq_false_2 in HP by done. cbn in HP. unfold byte. lia.
Qed.

(** A line has no gaps and is no macro: it goes to one of the matchers. *)
Lemma add_line_dispatch r l : text_ok (l_chars l) ->
  add_line r l =
    if goes_to_ac (print_chars (l_chars l)) (l_offset l) 0 None r
    then add_ac true [] r (part_args (l_name l) (l_offset l) 0 0 None true (print_chars (l_chars l)) 0 0 0 0 0)
    else let! (x, _) := add_bm (l_name l) (print_chars (l_chars l)) (l_offset l) true r [] in
         match x with inl code => Ok (code, r) | inr x => Ok x end.
Proof.
  intros Hl. unfold add_line, cli_parse_add. rewrite (bool_decide_eq_false_2 (head _ = Some 36)).
  2: { intros E. apply (print_no _ 36 Hl eq_refl). destruct (print_chars (l_chars l)); [done|]. injection E as ->. left. }
  rewrite !(bool_decide_eq_false_2 (_ ∈ _)) by (by apply print_no). done.
Qed.

(** ** A line of the Aho-Corasick matcher *)
Lemma ready_filter r ss f mx : ready r ss -> maxpatlen r <= mx < 2 ^ 16 ->
  (forall f0, f = Some f0 -> Filter.tab_ok f0 /\ Forall (fun s => Filter.accepts f0 (s_bytes s)) ss) ->
  ready (Root (set_filter (bm r) f) mx (ac_only r)) ss.
Proof.
  intros [[[Hw1 Hw2] Hb Hs Hc _] Hm Hx Hl Hby] Hmx Hf. split; cbn [bm maxpatlen]; [|done|lia| |done].
  - split; [by split|done|done|done|done].
  - eapply Forall_impl; [exact Hl|]. cbn. intros. lia.
Qed.

Lemma ac_step target mindepth maxdepth r ss ps ls l : 1 <= mindepth <= maxdepth -> engine target mindepth maxdepth r ss ps ls ->
  good_line target mindepth l ->
  exists r' p, add_ac true [] r (part_args (l_name l) (l_offset l) 0 0 None true (print_chars (l_chars l)) 0 0 0 0 0) = Ok (CL_SUCCESS, r') /\
    engine target mindepth maxdepth r' ss (ps ++ [p]) (ls ++ [l]).
Proof.
  intros Hd [Hr Ht Ho Hg HL Hn Hss Hps Hls Hf Hmx Hre] [Gok Glen Grun Gname Gret Gkind].
  set (g := part_args (l_name l) (l_offset l) 0 0 None true (print_chars (l_chars l)) 0 0 0 0 0).
  assert (offset_of target g = decode target l) as Eoff by done.
  assert (plain_text target g (l_chars l)) as HT.
  { split; try done; lia. }
  destruct (addsig_plain mindepth maxdepth ps (ac_part r) g (l_chars l) Hd HL) as (code & sr & E & Ety & Erel & H).
  { unfold ac_part. cbn [sr_type]. by rewrite Ht. }
  { intros f Ef. by apply Hf. }
  destruct H as [(-> & _ & Hfil & Hmax & p & [Pp Pt Pmin Pmax] & HL')|(_ & Hno & _)]; [|destruct Grun as [i Hi]; by destruct (Hno i)].
  cbn [ac_part sr_type sr_maxpatlen sr_filter] in *. rewrite Ht, Eoff in Pmin, Pmax.
  unfold add_ac. rewrite E. eexists _, p. split; [reflexivity|].
  assert (forall f, sr_filter sr = Some f -> exists f0, mfilter (bm (m_bm r)) = Some f0 /\ Filter.tab_ok f0 /\ Filter.tab_ok f /\ Filter.mle f0 f /\ finds f (l_chars l)) as Hfs.
  { intros f Ef. rewrite Ef in Hfil. destruct (mfilter (bm (m_bm r))) as [f0|] eqn:Ef0; [|done]. exists f0.
    destruct (Hf f0 eq_refl) as [H0 _]. destruct (Hfil H0) as (H1 & H2 & H3). done. }
  pose proof (rd_max _ _ Hr) as Hrm.
  split; cbn [with_ac m_bm m_ac bm maxpatlen ac_only set_filter mtype mfilter]; try done.
  - apply ready_filter; [done|rewrite Hmax; lia|]. intros f Ef. destruct (Hfs f Ef) as (f0 & E0 & _ & H1 & H2 & _). split; [done|].
    destruct (h_filter _ _ (rd_holds _ _ Hr) f0 E0) as [_ Ha]. eapply Forall_impl; [exact Ha|]. intros s. by apply Filter.accepts_mono.
  - rewrite length_app. cbn. lia.
  - eapply Forall_impl; [exact Hss|]. intros s (l' & Hl' & Hs). exists l'. split; [|done]. apply elem_of_app. by left.
  - apply Forall_app. split.
    + eapply Forall_impl; [exact Hps|]. intros q (l' & Hl' & Hq). exists l'. split; [|done]. apply elem_of_app. by left.
    + constructor; [|constructor]. exists l. split; [apply elem_of_app; right; left|by split].
  - apply Forall_app. split.
    + eapply Forall_impl; [exact Hls|]. intros l' [Hs|(q & Hq & Hql)]; [by left|]. right. exists q. split; [|done]. apply elem_of_app. by left.
    + constructor; [|constructor]. right. exists p. split; [apply elem_of_app; right; left|by split].
  - intros f Ef. destruct (Hfs f Ef) as (f0 & E0 & _ & H1 & H2 & H3). split; [done|]. destruct (Hf f0 E0) as [_ Ha]. apply Forall_app. split.
    + eapply Forall_impl; [exact Ha|]. intros q Hq. by eapply finds_mono.
    + constructor; [by rewrite Pt|constructor].
  - rewrite Hmax. apply Forall_app. split; [eapply Forall_impl; [exact Hmx|]; cbn; intros; lia|]. constructor; [rewrite Pt; lia|constructor].
  - cbn [with_ac m_reloff m_partsigs]. by rewrite Erel.
Qed.

(** ** A line of the Boyer-Moore matcher *)
Lemma bm_filter root p off m' : (2 <= length (bytes p))%nat -> plength p = Z.of_nat (length (bytes p)) ->
  cli_bm_addpatt root p off true = Some (CL_SUCCESS, m') ->
  match mfilter root with
  | None => mfilter m' = None
  | Some f => Filter.tab_ok f -> exists f', mfilter m' = Some f' /\ Filter.tab_ok f' /\ Filter.mle f f'
  end.
Proof.
  intros Hl Hp. unfold cli_bm_addpatt. destruct (_ <? _); [done|].
  set (d := cli_caloff_decode _ _ _ _ _). clearbody d. destruct (Z.eqb_spec (ret d) CL_SUCCESS) as [_|Er]; cbn [negb]; [|congruence].
  set (a := if negb (od0 (data d) =? CLI_OFF_ANY) && (od0 (data d) =? _) then _ else _). clearbody a.
  set (b := if negb (od0 (data d) =? CLI_OFF_ANY) && _ then _ else _). clearbody b.
  destruct (mfilter root) as [f|].
  - rewrite Hp. intros E Hok. destruct (Filter.add_static_spec f (bytes p) Hok Hl) as (f' & r & E1 & H1 & H2 & H3 & _). rewrite E1 in E.
    destruct (Z.eqb_spec r (-1)); [lia|]. exists f'. split; [|done].
    destruct (balance _ _ _ _ _); [|done]. destruct (hash_at _ _); [|done]. destruct (bget _ _); [|done]. destruct (shift_at _ _); [|done].
    destruct (suffix_at _ _); [|done]. destruct (bm_offmode root); cbn [negb] in E; injection E as <-; done.
  - intros E. destruct (balance _ _ _ _ _); [|done]. destruct (hash_at _ _); [|done]. destruct (bget _ _); [|done]. destruct (shift_at _ _); [|done].
    destruct (suffix_at _ _); [|done]. destruct (bm_offmode root); cbn [negb] in E; injection E as <-; done.
Qed.

Lemma bm_step target mindepth maxdepth r ss ps ls l : engine target mindepth maxdepth r ss ps ls -> good_line target mindepth l ->
  Z.of_nat (length ls) < 2 ^ 16 - 1 -> ac_only (m_bm r) = false -> 63 ∉ print_chars (l_chars l) ->
  exists r' s, add_bm (l_name l) (print_chars (l_chars l)) (l_offset l) true r [] = Ok (inr (CL_SUCCESS, r'), []) /\
    engine target mindepth maxdepth r' (ss ++ [s]) ps (ls ++ [l]).
Proof.
  intros [Hr Ht Ho Hg HL Hn Hss Hps Hls Hf Hmx Hre] [Gok Glen Grun Gname Gret Gkind] Hcount Hao Hq.
  pose proof (bytes_of_text _ Gok Hq) as Hby. destruct (virname_ok (l_name l) true Gname) as (n & En).
  set (s := Sig (l_chars l) n (l_offset l) 0 0). assert (BmFacts.sig_ok (mtype (bm (m_bm r))) s) as Hok by (rewrite Ht; by split).
  destruct (add_step (m_bm r) ss s Hr ltac:(lia) Hok) as (b & Eb & Hb & Hbt & Hbo); [by split|].
  cbn [s s_bytes s_name s_offset] in Eb.
  exists (with_bm r b), s. unfold add_bm. rewrite bind_mem, (bind_ok _ _ (l_chars l) [] []) by (by apply mpool_hex2str_print).
  rewrite (bind_ok _ _ n [] []) by done. cbn [alloc]. rewrite Eb. cbn [of_opt]. split; [done|].
  unfold parse_add_bm in Eb. cbn [plength] in Eb. set (p := Patt _ _ _ _ _ _ _ _ _ _ _) in Eb.
  destruct (cli_bm_addpatt (bm (m_bm r)) p (l_offset l) true) as [[c m']|] eqn:Ea; [|done]. injection Eb as -> <-. cbn [bm maxpatlen ac_only] in *.
  assert (match mfilter (bm (m_bm r)) with
    | None => mfilter m' = None | Some f => Filter.tab_ok f -> exists f', mfilter m' = Some f' /\ Filter.tab_ok f' /\ Filter.mle f f' end) as HF.
  { apply (bm_filter _ p (l_offset l)); [cbn; lia| |done]. cbn [p plength bytes]. apply uint_small. lia. }
  assert (sig_line s l) as Hsl by (split; [done|exact Hby|done|done]).
  split; cbn [with_bm m_bm m_ac bm maxpatlen ac_only]; try done.
  - congruence.
  - by left.
  - apply Forall_app. split; [done|]. constructor; [|constructor]. destruct Gkind as [H|[_ H]]; [right; left; exact H|left; exact H].
  - rewrite !length_app. cbn. lia.
  - apply Forall_app. split.
    + eapply Forall_impl; [exact Hss|]. intros s' (l' & Hl' & Hs). exists l'. split; [|done]. apply elem_of_app. by left.
    + constructor; [|constructor]. exists l. split; [apply elem_of_app; right; left|done].
  - eapply Forall_impl; [exact Hps|]. intros q (l' & Hl' & Hql). exists l'. split; [|done]. apply elem_of_app. by left.
  - apply Forall_app. split.
    + eapply Forall_impl; [exact Hls|]. intros l' [(s' & Hs' & Hsl')|H]; [|by right]. left. exists s'. split; [|done]. apply elem_of_app. by left.
    + constructor; [|constructor]. left. exists s. split; [apply elem_of_app; right; left|done].
  - intros f' Ef'. destruct (mfilter (bm (m_bm r))) as [f|] eqn:Ef; [|congruence]. destruct (Hf f eq_refl) as [H0 Ha].
    destruct (HF H0) as (f2 & Ef2 & H1 & H2). assert (f2 = f') as -> by congruence. split; [done|].
    eapply Forall_impl; [exact Ha|]. intros q Hq'. by eapply finds_mono.
  - eapply Forall_impl; [exact Hmx|]. cbn. intros q Hq'. destruct (_ <? _) eqn:E; [|done]. apply Z.ltb_lt in E. lia.
Qed.

(** ** All lines *)
Lemma no_ac_no_wild hexsig offset r : goes_to_ac hexsig offset 0 None r = false -> ac_only (m_bm r) = false /\ ~ (63 ∈ hexsig).
Proof.
  unfold goes_to_ac. rewrite !orb_false_iff. intros H. split; [tauto|]. intros Hin. rewrite (bool_decide_eq_true_2 (63 ∈ hexsig)) in H by done.
  destruct H as [[[[[[[[_ _] _] H] _] _] _] _] _]. done.
Qed.

Lemma add_line_engine target mindepth maxdepth r ss ps ls l : 1 <= mindepth <= maxdepth -> good_line target mindepth l ->
  engine target mindepth maxdepth r ss ps ls -> Z.of_nat (length ls) < 2 ^ 16 - 1 ->
  exists r' ss' ps', add_line r l = Ok (CL_SUCCESS, r') /\ engine target mindepth maxdepth r' ss' ps' (ls ++ [l]).
Proof.
  intros Hd Hl He Hn. rewrite (add_line_dispatch r l (gl_ok _ _ _ Hl)). destruct (goes_to_ac _ _ _ _ _) eqn:Eg.
  - destruct (ac_step _ _ _ _ _ _ _ _ Hd He Hl) as (r1 & p & -> & He1). by exists r1, ss, (ps ++ [p]).
  - destruct (no_ac_no_wild _ _ _ Eg) as [Ho Hw]. destruct (bm_step _ _ _ _ _ _ _ _ He Hl Hn Ho Hw) as (r1 & s & -> & He1). by exists r1, (ss ++ [s]), ps.
Qed.

Lemma add_lines_engine target mindepth maxdepth ls : 1 <= mindepth <= maxdepth -> Forall (good_line target mindepth) ls ->
  forall r ss ps ls0, engine target mindepth maxdepth r ss ps ls0 -> Z.of_nat (length (ls0 ++ ls)) < 2 ^ 16 ->
  exists r' ss' ps', add_lines r ls = Ok (CL_SUCCESS, r') /\ engine target mindepth maxdepth r' ss' ps' (ls0 ++ ls).
Proof.
  intros Hd. induction 1 as [|l ls Hl _ IH]; intros r ss ps ls0 He Hn; cbn [add_lines].
  { exists r, ss, ps. by rewrite app_nil_r. }
  rewrite length_app in Hn. cbn [length] in Hn.
  destruct (add_line_engine _ _ _ r ss ps ls0 l Hd Hl He ltac:(lia)) as (r1 & ss1 & ps1 & -> & He1).
  cbn [Z.eqb CL_SUCCESS]. destruct (IH r1 ss1 ps1 (ls0 ++ [l]) He1) as (r' & ss' & ps' & E & He').
  { rewrite !length_app. cbn [length]. lia. }
  exists r', ss', ps'. split; [done|]. by rewrite <- app_assoc in He'.
Qed.

Lemma new_root_engine target mindepth maxdepth filtering : exists r, new_root target mindepth maxdepth filtering = Some r /\
  engine target mindepth maxdepth r [] [] [].
Proof.
  eexists. split; [reflexivity|]. split; cbn [m_bm m_ac bm mtype ac_only maxpatlen]; try done; try (by constructor); try (by left).
  - split; cbn; try done. apply holds_init. intros f Hf. destruct filtering; [|done]. injection Hf as <-. apply Filter.init_ok.
  - by apply (loaded_init _ _ []).
  - cbn. intros f Hf. split; [|constructor]. destruct filtering; [|done]. injection Hf as <-. apply Filter.init_ok.
Qed.

(** ** What a line finds *)
Lemma char_ok_byte c b : byte c -> char_ok c b = (c =? b).
Proof.
  intros Hc. unfold char_ok. assert ((Z.land c CLI_MATCH_WILDCARD =? CLI_MATCH_CHAR) = true) as ->.
  { apply (check_codes (fun c => Z.land c CLI_MATCH_WILDCARD =? CLI_MATCH_CHAR) 256); [by vm_compute|exact Hc]. }
  by rewrite (uint_small 8).
Qed.

Lemma text_match_bytes buffer l : Forall byte l -> forall k,
  text_match buffer k l = true <-> forall i, 0 <= i < Z.of_nat (length l) -> bget buffer (k + i) = bget l i.
Proof.
  induction 1 as [|c l Hc Hl IH]; intros k; cbn [text_match length]; [split; [intros _ i Hi; lia|done]|].
  rewrite andb_true_iff, IH. split.
  - intros [H1 H2] i Hi. destruct (Z.eq_dec i 0) as [->|].
    + rewrite Z.add_0_r. destruct (bget buffer k) as [b|]; [|done]. rewrite char_ok_byte in H1 by done. apply Z.eqb_eq in H1 as ->. done.
    + specialize (H2 (i - 1) ltac:(lia)). replace (k + 1 + (i - 1)) with (k + i) in H2 by lia. rewrite H2. rewrite !bget_lookup by lia.
      by replace (Z.to_nat i) with (S (Z.to_nat (i - 1))) by lia.
  - intros H. split.
    + specialize (H 0 ltac:(lia)). rewrite Z.add_0_r in H. rewrite H. change (bget (c :: l) 0) with (Some c). cbv iota. rewrite char_ok_byte by done. apply Z.eqb_refl.
    + intros i Hi. specialize (H (i + 1) ltac:(lia)). replace (k + 1 + i) with (k + (i + 1)) by lia. rewrite H. rewrite !bget_lookup by lia.
      by replace (Z.to_nat (i + 1)) with (S (Z.to_nat i)) by lia.
Qed.

(** The offsets a line allows, for the pattern of the Boyer-Moore matcher. *)
Lemma in_range_fits target map_len s l o : sig_line s l ->
  (od0 (data (decode target l)) = CLI_OFF_ABSOLUTE \/ od0 (data (decode target l)) = CLI_OFF_ANY /\ off_min (decode target l) = CLI_OFF_ANY) ->
  in_range map_len (s_patt target s) o <-> fits (decode target l) o.
Proof.
  intros [_ _ Eo _] Hk. assert (s_decoded target s = decode target l) as Ed by (unfold s_decoded; by rewrite Eo).
  unfold in_range, fits, offset_range. cbn [s_patt Bm.offset_min Bm.offset_max poffdata]. rewrite Ed. destruct Hk as [-> |[_ ->]]; [done|]. tauto.
Qed.

Lemma sig_matches target map_len buffer offset s l k : sig_line s l -> l_chars l <> [] ->
  (od0 (data (decode target l)) = CLI_OFF_ABSOLUTE \/ od0 (data (decode target l)) = CLI_OFF_ANY /\ off_min (decode target l) = CLI_OFF_ANY) ->
  matches map_len buffer (Z.of_nat (length buffer)) offset (s_patt target s) k <-> line_at target buffer offset l k.
Proof.
  intros Hs Hne Hk. unfold matches, line_at. rewrite (in_range_fits target map_len s l (offset + k) Hs Hk). destruct Hs as [Eb Hby _ [Hbd _]].
  cbn [s_patt Bm.bytes Bm.boundary]. rewrite Hbd, Eb. rewrite Eb in Hby. unfold Filter.occurs. rewrite text_match_bytes by done. split.
  - intros ((_ & _ & H) & _ & Hf). done.
  - intros [H Hf]. split; [|by split]. apply text_match_bytes in H as H'; [|done].
    destruct (text_match_bound buffer k (l_chars l) H' Hne) as [H1 H2]. done.
Qed.

(** The part of the buffer the prefilter leaves out has no line. *)
Lemma filter_pos_text r buffer f chars pos k : filter_pos r buffer (Z.of_nat (length buffer)) = Some pos -> mfilter (bm r) = Some f ->
  finds f chars -> Z.of_nat (length chars) <= maxpatlen r < 2 ^ 16 -> Z.of_nat (length buffer) < 2 ^ 31 -> chars <> [] ->
  Forall (fun b => 0 <= b < 256) buffer -> text_match buffer k chars = true -> pos <= k.
Proof.
  unfold filter_pos. intros Hp Hf Hfi Hl Hb Hne Hby Hm. rewrite Hf in Hp.
  destruct (text_match_bound buffer k chars Hm Hne) as [H1 H2].
  destruct (search_finds f buffer (Z.of_nat (length buffer)) chars k Hfi Hby ltac:(lia) H1 H2 Hm) as (j & Ej & Hj).
  rewrite Ej in Hp. rewrite (sint_small 32) in Hp by lia. injection Hp as <-. case_match; lia.
Qed.

Lemma text_match_drop buffer pos l : 0 <= pos -> forall k, 0 <= k -> text_match (drop (Z.to_nat pos) buffer) k l = text_match buffer (pos + k) l.
Proof.
  intros Hp. induction l as [|c l IH]; intros k Hk; [done|]. cbn [text_match]. rewrite bget_drop, IH by lia.
  replace (pos + (k + 1)) with (pos + k + 1) by lia. done.
Qed.

Lemma occurs_line target p l buffer offset pos k : patt_line target p l -> l_chars l <> [] -> 0 <= pos ->
  AcProps.occurs (drop (Z.to_nat pos) buffer) (offset + pos) p k = true <-> 0 <= k /\ line_at target buffer offset l (pos + k).
Proof.
  intros [_ Et Emin Emax] Hne Hp. unfold AcProps.occurs, line_at, fits, offset_fits. rewrite Et, Emin, Emax.
  replace (offset + pos + k) with (offset + (pos + k)) by lia. rewrite andb_true_iff, orb_true_iff, !andb_true_iff, negb_true_iff, !Z.eqb_eq, Z.eqb_neq, !Z.leb_le. split.
  - intros [Hm Hf]. destruct (text_match_bound _ _ _ Hm Hne) as [H1 _]. rewrite text_match_drop in Hm by done. tauto.
  - intros [H0 [Hm Hf]]. rewrite text_match_drop by done. tauto.
Qed.

(** [cli_ac_scanbuff] as the other matcher of [matcher_run]. *)
Definition scanner (s : ac) (mp : list (option (list Z))) (mf : option Z) (ftype : Z) (st : scan) : root -> list Z -> Z -> Z -> Z :=
  fun _ buffer length_ offset =>
    match cli_ac_scanbuff s mp mf buffer length_ offset ftype AC_SCAN_VIR st with Ok (code, _, _) => code | _ => -1 end.

Section Scan.
Context (target mindepth maxdepth : Z) (r : mroot) (ss : list BmFacts.sig) (ps : list ac_patt) (ls : list line).
Context (Hd : 1 <= mindepth <= maxdepth) (He : engine target mindepth maxdepth r ss ps ls) (Hgood : Forall (good_line target mindepth) ls).
Context (m : list bool) (s : ac) (Hbuild : cli_ac_buildtrie (m_ac r) m = Ok (CL_SUCCESS, Some s)).

Lemma line_ne l : l ∈ ls -> l_chars l <> [].
Proof using Hgood. intros Hl E. rewrite Forall_forall in Hgood. pose proof (gl_len _ _ _ (Hgood l Hl)) as H. rewrite E in H. cbn in H. lia. Qed.

(** The Aho-Corasick matcher on the part of the buffer that is left. *)
Lemma scanner_spec mp mf buffer offset ftype st pos : filter_pos (m_bm r) buffer (Z.of_nat (length buffer)) = Some pos -> 0 <= pos <= Z.of_nat (length buffer) ->
  is_bytes buffer -> Z.of_nat (length buffer) < 2 ^ 31 -> 0 <= offset -> offset + Z.of_nat (length buffer) < 2 ^ 32 -> results st = None ->
  let code := scanner s mp mf ftype st (m_bm r) (drop (Z.to_nat pos) buffer) (Z.of_nat (length buffer) - pos) (offset + pos) in
  (code = CL_VIRUS /\ exists l k, l ∈ ls /\ line_at target buffer offset l k) \/
  (code = CL_CLEAN /\ forall p l k, p ∈ ps -> l ∈ ls -> patt_line target p l -> ~ line_at target buffer offset l k).
Proof using Hd He Hgood Hbuild.
  intros Hpos Hpr Hby Hlen Ho Hol Hst. unfold scanner. cbv zeta.
  assert (Z.of_nat (length buffer) - pos = Z.of_nat (length (drop (Z.to_nat pos) buffer))) as -> by (rewrite length_drop; lia).
  assert (Forall plain_patt ps) as Hpl.
  { eapply Forall_impl; [exact (e_ps _ _ _ _ _ _ _ He)|]. by intros p (l & _ & [H _ _ _]). }
  destruct (scan_search mindepth maxdepth ps (m_ac r) m s mp mf (drop (Z.to_nat pos) buffer) (offset + pos) ftype AC_SCAN_VIR st)
    as (code & id & st' & -> & H); [lia|exact (e_loaded _ _ _ _ _ _ _ He)|done|done|by apply Forall_drop|rewrite length_drop; lia|lia|rewrite length_drop; lia|done|done|].
  pose proof (e_ps _ _ _ _ _ _ _ He) as Hps. rewrite Forall_forall in Hps.
  destruct H as [[-> (i & p & k & _ & Hi & Hk)]|(-> & _ & Hno)].
  - left. split; [done|]. destruct (Hps p) as (l & Hl & Hpl'); [by eapply list_elem_of_lookup_2|].
    apply (occurs_line target p l) in Hk as [_ Hk]; [|done|by apply line_ne|lia]. by exists l, (pos + k).
  - right. split; [done|]. intros p l k Hp Hl Hpl' Hk. apply list_elem_of_lookup in Hp as Hi. destruct Hi as [i Hi]. specialize (Hno i p (k - pos) Hi).
    enough (AcProps.occurs (drop (Z.to_nat pos) buffer) (offset + pos) p (k - pos) = true) by congruence.
    apply (occurs_line target p l); [done|by apply line_ne|lia|]. replace (pos + (k - pos)) with k by lia. split; [|done].
    destruct Hk as [Hm _]. enough (pos <= k) by lia. destruct (mfilter (bm (m_bm r))) as [f|] eqn:Ef.
    + destruct (e_filter _ _ _ _ _ _ _ He f Ef) as [_ Hf]. rewrite Forall_forall in Hf. specialize (Hf p Hp).
      pose proof (e_max _ _ _ _ _ _ _ He) as Hmx. rewrite Forall_forall in Hmx. specialize (Hmx p Hp). cbn in Hmx. rewrite (pl_text _ _ _ Hpl') in *.
      pose proof (rd_max _ _ (e_ready _ _ _ _ _ _ _ He)). by apply (filter_pos_text (m_bm r) buffer f (l_chars l) pos k); try done; [lia|apply line_ne].
    + unfold filter_pos in Hpos. rewrite Ef in Hpos. injection Hpos as <-. destruct (text_match_bound _ _ _ Hm (line_ne l Hl)). lia.
Qed.

Lemma engine_run einfo map_len mp mf buffer offset ftype st : is_bytes buffer -> Z.of_nat (length buffer) < 2 ^ 31 ->
  0 <= offset -> offset + Z.of_nat (length buffer) < 2 ^ 32 -> results st = None ->
  exists code p, matcher_run (scanner s mp mf ftype st) einfo map_len (m_bm r) buffer (Z.of_nat (length buffer)) offset None = Ok (code, p, None) /\
    ((code = CL_VIRUS /\ exists l k, l ∈ ls /\ line_at target buffer offset l k) \/
     (code = CL_CLEAN /\ forall l k, l ∈ ls -> ~ line_at target buffer offset l k)).
Proof using Hd He Hgood Hbuild.
  intros Hby Hlen Ho Hol Hst. pose proof He as [Hr Ht Hon Hgen _ _ Hss _ Hls _ _ _]. rewrite Forall_forall in Hss. rewrite Forall_forall in Hls.
  pose proof Hgood as Hg. rewrite Forall_forall in Hg. rewrite <- Ht in Hgen.
  destruct (matcher_run_spec (scanner s mp mf ftype st) einfo map_len (m_bm r) ss Hr Hon Hgen buffer (Z.of_nat (length buffer)) offset)
    as (x & -> & [(p & sg & k & -> & Hsg & _ & Hm)|(pos & -> & [Hpr Hpos] & Hno)]); [done|lia|lia|done|done|..].
  - exists CL_VIRUS, (Some p). split; [done|]. left. split; [done|]. destruct (Hss sg Hsg) as (l & Hl & Hsl). exists l, k. split; [done|].
    rewrite Ht in Hm. apply (sig_matches target map_len buffer offset sg l k Hsl) in Hm; [done|by apply line_ne|apply (Hg l Hl)].
  - eexists _, None. split; [done|]. destruct (scanner_spec mp mf buffer offset ftype st pos Hpos Hpr Hby Hlen Ho Hol Hst) as [H|[-> H]]; [by left|].
    right. split; [done|]. intros l k Hl Hk. destruct (Hls l Hl) as [(sg & Hsg & Hsl)|(p & Hp & Hpl)]; [|by apply (H p l k)].
    apply (Hno sg k Hsg). rewrite Ht. apply (sig_matches target map_len buffer offset sg l k Hsl); [by apply line_ne|apply (Hg l Hl)|done].
Qed.
End Scan.

(** C5. The matchers find what the database says.  Any lines of the database that
    consist of bytes, nibbles and ignored bytes (??, a? and ?a, no other wildcards), at
    any position or at absolute offsets, are added by [cli_parse_add] to the two
    matchers of a target, with or without a prefilter.  Then a run of the matchers over
    a buffer of less than 2 GiB (the prefilter, the
    Boyer-Moore matcher, and the Aho-Corasick matcher with its automaton) ends
    without an access outside the tables or the buffer, and reports a virus if and
    only if one of the lines stands in the buffer at an offset it allows. *)
Theorem database_scan_is_search (target mindepth maxdepth : Z) (filtering : bool) (ls : list line) :
  1 <= mindepth <= maxdepth -> Forall (good_line target mindepth) ls -> Z.of_nat (length ls) < 2 ^ 16 ->
  exists r0 r, new_root target mindepth maxdepth filtering = Some r0 /\ add_lines r0 ls = Ok (CL_SUCCESS, r) /\
    forall m s einfo map_len mp mf buffer offset ftype st, cli_ac_buildtrie (m_ac r) m = Ok (CL_SUCCESS, Some s) ->
      is_bytes buffer -> Z.of_nat (length buffer) < 2 ^ 31 -> 0 <= offset -> offset + Z.of_nat (length buffer) < 2 ^ 32 -> results st = None ->
      exists code p, matcher_run (scanner s mp mf ftype st) einfo map_len (m_bm r) buffer (Z.of_nat (length buffer)) offset None = Ok (code, p, None) /\
        ((code = CL_VIRUS /\ exists l k, l ∈ ls /\ line_at target buffer offset l k) \/
         (code = CL_CLEAN /\ forall l k, l ∈ ls -> ~ line_at target buffer offset l k)).
Proof.
  intros Hd Hg Hn. destruct (new_root_engine target mindepth maxdepth filtering) as (r0 & E0 & H0).
  destruct (add_lines_engine target mindepth maxdepth ls Hd Hg r0 [] [] [] H0 Hn) as (r & ss & ps & E & He). exists r0, r. split; [done|]. split; [done|].
  intros m s einfo map_len mp mf buffer offset ftype st Hb Hby Hl Ho Hol Hst. by apply (engine_run target mindepth maxdepth r ss ps ls Hd He Hg m s Hb).
Qed.

(** ** Examples *)

(** abcdef anywhere; ab?d with any third byte, anywhere; 6?62636465 at position 2; xyz only
    from the positions 1 to 3. *)
Definition ex_lines : list line :=
  [Line [65] [97; 98; 99; 100; 101; 102] [42];
   Line [66] [97; 98; 0x100; 100] [42];
   Line [67] [0x360; 0x62; 0x63; 0x64; 0x65] [50];
   Line [68] [120; 121; 122] [49; 44; 50]].

Lemma ex_good : Forall (good_line 0 2) ex_lines.
Proof.
  repeat (apply Forall_cons; split); [..|constructor]; (split; [by apply text_okb|cbn; lia| |done|by vm_compute|vm_compute; tauto]).
  - exists 0. split; [done|]. split; [cbn; lia|]. intros j Hj. assert (j = 0 \/ j = 1) as [-> | ->] by lia; eexists; by split.
  - exists 0. split; [done|]. split; [cbn; lia|]. intros j Hj. assert (j = 0 \/ j = 1) as [-> | ->] by lia; eexists; by split.
  - exists 1. split; [done|]. split; [cbn; lia|]. intros j Hj. assert (j = 1 \/ j = 2) as [-> | ->] by lia; eexists; by split.
  - exists 0. split; [done|]. split; [cbn; lia|]. intros j Hj. assert (j = 0 \/ j = 1) as [-> | ->] by lia; eexists; by split.
Qed.

Lemma database_scan_is_search_witness :
  exists r0 r, new_root 0 2 3 true = Some r0 /\ add_lines r0 ex_lines = Ok (CL_SUCCESS, r) /\
    forall m s einfo map_len mp mf buffer offset ftype st, cli_ac_buildtrie (m_ac r) m = Ok (CL_SUCCESS, Some s) ->
      is_bytes buffer -> Z.of_nat (length buffer) < 2 ^ 31 -> 0 <= offset -> offset + Z.of_nat (length buffer) < 2 ^ 32 -> results st = None ->
      exists code p, matcher_run (scanner s mp mf ftype st) einfo map_len (m_bm r) buffer (Z.of_nat (length buffer)) offset None = Ok (code, p, None) /\
        ((code = CL_VIRUS /\ exists l k, l ∈ ex_lines /\ line_at 0 buffer offset l k) \/
         (code = CL_CLEAN /\ forall l k, l ∈ ex_lines -> ~ line_at 0 buffer offset l k)).
Proof. apply (database_scan_is_search 0 2 3 true ex_lines); [lia|apply ex_good|vm_compute; reflexivity]. Defined.

(** Building and running for the lines of the example. *)
Definition ex_report (buffer : list Z) : option Z :=
  match new_root 0 2 3 true with
  | Some r0 =>
      match add_lines r0 ex_lines with
      | Ok (_, r) =>
          match cli_ac_buildtrie (m_ac r) [] with
          | Ok (_, Some s) =>
              match matcher_run (scanner s [] None 0 AcProps.ex_scan) None 0 (m_bm r) buffer (Z.of_nat (length buffer)) 0 None with
              | Ok (code, _, _) => Some code
              | _ => None
              end
          | _ => None
          end
      | _ => None
      end
  | None => None
  end.

Example ex_reports :
  ex_report <$> [[0; 97; 98; 99; 100; 101; 102; 0]; [0; 0; 0; 0; 97; 98; 7; 100]; [0; 0; 105; 98; 99; 100; 101; 0]; [0; 0; 0; 105; 98; 99; 100; 101];
    [0; 0; 0; 120; 121; 122]; [0; 0; 0; 0; 120; 121; 122]; [0; 97; 98; 99; 100]; [0; 97; 98; 99; 105]] =
  Some <$> [CL_VIRUS; CL_VIRUS; CL_VIRUS; CL_CLEAN; CL_VIRUS; CL_CLEAN; CL_VIRUS; CL_CLEAN].
Proof. by vm_compute. Qed.

End Database.
