(* ===== verification/LoadDb.v ===== *)
(** * Loading databases of signatures (libclamav/readdb.c)

    [cli_initroots] sets up the matchers of an engine, one per target; [cli_loadndb]
    adds the lines of a database of signatures, and [load_oneldb] and [cli_loadldb]
    those of a database of logical signatures.  The lines are those that [cli_dbgets]
    returns; the engine has no lists of signatures to ignore ([ignored]) and of
    unwanted categories ([pua_cats]). *)
From stdpp Require Import base numbers list list_numbers gmap strings.
From Stdlib Require Import ZArith Lia Bool.
From S2P Require Import Prelude Dlp Filter CalOff Bm BcLoad ApiTables MatcherRun Hashset Ac AcScan LSig AddSig ParseAdd.

Local Open Scope Z_scope.

Module LoadDb.
Import Errors Ctype BcData CalOff Bm MatcherRun Ac AddSig ParseAdd.
Abbreviation name := ApiTables.name.

Definition CLI_MTARGETS : Z := 10.

(** ** The matchers of an engine *)

(** [cli_mtargets]: [ac_only] and [enable_prefiltering]. *)
Definition cli_mtargets : list (bool * bool) :=
  [(false, true); (false, true); (true, false); (true, false); (true, true); (true, false); (true, false); (true, true); (true, false); (true, false)].

(** The attributes of a logical signature. *)
Record tdb := Tdb {
  t_target : option Z; t_engine : option (Z * Z); t_filesize : option (Z * Z); t_ep : option (Z * Z); t_nos : option (Z * Z);
  t_icon1 : option (list Z); t_icon2 : option (list Z); t_container : option Z }.

(** An entry of the table of logical signatures; the attributes, with the number of
    subsignatures and [macro_ptids], are copied to it at the end of its load. *)
Record lentry := LEntry { le_logic : list Z; le_bc : Z; le_tdb : option (tdb * Z * list Z) }.

Record target_root := TRoot { tr_root : mroot; tr_lsigs : list lentry }.
Record cl_engine := Engine { roots : list (option target_root); sdb : bool }.

Definition set_root (e : cl_engine) (i : nat) (r : target_root) : cl_engine := Engine (<[i := Some r]> (roots e)) (sdb e).

(** One matcher; [m] has the outcomes of its allocations.  A matcher that cannot be
    set up is left out: the load ends. *)
Definition init_root (ac_only_ prefiltering : bool) (mindepth maxdepth : Z) (i : nat) (m : list bool) : Z * option target_root :=
  let '(t_only, t_pre) := nth i cli_mtargets (true, false) in
  let '(ok, m) := alloc m in
  if negb ok then (CL_EMEM, None)
  else
    match cli_ac_init mindepth maxdepth m with
    | (code, None) => (code, None)
    | (_, Some a) =>
        let m := drop 2 m in
        let filtering := t_pre && prefiltering in
        let '(ok, m) := if filtering then alloc m else (true, m) in
        if negb ok then (CL_EMEM, None)
        else
          let only := t_only || ac_only_ in
          let '(ok1, m) := if only then (true, m) else alloc m in
          let '(ok2, m) := if only then (true, m) else alloc m in
          match cli_bm_init (Z.of_nat i) false (if filtering then Some Filter.filter_init else None) ok1 ok2 with
          | (code, None) => (code, None)
          | (_, Some b) => (CL_SUCCESS, Some (TRoot (MRoot (Root b 0 only) a [] ∅ 0) []))
          end
    end.

Definition set_offmode (r : target_root) : target_root :=
  let q := tr_root r in
  let b := m_bm q in
  let k := bm b in
  TRoot (MRoot (Root (Matcher (mtype k) (bm_shift k) (bm_suffix k) (bm_pattab k) true (bm_patterns k) (bm_reloff_num k) (bm_absoff_num k) (mfilter k))
    (maxpatlen b) (ac_only b)) (m_ac q) (m_reloff q) (m_names q) (m_partsigs q)) (tr_lsigs r).

Fixpoint init_loop (ac_only_ prefiltering : bool) (mindepth maxdepth : Z) (mems : nat -> list bool) (n i : nat) (e : cl_engine) : Z * cl_engine :=
  match n with
  | O => (CL_SUCCESS, e)
  | S n =>
      match mjoin (roots e !! i) with
      | Some _ => init_loop ac_only_ prefiltering mindepth maxdepth mems n (S i) e
      | None =>
          match init_root ac_only_ prefiltering mindepth maxdepth i (mems i) with
          | (_, Some r) => init_loop ac_only_ prefiltering mindepth maxdepth mems n (S i) (set_root e i r)
          | (code, None) => (code, e)
          end
      end
  end.

Definition cli_initroots (ac_only_ prefiltering : bool) (mindepth maxdepth : Z) (mems : nat -> list bool) (e : cl_engine) : Z * cl_engine :=
  let '(code, e) := init_loop ac_only_ prefiltering mindepth maxdepth mems 10 0 e in
  if negb (code =? CL_SUCCESS) then (code, e)
  else (CL_SUCCESS, match mjoin (roots e !! 1%nat) with Some r => set_root e 1 (set_offmode r) | None => e end).

(** ** Lines *)

(** [cli_strtokenize]: at most [n] tokens; what follows the last one is lost. *)
Fixpoint cli_strtokenize (s : list Z) (delim : Z) (n : nat) : list (list Z) :=
  match n with
  | O => []
  | S n =>
      match strchr delim s with
      | Some (a, b) => a :: cli_strtokenize b delim n
      | None => [s]
      end
  end.

(** The line without line feeds and carriage returns at its end. *)
Definition chomp (s : list Z) : list Z := take (BcLoad.BcLoad.chomped (length s) s) s.

(** ** Databases of signatures *)

Definition phishing_name (s : list Z) : bool := prefixb (name "HTML.Phishing") s || prefixb (name "Email.Phishing") s.

(** [!cli_isnumber(pt)], and [atoi(pt)] as an unsigned int. *)
Definition level (pt : list Z) : option Z := if cli_isnumber pt =? 0 then None else Some (atoi pt).

Section Ndb.
Context (phish official : bool) (mems : nat -> list bool) (oks : nat -> bool).

(** One round of the loop: the code, whether a signature was added, and the engine. *)
Definition ndb_line (e : cl_engine) (buffer : list Z) : res (Z * bool * cl_engine) :=
  if negb phish && phishing_name buffer then Ok (CL_SUCCESS, false, e)
  else
    let tokens := cli_strtokenize (chomp buffer) 58 7 in
    match tokens with
    | virname :: pt :: offset :: sig :: levels =>
        if 2 <? Z.of_nat (length levels) then Ok (CL_EMALFDB, false, e)
        else
          let skip := Ok (CL_SUCCESS, false, e) in
          let bad := Ok (CL_EMALFDB, false, e) in
          let add :=
            if negb (bool_decide (pt = [42])) && (cli_isnumber pt =? 0) then bad
            else
              let target := uint 16 (atoi pt) in
              if CLI_MTARGETS <=? target then skip
              else
                let! r := of_opt (mjoin (roots e !! Z.to_nat target)) in
                let! (code, q) := cli_parse_add mems oks virname sig offset 0 0 None official (tr_root r) in
                let e := set_root e (Z.to_nat target) (TRoot q (tr_lsigs r)) in
                if code =? CL_SUCCESS then Ok (CL_SUCCESS, true, e) else Ok (CL_EMALFDB, false, e) in
          match levels with
          | [] => add
          | mn :: levels =>
              match level mn with
              | None => bad
              | Some mn =>
                  if CL_FLEVEL <? mn then skip
                  else
                    match levels with
                    | mx :: _ =>
                        match level mx with
                        | None => bad
                        | Some mx => if mx <? CL_FLEVEL then skip else add
                        end
                    | [] => add
                    end
              end
          end
    | _ => Ok (CL_EMALFDB, false, e)
    end.
End Ndb.

(** The outcomes of the allocations are given by line and by part. *)
Fixpoint ndb_loop (phish official : bool) (mems : nat -> nat -> list bool) (oks : nat -> nat -> bool) (k : nat) (lines : list (list Z)) (sigs : Z) (e : cl_engine)
    : res (Z * Z * cl_engine) :=
  match lines with
  | [] => Ok (CL_SUCCESS, sigs, e)
  | buffer :: lines =>
      let! (code, added, e) := ndb_line phish official (mems k) (oks k) e buffer in
      if negb (code =? CL_SUCCESS) then Ok (code, sigs, e)
      else ndb_loop phish official mems oks (S k) lines (if added then sigs + 1 else sigs) e
  end.

(** The loop of [cli_loadndb] and what follows it: the code, the signatures added and
    the engine. *)
Definition load_ndb (phish official sdb_ : bool) (mems : nat -> nat -> list bool) (oks : nat -> nat -> bool) (lines : list (list Z)) (e : cl_engine)
    : res (Z * Z * cl_engine) :=
  let! (code, sigs, e) := ndb_loop phish official mems oks 0 lines 0 e in
  if bool_decide (lines = []) then Ok (CL_EMALFDB, 0, e)
  else if negb (code =? CL_SUCCESS) then Ok (code, 0, e)
  else Ok (CL_SUCCESS, sigs, if sdb_ && negb (sigs =? 0) then Engine (roots e) true else e).

(** [cli_loadndb]; [rmems] has the outcomes of the allocations of [cli_initroots]. *)
Definition cli_loadndb (ac_only_ prefiltering : bool) (mindepth maxdepth : Z) (phish official sdb_ : bool)
    (rmems : nat -> list bool) (mems : nat -> nat -> list bool) (oks : nat -> nat -> bool) (lines : list (list Z)) (e : cl_engine)
    : res (Z * Z * cl_engine) :=
  let '(code, e) := cli_initroots ac_only_ prefiltering mindepth maxdepth rmems e in
  if negb (code =? CL_SUCCESS) then Ok (code, 0, e)
  else load_ndb phish official sdb_ mems oks lines e.

(** ** Databases of logical signatures *)

(** [ftmap], and [cli_ftcode]; [None] is CL_TYPE_ERROR. *)
Definition ftmap : list (list Z * Z) :=
  [(name "CL_TYPE_TEXT_ASCII", 500); (name "CL_TYPE_TEXT_UTF8", 501); (name "CL_TYPE_TEXT_UTF16LE", 502);
   (name "CL_TYPE_TEXT_UTF16BE", 503); (name "CL_TYPE_BINARY_DATA", 504); (name "CL_TYPE_IGNORED", 549); (name "CL_TYPE_ANY", 0);
   (name "CL_TYPE_MSEXE", 506); (name "CL_TYPE_ELF", 507); (name "CL_TYPE_MACHO", 508); (name "CL_TYPE_MACHO_UNIBIN", 509);
   (name "CL_TYPE_POSIX_TAR", 510); (name "CL_TYPE_OLD_TAR", 511); (name "CL_TYPE_CPIO_OLD", 512); (name "CL_TYPE_CPIO_ODC", 513);
   (name "CL_TYPE_CPIO_NEWC", 514); (name "CL_TYPE_CPIO_CRC", 515); (name "CL_TYPE_GZ", 516); (name "CL_TYPE_ZIP", 517);
   (name "CL_TYPE_BZ", 518); (name "CL_TYPE_RAR", 519); (name "CL_TYPE_ARJ", 520); (name "CL_TYPE_MSSZDD", 521);
   (name "CL_TYPE_MSOLE2", 522); (name "CL_TYPE_MSCAB", 523); (name "CL_TYPE_MSCHM", 524); (name "CL_TYPE_SIS", 525);
   (name "CL_TYPE_SCRENC", 526); (name "CL_TYPE_GRAPHICS", 527); (name "CL_TYPE_RIFF", 528); (name "CL_TYPE_BINHEX", 529);
   (name "CL_TYPE_TNEF", 530); (name "CL_TYPE_CRYPTFF", 531); (name "CL_TYPE_PDF", 532); (name "CL_TYPE_PS", 533);
   (name "CL_TYPE_UUENCODED", 534); (name "CL_TYPE_HTML_UTF16", 536); (name "CL_TYPE_SCRIPT", 535); (name "CL_TYPE_RTF", 537);
   (name "CL_TYPE_HTML", 539); (name "CL_TYPE_MAIL", 540); (name "CL_TYPE_SFX", 541); (name "CL_TYPE_ZIPSFX", 542);
   (name "CL_TYPE_RARSFX", 543); (name "CL_TYPE_CABSFX", 544); (name "CL_TYPE_ARJSFX", 545); (name "CL_TYPE_NULSFT", 546);
   (name "CL_TYPE_AUTOIT", 547); (name "CL_TYPE_ISHIELD_MSI", 548); (name "CL_TYPE_7Z", 538)].

Definition cli_ftcode (s : list Z) : option Z := list_find (fun x => x.1 = s) ftmap ≫= fun x => Some x.2.2.

(** The names in [attrtab]. *)
Inductive attr := Target | Engine_ | FileSize | EntryPoint | NumberOfSections | IconGroup1 | IconGroup2 | Container.
Definition attrtab : list (list Z * attr) :=
  [(name "Target", Target); (name "Engine", Engine_); (name "FileSize", FileSize); (name "EntryPoint", EntryPoint);
   (name "NumberOfSections", NumberOfSections); (name "IconGroup1", IconGroup1); (name "IconGroup2", IconGroup2); (name "Container", Container)].
Definition attr_of (s : list Z) : option attr := list_find (fun x => x.1 = s) attrtab ≫= fun x => Some x.2.2.

Definition set_range (a : attr) (r : Z * Z) (t : tdb) : tdb :=
  let '(Tdb tg en fs ep_ ns i1 i2 ct) := t in
  match a with
  | Engine_ => Tdb tg (Some r) fs ep_ ns i1 i2 ct
  | FileSize => Tdb tg en (Some r) ep_ ns i1 i2 ct
  | EntryPoint => Tdb tg en fs (Some r) ns i1 i2 ct
  | _ => Tdb tg en fs ep_ (Some r) i1 i2 ct
  end.

(** The value of an attribute.  The code -1 is an error, 1 skips the signature. *)
Definition attr_value (a : attr) (pt : list Z) (t : tdb) : M tdb :=
  let '(Tdb tg en fs ep_ ns i1 i2 ct) := t in
  match a with
  | Target =>
      if cli_isnumber pt =? 0 then fail_with (-1)
      else let^ _ := need_mem (-1) in give (Tdb (Some (atoi pt)) en fs ep_ ns i1 i2 ct)
  | Container =>
      let^ v := need 1 (cli_ftcode pt) in
      let^ _ := need_mem (-1) in give (Tdb tg en fs ep_ ns i1 i2 (Some v))
  | IconGroup1 => let^ _ := need_mem (-1) in give (Tdb tg en fs ep_ ns (Some pt) i2 ct)
  | IconGroup2 => let^ _ := need_mem (-1) in give (Tdb tg en fs ep_ ns i1 (Some pt) ct)
  | _ =>
      let^ (lo, hi) := need (-1) (strchr 45 pt) in
      let^ _ := need_mem (-1) in
      if (cli_isnumber lo =? 0) || (cli_isnumber hi =? 0) then fail_with (-1)
      else give (set_range a (atoi lo, atoi hi) t)
  end.

Fixpoint attr_loop (l : list (list Z)) (first newext : bool) (t : tdb) : M (tdb * bool) :=
  match l with
  | [] => give (t, newext)
  | tok :: l =>
      let^ (nm, pt) := need (-1) (strchr 58 tok) in
      let^ a := need 1 (attr_of nm) in
      let engine := bool_decide (nm = name "Engine") in
      if engine && negb first then fail_with (-1)
      else
        let newext := newext || negb (engine || bool_decide (nm = name "Target")) in
        let^ t := attr_value a pt t in
        attr_loop l false newext t
  end.

Definition lsigattribs (attribs : list Z) : M tdb :=
  let^ (t, newext) := attr_loop (cli_strtokenize attribs 44 8) true false (Tdb None None None None None None None None) in
  if newext && (match t_engine t with None => true | Some (lo, _) => lo <? 51 end) then fail_with (-1)
  else give t.

Section Ldb.
Context (official : bool) (mems : nat -> list bool) (oks : nat -> nat -> bool) (mems_sub : nat -> nat -> list bool).

(** The loop over the subsignatures, the [i]-th first: the code, whether the
    signature is kept, [macro_ptids] and the matcher. *)
Fixpoint sub_loop (virname : list Z) (t : tdb) (id : Z) (toks : list (list Z)) (i : nat) (macros : list Z) (q : mroot) : res (Z * bool * list Z * mroot) :=
  match toks with
  | [] => Ok (CL_SUCCESS, true, macros, q)
  | tok :: toks =>
      let '(offset, sig) := match strchr 58 tok with Some (a, b) => (a, b) | None => ([42], tok) end in
      let! (code, q) := cli_parse_add (mems_sub i) (oks i) virname sig offset 0 0 (Some (id, Z.of_nat i)) official q in
      if negb (code =? CL_SUCCESS) then Ok (code, false, macros, q)
      else
        let '(ok, _) := alloc (mems 1%nat) in
        let is_macro := bool_decide (head sig = Some 36) && negb (i =? 0)%nat in
        if is_macro && bool_decide (macros = []) && negb ok then Ok (CL_EMEM, false, macros, q)
        else
          let macros := if is_macro then <[(i - 1)%nat := Z.of_nat (length (cells (m_ac q))) - 1]> (if bool_decide (macros = []) then replicate (S (i + length toks)) 0 else macros)
                        else macros in
          match t_engine t with
          | Some (lo, hi) => if (CL_FLEVEL <? lo) || (hi <? CL_FLEVEL) then Ok (CL_SUCCESS, false, macros, q) else sub_loop virname t id toks (S i) macros q
          | None => sub_loop virname t id toks (S i) macros q
          end
  end.

(** [load_oneldb]; [line] is 0 for the signature of a program.  The result has the
    code, what is subtracted from the number of signatures, and the engine. *)
Definition load_oneldb (line bc : Z) (buffer : list Z) (e : cl_engine) : res (Z * Z * cl_engine) :=
  let bad := Ok (CL_EMALFDB, 0, e) in
  match cli_strtokenize buffer 59 68 with
  | virname :: attribs :: logic :: sub :: subs =>
      let! (n, _, _) := LSig.chklsig logic None in
      if n =? -1 then bad
      else if 64 <? n + 1 then bad
      else
        let count := Z.of_nat (S (length subs)) in
        if (if line =? 0 then count <? n + 1 else negb (n + 1 =? count)) then bad
        else
          let! (r, m) := lsigattribs attribs (mems 0%nat) in
          match r with
          | inl code => if code =? 1 then Ok (CL_SUCCESS, 1, e) else bad
          | inr t =>
              match t_target t with
              | None => bad
              | Some target =>
                  let pe := negb (target =? 1) in
                  let exe := pe && negb (target =? 6) && negb (target =? 9) in
                  if CLI_MTARGETS <=? target then Ok (CL_SUCCESS, 1, e)
                  else if (bool_decide (is_Some (t_icon1 t)) || bool_decide (is_Some (t_icon2 t))) && pe then bad
                  else if (bool_decide (is_Some (t_ep t)) || bool_decide (is_Some (t_nos t))) && exe then bad
                  else
                    let! tr := of_opt (mjoin (roots e !! Z.to_nat target)) in
                    let! (r, m) := (let^ _ := need_mem CL_EMEM in let^ _ := need_mem CL_EMEM in need_mem CL_EMEM) m in
                    match r with
                    | inl code => Ok (code, 0, e)
                    | inr _ =>
                        let id := length (tr_lsigs tr) in
                        let! (code, kept, macros, q) := sub_loop virname t (Z.of_nat id) (sub :: subs) 0 [] (tr_root tr) in
                        let entry := LEntry logic bc (if kept then Some (t, count, macros) else None) in
                        let e := set_root e (Z.to_nat target) (TRoot q (tr_lsigs tr ++ [entry])) in
                        Ok (code, if (code =? CL_SUCCESS) && negb kept then 1 else 0, e)
                    end
              end
          end
  | _ => bad
  end.
End Ldb.

(** [cli_loadldb] behind [cli_initroots]: lines are numbered from 1. *)
Fixpoint ldb_loop (official : bool) (mems : nat -> nat -> list bool) (oks : nat -> nat -> nat -> bool) (mems_sub : nat -> nat -> nat -> list bool)
    (k : nat) (lines : list (list Z)) (sigs : Z) (e : cl_engine) : res (Z * Z * cl_engine) :=
  match lines with
  | [] => Ok (CL_SUCCESS, sigs, e)
  | buffer :: lines =>
      let! (code, less, e) := load_oneldb official (mems k) (oks k) (mems_sub k) (Z.of_nat (S k)) 0 (chomp buffer) e in
      let sigs := sigs + 1 - less in
      if negb (code =? CL_SUCCESS) then Ok (code, sigs, e)
      else ldb_loop official mems oks mems_sub (S k) lines sigs e
  end.

Definition load_ldb (official : bool) (mems : nat -> nat -> list bool) (oks : nat -> nat -> nat -> bool) (mems_sub : nat -> nat -> nat -> list bool)
    (lines : list (list Z)) (e : cl_engine) : res (Z * Z * cl_engine) :=
  let! (code, sigs, e) := ldb_loop official mems oks mems_sub 0 lines 0 e in
  if bool_decide (lines = []) then Ok (CL_EMALFDB, 0, e)
  else if negb (code =? CL_SUCCESS) then Ok (code, 0, e)
  else Ok (CL_SUCCESS, sigs, e).

(** The table entry as [cli_lsig_eval] reads it: the attributes of a signature that
    was not kept are zero. *)
Definition eval_entry (l : lentry) : LSig.lsig :=
  match le_tdb l with
  | Some (t, n, _) =>
      LSig.Lsig (le_logic l) (Z.to_nat n) (t_container t) (t_filesize t) (t_ep t) (t_nos t)
        (bool_decide (is_Some (t_icon1 t)) || bool_decide (is_Some (t_icon2 t))) (le_bc l)
  | None => LSig.Lsig (le_logic l) 0 None None None None false (le_bc l)
  end.

End LoadDb.
