(* ===== verification/LoadDbProps.v ===== *)
(** * What loading a database does

    The lines of a database of signatures reach the matcher of their target; examples of
    databases, and of logical signatures. *)
From stdpp Require Import base numbers list list_numbers gmap strings.
From Stdlib Require Import ZArith Lia Bool.
From S2P Require Import Prelude Dlp Filter CalOff Bm BmFacts MatcherRun MatcherFacts Hashset Ac AcMatch AcScan AcWords AcBfs AcChain AcBuild AcTrans AcAdd AcSearch AcProps LSig AddSig AddSigFacts AddSigCut AddSigProps ParseAdd Database LoadDb.

Local Open Scope Z_scope.

Module LoadDbProps.
Import Errors Ctype CalOff Bm BmFacts MatcherRun MatcherFacts.
Import Ac AcMatch AcScan AcAdd AcSearch AcProps AddSig AddSigFacts AddSigCut AddSigProps ParseAdd Database LoadDb.

(** ** Examples of logical signatures *)
Definition no_mem : nat -> list bool := fun _ => [].
Definition ex_engine : cl_engine := (cli_initroots false true 2 3 no_mem (Engine (replicate 10 None) false)).2.

(** The code and the count of a load, and the code of a scan of the buffer with the
    generic matcher followed by the evaluation of its logical signatures. *)
Definition ex_ldb (lines : list (list Z)) (buffer : list Z) : option (Z * Z * Z) :=
  match load_ldb true (fun _ => no_mem) (fun _ _ _ => true) (fun _ _ _ => []) lines ex_engine with
  | Ok (code, sigs, e) =>
      match mjoin (roots e !! 0%nat) with
      | Some tr =>
          match cli_ac_buildtrie (m_ac (tr_root tr)) [], cli_ac_initdata 0 (Z.of_nat (length (tr_lsigs tr))) 0 [] [] with
          | Ok (_, Some s), (_, Some d) =>
              match cli_ac_scanbuff s [] None buffer (Z.of_nat (length buffer)) 0 0 AC_SCAN_VIR (Scan d 0 None None []) with
              | Ok (_, _, st) =>
                  match LSig.cli_lsig_eval s 0 [] 0 (Z.of_nat (length buffer)) None (fun _ => 0) (fun _ _ => 0) (eval_entry <$> tr_lsigs tr) (md st) with
                  | Ok (ret, _, _) => Some (code, sigs, ret)
                  | _ => None
                  end
              | _ => None
              end
          | _, _ => None
          end
      | None => None
      end
  | _ => None
  end.

Example ex_ldb_runs :
  ex_ldb [name "A;Target:0;0&1;61626364;6566??67"] [97; 98; 99; 100; 101; 102; 0; 103] = Some (CL_SUCCESS, 1, CL_VIRUS) /\
  ex_ldb [name "A;Target:0;0&1;61626364;6566??67"] [97; 98; 99; 100; 101; 102; 0; 104] = Some (CL_SUCCESS, 1, CL_CLEAN) /\
  ex_ldb [name "A;Engine:51-255,FileSize:0-5,Target:0;0&1;61626364;6566??67"] [97; 98; 99; 100; 101; 102; 0; 103] = Some (CL_SUCCESS, 1, CL_CLEAN).
Proof. repeat split; by vm_compute. Qed.

(** A signature that asks for a newer engine is counted as not loaded, but it stays in
    the table with its first subsignature and without its attributes: it is reported,
    although it is for files of another size, too. *)
Lemma newer_lsig_fires :
  ex_ldb [name "A;Engine:99-255,FileSize:1000-2000,Target:0;0|1;61626364;65666768"] [97; 98; 99; 100] = Some (CL_SUCCESS, 0, CL_VIRUS).
Proof. by vm_compute. Qed.

(** ** Files of signatures *)

(** The line of a file for a line [l] of the target [t]: name, target, offset and text. *)
Definition ndb_text (x : Z * line) : list Z :=
  let '(t, l) := x in l_name l ++ 58 :: [48 + t] ++ 58 :: l_offset l ++ 58 :: print_chars (l_chars l).

(** A line for a target other than PE files, whose matcher works by offsets; the name
    and the offset have no colons, and phishing signatures are asked for. *)
Record ndb_ok (mindepth : Z) (phish : bool) (x : Z * line) : Prop := {
  no_target : 0 <= x.1 < CLI_MTARGETS /\ x.1 <> 1;
  no_good : good_line x.1 mindepth x.2;
  no_name : ~ (58 ∈ l_name x.2);
  no_offset : ~ (58 ∈ l_offset x.2);
  no_phish : phish = true \/ phishing_name (ndb_text x) = false }.

(** The lines of a target. *)
Definition lines_of (t : Z) (file : list (Z * line)) : list line := (filter (fun x => x.1 = t) file).*2.

Definition empty_engine : cl_engine := Engine (replicate 10 None) false.

(** Every matcher but that of PE files holds the lines of its target; there are no
    logical signatures. *)
Definition loaded_engine (mindepth maxdepth : Z) (e : cl_engine) (file : list (Z * line)) : Prop :=
  length (roots e) = 10%nat /\
  (exists tr, roots e !! 1%nat = Some (Some tr) /\ loaded mindepth maxdepth [] (m_ac (tr_root tr))) /\
  forall t, 0 <= t < CLI_MTARGETS -> t <> 1 ->
    exists tr ss ps, roots e !! Z.to_nat t = Some (Some tr) /\ tr_lsigs tr = [] /\ engine t mindepth maxdepth (tr_root tr) ss ps (lines_of t file).

Lemma fresh_engine t mindepth maxdepth only f : (forall f0, f = Some f0 -> Filter.tab_ok f0) ->
  engine t mindepth maxdepth (MRoot (Root (Matcher t ∅ ∅ [] false 0 0 0 f) 0 only) (MkAc [Node None (Some ∅) None] [] mindepth maxdepth) [] ∅ 0) [] [] [].
Proof.
  intros Hf. split; cbn [m_bm m_ac bm mtype ac_only maxpatlen]; try done; try (by constructor); try (by right).
  - split; cbn; try done. by apply holds_init.
  - by apply (loaded_init _ _ []).
  - cbn. intros f0 E. split; [by apply Hf|constructor].
Qed.

Lemma init_engine prefiltering mindepth maxdepth :
  exists e, cli_initroots false prefiltering mindepth maxdepth no_mem empty_engine = (CL_SUCCESS, e) /\ loaded_engine mindepth maxdepth e [].
Proof.
  destruct prefiltering; (eexists; split; [reflexivity|]; split; [done|]; split; [eexists; split; [reflexivity|by apply (loaded_init _ _ [])]|]).
  all: intros t Ht Ht1; unfold CLI_MTARGETS in Ht.
  all: assert (t ∈ [0; 2; 3; 4; 5; 6; 7; 8; 9]) as Hin by (rewrite !elem_of_cons; lia).
  all: rewrite !elem_of_cons in Hin; repeat (destruct Hin as [-> |Hin]; [eexists _, [], []; split; [reflexivity|split; [reflexivity|apply fresh_engine]]|]).
  all: try (by apply elem_of_nil in Hin). all: intros f0 E; try done; injection E as <-; apply Filter.init_ok.
Qed.

(** ** A line of the file *)
Lemma strtokenize_app a b delim n : ~ (delim ∈ a) -> cli_strtokenize (a ++ delim :: b) delim (S n) = a :: cli_strtokenize b delim n.
Proof. intros H. cbn [cli_strtokenize]. by rewrite strchr_app. Qed.

Lemma chomp_text t x : text_ok x -> x <> [] -> chomp (t ++ print_chars x) = t ++ print_chars x.
Proof.
  intros Hx Hne. unfold chomp. set (s := t ++ print_chars x). destruct (last (print_chars x)) as [c|] eqn:E.
  2: { apply last_None in E. destruct (print_nil x (text_readable x Hx)) as [H _]. by apply H in E. }
  apply last_Some in E as [l E]. assert (hexish c = true) as Hc.
  { pose proof (text_hexish x Hx) as HF. rewrite E in HF. apply Forall_app in HF as [_ HF]. by apply Forall_cons in HF as [Hc _]. }
  assert (s = (t ++ l) ++ [c]) as Es by (unfold s; by rewrite E, app_assoc). clearbody s. subst s.
  rewrite length_app, Nat.add_comm. cbn [length Nat.add BcLoad.BcLoad.chomped]. rewrite lookup_app_r, Nat.sub_diag by done. cbn [lookup list_lookup].
  destruct (Z.eqb_spec c 10) as [-> |]; [done|]. destruct (Z.eqb_spec c 13) as [-> |]; [done|]. cbn [orb].
  rewrite take_ge; [done|]. rewrite length_app. cbn. lia.
Qed.

Lemma target_digit t : 0 <= t < 10 -> cli_isnumber [48 + t] = 1 /\ uint 16 (atoi [48 + t]) = t /\ [48 + t] <> [42] /\ ~ (58 ∈ [48 + t]).
Proof.
  intros Ht. pose (P t := (cli_isnumber [48 + t] =? 1) && (uint 16 (atoi [48 + t]) =? t)).
  assert (P t = true) as HP by (apply (check_codes P 10); [by vm_compute|done]). unfold P in HP. apply andb_true_iff in HP as [H1%Z.eqb_eq H2%Z.eqb_eq].
  split; [done|]. split; [done|]. split; [intros [= E]; lia|]. intros H%list_elem_of_singleton. lia.
Qed.

Lemma ndb_line_text mindepth phish x e tr : ndb_ok mindepth phish x -> roots e !! Z.to_nat x.1 = Some (Some tr) ->
  ndb_line phish true no_mem (fun _ => true) e (ndb_text x) =
    let! (code, q) := add_line (tr_root tr) x.2 in
    let e := set_root e (Z.to_nat x.1) (TRoot q (tr_lsigs tr)) in
    if code =? CL_SUCCESS then Ok (CL_SUCCESS, true, e) else Ok (CL_EMALFDB, false, e).
Proof.
  destruct x as [t l]. intros [[Ht Hne] [Gok Glen _ _ _ _] Hn Ho Hp] He. cbn [fst snd] in *. unfold CLI_MTARGETS in Ht.
  destruct (target_digit t Ht) as (D1 & D2 & D3 & D4). unfold ndb_line.
  assert (negb phish && phishing_name (ndb_text (t, l)) = false) as -> by (destruct Hp as [-> | ->]; [done|by rewrite andb_false_r]).
  assert (l_chars l <> []) as Hc by (intros E; rewrite E in Glen; cbn in Glen; lia).
  assert (chomp (ndb_text (t, l)) = ndb_text (t, l)) as ->.
  { unfold ndb_text. assert (l_name l ++ 58 :: [48 + t] ++ 58 :: l_offset l ++ 58 :: print_chars (l_chars l) =
      (l_name l ++ 58 :: [48 + t] ++ 58 :: l_offset l ++ [58]) ++ print_chars (l_chars l)) as -> by (rewrite <- !app_assoc; cbn; by rewrite <- !app_assoc).
    by apply chomp_text. }
  assert (cli_strtokenize (ndb_text (t, l)) 58 7 = [l_name l; [48 + t]; l_offset l; print_chars (l_chars l)]) as ->.
  { unfold ndb_text. rewrite strtokenize_app by done. rewrite strtokenize_app by done. rewrite strtokenize_app by done. cbn [cli_strtokenize].
    rewrite strchr_none; [done|by apply print_no]. }
  cbn [length]. change (2 <? Z.of_nat 0) with false. cbv iota zeta. rewrite (bool_decide_eq_false_2 _ D3), D1. cbn [negb andb Z.eqb Pos.eqb].
  change (1 =? 0) with false. cbv iota. rewrite D2. unfold CLI_MTARGETS. destruct (Z.leb_spec 10 t); [lia|]. rewrite He. done.
Qed.

(** ** The file *)
Lemma lines_of_snoc t file x : lines_of t (file ++ [x]) = lines_of t file ++ (if decide (x.1 = t) then [x.2] else []).
Proof.
  unfold lines_of. rewrite filter_app, fmap_app. f_equal. destruct (decide (x.1 = t)); [by rewrite filter_cons_True|by rewrite filter_cons_False].
Qed.

Lemma lines_of_length t file : (length (lines_of t file) <= length file)%nat.
Proof. unfold lines_of. rewrite length_fmap. apply length_filter. Qed.

Lemma loaded_step mindepth maxdepth e file x tr ss ps q : loaded_engine mindepth maxdepth e file -> 0 <= x.1 < CLI_MTARGETS -> x.1 <> 1 -> tr_lsigs tr = [] ->
  engine x.1 mindepth maxdepth q ss ps (lines_of x.1 file ++ [x.2]) ->
  loaded_engine mindepth maxdepth (set_root e (Z.to_nat x.1) (TRoot q (tr_lsigs tr))) (file ++ [x]).
Proof.
  intros [Hl [(tr1 & Hr1 & Hl1) He]] Hx Hx1 Htl Hq. unfold CLI_MTARGETS in *. split; [by rewrite <- Hl; apply length_insert|]. split.
  { exists tr1. split; [|done]. cbn [set_root roots]. rewrite list_lookup_insert_ne by lia. done. }
  intros t Ht Ht1.
  rewrite lines_of_snoc. cbn [set_root roots]. destruct (decide (x.1 = t)) as [<-|Hne].
  - exists (TRoot q (tr_lsigs tr)), ss, ps. split; [apply list_lookup_insert_eq; lia|by split].
  - rewrite app_nil_r, list_lookup_insert_ne by (unfold CLI_MTARGETS in Ht; lia). by apply He.
Qed.

Lemma ndb_loop_engine mindepth maxdepth phish : 1 <= mindepth <= maxdepth -> forall file k sigs e file0,
  loaded_engine mindepth maxdepth e file0 -> Forall (ndb_ok mindepth phish) file -> Z.of_nat (length (file0 ++ file)) < 2 ^ 16 ->
  exists e', ndb_loop phish true (fun _ => no_mem) (fun _ _ => true) k (ndb_text <$> file) sigs e = Ok (CL_SUCCESS, sigs + Z.of_nat (length file), e') /\
    loaded_engine mindepth maxdepth e' (file0 ++ file).
Proof.
  intros Hd. induction file as [|x file IH]; intros k sigs e file0 He HF Hn; cbn [fmap list_fmap ndb_loop].
  { exists e. rewrite app_nil_r, Z.add_0_r. done. }
  apply Forall_cons in HF as [Hx HF]. rewrite length_app in Hn. cbn [length] in Hn. pose proof Hx as [[Ht Ht1] Hg _ _ _].
  pose proof He as (_ & _ & Hroots). destruct (Hroots x.1 Ht Ht1) as (tr & ss & ps & Hr & Htl & Heng).
  rewrite (ndb_line_text mindepth phish x e tr Hx Hr). pose proof (lines_of_length x.1 file0).
  destruct (add_line_engine _ _ _ _ _ _ _ _ Hd Hg Heng ltac:(lia)) as (q & ss' & ps' & -> & Hq). cbn [Z.eqb CL_SUCCESS negb].
  destruct (IH (S k) (sigs + 1) (set_root e (Z.to_nat x.1) (TRoot q (tr_lsigs tr))) (file0 ++ [x])) as (e' & E & He').
  - by apply (loaded_step mindepth maxdepth e file0 x tr ss' ps' q).
  - done.
  - rewrite !length_app. cbn [length]. lia.
  - exists e'. rewrite E. rewrite <- app_assoc in He'. split; [|done].
    cbn [length]. do 3 f_equal. lia.
Qed.

(** A whole file, into a new engine. *)
Lemma load_file mindepth maxdepth prefiltering phish file : 1 <= mindepth <= maxdepth -> Forall (ndb_ok mindepth phish) file -> file <> [] ->
  Z.of_nat (length file) < 2 ^ 16 ->
  exists e, cli_loadndb false prefiltering mindepth maxdepth phish true false no_mem (fun _ => no_mem) (fun _ _ => true) (ndb_text <$> file) empty_engine =
    Ok (CL_SUCCESS, Z.of_nat (length file), e) /\ loaded_engine mindepth maxdepth e file.
Proof.
  intros Hd HF Hne Hn. destruct (init_engine prefiltering mindepth maxdepth) as (e0 & E0 & He0). unfold cli_loadndb. rewrite E0. cbn [Z.eqb CL_SUCCESS negb].
  destruct (ndb_loop_engine mindepth maxdepth phish Hd file 0 0 e0 [] He0 HF Hn) as (e & E & He). unfold load_ndb. rewrite E.
  rewrite bool_decide_eq_false_2 by (by destruct file). cbn [Z.eqb CL_SUCCESS negb andb]. exists e. by rewrite Z.add_0_l.
Qed.

Lemma lines_of_elem t l file : l ∈ lines_of t file <-> (t, l) ∈ file.
Proof.
  unfold lines_of. rewrite list_elem_of_fmap. split.
  - intros ([t' l'] & -> & [Et Hl]%list_elem_of_filter). cbn in *. by subst t'.
  - intros Hl. exists (t, l). split; [done|]. by apply list_elem_of_filter.
Qed.

Lemma lines_good mindepth phish t file : Forall (ndb_ok mindepth phish) file -> Forall (good_line t mindepth) (lines_of t file).
Proof. rewrite !Forall_forall. intros HF l Hl%lines_of_elem. apply (no_good _ _ _ (HF _ Hl)). Qed.

(** From the file of a database to what is reported.  An engine is set up and a
    file of signatures is loaded into it: lines with name, target, offset and text,
    with nibbles and ignored bytes or without, for any targets but PE files.  All
    lines are added.  Then, for each of these targets, a run of the matchers over a
    buffer ends without an access outside the tables or the buffer, and reports a
    virus if and only if a line of the file for that target stands in the buffer at
    an offset it allows. *)
Theorem ndb_file_is_searched (mindepth maxdepth : Z) (prefiltering phish : bool) (file : list (Z * line)) :
  1 <= mindepth <= maxdepth -> Forall (ndb_ok mindepth phish) file -> file <> [] -> Z.of_nat (length file) < 2 ^ 16 ->
  exists e, cli_loadndb false prefiltering mindepth maxdepth phish true false no_mem (fun _ => no_mem) (fun _ _ => true) (ndb_text <$> file) empty_engine =
      Ok (CL_SUCCESS, Z.of_nat (length file), e) /\
    forall t, 0 <= t < CLI_MTARGETS -> t <> 1 -> exists tr, roots e !! Z.to_nat t = Some (Some tr) /\
      forall m s einfo map_len mp mf buffer offset ftype st, cli_ac_buildtrie (m_ac (tr_root tr)) m = Ok (CL_SUCCESS, Some s) ->
        is_bytes buffer -> Z.of_nat (length buffer) < 2 ^ 31 -> 0 <= offset -> offset + Z.of_nat (length buffer) < 2 ^ 32 -> results st = None ->
        exists code p, matcher_run (scanner s mp mf ftype st) einfo map_len (m_bm (tr_root tr)) buffer (Z.of_nat (length buffer)) offset None = Ok (code, p, None) /\
          ((code = CL_VIRUS /\ exists l k, (t, l) ∈ file /\ line_at t buffer offset l k) \/
           (code = CL_CLEAN /\ forall l k, (t, l) ∈ file -> ~ line_at t buffer offset l k)).
Proof.
  intros Hd HF Hne Hn. destruct (load_file mindepth maxdepth prefiltering phish file Hd HF Hne Hn) as (e & E & _ & _ & He). exists e. split; [done|].
  intros t Ht Ht1. destruct (He t Ht Ht1) as (tr & ss & ps & Hr & _ & Heng). exists tr. split; [done|].
  pose proof (lines_good mindepth phish t file HF) as Hg.
  intros m s einfo map_len mp mf buffer offset ftype st Hb Hby Hl Ho Hol Hst.
  destruct (engine_run t mindepth maxdepth (tr_root tr) ss ps (lines_of t file) Hd Heng Hg m s Hb einfo map_len mp mf buffer offset ftype st Hby Hl Ho Hol Hst)
    as (code & p & Er & H). exists code, p. split; [done|].
  destruct H as [(-> & l & k & Hl' & Hk)|[-> H]]; [left|right]; (split; [done|]).
  - exists l, k. split; [by apply lines_of_elem|done].
  - intros l k Hl'. apply H. by apply lines_of_elem.
Qed.

(** ** Examples of files *)

(** The lines of [ex_lines] for any file, and one of them for HTML files. *)
Definition ex_file : list (Z * line) := ((fun l => (0, l)) <$> ex_lines) ++ [(3, Line [69] [97; 98; 0x100; 100] [42])].

Lemma ex_file_ok : Forall (ndb_ok 2 true) ex_file.
Proof.
  apply Forall_app. split.
  - pose proof ex_good as HG. rewrite Forall_forall in HG. apply Forall_fmap, Forall_forall. intros l Hl. specialize (HG l Hl).
    split; cbn; [unfold CLI_MTARGETS; lia|done| | |by left]; unfold ex_lines in Hl; rewrite !elem_of_cons, elem_of_nil in Hl;
      destruct Hl as [-> |[-> |[-> |[-> |[]]]]]; cbn; rewrite ?elem_of_cons, ?elem_of_nil; lia.
  - constructor; [|constructor]. split; cbn [fst snd l_name l_offset]; [unfold CLI_MTARGETS; lia| | | |by left];
      [|rewrite elem_of_cons, elem_of_nil; lia..].
    split; [by apply text_okb|cbn; lia| |done|by vm_compute|vm_compute; tauto].
    exists 0. split; [done|]. split; [cbn; lia|]. intros j Hj. assert (j = 0 \/ j = 1) as [-> | ->] by lia; eexists; by split.
Qed.

Lemma ndb_file_is_searched_witness :
  exists e, cli_loadndb false true 2 3 true true false no_mem (fun _ => no_mem) (fun _ _ => true) (ndb_text <$> ex_file) empty_engine =
      Ok (CL_SUCCESS, Z.of_nat (length ex_file), e) /\
    forall t, 0 <= t < CLI_MTARGETS -> t <> 1 -> exists tr, roots e !! Z.to_nat t = Some (Some tr) /\
      forall m s einfo map_len mp mf buffer offset ftype st, cli_ac_buildtrie (m_ac (tr_root tr)) m = Ok (CL_SUCCESS, Some s) ->
        is_bytes buffer -> Z.of_nat (length buffer) < 2 ^ 31 -> 0 <= offset -> offset + Z.of_nat (length buffer) < 2 ^ 32 -> results st = None ->
        exists code p, matcher_run (scanner s mp mf ftype st) einfo map_len (m_bm (tr_root tr)) buffer (Z.of_nat (length buffer)) offset None = Ok (code, p, None) /\
          ((code = CL_VIRUS /\ exists l k, (t, l) ∈ ex_file /\ line_at t buffer offset l k) \/
           (code = CL_CLEAN /\ forall l k, (t, l) ∈ ex_file -> ~ line_at t buffer offset l k)).
Proof. apply (ndb_file_is_searched 2 3 true true ex_file); [lia|apply ex_file_ok|discriminate|vm_compute; reflexivity]. Defined.

(** A file as text: a comment on phishing that is left out, a signature that asks for
    a newer engine, one for a target that does not exist, and two that are added. *)
Example ex_ndb_load :
  (match cli_loadndb false true 2 3 false true false no_mem (fun _ => no_mem) (fun _ _ => true)
     [name "HTML.Phishing.A:3:*:61626364"; name "B:0:*:61626364:99"; name "C:12:*:61626364"; name "D:0:*:61626364:51:60"; name "E:3:10,5:61??6263"] empty_engine with
   | Ok (code, sigs, e) => Some (code, sigs, (fun r => match r with Some tr => length (cells (m_ac (tr_root tr))) | None => O end) <$> roots e)
   | _ => None
   end) = Some (CL_SUCCESS, 2, [0; 0; 0; 1; 0; 0; 0; 0; 0; 0]%nat).
Proof. by vm_compute. Qed.

End LoadDbProps.
