(* ===== verification/ScanFile.v ===== *)
(** * Scanning buffers and files with an engine (libclamav/matcher.c)

    [cl_engine_compile] builds the automata of the matchers; [cli_scanbuff] scans a
    buffer, and [cli_fmap_scandesc] a file in overlapping windows, with the matcher for
    the type of the file and the generic one.  What the Aho-Corasick matcher remembers
    between windows, the list of types found and the offset table of the Boyer-Moore
    matcher are passed on; at the end the logical signatures are evaluated and the hash
    of the file is looked up.  Parameters are the headers of the file, the hash
    function, the match of icons, the bytecode of a logical signature and the answers of
    the progress callback. *)
From stdpp Require Import base numbers list list_numbers gmap.
From Stdlib Require Import ZArith Lia Bool.
From S2P Require Import Prelude Filter CalOff Bm BmOffset MatcherRun Hashset Ac AcScan LSig AddSig ParseAdd LoadDb.

Local Open Scope Z_scope.

Module ScanFile.
Import Errors CalOff Bm BmOffset MatcherRun Ac AcScan ParseAdd LoadDb.

Definition CLI_DEFAULT_BM_OFFMODE_FSIZE : Z := 262144.

(** [target] of [cli_mtargets], and the matcher for a type; CL_TYPE_ANY has none. *)
Definition mtarget_types : list Z := [0; 506; 522; 539; 540; 527; 507; 500; 505; 508].
Definition target_of (ftype : Z) : option nat :=
  if ftype =? 0 then None else list_find (fun t => t = ftype) (drop 1 mtarget_types) ≫= fun x => Some (S x.1).

Definition root_of (e : cl_engine) (i : option nat) : option target_root := i ≫= fun i => mjoin (roots e !! i).

(** ** [cl_engine_compile]: the loop over the matchers *)
Definition set_ac (r : target_root) (a : ac) : target_root :=
  let q := tr_root r in TRoot (MRoot (m_bm q) a (m_reloff q) (m_names q) (m_partsigs q)) (tr_lsigs r).

Fixpoint compile_roots (mems : nat -> list bool) (i : nat) (l : list (option target_root)) : res (Z * list (option target_root)) :=
  match l with
  | [] => Ok (CL_SUCCESS, [])
  | None :: l => let! (code, l) := compile_roots mems (S i) l in Ok (code, None :: l)
  | Some r :: l =>
      let! (code, a) := cli_ac_buildtrie (m_ac (tr_root r)) (mems i) in
      match a with
      | None => Ok (code, Some r :: l)
      | Some a => let! (code, l) := compile_roots mems (S i) l in Ok (code, Some (set_ac r a) :: l)
      end
  end.

Definition cl_engine_compile (mems : nat -> list bool) (e : cl_engine) : res (Z * cl_engine) :=
  let! (code, l) := compile_roots mems 0 (roots e) in Ok (code, Engine l (sdb e)).

(** ** The data of the Aho-Corasick matcher *)
Definition set_rel (d : acdata) (l : list Z) : acdata :=
  AcData (offmatrix d) (lsigcnt d) (lsigsuboff d) l (macro_lastmatch d) (vinfo d).

(** [cli_ac_caloff]: the offsets of the patterns in [ac_reloff], whose [offset_min] and
    [offset_max] are their places in the table.  [map] is the length of the file, if there
    is one. *)
Fixpoint caloff_loop (einfo : option exeinfo) (map : option Z) (type_ : Z) (a : ac) (l : list (option nat)) (info : target_info) (d : acdata) : res (Z * acdata) :=
  match l with
  | [] => Ok (CL_SUCCESS, d)
  | id :: l =>
      let! id := of_opt id in
      let! c := of_opt (cells a !! id) in
      let p := patt c in
      match map with
      | None => let! o := of_opt (bset (rel_offset d) (Ac.offset_min p) CLI_OFF_NONE) in caloff_loop einfo map type_ a l info (set_rel d o)
      | Some len =>
          let! mn := of_opt (bget (rel_offset d) (Ac.offset_min p)) in
          let! mx := of_opt (bget (rel_offset d) (Ac.offset_max p)) in
          let! (code, info, mn, mx) := of_opt (cli_caloff einfo len type_ info (Ac.off_data p) true mn mx) in
          let! o := of_opt (bset (rel_offset d) (Ac.offset_min p) mn) in
          let! o := of_opt (bset o (Ac.offset_max p) mx) in
          if negb (code =? CL_SUCCESS) then Ok (code, set_rel d o)
          else
            let! o := (if negb (mn =? CLI_OFF_NONE) && (fsize info <? uint 32 (mn + length_ p)) then of_opt (bset o (Ac.offset_min p) CLI_OFF_NONE) else Ok o) in
            caloff_loop einfo map type_ a l info (set_rel d o)
      end
  end.

Definition cli_ac_caloff (einfo : option exeinfo) (map : option Z) (q : mroot) (d : acdata) : res (Z * acdata) :=
  caloff_loop einfo map (mtype (bm (m_bm q))) (m_ac q) (m_reloff q) (TargetInfo (default 0 map) (ExeInfo [] 0 0) 0) d.

Definition initdata (r : target_root) (junk : list Z) (m : list bool) : Z * option acdata :=
  let q := tr_root r in cli_ac_initdata (m_partsigs q) (Z.of_nat (length (tr_lsigs r))) (Z.of_nat (length (m_reloff q))) junk m.

(** [tdb.macro_ptids] of the logical signatures. *)
Definition macro_table (r : target_root) : list (option (list Z)) :=
  (fun l => match le_tdb l with Some (_, _, (_ :: _) as ids) => Some ids | _ => None end) <$> tr_lsigs r.

(** ** One matcher *)

(** What is reported: a signature of the Boyer-Moore matcher, a pattern of the
    Aho-Corasick matcher, a logical signature (its bytecode reports a name of its own),
    or a hash. *)
Inductive report := RNone | RBm (p : option Bm.patt) | RAc (id : option nat) | RLsig (i : option nat) | RHash (p : option Bm.patt).

Section Scan.
(** Headers and length of the file, and the limit on embedded files. *)
Context (einfo : option exeinfo) (map_len : Z) (maxfiles : option Z).

(** [matcher_run], with the data of the Aho-Corasick matcher, the types found and the
    outcomes of its allocations. *)
Definition run_root (r : target_root) (buffer : list Z) (length_ offset ftype acmode : Z) (od : option bm_off) (d : acdata)
    (ft : option (list (Z * Z))) (m : list bool) : res (Z * report * option bm_off * acdata * option (list (Z * Z)) * list bool) :=
  let q := tr_root r in
  let b := m_bm q in
  let! pos := of_opt (filter_pos b buffer length_) in
  let buffer' := drop (Z.to_nat pos) buffer in
  let length' := uint 32 (length_ - pos) in
  let offset' := uint 32 (offset + pos) in
  let ac od :=
    let! (code, id, st) := cli_ac_scanbuff (m_ac q) (macro_table r) maxfiles buffer' length' offset' ftype acmode (Scan d CL_CLEAN ft None m) in
    Ok (code, RAc id, od, md st, ftoffset st, mem st) in
  if negb (ac_only b) then
    let! (ret, p, od) :=
      (if bm_offmode (bm b) then cli_bm_scanbuff einfo map_len (bm b) buffer length_ offset od
       else cli_bm_scanbuff einfo map_len (bm b) buffer' length' offset' od) in
    if ret =? CL_VIRUS then Ok (ret, RBm p, od, d, ft, m) else ac od
  else ac od.

(** ** [cli_scanbuff], for callers without data of their own *)

(** Data for this call, and a run: [None] is the return of the code because there is no
    memory. *)
Definition scan_with (r : target_root) (buffer : list Z) (length_ offset ftype : Z) (junk : list Z) (m : list bool) : res (Z * option report) :=
  match initdata r junk m with
  | (code, None) => Ok (code, None)
  | (_, Some d) => let! (ret, rep, _, _, _, _) := run_root r buffer length_ offset ftype AC_SCAN_VIR None d None m in Ok (ret, Some rep)
  end.

(** [junk] and [m] are for the matcher of the type and for the generic one. *)
Definition cli_scanbuff (e : cl_engine) (buffer : list Z) (length_ offset ftype : Z) (junk : bool -> list Z) (m : bool -> list bool) : res (Z * option report) :=
  let! groot := of_opt (mjoin (roots e !! 0%nat)) in
  let generic := scan_with groot buffer length_ offset ftype (junk false) (m false) in
  match root_of e (target_of ftype) with
  | None => generic
  | Some troot =>
      let! (ret, rep) := scan_with troot buffer length_ offset ftype (junk true) (m true) in
      if (match rep with None => true | _ => false end) || (ret =? CL_VIRUS) then Ok (ret, rep) else generic
  end.

(** ** [cli_fmap_scandesc] *)

(** The state of the loop over the windows. *)
Record wstate := WState {
  w_tdata : option acdata; w_gdata : option acdata; w_toff : option bm_off;
  w_ft : option (list (Z * Z)); w_type : Z; w_md5 : list Z; w_mem : list bool }.

Context (troot groot : option target_root) (file : list Z) (ftype acmode : Z) (hashing : bool) (need go : Z -> bool).

Definition maxpat : Z :=
  Z.max (match troot with Some t => maxpatlen (m_bm (tr_root t)) | None => 0 end) (match groot with Some g => maxpatlen (m_bm (tr_root g)) | None => 0 end).

Definition window (offset bytes : Z) (w : wstate) : res ((Z * report * option (list (Z * Z))) + wstate) :=
  let buff := take (Z.to_nat bytes) (drop (Z.to_nat offset) file) in
  let! t :=
    match troot, w_tdata w with
    | Some t, Some d =>
        let! (ret, rep, toff, d, ft, m) := run_root t buff bytes offset ftype acmode (w_toff w) d (w_ft w) (w_mem w) in
        Ok (if ret =? CL_VIRUS then inl (CL_VIRUS, rep, ft) else inr (WState (Some d) (w_gdata w) toff ft (w_type w) (w_md5 w) m))
    | _, _ => Ok (inr w)
    end in
  match t with
  | inl r => Ok (inl r)
  | inr w =>
      match groot, w_gdata w with
      | Some g, Some d =>
          let! (ret, rep, _, d, ft, m) := run_root g buff bytes offset ftype acmode None d (w_ft w) (w_mem w) in
          if ret =? CL_VIRUS then Ok (inl (CL_VIRUS, rep, ft))
          else
            let type_ := if negb (Z.land acmode AC_SCAN_FT =? 0) && (CL_TYPENO <=? ret) && (w_type w <? ret) then ret else w_type w in
            let skip := if offset =? 0 then 0 else maxpat in
            let md5 := if hashing then w_md5 w ++ take (Z.to_nat (bytes - skip)) (drop (Z.to_nat skip) buff) else w_md5 w in
            Ok (inr (WState (w_tdata w) (Some d) (w_toff w) ft type_ md5 m))
      | _, _ => Ok (inr w)
      end
  end.

Fixpoint windows (fuel : nat) (offset : Z) (w : wstate) : res ((Z * report * option (list (Z * Z))) + wstate) :=
  match fuel with
  | O => NoFuel
  | S fuel =>
      if offset <? map_len then
        let bytes := Z.min (map_len - offset) SCANBUFF in
        if negb (need offset) then Ok (inr w)
        else if negb (go bytes) then Ok (inl (CL_EUSERABORT, RNone, w_ft w))
        else
          let! r := window offset bytes w in
          match r with
          | inl r => Ok (inl r)
          | inr w => if bytes <? SCANBUFF then Ok (inr w) else windows fuel (uint 32 (offset + (bytes - maxpat))) w
          end
      else Ok (inr w)
  end.

(** The logical signatures of a matcher. *)
Context (container : Z) (matchicon : nat -> Z) (runlsig : nat -> acdata -> Z).
Definition eval_root (r : target_root) (d : acdata) : res (Z * report) :=
  let q := tr_root r in
  let! (ret, i, _) := LSig.cli_lsig_eval (m_ac q) (mtype (bm (m_bm q))) (macro_table r) container map_len einfo matchicon runlsig (eval_entry <$> tr_lsigs r) d in
  Ok (ret, RLsig i).

(** The data of a matcher, with the offsets for this file. *)
Definition start_data (r : target_root) (junk : list Z) (m : list bool) : res (Z * option acdata) :=
  match initdata r junk m with
  | (code, None) => Ok (code, None)
  | (_, Some d) =>
      let! (code, d) := cli_ac_caloff einfo (Some map_len) (tr_root r) d in
      Ok (if code =? CL_SUCCESS then (CL_SUCCESS, Some d) else (code, None))
  end.

(** The look up of a hash: the databases of hashes and of false positives may be
    absent. *)
Definition scan_hash (db : option matcher) (digest : list Z) : res (Z * option Bm.patt) :=
  match db with
  | None => Ok (CL_CLEAN, None)
  | Some h => let! (ret, p, _) := cli_bm_scanbuff None 0 h digest 16 0 None in Ok (ret, p)
  end.
Definition same_size (p : option Bm.patt) : res bool := let! p := of_opt p in Ok (Bm.filesize p =? map_len).
Definition hash_found (hdb fp : option matcher) (digest : list Z) : res (option Bm.patt) :=
  let! (ret, p) := scan_hash hdb digest in
  if negb (ret =? CL_VIRUS) then Ok None
  else
    let! same := same_size p in
    if negb same then Ok None
    else
      let! (ret, q) := scan_hash fp digest in
      let! known := (if ret =? CL_VIRUS then same_size q else Ok false) in
      Ok (if (known : bool) then None else p).
End Scan.

(** A matcher in offset mode gets a table of offsets for large files. *)
Definition start_toff (einfo : option exeinfo) (map_len : Z) (t : target_root) (junk : list Z) (ok1 ok2 : bool) : res (Z * option bm_off) :=
  let b := bm (m_bm (tr_root t)) in
  if bm_offmode b && (CLI_DEFAULT_BM_OFFMODE_FSIZE <=? map_len) then cli_bm_initoff einfo map_len (mtype b) b junk ok1 ok2 else Ok (CL_SUCCESS, None).

Section Desc.
Context (einfo : option exeinfo) (maxfiles : option Z) (need go : Z -> bool) (container : Z) (matchicon : bool -> nat -> Z) (runlsig : bool -> nat -> acdata -> Z).
Context (md5 : list Z -> list Z) (hdb fp : option matcher).

(** What follows the loop. *)
Definition finish (troot groot : option target_root) (map_len acmode : Z) (ftonly : bool) (refhash : option (list Z)) (w : wstate) : res (Z * report * option (list (Z * Z))) :=
  let! (ret, rep) := match troot, w_tdata w with
    | Some t, Some d => eval_root einfo map_len container (matchicon true) (runlsig true) t d
    | _, _ => Ok (CL_CLEAN, RNone)
    end in
  let! (ret, rep) := match groot, w_gdata w with
    | Some g, Some d => if ret =? CL_VIRUS then Ok (ret, rep) else eval_root einfo map_len container (matchicon false) (runlsig false) g d
    | _, _ => Ok (ret, rep)
    end in
  if ret =? CL_VIRUS then Ok (CL_VIRUS, rep, w_ft w)
  else
    let! hash := (if negb ftonly && (match hdb with None => false | _ => true end) then hash_found map_len hdb fp (match refhash with Some h => h | None => md5 (w_md5 w) end) else Ok None) in
    match hash with
    | Some p => Ok (CL_VIRUS, RHash (Some p), w_ft w)
    | None => Ok (if negb (Z.land acmode AC_SCAN_FT =? 0) then w_type w else CL_CLEAN, RNone, w_ft w)
    end.

(** [junk] and [m] have what fresh memory holds and the outcomes of allocations, for
    the data of the matcher for the type and of the generic one. *)
Definition cli_fmap_scandesc (e : cl_engine) (file : list Z) (ftype acmode : Z) (ftonly : bool) (ft : option (list (Z * Z))) (refhash : option (list Z))
    (junk : bool -> list Z) (m : bool -> list bool) (ok1 ok2 : bool) (wm : list bool) : res (Z * report * option (list (Z * Z))) :=
  let map_len := Z.of_nat (length file) in
  let troot := root_of e (target_of ftype) in
  if ftonly && (match troot with None => true | _ => false end) then Ok (CL_CLEAN, RNone, ft)
  else
    let! groot := (if ftonly then Ok None else let! g := of_opt (mjoin (roots e !! 0%nat)) in Ok (Some g)) in
    let! (code, gdata) := (match groot with Some g => start_data einfo map_len g (junk false) (m false) | None => Ok (CL_SUCCESS, None) end) in
    if negb (code =? CL_SUCCESS) then Ok (code, RNone, ft)
    else
      let! (code, tdata) := (match troot with Some t => start_data einfo map_len t (junk true) (m true) | None => Ok (CL_SUCCESS, None) end) in
      if negb (code =? CL_SUCCESS) then Ok (code, RNone, ft)
      else
        let! (code, toff) := (match troot with Some t => start_toff einfo map_len t (junk true) ok1 ok2 | None => Ok (CL_SUCCESS, None) end) in
        if negb (code =? CL_SUCCESS) then Ok (code, RNone, ft)
        else
          let hashing := (match refhash with None => true | _ => false end) && negb ftonly && (match hdb with None => false | _ => true end) in
          let! r := windows einfo map_len maxfiles troot groot file ftype acmode hashing need go (rounds map_len) 0 (WState tdata gdata toff ft CL_CLEAN [] wm) in
          match r with
          | inl r => Ok r
          | inr w => finish troot groot map_len acmode ftonly refhash w
          end.
End Desc.

End ScanFile.
