(* ===== verification/ScanFileProps.v ===== *)
(** * What a scan of a file reports

    From the file of a database, over the compiled engine, to the scan of a buffer and
    of a file of less than 2 GiB. *)
From stdpp Require Import base numbers list list_numbers gmap strings.
From Stdlib Require Import ZArith Lia Bool.
From S2P Require Import Prelude Dlp Filter CalOff Bm BmFacts MatcherRun MatcherFacts Hashset Ac AcMatch AcScan AcAdd AcSearch AcProps LSig AddSig AddSigFacts ParseAdd Database LoadDb LoadDbProps ScanFile MatcherProps.

Local Open Scope Z_scope.

Module ScanFileProps.
Import Errors CalOff Bm BmFacts MatcherRun MatcherFacts.
Import Ac AcScan AcAdd AcSearch AcProps ParseAdd Database LoadDb LoadDbProps ScanFile.

(** ** A compiled matcher *)
Definition compiled (target mindepth maxdepth : Z) (r : target_root) (ls : list line) : Prop :=
  exists q ss ps m s, engine target mindepth maxdepth q ss ps ls /\ Forall (good_line target mindepth) ls /\
    cli_ac_buildtrie (m_ac q) m = Ok (CL_SUCCESS, Some s) /\ r = set_ac (TRoot q []) s.

Lemma compiled_len target mindepth maxdepth r ls l : compiled target mindepth maxdepth r ls -> l ∈ ls ->
  1 <= Z.of_nat (length (l_chars l)) <= maxpatlen (m_bm (tr_root r)).
Proof.
  intros (q & ss & ps & m & s & He & Hg & _ & ->) Hl. cbn [set_ac tr_root m_bm]. rewrite Forall_forall in Hg. pose proof (gl_len _ _ _ (Hg l Hl)).
  split; [lia|]. pose proof (e_ls _ _ _ _ _ _ _ He) as Hls. rewrite Forall_forall in Hls. destruct (Hls l Hl) as [(sg & Hs & Hsl)|(p & Hp & Hpl)].
  - pose proof (rd_len _ _ (e_ready _ _ _ _ _ _ _ He)) as HF. rewrite Forall_forall in HF. rewrite <- (sl_bytes _ _ Hsl). by apply HF.
  - pose proof (e_max _ _ _ _ _ _ _ He) as HF. rewrite Forall_forall in HF. rewrite <- (pl_text _ _ _ Hpl). by apply HF.
Qed.

Lemma compiled_max target mindepth maxdepth r ls : compiled target mindepth maxdepth r ls -> 0 <= maxpatlen (m_bm (tr_root r)) < 2 ^ 16.
Proof. intros (q & ss & ps & m & s & He & _ & _ & ->). apply (rd_max _ _ (e_ready _ _ _ _ _ _ _ He)). Qed.

(** [run_root] returns what [matcher_run] returns, with the pattern of the Boyer-Moore
    matcher. *)
Lemma run_lift einfo map_len mf q s buffer length_ offset ftype d ft m code p :
  let r := set_ac (TRoot q []) s in
  matcher_run (scanner s (macro_table r) mf ftype (Scan d CL_CLEAN ft None m)) einfo map_len (m_bm q) buffer length_ offset None = Ok (code, p, None) ->
  code = CL_VIRUS \/ code = CL_CLEAN ->
  exists rep d' ft' m', run_root einfo map_len mf r buffer length_ offset ftype AC_SCAN_VIR None d ft m = Ok (code, rep, None, d', ft', m') /\
    (is_Some p -> rep = RBm p).
Proof.
  intros r. unfold matcher_run, run_root. cbn [r set_ac tr_root m_bm m_ac]. fold r. destruct (filter_pos (m_bm q) buffer length_) as [pos|]; cbn [of_opt]; [|done].
  set (x := drop _ _). set (y := uint 32 (length_ - pos)). set (z := uint 32 (offset + pos)).
  assert (forall (od : option bm_off) c, scanner s (macro_table r) mf ftype (Scan d CL_CLEAN ft None m) (m_bm q) x y z = c -> c = CL_VIRUS \/ c = CL_CLEAN ->
    exists (rep : report) (d' : acdata) (ft' : option (list (Z * Z))) (m' : list bool), (let! (code, id, st) := cli_ac_scanbuff s (macro_table r) mf x y z ftype AC_SCAN_VIR (Scan d CL_CLEAN ft None m) in
      Ok (code, RAc id, od, md st, ftoffset st, mem st)) = Ok (c, rep, od, d', ft', m')) as Hac.
  { intros od c. unfold scanner. destruct (cli_ac_scanbuff _ _ _ _ _ _ _ _ _) as [[[c' id] st]| |].
    - intros -> _. by eexists _, _, _, _.
    - by intros <- [?|?].
    - by intros <- [?|?]. }
  destruct (negb (ac_only (m_bm q))).
  - destruct (if bm_offmode (bm (m_bm q)) then _ else _) as [[[ret p'] od]| |]; [|done|done]. destruct (Z.eqb_spec ret CL_VIRUS) as [-> |].
    + intros [= <- <- ->] _. by eexists _, _, _, _.
    + intros [= Hc <- ->] H. destruct (Hac None code Hc H) as (rep & d' & ft' & m' & E). exists rep, d', ft', m'. split; [done|by intros [? ?]].
  - intros [= Hc <-] H. destruct (Hac None code Hc H) as (rep & d' & ft' & m' & E). exists rep, d', ft', m'. split; [done|by intros [? ?]].
Qed.

Lemma run_root_spec target mindepth maxdepth r ls einfo map_len mf buffer offset ftype d ft m : 1 <= mindepth <= maxdepth ->
  compiled target mindepth maxdepth r ls -> is_bytes buffer -> Z.of_nat (length buffer) < 2 ^ 31 -> 0 <= offset -> offset + Z.of_nat (length buffer) < 2 ^ 32 ->
  exists code rep d' ft' m', run_root einfo map_len mf r buffer (Z.of_nat (length buffer)) offset ftype AC_SCAN_VIR None d ft m = Ok (code, rep, None, d', ft', m') /\
    ((code = CL_VIRUS /\ exists l k, l ∈ ls /\ line_at target buffer offset l k) \/
     (code = CL_CLEAN /\ forall l k, l ∈ ls -> ~ line_at target buffer offset l k)).
Proof.
  intros Hd (q & ss & ps & m0 & s & He & Hg & Hb & ->) Hby Hl Ho Hol.
  destruct (engine_run target mindepth maxdepth q ss ps ls Hd He Hg m0 s Hb einfo map_len (macro_table (set_ac (TRoot q []) s)) mf buffer offset ftype
    (Scan d CL_CLEAN ft None m) Hby Hl Ho Hol eq_refl) as (code & p & E & H).
  destruct (run_lift einfo map_len mf q s buffer (Z.of_nat (length buffer)) offset ftype d ft m code p E) as (rep & d' & ft' & m' & -> & _).
  { destruct H as [[-> _]|[-> _]]; auto. }
  by exists code, rep, d', ft', m'.
Qed.

(** The data for a scan: no allocation is refused. *)
Lemma initdata_ok target mindepth maxdepth r ls junk : compiled target mindepth maxdepth r ls -> exists d, initdata r junk [] = (CL_SUCCESS, Some d).
Proof.
  intros (q & ss & ps & m0 & s & He & _ & _ & ->). destruct (e_rest _ _ _ _ _ _ _ He) as [Hr Hp]. unfold initdata. cbn [set_ac tr_root m_partsigs m_reloff tr_lsigs].
  rewrite Hr, Hp. by eexists.
Qed.

Lemma start_data_ok target mindepth maxdepth r ls einfo map_len junk : compiled target mindepth maxdepth r ls ->
  exists d, start_data einfo map_len r junk [] = Ok (CL_SUCCESS, Some d).
Proof.
  intros H. destruct (initdata_ok _ _ _ _ _ junk H) as [d Ed]. unfold start_data. rewrite Ed. destruct H as (q & ss & ps & m0 & s & He & _ & _ & ->).
  destruct (e_rest _ _ _ _ _ _ _ He) as [Hr _]. unfold cli_ac_caloff. cbn [set_ac tr_root m_reloff]. rewrite Hr. by eexists.
Qed.

Lemma start_toff_ok target mindepth maxdepth r ls einfo map_len junk ok1 ok2 : compiled target mindepth maxdepth r ls ->
  start_toff einfo map_len r junk ok1 ok2 = Ok (CL_SUCCESS, None).
Proof.
  intros (q & ss & ps & m0 & s & He & _ & _ & ->). unfold start_toff. cbn [set_ac tr_root m_bm]. by rewrite (rd_mode _ _ (e_ready _ _ _ _ _ _ _ He)).
Qed.

(** ** Compiling an engine *)
Definition compiles (a b : option target_root) : Prop :=
  match a with
  | None => b = None
  | Some r => exists m s, cli_ac_buildtrie (m_ac (tr_root r)) m = Ok (CL_SUCCESS, Some s) /\ b = Some (set_ac r s)
  end.

Lemma compile_roots_spec mems l : Forall (fun a => forall r, a = Some r -> forall m, cli_ac_buildtrie (m_ac (tr_root r)) m = Ok (CL_EMEM, None) \/
    exists s, cli_ac_buildtrie (m_ac (tr_root r)) m = Ok (CL_SUCCESS, Some s)) l ->
  forall i, exists code l', compile_roots mems i l = Ok (code, l') /\ (code = CL_EMEM \/ code = CL_SUCCESS /\ Forall2 compiles l l').
Proof.
  induction 1 as [|a l Ha _ IH]; intros i; cbn [compile_roots].
  { exists CL_SUCCESS, []. split; [done|]. right. split; [done|constructor]. }
  destruct (IH (S i)) as (code & l' & E & H). destruct a as [r|].
  - destruct (Ha r eq_refl (mems i)) as [->|[s Es]]; [eexists CL_EMEM, _; split; [done|by left]|]. rewrite Es, E. exists code, (Some (set_ac r s) :: l').
    split; [done|]. destruct H as [?|[? H]]; [by left|right]. split; [done|]. constructor; [|done]. by exists (mems i), s.
  - rewrite E. exists code, (None :: l'). split; [done|]. destruct H as [?|[? H]]; [by left|right]. split; [done|]. by constructor.
Qed.

Lemma compile_spec mindepth maxdepth phish file e mems : 1 <= mindepth <= maxdepth -> Forall (ndb_ok mindepth phish) file -> loaded_engine mindepth maxdepth e file ->
  exists code e', cl_engine_compile mems e = Ok (code, e') /\
    (code = CL_EMEM \/ code = CL_SUCCESS /\ forall t, 0 <= t < CLI_MTARGETS -> t <> 1 ->
      exists r, roots e' !! Z.to_nat t = Some (Some r) /\ compiled t mindepth maxdepth r (lines_of t file)).
Proof.
  intros Hd HF (Hlen & (tr1 & Hr1 & HL1) & He). unfold CLI_MTARGETS in *. unfold cl_engine_compile. destruct (compile_roots_spec mems (roots e)) with (i := 0%nat) as (code & l' & -> & H).
  { apply Forall_lookup. intros i a Hi r -> m. apply lookup_lt_Some in Hi as Hlt. rewrite Hlen in Hlt.
    assert (exists ps, loaded mindepth maxdepth ps (m_ac (tr_root r))) as [ps HL].
    { destruct (decide (i = 1%nat)) as [-> |]; [exists []; congruence|]. destruct (He (Z.of_nat i)) as (tr & ss & ps & Hr & _ & Heng); [lia|lia|].
      rewrite Nat2Z.id in Hr. exists ps. pose proof (e_loaded _ _ _ _ _ _ _ Heng). congruence. }
    destruct (buildtrie_automaton mindepth maxdepth ps _ m ltac:(lia) HL) as [?|(s & _ & _ & _ & _ & Es & _)]; [by left|]. right. by exists s. }
  eexists code, _. split; [done|]. destruct H as [?|[-> H2]]; [by left|right]. split; [done|]. intros t Ht Ht1.
  destruct (He t Ht Ht1) as (tr & ss & ps & Hr & Htl & Heng). destruct (Forall2_lookup_l _ _ _ _ _ H2 Hr) as (b & Hb & m & s & Es & ->).
  exists (set_ac tr s). split; [done|]. exists (tr_root tr), ss, ps, m, s. split; [done|]. split; [by apply (lines_good mindepth phish)|]. split; [done|].
  unfold set_ac. by rewrite Htl.
Qed.

(** ** Windows *)
Lemma text_match_take buffer n l : forall k, text_match (take n buffer) k l = true -> text_match buffer k l = true.
Proof.
  induction l as [|c l IH]; intros k; cbn [text_match]; [done|]. rewrite !andb_true_iff. intros [H1 H2]. split; [|by apply IH].
  destruct (Z.lt_ge_cases k 0); [unfold bget in *; by destruct (Z.ltb_spec k 0); [|lia]|]. rewrite bget_lookup in H1 |- * by done.
  destruct (take n buffer !! Z.to_nat k) eqn:E; [|done]. apply lookup_take_Some in E as [-> _]. done.
Qed.

Lemma take_text_match buffer (n : nat) l : forall k, 0 <= k -> k + Z.of_nat (length l) <= Z.of_nat n -> text_match buffer k l = true -> text_match (take n buffer) k l = true.
Proof.
  induction l as [|c l IH]; intros k Hk Hl; cbn [text_match length] in *; [done|]. rewrite !andb_true_iff. intros [H1 H2]. split; [|apply IH; [lia|lia|done]].
  rewrite bget_lookup in H1 |- * by lia. by rewrite lookup_take_lt by lia.
Qed.

Section Windows.
Context (mindepth maxdepth : Z) (Hd : 1 <= mindepth <= maxdepth) (file : list Z) (Hfile : is_bytes file) (Hsize : Z.of_nat (length file) < 2 ^ 31).
Context (groot : target_root) (gl : list line) (Hg : compiled 0 mindepth maxdepth groot gl).
Context (troot : option target_root) (tt : Z) (tl : list line).
Context (Ht : match troot with Some r => compiled tt mindepth maxdepth r tl | None => tl = [] end).
Context (einfo : option exeinfo) (maxfiles : option Z) (ftype : Z) (hashing : bool).
Let map_len := Z.of_nat (length file).
Abbreviation W := (maxpat troot (Some groot)).

(** A line of one of the two matchers in the file. *)
Definition in_file (l : line) (k : Z) : Prop := (l ∈ gl /\ line_at 0 file 0 l k) \/ (l ∈ tl /\ line_at tt file 0 l k).

Definition wok (w : wstate) : Prop := w_toff w = None /\ is_Some (w_gdata w) /\ (is_Some troot -> is_Some (w_tdata w)).

Lemma window_line t offset nb l k : 0 <= offset -> 0 <= nb -> offset + nb <= map_len -> l_chars l <> [] ->
  (line_at t (take (Z.to_nat nb) (drop (Z.to_nat offset) file)) offset l k -> line_at t file 0 l (offset + k)) /\
  (line_at t file 0 l (offset + k) -> 0 <= k -> k + Z.of_nat (length (l_chars l)) <= nb -> line_at t (take (Z.to_nat nb) (drop (Z.to_nat offset) file)) offset l k).
Proof.
  intros Ho Hb Hm Hne. unfold line_at. rewrite Z.add_0_l. split.
  - intros [H1 H2]. split; [|done]. destruct (text_match_bound _ _ _ H1 Hne) as [Hk _]. apply text_match_take in H1. by rewrite text_match_drop in H1.
  - intros [H1 H2] Hk Hl. split; [|done]. apply take_text_match; [done|lia|]. by rewrite text_match_drop.
Qed.

(** One matcher on one window. *)
Lemma root_window t r ls offset nb d ft m : compiled t mindepth maxdepth r ls -> 0 <= offset -> 0 <= nb -> offset + nb <= map_len ->
  exists code rep d' ft' m', run_root einfo map_len maxfiles r (take (Z.to_nat nb) (drop (Z.to_nat offset) file)) nb offset ftype AC_SCAN_VIR None d ft m
      = Ok (code, rep, None, d', ft', m') /\
    ((code = CL_VIRUS /\ exists l k, l ∈ ls /\ line_at t file 0 l k) \/
     (code = CL_CLEAN /\ forall l k, l ∈ ls -> line_at t file 0 l k -> offset <= k -> k + Z.of_nat (length (l_chars l)) <= offset + nb -> False)).
Proof using Hd Hfile Hsize.
  intros Hr Ho Hb Hm. set (buff := take _ _). assert (Z.of_nat (length buff) = nb) as Hl by (unfold buff; rewrite length_take, length_drop; lia).
  assert (forall l, l ∈ ls -> l_chars l <> []) as Hne by (intros l Hin E; pose proof (compiled_len _ _ _ _ _ _ Hr Hin) as H; rewrite E in H; cbn in H; lia).
  destruct (run_root_spec t mindepth maxdepth r ls einfo map_len maxfiles buff offset ftype d ft m Hd Hr) as (code & rep & d' & ft' & m' & E & H);
    [by apply Forall_take, Forall_drop|lia|lia|lia|]. rewrite Hl in E. exists code, rep, d', ft', m'. split; [done|].
  destruct H as [(-> & l & k & Hin & Hk)|[-> Hno]]; [left|right]; (split; [done|]).
  - exists l, (offset + k). split; [done|]. by apply (window_line t offset nb l k Ho Hb Hm (Hne l Hin)).
  - intros l k Hin Hk Hok Hlk. apply (Hno l (k - offset) Hin). apply (window_line t offset nb l (k - offset) Ho Hb Hm (Hne l Hin)); [|lia|lia].
    by replace (offset + (k - offset)) with k by lia.
Qed.

Lemma run_window_spec offset nb w : 0 <= offset -> 0 <= nb -> offset + nb <= map_len -> wok w ->
  exists x, window einfo map_len maxfiles troot (Some groot) file ftype AC_SCAN_VIR hashing offset nb w = Ok x /\
    match x with
    | inl (c, _, _) => c = CL_VIRUS /\ exists l k, in_file l k
    | inr w' => wok w' /\ forall l k, in_file l k -> offset <= k -> k + Z.of_nat (length (l_chars l)) <= offset + nb -> False
    end.
Proof using Hd Hfile Hsize Hg Ht.
  intros Ho Hb Hm Hw. unfold window. set (t := match troot, w_tdata w with Some _, Some _ => _ | _, _ => _ end).
  assert (exists x, t = Ok x /\ match x with
    | inl (c, _, _) => c = CL_VIRUS /\ exists l k, in_file l k
    | inr w' => wok w' /\ forall l k, l ∈ tl -> line_at tt file 0 l k -> offset <= k -> k + Z.of_nat (length (l_chars l)) <= offset + nb -> False
    end) as (x & -> & Hx).
  { unfold t. clear t. destruct troot as [r|] eqn:Er.
    - destruct Hw as (E1 & E2 & [d E3]); [by eexists|]. rewrite E3, E1.
      destruct (root_window tt r tl offset nb d (w_ft w) (w_mem w) Ht Ho Hb Hm) as (code & rep & d' & ft' & m' & -> & H).
      eexists. split; [done|]. destruct H as [(-> & l & k & Hin & Hk)|[-> Hno]]; cbn [Z.eqb CL_VIRUS CL_CLEAN Pos.eqb].
      + split; [done|]. exists l, k. by right.
      + split; [|done]. split; [done|]. split; [done|]. by eexists.
    - eexists. split; [done|]. split; [done|]. intros l k Hin. rewrite Ht in Hin. by apply elem_of_nil in Hin. }
  destruct x as [[[c rep] ft]|w']; [eexists; split; [done|exact Hx]|]. destruct Hx as [(E1 & [d E2] & E3) Hnt]. rewrite E2.
  destruct (root_window 0 groot gl offset nb d (w_ft w') (w_mem w') Hg Ho Hb Hm) as (code & rep & d' & ft' & m' & -> & H).
  destruct H as [(-> & l & k & Hin & Hk)|[-> Hno]]; cbn [Z.eqb CL_VIRUS CL_CLEAN Pos.eqb]; (eexists; split; [done|]).
  - split; [done|]. exists l, k. by left.
  - split; [split; [done|]; split; [by eexists|done]|]. intros l k [[Hin Hk]|[Hin Hk]]; [by apply Hno|by apply Hnt].
Qed.

Lemma maxpat_range : 0 <= W < 2 ^ 16.
Proof using Hg Ht map_len file.
  unfold maxpat. pose proof (compiled_max _ _ _ _ _ Hg). destruct troot as [r|]; [pose proof (compiled_max _ _ _ _ _ Ht)|]; lia.
Qed.

Lemma line_len l k : in_file l k -> 1 <= Z.of_nat (length (l_chars l)) <= W /\ 0 <= k /\ k + Z.of_nat (length (l_chars l)) <= map_len.
Proof using Hg Ht map_len file.
  intros H. assert (1 <= Z.of_nat (length (l_chars l)) <= W /\ exists t, line_at t file 0 l k) as [Hl [t [Hk _]]].
  { unfold maxpat. destruct H as [[Hin Hk]|[Hin Hk]].
    - pose proof (compiled_len _ _ _ _ _ _ Hg Hin). split; [lia|by eexists].
    - destruct troot as [r|]; [|rewrite Ht in Hin; by apply elem_of_nil in Hin]. pose proof (compiled_len _ _ _ _ _ _ Ht Hin). split; [lia|by eexists]. }
  split; [done|]. apply text_match_bound in Hk; [|intros E; rewrite E in Hl; cbn in Hl; lia]. unfold map_len. lia.
Qed.

Lemma run_windows_spec fuel offset w : 0 <= offset <= map_len -> (offset <> 0 -> offset + W <= map_len) -> map_len - offset < 65536 * Z.of_nat fuel ->
  wok w -> (forall l k, in_file l k -> offset <= k) ->
  exists x, windows einfo map_len maxfiles troot (Some groot) file ftype AC_SCAN_VIR hashing (fun _ => true) (fun _ => true) fuel offset w = Ok x /\
    match x with
    | inl (c, _, _) => c = CL_VIRUS /\ exists l k, in_file l k
    | inr w' => wok w' /\ forall l k, ~ in_file l k
    end.
Proof using Hd Hfile Hsize Hg Ht.
  revert offset w. induction fuel as [|fuel IH]; intros offset w Ho HW Hf Hw Hinv; [lia|].
  pose proof maxpat_range as Hr. cbn [windows]. destruct (Z.ltb_spec offset map_len) as [Eo|Eo].
  2: { eexists. split; [done|]. split; [done|]. intros l k Hk. pose proof (Hinv l k Hk). pose proof (line_len l k Hk). lia. }
  cbn [negb]. set (nb := Z.min (map_len - offset) SCANBUFF). unfold SCANBUFF in *.
  destruct (run_window_spec offset nb w) as (x & -> & Hx); [lia|lia|lia|done|].
  destruct x as [[[c rep] ft]|w']; [eexists; split; [done|exact Hx]|]. destruct Hx as [Hw' Hno].
  destruct (Z.ltb_spec nb 131072) as [En|En].
  - eexists. split; [done|]. split; [done|]. intros l k Hk. pose proof (Hinv l k Hk). pose proof (line_len l k Hk). apply (Hno l k Hk); lia.
  - rewrite (uint_small 32) by lia. apply IH; [lia|lia|lia|done|]. intros l k Hk. pose proof (Hinv l k Hk). pose proof (line_len l k Hk).
    destruct (Z.le_gt_cases (offset + (nb - W)) k); [done|]. exfalso. apply (Hno l k Hk); lia.
Qed.
End Windows.

(** ** A matcher of bytes *)

(** The Aho-Corasick matcher without patterns reports nothing. *)
Lemma empty_scan mindepth maxdepth m0 s0 m s mp mf ftype st b buffer : 1 <= mindepth -> cli_ac_init mindepth maxdepth m0 = (CL_SUCCESS, Some s0) ->
  cli_ac_buildtrie s0 m = Ok (CL_SUCCESS, Some s) -> is_bytes buffer -> Z.of_nat (length buffer) < 2 ^ 31 -> results st = None ->
  forall offset, 0 <= offset -> offset + Z.of_nat (length buffer) < 2 ^ 32 -> scanner s mp mf ftype st b buffer (Z.of_nat (length buffer)) offset = CL_CLEAN.
Proof.
  intros Hd Hi Hb Hby Hl Hst offset Ho Hol. unfold scanner.
  destruct (AcProps.scan_search mindepth maxdepth [] s0 m s mp mf buffer offset ftype AC_SCAN_VIR st Hd (loaded_init _ _ _ _ Hi) Hb) as (code & id & st' & -> & H);
    [constructor|done|lia|done|done|done|done|].
  destruct H as [(_ & i & p & k & _ & Hp & _)|[-> _]]; [by rewrite lookup_nil in Hp|done].
Qed.

(** C10. A run of a matcher of bytes.  Any valid signatures of bytes (at any position, at
    absolute offsets or offsets from the end of the file, with or without a shift) are
    added to the Boyer-Moore matcher of a target with or without the prefilter; its
    Aho-Corasick matcher has no patterns.  Then the code that [cli_scanbuff] and
    [cli_fmap_scandesc] run on a buffer at some offset of a file (the prefilter, and both
    matchers on what the filter leaves) ends without an access outside the tables or
    the buffer: it reports a virus and the pattern of a signature that stands in the
    buffer at an offset it allows, or reports nothing exactly if no signature stands
    anywhere in the whole buffer at such an offset. *)
Theorem byte_matcher_run (target mindepth maxdepth : Z) (filtering : bool) (ss : list BmFacts.sig) (m0 m1 : list bool) (a0 a : ac) :
  valid target ss -> 1 <= mindepth ->
  cli_ac_init mindepth maxdepth m0 = (CL_SUCCESS, Some a0) -> cli_ac_buildtrie a0 m1 = Ok (CL_SUCCESS, Some a) ->
  exists b, MatcherFacts.load target filtering ss = Some b /\
    forall einfo map_len maxfiles buffer offset ftype d ft m,
      is_bytes buffer -> Z.of_nat (length buffer) < 2 ^ 31 -> 0 <= offset -> offset + Z.of_nat (length buffer) < 2 ^ 32 ->
      exists code rep d' ft' m',
        run_root einfo map_len maxfiles (TRoot (MRoot b a [] ∅ 0) []) buffer (Z.of_nat (length buffer)) offset ftype AC_SCAN_VIR None d ft m =
          Ok (code, rep, None, d', ft', m') /\
        ((code = CL_VIRUS /\ exists p s k, rep = RBm (Some p) /\ s ∈ ss /\ stands_for target s p /\
            matches map_len buffer (Z.of_nat (length buffer)) offset (s_patt target s) k) \/
         (code = CL_CLEAN /\ forall s k, s ∈ ss -> ~ matches map_len buffer (Z.of_nat (length buffer)) offset (s_patt target s) k)).
Proof.
  intros Hv Hd Hi Hb. destruct (load_ready target filtering ss Hv) as (b & E & Hr & Ht & Ha). exists b. split; [done|].
  intros einfo map_len mf buffer offset ftype d ft m Hby Hl Ho Hol. pose proof (v_generic _ _ Hv) as Hgen. rewrite <- Ht in Hgen.
  set (q := MRoot b a0 [] ∅ 0). set (r := set_ac (TRoot q []) a). change (TRoot (MRoot b a [] ∅ 0) []) with r.
  set (st := Scan d CL_CLEAN ft None m). set (sc := scanner a (macro_table r) mf ftype st).
  destruct (matcher_run_spec sc einfo map_len b ss Hr (or_introl Ha) Hgen buffer (Z.of_nat (length buffer)) offset) as (x & Ex & Hx); [done|lia|lia|lia|lia|].
  rewrite <- Ht. destruct Hx as [(p & s & k & -> & Hs & Hst & Hm)|(pos & -> & [Hp Hf] & Hno)].
  - destruct (run_lift einfo map_len mf q a buffer (Z.of_nat (length buffer)) offset ftype d ft m CL_VIRUS (Some p) Ex) as (rep & d' & ft' & m' & Er & Hrep); [by left|].
    eexists _, _, _, _, _. split; [exact Er|]. left. split; [done|]. exists p, s, k. split; [by apply Hrep; eauto|done].
  - assert (sc b (drop (Z.to_nat pos) buffer) (Z.of_nat (length buffer) - pos) (offset + pos) = CL_CLEAN) as Hc.
    { replace (Z.of_nat (length buffer) - pos) with (Z.of_nat (length (drop (Z.to_nat pos) buffer))) by (rewrite length_drop; lia).
      apply (empty_scan mindepth maxdepth m0 a0 m1); [done|done|done|by apply Forall_drop|rewrite length_drop; lia|done|lia|rewrite length_drop; lia]. }
    rewrite Hc in Ex. destruct (run_lift einfo map_len mf q a buffer (Z.of_nat (length buffer)) offset ftype d ft m CL_CLEAN None Ex) as (rep & d' & ft' & m' & Er & _); [by right|].
    eexists _, _, _, _, _. split; [exact Er|]. right. split; [done|exact Hno].
Qed.

(** ** The parts of the theorem *)

(** A line of the file of signatures that applies to files of a type. *)
Definition listed (db : list (Z * line)) (ftype t : Z) (l : line) : Prop :=
  (t, l) ∈ db /\ 0 <= t < CLI_MTARGETS /\ (t = 0 \/ target_of ftype = Some (Z.to_nat t)).

(** A report is right: a virus exactly if such a line stands in the bytes. *)
Definition right_report (db : list (Z * line)) (ftype : Z) (bytes : list Z) (offset code : Z) : Prop :=
  (code = CL_VIRUS /\ exists t l k, listed db ftype t l /\ line_at t bytes offset l k) \/
  (code = CL_CLEAN /\ forall t l k, listed db ftype t l -> ~ line_at t bytes offset l k).

Lemma target_of_range ftype i : target_of ftype = Some i -> (1 <= i < 10)%nat.
Proof.
  unfold target_of. destruct (ftype =? 0); [done|]. destruct (list_find _ _) as [[j t]|] eqn:E; [|done]. intros [= <-].
  apply list_find_Some in E as (H & _). apply lookup_lt_Some in H. cbn in H |- *. lia.
Qed.

(** The matchers for a type of file. *)
Definition engine_for (mindepth maxdepth : Z) (db : list (Z * line)) (e : cl_engine) (ftype : Z) (g : target_root) (tr : option target_root) (t : Z) (tl : list line) : Prop :=
  roots e !! 0%nat = Some (Some g) /\ compiled 0 mindepth maxdepth g (lines_of 0 db) /\ root_of e (target_of ftype) = tr /\
  match tr with Some r => compiled t mindepth maxdepth r tl | None => tl = [] end /\
  forall t' l, listed db ftype t' l <-> (t' = 0 /\ l ∈ lines_of 0 db) \/ (t' = t /\ l ∈ tl).

Lemma engine_for_type mindepth maxdepth db e ftype : target_of ftype <> Some 1%nat ->
  (forall t, 0 <= t < CLI_MTARGETS -> t <> 1 -> exists r, roots e !! Z.to_nat t = Some (Some r) /\ compiled t mindepth maxdepth r (lines_of t db)) ->
  exists g tr t tl, engine_for mindepth maxdepth db e ftype g tr t tl.
Proof.
  intros Hpe He. unfold CLI_MTARGETS in He. destruct (He 0 ltac:(lia) ltac:(lia)) as (g & Hg & Hgc). change (Z.to_nat 0) with 0%nat in Hg.
  destruct (target_of ftype) as [i|] eqn:Et.
  - pose proof (target_of_range ftype i Et) as Hi. destruct (He (Z.of_nat i)) as (r & Hr & Hrc); [lia|intros E; apply Hpe; f_equal; lia|].
    rewrite Nat2Z.id in Hr. exists g, (Some r), (Z.of_nat i), (lines_of (Z.of_nat i) db). split; [done|]. split; [done|]. split; [|split; [done|]].
    + rewrite Et. unfold root_of. cbn. by rewrite Hr.
    + intros t' l. unfold listed, CLI_MTARGETS. rewrite Et, !lines_of_elem. split.
      * intros (Hin & Hr' & [-> |[= E]]); [by left|right]. assert (t' = Z.of_nat i) as -> by lia. done.
      * intros [[-> Hin]|[-> Hin]]; (split; [done|]); (split; [lia|]); [by left|right]. by rewrite Nat2Z.id.
  - exists g, None, 0, []. split; [done|]. split; [done|]. split; [by rewrite Et|]. split; [done|].
    intros t' l. unfold listed, CLI_MTARGETS. rewrite Et, lines_of_elem. split.
    + intros (Hin & _ & [-> |E]); [by left|done].
    + intros [[-> Hin]|[_ Hin]]; [|by apply elem_of_nil in Hin]. split; [done|]. split; [lia|by left].
Qed.

Section Reports.
Context (mindepth maxdepth : Z) (Hd : 1 <= mindepth <= maxdepth) (db : list (Z * line)) (e : cl_engine) (ftype : Z).
Context (g : target_root) (tr : option target_root) (t : Z) (tl : list line) (He : engine_for mindepth maxdepth db e ftype g tr t tl).
Context (einfo : option exeinfo) (maxfiles : option Z).

Lemma scanbuff_right map_len buffer offset junk : is_bytes buffer -> Z.of_nat (length buffer) < 2 ^ 31 -> 0 <= offset -> offset + Z.of_nat (length buffer) < 2 ^ 32 ->
  exists code rep, cli_scanbuff einfo map_len maxfiles e buffer (Z.of_nat (length buffer)) offset ftype junk (fun _ => []) = Ok (code, rep) /\
    right_report db ftype buffer offset code.
Proof using Hd He.
  intros Hby Hl Ho Hol. destruct He as (Hr0 & Hg & Htr & Ht & Hlist). unfold cli_scanbuff. rewrite Hr0. cbn [mjoin option_join of_opt]. rewrite Htr.
  assert (forall t0 r ls jk, compiled t0 mindepth maxdepth r ls ->
    exists code rep, scan_with einfo map_len maxfiles r buffer (Z.of_nat (length buffer)) offset ftype jk [] = Ok (code, Some rep) /\
      ((code = CL_VIRUS /\ exists l k, l ∈ ls /\ line_at t0 buffer offset l k) \/ (code = CL_CLEAN /\ forall l k, l ∈ ls -> ~ line_at t0 buffer offset l k))) as Hscan.
  { intros t0 r ls jk Hc. destruct (initdata_ok t0 mindepth maxdepth r ls jk Hc) as [d Ed]. unfold scan_with. rewrite Ed.
    destruct (run_root_spec t0 mindepth maxdepth r ls einfo map_len maxfiles buffer offset ftype d None [] Hd Hc Hby Hl Ho Hol) as (code & rep & d' & ft' & m' & -> & H).
    by exists code, rep. }
  destruct (Hscan 0 g (lines_of 0 db) (junk false) Hg) as (c0 & rep0 & E0 & H0). unfold right_report. setoid_rewrite Hlist. rewrite E0. destruct tr as [r|].
  - destruct (Hscan t r tl (junk true) Ht) as (c1 & rep1 & -> & H1). destruct H1 as [(-> & l & k & Hin & Hk)|[-> Hno]]; cbn [orb Z.eqb CL_VIRUS CL_CLEAN Pos.eqb].
    + eexists _, _. split; [done|]. left. split; [done|]. exists t, l, k. split; [by right|done].
    + eexists _, _. split; [done|]. destruct H0 as [(-> & l & k & Hin & Hk)|[-> Hno0]]; [left|right]; (split; [done|]).
      * exists 0, l, k. split; [by left|done].
      * intros t' l k [[-> Hin]|[-> Hin]]; [by apply Hno0|by apply Hno].
  - subst tl. eexists _, _. split; [done|]. destruct H0 as [(-> & l & k & Hin & Hk)|[-> Hno0]]; [left|right]; (split; [done|]).
    + exists 0, l, k. split; [by left|done].
    + intros t' l k [[-> Hin]|[_ Hin]]; [by apply Hno0|by apply elem_of_nil in Hin].
Qed.

Lemma scandesc_right container matchicon runlsig md5 file junk ok1 ok2 ft refhash wm : is_bytes file -> Z.of_nat (length file) < 2 ^ 31 ->
  exists code rep ft', cli_fmap_scandesc einfo maxfiles (fun _ => true) (fun _ => true) container matchicon runlsig md5 None None
      e file ftype AC_SCAN_VIR false ft refhash junk (fun _ => []) ok1 ok2 wm = Ok (code, rep, ft') /\
    right_report db ftype file 0 code.
Proof using Hd He.
  intros Hby Hl. destruct He as (Hr0 & Hg & Htr & Ht & Hlist). unfold cli_fmap_scandesc. rewrite Htr, Hr0. cbn [andb mjoin option_join of_opt negb].
  set (map_len := Z.of_nat (length file)). destruct (start_data_ok 0 mindepth maxdepth g (lines_of 0 db) einfo map_len (junk false) Hg) as [gd ->].
  cbn [Z.eqb CL_SUCCESS negb].
  assert (exists td, (match tr with Some t => start_data einfo map_len t (junk true) [] | None => Ok (CL_SUCCESS, None) end) = Ok (CL_SUCCESS, td) /\ (is_Some tr -> is_Some td)) as (td & -> & Htd).
  { destruct tr as [r|]; [|exists None; split; [done|intros [? ?]; done]]. destruct (start_data_ok t mindepth maxdepth r tl einfo map_len (junk true) Ht) as [d ->].
    exists (Some d). split; [done|]. by eexists. }
  cbn [Z.eqb CL_SUCCESS negb].
  assert ((match tr with Some t => start_toff einfo map_len t (junk true) ok1 ok2 | None => Ok (CL_SUCCESS, None) end) = Ok (CL_SUCCESS, None)) as ->.
  { destruct tr as [r|]; [|done]. by apply (start_toff_ok t mindepth maxdepth r tl). }
  cbn [Z.eqb CL_SUCCESS negb]. set (hashing := _ && _).
  destruct (run_windows_spec mindepth maxdepth Hd file Hby Hl g (lines_of 0 db) Hg tr t tl Ht einfo maxfiles ftype hashing (rounds map_len) 0 (WState td (Some gd) None ft CL_CLEAN [] wm))
    as (x & Ex & Hx).
  - lia.
  - done.
  - unfold rounds, map_len. pose proof (Z.div_mod (Z.of_nat (length file)) 65536 ltac:(lia)). pose proof (Z.mod_pos_bound (Z.of_nat (length file)) 65536 ltac:(lia)).
    pose proof (Z.div_pos (Z.of_nat (length file)) 65536 ltac:(lia) ltac:(lia)). lia.
  - split; [done|]. split; [by eexists|done].
  - intros l k Hk. pose proof (line_len mindepth maxdepth file g (lines_of 0 db) Hg tr t tl Ht l k Hk). lia.
  - fold map_len in Ex. rewrite Ex. unfold right_report. setoid_rewrite Hlist. destruct x as [[[c rep] ft']|w].
    + exists c, rep, ft'. split; [done|]. destruct Hx as (-> & l & k & Hk). left. split; [done|]. destruct Hk as [[Hin Hk]|[Hin Hk]]; [exists 0|exists t]; exists l, k; auto.
    + destruct Hx as [(_ & [gd' Eg] & _) Hno]. unfold finish. rewrite Eg.
      assert (forall b r d, (exists t ls, compiled t mindepth maxdepth r ls) -> eval_root einfo map_len container (matchicon b) (runlsig b) r d = Ok (CL_CLEAN, RLsig None)) as Hev.
      { intros b r d (t0 & ls & q & ss & ps & m0 & s & _ & _ & _ & ->). done. }
      rewrite (Hev false g gd') by (by eexists _, _).
      assert ((match tr, w_tdata w with Some t, Some d => eval_root einfo map_len container (matchicon true) (runlsig true) t d | _, _ => Ok (CL_CLEAN, RNone) end)
        = Ok (CL_CLEAN, match tr, w_tdata w with Some _, Some _ => RLsig None | _, _ => RNone end)) as ->.
      { destruct tr as [r|]; [|done]. destruct (w_tdata w); [|done]. apply Hev. by eexists _, _. }
      cbn [Z.eqb CL_CLEAN CL_VIRUS negb andb]. eexists _, _, _. split; [done|]. right. split; [done|].
      intros t' l k [[-> Hin]|[-> Hin]] Hk; apply (Hno l k); [by left|by right].
Qed.
End Reports.

(** C4. From the file of a database to the report on a file.  The lines of a
    file of signatures (bytes, nibbles and the ignored bytes ??, a? and ?a, no other
    wildcards; at any position or at absolute offsets; for any targets but PE files)
    are loaded into a new engine, and the engine is compiled: there is no memory, or it
    is ready.  Then [cli_scanbuff] on any buffer and [cli_fmap_scandesc] on any file, of
    less than 2 GiB and of any type but PE, without databases of hashes, end without an access outside their tables and the file, and
    report a virus if and only if a line for all files or for files of this type stands
    in the bytes at an offset it allows: nothing is lost between the overlapping windows
    of the file, nothing is reported that is not there. *)
Theorem file_scan_is_search (mindepth maxdepth : Z) (prefiltering phish : bool) (db : list (Z * line)) :
  1 <= mindepth <= maxdepth -> Forall (ndb_ok mindepth phish) db -> db <> [] -> Z.of_nat (length db) < 2 ^ 16 ->
  exists e, cli_loadndb false prefiltering mindepth maxdepth phish true false no_mem (fun _ => no_mem) (fun _ _ => true) (ndb_text <$> db) empty_engine =
      Ok (CL_SUCCESS, Z.of_nat (length db), e) /\
    forall mems, exists code e', cl_engine_compile mems e = Ok (code, e') /\
      (code = CL_EMEM \/ code = CL_SUCCESS /\ forall ftype einfo maxfiles bytes, target_of ftype <> Some 1%nat -> is_bytes bytes -> Z.of_nat (length bytes) < 2 ^ 31 ->
        (forall map_len offset junk, 0 <= offset -> offset + Z.of_nat (length bytes) < 2 ^ 32 ->
          exists code rep, cli_scanbuff einfo map_len maxfiles e' bytes (Z.of_nat (length bytes)) offset ftype junk (fun _ => []) = Ok (code, rep) /\
            right_report db ftype bytes offset code) /\
        (forall container matchicon runlsig md5 junk ok1 ok2 ft refhash wm,
          exists code rep ft', cli_fmap_scandesc einfo maxfiles (fun _ => true) (fun _ => true) container matchicon runlsig md5 None None
              e' bytes ftype AC_SCAN_VIR false ft refhash junk (fun _ => []) ok1 ok2 wm = Ok (code, rep, ft') /\
            right_report db ftype bytes 0 code)).
Proof.
  intros Hd HF Hne Hn. destruct (load_file mindepth maxdepth prefiltering phish db Hd HF Hne Hn) as (e & E & He). exists e. split; [done|]. intros mems.
  destruct (compile_spec mindepth maxdepth phish db e mems Hd HF He) as (code & e' & Ec & H). exists code, e'. split; [done|]. destruct H as [?|[-> Hc]]; [by left|right].
  split; [done|]. intros ftype einfo maxfiles bytes Hpe Hby Hl. destruct (engine_for_type mindepth maxdepth db e' ftype Hpe Hc) as (g & tr & t & tl & Hfor). split.
  - intros map_len offset junk Ho Hol. by apply (scanbuff_right mindepth maxdepth Hd db e' ftype g tr t tl Hfor).
  - intros. by apply (scandesc_right mindepth maxdepth Hd db e' ftype g tr t tl Hfor).
Qed.

(** ** Examples *)

(** An empty automaton, and the signatures of MatcherProps behind the prefilter. *)
Lemma byte_matcher_run_witness : exists a0 a b, cli_ac_init 2 3 [] = (CL_SUCCESS, Some a0) /\ cli_ac_buildtrie a0 [] = Ok (CL_SUCCESS, Some a) /\
  MatcherFacts.load 0 true [MatcherProps.s1; MatcherProps.s2; MatcherProps.s3] = Some b /\
  exists code rep d' ft' m', run_root None 20 None (TRoot (MRoot b a [] ∅ 0) []) [7; 7; 10; 11; 12; 10; 11; 12; 10] 9 0 0 AC_SCAN_VIR None (AcData ∅ [] [] [] [] HashSet.cli_hashset_init_noalloc) None [] =
    Ok (code, rep, None, d', ft', m').
Proof.
  destruct (cli_ac_init 2 3 []) as [c0 [a0|]] eqn:Ei; [|by vm_compute in Ei].
  assert (c0 = CL_SUCCESS) as -> by (by vm_compute in Ei; injection Ei as <- _).
  destruct (cli_ac_buildtrie a0 []) as [[c1 [a|]]| |] eqn:Eb; [|by vm_compute in Ei; injection Ei as <-; vm_compute in Eb..].
  assert (c1 = CL_SUCCESS) as -> by (vm_compute in Ei; injection Ei as <-; vm_compute in Eb; by injection Eb as <- _).
  destruct (byte_matcher_run 0 2 3 true [MatcherProps.s1; MatcherProps.s2; MatcherProps.s3] [] [] a0 a) as (b & E & H).
  - apply MatcherProps.samples_valid. by left.
  - lia.
  - exact Ei.
  - exact Eb.
  - destruct (H None 20 None [7; 7; 10; 11; 12; 10; 11; 12; 10] 0 0 (AcData ∅ [] [] [] [] HashSet.cli_hashset_init_noalloc) None [])
      as (code & rep & d' & ft' & m' & Er & _).
    + repeat (constructor; [lia|]). constructor.
    + cbn. lia.
    + lia.
    + cbn. lia.
    + exists a0, a, b. split; [reflexivity|]. split; [exact Eb|]. split; [exact E|]. exists code, rep, d', ft', m'. exact Er.
Defined.

Lemma file_scan_is_search_witness :
  exists e, cli_loadndb false true 2 3 true true false no_mem (fun _ => no_mem) (fun _ _ => true) (ndb_text <$> ex_file) empty_engine =
      Ok (CL_SUCCESS, Z.of_nat (length ex_file), e) /\
    forall mems, exists code e', cl_engine_compile mems e = Ok (code, e') /\
      (code = CL_EMEM \/ code = CL_SUCCESS /\ forall ftype einfo maxfiles bytes, target_of ftype <> Some 1%nat -> is_bytes bytes -> Z.of_nat (length bytes) < 2 ^ 31 ->
        (forall map_len offset junk, 0 <= offset -> offset + Z.of_nat (length bytes) < 2 ^ 32 ->
          exists code rep, cli_scanbuff einfo map_len maxfiles e' bytes (Z.of_nat (length bytes)) offset ftype junk (fun _ => []) = Ok (code, rep) /\
            right_report ex_file ftype bytes offset code) /\
        (forall container matchicon runlsig md5 junk ok1 ok2 ft refhash wm,
          exists code rep ft', cli_fmap_scandesc einfo maxfiles (fun _ => true) (fun _ => true) container matchicon runlsig md5 None None
              e' bytes ftype AC_SCAN_VIR false ft refhash junk (fun _ => []) ok1 ok2 wm = Ok (code, rep, ft') /\
            right_report ex_file ftype bytes 0 code)).
Proof. apply (file_scan_is_search 2 3 true true ex_file); [lia|apply ex_file_ok|discriminate|vm_compute; reflexivity]. Defined.

(** A database of signatures, of logical signatures or of both; the codes of a scan of a
    file of some type, with the logical signature that is reported. *)
Definition ex_scan_file (ndb ldb : list (list Z)) (ftype : Z) (bytes : list Z) : option (Z * report) :=
  match load_ndb true true false (fun _ => no_mem) (fun _ _ => true) ndb LoadDbProps.ex_engine with
  | Ok (_, _, e) =>
      match load_ldb true (fun _ => no_mem) (fun _ _ _ => true) (fun _ _ _ => []) ldb e with
      | Ok (_, _, e) =>
          match cl_engine_compile no_mem e with
          | Ok (_, e) =>
              match cli_fmap_scandesc None None (fun _ => true) (fun _ => true) 0 (fun _ _ => 0) (fun _ _ _ => 0) (fun _ => []) None None
                  e bytes ftype AC_SCAN_VIR false None None (fun _ => []) (fun _ => []) true true [] with
              | Ok (code, rep, _) => Some (code, rep)
              | _ => None
              end
          | _ => None
          end
      | _ => None
      end
  | _ => None
  end.

(** A line for HTML files is found in HTML files only; a logical signature counts its
    subsignatures over the whole file; an offset from the end of the file is resolved. *)
Example ex_types :
  ((fun t => fst <$> ex_scan_file [name "A:3:*:61??6364"] [] t [0; 97; 98; 99; 100]) <$> [539; 540; 0]) = Some <$> [CL_VIRUS; CL_CLEAN; CL_CLEAN] /\
  ex_scan_file [name "A:3:*:6161616161"] [name "B;Target:0;(0>1)&1;61626364;7A7a7A7a"; name "C;Engine:51-255,FileSize:10-99,Target:0;0;7a7a7a7a"] 0
    [97; 98; 99; 100; 122; 122; 122; 122; 97; 98; 99; 100] = Some (CL_VIRUS, RLsig (Some 0%nat)) /\
  ex_scan_file [name "A:3:*:6161616161"] [name "B;Target:0;(0>1)&1;61626364;7A7a7A7a"; name "C;Engine:51-255,FileSize:10-99,Target:0;0;7a7a7a7a"] 0
    [97; 98; 99; 0; 122; 122; 122; 122; 97; 98; 99; 100] = Some (CL_VIRUS, RLsig (Some 1%nat)) /\
  ((fun l => fst <$> ex_scan_file [name "A:0:EOF-6:61??6364"] [] 0 l) <$> [[97; 98; 99; 100; 5; 6]; [0; 97; 98; 99; 100; 6]]) = Some <$> [CL_VIRUS; CL_CLEAN].
Proof. repeat split; by vm_compute. Qed.

End ScanFileProps.
