(* ===== verification/Mpool.v ===== *)
(** * Memory pools (libclamav/mpool.c)

    Memory is mapped in areas, fragments of fixed sizes are cut from them one behind the
    other, and fragments that are freed are kept in lists by size.  The bytes of the
    areas are the memory of the state: the header in front of each block is in it, next
    to what the callers write.  [struct MP] and the headers of areas, which stand where
    no fragment is, are records.  The system's page size and answers to mapping requests
    are parameters; 64-bit pointers, no [CL_DEBUG]. *)
From stdpp Require Import base numbers list list_numbers.
From Stdlib Require Import ZArith Lia Bool.
From S2P Require Import Prelude.

Local Open Scope Z_scope.

Module Mpool.

Definition MIN_FRAGSIZE : Z := 262144.

Definition fragsz : list Z :=
  [16; 24; 32; 40; 48; 56; 64; 72; 80; 88; 96; 104; 112; 120; 128; 136; 144; 152; 160; 176; 192; 208; 216; 224; 240; 256; 264; 272; 280; 288; 312; 352; 384;
   408; 512; 520; 632; 1024; 2048; 2056; 4096; 6144; 8192; 8816; 8872; 11376; 16384; 16392; 21096; 32768; 34752; 44736; 48384; 63504; 65536; 91624; 105568;
   131072; 131088; 131784; 154896; 262144; 372712; 507976; 524288; 1048576; 2097152; 4194304; 8388608].
Definition FRAGSBITS : Z := Z.of_nat (length fragsz).
Definition FRAG_OVERHEAD : Z := 8.

(** [sizeof(struct MPMAP)], [sizeof(struct MP)], and the place of the first area's
    header in [struct MP]. *)
Definition sizeof_MPMAP : Z := 16.
Definition sizeof_MP : Z := 8 + 8 * FRAGSBITS + sizeof_MPMAP.
Definition offset_mpm : Z := 8 + 8 * FRAGSBITS.

(** [struct MPMAP], with its address.  The first one of [maps] is [u.mpm], the next
    ones hang on it. *)
Record MPMAP := Map { maddr : Z; msize : Z; usize : Z }.
Record MP := Mp { psize : Z; avail : list Z; maps : list MPMAP }.
Record pool := Pool { mp : MP; mem : Z -> Z }.

(** ** Memory *)

(** The mapped areas, with their lengths. *)
Definition area (m : MPMAP) : Z * Z := (maddr m, msize m).
Definition first_area (m : MPMAP) : Z * Z := (maddr m - offset_mpm, msize m + sizeof_MP).
Definition areas (p : MP) : list (Z * Z) := match maps p with [] => [] | m :: l => first_area m :: (area <$> l) end.

Definition mapped (p : MP) (a n : Z) : bool := existsb (fun '(b, s) => (b <=? a) && (a + n <=? b + s)) (areas p).

Fixpoint get_le (m : Z -> Z) (a : Z) (n : nat) : Z :=
  match n with O => 0 | S n => m a + 256 * get_le m (a + 1) n end.
Definition set_le (m : Z -> Z) (a n v : Z) : Z -> Z :=
  fun x => if (a <=? x) && (x <? a + n) then (v / 2 ^ (8 * (x - a))) `mod` 256 else m x.

Definition load (n : Z) (a : Z) (p : pool) : res Z :=
  if mapped (mp p) a n then Ok (get_le (mem p) a (Z.to_nat n)) else Undef.
Definition store (n : Z) (a v : Z) (p : pool) : res pool :=
  if mapped (mp p) a n then Ok (Pool (mp p) (set_le (mem p) a n v)) else Undef.

(** [memset(a, 0, n)], [memcpy(d, s, n)] and a caller's bytes. *)
Definition zero (a n : Z) (p : pool) : res pool :=
  if mapped (mp p) a n then Ok (Pool (mp p) (fun x => if (a <=? x) && (x <? a + n) then 0 else mem p x)) else Undef.
Definition copy (d s n : Z) (p : pool) : res pool :=
  if mapped (mp p) d n && mapped (mp p) s n then Ok (Pool (mp p) (fun x => if (d <=? x) && (x <? d + n) then mem p (s + (x - d)) else mem p x)) else Undef.
Definition write (a : Z) (l : list Z) (p : pool) : res pool :=
  if mapped (mp p) a (Z.of_nat (length l)) then
    Ok (Pool (mp p) (fun x => if (a <=? x) && (x <? a + Z.of_nat (length l)) then nth (Z.to_nat (x - a)) l 0 else mem p x))
  else Undef.

Definition set_avail (p : pool) (l : list Z) : pool := Pool (Mp (psize (mp p)) l (maps (mp p))) (mem p).
Definition set_maps (p : pool) (l : list MPMAP) : pool := Pool (Mp (psize (mp p)) (avail (mp p)) l) (mem p).

(** ** Sizes *)
Definition align_to_voidptr (size : Z) : Z := (size / 8 + (if size `mod` 8 =? 0 then 0 else 1)) * 8.

Definition align_to_pagesize (ps size : Z) : Z := uint 32 ((size / ps + (if size `mod` ps =? 0 then 0 else 1)) * ps).

Fixpoint to_bits_from (l : list Z) (i size : Z) : Z :=
  match l with [] => i | s :: l => if size <=? s then i else to_bits_from l (i + 1) size end.
Definition to_bits (size : Z) : Z := to_bits_from fragsz 0 size.
Definition from_bits (bits : Z) : Z := if FRAGSBITS <=? bits then 0 else nth (Z.to_nat bits) fragsz 0.

(** ** Operations; [os] is the answer to a request for a mapping of some length, 0 is
    NULL. *)
Definition mpool_create (os : Z -> option Z) (pagesize : Z) : option pool :=
  let sz := align_to_pagesize pagesize MIN_FRAGSIZE in
  match os sz with
  | None => None
  | Some a =>
      Some (Pool (Mp pagesize (replicate (Z.to_nat FRAGSBITS) 0) [Map (a + offset_mpm) (uint 32 (sz - align_to_voidptr sizeof_MP)) (align_to_voidptr sizeof_MPMAP)])
        (fun _ => 0))
  end.

(** Case 2: the first area with enough room, advanced, and the fragment. *)
Fixpoint find_room (needed : Z) (l : list MPMAP) : option (Z * list MPMAP) :=
  match l with
  | [] => None
  | m :: l =>
      if needed <=? uint 32 (msize m - usize m) then Some (maddr m + usize m, Map (maddr m) (msize m) (uint 32 (usize m + needed)) :: l)
      else match find_room needed l with Some (f, l) => Some (f, m :: l) | None => None end
  end.

(** [f->u.sbits = sbits; return &f->fake]. *)
Definition give_frag (f sbits : Z) (p : pool) : res (Z * pool) :=
  let! p := store 4 f sbits p in Ok (f + FRAG_OVERHEAD, p).

(** The length of a new area. *)
Definition map_length (ps needed : Z) : Z :=
  if MIN_FRAGSIZE <? uint 64 (needed + align_to_voidptr sizeof_MPMAP) then align_to_pagesize ps (uint 32 (needed + align_to_voidptr sizeof_MPMAP))
  else align_to_pagesize ps MIN_FRAGSIZE.

(** Case 3: a new area is hung behind the first one. *)
Definition new_map (a i needed : Z) (p : pool) : pool :=
  Pool (Mp (psize (mp p)) (avail (mp p))
      (match maps (mp p) with
       | [] => []
       | m :: l => m :: Map a i (uint 32 (needed + align_to_voidptr sizeof_MPMAP)) :: l
       end))
    (fun x => if (a <=? x) && (x <? a + i) then 0 else mem p x).

Definition mpool_malloc (os : Z -> option Z) (size : Z) (p : pool) : res (Z * pool) :=
  let needed := uint 32 (align_to_voidptr (uint 64 (size + FRAG_OVERHEAD))) in
  let sbits := to_bits needed in
  if (size =? 0) || (sbits =? FRAGSBITS) then Ok (0, p)
  else
    let! f := of_opt (bget (avail (mp p)) sbits) in
    if negb (f =? 0) then
      let! next := load 8 f p in
      let! av := of_opt (bset (avail (mp p)) sbits next) in
      give_frag f sbits (set_avail p av)
    else
      let needed := from_bits sbits in
      if needed =? 0 then Ok (0, p)
      else
        match find_room needed (maps (mp p)) with
        | Some (f, l) => give_frag f sbits (set_maps p l)
        | None =>
            let i := map_length (psize (mp p)) needed in
            match os i with
            | None => Ok (0, p)
            | Some a => give_frag (a + align_to_voidptr sizeof_MPMAP) sbits (new_map a i needed p)
            end
        end.

Definition mpool_free (ptr : Z) (p : pool) : res pool :=
  let f := ptr - FRAG_OVERHEAD in
  if ptr =? 0 then Ok p
  else
    let! sbits := load 4 f p in
    let! head := of_opt (bget (avail (mp p)) sbits) in
    let! p := store 8 f head p in
    let! av := of_opt (bset (avail (mp p)) sbits f) in
    Ok (set_avail p av).

Definition mpool_calloc (os : Z -> option Z) (nmemb size : Z) (p : pool) : res (Z * pool) :=
  let needed := uint 32 (uint 64 (nmemb * size)) in
  if needed =? 0 then Ok (0, p)
  else
    let! (ptr, p) := mpool_malloc os needed p in
    if ptr =? 0 then Ok (0, p) else let! p := zero ptr needed p in Ok (ptr, p).

Definition mpool_realloc (os : Z -> option Z) (ptr size : Z) (p : pool) : res (Z * pool) :=
  let f := ptr - FRAG_OVERHEAD in
  if ptr =? 0 then mpool_malloc os size p
  else if size =? 0 then Ok (0, p)
  else
    let! sbits := load 4 f p in
    let csize := from_bits sbits in
    if csize =? 0 then Ok (0, p)
    else
      let csize := csize - FRAG_OVERHEAD in
      if (size <=? csize) && ((sbits =? 0) || (from_bits (sbits - 1) - FRAG_OVERHEAD <? size)) then Ok (ptr, p)
      else
        let! (new_ptr, p) := mpool_malloc os size p in
        if new_ptr =? 0 then Ok (0, p)
        else
          let! p := copy new_ptr ptr (if csize <=? size then csize else size) p in
          let! p := mpool_free ptr p in
          Ok (new_ptr, p).

Definition mpool_realloc2 (os : Z -> option Z) (ptr size : Z) (p : pool) : res (Z * pool) :=
  let! (new_ptr, p) := mpool_realloc os ptr size p in
  if negb (new_ptr =? 0) then Ok (new_ptr, p) else let! p := mpool_free ptr p in Ok (0, p).

(** The ends of the areas that hold no fragment are given back. *)
Definition flush_map (ps : Z) (m : MPMAP) : MPMAP :=
  let mused := align_to_pagesize ps (usize m) in
  if mused <? msize m then Map (maddr m) mused (usize m) else m.
Definition flush_first (ps : Z) (m : MPMAP) : MPMAP :=
  let mused := align_to_pagesize ps (uint 32 (usize m + align_to_voidptr sizeof_MP)) in
  if mused <? uint 64 (msize m + align_to_voidptr sizeof_MP) then Map (maddr m) (uint 32 (mused - align_to_voidptr sizeof_MP)) (usize m) else m.
Definition mpool_flush (p : pool) : pool :=
  set_maps p (match maps (mp p) with [] => [] | m :: l => flush_first (psize (mp p)) m :: (flush_map (psize (mp p)) <$> l) end).

(** The areas in the order in which they are released. *)
Definition mpool_destroy (p : pool) : list (Z * Z) :=
  match maps (mp p) with
  | [] => []
  | m :: l => ((fun x => (maddr x, msize x)) <$> l) ++ [(maddr m - offset_mpm, uint 64 (msize m + align_to_voidptr sizeof_MP))]
  end.

(** [used] and [total], for an engine that is in use and has the pool. *)
Definition mpool_getstats (p : pool) : Z * Z :=
  (foldl (fun s m => uint 64 (s + usize m)) 0 (maps (mp p)), foldl (fun s m => uint 64 (s + msize m)) 0 (maps (mp p))).

(** [cli_mpool_strdup] of a string, given without its terminator. *)
Definition cli_mpool_strdup (os : Z -> option Z) (s : option (list Z)) (p : pool) : res (Z * pool) :=
  match s with
  | None => Ok (0, p)
  | Some s =>
      let! (alloc, p) := mpool_malloc os (uint 32 (Z.of_nat (length s) + 1)) p in
      if alloc =? 0 then Ok (0, p) else let! p := write alloc (s ++ [0]) p in Ok (alloc, p)
  end.

End Mpool.
