(* ===== verification/MpoolFacts.v ===== *)
(** * The invariant of a memory pool

    [inv] ties the state of a pool to its fragments, its lists of free fragments and
    the blocks its callers hold; here are its parts and what changes preserve them. *)
From stdpp Require Import base numbers list list_numbers gmap.
From Stdlib Require Import ZArith Lia Bool.
From S2P Require Import Prelude Mpool.

Local Open Scope Z_scope.

Module MpoolFacts.
Import Mpool.

(** ** Sizes *)
Definition fsz (s : Z) : Z := nth (Z.to_nat s) fragsz 0.

Lemma fsz_all : Forall (fun n => 16 <= n <= 8388608 /\ n `mod` 8 = 0) fragsz.
Proof. unfold fragsz. repeat (constructor; [split; [lia|reflexivity]|]). constructor. Qed.

Lemma fsz_ok s : 0 <= s < FRAGSBITS -> 16 <= fsz s <= 8388608 /\ fsz s `mod` 8 = 0.
Proof. intros Hs. unfold FRAGSBITS in Hs. unfold fsz. pose proof fsz_all as HF. rewrite (Forall_nth _ 0) in HF. apply HF. lia. Qed.

Lemma from_bits_fsz s : 0 <= s < FRAGSBITS -> from_bits s = fsz s.
Proof. intros Hs. unfold from_bits. destruct (Z.leb_spec FRAGSBITS s); [lia|done]. Qed.

Lemma to_bits_from_spec size l i : let s := to_bits_from l i size in
  i <= s <= i + Z.of_nat (length l) /\ (s < i + Z.of_nat (length l) -> size <= nth (Z.to_nat (s - i)) l 0) /\
  (s = i + Z.of_nat (length l) -> Forall (fun n => n < size) l).
Proof.
  cbv zeta. revert i. induction l as [|n l IH]; intros i; cbn [to_bits_from length].
  { split; [lia|]. split; [lia|]. by constructor. }
  destruct (Z.leb_spec size n).
  - rewrite Z.sub_diag. cbn [Z.to_nat nth]. split; [lia|]. split; [done|lia].
  - destruct (IH (i + 1)) as (H1 & H2 & H3). split; [lia|]. split.
    + intros Hs. replace (Z.to_nat _) with (S (Z.to_nat (to_bits_from l (i + 1) size - (i + 1)))) by lia. cbn [nth]. apply H2. lia.
    + intros Hs. constructor; [lia|]. apply H3. lia.
Qed.

Lemma to_bits_spec size : (size <= 8388608 -> 0 <= to_bits size < FRAGSBITS /\ size <= fsz (to_bits size)) /\ (8388608 < size -> to_bits size = FRAGSBITS).
Proof.
  unfold to_bits, FRAGSBITS, fsz. destruct (to_bits_from_spec size fragsz 0) as (H1 & H2 & H3). rewrite Z.sub_0_r, Z.add_0_l in *. split; intros Hs.
  - destruct (Z.eq_dec (to_bits_from fragsz 0 size) (Z.of_nat (length fragsz))) as [E|]; [|split; [lia|apply H2; lia]].
    specialize (H3 E). rewrite Forall_forall in H3. assert (8388608 < size); [|lia]. apply H3. apply list_elem_of_In. vm_compute. tauto.
  - destruct (Z.eq_dec (to_bits_from fragsz 0 size) (Z.of_nat (length fragsz))) as [E|Hne]; [done|].
    assert (size <= nth (Z.to_nat (to_bits_from fragsz 0 size)) fragsz 0) as H by (apply H2; lia).
    destruct (fsz_ok (to_bits_from fragsz 0 size)) as [Hf _]; [unfold FRAGSBITS; lia|]. unfold fsz in Hf. lia.
Qed.

Lemma align_up n k : 0 <= n -> 0 < k -> let a := (n / k + (if n `mod` k =? 0 then 0 else 1)) * k in n <= a < n + k /\ a `mod` k = 0.
Proof.
  intros Hn Hk. cbv zeta. split; [|apply Z.mod_mul; lia]. pose proof (Z.div_mod n k). pose proof (Z.mod_pos_bound n k). destruct (Z.eqb_spec (n `mod` k) 0); lia.
Qed.

Definition page_ok (ps : Z) : Prop := 0 < ps <= 2 ^ 24 /\ ps `mod` 8 = 0.

Lemma align_page ps n : page_ok ps -> 0 <= n <= 2 ^ 30 -> n <= align_to_pagesize ps n < n + ps /\ align_to_pagesize ps n `mod` 8 = 0.
Proof.
  intros [Hp Hm] Hn. unfold align_to_pagesize. destruct (align_up n ps) as [H1 H2]; [lia..|].
  rewrite uint_small by lia. split; [done|]. apply Z.mod_divide in H2; [|lia]. apply Z.mod_divide; [done|]. apply Z.mod_divide in Hm; [|done].
  by apply (Z.divide_trans _ ps).
Qed.

(** The size of a fragment for [size] bytes. *)
Lemma needed_spec size : 0 <= size <= 2 ^ 32 - 16 ->
  let needed := uint 32 (align_to_voidptr (uint 64 (size + FRAG_OVERHEAD))) in size + 8 <= needed < size + 16.
Proof.
  intros Hs. unfold FRAG_OVERHEAD. rewrite (uint_small 64) by lia. unfold align_to_voidptr. destruct (align_up (size + 8) 8) as [H1 H2]; [lia..|].
  cbv zeta in *. rewrite uint_small; [lia|]. split; [lia|].
  apply Z.mod_divide in H2 as [k Hk]; [|done]. revert H1 Hk. generalize ((((size + 8) `div` 8) + (if (size + 8) `mod` 8 =? 0 then 0 else 1)) * 8). lia.
Qed.

(** ** Areas *)
Definition adisj (x y : Z * Z) : Prop := x.1 + x.2 <= y.1 \/ y.1 + y.2 <= x.1.

Lemma adisj_sym x y : adisj x y -> adisj y x.
Proof. unfold adisj. tauto. Qed.

Record map_ok (m : MPMAP) : Prop := {
  mo_addr : 0 < maddr m /\ maddr m `mod` 8 = 0;
  mo_size : 16 <= usize m <= msize m;
  mo_big : msize m <= 2 ^ 26;
  mo_use : usize m `mod` 8 = 0;
  mo_end : maddr m + msize m <= 2 ^ 64 }.

Record maps_ok (q : MP) : Prop := {
  mk_page : page_ok (psize q);
  mk_some : maps q <> [];
  mk_each : Forall map_ok (maps q);
  mk_disj : ForallOrdPairs adisj (areas q) }.

Lemma areas_lookup q (i : nat) m : maps q !! i = Some m ->
  exists x, areas q !! i = Some x /\ x.1 <= maddr m /\ maddr m + msize m <= x.1 + x.2.
Proof.
  unfold areas. destruct (maps q) as [|m0 l]; [done|]. destruct i as [|i].
  - cbn. intros [= ->]. eexists. split; [done|]. unfold first_area, offset_mpm, sizeof_MP, sizeof_MPMAP, FRAGSBITS. cbn. lia.
  - intros Hi. change (l !! i = Some m) in Hi. exists (area m). split; [|cbn; lia].
    change ((area <$> l) !! i = Some (area m)). by rewrite list_lookup_fmap, Hi.
Qed.

Lemma FOP_lookup {A} (R : A -> A -> Prop) l (i j : nat) x y : (forall x y, R x y -> R y x) -> ForallOrdPairs R l -> i <> j ->
  l !! i = Some x -> l !! j = Some y -> R x y.
Proof.
  intros Hs HF. revert i j. induction HF as [|z l Hz HF IH]; intros i j Hij Hi Hj; [done|]. rewrite List.Forall_forall in Hz.
  destruct i as [|i], j as [|j]; cbn in Hi, Hj; [lia| | |].
  - injection Hi as ->. apply Hz, list_elem_of_In. by eapply list_elem_of_lookup_2.
  - injection Hj as ->. apply Hs, Hz, list_elem_of_In. by eapply list_elem_of_lookup_2.
  - apply (IH i j); [lia|done..].
Qed.

Lemma mapped_intro q m a n : m ∈ maps q -> maddr m <= a -> a + n <= maddr m + msize m -> mapped q a n = true.
Proof.
  intros Hm Ha Hn. apply list_elem_of_lookup in Hm as [i Hi]. destruct (areas_lookup q i m Hi) as ([b s] & Hx & H1 & H2). cbn in *.
  unfold mapped. apply existsb_exists. exists (b, s). split; [apply list_elem_of_In; by eapply list_elem_of_lookup_2|]. lia.
Qed.

(** Two maps at different places do not meet. *)
Lemma maps_disj q (i j : nat) m m' : maps_ok q -> i <> j -> maps q !! i = Some m -> maps q !! j = Some m' ->
  maddr m + msize m <= maddr m' \/ maddr m' + msize m' <= maddr m.
Proof.
  intros [_ _ _ HF] Hij Hi Hj. destruct (areas_lookup q i m Hi) as (x & Hx & H1 & H2). destruct (areas_lookup q j m' Hj) as (y & Hy & H3 & H4).
  destruct (FOP_lookup adisj (areas q) i j x y adisj_sym HF Hij Hx Hy); lia.
Qed.

(** ** Memory *)
Definition read (m : Z -> Z) (a : Z) (n : nat) : list Z := (fun i => m (a + Z.of_nat i)) <$> seq 0 n.

Lemma read_length m a n : length (read m a n) = n.
Proof. unfold read. by rewrite length_fmap, length_seq. Qed.

Lemma read_ext m m' a n : (forall x, a <= x < a + Z.of_nat n -> m' x = m x) -> read m' a n = read m a n.
Proof. intros H. apply list_fmap_ext. intros i x Hx%lookup_seq. apply H. lia. Qed.

Lemma read_lookup m a n i : (i < n)%nat -> read m a n !! i = Some (m (a + Z.of_nat i)).
Proof. intros Hi. unfold read. rewrite list_lookup_fmap, lookup_seq_lt by done. done. Qed.

Lemma read_take m a n k : (k <= n)%nat -> take k (read m a n) = read m a k.
Proof.
  intros Hk. apply list_eq. intros i. destruct (decide (i < k)%nat).
  - rewrite lookup_take_lt, !read_lookup by lia. done.
  - rewrite !lookup_ge_None_2; [done| |]; rewrite ?length_take, read_length; lia.
Qed.

Lemma get_le_ext m m' a n : (forall x, a <= x < a + Z.of_nat n -> m' x = m x) -> get_le m' a n = get_le m a n.
Proof.
  revert a. induction n as [|n IH]; intros a H; [done|]. cbn [get_le]. rewrite H by lia. f_equal. f_equal. apply IH. intros x Hx. apply H. lia.
Qed.

Lemma get_set_le m a n v : 0 <= v < 2 ^ (8 * Z.of_nat n) -> get_le (set_le m a (Z.of_nat n) v) a n = v.
Proof.
  revert m a v. induction n as [|n IH]; intros m a v Hv; [cbn in *; lia|]. cbn [get_le].
  rewrite (get_le_ext (set_le m (a + 1) (Z.of_nat n) (v / 256))).
  - rewrite IH.
    + unfold set_le. destruct (Z.leb_spec a a), (Z.ltb_spec a (a + Z.of_nat (S n))); try lia. cbn [andb]. rewrite Z.sub_diag, Z.mul_0_r, Z.pow_0_r, Z.div_1_r.
      pose proof (Z.div_mod v 256). lia.
    + replace (8 * Z.of_nat (S n)) with (8 * Z.of_nat n + 8) in Hv by lia. rewrite Z.pow_add_r in Hv by lia. change (2 ^ 8) with 256 in Hv.
      split; [apply Z.div_pos; lia|]. apply Z.div_lt_upper_bound; lia.
  - intros x Hx. unfold set_le. destruct (Z.leb_spec a x), (Z.leb_spec (a + 1) x), (Z.ltb_spec x (a + Z.of_nat (S n))), (Z.ltb_spec x (a + 1 + Z.of_nat n)); try lia.
    cbn [andb]. replace (8 * (x - a)) with (8 + 8 * (x - (a + 1))) by lia. rewrite Z.pow_add_r, <- Z.div_div by lia. done.
Qed.

Lemma set_le_out m a n v x : ~ (a <= x < a + n) -> set_le m a n v x = m x.
Proof. intros H. unfold set_le. destruct (Z.leb_spec a x), (Z.ltb_spec x (a + n)); try done. lia. Qed.

End MpoolFacts.
