(* ===== verification/MpoolInv.v ===== *)
(** * Fragments, free lists and blocks of a pool

    The invariant of a pool, and the moves of a fragment between the lists of free
    ones, a state of its own ("pending") and the blocks of the callers. *)
From stdpp Require Import base numbers list list_numbers gmap.
From Stdlib Require Import ZArith Lia Bool.
From S2P Require Import Prelude Mpool MpoolFacts.

Local Open Scope Z_scope.

Module MpoolInv.
Import Mpool MpoolFacts.

(** [l] is the list of fragments from [h] on. *)
Fixpoint chain (m : Z -> Z) (h : Z) (l : list Z) : Prop :=
  match l with [] => h = 0 | f :: l => h = f /\ chain m (get_le m f 8) l end.

Definition within (l : list MPMAP) (f n : Z) : Prop := exists m, m ∈ l /\ maddr m + 16 <= f /\ f + n <= maddr m + usize m.

(** [F] has the fragments with the numbers of their sizes, [free] the lists of free ones, [heap]
    the contents of the blocks; [pend] is a fragment that is neither. *)
Record inv (p : pool) (F : gmap Z Z) (free : Z -> list Z) (heap : gmap Z (list Z)) (pend : Z) : Prop := {
  iv_maps : maps_ok (mp p);
  iv_avail : length (avail (mp p)) = Z.to_nat FRAGSBITS;
  iv_frag : forall f s, F !! f = Some s -> 0 <= s < FRAGSBITS /\ f `mod` 8 = 0 /\ within (maps (mp p)) f (fsz s);
  iv_disj : forall f g s t, F !! f = Some s -> F !! g = Some t -> f <> g -> f + fsz s <= g \/ g + fsz t <= f;
  iv_chain : forall s h, bget (avail (mp p)) s = Some h -> chain (mem p) h (free s);
  iv_free : forall s f, f ∈ free s -> F !! f = Some s;
  iv_nodup : forall s, NoDup (free s);
  iv_live : forall b l, heap !! b = Some l -> exists s, F !! (b - 8) = Some s /\ (forall t, ~ (b - 8) ∈ free t) /\ get_le (mem p) (b - 8) 4 = s /\
    Z.of_nat (length l) <= fsz s - 8 /\ read (mem p) b (length l) = l;
  iv_all : forall f s, F !! f = Some s -> f = pend \/ (exists t, f ∈ free t) \/ is_Some (heap !! (f + 8)) }.

(** A fragment outside all lists. *)
Definition pending (p : pool) F free heap (f s : Z) : Prop :=
  inv p F free heap f /\ F !! f = Some s /\ (forall t, ~ f ∈ free t) /\ heap !! (f + 8) = None.

Section Moves.
Context {p : pool} {F : gmap Z Z} {free : Z -> list Z} {heap : gmap Z (list Z)}.

Lemma frag_place {e} f s : inv p F free heap e -> F !! f = Some s ->
  0 < f /\ f + fsz s <= 2 ^ 64 /\ 16 <= fsz s <= 8388608 /\ forall a n, f <= a -> a + n <= f + fsz s -> mapped (mp p) a n = true.
Proof.
  intros H Hf. destruct (iv_frag _ _ _ _ _ H f s Hf) as (Hs & _ & m & Hm & H1 & H2). destruct (fsz_ok s Hs) as [Hz _].
  pose proof (mk_each _ (iv_maps _ _ _ _ _ H)) as HF. rewrite Forall_forall in HF. destruct (HF m Hm) as [[Ha _] [_ Hu] _ _ He].
  split; [lia|]. split; [lia|]. split; [done|]. intros a n Han Hn. apply (mapped_intro _ m); [done|lia..].
Qed.

Lemma chain_ext m m' h l : chain m h l -> (forall f x, f ∈ l -> f <= x < f + 8 -> m' x = m x) -> chain m' h l.
Proof.
  revert h. induction l as [|f l IH]; intros h; cbn [chain]; [done|]. intros [-> Hc] Hx. split; [done|].
  rewrite (get_le_ext m m') by (intros x Hr; apply (Hx f); [left|lia]). apply IH; [done|]. intros g x Hg. apply Hx. by right.
Qed.

(** Writing into a pending fragment changes nothing else. *)
Lemma pending_write m' f s : pending p F free heap f s -> (forall x, ~ (f <= x < f + fsz s) -> m' x = mem p x) ->
  pending (Pool (mp p) m') F free heap f s.
Proof.
  intros (H & Hf & Hn & Hh) Hm. split; [|done]. pose proof (frag_place f s H Hf) as (_ & _ & Hsz & _).
  pose proof H as [I1 I2 I3 I4 I5 I6 I7 I8 I9]. split; cbn [mp mem]; try done.
  - intros t h Ht. apply (chain_ext (mem p)); [by apply I5|]. intros g x Hg Hx. apply Hm. specialize (I6 t g Hg).
    assert (f <> g) as Hne by (intros <-; by apply (Hn t)). pose proof (frag_place g t H I6) as (_ & _ & Hsz' & _).
    specialize (I4 f g s t Hf I6 Hne). lia.
  - intros b l Hb. destruct (I8 b l Hb) as (t & H1 & H2 & H3 & H4 & H5). exists t.
    assert (f <> b - 8) as Hne by (intros ->; replace (b - 8 + 8) with b in Hh by lia; by rewrite Hh in Hb).
    pose proof (frag_place (b - 8) t H H1) as (_ & _ & Hsz' & _). specialize (I4 f (b - 8) s t Hf H1 Hne).
    split; [done|]. split; [done|]. split; [|split; [done|]].
    + rewrite <- H3. apply get_le_ext. intros x Hx. apply Hm. lia.
    + rewrite <- H5 at 2. apply read_ext. intros x Hx. apply Hm. lia.
Qed.

(** A pending fragment with its header becomes a block. *)
Lemma adopt f s n : pending p F free heap f s -> get_le (mem p) f 4 = s -> Z.of_nat n <= fsz s - 8 ->
  inv p F free (<[f + 8 := read (mem p) (f + 8) n]> heap) 0.
Proof.
  intros (H & Hf & Hn & Hh) Hg Hs. pose proof H as [I1 I2 I3 I4 I5 I6 I7 I8 I9]. split; try done.
  - intros b l. destruct (decide (b = f + 8)) as [-> |Hne].
    + rewrite lookup_insert_eq. intros [= <-]. exists s. replace (f + 8 - 8) with f by lia. rewrite read_length. done.
    + rewrite lookup_insert_ne by done. apply I8.
  - intros g t Hg'. destruct (decide (g = f)) as [-> |Hne].
    + right. right. rewrite lookup_insert_eq. by eexists.
    + destruct (I9 g t Hg') as [-> |[?|?]]; [done|by right; left|]. right. right. rewrite lookup_insert_ne by lia. done.
Qed.

(** A block goes back to its owner. *)
Lemma release b l : inv p F free heap 0 -> heap !! b = Some l ->
  exists s, pending p F free (delete b heap) (b - 8) s /\ get_le (mem p) (b - 8) 4 = s /\ Z.of_nat (length l) <= fsz s - 8 /\ read (mem p) b (length l) = l.
Proof.
  intros H Hb. pose proof H as [I1 I2 I3 I4 I5 I6 I7 I8 I9]. destruct (I8 b l Hb) as (s & H1 & H2 & H3 & H4 & H5). exists s.
  split; [|done]. split; [|split; [done|split; [done|]]].
  - split; try done.
    + intros b' l' [Hne Hb']%lookup_delete_Some. by apply I8.
    + intros g t Hg. destruct (decide (g = b - 8)) as [-> |Hne]; [by left|]. destruct (I9 g t Hg) as [-> |[?|?]].
      * pose proof (frag_place 0 t H Hg). lia.
      * by right; left.
      * right. right. rewrite lookup_delete_ne by lia. done.
  - replace (b - 8 + 8) with b by lia. apply lookup_delete_eq.
Qed.

Definition upd (g : Z -> list Z) (s : Z) (l : list Z) : Z -> list Z := fun t => if t =? s then l else g t.

Lemma avail_get {e} s : inv p F free heap e -> 0 <= s < FRAGSBITS -> exists h, bget (avail (mp p)) s = Some h.
Proof. intros H Hs. apply bget_is_Some. rewrite (iv_avail _ _ _ _ _ H). lia. Qed.

(** The first fragment of a list is taken. *)
Lemma take_free s f av : inv p F free heap 0 -> bget (avail (mp p)) s = Some f -> f <> 0 ->
  bset (avail (mp p)) s (get_le (mem p) f 8) = Some av ->
  exists l, free s = f :: l /\ pending (set_avail p av) F (upd free s l) heap f s.
Proof.
  intros H Hs Hf Hav. pose proof H as [I1 I2 I3 I4 I5 I6 I7 I8 I9]. pose proof (I5 s f Hs) as Hc.
  destruct (free s) as [|f' l] eqn:El; cbn [chain] in Hc; [done|]. destruct Hc as [<- Hc]. exists l. split; [done|].
  assert (F !! f = Some s) as HF by (apply I6; rewrite El; left). pose proof (I7 s) as Hnd. rewrite El in Hnd. apply NoDup_cons in Hnd as [Hnl Hnd].
  apply bset_Some in Hav as [Hr ->]. unfold upd. split; [|split; [done|split]].
  - split; cbn [mp mem set_avail psize avail maps]; try done.
    + destruct I1. by split.
    + by rewrite length_insert.
    + intros t h Ht. assert (0 <= t) by (apply bget_Some in Ht; lia). revert Ht. destruct (Z.eqb_spec t s) as [-> |Hne].
      * rewrite bget_insert_eq by done. by intros [= <-].
      * rewrite bget_insert_ne by lia. apply I5.
    + intros t g Hg. destruct (Z.eqb_spec t s) as [-> |]; [|by apply I6]. apply I6. rewrite El. by right.
    + intros t. destruct (t =? s); [done|apply I7].
    + intros b c Hb. destruct (I8 b c Hb) as (t & H1 & H2 & H3). exists t. split; [done|]. split; [|done].
      intros t'. destruct (Z.eqb_spec t' s) as [-> |]; [|apply H2]. intros Hin. apply (H2 s). rewrite El. by right.
    + intros g t Hg. destruct (decide (g = f)) as [-> |Hne]; [by left|]. right. destruct (I9 g t Hg) as [-> |[[u Hu]|?]]; [|left|by right].
      * pose proof (frag_place 0 t H Hg). lia.
      * exists u. destruct (Z.eqb_spec u s) as [-> |]; [|done]. rewrite El in Hu. apply elem_of_cons in Hu as [-> |?]; done.
  - intros t. destruct (Z.eqb_spec t s) as [-> |Hne]; [done|]. intros Hin%I6. congruence.
  - destruct (heap !! (f + 8)) as [c|] eqn:Eh; [|done]. destruct (I8 _ _ Eh) as (t & _ & Hnt & _). replace (f + 8 - 8) with f in Hnt by lia.
    destruct (Hnt s). rewrite El. left.
Qed.

(** A pending fragment whose header points to the head of its list is put in front. *)
Lemma give_back s f h av : pending p F free heap f s -> bget (avail (mp p)) s = Some h -> get_le (mem p) f 8 = h ->
  bset (avail (mp p)) s f = Some av -> inv (set_avail p av) F (upd free s (f :: free s)) heap 0.
Proof.
  intros (H & Hf & Hn & Hh) Hs Hg Hav. pose proof H as [I1 I2 I3 I4 I5 I6 I7 I8 I9]. apply bset_Some in Hav as [Hr ->]. unfold upd.
  split; cbn [mp mem set_avail psize avail maps]; try done.
  - destruct I1. by split.
  - by rewrite length_insert.
  - intros t h' Ht. assert (0 <= t) by (apply bget_Some in Ht; lia). revert Ht. destruct (Z.eqb_spec t s) as [-> |Hne].
    + rewrite bget_insert_eq by done. intros [= <-]. cbn [chain]. rewrite Hg. split; [done|]. by apply I5.
    + rewrite bget_insert_ne by lia. apply I5.
  - intros t g. destruct (Z.eqb_spec t s) as [-> |]; [|by apply I6]. intros [-> |Hin]%elem_of_cons; [done|by apply I6].
  - intros t. destruct (Z.eqb_spec t s) as [-> |]; [|apply I7]. constructor; [apply Hn|apply I7].
  - intros b c Hb. destruct (I8 b c Hb) as (t & H1 & H2 & H3). exists t. split; [done|]. split; [|done].
    intros t'. destruct (Z.eqb_spec t' s) as [-> |]; [|apply H2]. intros [E|Hin]%elem_of_cons; [|by apply (H2 s)].
    rewrite <- E in Hh. replace (b - 8 + 8) with b in Hh by lia. congruence.
  - intros g t Hgt. right. destruct (decide (g = f)) as [-> |Hne].
    { left. exists s. rewrite Z.eqb_refl. left. }
    destruct (I9 g t Hgt) as [-> |[[u Hu]|?]]; [done|left|by right]. exists u. destruct (Z.eqb_spec u s) as [-> |]; [by right|done].
Qed.

(** A new fragment, where no fragment was; [q] and [m'] are the maps and the memory with it. *)
Lemma new_frag q m' s f : inv p F free heap 0 -> maps_ok q -> avail q = avail (mp p) -> 0 <= s < FRAGSBITS -> f `mod` 8 = 0 ->
  within (maps q) f (fsz s) -> (forall g n, within (maps (mp p)) g n -> within (maps q) g n) ->
  (forall g n, 0 < n -> within (maps (mp p)) g n -> f + fsz s <= g \/ g + n <= f) ->
  (forall g n x, within (maps (mp p)) g n -> g <= x < g + n -> m' x = mem p x) ->
  pending (Pool q m') (<[f := s]> F) free heap f s.
Proof.
  intros H Hq Ha Hs H8 Hw Hmono Hd Hm. pose proof H as [I1 I2 I3 I4 I5 I6 I7 I8 I9]. destruct (fsz_ok s Hs) as [Hz _].
  assert (F !! f = None) as Hnew.
  { destruct (F !! f) as [t|] eqn:E; [|done]. destruct (I3 f t E) as (Ht & _ & Hwt). destruct (fsz_ok t Ht) as [Hzt _]. destruct (Hd f (fsz t)); [lia|done|lia|lia]. }
  assert (forall g t, F !! g = Some t -> (<[f := s]> F) !! g = Some t) as Hin.
  { intros g t Hg. rewrite lookup_insert_ne; [done|]. intros ->. congruence. }
  split; [|split; [apply lookup_insert_eq|split]].
  - split; cbn [mp mem]; try done.
    + by rewrite Ha.
    + intros g t. destruct (decide (g = f)) as [-> |Hne]; [rewrite lookup_insert_eq; intros [= <-]; done|]. rewrite lookup_insert_ne by done.
      intros Hg. destruct (I3 g t Hg) as (? & ? & ?). auto.
    + intros g g' t t'. rewrite !lookup_insert_Some. intros [[<- <-]|[Hg Eg]] [[<- <-]|[Hg' Eg']] Hne; [done| | |by eapply I4].
      * destruct (I3 g' t' Eg') as (Ht & _ & Hwt). destruct (fsz_ok t' Ht) as [Hzt _]. apply Hd; [lia|done].
      * destruct (I3 g t Eg) as (Ht & _ & Hwt). destruct (fsz_ok t Ht) as [Hzt _]. destruct (Hd g (fsz t)); [lia|done|by right|by left].
    + rewrite Ha. intros t h Ht. apply (chain_ext (mem p)); [by apply I5|]. intros g x Hg Hx. specialize (I6 t g Hg).
      destruct (I3 g t I6) as (Ht' & _ & Hwt). destruct (fsz_ok t Ht') as [Hzt _]. apply (Hm g (fsz t)); [done|lia].
    + intros t g Hg. by apply Hin, I6.
    + intros b c Hb. destruct (I8 b c Hb) as (t & H1 & H2 & H3 & H4 & H5). exists t. split; [by apply Hin|]. split; [done|].
      destruct (I3 _ t H1) as (Ht' & _ & Hwt). destruct (fsz_ok t Ht') as [Hzt _]. split; [|split; [done|]].
      * rewrite <- H3. apply get_le_ext. intros x Hx. apply (Hm (b - 8) (fsz t)); [done|lia].
      * rewrite <- H5 at 2. apply read_ext. intros x Hx. apply (Hm (b - 8) (fsz t)); [done|lia].
    + intros g t. rewrite lookup_insert_Some. intros [[<- <-]|[Hg Eg]]; [by left|]. right. destruct (I9 g t Eg) as [-> |?]; [|done].
      pose proof (frag_place 0 t H Eg). lia.
  - intros t Ht%I6. congruence.
  - destruct (heap !! (f + 8)) as [c|] eqn:Eh; [|done]. destruct (I8 _ _ Eh) as (t & Ht & _). replace (f + 8 - 8) with f in Ht by lia. congruence.
Qed.
End Moves.

End MpoolInv.
