(* ===== verification/MpoolOps.v ===== *)
(** * The operations on a pool

    Each operation keeps the invariant and does to the blocks of the callers what its
    name says. *)
From stdpp Require Import base numbers list list_numbers gmap.
From Stdlib Require Import ZArith Lia Bool.
From S2P Require Import Prelude Mpool MpoolFacts MpoolInv.

Local Open Scope Z_scope.

Module MpoolOps.
Import Mpool MpoolFacts MpoolInv.

(** What a mapping request may answer: an aligned area of its own. *)
Definition os_ok (q : MP) (os : Z -> option Z) : Prop :=
  forall i a, os i = Some a -> 0 < a /\ a `mod` 8 = 0 /\ a + i <= 2 ^ 64 /\ Forall (adisj (a, i)) (areas q).

(** The pool holds the blocks [heap]. *)
Definition good (p : pool) (heap : gmap Z (list Z)) : Prop := exists F free, inv p F free heap 0.

(** When an allocation may fail. *)
Definition fails (os : Z -> option Z) (size : Z) : Prop := size = 0 \/ 8388600 < size \/ exists i, os i = None.

(** ** New fragments *)
Lemma find_room_spec needed l f l' : Forall map_ok l -> 0 <= needed <= 8388608 -> find_room needed l = Some (f, l') ->
  exists i m, l !! i = Some m /\ needed <= msize m - usize m /\ f = maddr m + usize m /\ l' = <[i := Map (maddr m) (msize m) (usize m + needed)]> l.
Proof.
  intros HF Hn. revert l'. induction HF as [|m l [_ Hs Hb _ _] HF IH]; intros l'; cbn [find_room]; [done|].
  rewrite (uint_small 32 (msize m - usize m)) by lia. destruct (Z.leb_spec needed (msize m - usize m)).
  - intros [= <- <-]. exists 0%nat, m. rewrite uint_small by lia. done.
  - destruct (find_room needed l) as [[f' l2]|]; [|done]. intros [= <- <-]. destruct (IH l2 eq_refl) as (i & m' & H1 & H2 & H3 & ->). exists (S i), m'. done.
Qed.

Lemma areas_update q (i : nat) m m' : maps q !! i = Some m -> maddr m' = maddr m -> msize m' = msize m ->
  areas (Mp (psize q) (avail q) (<[i := m']> (maps q))) = areas q.
Proof.
  unfold areas. cbn [maps]. destruct (maps q) as [|m0 l]; [done|]. intros Hi Ha Hs. destruct i as [|i].
  - injection Hi as ->. change (<[0%nat := m']> (m :: l)) with (m' :: l). unfold first_area. by rewrite Ha, Hs.
  - change (l !! i = Some m) in Hi. change (<[S i := m']> (m0 :: l)) with (m0 :: <[i := m']> l). f_equal. rewrite list_fmap_insert.
    apply list_insert_id. rewrite list_lookup_fmap, Hi. cbn. unfold area. by rewrite Ha, Hs.
Qed.

Lemma room_frag p F free heap s f l : inv p F free heap 0 -> 0 <= s < FRAGSBITS -> find_room (fsz s) (maps (mp p)) = Some (f, l) ->
  pending (set_maps p l) (<[f := s]> F) free heap f s.
Proof.
  intros H Hs Hr. destruct (fsz_ok s Hs) as [Hz Hz8]. pose proof (iv_maps _ _ _ _ _ H) as HM. pose proof HM as [Hp Hne HF Hd].
  destruct (find_room_spec (fsz s) (maps (mp p)) f l HF ltac:(lia) Hr) as (i & m & Hi & Hroom & -> & ->). clear Hr.
  pose proof HF as HF'. rewrite Forall_lookup in HF'. destruct (HF' i m Hi) as [[Ha Ha8] Hu Hb Hu8 He].
  apply (new_frag (p := p) (Mp (psize (mp p)) (avail (mp p)) (<[i := _]> (maps (mp p))))); cbn [maps avail psize]; try done.
  - split; cbn [maps psize]; [done| | |].
    + intros E. apply (f_equal length) in E. rewrite length_insert in E. by destruct (maps (mp p)).
    + apply Forall_insert; [done|]. split; cbn [maddr msize usize]; [done|lia|lia|rewrite Z.add_mod, Hu8, Hz8 by lia; done|lia].
    + rewrite (areas_update _ _ m) by done. done.
  - rewrite Z.add_mod, Ha8, Hu8 by lia. done.
  - eexists. split; [apply list_elem_of_lookup; exists i; apply list_lookup_insert_eq; by eapply lookup_lt_Some|]. cbn. lia.
  - intros g n (m' & Hm' & H1 & H2). apply list_elem_of_lookup in Hm' as [j Hj]. destruct (decide (i = j)) as [<- |Hij].
    + eexists. split; [apply list_elem_of_lookup; exists i; apply list_lookup_insert_eq; by eapply lookup_lt_Some|]. rewrite Hi in Hj. injection Hj as <-. cbn [maddr msize usize]. lia.
    + exists m'. split; [|done]. apply list_elem_of_lookup. exists j. by rewrite list_lookup_insert_ne.
  - intros g n Hn (m' & Hm' & H1 & H2). apply list_elem_of_lookup in Hm' as [j Hj]. destruct (decide (i = j)) as [<- |Hij].
    + rewrite Hi in Hj. injection Hj as <-. lia.
    + destruct (HF' j m' Hj) as [_ Hu' _ _ _]. destruct (maps_disj _ _ _ _ _ HM Hij Hi Hj); lia.
Qed.

Lemma map_length_ok ps needed : page_ok ps -> 16 <= needed <= 8388608 -> needed + 16 <= map_length ps needed <= 2 ^ 26 /\ map_length ps needed `mod` 8 = 0.
Proof.
  intros Hp Hn. unfold map_length. change (align_to_voidptr sizeof_MPMAP) with 16. rewrite (uint_small 64), (uint_small 32) by lia. pose proof Hp as [? _].
  destruct (Z.ltb_spec MIN_FRAGSIZE (needed + 16)).
  - destruct (align_page ps (needed + 16) Hp); [lia|]. split; [lia|done].
  - unfold MIN_FRAGSIZE in *. destruct (align_page ps 262144 Hp); [lia|]. split; [lia|done].
Qed.

Lemma map_frag p F free heap s a : inv p F free heap 0 -> 0 <= s < FRAGSBITS -> let i := map_length (psize (mp p)) (fsz s) in
  0 < a /\ a `mod` 8 = 0 /\ a + i <= 2 ^ 64 /\ Forall (adisj (a, i)) (areas (mp p)) ->
  pending (new_map a i (fsz s) p) (<[a + 16 := s]> F) free heap (a + 16) s.
Proof.
  intros H Hs i (Ha & Ha8 & He & Hfr). destruct (fsz_ok s Hs) as [Hz Hz8]. pose proof (iv_maps _ _ _ _ _ H) as HM. pose proof HM as [Hp Hne HF Hd].
  destruct (map_length_ok _ (fsz s) Hp Hz) as [Hi Hi8]. fold i in Hi, Hi8. unfold new_map. change (align_to_voidptr sizeof_MPMAP) with 16.
  rewrite (uint_small 32 (fsz s + 16)) by lia.
  assert (forall g n, within (maps (mp p)) g n -> 0 < n -> a + i <= g \/ g + n <= a) as Hout.
  { intros g n (m & Hm & H1 & H2) Hn. pose proof HF as HF'. rewrite Forall_forall in HF'. destruct (HF' m Hm) as [_ Hu _ _ _].
    apply list_elem_of_lookup in Hm as [j Hj]. destruct (areas_lookup _ j m Hj) as (x & Hx & H3 & H4). rewrite Forall_lookup in Hfr.
    destruct (Hfr j x Hx) as [Hd'|Hd']; cbn in Hd'; lia. }
  destruct (maps (mp p)) as [|m0 l] eqn:El; [done|]. apply (new_frag (p := p) (Mp (psize (mp p)) (avail (mp p)) (m0 :: Map a i (fsz s + 16) :: l))); cbn [maps avail psize]; try done.
  - split; cbn [maps psize]; [done|done| |].
    + apply Forall_cons in HF as [HF0 HF]. constructor; [done|]. constructor; [|done]. split; cbn [maddr msize usize]; [done|lia|lia|rewrite Z.add_mod, Hz8 by lia; done|lia].
    + unfold areas in Hd, Hfr |- *. rewrite El in Hd, Hfr. cbn [maps]. apply Forall_cons in Hfr as [Hf0 Hfl]. inversion Hd as [|x y Hx Hy]; subst. constructor.
      * cbn. constructor; [by apply adisj_sym|done].
      * by constructor.
  - rewrite Z.add_mod, Ha8 by lia. done.
  - eexists. split; [right; left|]. cbn [maddr msize usize]. lia.
  - rewrite El. intros g n (m & Hm & Hw). exists m. split; [|done]. apply elem_of_cons in Hm as [-> |Hm]; [left|by right; right].
  - rewrite El. intros g n Hn Hw. destruct (Hout g n Hw Hn); lia.
  - rewrite El. intros g n x Hw Hx. destruct (Z.leb_spec a x), (Z.ltb_spec x (a + i)); try done. destruct (Hout g n Hw); lia.
Qed.

Lemma give_frag_spec p F free heap f s : pending p F free heap f s ->
  exists p', give_frag f s p = Ok (f + 8, p') /\ pending p' F free heap f s /\ get_le (mem p') f 4 = s.
Proof.
  intros Hp. pose proof Hp as (H & Hf & _). pose proof (frag_place f s H Hf) as (H0 & _ & Hz & Hmap). destruct (iv_frag _ _ _ _ _ H f s Hf) as (Hs & _).
  unfold give_frag, store. rewrite Hmap by lia. eexists. split; [done|]. split.
  - apply pending_write; [done|]. intros x Hx. apply set_le_out. lia.
  - apply (get_set_le _ f 4). unfold FRAGSBITS in Hs. cbn in Hs. lia.
Qed.

Lemma adopt_good p F free heap f s n : pending p F free heap f s -> get_le (mem p) f 4 = s -> Z.of_nat n <= fsz s - 8 ->
  f + 8 <> 0 /\ heap !! (f + 8) = None /\ good p (<[f + 8 := read (mem p) (f + 8) n]> heap).
Proof.
  intros Hp Hg Hn. pose proof Hp as (H & Hf & _ & Hh). pose proof (frag_place f s H Hf) as (H0 & _). split; [lia|]. split; [done|].
  eexists _, _. by apply (adopt f s n).
Qed.

(** ** [mpool_malloc] *)

(** The headers of blocks stay as they are when there are only more fragments. *)
Definition kept (p p' : pool) (heap : gmap Z (list Z)) : Prop :=
  forall b l, heap !! b = Some l -> get_le (mem p') (b - 8) 4 = get_le (mem p) (b - 8) 4.

Lemma kept_intro p p' F F' free free' heap e e' : inv p F free heap e -> inv p' F' free' heap e' -> F ⊆ F' -> kept p p' heap.
Proof.
  intros H H' Hsub b l Hb. destruct (iv_live _ _ _ _ _ H b l Hb) as (s & H1 & _ & -> & _). destruct (iv_live _ _ _ _ _ H' b l Hb) as (s' & H1' & _ & -> & _).
  apply (lookup_weaken _ F') in H1; [|done]. congruence.
Qed.

Lemma new_subseteq p q F free heap f s : inv p F free heap 0 -> pending q (<[f := s]> F) free heap f s -> F ⊆ <[f := s]> F.
Proof.
  intros H (_ & _ & Hn & Hh). apply insert_subseteq. destruct (F !! f) as [t|] eqn:E; [|done].
  destruct (iv_all _ _ _ _ _ H f t E) as [-> |[[u Hu]|[c Hc]]]; [|by destruct (Hn u)|congruence]. pose proof (frag_place 0 t H E). lia.
Qed.

Lemma mpool_malloc_spec p heap os size : good p heap -> os_ok (mp p) os -> 0 <= size <= 2 ^ 32 - 16 ->
  exists r p', mpool_malloc os size p = Ok (r, p') /\
    ((r = 0 /\ p' = p /\ fails os size) \/
     (r <> 0 /\ heap !! r = None /\ kept p p' heap /\ good p' (<[r := read (mem p') r (Z.to_nat size)]> heap))).
Proof.
  intros (F & free & H) Hos Hsz. unfold mpool_malloc. pose proof (needed_spec size Hsz) as Hn. cbv zeta in Hn. set (needed := uint 32 _) in *.
  destruct (to_bits_spec needed) as [Hs1 Hs2]. destruct (Z.eqb_spec size 0) as [-> |Hne]; cbn [orb].
  { exists 0, p. split; [done|]. left. split; [done|]. split; [done|]. by left. }
  destruct (Z.le_gt_cases needed 8388608) as [Hle|Hgt].
  2: { rewrite Hs2 by lia. rewrite Z.eqb_refl. exists 0, p. split; [done|]. left. split; [done|]. split; [done|]. right. left.
       revert Hgt Hn. subst needed. unfold FRAG_OVERHEAD, align_to_voidptr. rewrite (uint_small 64) by lia. rewrite uint_small; [|].
       - intros Hgt _. pose proof (Z.div_mod (size + 8) 8). pose proof (Z.mod_pos_bound (size + 8) 8). destruct (Z.eqb_spec ((size + 8) `mod` 8) 0); lia.
       - pose proof (Z.div_mod (size + 8) 8). pose proof (Z.mod_pos_bound (size + 8) 8). destruct (Z.eqb_spec ((size + 8) `mod` 8) 0); lia. }
  destruct (Hs1 Hle) as [Hs Hfit]. set (s := to_bits needed) in *. destruct (Z.eqb_spec s FRAGSBITS) as [|_]; [lia|].
  assert (forall p' F' free' f, F ⊆ F' -> pending p' F' free' heap f s -> exists r p'', give_frag f s p' = Ok (r, p'') /\
    ((r = 0 /\ p'' = p /\ fails os size) \/
     (r <> 0 /\ heap !! r = None /\ kept p p'' heap /\ good p'' (<[r := read (mem p'') r (Z.to_nat size)]> heap)))) as Hdone.
  { intros p' F' free' f Hsub Hp. destruct (give_frag_spec _ _ _ _ _ _ Hp) as (p'' & -> & Hp'' & Hg). exists (f + 8), p''. split; [done|]. right.
    destruct (adopt_good p'' F' free' heap f s (Z.to_nat size) Hp'' Hg) as (? & ? & ?); [lia|]. split; [done|]. split; [done|]. split; [|done].
    by apply (kept_intro p p'' F F' free free' heap 0 f (H) (proj1 Hp'')). }
  destruct (avail_get s H Hs) as [f Hf]. rewrite Hf. cbn [of_opt]. destruct (Z.eqb_spec f 0) as [-> |Hf0]; cbn [negb].
  - rewrite (from_bits_fsz s Hs). destruct (fsz_ok s Hs) as [Hz _]. destruct (Z.eqb_spec (fsz s) 0); [lia|].
    destruct (find_room (fsz s) (maps (mp p))) as [[f l]|] eqn:Er.
    + pose proof (room_frag p F free heap s f l H Hs Er) as Hp. apply (Hdone _ (<[f := s]> F) free f); [|done]. exact (new_subseteq p _ F free heap f s H Hp).
    + destruct (os (map_length (psize (mp p)) (fsz s))) as [a|] eqn:Eo.
      * change (align_to_voidptr sizeof_MPMAP) with 16. pose proof (map_frag p F free heap s a H Hs (Hos _ _ Eo)) as Hp.
        apply (Hdone _ (<[a + 16 := s]> F) free (a + 16)); [|done]. exact (new_subseteq p _ F free heap _ s H Hp).
      * exists 0, p. split; [done|]. left. split; [done|]. split; [done|]. right. right. by eexists.
  - pose proof (iv_chain _ _ _ _ _ H s f Hf) as Hc. destruct (free s) as [|f' l'] eqn:El; cbn [chain] in Hc; [done|]. destruct Hc as [-> Hc].
    assert (F !! f' = Some s) as HF by (apply (iv_free _ _ _ _ _ H); rewrite El; left).
    pose proof (frag_place f' s H HF) as (_ & _ & Hz & Hmap). unfold load. rewrite Hmap by lia. change (Z.to_nat 8) with 8%nat.
    assert (exists av, bset (avail (mp p)) s (get_le (mem p) f' 8) = Some av) as [av Hav].
    { eexists. apply bset_is_Some. rewrite (iv_avail _ _ _ _ _ H). lia. }
    rewrite Hav. cbn [of_opt]. destruct (take_free s f' av H Hf Hf0 Hav) as (l & _ & Hp). by apply (Hdone _ F (upd free s l)).
Qed.

(** ** [mpool_free] *)
Lemma mpool_free_spec p heap b l : good p heap -> heap !! b = Some l -> exists p', mpool_free b p = Ok p' /\ good p' (delete b heap).
Proof.
  intros (F & free & H) Hb. destruct (release b l H Hb) as (s & Hp & Hg & _). pose proof Hp as (H' & Hf & _).
  pose proof (frag_place _ s H' Hf) as (Hpos & Hend & Hz & Hmap). destruct (iv_frag _ _ _ _ _ H _ s Hf) as (Hs & _).
  unfold mpool_free. destruct (Z.eqb_spec b 0) as [-> |_]; [lia|]. unfold FRAG_OVERHEAD, load. rewrite Hmap by lia. change (Z.to_nat 4) with 4%nat. rewrite Hg.
  destruct (avail_get s H Hs) as [h Hh]. rewrite Hh. cbn [of_opt]. unfold store. rewrite Hmap by lia. cbn [mp].
  assert (exists av, bset (avail (mp p)) s (b - 8) = Some av) as [av Hav].
  { eexists. apply bset_is_Some. rewrite (iv_avail _ _ _ _ _ H). lia. }
  rewrite Hav. cbn [of_opt]. eexists. split; [done|]. exists F, (upd free s ((b - 8) :: free s)). apply (give_back (free := free) s (b - 8) h); [|done| |done].
  - apply (pending_write _ (b - 8) s); [done|]. intros x Hx. apply set_le_out. lia.
  - cbn [mem]. apply (get_set_le _ (b - 8) 8). pose proof (iv_chain _ _ _ _ _ H s h Hh) as Hc. destruct (free s) as [|g l'] eqn:El; cbn [chain] in Hc; [lia|].
    destruct Hc as [-> _]. assert (F !! g = Some s) as HF by (apply (iv_free _ _ _ _ _ H); rewrite El; left).
    pose proof (frag_place g s H HF). lia.
Qed.

(** ** Writing to blocks, and blocks of another size *)
Lemma block_write p heap b l m' : good p heap -> heap !! b = Some l -> (forall x, ~ (b <= x < b + Z.of_nat (length l)) -> m' x = mem p x) ->
  good (Pool (mp p) m') (<[b := read m' b (length l)]> heap).
Proof.
  intros (F & free & H) Hb Hm. destruct (release b l H Hb) as (s & Hp & Hg & Hl & _). pose proof (proj1 Hp) as H'.
  pose proof (frag_place _ s H' (proj1 (proj2 Hp))) as (_ & _ & Hz & _).
  assert (pending (Pool (mp p) m') F free (delete b heap) (b - 8) s) as Hp' by (apply pending_write; [done|]; intros x Hx; apply Hm; lia).
  exists F, free. replace b with (b - 8 + 8) at 1 2 by lia. rewrite <- (insert_delete_eq heap). replace (b - 8 + 8) with b by lia.
  pose proof (adopt (b - 8) s (length l) Hp') as Ha. cbn [mem] in Ha. replace (b - 8 + 8) with b in Ha by lia. apply Ha; [|done].
  rewrite <- Hg. apply get_le_ext. intros x Hx. apply Hm. lia.
Qed.

Lemma block_resize p heap b l : good p heap -> heap !! b = Some l -> exists s, get_le (mem p) (b - 8) 4 = s /\ 0 <= s < FRAGSBITS /\
  Z.of_nat (length l) <= fsz s - 8 /\ 0 < b - 8 /\ (forall a n, b - 8 <= a -> a + n <= b - 8 + fsz s -> mapped (mp p) a n = true) /\ read (mem p) b (length l) = l /\
  forall n, Z.of_nat n <= fsz s - 8 -> good p (<[b := read (mem p) b n]> heap).
Proof.
  intros (F & free & H) Hb. destruct (release b l H Hb) as (s & Hp & Hg & Hl & Hr). exists s. pose proof Hp as (H' & Hf & _).
  pose proof (frag_place _ s H' Hf) as (Hpos & _ & Hz & Hmap). destruct (iv_frag _ _ _ _ _ H _ s Hf) as (Hs & _).
  split; [done|]. split; [done|]. split; [done|]. split; [done|]. split; [done|]. split; [done|]. intros n Hn. exists F, free.
  rewrite <- (insert_delete_eq heap). pose proof (adopt (b - 8) s n Hp Hg Hn) as Ha. by replace (b - 8 + 8) with b in Ha by lia.
Qed.

End MpoolOps.
