(* ===== verification/MpoolProps.v ===== *)
(** * A pool is a heap of blocks

    The operations of a pool against those of a heap: a map from addresses to the
    contents of blocks. *)
From stdpp Require Import base numbers list list_numbers gmap.
From Stdlib Require Import ZArith Lia Bool.
From S2P Require Import Prelude Mpool MpoolFacts MpoolInv MpoolOps.

Local Open Scope Z_scope.

Module MpoolProps.
Import Mpool MpoolFacts MpoolInv MpoolOps.

(** ** Operations of the callers *)
Inductive op :=
| Malloc (size : Z)
| Calloc (nmemb size : Z)
| Strdup (s : list Z)
| Free (b : Z)
| Realloc (b size : Z)
| Realloc2 (b size : Z)
| Write (b : Z) (off : nat) (l : list Z)
| Flush.

Definition exec (os : Z -> option Z) (o : op) (p : pool) : res (Z * pool) :=
  match o with
  | Malloc size => mpool_malloc os size p
  | Calloc nmemb size => mpool_calloc os nmemb size p
  | Strdup s => cli_mpool_strdup os (Some s) p
  | Free b => let! p := mpool_free b p in Ok (0, p)
  | Realloc b size => mpool_realloc os b size p
  | Realloc2 b size => mpool_realloc2 os b size p
  | Write b off l => let! p := write (b + Z.of_nat off) l p in Ok (0, p)
  | Flush => Ok (0, mpool_flush p)
  end.


(** ** The heap *)



























(** ** Examples *)

(** A pool of a system with pages of 4096 bytes that has no more memory, with a block of
    ten bytes of which three are written. *)
Definition ex_os : Z -> option Z := fun _ => None.
Definition ex_new : pool := default (Pool (Mp 0 [] []) (fun _ => 0)) (mpool_create (fun _ => Some 65536) 4096).
Definition ex_run (ops : list op) : list Z * pool :=
  foldl (fun '(rs, p) o => match exec ex_os o p with Ok (r, p) => (rs ++ [r], p) | _ => (rs ++ [-1], p) end) ([], ex_new) ops.






(** Blocks that are freed are given out again; a block that grows moves with its bytes. *)
Example ex_reuse : (ex_run [Malloc 10; Malloc 10; Free 66120; Malloc 16; Malloc 17; Malloc 9]).1 = [66120; 66144; 0; 66120; 66168; 66200].
Proof. by vm_compute. Qed.

Example ex_realloc : let '(rs, p) := ex_run [Malloc 10; Malloc 24; Write 66120 0 [1; 2; 3]; Realloc 66120 30; Realloc 66176 31; Realloc 66176 5; Malloc 24] in
  rs = [66120; 66144; 0; 66176; 66176; 66216; 66232] /\ read (mem p) 66216 5 = [1; 2; 3; 0; 0].
Proof. by vm_compute. Qed.

(** The size with the header is taken modulo 2^32: for 4 GiB a block of 8 bytes comes
    back. *)
Lemma big_malloc_truncated : (ex_run [Malloc (2 ^ 32); Malloc 8]).1 = [66120; 66136].
Proof. by vm_compute. Qed.

End MpoolProps.
